(* ===== verification/_CoqProject ===== *)
-Q . S2P
Prelude.v
ByteOrder.v
Streams.v
Message.v
SdOptions.v
SdEntries.v
SdMessage.v
SdReading.v
Tp.v
TpMessage.v
TpReassembler.v
E2eCrc.v
ConfigValues.v
E2eInterface.v
E2eProfile01.v
E2eProfile04.v
E2eProfileCustom.v
E2eProvider.v
ClientIds.v
Event.v
RemoteSubscription.v
Eventgroups.v
Policy.v
Security.v
SecurityConfig.v
SecurityUpdates.v
ServiceInfo.v
SdSessions.v
SdAssembly.v
SdOffers.v
SdRemoteOffers.v
SdSubscriptions.v
SdRenewals.v
SdFinds.v
SdAcks.v
SdSubscribers.v
SdAnswers.v
SdReceive.v
ClientPorts.v
RemoteEndpoints.v
RemoteServices.v
RemoteSafety.v
RemoteLifetime.v
