(* ===== verification/Prelude.v ===== *)
(** * The SOME/IP stack vsomeip: a verification library

    The repository builds Qt together with a set of middleware sources under
    [src/sources/].  The program verified here is vsomeip, the SOME/IP stack
    ([src/sources/vsomeip/]): it exchanges messages with a fixed wire format between
    applications of several devices, announces services and subscriptions by service
    discovery messages, splits long messages into segments, protects payloads end to end
    and distributes events to subscribers.  Paths below are relative to
    [src/sources/vsomeip/implementation/].

    ** Parts and files

    - [Prelude]: machine integers with their wrap-around, the outcomes of a computation
      ([Ret], [Throw], [Undef] for undefined behaviour such as an access outside a buffer,
      [NoFuel]), the state monad [ST], vectors with checked access, tactics and hints.
    - [ByteOrder], [Streams]: the byte order macros ([utility/include/byteorder.hpp]), the
      serializer and the deserializer with position and remaining count
      ([message/src/serializer.cpp], [message/src/deserializer.cpp]).
    - [Message]: payload, header and message ([message/src/]), and the message size helper
      of [utility/src/utility.cpp].
    - [SdOptions], [SdEntries], [SdMessage]: the options, entries and messages of service
      discovery ([service_discovery/src/]).  An entry refers to options of its message by
      index; [SdMessage] assembles messages under a payload limit and reads them;
      [SdReading]: reading depends on the received bytes only.
    - [Tp], [TpMessage], [TpReassembler]: splitting into segments, one message under
      reassembly with its ordered set of segments, and all messages per sender with the
      cleanup timer ([endpoints/src/tp.cpp], [tp_message.cpp], [tp_reassembler.cpp]).
    - [ConfigValues]: numbers written as text in the configuration.
    - [E2eCrc], [E2eInterface], [E2eProfile01], [E2eProfile04], [E2eProfileCustom],
      [E2eProvider]: the checks, the interface of protectors and checkers as type classes,
      its three implementations, and the provider that the routing manager calls
      ([e2e_protection/src/], [configuration/include/e2e.hpp]).
    - [ClientIds]: the assignment of client identifiers ([utility/src/utility.cpp]).
    - [Event]: payload, subscribers, references and cyclic updates of an event
      ([routing/src/event.cpp]).
    - [RemoteSubscription], [Eventgroups]: subscriptions of other devices and interned
      endpoint definitions ([routing/src/remote_subscription.cpp],
      [endpoints/src/endpoint_definition.cpp]); eventgroups with their shared subscription
      objects, and the handlers of the routing manager for subscriptions, their answers and
      their expiry ([routing/src/eventgroupinfo.cpp], [routing/src/routing_manager_impl.cpp]).
    - [Policy]: the wire format of security policies ([security/src/policy.cpp]).
    - [Security]: the policies in force, the decisions whether a user may offer, request or
      call, updates and removals of policies, and the users of clients
      ([security/src/security_impl.cpp]); [SecurityConfig]: how these policies are read from
      the configuration (same file); [SecurityUpdates]: how the routing manager distributes
      updates to the clients, waits for their answers, and what a client does with them
      ([routing/src/routing_manager_stub.cpp], [routing/src/routing_manager_proxy.cpp]), on
      top of [Policy] and [Security].
    - [ServiceInfo]: service instances ([routing/src/serviceinfo.cpp]).
    - [SdSessions]: the sessions of service discovery messages, sending, and the detection
      of reboots ([service_discovery/src/service_discovery_impl.cpp]).
    - [SdAssembly]: how entries are put into messages, and what the messages contain when
      they are sent (same file).
    - [SdOffers]: the phases of an offer (same file), on top of [SdMessage], [SdSessions]
      and [ServiceInfo].
    - [SdFinds]: the requests of applications and the finds for them ([request.cpp], same
      file), with the timers of the initial wait and of the repetitions.
    - [SdRemoteOffers]: what is known of the services of other devices (same file).
    - [SdSubscriptions], [SdRenewals]: the subscriptions of this device ([subscription.cpp],
      same file), and what an offer makes the device send to renew them.
    - [SdAcks], [SdSubscribers]: the subscriptions of other devices as service discovery
      sees them: reading and handling of eventgroup entries, and the acknowledgments
      ([remote_subscription_ack.cpp], same file), on top of [Eventgroups]; [SdAnswers]: what
      these answers are.
    - [SdReceive]: a received message from its bytes to its effects, reboots, the answers of
      applications, start and stop; the state puts all parts of service discovery together.
    - [ClientPorts]: the local ports of clients, from the configuration to the choice of a
      port ([configuration/src/configuration_impl.cpp]).
    - [RemoteEndpoints]: the endpoints, infos and routing info of the services of other
      devices ([endpoints/src/endpoint_manager_impl.cpp], [routing/src/routing_manager_base.cpp],
      [routing/src/routing_manager_stub.cpp]); [RemoteServices]: what the routing manager does
      when such a service is offered, ends or expires ([routing/src/routing_manager_impl.cpp]),
      which runs the calls that [SdReceive] records; [RemoteSafety], [RemoteLifetime]: the
      invariant of this state, with the Hoare style rules [safe] and [keeps] it is proved with,
      and the life of a remote service.

    Classes are records, methods are functions of the state, with the names of the source;
    methods that can fail return an [outcome], an option or a computation of [ST].  Shared
    objects (the subscriptions of an eventgroup, the options of a message, the static
    members of the client identifiers and of the profile 04 checker) are kept in a store
    and referred to by key, so that a change is visible through all references.  Callbacks
    and calls of other components are recorded as effects in the order in which they
    happen.  Locks delimit what is one step: a locked method is one transition; the loop
    that distributes a security update holds no lock, and each of its rounds is one.

    ** What the theorems show

    - Round trips of messages, entries, options, service discovery messages and policies;
      reading of any bytes ends; where the code leaves the buffer, it is by at most two
      bytes, which do not matter for what is read.
    - Splitting and reassembly: all segments in any order yield the message again,
      whatever other traffic is interleaved; unfinished messages expire; the reassembler
      refines one independent slot per sender and message.
    - End-to-end protection: the tables equal bit by bit division; changed bytes are
      detected; protector and checker agree on every stream, through the provider and for
      all profiles at once.
    - Assembly of service discovery messages keeps indices and sizes consistent.
    - Client identifiers are unique and in range, and a request fails only as described.
    - Events: every branch of setting a payload, pending initial events, the timer of
      cyclic updates as a step relation with its invariant; subscribers and references
      refine a set of pairs and a map of counters.
    - Security: what an update of a policy grants, that a removal takes it back, what the
      configured text of a policy decides; the users of clients stay consistent; an update
      is answered to its caller once, however its requests are interleaved with the answers,
      and an update that is distributed is in force at the client that acknowledges it.
    - Subscriptions of other devices: every branch of a subscription, its renewal, its
      answers and its expiry, with the number of targets that decides on multicast.
    - Service discovery: what is sent to an address carries consecutive sessions; a reboot
      of another device is reported exactly when the sessions show it, and once; an offer
      that is collected is announced, repeated and enters the main phase whatever else
      happens, and a stopped one is gone; the messages hold one entry per announced
      service and fit a datagram.
    - Finds: every round looks for exactly what is missing, and an instance is looked for a
      limited number of times per request; finds of other devices are answered with exactly
      the offers that fit.
    - Subscriptions between devices: the states of the clients of this device follow a
      small machine, an offer renews all subscriptions that have what they need, an acknowledgment is passed on once;
      what another device subscribes is either refused with an answer or valid, and once the
      applications have decided the device is answered; the records on the services of other
      devices refine a map and a set.  Runs at the end of [SdReceive] take a message from its
      bytes to the answer on the wire.
    - Remote services: for services that speak SOME/IP and client port ranges below the last
      port, whatever is called in whatever order, no reference dangles and the remote services are exactly the known services that are not local; a service lives as
      long as it was offered for, an offer renews it, its end or the loss of its device takes
      it and all that belongs to it away and nothing else; a shared endpoint is stopped with
      its last service; the local port of a client is chosen as configured and never in use.
    - Where the code does something it does not mean to, a theorem or example states what
      it does.

    ** Bounds

    Loops that are not structural take fuel.  The loops that read are given one round more
    than there are bytes left (every round consumes a byte), which the theorems on reading
    show to be enough; the search for a client identifier is given as many rounds as there
    are identifiers; the loop over services when a policy is written has a 16-bit counter,
    so that 0x10000 rounds are enough whenever it ends, and so has the loop that goes
    through the services of an update, which ends for services below 0xFFFF.
    The search for a local port has a 16-bit counter and is given one round more than there are
    ports, which is enough if one is free.  [NoFuel] is never the result in a theorem that says
    that the code returns.

    ** Parameters

    Code outside the sources is a parameter: the interval containers of Boost.Icl (class
    [Icl] with [IclLaws] and an instance by lists, class [IclFind] with [IclFindLaws] and
    an instance by sets), the trees of Boost.PropertyTree (class [PTree], with an instance
    by nested lists), the clock, the answers of endpoints, of the host ([environment],
    [sd_env], [server_env], [engine_env], [rm_env]) and of the application's callbacks, the contents
    of the configuration, and the addresses at which options are created.

    ** Not modelled

    Of service discovery, [init] only copies the configuration, which is a parameter, and
    [is_subscribed] is called by nothing.  The rest of the routing manager dispatches between
    endpoints, local applications and service discovery under locks, and its state is spread
    over objects of those parts.  Of the endpoint manager, the release of server endpoints and
    the local endpoints are left out.  The endpoints themselves are asynchronous socket input
    and output through Boost.Asio, the rest of the configuration is looked up by fixed keys in
    files and stored, the application object runs threads and user callbacks, plugin loading
    and logging only call the operating system: they are left out.  So are the other vendored
    programs (CommonAPI, fdbus, DLT daemon) and the build scripts. *)
From stdpp Require Export base tactics option list numbers gmap sets sorting.

#[global] Open Scope Z_scope.

(** ** Machine integers

    An unsigned C++ integer of width [w] is a [Z] in [0, 2^w); the functions
    [u8 .. u64] are the conversions [static_cast<uintN_t>]. *)

Definition u8 (z : Z) : Z := z mod 2 ^ 8.
Definition u16 (z : Z) : Z := z mod 2 ^ 16.
Definition u32 (z : Z) : Z := z mod 2 ^ 32.
Definition u64 (z : Z) : Z := z mod 2 ^ 64.

Definition is_u8 (z : Z) : Prop := 0 ≤ z < 2 ^ 8.
Definition is_u16 (z : Z) : Prop := 0 ≤ z < 2 ^ 16.
Definition is_u32 (z : Z) : Prop := 0 ≤ z < 2 ^ 32.
Definition is_u64 (z : Z) : Prop := 0 ≤ z < 2 ^ 64.

#[export] Instance is_u8_dec z : Decision (is_u8 z).
Proof. unfold is_u8. apply _. Defined.
#[export] Instance is_u16_dec z : Decision (is_u16 z).
Proof. unfold is_u16. apply _. Defined.
#[export] Instance is_u32_dec z : Decision (is_u32 z).
Proof. unfold is_u32. apply _. Defined.
#[export] Instance is_u64_dec z : Decision (is_u64 z).
Proof. unfold is_u64. apply _. Defined.

(** A byte sequence: every element is an 8-bit value. *)
Abbreviation bytes := (Forall is_u8).

(** The width predicates and conversions unfold to linear arithmetic with
    constant moduli, which [lia] decides. *)
Ltac unfold_widths :=
  unfold is_u8, is_u16, is_u32, is_u64, u8, u16, u32, u64 in *;
  change (2 ^ 8) with 256 in *; change (2 ^ 16) with 65536 in *;
  change (2 ^ 32) with 4294967296 in *;
  change (2 ^ 64) with 18446744073709551616 in *.
Ltac width_lia := unfold_widths; Z.div_mod_to_equations; lia.

Lemma u8_id z : is_u8 z → u8 z = z.
Proof. intros. apply Z.mod_small. done. Qed.
Lemma u16_id z : is_u16 z → u16 z = z.
Proof. intros. apply Z.mod_small. done. Qed.
Lemma u32_id z : is_u32 z → u32 z = z.
Proof. intros. apply Z.mod_small. done. Qed.
Lemma u64_id z : is_u64 z → u64 z = z.
Proof. intros. apply Z.mod_small. done. Qed.
Lemma is_u8_u8 z : is_u8 (u8 z).
Proof. apply Z.mod_pos_bound. done. Qed.
Lemma is_u16_u16 z : is_u16 (u16 z).
Proof. apply Z.mod_pos_bound. done. Qed.
Lemma is_u32_u32 z : is_u32 (u32 z).
Proof. apply Z.mod_pos_bound. done. Qed.
Lemma is_u8_is_u16 z : is_u8 z → is_u16 z.
Proof. width_lia. Qed.
Lemma is_u16_is_u32 z : is_u16 z → is_u32 z.
Proof. width_lia. Qed.

Create HintDb widths.
Create Rewrite HintDb widths.
#[export] Hint Resolve is_u8_u8 is_u16_u16 is_u32_u32 is_u8_is_u16
  is_u16_is_u32 : widths.
#[export] Hint Rewrite u8_id u16_id u32_id u64_id using (auto with widths) : widths.

(** ** Bit operations as arithmetic *)

(** A disjunction of a shifted word and a word below the shift is a sum. *)
Lemma lor_shiftl_add a b n :
  0 ≤ n → 0 ≤ b < 2 ^ n → Z.lor (Z.shiftl a n) b = a * 2 ^ n + b.
Proof.
  intros Hn Hb.
  rewrite <- (Z.shiftl_mul_pow2 a n) by done.
  rewrite Z.add_nocarry_lxor.
  - apply Z.bits_inj'. intros i Hi.
    rewrite Z.lor_spec, Z.lxor_spec.
    destruct (Z.testbit b i) eqn:Hbi; [|by destruct (Z.testbit _ i)].
    destruct (decide (i < n)).
    + rewrite Z.shiftl_spec_low by done. done.
    + exfalso. rewrite <- (Z.mod_small b (2 ^ n)) in Hbi by done.
      rewrite Z.mod_pow2_bits_high in Hbi; [done|lia].
  - apply Z.bits_inj'. intros i Hi.
    rewrite Z.land_spec, Z.bits_0.
    destruct (decide (i < n)).
    + rewrite Z.shiftl_spec_low by done. done.
    + rewrite <- (Z.mod_small b (2 ^ n)) by done.
      rewrite Z.mod_pow2_bits_high by lia. apply andb_false_r.
Qed.

Lemma land_ff v : Z.land v 0xFF = v mod 256.
Proof. change 0xFF with (Z.ones 8). by rewrite Z.land_ones. Qed.
Lemma land_ffff v : Z.land v 0xFFFF = v mod 65536.
Proof. change 0xFFFF with (Z.ones 16). by rewrite Z.land_ones. Qed.
Lemma land_0f v : Z.land v 0x0F = v mod 16.
Proof. change 0x0F with (Z.ones 4). by rewrite Z.land_ones. Qed.
Lemma shiftr_4 v : Z.shiftr v 4 = v / 16.
Proof. by rewrite Z.shiftr_div_pow2. Qed.
Lemma shiftr_8 v : Z.shiftr v 8 = v / 256.
Proof. by rewrite Z.shiftr_div_pow2. Qed.
Lemma shiftr_16 v : Z.shiftr v 16 = v / 65536.
Proof. by rewrite Z.shiftr_div_pow2. Qed.
Lemma shiftr_24 v : Z.shiftr v 24 = v / 16777216.
Proof. by rewrite Z.shiftr_div_pow2. Qed.
Lemma shiftl_4 v : Z.shiftl v 4 = v * 16.
Proof. by rewrite Z.shiftl_mul_pow2. Qed.
Lemma shiftl_8 v : Z.shiftl v 8 = v * 256.
Proof. by rewrite Z.shiftl_mul_pow2. Qed.

(** Bits at and above [n] of a value below [2^n] are clear. *)
Lemma testbit_above a n i : 0 ≤ a < 2 ^ n → n ≤ i → Z.testbit a i = false.
Proof.
  intros Ha Hi. destruct (decide (0 ≤ n)) as [Hn|Hn].
  - rewrite <- (Z.mod_small a (2 ^ n)) by done.
    by apply Z.mod_pow2_bits_high.
  - rewrite Z.pow_neg_r in Ha; lia.
Qed.

Create Rewrite HintDb bitarith.
#[export] Hint Rewrite land_ff land_ffff land_0f shiftr_4 shiftr_8 shiftr_16 shiftr_24
  shiftl_4 shiftl_8 : bitarith.

(** [bit_lia]: masks and shifts by constants become division and modulus. *)
Ltac bit_lia := autorewrite with bitarith in *; width_lia.

(** ** Outcomes of a C++ computation

    [Ret] is a normal result, [Throw] an exception, [Undef] undefined behaviour
    (an access outside a buffer), [NoFuel] an exhausted iteration budget, which
    the termination theorems exclude. *)

Inductive exn : Type :=
| bad_cast
| out_of_range
| length_error.

Inductive outcome (A : Type) : Type :=
| Ret (a : A)
| Throw (e : exn)
| Undef
| NoFuel.
Arguments Ret {A} _.
Arguments Throw {A} _.
Arguments Undef {A}.
Arguments NoFuel {A}.

Definition outcome_bind {A B} (f : A → outcome B) (m : outcome A) : outcome B :=
  match m with
  | Ret a => f a
  | Throw e => Throw e
  | Undef => Undef
  | NoFuel => NoFuel
  end.

#[export] Instance outcome_mret : MRet outcome := @Ret.
#[export] Instance outcome_mbind : MBind outcome := @outcome_bind.

Lemma outcome_bind_Ret {A B} (a : A) (f : A → outcome B) : Ret a ≫= f = f a.
Proof. done. Qed.

Lemma outcome_bind_inv {A B} (m : outcome A) (f : A → outcome B) b :
  m ≫= f = Ret b → ∃ a, m = Ret a ∧ f a = Ret b.
Proof. destruct m; try done. cbn. eauto. Qed.

(** Take apart a computation that returned: its binds and its branches. *)
Ltac outcome_inv H :=
  match type of H with
  | _ ≫= _ = Ret _ =>
      let a := fresh "a" in let E := fresh "E" in
      apply outcome_bind_inv in H as (a&E&H); cbv beta zeta in H; outcome_inv H
  | Ret _ = Ret _ => inversion H; clear H
  | match ?x with _ => _ end = Ret _ => destruct x eqn:?; try discriminate H; outcome_inv H
  | _ => idtac
  end.

(** Reading an element of a buffer: undefined outside it. *)
Definition vget (l : list Z) (i : Z) : outcome Z :=
  if bool_decide (0 ≤ i) then
    match l !! Z.to_nat i with Some x => Ret x | None => Undef end
  else Undef.

(** Writing an element of a buffer: undefined outside it. *)
Definition vset (l : list Z) (i x : Z) : outcome (list Z) :=
  if bool_decide (0 ≤ i < Z.of_nat (length l)) then Ret (<[Z.to_nat i := x]> l)
  else Undef.

(** The half-open range [from, to) of a buffer: undefined unless it lies in it. *)
Definition vrange (l : list Z) (from to : Z) : outcome (list Z) :=
  if bool_decide (0 ≤ from ≤ to ∧ to ≤ Z.of_nat (length l))
  then Ret (take (Z.to_nat (to - from)) (drop (Z.to_nat from) l))
  else Undef.

(** ** State-passing computations *)

Definition ST (S A : Type) : Type := S → outcome (A * S).

#[export] Instance st_mret S : MRet (ST S) := λ A a s, Ret (a, s).
#[export] Instance st_mbind S : MBind (ST S) := λ A B f m s,
  match m s with
  | Ret (a, s') => f a s'
  | Throw e => Throw e
  | Undef => Undef
  | NoFuel => NoFuel
  end.

Definition st_get {S} : ST S S := λ s, Ret (s, s).
Definition st_modify {S} (f : S → S) : ST S () := λ s, Ret ((), f s).
Definition st_lift {S A} (m : outcome A) : ST S A := λ s, a ← m; Ret (a, s).

(** The short-circuit conjunction of two calls that return [bool]. *)
Definition st_andb {S} (m1 m2 : ST S bool) : ST S bool :=
  b ← m1; if (b : bool) then m2 else mret false.

(** [ok = ok && from->read(var)], where [var] holds [v] before the call: the
    call is skipped when [ok] is false, and a failed call leaves [var] as it
    is. *)
Definition st_try {S A} (ok : bool) (v : A) (m : ST S (option A)) : ST S (bool * A) :=
  if ok then
    r ← m; mret (match r with Some x => (true, x) | None => (false, v) end)
  else mret (false, v).

Declare Scope st_scope.
Delimit Scope st_scope with st.
Notation "m1 <&&> m2" := (st_andb m1 m2) (at level 41, right associativity) : st_scope.
Open Scope st_scope.

(** Unfold the monad and reduce the matches it leaves. *)
Ltac st_run :=
  cbv beta iota delta [mbind st_mbind mret st_mret st_get st_modify st_lift
    st_andb st_try outcome_mbind outcome_bind outcome_mret].

Lemma st_bind_Ret {S A B} (m : ST S A) (k : A → ST S B) s a s' :
  m s = Ret (a, s') → (m ≫= k) s = k a s'.
Proof. intros H. unfold mbind, st_mbind. by rewrite H. Qed.
Lemma st_mret_eq {S A} (a : A) (s : S) : (mret a : ST S A) s = Ret (a, s).
Proof. done. Qed.

Lemma st_bind_inv {S A B} (m : ST S A) (k : A → ST S B) s b s' :
  (m ≫= k) s = Ret (b, s') → ∃ a s1, m s = Ret (a, s1) ∧ k a s1 = Ret (b, s').
Proof.
  unfold mbind, st_mbind. destruct (m s) as [[a s1]| | |]; try done. eauto.
Qed.

Lemma st_try_true_inv {S A} ok (v a : A) (m : ST S (option A)) s s' :
  st_try ok v m s = Ret ((true, a), s') → ok = true ∧ m s = Ret (Some a, s').
Proof.
  destruct ok; [|by intros [= ]]. intros H. split; [done|].
  apply st_bind_inv in H as ([a'|]&s1&Hm&Hk); [|by inversion Hk]. by inversion Hk; subst.
Qed.

(** ** Lists *)

Lemma join_cons {A} (x : list A) xs : mjoin (x :: xs) = x ++ mjoin xs.
Proof. done. Qed.

Lemma vget_lookup l i x : l !! i = Some x → vget l (Z.of_nat i) = Ret x.
Proof.
  intros H. unfold vget. rewrite bool_decide_true by lia.
  by rewrite Nat2Z.id, H.
Qed.

Lemma vget_ret l i : 0 ≤ i < Z.of_nat (length l) → ∃ x, vget l i = Ret x ∧ l !! Z.to_nat i = Some x.
Proof.
  intros H. unfold vget. rewrite bool_decide_true by lia.
  destruct (l !! Z.to_nat i) eqn:E; [by eauto|].
  apply lookup_ge_None in E. lia.
Qed.

Lemma vget_undef l i : ¬ (0 ≤ i < Z.of_nat (length l)) → vget l i = Undef.
Proof.
  intros H. unfold vget. case_bool_decide; [|done].
  destruct (l !! Z.to_nat i) eqn:E; [|done].
  apply lookup_lt_Some in E. lia.
Qed.

Lemma bytes_lookup l i x : bytes l → l !! i = Some x → is_u8 x.
Proof. intros H Hi. by eapply Forall_lookup_1. Qed.

(** ** Maps *)

Lemma alter_insert_lookup `{Countable K} {A} (f : A → A) (m : gmap K A) k v : m !! k = Some v → alter f k m = <[k := f v]> m.
Proof.
  intros Hv. apply map_eq. intros j. destruct (decide (j = k)) as [->|Hj].
  - by rewrite lookup_alter_eq, lookup_insert_eq, Hv.
  - by rewrite lookup_alter_ne, lookup_insert_ne.
Qed.
