(* ===== verification/ByteOrder.v ===== *)
(** The byte-order macros of [utility/include/byteorder.hpp], in the branch the
    preprocessor selects on a little-endian host, and the facts that make the
    big-endian wire format a bijection. *)
From S2P Require Import Prelude.

(** ** The macros *)

Definition VSOMEIP_BYTES_TO_WORD (x0 x1 : Z) : Z := u16 (Z.lor (Z.shiftl x0 8) x1).
Definition VSOMEIP_BYTES_TO_LONG (x0 x1 x2 x3 : Z) : Z :=
  u32 (Z.lor (Z.lor (Z.lor (Z.shiftl x0 24) (Z.shiftl x1 16)) (Z.shiftl x2 8)) x3).
Definition VSOMEIP_WORDS_TO_LONG (x0 x1 : Z) : Z := u32 (Z.lor (Z.shiftl x0 16) x1).

Definition VSOMEIP_WORD_BYTE0 (x : Z) : Z := u8 (Z.land x 0xFF).
Definition VSOMEIP_WORD_BYTE1 (x : Z) : Z := u8 (Z.shiftr x 8).

Definition VSOMEIP_LONG_BYTE0 (x : Z) : Z := u8 (Z.land x 0xFF).
Definition VSOMEIP_LONG_BYTE1 (x : Z) : Z := u8 (Z.land (Z.shiftr x 8) 0xFF).
Definition VSOMEIP_LONG_BYTE2 (x : Z) : Z := u8 (Z.land (Z.shiftr x 16) 0xFF).
Definition VSOMEIP_LONG_BYTE3 (x : Z) : Z := u8 (Z.land (Z.shiftr x 24) 0xFF).

Definition VSOMEIP_LONG_WORD0 (x : Z) : Z := u16 (Z.land x 0xFFFF).
Definition VSOMEIP_LONG_WORD1 (x : Z) : Z := u16 (Z.land (Z.shiftr x 16) 0xFFFF).

(** ** The macros as arithmetic *)

Lemma bytes_to_word_add x0 x1 :
  is_u8 x0 → is_u8 x1 → VSOMEIP_BYTES_TO_WORD x0 x1 = x0 * 256 + x1.
Proof.
  intros H0 H1. unfold VSOMEIP_BYTES_TO_WORD.
  rewrite lor_shiftl_add by (unfold is_u8 in *; lia). width_lia.
Qed.

Lemma words_to_long_add x0 x1 :
  is_u16 x0 → is_u16 x1 → VSOMEIP_WORDS_TO_LONG x0 x1 = x0 * 65536 + x1.
Proof.
  intros H0 H1. unfold VSOMEIP_WORDS_TO_LONG.
  rewrite lor_shiftl_add by (unfold is_u16 in *; lia). width_lia.
Qed.

Lemma bytes_to_long_add x0 x1 x2 x3 :
  is_u8 x0 → is_u8 x1 → is_u8 x2 → is_u8 x3 →
  VSOMEIP_BYTES_TO_LONG x0 x1 x2 x3 = x0 * 16777216 + x1 * 65536 + x2 * 256 + x3.
Proof.
  intros H0 H1 H2 H3. unfold VSOMEIP_BYTES_TO_LONG.
  replace (Z.shiftl x0 24) with (Z.shiftl (Z.shiftl x0 8) 16)
    by (rewrite Z.shiftl_shiftl by lia; done).
  rewrite <- Z.shiftl_lor, (lor_shiftl_add x0 x1 8) by (unfold is_u8 in *; lia).
  replace (Z.shiftl (x0 * 2 ^ 8 + x1) 16) with (Z.shiftl (Z.shiftl (x0 * 2 ^ 8 + x1) 8) 8)
    by (rewrite Z.shiftl_shiftl by lia; done).
  rewrite <- Z.shiftl_lor, (lor_shiftl_add _ x2 8) by (unfold is_u8 in *; lia).
  rewrite lor_shiftl_add by (unfold is_u8 in *; lia). width_lia.
Qed.

(** ** Widths *)

Lemma is_u16_bytes_to_word x0 x1 : is_u16 (VSOMEIP_BYTES_TO_WORD x0 x1).
Proof. apply is_u16_u16. Qed.
Lemma is_u32_bytes_to_long x0 x1 x2 x3 : is_u32 (VSOMEIP_BYTES_TO_LONG x0 x1 x2 x3).
Proof. apply is_u32_u32. Qed.

(** ** Big-endian encodings *)

Definition be16 (v : Z) : list Z := [VSOMEIP_WORD_BYTE1 v; VSOMEIP_WORD_BYTE0 v].
Definition be24 (v : Z) : list Z :=
  [VSOMEIP_LONG_BYTE2 v; VSOMEIP_LONG_BYTE1 v; VSOMEIP_LONG_BYTE0 v].
Definition be32 (v : Z) : list Z := VSOMEIP_LONG_BYTE3 v :: be24 v.

Lemma bytes_be16 v : bytes (be16 v).
Proof. repeat constructor; apply is_u8_u8. Qed.
Lemma bytes_be24 v : bytes (be24 v).
Proof. repeat constructor; apply is_u8_u8. Qed.
Lemma bytes_be32 v : bytes (be32 v).
Proof. repeat constructor; apply is_u8_u8. Qed.

Lemma word_of_be16 v :
  is_u16 v → VSOMEIP_BYTES_TO_WORD (VSOMEIP_WORD_BYTE1 v) (VSOMEIP_WORD_BYTE0 v) = v.
Proof.
  intros Hv. rewrite bytes_to_word_add by apply is_u8_u8.
  unfold VSOMEIP_WORD_BYTE1, VSOMEIP_WORD_BYTE0. bit_lia.
Qed.

Lemma long_of_be32 v :
  is_u32 v →
  VSOMEIP_BYTES_TO_LONG (VSOMEIP_LONG_BYTE3 v) (VSOMEIP_LONG_BYTE2 v)
    (VSOMEIP_LONG_BYTE1 v) (VSOMEIP_LONG_BYTE0 v) = v.
Proof.
  intros Hv. rewrite bytes_to_long_add by apply is_u8_u8.
  unfold VSOMEIP_LONG_BYTE3, VSOMEIP_LONG_BYTE2, VSOMEIP_LONG_BYTE1, VSOMEIP_LONG_BYTE0.
  bit_lia.
Qed.

Lemma be32_of_bytes x0 x1 x2 x3 : is_u8 x0 → is_u8 x1 → is_u8 x2 → is_u8 x3 →
  [x0; x1; x2; x3] = be32 (VSOMEIP_BYTES_TO_LONG x0 x1 x2 x3).
Proof.
  intros. rewrite bytes_to_long_add by done.
  unfold be32, be24, VSOMEIP_LONG_BYTE3, VSOMEIP_LONG_BYTE2, VSOMEIP_LONG_BYTE1, VSOMEIP_LONG_BYTE0.
  do 3 f_equal; try f_equal; bit_lia.
Qed.

Lemma long_of_be24 v :
  0 ≤ v < 2 ^ 24 →
  VSOMEIP_BYTES_TO_LONG 0 (VSOMEIP_LONG_BYTE2 v) (VSOMEIP_LONG_BYTE1 v)
    (VSOMEIP_LONG_BYTE0 v) = v.
Proof.
  intros Hv. change (2 ^ 24) with 16777216 in Hv.
  rewrite bytes_to_long_add by (done || apply is_u8_u8).
  unfold VSOMEIP_LONG_BYTE2, VSOMEIP_LONG_BYTE1, VSOMEIP_LONG_BYTE0.
  bit_lia.
Qed.

#[export] Hint Resolve is_u16_bytes_to_word is_u32_bytes_to_long bytes_be16 bytes_be24
  bytes_be32 : widths.
