(* ===== verification/Streams.v ===== *)
(** The byte streams of [message/src/serializer.cpp] and
    [message/src/deserializer.cpp].

    A serializer owns the bytes it has written.  A deserializer owns a buffer, a
    read position in it (the iterator [position_], as an offset) and the number
    of bytes it may still read ([remaining_]), which is a field of its own and
    not derived from the other two.  Every read that would leave the buffer is
    [Undef]. *)
From S2P Require Import Prelude ByteOrder.

(** * The serializer *)

Record serializer := Serializer {
  ser_data_ : list Z;
  ser_shrink_count_ : Z;
  ser_buffer_shrink_threshold_ : Z }.

Definition serializer_new (threshold : Z) : serializer := Serializer [] 0 threshold.

Definition ser_append (bs : list Z) (s : serializer) : serializer :=
  Serializer (ser_data_ s ++ bs) (ser_shrink_count_ s) (ser_buffer_shrink_threshold_ s).

Definition serialize_u8 (v : Z) : ST serializer bool :=
  _ ← st_modify (ser_append [v]); mret true.

Definition serialize_u16 (v : Z) : ST serializer bool :=
  _ ← st_modify (ser_append [VSOMEIP_WORD_BYTE1 v]);
  _ ← st_modify (ser_append [VSOMEIP_WORD_BYTE0 v]);
  mret true.

Definition serialize_u32 (v : Z) (omit_last_byte : bool) : ST serializer bool :=
  _ ← (if omit_last_byte then mret ()
       else st_modify (ser_append [VSOMEIP_LONG_BYTE3 v]));
  _ ← st_modify (ser_append [VSOMEIP_LONG_BYTE2 v]);
  _ ← st_modify (ser_append [VSOMEIP_LONG_BYTE1 v]);
  _ ← st_modify (ser_append [VSOMEIP_LONG_BYTE0 v]);
  mret true.

(** [serialize(const uint8_t *, uint32_t)]: the range the pointer and the length
    denote is passed as a list. *)
Definition serialize_array (bs : list Z) : ST serializer bool :=
  _ ← st_modify (ser_append bs); mret true.

Definition serialize_vector (bs : list Z) : ST serializer bool :=
  _ ← st_modify (ser_append bs); mret true.

Definition serializer_get_size (s : serializer) : Z := u32 (Z.of_nat (length (ser_data_ s))).

Definition serializer_set_data (bs : list Z) (s : serializer) : serializer :=
  Serializer bs (ser_shrink_count_ s) (ser_buffer_shrink_threshold_ s).

(** The shrink bookkeeping both streams share: [capacity] is what
    [data_.capacity()] returns, [size] what [data_.size()] returns. *)
Definition shrink_count_step (threshold count capacity size : Z) : Z :=
  let count' :=
    if bool_decide (threshold ≠ 0) then
      if bool_decide (size < Z.shiftr capacity 1) then u32 (count + 1) else 0
    else count in
  if bool_decide (threshold ≠ 0 ∧ count' > threshold) then 0 else count'.

Definition serializer_reset (capacity : Z) (s : serializer) : serializer :=
  Serializer []
    (shrink_count_step (ser_buffer_shrink_threshold_ s) (ser_shrink_count_ s) capacity
       (Z.of_nat (length (ser_data_ s))))
    (ser_buffer_shrink_threshold_ s).

(** * The deserializer *)

Record deserializer := Deserializer {
  data_ : list Z;
  position_ : Z;
  remaining_ : Z;
  buffer_shrink_threshold_ : Z;
  shrink_count_ : Z }.

Definition deserializer_new (threshold : Z) : deserializer :=
  Deserializer [] 0 0 threshold 0.

Definition deserializer_of (bs : list Z) (threshold : Z) : deserializer :=
  Deserializer bs 0 (Z.of_nat (length bs)) threshold 0.

Definition get_available (d : deserializer) : Z := Z.of_nat (length (data_ d)).
Definition get_remaining (d : deserializer) : Z := remaining_ d.

Definition set_remaining (r : Z) (d : deserializer) : deserializer :=
  Deserializer (data_ d) (position_ d) r (buffer_shrink_threshold_ d) (shrink_count_ d).

(** [n] bytes consumed: the iterator advances and the allowance shrinks. *)
Definition skip (n : Z) (d : deserializer) : deserializer :=
  Deserializer (data_ d) (position_ d + n) (remaining_ d - n)
    (buffer_shrink_threshold_ d) (shrink_count_ d).

(** [byte = *position_++], with the matching decrement of [remaining_]. *)
Definition next_byte : ST deserializer Z :=
  d ← st_get;
  b ← st_lift (vget (data_ d) (position_ d));
  _ ← st_modify (skip 1);
  mret b.

(** The reads return [Some v] for "true, with [v] in the out parameter", [None]
    for "false, the out parameter untouched". *)
Definition deserialize_u8 : ST deserializer (option Z) :=
  d ← st_get;
  if bool_decide (remaining_ d = 0) then mret None
  else v ← next_byte; mret (Some v).

Definition deserialize_u16 : ST deserializer (option Z) :=
  d ← st_get;
  if bool_decide (2 > remaining_ d) then mret None
  else
    byte0 ← next_byte;
    byte1 ← next_byte;
    mret (Some (VSOMEIP_BYTES_TO_WORD byte0 byte1)).

Definition deserialize_u32 (omit_last_byte : bool) : ST deserializer (option Z) :=
  d ← st_get;
  if bool_decide (3 > remaining_ d) || (negb omit_last_byte && bool_decide (4 > remaining_ d))
  then mret None
  else
    byte0 ← (if omit_last_byte then mret 0 else next_byte);
    byte1 ← next_byte;
    byte2 ← next_byte;
    byte3 ← next_byte;
    mret (Some (VSOMEIP_BYTES_TO_LONG byte0 byte1 byte2 byte3)).

(** The copy the three block reads share: the range at [position_] is copied
    out and consumed. *)
Definition read_block (len : Z) : ST deserializer (option (list Z)) :=
  d ← st_get;
  bs ← st_lift (vrange (data_ d) (position_ d) (position_ d + len));
  _ ← st_modify (skip len);
  mret (Some bs).

Definition deserialize_array (len : Z) : ST deserializer (option (list Z)) :=
  d ← st_get;
  if bool_decide (len > remaining_ d) then mret None
  else read_block len.

(** [capacity] is [_target.capacity()]. *)
Definition deserialize_string (capacity len : Z) : ST deserializer (option (list Z)) :=
  d ← st_get;
  if bool_decide (len > remaining_ d) || bool_decide (len > capacity) then mret None
  else read_block len.

(** [capacity] is [_value.capacity()]. *)
Definition deserialize_vector (capacity : Z) : ST deserializer (option (list Z)) :=
  d ← st_get;
  if bool_decide (capacity > remaining_ d) then mret None
  else read_block capacity.

(** The guards of [look_ahead] compare the index with the size of the buffer and
    not with what is left of it. *)
Definition look_ahead_u8 (index : Z) (d : deserializer) : outcome (option Z) :=
  if bool_decide (index >= Z.of_nat (length (data_ d))) then Ret None
  else v ← vget (data_ d) (position_ d + index); Ret (Some v).

Definition look_ahead_u16 (index : Z) (d : deserializer) : outcome (option Z) :=
  if bool_decide (index + 1 >= Z.of_nat (length (data_ d))) then Ret None
  else
    b0 ← vget (data_ d) (position_ d + index);
    b1 ← vget (data_ d) (position_ d + index + 1);
    Ret (Some (VSOMEIP_BYTES_TO_WORD b0 b1)).

Definition look_ahead_u32 (index : Z) (d : deserializer) : outcome (option Z) :=
  if bool_decide (index + 3 >= Z.of_nat (length (data_ d))) then Ret None
  else
    b0 ← vget (data_ d) (position_ d + index);
    b1 ← vget (data_ d) (position_ d + index + 1);
    b2 ← vget (data_ d) (position_ d + index + 2);
    b3 ← vget (data_ d) (position_ d + index + 3);
    Ret (Some (VSOMEIP_BYTES_TO_LONG b0 b1 b2 b3)).

(** [None] is the null pointer. *)
Definition deserializer_set_data (bs : option (list Z)) (d : deserializer) : deserializer :=
  match bs with
  | Some bs => Deserializer bs 0 (Z.of_nat (length bs))
                 (buffer_shrink_threshold_ d) (shrink_count_ d)
  | None => Deserializer [] 0 0 (buffer_shrink_threshold_ d) (shrink_count_ d)
  end.

Definition append_data (bs : list Z) (d : deserializer) : deserializer :=
  Deserializer (data_ d ++ bs) (position_ d) (remaining_ d + Z.of_nat (length bs))
    (buffer_shrink_threshold_ d) (shrink_count_ d).

Definition drop_data (len : Z) (d : deserializer) : deserializer :=
  let size := Z.of_nat (length (data_ d)) in
  Deserializer (data_ d)
    (if bool_decide (position_ d + len < size) then position_ d + len else size)
    (remaining_ d) (buffer_shrink_threshold_ d) (shrink_count_ d).

Definition deserializer_reset (capacity : Z) (d : deserializer) : deserializer :=
  Deserializer [] 0 0 (buffer_shrink_threshold_ d)
    (shrink_count_step (buffer_shrink_threshold_ d) (shrink_count_ d) capacity
       (Z.of_nat (length (data_ d)))).

(** * What a serializer call appends *)

(** The call succeeds and appends exactly [bs]. *)
Definition writes (m : ST serializer bool) (bs : list Z) : Prop :=
  ∀ s, m s = Ret (true, ser_append bs s).

Lemma ser_append_app bs1 bs2 s :
  ser_append bs2 (ser_append bs1 s) = ser_append (bs1 ++ bs2) s.
Proof. unfold ser_append. simpl. by rewrite (assoc_L (++)). Qed.
Lemma ser_append_nil s : ser_append [] s = s.
Proof. destruct s. unfold ser_append. simpl. by rewrite app_nil_r. Qed.

Lemma writes_u8 v : writes (serialize_u8 v) [v].
Proof. done. Qed.
Lemma writes_u16 v : writes (serialize_u16 v) (be16 v).
Proof. intros s. unfold serialize_u16. st_run. by rewrite ser_append_app. Qed.
Lemma writes_u32 v : writes (serialize_u32 v false) (be32 v).
Proof. intros s. unfold serialize_u32. st_run. by rewrite !ser_append_app. Qed.
Lemma writes_u24 v : writes (serialize_u32 v true) (be24 v).
Proof. intros s. unfold serialize_u32. st_run. by rewrite !ser_append_app. Qed.
Lemma writes_array bs : writes (serialize_array bs) bs.
Proof. done. Qed.
Lemma writes_vector bs : writes (serialize_vector bs) bs.
Proof. done. Qed.
Lemma writes_true : writes (mret true) [].
Proof. intros s. by rewrite ser_append_nil. Qed.

Lemma writes_andb m1 m2 bs1 bs2 :
  writes m1 bs1 → writes m2 bs2 → writes (m1 <&&> m2) (bs1 ++ bs2).
Proof.
  intros H1 H2 s. unfold st_andb.
  by rewrite (st_bind_Ret _ _ _ _ _ (H1 s)), H2, ser_append_app.
Qed.

Lemma writes_bind m k bs1 bs2 :
  writes m bs1 → writes (k true) bs2 → writes (m ≫= k) (bs1 ++ bs2).
Proof.
  intros H1 H2 s. by rewrite (st_bind_Ret _ _ _ _ _ (H1 s)), H2, ser_append_app.
Qed.

Create HintDb stream.
#[export] Hint Resolve writes_u8 writes_u16 writes_u32 writes_u24 writes_array
  writes_vector writes_true writes_andb : stream.

(** * Well-formed deserializers *)

(** The bytes that may still be read lie in the buffer. *)
Definition d_wf (d : deserializer) : Prop :=
  0 ≤ position_ d ∧ 0 ≤ remaining_ d ∧
  position_ d + remaining_ d ≤ Z.of_nat (length (data_ d)).

(** The bytes that may still be read. *)
Definition avail (d : deserializer) : list Z :=
  take (Z.to_nat (remaining_ d)) (drop (Z.to_nat (position_ d)) (data_ d)).

(** [d'] is [d] after reads: same buffer, a later position, and the readable
    window only shrinks. *)
Definition advanced (d d' : deserializer) : Prop :=
  data_ d' = data_ d ∧ position_ d ≤ position_ d' ∧ 0 ≤ remaining_ d' ∧
  position_ d' + remaining_ d' ≤ position_ d + remaining_ d.

Lemma advanced_wf d d' : d_wf d → advanced d d' → d_wf d'.
Proof. intros (?&?&?) (Hd&?&?&?). unfold d_wf. rewrite Hd. lia. Qed.
Lemma advanced_refl d : d_wf d → advanced d d.
Proof. intros (?&?&?). unfold advanced. split_and!; (done || lia). Qed.
Lemma advanced_trans d1 d2 d3 : advanced d1 d2 → advanced d2 d3 → advanced d1 d3.
Proof. intros (E1&?&?&?) (E2&?&?&?). unfold advanced. rewrite E2, E1. split_and!; (done || lia). Qed.
Lemma advanced_skip n d : d_wf d → 0 ≤ n ≤ remaining_ d → advanced d (skip n d).
Proof. intros (?&?&?) ?. unfold advanced, skip. simpl. split_and!; (done || lia). Qed.
Lemma advanced_set_remaining r d :
  d_wf d → 0 ≤ r ≤ remaining_ d → advanced d (set_remaining r d).
Proof. intros (?&?&?) ?. unfold advanced, set_remaining. simpl. split_and!; (done || lia). Qed.
Lemma advanced_remaining d d' : advanced d d' → remaining_ d' ≤ remaining_ d.
Proof. intros (?&?&?&?). lia. Qed.

#[export] Hint Resolve advanced_refl advanced_trans advanced_wf : stream.

Lemma d_wf_skip n d : d_wf d → 0 ≤ n ≤ remaining_ d → d_wf (skip n d).
Proof. eauto using advanced_skip, advanced_wf. Qed.
Lemma skip_skip m n d : skip m (skip n d) = skip (n + m) d.
Proof. unfold skip. simpl. f_equal; lia. Qed.
Lemma skip_0 d : skip 0 d = d.
Proof. destruct d. unfold skip. simpl. f_equal; lia. Qed.

Lemma length_avail d : d_wf d → Z.of_nat (length (avail d)) = remaining_ d.
Proof.
  intros (?&?&?). unfold avail. rewrite length_take, length_drop. lia.
Qed.

Lemma avail_skip n d : d_wf d → 0 ≤ n ≤ remaining_ d →
  avail (skip n d) = drop (Z.to_nat n) (avail d).
Proof.
  intros (?&?&?) ?. unfold avail, skip. simpl.
  rewrite skipn_firstn_comm, drop_drop. f_equal; [lia|]. f_equal. lia.
Qed.

Lemma avail_skip_app d bs rest : d_wf d → avail d = bs ++ rest →
  avail (skip (Z.of_nat (length bs)) d) = rest.
Proof.
  intros Hwf Hav. assert (Hl := length_avail d Hwf). rewrite Hav, length_app in Hl.
  rewrite avail_skip, Hav by (done || lia). by rewrite Nat2Z.id, drop_app_length.
Qed.

Lemma avail_app_remaining d bs rest : d_wf d → avail d = bs ++ rest →
  Z.of_nat (length bs) ≤ remaining_ d.
Proof.
  intros Hwf Hav. rewrite <- (length_avail d Hwf), Hav, length_app. lia.
Qed.

Lemma d_wf_of bs threshold : d_wf (deserializer_of bs threshold).
Proof. unfold d_wf. simpl. lia. Qed.
Lemma avail_of bs threshold : avail (deserializer_of bs threshold) = bs.
Proof. unfold avail. simpl. rewrite drop_0, take_ge; [done|lia]. Qed.

(** A slice at the read position is a prefix of the readable bytes. *)
Lemma vrange_avail d n : d_wf d → 0 ≤ n ≤ remaining_ d →
  vrange (data_ d) (position_ d) (position_ d + n) = Ret (take (Z.to_nat n) (avail d)).
Proof.
  intros (?&?&?) ?. unfold vrange, avail. rewrite bool_decide_true by lia.
  f_equal. rewrite take_take. f_equal. lia.
Qed.

Lemma vget_avail d i : d_wf d → 0 ≤ i < remaining_ d →
  ∃ b, vget (data_ d) (position_ d + i) = Ret b ∧ avail d !! Z.to_nat i = Some b.
Proof.
  intros (?&?&?) ?. destruct (vget_ret (data_ d) (position_ d + i)) as (b&Hb&Hl); [lia|].
  exists b. split; [done|]. unfold avail.
  rewrite lookup_take_lt by lia. rewrite lookup_drop. rewrite <- Hl. f_equal. lia.
Qed.

(** * What a deserializer call consumes *)

(** On a well-formed stream whose readable bytes start with [bs], the call
    returns [a] and consumes exactly [bs]. *)
Definition parses {A} (m : ST deserializer A) (bs : list Z) (a : A) : Prop :=
  ∀ d rest, d_wf d → avail d = bs ++ rest →
    m d = Ret (a, skip (Z.of_nat (length bs)) d).

(** The call neither leaves the buffer nor throws nor diverges, and leaves a
    well-formed stream behind. *)
Definition safe_reader {A} (m : ST deserializer A) : Prop :=
  ∀ d, d_wf d → ∃ a d', m d = Ret (a, d') ∧ advanced d d'.

Lemma parses_ret {A} (a : A) : parses (mret a) [] a.
Proof. intros d rest _ _. cbn [length]. by rewrite skip_0. Qed.

Lemma parses_bind {A B} (m : ST deserializer A) (k : A → ST deserializer B) bs1 bs2 a b :
  parses m bs1 a → parses (k a) bs2 b → parses (m ≫= k) (bs1 ++ bs2) b.
Proof.
  intros Hm Hk d rest Hwf Hav. rewrite <- (assoc_L (++)) in Hav.
  rewrite (st_bind_Ret _ _ _ _ _ (Hm d _ Hwf Hav)).
  rewrite (Hk _ rest), skip_skip, length_app, Nat2Z.inj_add; [done| |].
  - eauto using d_wf_skip, avail_app_remaining with lia.
  - by apply avail_skip_app.
Qed.

(** The last step of a chain: consumes nothing more. *)
Lemma parses_bind_nil {A B} (m : ST deserializer A) (k : A → ST deserializer B) bs a b :
  parses m bs a → parses (k a) [] b → parses (m ≫= k) bs b.
Proof. intros Hm Hk. rewrite <- (app_nil_r bs). by eapply parses_bind. Qed.

Lemma parses_try {A} (m : ST deserializer (option A)) bs v a :
  parses m bs (Some a) → parses (st_try true v m) bs (true, a).
Proof. intros Hm. eapply parses_bind_nil; [exact Hm|]. apply parses_ret. Qed.

Lemma safe_ret {A} (a : A) : safe_reader (mret a).
Proof. intros d Hd. eexists _, _. split; [done|]. by apply advanced_refl. Qed.

Lemma safe_bind {A B} (m : ST deserializer A) (k : A → ST deserializer B) :
  safe_reader m → (∀ a, safe_reader (k a)) → safe_reader (m ≫= k).
Proof.
  intros Hm Hk d Hd. destruct (Hm d Hd) as (a&d1&E1&H1).
  destruct (Hk a d1) as (b&d2&E2&H2); [by eapply advanced_wf|].
  exists b, d2. rewrite (st_bind_Ret _ _ _ _ _ E1). split; [done|].
  by eapply advanced_trans.
Qed.

Lemma safe_get : safe_reader st_get.
Proof. intros d Hd. eexists _, _. split; [done|]. by apply advanced_refl. Qed.

Lemma safe_try {A} ok (v : A) m : safe_reader m → safe_reader (st_try ok v m).
Proof.
  intros Hm. destruct ok; [|apply safe_ret].
  apply safe_bind; [done|]. intros r. apply safe_ret.
Qed.

(** ** The primitive reads *)

Lemma next_byte_ret d : d_wf d → 0 < remaining_ d →
  ∃ b, next_byte d = Ret (b, skip 1 d) ∧ avail d = b :: avail (skip 1 d).
Proof.
  intros Hd Hr. destruct (vget_avail d 0) as (b&Hg&Hl); [done|lia|].
  rewrite Z.add_0_r in Hg. exists b. split.
  - unfold next_byte. st_run. by rewrite Hg.
  - rewrite avail_skip by (done || lia). destruct (avail d); naive_solver.
Qed.

Lemma parses_next_byte b : parses next_byte [b] b.
Proof.
  intros d rest Hd Hav. assert (Hr := avail_app_remaining _ [b] rest Hd Hav).
  destruct (next_byte_ret d Hd) as (b'&E&Hb); [simpl in Hr; lia|].
  rewrite Hav in Hb. injection Hb as -> _. exact E.
Qed.

(** A guarded read: the guard tests the readable bytes and then reads. *)
Lemma parses_guard {A} (g : deserializer → bool) (m : ST deserializer (option A)) bs a :
  (∀ d, Z.of_nat (length bs) ≤ remaining_ d → g d = false) →
  parses m bs a →
  parses (d ← st_get; if g d then mret None else m) bs a.
Proof.
  intros Hg Hm d rest Hd Hav. st_run.
  rewrite Hg by eauto using avail_app_remaining. by apply (Hm d rest).
Qed.

Lemma safe_guard {A} (g : deserializer → bool) (n : Z) (m : ST deserializer (option A)) :
  (∀ d, g d = false → n ≤ remaining_ d) →
  (∀ d, d_wf d → n ≤ remaining_ d → ∃ a d', m d = Ret (a, d') ∧ advanced d d') →
  safe_reader (d ← st_get; if g d then mret None else m).
Proof.
  intros Hg Hm d Hd. st_run. destruct (g d) eqn:E.
  - eexists _, _. split; [done|]. by apply advanced_refl.
  - apply Hm; auto.
Qed.

Lemma parses_u8 b : parses deserialize_u8 [b] (Some b).
Proof.
  apply parses_guard; [intros d Hd; apply bool_decide_false; simpl in Hd; lia|].
  eapply parses_bind_nil; [apply parses_next_byte|apply parses_ret].
Qed.

Lemma parses_u16 v : is_u16 v → parses deserialize_u16 (be16 v) (Some v).
Proof.
  intros Hv. apply parses_guard; [intros d Hd; apply bool_decide_false; simpl in Hd; lia|].
  eapply (parses_bind _ _ [_] [_]); [apply parses_next_byte|].
  eapply parses_bind_nil; [apply parses_next_byte|].
  rewrite word_of_be16 by done. apply parses_ret.
Qed.

Lemma parses_u32 v : is_u32 v → parses (deserialize_u32 false) (be32 v) (Some v).
Proof.
  intros Hv. apply parses_guard.
  { intros d Hd. simpl in Hd. rewrite !bool_decide_false by lia. done. }
  do 3 (eapply (parses_bind _ _ [_]); [apply parses_next_byte|]).
  eapply parses_bind_nil; [apply parses_next_byte|].
  rewrite long_of_be32 by done. apply parses_ret.
Qed.

Lemma parses_u24 v : 0 ≤ v < 2 ^ 24 → parses (deserialize_u32 true) (be24 v) (Some v).
Proof.
  intros Hv. apply parses_guard.
  { intros d Hd. simpl in Hd. rewrite !bool_decide_false by lia. done. }
  eapply (parses_bind _ _ []); [apply parses_ret|].
  do 2 (eapply (parses_bind _ _ [_]); [apply parses_next_byte|]).
  eapply parses_bind_nil; [apply parses_next_byte|].
  rewrite long_of_be24 by done. apply parses_ret.
Qed.

Lemma read_block_ret len d : d_wf d → 0 ≤ len ≤ remaining_ d →
  read_block len d = Ret (Some (take (Z.to_nat len) (avail d)), skip len d).
Proof. intros Hd Hl. unfold read_block. st_run. by rewrite vrange_avail. Qed.

Lemma parses_block bs : parses (read_block (Z.of_nat (length bs))) bs (Some bs).
Proof.
  intros d rest Hd Hav. rewrite read_block_ret.
  - by rewrite Hav, Nat2Z.id, take_app_length.
  - done.
  - eauto using avail_app_remaining with lia.
Qed.

Lemma parses_array bs : parses (deserialize_array (Z.of_nat (length bs))) bs (Some bs).
Proof.
  apply (parses_guard _ (read_block _)), parses_block.
  intros d Hd. apply bool_decide_false. lia.
Qed.
Lemma parses_vector bs : parses (deserialize_vector (Z.of_nat (length bs))) bs (Some bs).
Proof.
  apply (parses_guard _ (read_block _)), parses_block.
  intros d Hd. apply bool_decide_false. lia.
Qed.
Lemma parses_string cap bs : Z.of_nat (length bs) ≤ cap →
  parses (deserialize_string cap (Z.of_nat (length bs))) bs (Some bs).
Proof.
  intros Hc. apply (parses_guard _ (read_block _)), parses_block.
  intros d Hd. rewrite !bool_decide_false by lia. done.
Qed.

(** ** The primitive reads are safe *)

Lemma next_byte_adv d : d_wf d → 1 ≤ remaining_ d →
  ∃ b, next_byte d = Ret (b, skip 1 d) ∧ d_wf (skip 1 d).
Proof.
  intros Hd Hr. destruct (next_byte_ret d Hd) as (b&E&_); [lia|].
  exists b. split; [done|]. apply d_wf_skip; [done|lia].
Qed.

Ltac run_next_byte d :=
  let b := fresh "b" in let E := fresh "E" in let Hw := fresh "Hw" in
  destruct (next_byte_adv d) as (b&E&Hw);
  [done|cbn [skip remaining_]; lia|rewrite (st_bind_Ret _ _ _ _ _ E)].

Lemma safe_u8 : safe_reader deserialize_u8.
Proof.
  intros d Hd. unfold deserialize_u8. rewrite (st_bind_Ret _ _ _ d d) by done.
  destruct Hd as (?&?&?). case_bool_decide.
  - eexists _, _. split; [done|]. by apply advanced_refl.
  - run_next_byte d. eexists _, _. split; [done|]. apply advanced_skip; [done|lia].
Qed.

Lemma safe_u16 : safe_reader deserialize_u16.
Proof.
  apply (safe_guard _ 2); [intros d; rewrite bool_decide_eq_false; lia|].
  intros d Hd Hr. run_next_byte d. run_next_byte (skip 1 d).
  eexists _, _. split; [done|]. rewrite skip_skip. apply advanced_skip; [done|lia].
Qed.

Lemma safe_u32 omit : safe_reader (deserialize_u32 omit).
Proof.
  apply (safe_guard _ (if omit then 3 else 4)).
  { intros d. destruct omit; simpl; rewrite ?orb_false_iff, ?bool_decide_eq_false; lia. }
  intros d Hd Hr. destruct omit.
  - rewrite (st_bind_Ret _ _ _ 0 d) by done.
    run_next_byte d. run_next_byte (skip 1 d). run_next_byte (skip 1 (skip 1 d)).
    eexists _, _. split; [done|]. rewrite !skip_skip. apply advanced_skip; [done|lia].
  - run_next_byte d. run_next_byte (skip 1 d). run_next_byte (skip 1 (skip 1 d)).
    run_next_byte (skip 1 (skip 1 (skip 1 d))).
    eexists _, _. split; [done|]. rewrite !skip_skip. apply advanced_skip; [done|lia].
Qed.

Lemma safe_block (g : deserializer → bool) len : 0 ≤ len →
  (∀ d, g d = false → len ≤ remaining_ d) →
  safe_reader (d ← st_get; if g d then mret None else read_block len).
Proof.
  intros Hl Hg. apply (safe_guard _ len _ Hg). intros d Hd Hr.
  eexists _, _. split; [by apply read_block_ret|]. by apply advanced_skip.
Qed.

Lemma safe_array len : 0 ≤ len → safe_reader (deserialize_array len).
Proof. intros. apply safe_block; [done|]. intros d. rewrite bool_decide_eq_false. lia. Qed.
Lemma safe_vector len : 0 ≤ len → safe_reader (deserialize_vector len).
Proof. intros. apply safe_block; [done|]. intros d. rewrite bool_decide_eq_false. lia. Qed.
Lemma safe_string cap len : 0 ≤ len → safe_reader (deserialize_string cap len).
Proof.
  intros. apply safe_block; [done|]. intros d.
  rewrite orb_false_iff, !bool_decide_eq_false. lia.
Qed.

#[export] Hint Resolve safe_ret safe_bind safe_try safe_u8 safe_u16 safe_u32 safe_array
  safe_vector safe_string safe_get : stream.
#[export] Hint Resolve parses_ret parses_try parses_u8 parses_u16 parses_u32 parses_u24
  parses_array parses_vector parses_string : stream.

(** * Bytes stay bytes *)

Lemma bytes_avail d : bytes (data_ d) → bytes (avail d).
Proof. intros H. unfold avail. by apply Forall_take, Forall_drop. Qed.

(** A successful 8-bit read of a byte buffer is a byte. *)
Lemma next_byte_is_u8 d b d' : bytes (data_ d) → next_byte d = Ret (b, d') →
  is_u8 b ∧ data_ d' = data_ d.
Proof.
  intros Hb. unfold next_byte, vget. st_run. case_bool_decide; [|done].
  destruct (data_ d !! _) eqn:E; [|done]. intros [= <- <-].
  eauto using bytes_lookup.
Qed.

(** ** What a successful read consumed *)

Lemma next_byte_inv d b d' : next_byte d = Ret (b, d') → d' = skip 1 d.
Proof.
  unfold next_byte. st_run. destruct (vget _ _); try done. by intros [= _ <-].
Qed.

Lemma deserialize_u8_Some d v d' : deserialize_u8 d = Ret (Some v, d') → d' = skip 1 d.
Proof.
  unfold deserialize_u8. rewrite (st_bind_Ret _ _ _ d d) by done.
  case_bool_decide; [done|]. intros Hrun.
  apply st_bind_inv in Hrun as (b&d1&E%next_byte_inv&[= -> ->]). done.
Qed.

Lemma deserialize_u16_Some d v d' :
  deserialize_u16 d = Ret (Some v, d') → d' = skip 2 d ∧ is_u16 v.
Proof.
  unfold deserialize_u16. rewrite (st_bind_Ret _ _ _ d d) by done.
  case_bool_decide; [done|]. intros Hrun.
  apply st_bind_inv in Hrun as (b0&d1&->%next_byte_inv&Hrun).
  apply st_bind_inv in Hrun as (b1&d2&->%next_byte_inv&[= <- <-]).
  rewrite skip_skip. auto with widths.
Qed.

Lemma deserialize_u32_Some omit d v d' :
  deserialize_u32 omit d = Ret (Some v, d') →
  d' = skip (if omit then 3 else 4) d ∧ is_u32 v ∧ (if omit then 3 else 4) ≤ remaining_ d.
Proof.
  unfold deserialize_u32. rewrite (st_bind_Ret _ _ _ d d) by done.
  destruct (bool_decide (3 > _) || _) eqn:G; [done|]. intros Hrun.
  apply st_bind_inv in Hrun as (b0&d0&E0&Hrun).
  apply st_bind_inv in Hrun as (b1&d1&->%next_byte_inv&Hrun).
  apply st_bind_inv in Hrun as (b2&d2&->%next_byte_inv&Hrun).
  apply st_bind_inv in Hrun as (b3&d3&->%next_byte_inv&[= <- <-]).
  apply orb_false_iff in G as [G1%bool_decide_eq_false G2].
  destruct omit; simpl in G2; [injection E0 as <- <-|apply next_byte_inv in E0 as ->];
    rewrite !skip_skip; split_and!; auto with widths; try lia.
  apply bool_decide_eq_false in G2. lia.
Qed.

Lemma deserialize_vector_Some cap d bs d' : d_wf d → 0 ≤ cap →
  deserialize_vector cap d = Ret (Some bs, d') →
  d' = skip cap d ∧ cap ≤ remaining_ d ∧ bs = take (Z.to_nat cap) (avail d).
Proof.
  intros Hd Hc. unfold deserialize_vector. rewrite (st_bind_Ret _ _ _ d d) by done.
  case_bool_decide; [done|]. rewrite read_block_ret by (done || lia).
  intros [= <- <-]. split_and!; [done|lia|done].
Qed.

(** ** Readers that report success

    [reader ok n m]: [m] is safe, it can report success only if [ok] holds, and
    then it has consumed at least [n] bytes.  It is the contract between a field
    chain [ok = ok && ...] and the loops that call it. *)
Definition reader {A} (ok : bool) (n : Z) (m : ST deserializer (bool * A)) : Prop :=
  ∀ d, d_wf d → ∃ ok' a d', m d = Ret ((ok', a), d') ∧ advanced d d' ∧
    (ok' = true → ok = true ∧ remaining_ d' + n ≤ remaining_ d).

Lemma reader_ret {A} ok (a : A) : reader ok 0 (mret (ok, a)).
Proof.
  intros d Hd. eexists _, _, _. split_and!; [done|by apply advanced_refl|].
  intros ->. split; [done|lia].
Qed.

Lemma reader_ret_false {A} ok n (a : A) : reader ok n (mret (false, a)).
Proof. intros d Hd. eexists _, _, _. split_and!; [done|by apply advanced_refl|done]. Qed.

Lemma reader_bind {A B} ok n n' (m : ST deserializer (bool * A))
    (k : bool * A → ST deserializer (bool * B)) :
  reader ok n m → (∀ ok' a, reader ok' n' (k (ok', a))) → reader ok (n + n') (m ≫= k).
Proof.
  intros Hm Hk d Hd. destruct (Hm d Hd) as (ok1&a&d1&E1&H1&Hc1).
  destruct (Hk ok1 a d1) as (ok2&b&d2&E2&H2&Hc2); [by eapply advanced_wf|].
  eexists _, _, _. rewrite (st_bind_Ret _ _ _ _ _ E1), E2.
  split_and!; [done|by eapply advanced_trans|]. intros Hok.
  destruct (Hc2 Hok) as [Hok1 ?], (Hc1 Hok1). split; [done|lia].
Qed.

Lemma reader_bind_safe {A B} ok n (m : ST deserializer A)
    (k : A → ST deserializer (bool * B)) :
  safe_reader m → (∀ a, reader ok n (k a)) → reader ok n (m ≫= k).
Proof.
  intros Hm Hk d Hd. destruct (Hm d Hd) as (a&d1&E1&H1).
  destruct (Hk a d1) as (ok2&b&d2&E2&H2&Hc2); [by eapply advanced_wf|].
  eexists _, _, _. rewrite (st_bind_Ret _ _ _ _ _ E1), E2.
  split_and!; [done|by eapply advanced_trans|]. intros Hok.
  destruct (Hc2 Hok). apply advanced_remaining in H1. split; [done|lia].
Qed.

Lemma reader_weaken {A} ok ok' n n' (m : ST deserializer (bool * A)) :
  reader ok n m → (ok = true → ok' = true) → n' ≤ n → reader ok' n' m.
Proof.
  intros Hm Hok Hn d Hd. destruct (Hm d Hd) as (ok1&a&d1&E1&H1&Hc1).
  eexists _, _, _. split_and!; [done|done|]. intros Ht. destruct (Hc1 Ht).
  split; [auto|lia].
Qed.

Lemma reader_try {A} ok n (v : A) (m : ST deserializer (option A)) :
  safe_reader m →
  (∀ d a d', m d = Ret (Some a, d') → remaining_ d' + n ≤ remaining_ d) →
  reader ok n (st_try ok v m).
Proof.
  intros Hs Hm d Hd. destruct (safe_try ok v m Hs d Hd) as ([ok' a]&d'&E&H).
  eexists _, _, _. split_and!; [done|done|]. intros ->.
  apply st_try_true_inv in E as [-> E]. eauto.
Qed.

Lemma reader_safe {A} ok n (m : ST deserializer (bool * A)) : reader ok n m → safe_reader m.
Proof. intros Hm d Hd. destruct (Hm d Hd) as (?&?&?&?&?&_). eauto. Qed.

Lemma reader_u8 ok (v : Z) : reader ok 1 (st_try ok v deserialize_u8).
Proof.
  apply reader_try; [auto with stream|]. intros d a d' ->%deserialize_u8_Some. simpl. lia.
Qed.
Lemma reader_u16 ok (v : Z) : reader ok 2 (st_try ok v deserialize_u16).
Proof.
  apply reader_try; [auto with stream|]. intros d a d' [-> _]%deserialize_u16_Some.
  simpl. lia.
Qed.
Lemma reader_u32 ok (v : Z) (omit : bool) :
  reader ok (if omit then 3 else 4) (st_try ok v (deserialize_u32 omit)).
Proof.
  apply reader_try; [auto with stream|]. intros d a d' (->&_)%deserialize_u32_Some.
  simpl. lia.
Qed.
#[export] Hint Resolve reader_ret reader_u8 reader_u16 reader_u32 : stream.

(** * Reads beside the window

    [look_ahead] and [drop_data] do not use [remaining_]. *)

(** A look-ahead inside the readable window is the byte found there. *)
Lemma look_ahead_u8_window i d : d_wf d → 0 ≤ i < remaining_ d →
  ∃ b, look_ahead_u8 i d = Ret (Some b) ∧ avail d !! Z.to_nat i = Some b.
Proof.
  intros Hd Hi. destruct (vget_avail d i Hd Hi) as (b&Hg&Hb). exists b. split; [|done].
  unfold look_ahead_u8. destruct Hd as (?&?&?). rewrite bool_decide_false by lia.
  by rewrite Hg.
Qed.

(** * Theorems *)

(** A look-ahead that passes its guard can still read outside the buffer.
    The guard compares the index with the size of the whole buffer, so once
    [position_] has moved, an index that is in range of the buffer but not of what
    follows the position is an out-of-bounds read; with the position at the start
    the guard is exact. *)
Theorem look_ahead_u8_bounds i d :
  0 ≤ i → d_wf d →
  (position_ d = 0 → look_ahead_u8 i d ≠ Undef) ∧
  (Z.of_nat (length (data_ d)) ≤ position_ d + i →
   i < Z.of_nat (length (data_ d)) → look_ahead_u8 i d = Undef).
Proof.
  intros Hi (?&?&?). unfold look_ahead_u8. split; intros Hp.
  - case_bool_decide; [done|]. rewrite Hp.
    destruct (vget_ret (data_ d) (0 + i)) as (b&->&_); [lia|done].
  - intros Hs. rewrite bool_decide_false by lia. rewrite vget_undef by lia. done.
Qed.

Lemma look_ahead_u8_bounds_witness :
  let d := skip 2 (deserializer_of [1; 2; 3] 0) in
  (position_ d = 0 → look_ahead_u8 2 d ≠ Undef) ∧
  (Z.of_nat (length (data_ d)) ≤ position_ d + 2 →
   2 < Z.of_nat (length (data_ d)) → look_ahead_u8 2 d = Undef).
Proof.
  apply (look_ahead_u8_bounds 2 (skip 2 (deserializer_of [1; 2; 3] 0))).
  - lia.
  - split_and!; vm_compute; done.
Defined.

(** [drop_data] moves the position without giving up the bytes it dropped, so
    the stream it leaves is well-formed only if the drop was empty or the window
    ended far enough before the end of the buffer; after dropping everything, the
    next read leaves the buffer although bytes are reported as remaining. *)
Theorem drop_data_unaccounted n d :
  d_wf d → 0 ≤ n → position_ d + n ≤ Z.of_nat (length (data_ d)) →
  (d_wf (drop_data n d) ↔
   position_ d + n + remaining_ d ≤ Z.of_nat (length (data_ d))) ∧
  (position_ d + n = Z.of_nat (length (data_ d)) → 0 < remaining_ d →
   deserialize_u8 (drop_data n d) = Undef).
Proof.
  intros (?&?&?) ? Hn.
  assert (position_ (drop_data n d) = position_ d + n) as Hp.
  { unfold drop_data. cbn. case_bool_decide; lia. }
  split.
  - unfold d_wf. rewrite Hp. unfold drop_data. cbn [remaining_ data_]. lia.
  - intros Hend Hr. unfold deserialize_u8, next_byte. st_run.
    rewrite bool_decide_false by (cbn; lia). rewrite vget_undef; [done|].
    rewrite Hp. cbn [data_ drop_data]. lia.
Qed.

Lemma drop_data_unaccounted_witness :
  let d := deserializer_of [7; 8; 9] 0 in
  (d_wf (drop_data 3 d) ↔ position_ d + 3 + remaining_ d ≤ Z.of_nat (length (data_ d))) ∧
  (position_ d + 3 = Z.of_nat (length (data_ d)) → 0 < remaining_ d →
   deserialize_u8 (drop_data 3 d) = Undef).
Proof.
  apply (drop_data_unaccounted 3 (deserializer_of [7; 8; 9] 0)).
  - apply d_wf_of.
  - lia.
  - vm_compute. done.
Defined.
