(* ===== verification/Message.v ===== *)
(** SOME/IP messages: [message/src/payload_impl.cpp], [message_header_impl.cpp],
    [message_base_impl.cpp], [message_impl.cpp], the constants of
    [interface/vsomeip], and the message-size helpers of [utility].

    An [enum class] with underlying type [uint8_t] can hold every 8-bit value, so
    message types and return codes are 8-bit integers with named enumerators. *)
From S2P Require Import Prelude ByteOrder Streams.

(** * Constants *)

Definition VSOMEIP_SOMEIP_HEADER_SIZE : Z := 8.
Definition VSOMEIP_FULL_HEADER_SIZE : Z := 16.

Definition MT_REQUEST : Z := 0x00.
Definition MT_REQUEST_NO_RETURN : Z := 0x01.
Definition MT_NOTIFICATION : Z := 0x02.
Definition MT_REQUEST_ACK : Z := 0x40.
Definition MT_REQUEST_NO_RETURN_ACK : Z := 0x41.
Definition MT_NOTIFICATION_ACK : Z := 0x42.
Definition MT_RESPONSE : Z := 0x80.
Definition MT_ERROR : Z := 0x81.
Definition MT_RESPONSE_ACK : Z := 0xC0.
Definition MT_ERROR_ACK : Z := 0xC1.
Definition MT_UNKNOWN : Z := 0xFF.

Definition E_OK : Z := 0x00.
Definition E_NOT_OK : Z := 0x01.
Definition E_UNKNOWN_SERVICE : Z := 0x02.
Definition E_UNKNOWN_METHOD : Z := 0x03.
Definition E_NOT_READY : Z := 0x04.
Definition E_NOT_REACHABLE : Z := 0x05.
Definition E_TIMEOUT : Z := 0x06.
Definition E_WRONG_PROTOCOL_VERSION : Z := 0x07.
Definition E_WRONG_INTERFACE_VERSION : Z := 0x08.
Definition E_MALFORMED_MESSAGE : Z := 0x09.
Definition E_WRONG_MESSAGE_TYPE : Z := 0x0A.
Definition E_UNKNOWN : Z := 0xFF.

(** The wildcard identifiers of [internal.hpp]. *)
Definition ANY_UID : Z := 0xFFFFFFFF.
Definition ANY_GID : Z := 0xFFFFFFFF.

(** * Payloads *)

(** A [std::vector<byte_t>] with its capacity, which [reserve] raises to exactly
    the requested value and [assign] raises to the assigned length. *)
Record vec := Vec { velems : list Z; vcap : Z }.

Definition vec_assign (bs : list Z) (v : vec) : vec :=
  Vec bs (Z.max (vcap v) (Z.of_nat (length bs))).
Definition vec_reserve (n : Z) (v : vec) : vec := Vec (velems v) (Z.max (vcap v) n).

Record payload_impl := Payload { pl_data_ : vec }.

Definition payload_new : payload_impl := Payload (Vec [] 0).
Definition payload_of (bs : list Z) : payload_impl :=
  Payload (Vec bs (Z.of_nat (length bs))).
Definition payload_eqb (p q : payload_impl) : bool :=
  bool_decide (velems (pl_data_ p) = velems (pl_data_ q)).
Definition payload_get_length (p : payload_impl) : Z :=
  u32 (Z.of_nat (length (velems (pl_data_ p)))).
Definition payload_set_capacity (n : Z) (p : payload_impl) : payload_impl :=
  Payload (vec_reserve n (pl_data_ p)).
Definition payload_set_data (bs : list Z) (p : payload_impl) : payload_impl :=
  Payload (vec_assign bs (pl_data_ p)).

Definition payload_serialize (p : payload_impl) : ST serializer bool :=
  serialize_vector (velems (pl_data_ p)).

Definition payload_deserialize (p : payload_impl) : ST deserializer (bool * payload_impl) :=
  r ← deserialize_vector (vcap (pl_data_ p));
  mret (match r with
        | Some bs => (true, Payload (vec_assign bs (pl_data_ p)))
        | None => (false, p)
        end).

(** * Headers *)

Record message_header := Header {
  service_ : Z;
  method_ : Z;
  length_ : Z;
  client_ : Z;
  session_ : Z;
  protocol_version_ : Z;
  interface_version_ : Z;
  type_ : Z;
  code_ : Z;
  instance_ : Z }.

Definition message_header_new : message_header :=
  Header 0 0 0 0 0 1 0 MT_UNKNOWN E_UNKNOWN 0.

(** [owner_length] is [owner_->get_length()]. *)
Definition message_header_serialize (owner_length : Z) (h : message_header) :
    ST serializer bool :=
  serialize_u16 (service_ h)
  <&&> serialize_u16 (method_ h)
  <&&> serialize_u32 owner_length false
  <&&> serialize_u16 (client_ h)
  <&&> serialize_u16 (session_ h)
  <&&> serialize_u8 (protocol_version_ h)
  <&&> serialize_u8 (interface_version_ h)
  <&&> serialize_u8 (type_ h)
  <&&> serialize_u8 (code_ h).

Definition message_header_deserialize (h : message_header) :
    ST deserializer (bool * message_header) :=
  '(ok, service) ← st_try true (service_ h) deserialize_u16;
  '(ok, method) ← st_try ok (method_ h) deserialize_u16;
  '(ok, length) ← st_try ok (length_ h) (deserialize_u32 false);
  '(ok, client) ← st_try ok (client_ h) deserialize_u16;
  '(ok, session) ← st_try ok (session_ h) deserialize_u16;
  '(ok, protocol_version) ← st_try ok (protocol_version_ h) deserialize_u8;
  '(ok, interface_version) ← st_try ok (interface_version_ h) deserialize_u8;
  '(ok, tmp_message_type) ← st_try ok (type_ h) deserialize_u8;
  '(ok, tmp_return_code) ← st_try ok (code_ h) deserialize_u8;
  mret (ok, Header service method length client session protocol_version interface_version
              (if (ok : bool) then tmp_message_type else type_ h)
              (if ok then tmp_return_code else code_ h)
              (instance_ h)).

(** * The message base *)

Record message_base := MessageBase {
  header_ : message_header;
  is_reliable_ : bool;
  is_initial_ : bool }.

Definition message_base_new : message_base := MessageBase message_header_new false false.

Definition get_message (m : message_base) : Z :=
  VSOMEIP_WORDS_TO_LONG (service_ (header_ m)) (method_ (header_ m)).

Definition with_header (f : message_header → message_header) (m : message_base) :
    message_base :=
  MessageBase (f (header_ m)) (is_reliable_ m) (is_initial_ m).

Definition set_message (message : Z) : message_base → message_base :=
  with_header (λ h, Header (VSOMEIP_LONG_WORD0 message) (VSOMEIP_LONG_WORD1 message)
    (length_ h) (client_ h) (session_ h) (protocol_version_ h) (interface_version_ h)
    (type_ h) (code_ h) (instance_ h)).

Definition set_service (v : Z) : message_base → message_base :=
  with_header (λ h, Header v (method_ h) (length_ h) (client_ h) (session_ h)
    (protocol_version_ h) (interface_version_ h) (type_ h) (code_ h) (instance_ h)).
Definition set_instance (v : Z) : message_base → message_base :=
  with_header (λ h, Header (service_ h) (method_ h) (length_ h) (client_ h) (session_ h)
    (protocol_version_ h) (interface_version_ h) (type_ h) (code_ h) v).
Definition set_method (v : Z) : message_base → message_base :=
  with_header (λ h, Header (service_ h) v (length_ h) (client_ h) (session_ h)
    (protocol_version_ h) (interface_version_ h) (type_ h) (code_ h) (instance_ h)).
Definition get_request (m : message_base) : Z :=
  VSOMEIP_WORDS_TO_LONG (client_ (header_ m)) (session_ (header_ m)).
Definition set_client (v : Z) : message_base → message_base :=
  with_header (λ h, Header (service_ h) (method_ h) (length_ h) v (session_ h)
    (protocol_version_ h) (interface_version_ h) (type_ h) (code_ h) (instance_ h)).
Definition set_session (v : Z) : message_base → message_base :=
  with_header (λ h, Header (service_ h) (method_ h) (length_ h) (client_ h) v
    (protocol_version_ h) (interface_version_ h) (type_ h) (code_ h) (instance_ h)).
Definition set_protocol_version (v : Z) : message_base → message_base :=
  with_header (λ h, Header (service_ h) (method_ h) (length_ h) (client_ h) (session_ h)
    v (interface_version_ h) (type_ h) (code_ h) (instance_ h)).
Definition set_interface_version (v : Z) : message_base → message_base :=
  with_header (λ h, Header (service_ h) (method_ h) (length_ h) (client_ h) (session_ h)
    (protocol_version_ h) v (type_ h) (code_ h) (instance_ h)).
Definition set_message_type (v : Z) : message_base → message_base :=
  with_header (λ h, Header (service_ h) (method_ h) (length_ h) (client_ h) (session_ h)
    (protocol_version_ h) (interface_version_ h) v (code_ h) (instance_ h)).
Definition set_return_code (v : Z) : message_base → message_base :=
  with_header (λ h, Header (service_ h) (method_ h) (length_ h) (client_ h) (session_ h)
    (protocol_version_ h) (interface_version_ h) (type_ h) v (instance_ h)).
Definition set_reliable (v : bool) (m : message_base) : message_base :=
  MessageBase (header_ m) v (is_initial_ m).
Definition set_initial (v : bool) (m : message_base) : message_base :=
  MessageBase (header_ m) (is_reliable_ m) v.

(** * Messages *)

(** A null [payload_] pointer is [None]. *)
Record message_impl := Message {
  base : message_base;
  payload_ : option payload_impl;
  check_result_ : Z;
  uid_ : Z;
  gid_ : Z }.

Definition message_new : message_impl :=
  Message message_base_new (Some payload_new) 0 ANY_UID ANY_GID.

Definition message_get_length (m : message_impl) : Z :=
  u32 (VSOMEIP_SOMEIP_HEADER_SIZE + from_option payload_get_length 0 (payload_ m)).

Definition message_set_payload (p : option payload_impl) (m : message_impl) : message_impl :=
  Message (base m) p (check_result_ m) (uid_ m) (gid_ m).

Definition message_serialize (m : message_impl) : ST serializer bool :=
  message_header_serialize (message_get_length m) (header_ (base m))
  <&&> (match payload_ m with Some p => payload_serialize p | None => mret true end).

Definition message_deserialize (m : message_impl) : ST deserializer (bool * message_impl) :=
  '(ok, h) ← message_header_deserialize (header_ (base m));
  '(ok, p) ←
    (if (ok : bool) then
       payload_deserialize
         (payload_set_capacity (u32 (length_ h - VSOMEIP_SOMEIP_HEADER_SIZE)) payload_new)
     else mret (false, payload_new));
  mret (ok, Message (MessageBase h (is_reliable_ (base m)) (is_initial_ (base m))) (Some p)
              (check_result_ m) (uid_ m) (gid_ m)).

Definition set_check_result (v : Z) (m : message_impl) : message_impl :=
  Message (base m) (payload_ m) v (uid_ m) (gid_ m).
Definition is_valid_crc (m : message_impl) : bool := bool_decide (check_result_ m = 0).
Definition set_uid (v : Z) (m : message_impl) : message_impl :=
  Message (base m) (payload_ m) (check_result_ m) v (gid_ m).
Definition set_gid (v : Z) (m : message_impl) : message_impl :=
  Message (base m) (payload_ m) (check_result_ m) (uid_ m) v.

(** [deserializer::deserialize_message]: [None] is the null pointer it returns
    after deleting a message that could not be read. *)
Definition deserialize_message : ST deserializer (option message_impl) :=
  '(ok, m) ← message_deserialize message_new;
  mret (if (ok : bool) then Some m else None).

(** * Message classification and size ([utility]) *)

Definition is_request (t : Z) : bool := bool_decide (t < MT_NOTIFICATION).
Definition is_request_no_return (t : Z) : bool :=
  bool_decide (t = MT_REQUEST_NO_RETURN) || bool_decide (t = MT_REQUEST_NO_RETURN_ACK).
Definition is_response (t : Z) : bool := bool_decide (t = MT_RESPONSE).
Definition is_error (t : Z) : bool := bool_decide (t = MT_ERROR).
Definition is_event (data : Z) : bool := bool_decide (Z.land 0x80 data > 0).
Definition is_notification (t : Z) : bool := bool_decide (t = MT_NOTIFICATION).

Definition is_valid_message_type (t : Z) : bool :=
  bool_decide (t ∈ [MT_REQUEST; MT_REQUEST_NO_RETURN; MT_NOTIFICATION; MT_REQUEST_ACK;
                    MT_REQUEST_NO_RETURN_ACK; MT_NOTIFICATION_ACK; MT_RESPONSE; MT_ERROR;
                    MT_RESPONSE_ACK; MT_ERROR_ACK; MT_UNKNOWN]).

Definition is_valid_return_code (c : Z) : bool :=
  bool_decide (c ∈ [E_OK; E_NOT_OK; E_UNKNOWN_SERVICE; E_UNKNOWN_METHOD; E_NOT_READY;
                    E_NOT_REACHABLE; E_TIMEOUT; E_WRONG_PROTOCOL_VERSION;
                    E_WRONG_INTERFACE_VERSION; E_MALFORMED_MESSAGE; E_WRONG_MESSAGE_TYPE])
  || bool_decide (0x20 ≤ c ≤ 0x5E).

Definition get_message_size (data : list Z) (size : Z) : outcome Z :=
  if bool_decide (VSOMEIP_SOMEIP_HEADER_SIZE ≤ size) then
    b4 ← vget data 4; b5 ← vget data 5; b6 ← vget data 6; b7 ← vget data 7;
    Ret (u64 (u32 (VSOMEIP_SOMEIP_HEADER_SIZE + VSOMEIP_BYTES_TO_LONG b4 b5 b6 b7)))
  else Ret 0.

Definition get_payload_size (data : list Z) (size : Z) : outcome Z :=
  if bool_decide (VSOMEIP_SOMEIP_HEADER_SIZE ≤ size) then
    b4 ← vget data 4; b5 ← vget data 5; b6 ← vget data 6; b7 ← vget data 7;
    Ret (u32 (VSOMEIP_BYTES_TO_LONG b4 b5 b6 b7 - VSOMEIP_SOMEIP_HEADER_SIZE))
  else Ret 0.

(** * The wire format of a message *)

Definition header_wf (h : message_header) : Prop :=
  is_u16 (service_ h) ∧ is_u16 (method_ h) ∧ is_u16 (client_ h) ∧ is_u16 (session_ h) ∧
  is_u8 (protocol_version_ h) ∧ is_u8 (interface_version_ h) ∧ is_u8 (type_ h) ∧
  is_u8 (code_ h).

(** The sixteen header bytes, for the length field [len]. *)
Definition header_wire (len : Z) (h : message_header) : list Z :=
  be16 (service_ h) ++ be16 (method_ h) ++ be32 len ++ be16 (client_ h) ++
  be16 (session_ h) ++ [protocol_version_ h] ++ [interface_version_ h] ++ [type_ h] ++
  [code_ h].

(** What a fresh header holds after the bytes above were read into it. *)
Definition header_received (len : Z) (h h0 : message_header) : message_header :=
  Header (service_ h) (method_ h) len (client_ h) (session_ h) (protocol_version_ h)
    (interface_version_ h) (type_ h) (code_ h) (instance_ h0).

Lemma length_header_wire len h : length (header_wire len h) = 16%nat.
Proof. done. Qed.

Lemma writes_header len h :
  writes (message_header_serialize len h) (header_wire len h).
Proof. unfold message_header_serialize, header_wire. auto 12 with stream. Qed.

(** One field of a chain of reads. *)
Ltac parse_field := eapply parses_bind; [solve [eauto with stream]|cbn beta iota].
Ltac parse_last := eapply parses_bind_nil; [solve [eauto with stream]|cbn beta iota].

Lemma parses_header len h h0 : header_wf h → is_u32 len →
  parses (message_header_deserialize h0) (header_wire len h)
    (true, header_received len h h0).
Proof.
  intros (?&?&?&?&?&?&?&?) ?. unfold message_header_deserialize, header_wire.
  do 8 parse_field. parse_last. apply parses_ret.
Qed.

Lemma safe_header h : safe_reader (message_header_deserialize h).
Proof.
  unfold message_header_deserialize.
  repeat (apply safe_bind; [solve [eauto with stream]|intros [? ?]]).
  apply safe_ret.
Qed.

#[export] Hint Resolve writes_header parses_header safe_header : stream.

Definition payload_bytes (m : message_impl) : list Z :=
  from_option (λ p, velems (pl_data_ p)) [] (payload_ m).

Definition message_wf (m : message_impl) : Prop :=
  header_wf (header_ (base m)) ∧ bytes (payload_bytes m) ∧
  Z.of_nat (length (payload_bytes m)) + VSOMEIP_SOMEIP_HEADER_SIZE < 2 ^ 32.

Definition message_wire (m : message_impl) : list Z :=
  header_wire (message_get_length m) (header_ (base m)) ++ payload_bytes m.

(** The message a receiver holds after reading [message_wire m]: the wire fields
    of [m], the length field as sent, a payload of its own, and the defaults of a
    fresh message everywhere else. *)
Definition message_received (m : message_impl) : message_impl :=
  Message
    (MessageBase (header_received (message_get_length m) (header_ (base m)) message_header_new)
       false false)
    (Some (payload_of (payload_bytes m))) 0 ANY_UID ANY_GID.

Lemma message_get_length_eq m : message_wf m →
  message_get_length m = 8 + Z.of_nat (length (payload_bytes m)).
Proof.
  intros (_&_&Hl). unfold message_get_length, payload_get_length, payload_bytes in *.
  unfold VSOMEIP_SOMEIP_HEADER_SIZE in *. destruct (payload_ m); simpl in *; width_lia.
Qed.

Lemma writes_message m : writes (message_serialize m) (message_wire m).
Proof.
  unfold message_serialize, message_wire, payload_bytes.
  apply writes_andb; [auto with stream|]. destruct (payload_ m); apply writes_vector || apply writes_true.
Qed.

Lemma parses_payload bs :
  parses (payload_deserialize (payload_set_capacity (Z.of_nat (length bs)) payload_new)) bs
    (true, payload_of bs).
Proof.
  unfold payload_deserialize, payload_set_capacity, vec_reserve. cbn.
  rewrite Z.max_r by lia. eapply parses_bind_nil; [apply parses_vector|].
  cbn. unfold vec_assign, payload_of. cbn. rewrite Z.max_id. apply parses_ret.
Qed.

Lemma parses_message m : message_wf m →
  parses deserialize_message (message_wire m) (Some (message_received m)).
Proof.
  intros Hm. unfold deserialize_message.
  apply (parses_bind_nil _ _ _ (true, message_received m)); [|apply parses_ret].
  unfold message_deserialize, message_wire.
  assert (Hlen := message_get_length_eq m Hm). destruct Hm as (Hh&Hb&Hl).
  eapply parses_bind.
  { apply parses_header; [done|]. unfold message_get_length. apply is_u32_u32. }
  cbn beta iota.
  apply (parses_bind_nil _ _ _ (true, payload_of (payload_bytes m))); [|apply parses_ret].
  cbn [length_ header_received]. rewrite Hlen. unfold VSOMEIP_SOMEIP_HEADER_SIZE in *.
  replace (u32 _) with (Z.of_nat (length (payload_bytes m))) by width_lia.
  apply parses_payload.
Qed.

Lemma safe_payload n : 0 ≤ n →
  safe_reader (payload_deserialize (payload_set_capacity n payload_new)).
Proof.
  intros. unfold payload_deserialize. cbn. apply safe_bind; [|eauto with stream].
  apply safe_vector. lia.
Qed.

Lemma safe_message m : safe_reader (message_deserialize m).
Proof.
  unfold message_deserialize. apply safe_bind; [apply safe_header|]. intros [ok h].
  apply safe_bind; [|intros [??]; apply safe_ret].
  destruct ok; [|apply safe_ret]. apply safe_payload.
  assert (H := is_u32_u32 (length_ h - VSOMEIP_SOMEIP_HEADER_SIZE)). width_lia.
Qed.

(** * Theorems *)

(** C21: a well-formed SOME/IP message survives the wire.  Serializing it succeeds
    and appends its wire image; a receiver whose readable bytes start with that
    image gets a message with the same header fields (the length field being the
    header rest plus the payload length) and the same payload, and has consumed
    exactly those bytes. *)
Theorem message_roundtrip m s d rest :
  message_wf m → d_wf d → avail d = message_wire m ++ rest →
  message_serialize m s = Ret (true, ser_append (message_wire m) s) ∧
  deserialize_message d =
    Ret (Some (message_received m), skip (Z.of_nat (length (message_wire m))) d) ∧
  length_ (header_ (base (message_received m))) =
    8 + Z.of_nat (length (payload_bytes m)).
Proof.
  intros Hm Hd Hav. split_and!.
  - apply writes_message.
  - by apply (parses_message m Hm d rest).
  - by apply message_get_length_eq.
Qed.

(** A message with a three-byte payload, on a stream with a trailing byte. *)
Definition sample_message : message_impl :=
  Message (MessageBase (Header 0x1234 0x8001 0 0x0101 7 1 2 MT_NOTIFICATION E_OK 0x5678)
             true false)
    (Some (payload_of [0xDE; 0xAD; 0xBE])) 0 ANY_UID ANY_GID.

Lemma message_roundtrip_witness :
  message_serialize sample_message (serializer_new 0) =
    Ret (true, ser_append (message_wire sample_message) (serializer_new 0)) ∧
  deserialize_message (deserializer_of (message_wire sample_message ++ [0x55]) 0) =
    Ret (Some (message_received sample_message),
         skip 19 (deserializer_of (message_wire sample_message ++ [0x55]) 0)) ∧
  length_ (header_ (base (message_received sample_message))) = 11.
Proof.
  apply (message_roundtrip sample_message (serializer_new 0)
           (deserializer_of (message_wire sample_message ++ [0x55]) 0) [0x55]).
  - split_and!; vm_compute; repeat constructor; done.
  - apply d_wf_of.
  - apply avail_of.
Defined.

(** ** Reading an arbitrary datagram *)

(** One more field of a chain that ended successfully was read. *)
Ltac inv_field H :=
  let ok := fresh "ok" in let v := fresh "v" in let d1 := fresh "d" in
  let E := fresh "E" in
  apply st_bind_inv in H as ([ok v]&d1&E&H).

Lemma message_header_deserialize_true h0 d h d' :
  message_header_deserialize h0 d = Ret ((true, h), d') →
  d' = skip 16 d ∧ is_u32 (length_ h).
Proof.
  intros H. unfold message_header_deserialize in H. do 9 inv_field H.
  injection H as -> <- <-.
  repeat match goal with
  | E : st_try _ _ _ _ = Ret ((true, _), _) |- _ =>
      apply st_try_true_inv in E as [? E]; subst
  end.
  repeat match goal with
  | E : deserialize_u8 _ = Ret _ |- _ => apply deserialize_u8_Some in E as ->
  | E : deserialize_u16 _ = Ret _ |- _ => apply deserialize_u16_Some in E as [-> _]
  | E : deserialize_u32 _ _ = Ret _ |- _ => apply deserialize_u32_Some in E as (->&?&_)
  end.
  rewrite !skip_skip. done.
Qed.

(** Every datagram is read without leaving its buffer.  On any well-formed
    stream the message reader returns, it stays inside the readable window, and if
    it accepts a message from a stream shorter than [2^32 - 8] bytes then the length
    field is at least the rest of the header, the payload is exactly the
    [length - 8] bytes that follow the header, and exactly [length + 8] bytes were
    consumed. *)
Theorem deserialize_message_accepts d :
  d_wf d → remaining_ d < 2 ^ 32 - 8 →
  ∃ r d', deserialize_message d = Ret (r, d') ∧ advanced d d' ∧
    ∀ m, r = Some m →
      8 ≤ length_ (header_ (base m)) ∧
      payload_bytes m = take (Z.to_nat (length_ (header_ (base m)) - 8)) (avail (skip 16 d)) ∧
      Z.of_nat (length (payload_bytes m)) = length_ (header_ (base m)) - 8 ∧
      d' = skip (length_ (header_ (base m)) + 8) d.
Proof.
  intros Hd Hr.
  destruct (safe_message message_new d Hd) as ([ok m]&d'&E&Ha).
  unfold deserialize_message. rewrite (st_bind_Ret _ _ _ _ _ E).
  eexists _, _. split_and!; [done|done|]. intros m' Hm.
  destruct ok; [injection Hm as <-|done].
  unfold message_deserialize in E. apply st_bind_inv in E as ([ok h]&d1&Eh&E).
  apply st_bind_inv in E as ([ok2 p]&d2&Ep&[= -> <- <-]).
  destruct ok; [|by inversion Ep]. assert (Ea := Eh).
  apply message_header_deserialize_true in Eh as [-> Hlen].
  assert (Hd1 : advanced d (skip 16 d)).
  { destruct (safe_header (header_ (base message_new)) d Hd) as (?&?&E&H).
    rewrite Ea in E. by injection E as <- <-. }
  assert (Hw1 := advanced_wf _ _ Hd Hd1).
  unfold payload_deserialize in Ep. cbn in Ep. unfold VSOMEIP_SOMEIP_HEADER_SIZE in Ep.
  assert (Hc := is_u32_u32 (length_ h - 8)).
  rewrite Z.max_r in Ep by width_lia.
  apply st_bind_inv in Ep as ([bs|]&d3&Ev&[= <- <-]).
  apply deserialize_vector_Some in Ev as (->&Hcap&->); [|done|width_lia].
  cbn [base header_ payload_bytes payload_ from_option pl_data_ velems vec_assign].
  assert (Hrem : u32 (length_ h - 8) < 2 ^ 32 - 24) by (cbn in Hcap; lia).
  assert (8 ≤ length_ h) by width_lia.
  assert (u32 (length_ h - 8) = length_ h - 8) as -> by width_lia.
  replace (u32 (length_ h - 8)) with (length_ h - 8) in * by width_lia.
  rewrite skip_skip. split_and!; [done|done| |f_equal; lia].
  rewrite length_take. assert (Hl := length_avail _ Hw1). lia.
Qed.

Lemma deserialize_message_accepts_witness :
  ∃ r d', deserialize_message (deserializer_of (message_wire sample_message) 0) = Ret (r, d') ∧
    advanced (deserializer_of (message_wire sample_message) 0) d' ∧
    ∀ m, r = Some m →
      8 ≤ length_ (header_ (base m)) ∧
      payload_bytes m = take (Z.to_nat (length_ (header_ (base m)) - 8))
        (avail (skip 16 (deserializer_of (message_wire sample_message) 0))) ∧
      Z.of_nat (length (payload_bytes m)) = length_ (header_ (base m)) - 8 ∧
      d' = skip (length_ (header_ (base m)) + 8) (deserializer_of (message_wire sample_message) 0).
Proof.
  apply (deserialize_message_accepts (deserializer_of (message_wire sample_message) 0)).
  - apply d_wf_of.
  - vm_compute. done.
Defined.

(** ** Message identifiers *)

(** [set_message] and [get_message] disagree on the word order: a 32-bit
    message identifier comes back with its service half and its method half
    exchanged, so the round trip is the identity only when the two are equal. *)
Theorem get_set_message_swaps id m :
  is_u32 id →
  get_message (set_message id m) = (id mod 65536) * 65536 + id / 65536 ∧
  (get_message (set_message id m) = id ↔ id mod 65536 = id / 65536).
Proof.
  intros Hid.
  assert (get_message (set_message id m) = (id mod 65536) * 65536 + id / 65536) as ->.
  { unfold get_message, set_message. cbn [with_header header_ service_ method_].
    rewrite words_to_long_add by apply is_u16_u16.
    unfold VSOMEIP_LONG_WORD0, VSOMEIP_LONG_WORD1. bit_lia. }
  split; [done|]. width_lia.
Qed.

Lemma get_set_message_swaps_witness :
  get_message (set_message 0x12348001 message_base_new) = 0x80011234 ∧
  (get_message (set_message 0x12348001 message_base_new) = 0x12348001 ↔
   0x12348001 mod 65536 = 0x12348001 / 65536).
Proof. apply (get_set_message_swaps 0x12348001 message_base_new). vm_compute. done. Defined.

(** ** Message sizes *)

Lemma length_field_at data len : is_u32 len → take 4 (drop 4 data) = be32 len →
  ∃ b4 b5 b6 b7, vget data 4 = Ret b4 ∧ vget data 5 = Ret b5 ∧ vget data 6 = Ret b6 ∧
    vget data 7 = Ret b7 ∧ VSOMEIP_BYTES_TO_LONG b4 b5 b6 b7 = len.
Proof.
  intros Hlen H. destruct data as [|? [|? [|? [|? [|? [|? [|? [|? ?]]]]]]]]; try done.
  injection H as -> -> -> ->. do 4 eexists. do 4 (split; [done|]). by apply long_of_be32.
Qed.

(** The size helpers agree with the wire format: on the wire image of a
    well-formed message the computed size is the number of bytes of that image, and
    the computed payload size is the payload length, unless the size reaches
    [2^32], where the 32-bit addition wraps although the result type is 64 bits
    wide. *)
Theorem get_message_size_wire m :
  message_wf m →
  get_message_size (message_wire m) (Z.of_nat (length (message_wire m))) =
    Ret (Z.of_nat (length (message_wire m)) mod 2 ^ 32) ∧
  get_payload_size (message_wire m) (Z.of_nat (length (message_wire m))) =
    Ret (Z.of_nat (length (payload_bytes m))).
Proof.
  intros Hm. assert (Hlen := message_get_length_eq m Hm).
  assert (Hu : is_u32 (message_get_length m)) by apply is_u32_u32.
  destruct (length_field_at (message_wire m) _ Hu) as (b4&b5&b6&b7&E4&E5&E6&E7&Hb);
    [done|].
  unfold get_message_size, get_payload_size, VSOMEIP_SOMEIP_HEADER_SIZE.
  rewrite bool_decide_true by (unfold message_wire; rewrite length_app, length_header_wire; lia).
  rewrite E4, E5, E6, E7. cbn [mbind outcome_mbind outcome_bind]. rewrite Hb, Hlen.
  unfold message_wire. rewrite length_app, length_header_wire.
  split; f_equal; destruct Hm as (_&_&?); unfold VSOMEIP_SOMEIP_HEADER_SIZE in *; width_lia.
Qed.

Lemma get_message_size_wire_witness :
  get_message_size (message_wire sample_message) 19 = Ret (19 mod 2 ^ 32) ∧
  get_payload_size (message_wire sample_message) 19 = Ret 3.
Proof.
  apply (get_message_size_wire sample_message).
  split_and!; vm_compute; repeat constructor; done.
Defined.
