(* ===== verification/SdOptions.v ===== *)
(** The option array elements of SOME/IP service discovery:
    [service_discovery/src/*option_impl.cpp].

    The class hierarchy is an inductive type with one constructor per concrete
    class; virtual functions dispatch on it, [dynamic_cast] to a reference throws
    [bad_cast] on the wrong constructor.  [std::map] and [std::set] are [gmap] and
    [gset], iterated in key order.  Strings are byte lists. *)
From S2P Require Import Prelude ByteOrder Streams.

(** * Constants *)

Definition CONFIGURATION : Z := 0x1.
Definition LOAD_BALANCING : Z := 0x2.
Definition PROTECTION : Z := 0x3.
Definition IP4_ENDPOINT : Z := 0x4.
Definition IP6_ENDPOINT : Z := 0x6.
Definition IP4_MULTICAST : Z := 0x14.
Definition IP6_MULTICAST : Z := 0x16.
Definition SELECTIVE : Z := 0x20.
Definition OPTION_UNKNOWN : Z := 0xFF.

Definition L4_TCP : Z := 0x06.
Definition L4_UDP : Z := 0x11.
Definition L4_UNKNOWN : Z := 0xFF.

Definition reserved_byte : Z := 0x0.
Definition VSOMEIP_SD_IPV4_OPTION_LENGTH : Z := 0x0009.
Definition VSOMEIP_SD_IPV6_OPTION_LENGTH : Z := 0x0015.
Definition VSOMEIP_SOMEIP_SD_OPTION_HEADER_SIZE : Z := 3.

(** * Option objects *)

(** The members of the base class [option_impl]. *)
Record option_base := OptionBase { o_length_ : Z; o_type_ : Z }.

(** The members [ip_option_impl] adds. *)
Record ip_option := IpOption { ip_protocol_ : Z; ip_port_ : Z }.

Inductive option_impl : Type :=
| PlainOption (b : option_base)
| ConfigurationOption (b : option_base) (configuration_ : gmap (list Z) (list Z))
| LoadBalancingOption (b : option_base) (priority_ weight_ : Z)
| ProtectionOption (b : option_base) (counter_ crc_ : Z)
| Ipv4Option (b : option_base) (ip : ip_option) (address_ : list Z)
| Ipv6Option (b : option_base) (ip : ip_option) (address_ : list Z)
| SelectiveOption (b : option_base) (clients_ : gset Z).

#[export] Instance option_base_eq_dec : EqDecision option_base.
Proof. solve_decision. Defined.
#[export] Instance ip_option_eq_dec : EqDecision ip_option.
Proof. solve_decision. Defined.
#[export] Instance option_impl_eq_dec : EqDecision option_impl.
Proof. solve_decision. Defined.

Definition opt_base (o : option_impl) : option_base :=
  match o with
  | PlainOption b | ConfigurationOption b _ | LoadBalancingOption b _ _
  | ProtectionOption b _ _ | Ipv4Option b _ _ | Ipv6Option b _ _ | SelectiveOption b _ => b
  end.

Definition option_get_length (o : option_impl) : Z := o_length_ (opt_base o).
Definition option_get_type (o : option_impl) : Z := o_type_ (opt_base o).
Definition option_get_size (o : option_impl) : Z := u32 (option_get_length o + 3).

(** ** Constructors *)

Definition option_new : option_impl := PlainOption (OptionBase 0 OPTION_UNKNOWN).
Definition ip_option_new : ip_option := IpOption L4_UNKNOWN 0.
Definition ip_option_of (port : Z) (is_reliable : bool) : ip_option :=
  IpOption (if is_reliable then L4_TCP else L4_UDP) port.
Definition ipv4_option_new : option_impl :=
  Ipv4Option (OptionBase (1 + 4 + 1 + 1 + 2) OPTION_UNKNOWN) ip_option_new (repeat 0 4).
Definition ipv6_option_new : option_impl :=
  Ipv6Option (OptionBase (1 + 16 + 1 + 1 + 2) OPTION_UNKNOWN) ip_option_new (repeat 0 16).
(** [is_multicast] is the answer of [boost::asio::ip::address::is_multicast]. *)
Definition ipv4_option_of (address : list Z) (is_multicast : bool) (port : Z)
    (is_reliable : bool) : option_impl :=
  Ipv4Option (OptionBase (1 + 4 + 1 + 1 + 2)
                (if is_multicast then IP4_MULTICAST else IP4_ENDPOINT))
    (ip_option_of port is_reliable) address.
Definition ipv6_option_of (address : list Z) (is_multicast : bool) (port : Z)
    (is_reliable : bool) : option_impl :=
  Ipv6Option (OptionBase (1 + 16 + 1 + 1 + 2)
                (if is_multicast then IP6_MULTICAST else IP6_ENDPOINT))
    (ip_option_of port is_reliable) address.
Definition load_balancing_option_new : option_impl :=
  LoadBalancingOption (OptionBase (1 + 2 + 2) LOAD_BALANCING) 0 0.
Definition protection_option_new : option_impl :=
  ProtectionOption (OptionBase (1 + 4 + 4) PROTECTION) 0 0.
Definition configuration_option_new : option_impl :=
  ConfigurationOption (OptionBase 2 CONFIGURATION) ∅.
Definition selective_option_new : option_impl :=
  SelectiveOption (OptionBase 1 SELECTIVE) ∅.

(** ** Equality *)

Definition option_base_eqb (a b : option_base) : bool :=
  bool_decide (o_type_ a = o_type_ b) && bool_decide (o_length_ a = o_length_ b).

(** [ip_option_impl::operator==]: base comparison, then the cast. *)
Definition ip_option_eqb (b : option_base) (ip : ip_option) (other : option_impl) :
    outcome bool :=
  if option_base_eqb b (opt_base other) then
    match other with
    | Ipv4Option _ ip' _ | Ipv6Option _ ip' _ =>
        Ret (bool_decide (ip_protocol_ ip = ip_protocol_ ip')
             && bool_decide (ip_port_ ip = ip_port_ ip'))
    | _ => Throw bad_cast
    end
  else Ret false.

Definition ipv4_option_eqb (b : option_base) (ip : ip_option) (address : list Z) (other : option_impl) : outcome bool :=
  is_equal ← ip_option_eqb b ip other;
  if (is_equal : bool) then
    match other with
    | Ipv4Option _ _ address' => Ret (bool_decide (address = address'))
    | _ => Throw bad_cast
    end
  else Ret false.

Definition ipv6_option_eqb (b : option_base) (ip : ip_option) (address : list Z) (other : option_impl) : outcome bool :=
  is_equal ← ip_option_eqb b ip other;
  if (is_equal : bool) then
    match other with
    | Ipv6Option _ _ address' => Ret (bool_decide (address = address'))
    | _ => Throw bad_cast
    end
  else Ret false.

Definition load_balancing_option_eqb (b : option_base) (priority weight : Z) (other : option_impl) :
    outcome bool :=
  if option_base_eqb b (opt_base other) then
    match other with
    | LoadBalancingOption _ priority' weight' =>
        Ret (bool_decide (priority = priority') && bool_decide (priority = weight'))
    | _ => Throw bad_cast
    end
  else Ret false.

Definition protection_option_eqb (b : option_base) (counter crc : Z) (other : option_impl) : outcome bool :=
  if option_base_eqb b (opt_base other) then
    match other with
    | ProtectionOption _ counter' crc' =>
        Ret (bool_decide (counter = counter') && bool_decide (crc = crc'))
    | _ => Throw bad_cast
    end
  else Ret false.

Definition configuration_option_eqb (b : option_base) (configuration : gmap (list Z) (list Z))
    (other : option_impl) : outcome bool :=
  if option_base_eqb b (opt_base other) then
    match other with
    | ConfigurationOption _ configuration' =>
        Ret (bool_decide (configuration = configuration'))
    | _ => Throw bad_cast
    end
  else Ret false.

Definition selective_option_eqb (b : option_base) (clients : gset Z) (other : option_impl) : outcome bool :=
  if option_base_eqb b (opt_base other) then
    match other with
    | SelectiveOption _ clients' => Ret (bool_decide (clients = clients'))
    | _ => Throw bad_cast
    end
  else Ret false.

(** [option_impl::equals]: the virtual [operator==] of the left operand. *)
Definition option_equals (o other : option_impl) : outcome bool :=
  match o with
  | PlainOption b => Ret (option_base_eqb b (opt_base other))
  | ConfigurationOption b c => configuration_option_eqb b c other
  | LoadBalancingOption b p w => load_balancing_option_eqb b p w other
  | ProtectionOption b c k => protection_option_eqb b c k other
  | Ipv4Option b ip a => ipv4_option_eqb b ip a other
  | Ipv6Option b ip a => ipv6_option_eqb b ip a other
  | SelectiveOption b c => selective_option_eqb b c other
  end.

(** ** Configuration items *)

Definition add_item (key value : list Z) (b : option_base)
    (configuration : gmap (list Z) (list Z)) : option_base * gmap (list Z) (list Z) :=
  (OptionBase (u16 (o_length_ b + Z.of_nat (length key) + Z.of_nat (length value) + 2))
     (o_type_ b),
   <[key := value]> configuration).

Definition remove_item (key : list Z) (b : option_base)
    (configuration : gmap (list Z) (list Z)) : option_base * gmap (list Z) (list Z) :=
  match configuration !! key with
  | Some value =>
      (OptionBase
         (u16 (o_length_ b - (Z.of_nat (length key) + Z.of_nat (length value) + 2)))
         (o_type_ b),
       delete key configuration)
  | None => (b, configuration)
  end.

(** Lexicographic order on strings, as [std::string] compares them. *)
Fixpoint str_leb (x y : list Z) : bool :=
  match x, y with
  | [], _ => true
  | _ :: _, [] => false
  | a :: x', c :: y' => if bool_decide (a = c) then str_leb x' y' else bool_decide (a < c)
  end.

Definition item_le (p q : list Z * list Z) : Prop := str_leb p.1 q.1 = true.
#[export] Instance item_le_dec : RelDecision item_le.
Proof. intros p q. unfold item_le. apply _. Defined.

(** The items of the map in iteration order. *)
Definition config_items (configuration : gmap (list Z) (list Z)) : list (list Z * list Z) :=
  merge_sort item_le (map_to_list configuration).

Definition get_keys (configuration : gmap (list Z) (list Z)) : list (list Z) :=
  (config_items configuration).*1.
Definition get_values (configuration : gmap (list Z) (list Z)) : list (list Z) :=
  (config_items configuration).*2.
Definition get_value (key : list Z) (configuration : gmap (list Z) (list Z)) : list Z :=
  default [] (configuration !! key).

(** ** Selective clients *)

Definition selective_length (clients : gset Z) : Z := u16 (1 + Z.of_nat (size clients) * 2).

Definition set_clients (clients : gset Z) (b : option_base) : option_base * gset Z :=
  (OptionBase (selective_length clients) (o_type_ b), clients).
Definition selective_add_client (client : Z) (b : option_base) (clients : gset Z) :
    bool * (option_base * gset Z) :=
  let clients' := {[client]} ∪ clients in
  (bool_decide (client ∉ clients), set_clients clients' b).
Definition selective_remove_client (client : Z) (b : option_base) (clients : gset Z) :
    bool * (option_base * gset Z) :=
  let clients' := clients ∖ {[client]} in
  (bool_decide (size clients' < size clients)%nat, set_clients clients' b).
Definition has_clients (clients : gset Z) : bool := negb (bool_decide (clients = ∅)).
Definition selective_has_client (client : Z) (clients : gset Z) : bool :=
  bool_decide (client ∈ clients).

(** The clients in iteration order. *)
Definition client_list (clients : gset Z) : list Z := merge_sort Z.le (elements clients).

(** * Serialization *)

Definition option_base_serialize (b : option_base) : ST serializer bool :=
  serialize_u16 (o_length_ b)
  <&&> serialize_u8 (o_type_ b)
  <&&> serialize_u8 reserved_byte.

Definition ip_option_serialize (b : option_base) (ip : ip_option) (address : list Z) :
    ST serializer bool :=
  is_successful ← option_base_serialize b;
  _ ← serialize_array address;
  _ ← serialize_u8 reserved_byte;
  _ ← serialize_u8 (ip_protocol_ ip);
  _ ← serialize_u16 (ip_port_ ip);
  mret is_successful.

(** [ipv4_option_impl::serialize] and [ipv6_option_impl::serialize] have the same
    body over addresses of different sizes. *)
Definition ipv4_option_serialize := ip_option_serialize.
Definition ipv6_option_serialize := ip_option_serialize.

Definition load_balancing_option_serialize (b : option_base) (priority weight : Z) :
    ST serializer bool :=
  option_base_serialize b <&&> serialize_u16 priority <&&> serialize_u16 weight.

Definition protection_option_serialize (b : option_base) (counter crc : Z) :
    ST serializer bool :=
  option_base_serialize b <&&> serialize_u32 counter false <&&> serialize_u32 crc false.

(** One item: the length byte (a [char]), the key, ['='], the value. *)
Definition config_item_string (item : list Z * list Z) : list Z :=
  u8 (1 + Z.of_nat (length item.1) + Z.of_nat (length item.2)) ::
  item.1 ++ [0x3D] ++ item.2.
Definition configuration_string (configuration : gmap (list Z) (list Z)) : list Z :=
  mjoin (config_item_string <$> config_items configuration) ++ [0].

Definition configuration_option_serialize (b : option_base)
    (configuration : gmap (list Z) (list Z)) : ST serializer bool :=
  option_base_serialize b <&&> serialize_array (configuration_string configuration).

Fixpoint serialize_clients (clients : list Z) : ST serializer () :=
  match clients with
  | [] => mret ()
  | c :: clients' => _ ← serialize_u16 c; serialize_clients clients'
  end.
Definition selective_option_serialize (b : option_base) (clients : gset Z) :
    ST serializer bool :=
  is_successful ← option_base_serialize b;
  _ ← (if (is_successful : bool) then serialize_clients (client_list clients) else mret ());
  mret is_successful.

Definition option_serialize (o : option_impl) : ST serializer bool :=
  match o with
  | PlainOption b => option_base_serialize b
  | ConfigurationOption b c => configuration_option_serialize b c
  | LoadBalancingOption b p w => load_balancing_option_serialize b p w
  | ProtectionOption b c k => protection_option_serialize b c k
  | Ipv4Option b ip a => ipv4_option_serialize b ip a
  | Ipv6Option b ip a => ipv6_option_serialize b ip a
  | SelectiveOption b c => selective_option_serialize b c
  end.

(** * Deserialization *)

Definition known_option_type (t : Z) : bool :=
  bool_decide (t ∈ [CONFIGURATION; LOAD_BALANCING; PROTECTION; IP4_ENDPOINT; IP6_ENDPOINT;
                    IP4_MULTICAST; IP6_MULTICAST; SELECTIVE]).

(** An unknown type makes the rest of the option array unreadable. *)
Definition option_base_deserialize (b : option_base) : ST deserializer (bool * option_base) :=
  '(ok, len) ← st_try true (o_length_ b) deserialize_u16;
  '(ok, its_type) ← st_try ok 0 deserialize_u8;
  '(ok, _) ← st_try ok 0 deserialize_u8;
  if (ok : bool) then
    if known_option_type its_type then mret (true, OptionBase len its_type)
    else
      _ ← st_modify (set_remaining 0);
      mret (true, OptionBase len OPTION_UNKNOWN)
  else mret (false, OptionBase len (o_type_ b)).

(** A read whose result is ignored: the variable keeps [v] on failure. *)
Definition read_or {A} (v : A) (m : ST deserializer (option A)) : ST deserializer A :=
  r ← m; mret (default v r).

Definition l4_of (p : Z) : Z :=
  if bool_decide (p = L4_TCP) || bool_decide (p = L4_UDP) then p else L4_UNKNOWN.

(** [ipv4_option_impl::deserialize] and [ipv6_option_impl::deserialize]: the same
    statements with address length 4 and 16. *)
Definition ip_option_deserialize (expected_length address_size : Z) (b : option_base)
    (ip : ip_option) (address : list Z) :
    ST deserializer (bool * (option_base * ip_option * list Z)) :=
  '(ok, b) ← option_base_deserialize b;
  let is_successful := ok && bool_decide (o_length_ b = expected_length) in
  address ← read_or address (deserialize_array address_size);
  its_reserved ← read_or L4_UNKNOWN deserialize_u8;
  its_reserved ← read_or its_reserved deserialize_u8;
  let protocol := l4_of its_reserved in
  port ← read_or (ip_port_ ip) deserialize_u16;
  mret (is_successful, (b, IpOption protocol port, address)).

Definition ipv4_option_deserialize := ip_option_deserialize VSOMEIP_SD_IPV4_OPTION_LENGTH 4.
Definition ipv6_option_deserialize := ip_option_deserialize VSOMEIP_SD_IPV6_OPTION_LENGTH 16.

Definition load_balancing_option_deserialize (b : option_base) :
    ST deserializer (bool * (option_base * Z * Z)) :=
  '(ok, b) ← option_base_deserialize b;
  '(ok, tmp_priority) ← st_try ok 0 deserialize_u16;
  '(ok, tmp_weight) ← st_try ok 0 deserialize_u16;
  mret (ok, (b, tmp_priority, tmp_weight)).

Definition protection_option_deserialize (b : option_base) :
    ST deserializer (bool * (option_base * Z * Z)) :=
  '(ok, b) ← option_base_deserialize b;
  '(ok, its_alive_counter) ← st_try ok 0 (deserialize_u32 false);
  '(ok, its_crc) ← st_try ok 0 (deserialize_u32 false);
  mret (ok, (b, its_alive_counter, its_crc)).

(** The item split at its first ['=']: without one the value is empty. *)
Fixpoint split_item (item : list Z) : list Z * list Z :=
  match item with
  | [] => ([], [])
  | c :: item' =>
      if bool_decide (c = 0x3D) then ([], item')
      else let '(k, v) := split_item item' in (c :: k, v)
  end.

(** The do-while loop of [configuration_option_impl::deserialize]; [l_item] is a
    string of capacity at least 256. *)
Fixpoint config_loop (fuel : nat) (ok : bool) (configuration : gmap (list Z) (list Z)) :
    ST deserializer (bool * gmap (list Z) (list Z)) :=
  match fuel with
  | O => λ _, NoFuel
  | S fuel =>
      '(ok, l_itemLength) ← st_try ok 0 deserialize_u8;
      if bool_decide (l_itemLength > 0) then
        '(ok, l_item) ← st_try ok (repeat 0 256) (deserialize_string 256 l_itemLength);
        let '(l_key, l_value) := split_item l_item in
        let '(ok, configuration) :=
          if (ok : bool) then
            match configuration !! l_key with
            | None => (true, <[l_key := l_value]> configuration)
            | Some _ => (false, configuration)
            end
          else (false, configuration) in
        d ← st_get;
        if ok && bool_decide (remaining_ d > 0) then config_loop fuel ok configuration
        else mret (ok, configuration)
      else mret (ok, configuration)
  end.

(** Every round of the loop consumes at least the length byte. *)
Definition configuration_option_deserialize (b : option_base)
    (configuration : gmap (list Z) (list Z)) :
    ST deserializer (bool * (option_base * gmap (list Z) (list Z))) :=
  '(ok, b) ← option_base_deserialize b;
  d ← st_get;
  '(ok, configuration) ← config_loop (S (Z.to_nat (remaining_ d))) ok configuration;
  mret (ok, (b, configuration)).

(** [uninit] is the indeterminate value of the local [its_client] when the read
    into it fails; [i] counts from 1 in steps of two, at width 16. *)
Fixpoint selective_loop (uninit : Z) (fuel : nat) (i len : Z) (ok : bool) (clients : gset Z) :
    ST deserializer (bool * gset Z) :=
  match fuel with
  | O => λ _, NoFuel
  | S fuel =>
      if bool_decide (i < len) then
        r ← deserialize_u16;
        selective_loop uninit fuel (u16 (i + 2)) len (bool_decide (is_Some r))
          ({[default uninit r]} ∪ clients)
      else mret (ok, clients)
  end.

Definition selective_option_deserialize (uninit : Z) (b : option_base) (clients : gset Z) :
    ST deserializer (bool * (option_base * gset Z)) :=
  '(ok, b) ← option_base_deserialize b;
  if (ok : bool) then
    '(ok, clients) ← selective_loop uninit (Z.to_nat (2 ^ 15 + 1)) 1 (o_length_ b) true clients;
    mret (ok, (b, clients))
  else mret (false, (b, clients)).

Definition option_deserialize (uninit : Z) (o : option_impl) :
    ST deserializer (bool * option_impl) :=
  match o with
  | PlainOption b =>
      '(ok, b) ← option_base_deserialize b; mret (ok, PlainOption b)
  | ConfigurationOption b c =>
      '(ok, (b, c)) ← configuration_option_deserialize b c; mret (ok, ConfigurationOption b c)
  | LoadBalancingOption b _ _ =>
      '(ok, (b, p, w)) ← load_balancing_option_deserialize b;
      mret (ok, LoadBalancingOption b p w)
  | ProtectionOption b _ _ =>
      '(ok, (b, c, k)) ← protection_option_deserialize b; mret (ok, ProtectionOption b c k)
  | Ipv4Option b ip a =>
      '(ok, (b, ip, a)) ← ipv4_option_deserialize b ip a; mret (ok, Ipv4Option b ip a)
  | Ipv6Option b ip a =>
      '(ok, (b, ip, a)) ← ipv6_option_deserialize b ip a; mret (ok, Ipv6Option b ip a)
  | SelectiveOption b c =>
      '(ok, (b, c)) ← selective_option_deserialize uninit b c; mret (ok, SelectiveOption b c)
  end.

(** The switch of [message_impl::deserialize_option]: the object created for a
    type byte. *)
Definition option_new_of_type (t : Z) : option_impl :=
  if bool_decide (t = CONFIGURATION) then configuration_option_new
  else if bool_decide (t = LOAD_BALANCING) then load_balancing_option_new
  else if bool_decide (t = PROTECTION) then protection_option_new
  else if bool_decide (t = IP4_ENDPOINT) || bool_decide (t = IP4_MULTICAST) then ipv4_option_new
  else if bool_decide (t = IP6_ENDPOINT) || bool_decide (t = IP6_MULTICAST) then ipv6_option_new
  else if bool_decide (t = SELECTIVE) then selective_option_new
  else option_new.

(** * The wire format of an option *)

Definition base_wire (b : option_base) : list Z :=
  be16 (o_length_ b) ++ [o_type_ b] ++ [reserved_byte].

Definition opt_body (o : option_impl) : list Z :=
  match o with
  | PlainOption _ => []
  | ConfigurationOption _ c => configuration_string c
  | LoadBalancingOption _ p w => be16 p ++ be16 w
  | ProtectionOption _ c k => be32 c ++ be32 k
  | Ipv4Option _ ip a | Ipv6Option _ ip a =>
      a ++ [reserved_byte] ++ [ip_protocol_ ip] ++ be16 (ip_port_ ip)
  | SelectiveOption _ c => mjoin (be16 <$> (client_list c))
  end.

Definition opt_wire (o : option_impl) : list Z := base_wire (opt_base o) ++ opt_body o.

Definition ip_wf (ip : ip_option) : Prop :=
  ip_protocol_ ip ∈ [L4_TCP; L4_UDP; L4_UNKNOWN] ∧ is_u16 (ip_port_ ip).

(** A configuration item that fits its length byte and whose key has no ['=']. *)
Definition item_wf (k v : list Z) : Prop :=
  bytes k ∧ bytes v ∧ (0x3D ∉ k) ∧ (length k + length v ≤ 254)%nat.

(** The options whose fields fit the wire format and whose type byte selects
    their class. *)
Definition opt_wf (o : option_impl) : Prop :=
  is_u16 (option_get_length o) ∧
  match o with
  | PlainOption _ => False
  | ConfigurationOption b c =>
      o_type_ b = CONFIGURATION ∧ map_Forall item_wf c
  | LoadBalancingOption b p w => o_type_ b = LOAD_BALANCING ∧ is_u16 p ∧ is_u16 w
  | ProtectionOption b c k => o_type_ b = PROTECTION ∧ is_u32 c ∧ is_u32 k
  | Ipv4Option b ip a =>
      o_type_ b ∈ [IP4_ENDPOINT; IP4_MULTICAST] ∧
      o_length_ b = VSOMEIP_SD_IPV4_OPTION_LENGTH ∧ ip_wf ip ∧ bytes a ∧ length a = 4%nat
  | Ipv6Option b ip a =>
      o_type_ b ∈ [IP6_ENDPOINT; IP6_MULTICAST] ∧
      o_length_ b = VSOMEIP_SD_IPV6_OPTION_LENGTH ∧ ip_wf ip ∧ bytes a ∧ length a = 16%nat
  | SelectiveOption b c =>
      o_type_ b = SELECTIVE ∧ o_length_ b = selective_length c ∧
      set_Forall is_u16 c ∧ (size c < 2 ^ 15)%nat
  end.

(** ** What serialization appends *)

Lemma writes_base b : writes (option_base_serialize b) (base_wire b).
Proof. unfold option_base_serialize, base_wire. auto with stream. Qed.
#[export] Hint Resolve writes_base : stream.

Lemma serialize_clients_ret cs s :
  serialize_clients cs s = Ret ((), ser_append (mjoin (be16 <$> cs)) s).
Proof.
  revert s. induction cs as [|c cs IH]; intros s; simpl; [by rewrite ser_append_nil|].
  rewrite (st_bind_Ret _ _ _ _ _ (writes_u16 c s)), IH, ser_append_app. done.
Qed.

(** The last call of a sequence whose results are ignored. *)
Lemma writes_seq (m : ST serializer bool) (k : bool → ST serializer bool) bs1 bs2 :
  writes m bs1 → (∀ b, writes (k b) bs2) → writes (m ≫= k) (bs1 ++ bs2).
Proof. intros Hm Hk. by apply writes_bind. Qed.

Lemma writes_ip_option b ip a :
  writes (ip_option_serialize b ip a)
    (base_wire b ++ a ++ [reserved_byte] ++ [ip_protocol_ ip] ++ be16 (ip_port_ ip)).
Proof.
  unfold ip_option_serialize. apply writes_bind; [auto with stream|].
  do 3 (apply writes_seq; [auto with stream|intros _]).
  rewrite <- (app_nil_r (be16 _)). apply writes_seq; auto with stream.
Qed.

Lemma writes_selective b c :
  writes (selective_option_serialize b c) (base_wire b ++ mjoin (be16 <$> client_list c)).
Proof.
  intros s. unfold selective_option_serialize.
  rewrite (st_bind_Ret _ _ _ _ _ (writes_base b s)). cbn beta iota.
  rewrite (st_bind_Ret _ _ _ _ _ (serialize_clients_ret _ _)).
  by rewrite ser_append_app.
Qed.

Lemma writes_option o : writes (option_serialize o) (opt_wire o).
Proof.
  unfold opt_wire. destruct o; cbn [opt_base opt_body option_serialize].
  - rewrite app_nil_r. apply writes_base.
  - unfold configuration_option_serialize. auto with stream.
  - unfold load_balancing_option_serialize. auto with stream.
  - unfold protection_option_serialize. auto with stream.
  - apply writes_ip_option.
  - apply writes_ip_option.
  - apply writes_selective.
Qed.

(** ** Reading options back *)

Lemma parses_base b0 b : is_u16 (o_length_ b) → known_option_type (o_type_ b) = true →
  parses (option_base_deserialize b0) (base_wire b) (true, b).
Proof.
  intros Hl Ht. unfold option_base_deserialize, base_wire.
  do 2 (eapply parses_bind; [solve [eauto with stream]|cbn beta iota]).
  eapply parses_bind_nil; [solve [eauto with stream]|cbn beta iota].
  rewrite Ht. destruct b. apply parses_ret.
Qed.

Lemma parses_read_or {A} (v a : A) m bs :
  parses m bs (Some a) → parses (read_or v m) bs a.
Proof. intros H. eapply parses_bind_nil; [exact H|]. apply parses_ret. Qed.
#[export] Hint Resolve parses_read_or : stream.

Lemma l4_of_wf ip : ip_wf ip → l4_of (ip_protocol_ ip) = ip_protocol_ ip.
Proof. intros [H _]. unfold l4_of. set_unfold in H. destruct H as [->|[->|[->|[]]]]; done. Qed.

Lemma parses_ip_option n b0 ip0 a0 b ip a :
  is_u16 (o_length_ b) → known_option_type (o_type_ b) = true → ip_wf ip →
  parses (ip_option_deserialize (o_length_ b) (Z.of_nat (length a)) b0 ip0 a0)
    (base_wire b ++ a ++ [n] ++ [ip_protocol_ ip] ++ be16 (ip_port_ ip))
    (true, (b, ip, a)).
Proof.
  intros Hl Ht Hip. unfold ip_option_deserialize.
  eapply parses_bind; [by apply parses_base|cbn beta iota].
  rewrite bool_decide_true by done.
  do 3 (eapply parses_bind; [solve [eauto with stream]|cbn beta iota]).
  rewrite l4_of_wf by done. destruct Hip as [_ Hp].
  eapply parses_bind_nil; [solve [eauto with stream]|cbn beta iota].
  destruct ip. apply parses_ret.
Qed.

Lemma parses_load_balancing b0 b p w :
  is_u16 (o_length_ b) → o_type_ b = LOAD_BALANCING → is_u16 p → is_u16 w →
  parses (load_balancing_option_deserialize b0) (base_wire b ++ be16 p ++ be16 w)
    (true, (b, p, w)).
Proof.
  intros Hl Ht Hp Hw. unfold load_balancing_option_deserialize.
  eapply parses_bind; [apply parses_base; [done|by rewrite Ht]|cbn beta iota].
  eapply parses_bind; [eauto with stream|cbn beta iota].
  eapply parses_bind_nil; [eauto with stream|apply parses_ret].
Qed.

Lemma parses_protection b0 b c k :
  is_u16 (o_length_ b) → o_type_ b = PROTECTION → is_u32 c → is_u32 k →
  parses (protection_option_deserialize b0) (base_wire b ++ be32 c ++ be32 k)
    (true, (b, c, k)).
Proof.
  intros Hl Ht Hp Hw. unfold protection_option_deserialize.
  eapply parses_bind; [apply parses_base; [done|by rewrite Ht]|cbn beta iota].
  eapply parses_bind; [eauto with stream|cbn beta iota].
  eapply parses_bind_nil; [eauto with stream|apply parses_ret].
Qed.

(** Configuration items: one item read back. *)
Lemma split_item_wf k v : 0x3D ∉ k → split_item (k ++ [0x3D] ++ v) = (k, v).
Proof.
  induction k as [|c k IH]; intros Hk; simpl; [done|].
  apply not_elem_of_cons in Hk as [Hc Hk]. rewrite bool_decide_false by done.
  simpl in IH. by rewrite IH.
Qed.

Lemma config_item_reads k v d rest :
  item_wf k v → d_wf d → avail d = config_item_string (k, v) ++ rest →
  let n := Z.of_nat (length (k ++ [0x3D] ++ v)) in
  st_try true 0 deserialize_u8 d = Ret ((true, n), skip 1 d) ∧ n > 0 ∧
  st_try true (repeat 0 256) (deserialize_string 256 n) (skip 1 d) =
    Ret ((true, k ++ [0x3D] ++ v), skip (Z.of_nat (length (config_item_string (k, v)))) d).
Proof.
  intros (_&_&_&Hl) Hd Hav n.
  assert (Hn : u8 (1 + Z.of_nat (length k) + Z.of_nat (length v)) = n).
  { subst n. rewrite !length_app. cbn [length]. width_lia. }
  unfold config_item_string in *. cbn [fst snd] in *. rewrite Hn in *.
  assert (Hav1 : avail d = [n] ++ (k ++ [0x3D] ++ v) ++ rest) by done.
  assert (Hr := avail_app_remaining _ _ _ Hd Hav1). cbn [length] in Hr.
  split_and!.
  - apply (parses_try _ _ 0 _ (parses_u8 n) d _ Hd Hav1).
  - subst n. rewrite !length_app. cbn [length]. lia.
  - assert (Hp : parses (st_try true (repeat 0 256) (deserialize_string 256 n))
                   (k ++ [0x3D] ++ v) (true, k ++ [0x3D] ++ v)).
    { apply parses_try. subst n. apply parses_string. rewrite !length_app. cbn [length]. lia. }
    rewrite (Hp _ rest).
    + rewrite skip_skip, length_cons. do 3 f_equal. lia.
    + apply d_wf_skip; [done|lia].
    + by apply (avail_skip_app d [n]).
Qed.

Lemma config_loop_parses l : ∀ fuel (acc : gmap (list Z) (list Z)) d rest,
  d_wf d → avail d = (mjoin (config_item_string <$> l) ++ [0]) ++ rest →
  (length l < fuel)%nat → NoDup l.*1 →
  Forall (λ p, item_wf p.1 p.2 ∧ acc !! p.1 = None) l →
  config_loop fuel true acc d =
    Ret ((true, list_to_map l ∪ acc),
         skip (Z.of_nat (length (mjoin (config_item_string <$> l) ++ [0]))) d).
Proof.
  induction l as [|[k v] l IH]; intros [|fuel] acc d rest Hd Hav Hf Hnd Hl; try (simpl in Hf; lia).
  { cbn [config_loop]. rewrite (st_bind_Ret _ _ _ _ _ (parses_try _ _ 0 _ (parses_u8 0) d rest Hd Hav)).
    cbn beta iota. rewrite bool_decide_false by lia. cbn [list_to_map foldr].
    by rewrite (left_id_L ∅ (∪)). }
  apply Forall_cons in Hl as [[Hkv Hk] Hl]. rewrite fmap_cons in Hnd.
  apply NoDup_cons in Hnd as [Hkl Hnd]. cbn [fst snd] in Hkv, Hk, Hkl.
  rewrite fmap_cons, join_cons in *. rewrite <- !(assoc_L (++)) in *.
  destruct (config_item_reads k v d _ Hkv Hd Hav) as (E1&Hn&E2).
  cbn [config_loop]. rewrite (st_bind_Ret _ _ _ _ _ E1). cbn beta iota.
  rewrite bool_decide_true by done. rewrite (st_bind_Ret _ _ _ _ _ E2). cbn beta iota.
  rewrite split_item_wf by apply Hkv. rewrite Hk. rewrite (st_bind_Ret _ _ _ _ _ eq_refl).
  set (d1 := skip _ d).
  assert (Hd1 : d_wf d1) by eauto using d_wf_skip, avail_app_remaining with lia.
  assert (Hav1 : avail d1 = (mjoin (config_item_string <$> l) ++ [0]) ++ rest).
  { subst d1. rewrite <- (assoc_L (++)). by apply avail_skip_app. }
  assert (Hr := avail_app_remaining _ _ _ Hd1 Hav1). rewrite length_app in Hr. cbn [length] in Hr.
  rewrite bool_decide_true by lia. cbn [andb].
  rewrite (IH _ _ _ rest); [|done|done|simpl in Hf; lia|done|].
  - subst d1. rewrite skip_skip.
    rewrite list_to_map_cons, <- insert_union_l, insert_union_r
      by (by apply not_elem_of_list_to_map_1).
    do 3 f_equal. rewrite !length_app. lia.
  - apply Forall_forall. intros [k' v'] Hin. rewrite Forall_forall in Hl.
    destruct (Hl _ Hin) as [Hw Hn']. split; [done|]. cbn [fst] in *.
    rewrite lookup_insert_ne; [done|]. intros <-. apply Hkl.
    by apply list_elem_of_fmap_2 with (f := fst) in Hin.
Qed.

Lemma list_to_map_config_items c : (list_to_map (config_items c) : gmap _ _) = c.
Proof.
  unfold config_items.
  rewrite <- (list_to_map_to_list c) at 2. apply list_to_map_proper.
  - rewrite merge_sort_Permutation. apply NoDup_fst_map_to_list.
  - apply merge_sort_Permutation.
Qed.

Lemma parses_configuration b0 b c :
  is_u16 (o_length_ b) → o_type_ b = CONFIGURATION → map_Forall item_wf c →
  parses (configuration_option_deserialize b0 ∅) (base_wire b ++ configuration_string c)
    (true, (b, c)).
Proof.
  intros Hl Ht Hc. unfold configuration_option_deserialize.
  eapply parses_bind; [apply parses_base; [done|by rewrite Ht]|cbn beta iota].
  intros d rest Hd Hav. rewrite (st_bind_Ret _ _ _ d d) by done.
  unfold configuration_string in Hav.
  erewrite st_bind_Ret; [|apply (config_loop_parses (config_items c) _ ∅ d rest Hd Hav)].
  - cbn beta iota. rewrite (right_id_L ∅ (∪)), list_to_map_config_items. done.
  - assert (Hr := avail_app_remaining _ _ _ Hd Hav). rewrite length_app in Hr. cbn [length] in Hr.
    assert (length (config_items c) ≤ length (mjoin (config_item_string <$> config_items c)))%nat;
      [|lia]. clear. induction (config_items c) as [|p l IH]; [done|].
    rewrite fmap_cons, join_cons, length_app, length_cons.
    unfold config_item_string at 1. rewrite length_cons. lia.
  - unfold config_items. rewrite merge_sort_Permutation. apply NoDup_fst_map_to_list.
  - apply Forall_forall. intros [k v] Hin. split; [|by rewrite lookup_empty].
    unfold config_items in Hin. rewrite merge_sort_Permutation in Hin.
    apply elem_of_map_to_list in Hin. by apply Hc.
Qed.

Lemma selective_loop_parses uninit cs : ∀ fuel i len acc d rest ok,
  d_wf d → avail d = mjoin (be16 <$> cs) ++ rest → (length cs < fuel)%nat →
  Forall is_u16 cs → 0 ≤ i → len = i + 2 * Z.of_nat (length cs) → len < 2 ^ 16 →
  (cs = [] → ok = true) →
  selective_loop uninit fuel i len ok acc d =
    Ret ((true, list_to_set cs ∪ acc), skip (Z.of_nat (length (mjoin (be16 <$> cs)))) d).
Proof.
  induction cs as [|c cs IH];
    intros [|fuel] i len acc d rest ok Hd Hav Hf Hcs Hi Hlen Hmax Hok; try (simpl in Hf; lia).
  { cbn [selective_loop]. rewrite bool_decide_false by (simpl in Hlen; lia).
    rewrite Hok by done. cbn [fmap list_fmap mjoin list_join length list_to_set].
    by rewrite (left_id_L ∅ (∪)), skip_0. }
  apply Forall_cons in Hcs as [Hc Hcs]. rewrite fmap_cons, join_cons in *.
  rewrite <- (assoc_L (++)) in Hav. cbn [selective_loop length] in *.
  rewrite bool_decide_true by lia.
  rewrite (st_bind_Ret _ _ _ _ _ (parses_u16 c Hc d _ Hd Hav)). cbn [default from_option].
  rewrite (IH fuel _ len _ (skip (Z.of_nat (length (be16 c))) d) rest).
  - rewrite skip_skip. cbn [list_to_set]. rewrite length_app, Nat2Z.inj_add.
    do 3 f_equal. set_solver.
  - eauto using d_wf_skip, avail_app_remaining with lia.
  - by apply avail_skip_app.
  - simpl in Hf. lia.
  - done.
  - width_lia.
  - rewrite Hlen. width_lia.
  - done.
  - intros _. done.
Qed.

Lemma length_client_list c : length (client_list c) = size c.
Proof. unfold client_list. by rewrite merge_sort_Permutation. Qed.
Lemma list_to_set_client_list c : list_to_set (client_list c) = c.
Proof.
  unfold client_list. apply set_eq. intros x.
  rewrite elem_of_list_to_set, merge_sort_Permutation, elem_of_elements. done.
Qed.

Lemma parses_selective uninit b0 b c :
  opt_wf (SelectiveOption b c) →
  parses (selective_option_deserialize uninit b0 ∅)
    (base_wire b ++ mjoin (be16 <$> client_list c)) (true, (b, c)).
Proof.
  intros (Hl&Ht&Hlen&Hc&Hs). unfold selective_option_deserialize.
  change (option_get_length (SelectiveOption b c)) with (o_length_ b) in Hl.
  eapply parses_bind; [apply parses_base; [done|by rewrite Ht]|cbn beta iota].
  intros d rest Hd Hav. assert (Hn := length_client_list c).
  unfold selective_length in Hlen.
  assert (Hsz : Z.of_nat (size c) < 32768).
  { change (2 ^ 15)%nat with (Z.to_nat 32768) in Hs. lia. }
  erewrite st_bind_Ret;
    [|apply (selective_loop_parses uninit (client_list c) _ 1 _ ∅ d rest true Hd Hav)].
  - cbn beta iota. rewrite (right_id_L ∅ (∪)), list_to_set_client_list. done.
  - rewrite Hn. change (2 ^ 15 + 1) with 32769. lia.
  - apply Forall_forall. intros x Hx. apply Hc.
    by rewrite <- (list_to_set_client_list c), elem_of_list_to_set.
  - lia.
  - rewrite Hlen, Hn. width_lia.
  - rewrite Hlen. width_lia.
  - done.
Qed.

(** ** Reading arbitrary bytes *)

Lemma reader_base b : reader true 4 (option_base_deserialize b).
Proof.
  unfold option_base_deserialize. apply (reader_bind _ 2 2); [auto with stream|].
  intros ok1 len. apply (reader_bind _ 1 1); [auto with stream|]. intros ok2 t.
  apply (reader_bind _ 1 0); [auto with stream|]. intros ok3 r.
  destruct ok3; [|apply reader_ret_false].
  destruct (known_option_type t); [apply reader_ret|].
  intros d Hd. eexists _, _, _. split_and!; [done| |].
  - apply advanced_set_remaining; [done|]. destruct Hd as (?&?&?). lia.
  - intros _. split; [done|]. destruct Hd as (?&?&?). simpl. lia.
Qed.

Lemma safe_read_or {A} (v : A) m : safe_reader m → safe_reader (read_or v m).
Proof. intros H. apply safe_bind; [done|]. intros r. apply safe_ret. Qed.
#[export] Hint Resolve safe_read_or reader_base : stream.

Lemma reader_ip_option e n b ip a : 0 ≤ n → reader true 4 (ip_option_deserialize e n b ip a).
Proof.
  intros Hn. unfold ip_option_deserialize. apply (reader_bind _ 4 0); [auto with stream|].
  intros ok b'. do 4 (apply reader_bind_safe; [eauto with stream|intros ?]).
  eapply reader_weaken; [apply reader_ret| |lia]. intros H%andb_true_iff. apply H.
Qed.

(** The configuration loop always has enough fuel: a round that goes on has
    consumed its length byte. *)
Lemma reader_config_loop fuel : ∀ ok acc d, d_wf d → remaining_ d < Z.of_nat fuel →
  ∃ ok' c d', config_loop fuel ok acc d = Ret ((ok', c), d') ∧ advanced d d' ∧
    (ok' = true → ok = true).
Proof.
  induction fuel as [|fuel IH]; intros ok acc d Hd Hf.
  { destruct Hd as (?&?&?). lia. }
  cbn [config_loop].
  destruct (reader_u8 ok 0 d Hd) as (ok1&n&d1&E1&H1&Hc1).
  rewrite (st_bind_Ret _ _ _ _ _ E1). cbn beta iota.
  assert (Hd1 := advanced_wf _ _ Hd H1).
  case_bool_decide as Hn; [|eexists _, _, _; split_and!; [done|done|naive_solver]].
  destruct (safe_try ok1 (repeat 0 256) (deserialize_string 256 n)
              (safe_string 256 n ltac:(lia)) d1 Hd1) as ([ok2 item]&d2&E2&H2).
  rewrite (st_bind_Ret _ _ _ _ _ E2). cbn beta iota.
  destruct (split_item item) as [k v].
  set (res := if ok2 then match acc !! k with
                          | None => (true, <[k := v]> acc)
                          | Some _ => (false, acc)
                          end
              else (false, acc)).
  assert (Hres : res.1 = true → ok2 = true) by (subst res; by destruct ok2).
  destruct res as [ok3 acc']. cbn [fst] in Hres. rewrite (st_bind_Ret _ _ _ d2 d2) by done.
  assert (Hok : ok3 = true → ok = true ∧ remaining_ d1 + 1 ≤ remaining_ d).
  { intros ->. rewrite Hres in E2 by done. apply st_try_true_inv in E2 as [-> _]. auto. }
  assert (Hd2 := advanced_wf _ _ Hd1 H2). assert (Hle := advanced_remaining _ _ H2).
  destruct (ok3 && _) eqn:G.
  - apply andb_true_iff in G as [-> _]. destruct Hok as [-> ?]; [done|].
    destruct (IH true acc' d2 Hd2) as (ok'&c&d'&E&Ha&_); [lia|].
    eexists _, _, _. split_and!; [done|eauto using advanced_trans|done].
  - eexists _, _, _. split_and!; [done|eauto using advanced_trans|]. intros ->. by apply Hok.
Qed.

Lemma reader_configuration b c : reader true 4 (configuration_option_deserialize b c).
Proof.
  unfold configuration_option_deserialize. apply (reader_bind _ 4 0); [auto with stream|].
  intros ok b' d Hd. rewrite (st_bind_Ret _ _ _ d d) by done.
  destruct (reader_config_loop (S (Z.to_nat (remaining_ d))) ok c d Hd)
    as (ok'&c'&d'&E&H&Hc). { destruct Hd as (?&?&?). lia. }
  rewrite (st_bind_Ret _ _ _ _ _ E). eexists _, _, _. split_and!; [done|done|].
  intros Ht. apply advanced_remaining in H. split; [auto|lia].
Qed.

(** The selective loop ends: [i] is odd, so the 16-bit counter passes every
    length before it could wrap. *)
Lemma safe_selective_loop uninit fuel : ∀ i len ok acc,
  0 ≤ i → i mod 2 = 1 → is_u16 len → Z.max 0 (len - i + 1) < 2 * Z.of_nat fuel →
  safe_reader (selective_loop uninit fuel i len ok acc).
Proof.
  induction fuel as [|fuel IH]; intros i len ok acc Hi Hodd Hlen Hf; [lia|].
  cbn [selective_loop]. case_bool_decide as Hlt; [|apply safe_ret].
  apply safe_bind; [auto with stream|]. intros r.
  assert (u16 (i + 2) = i + 2) as -> by width_lia.
  apply IH; [lia| |done|lia]. Z.div_mod_to_equations. lia.
Qed.

Lemma option_base_deserialize_length b d ok b' d' :
  is_u16 (o_length_ b) → option_base_deserialize b d = Ret ((ok, b'), d') →
  is_u16 (o_length_ b').
Proof.
  intros Hb H. unfold option_base_deserialize in H.
  apply st_bind_inv in H as ([ok1 len]&d1&E1&H).
  apply st_bind_inv in H as ([ok2 t]&d2&_&H). apply st_bind_inv in H as ([ok3 r]&d3&_&H).
  assert (Hlen : is_u16 len).
  { unfold st_try in E1. apply st_bind_inv in E1 as ([v|]&dv&Ev&E1).
    - apply deserialize_u16_Some in Ev as [_ Hv]. by injection E1 as <- <- <-.
    - by injection E1 as <- <- <-. }
  destruct ok3, (known_option_type t); by injection H as <- <- <-.
Qed.

Lemma reader_selective uninit b c : is_u16 (o_length_ b) →
  reader true 4 (selective_option_deserialize uninit b c).
Proof.
  intros Hb d Hd. unfold selective_option_deserialize.
  destruct (reader_base b d Hd) as (ok1&b1&d1&E1&H1&Hc1).
  assert (Hl := option_base_deserialize_length _ _ _ _ _ Hb E1).
  rewrite (st_bind_Ret _ _ _ _ _ E1). cbn beta iota.
  destruct ok1; [|eexists _, _, _; split_and!; done].
  destruct (safe_selective_loop uninit (Z.to_nat (2 ^ 15 + 1)) 1 (o_length_ b1) true c)
    with (d := d1) as ([ok2 c']&d2&E2&H2).
  { lia. } { done. } { done. }
  { change (2 ^ 15 + 1) with 32769. width_lia. }
  { by eapply advanced_wf. }
  rewrite (st_bind_Ret _ _ _ _ _ E2). eexists _, _, _.
  split_and!; [done|by eapply advanced_trans|]. intros _.
  destruct Hc1 as [_ ?]; [done|]. apply advanced_remaining in H2. split; [done|lia].
Qed.

(** Every option reader, on a fresh object of its class. *)
Lemma reader_option uninit o : is_u16 (option_get_length o) →
  reader true 4 (option_deserialize uninit o).
Proof.
  intros Hl. destruct o; cbn [option_deserialize];
    unfold option_get_length in Hl; cbn [opt_base] in Hl.
  - apply (reader_bind _ 4 0); auto with stream.
  - apply (reader_bind _ 4 0); [apply reader_configuration|]. intros ? []. apply reader_ret.
  - apply (reader_bind _ 4 0); [|intros ? [[]]; apply reader_ret].
    unfold load_balancing_option_deserialize.
    apply (reader_weaken true true (4 + (2 + (2 + 0)))); [|done|lia].
    repeat (apply reader_bind; [auto with stream|intros ? ?]). apply reader_ret.
  - apply (reader_bind _ 4 0); [|intros ? [[]]; apply reader_ret].
    unfold protection_option_deserialize.
    apply (reader_weaken true true (4 + (4 + (4 + 0)))); [|done|lia].
    apply reader_bind; [auto with stream|intros ? ?].
    do 2 (apply reader_bind; [apply (reader_u32 _ _ false)|intros ? ?]). apply reader_ret.
  - apply (reader_bind _ 4 0); [by apply reader_ip_option|]. intros ? [[]]. apply reader_ret.
  - apply (reader_bind _ 4 0); [by apply reader_ip_option|]. intros ? [[]]. apply reader_ret.
  - apply (reader_bind _ 4 0); [by apply reader_selective|]. intros ? []. apply reader_ret.
Qed.

(** * Lengths *)

(** The bytes the items of a configuration take: per item the length byte, the
    key, ['='] and the value. *)
Definition item_size (k v : list Z) : Z := Z.of_nat (length k) + Z.of_nat (length v) + 2.
Definition config_size (c : gmap (list Z) (list Z)) : Z :=
  map_fold (λ k v n, item_size k v + n) 0 c.

(** The length field counts everything behind the type byte. *)
Definition opt_length_ok (o : option_impl) : Prop :=
  match o with
  | PlainOption _ => False
  | ConfigurationOption b c => o_length_ b = 2 + config_size c
  | LoadBalancingOption b _ _ => o_length_ b = 5
  | ProtectionOption b _ _ => o_length_ b = 9
  | Ipv4Option b _ a => o_length_ b = 9 ∧ length a = 4%nat
  | Ipv6Option b _ a => o_length_ b = 21 ∧ length a = 16%nat
  | SelectiveOption b c => o_length_ b = 1 + 2 * Z.of_nat (size c)
  end.

Lemma config_size_insert c k v : c !! k = None →
  config_size (<[k := v]> c) = item_size k v + config_size c.
Proof.
  intros Hk. unfold config_size. rewrite map_fold_insert_L; [done| |done]. intros. lia.
Qed.
Lemma config_size_delete c k v : c !! k = Some v →
  config_size c = item_size k v + config_size (delete k c).
Proof. intros Hk. unfold config_size.
  by rewrite (map_fold_delete_L _ 0 k v c) by (done || (intros; lia)). Qed.
Lemma config_size_nonneg c : 0 ≤ config_size c.
Proof.
  induction c as [|k v c Hk IH] using map_ind; [done|].
  rewrite config_size_insert by done. unfold item_size. lia.
Qed.

(** The length of a concatenation does not depend on the order of its parts. *)
#[export] Instance length_mjoin_proper {A B} (f : A → list B) :
  Proper ((≡ₚ) ==> eq) (λ l, length (mjoin (f <$> l))).
Proof.
  induction 1 as [|x l l' _ IH|x y l|l1 l2 l3 _ IH1 _ IH2]; [done| | |congruence].
  - rewrite !fmap_cons, !join_cons, !length_app. lia.
  - rewrite !fmap_cons, !join_cons, !length_app. lia.
Qed.

Lemma length_configuration_string c :
  Z.of_nat (length (configuration_string c)) = 1 + config_size c.
Proof.
  unfold configuration_string, config_items, config_size. rewrite length_app.
  rewrite (length_mjoin_proper config_item_string _ _
             (merge_sort_Permutation item_le (map_to_list c))).
  rewrite map_fold_foldr. cbn [length].
  induction (map_to_list c) as [|[k v] l IH]; [done|].
  rewrite fmap_cons, join_cons, length_app. cbn [foldr uncurry].
  unfold config_item_string at 1, item_size at 1. cbn [fst snd].
  rewrite length_cons, !length_app. cbn [length]. lia.
Qed.

Lemma length_mjoin_be16 cs : length (mjoin (be16 <$> cs)) = (2 * length cs)%nat.
Proof.
  induction cs as [|c cs IH]; [done|]. rewrite fmap_cons, join_cons, length_app, IH.
  cbn [length be16]. lia.
Qed.

(** The wire image of an option takes three bytes more than its length field. *)
Lemma length_opt_wire o : opt_length_ok o →
  Z.of_nat (length (opt_wire o)) = option_get_length o + 3.
Proof.
  unfold opt_wire, option_get_length. rewrite length_app, Nat2Z.inj_add.
  change (Z.of_nat (length (base_wire (opt_base o)))) with 4.
  destruct o; cbn [opt_base opt_body opt_length_ok]; intros Hl.
  - done.
  - rewrite length_configuration_string. lia.
  - cbn [be16 app length]. lia.
  - cbn [be32 be24 app length]. lia.
  - rewrite length_app. cbn [be16 app length]. lia.
  - rewrite length_app. cbn [be16 app length]. lia.
  - rewrite length_mjoin_be16, length_client_list. lia.
Qed.

(** * Theorems *)

Lemma parses_option uninit o : opt_wf o →
  parses (option_deserialize uninit (option_new_of_type (option_get_type o)))
    (opt_wire o) (true, o).
Proof.
  intros Hw. assert (Ho := Hw). destruct Ho as [Hl Ho].
  unfold option_get_type, option_get_length, opt_wire in *.
  destruct o as [b|b c|b p w|b c k|b ip a|b ip a|b c]; cbn [opt_base opt_body] in *.
  - done.
  - destruct Ho as [Ht Hc]. rewrite Ht.
    eapply parses_bind_nil; [by apply parses_configuration|apply parses_ret].
  - destruct Ho as (Ht&Hp&Hc). rewrite Ht.
    eapply parses_bind_nil; [by apply parses_load_balancing|apply parses_ret].
  - destruct Ho as (Ht&Hp&Hc). rewrite Ht.
    eapply parses_bind_nil; [by apply parses_protection|apply parses_ret].
  - destruct Ho as (Ht&Hlen&Hip&Hb&Ha).
    assert (option_new_of_type (o_type_ b) = ipv4_option_new ∧
            known_option_type (o_type_ b) = true) as [-> Hk].
    { set_unfold in Ht. destruct Ht as [->|[->|[]]]; done. }
    cbn [option_deserialize ipv4_option_new]. unfold ipv4_option_deserialize.
    rewrite <- Hlen. replace 4 with (Z.of_nat (length a)) by (rewrite Ha; done).
    eapply parses_bind_nil; [by apply parses_ip_option|apply parses_ret].
  - destruct Ho as (Ht&Hlen&Hip&Hb&Ha).
    assert (option_new_of_type (o_type_ b) = ipv6_option_new ∧
            known_option_type (o_type_ b) = true) as [-> Hk].
    { set_unfold in Ht. destruct Ht as [->|[->|[]]]; done. }
    cbn [option_deserialize ipv6_option_new]. unfold ipv6_option_deserialize.
    rewrite <- Hlen. replace 16 with (Z.of_nat (length a)) by (rewrite Ha; done).
    eapply parses_bind_nil; [by apply parses_ip_option|apply parses_ret].
  - destruct Ho as (Ht&_). rewrite Ht.
    eapply parses_bind_nil; [by apply parses_selective|apply parses_ret].
Qed.

(** An option survives the wire.  A well-formed option of every class is read
    back by the object the type byte selects, field by field, consuming exactly
    its wire image, and that image takes [length_ + 3] bytes when the length field
    is consistent. *)
Theorem option_roundtrip uninit o s d rest :
  opt_wf o → d_wf d → avail d = opt_wire o ++ rest →
  option_serialize o s = Ret (true, ser_append (opt_wire o) s) ∧
  option_deserialize uninit (option_new_of_type (option_get_type o)) d =
    Ret ((true, o), skip (Z.of_nat (length (opt_wire o))) d) ∧
  (opt_length_ok o → Z.of_nat (length (opt_wire o)) = option_get_length o + 3).
Proof.
  intros Ho Hd Hav. split_and!.
  - apply writes_option.
  - by apply (parses_option uninit o Ho d rest).
  - apply length_opt_wire.
Qed.

(** A configuration option with two items. *)
Definition sample_option : option_impl :=
  ConfigurationOption (OptionBase 11 CONFIGURATION)
    (<[[0x61] := [0x31; 0x32]]> (<[[0x62] := [0x33]]> ∅)).

Lemma sample_option_wf : opt_wf sample_option.
Proof.
  split; [vm_compute; done|]. split; [done|]. unfold sample_option.
  apply map_Forall_insert_2; [|apply map_Forall_insert_2; [|apply map_Forall_empty]].
  - split_and!; [repeat constructor; vm_compute; done..|set_solver|simpl; lia].
  - split_and!; [repeat constructor; vm_compute; done..|set_solver|simpl; lia].
Defined.

Lemma option_roundtrip_witness :
  let d := deserializer_of (opt_wire sample_option ++ [9]) 0 in
  option_serialize sample_option (serializer_new 0) =
    Ret (true, ser_append (opt_wire sample_option) (serializer_new 0)) ∧
  option_deserialize 0 (option_new_of_type CONFIGURATION) d =
    Ret ((true, sample_option), skip (Z.of_nat (length (opt_wire sample_option))) d) ∧
  (opt_length_ok sample_option →
   Z.of_nat (length (opt_wire sample_option)) = option_get_length sample_option + 3).
Proof.
  apply (option_roundtrip 0 sample_option (serializer_new 0)
           (deserializer_of (opt_wire sample_option ++ [9]) 0) [9]).
  - apply sample_option_wf.
  - apply d_wf_of.
  - apply avail_of.
Defined.

(** Reading an option never leaves the buffer and always ends.  Whatever the
    bytes are, a fresh object of every class returns from [deserialize] (the loops
    over configuration items and clients end) with the window only shrunk, and a
    reported success has consumed at least the four bytes of the option header. *)
Theorem option_deserialize_safe uninit t d :
  d_wf d →
  ∃ ok o d', option_deserialize uninit (option_new_of_type t) d = Ret ((ok, o), d') ∧
    advanced d d' ∧ (ok = true → remaining_ d' + 4 ≤ remaining_ d).
Proof.
  intros Hd.
  assert (Hl : is_u16 (option_get_length (option_new_of_type t))).
  { unfold option_new_of_type. repeat case_bool_decide; done. }
  destruct (reader_option uninit _ Hl d Hd) as (ok&o&d'&E&H&Hc).
  eexists _, _, _. split_and!; [done|done|]. intros Ht. by apply Hc.
Qed.

Lemma option_deserialize_safe_witness :
  let d := deserializer_of [0xFF; 0xFF; 0x20; 0; 1; 2; 3] 0 in
  ∃ ok o d', option_deserialize 0 (option_new_of_type SELECTIVE) d = Ret ((ok, o), d') ∧
    advanced d d' ∧ (ok = true → remaining_ d' + 4 ≤ remaining_ d).
Proof.
  apply (option_deserialize_safe 0 SELECTIVE (deserializer_of [0xFF; 0xFF; 0x20; 0; 1; 2; 3] 0)).
  apply d_wf_of.
Defined.

(** ** Equality of options *)

Lemma option_base_eqb_true b b' : option_base_eqb b b' = true ↔ b = b'.
Proof.
  unfold option_base_eqb. rewrite andb_true_iff, !bool_decide_eq_true.
  destruct b, b'; naive_solver.
Qed.

(** Well-formed options of different classes differ in their type byte. *)
Definition opt_class (o : option_impl) : Z :=
  match o with
  | PlainOption _ => 0 | ConfigurationOption _ _ => 1 | LoadBalancingOption _ _ _ => 2
  | ProtectionOption _ _ _ => 3 | Ipv4Option _ _ _ => 4 | Ipv6Option _ _ _ => 5
  | SelectiveOption _ _ => 6
  end.

Lemma opt_wf_class o o' : opt_wf o → opt_wf o' → opt_base o = opt_base o' →
  opt_class o = opt_class o'.
Proof.
  assert (Hc : ∀ o, opt_wf o →
    opt_class o = opt_class (option_new_of_type (o_type_ (opt_base o)))).
  { intros x [_ Hx]. destruct x; cbn [opt_base opt_class] in *; [done|..];
      destruct Hx as [Ht _]; try by rewrite Ht.
    all: repeat (apply elem_of_cons in Ht as [->|Ht]; [done|]); by apply not_elem_of_nil in Ht. }
  intros Ho%Hc Ho'%Hc E. congruence.
Qed.

Lemma option_base_eqb_spec b b' : option_base_eqb b b' = bool_decide (b = b').
Proof.
  apply eq_true_iff_eq. by rewrite option_base_eqb_true, bool_decide_eq_true.
Qed.

Ltac option_eqb_unfold :=
  unfold configuration_option_eqb, load_balancing_option_eqb, protection_option_eqb,
    ipv4_option_eqb, ipv6_option_eqb, ip_option_eqb, selective_option_eqb.

(** Outside load balancing the comparison decides equality. *)
Lemma option_equals_wf o o' : opt_wf o → opt_wf o' → opt_class o ≠ 2 ∨ opt_class o' ≠ 2 →
  option_equals o o' = Ret (bool_decide (o = o')).
Proof.
  intros Ho Ho' Hlb. assert (Hcl := opt_wf_class o o' Ho Ho').
  destruct o as [b|b c|b p w|b c k|b ip a|b ip a|b c]; [by destruct Ho|..];
    destruct o' as [b'|b' c'|b' p' w'|b' c' k'|b' ip' a'|b' ip' a'|b' c']; try by destruct Ho'.
  all: cbn [opt_base opt_class option_equals] in *; option_eqb_unfold;
    cbn [opt_base]; rewrite ?option_base_eqb_spec.
  all: try (rewrite (bool_decide_false (b = b')) by (intros ?; by specialize (Hcl ltac:(done)));
            cbn; by rewrite bool_decide_false by congruence).
  all: destruct (decide (b = b')) as [->|Hne];
    [rewrite (bool_decide_true (b' = b')) by done
    |rewrite (bool_decide_false (b = b')) by done; cbn;
     try (by rewrite bool_decide_false by naive_solver)].
  - f_equal. apply bool_decide_ext. naive_solver.
  - exfalso. naive_solver.
  - f_equal. repeat case_bool_decide; naive_solver.
  - destruct ip, ip'; cbn. repeat case_bool_decide; naive_solver.
  - destruct ip, ip'; cbn. repeat case_bool_decide; naive_solver.
  - f_equal. apply bool_decide_ext. naive_solver.
Qed.

Lemma load_balancing_equals b p w b' p' w' :
  option_equals (LoadBalancingOption b p w) (LoadBalancingOption b' p' w') =
  Ret (bool_decide (b = b' ∧ p = p' ∧ p = w')).
Proof.
  cbn [option_equals]. option_eqb_unfold. cbn [opt_base]. rewrite option_base_eqb_spec.
  repeat case_bool_decide; naive_solver.
Qed.

(** Comparing well-formed options never throws, and for every class but one it
    decides equality of the objects.  The exception is load balancing, whose
    comparison matches the priority against the other object's weight: two options
    compare equal exactly when they agree in length and type and the left priority
    equals both the right priority and the right weight, so an option equals itself
    only if its priority is its weight. *)
Theorem option_equals_decides o o' :
  opt_wf o → opt_wf o' →
  match o, o' with
  | LoadBalancingOption b p w, LoadBalancingOption b' p' w' =>
      option_equals o o' = Ret (bool_decide (b = b' ∧ p = p' ∧ p = w')) ∧
      option_equals o o = Ret (bool_decide (p = w))
  | _, _ => option_equals o o' = Ret (bool_decide (o = o'))
  end.
Proof.
  intros Ho Ho'. assert (H := option_equals_wf o o' Ho Ho').
  destruct o as [b|b c|b p w|b c k|b ip a|b ip a|b c];
    try (apply H; by left); destruct o'; try (apply H; by right).
  split; rewrite load_balancing_equals; [done|]. f_equal. apply bool_decide_ext. naive_solver.
Qed.

Lemma option_equals_decides_witness :
  let o := LoadBalancingOption (OptionBase 5 LOAD_BALANCING) 1 2 in
  option_equals o o =
    Ret (bool_decide (OptionBase 5 LOAD_BALANCING = OptionBase 5 LOAD_BALANCING ∧ 1 = 1 ∧ 1 = 2)) ∧
  option_equals o o = Ret (bool_decide (1 = 2)).
Proof.
  apply (option_equals_decides (LoadBalancingOption (OptionBase 5 LOAD_BALANCING) 1 2)
           (LoadBalancingOption (OptionBase 5 LOAD_BALANCING) 1 2));
    split_and!; vm_compute; done.
Defined.

(** ** Configuration items and the length field *)

(** The length field of a configuration option.  Adding an item under a new key
    and removing an item keep the field equal to the size of the serialized items;
    adding an item under a key that is already present replaces the value but
    counts the old item as well, so the field exceeds the serialized size by the
    size of the replaced item. *)
Theorem config_length_tracked b c k v :
  opt_length_ok (ConfigurationOption b c) →
  2 + config_size c + item_size k v < 2 ^ 16 →
  let add := add_item k v b c in
  let remove := remove_item k b c in
  (c !! k = None → opt_length_ok (ConfigurationOption add.1 add.2)) ∧
  opt_length_ok (ConfigurationOption remove.1 remove.2) ∧
  (∀ v0, c !! k = Some v0 → o_length_ add.1 = 2 + config_size add.2 + item_size k v0).
Proof.
  intros Hl Hmax add remove. cbn [opt_length_ok] in *.
  assert (Hn := config_size_nonneg c).
  assert (Hadd : o_length_ add.1 = 2 + config_size c + item_size k v).
  { subst add. unfold add_item, item_size in *. cbn. width_lia. }
  split_and!.
  - intros Hk. rewrite Hadd. subst add. cbn. rewrite config_size_insert by done. lia.
  - subst remove. unfold remove_item. destruct (c !! k) as [v0|] eqn:Hk; [|done]. cbn.
    assert (Hd := config_size_delete c k v0 Hk). assert (Hn' := config_size_nonneg (delete k c)).
    unfold item_size in *. rewrite Hl. width_lia.
  - intros v0 Hk. rewrite Hadd. subst add. cbn.
    rewrite <- insert_delete_eq, config_size_insert by apply lookup_delete_eq.
    rewrite (config_size_delete c k v0 Hk). lia.
Qed.

Lemma config_length_tracked_witness :
  let b := OptionBase 6 CONFIGURATION in
  let c := {[ [0x61] := [0x31] ]} : gmap (list Z) (list Z) in
  let add := add_item [0x61] [0x32] b c in
  let remove := remove_item [0x61] b c in
  (c !! [0x61] = None → opt_length_ok (ConfigurationOption add.1 add.2)) ∧
  opt_length_ok (ConfigurationOption remove.1 remove.2) ∧
  (∀ v0, c !! [0x61] = Some v0 →
   o_length_ add.1 = 2 + config_size add.2 + item_size [0x61] v0).
Proof.
  apply (config_length_tracked (OptionBase 6 CONFIGURATION) {[ [0x61] := [0x31] ]} [0x61] [0x32]).
  - vm_compute. done.
  - vm_compute. done.
Defined.
