(* ===== verification/SdEntries.v ===== *)
(** The entry array elements of SOME/IP service discovery:
    [service_discovery/src/entry_impl.cpp], [serviceentry_impl.cpp] and
    [eventgroupentry_impl.cpp].

    An entry refers to options of its message by index, in two runs of
    consecutive indexes; on the wire a run is its first index and a four-bit
    count. *)
From S2P Require Import Prelude ByteOrder Streams SdOptions.

(** * Constants *)

Definition FIND_SERVICE : Z := 0x00.
Definition OFFER_SERVICE : Z := 0x01.
Definition REQUEST_SERVICE : Z := 0x02.
Definition FIND_EVENT_GROUP : Z := 0x04.
Definition PUBLISH_EVENTGROUP : Z := 0x05.
Definition SUBSCRIBE_EVENTGROUP : Z := 0x06.
Definition SUBSCRIBE_EVENTGROUP_ACK : Z := 0x07.
Definition ENTRY_UNKNOWN : Z := 0xFF.

Definition VSOMEIP_MAX_OPTION_RUN : Z := 2.
Definition reserved_word : Z := 0x0.

(** * Entries *)

(** The members of [entry_impl]; the arrays [options_] and [num_options_] of
    length two are two fields each. *)
Record entry_base := EntryBase {
  e_type_ : Z;
  e_service_ : Z;
  e_instance_ : Z;
  e_major_version_ : Z;
  e_ttl_ : Z;
  options0_ : list Z;
  options1_ : list Z;
  num_options0_ : Z;
  num_options1_ : Z;
  index1_ : Z;
  index2_ : Z }.

Definition entry_base_new : entry_base :=
  EntryBase ENTRY_UNKNOWN 0 0 0 0 [] [] 0 0 0 0.

(** The copy constructor leaves the option runs of the copy empty. *)
Definition entry_base_copy (e : entry_base) : entry_base :=
  EntryBase (e_type_ e) (e_service_ e) (e_instance_ e) (e_major_version_ e) (e_ttl_ e)
    [] [] (num_options0_ e) (num_options1_ e) (index1_ e) (index2_ e).

Definition entry_set_type (v : Z) (e : entry_base) : entry_base :=
  EntryBase v (e_service_ e) (e_instance_ e) (e_major_version_ e) (e_ttl_ e)
    (options0_ e) (options1_ e) (num_options0_ e) (num_options1_ e) (index1_ e) (index2_ e).
Definition entry_set_service (v : Z) (e : entry_base) : entry_base :=
  EntryBase (e_type_ e) v (e_instance_ e) (e_major_version_ e) (e_ttl_ e)
    (options0_ e) (options1_ e) (num_options0_ e) (num_options1_ e) (index1_ e) (index2_ e).
Definition entry_set_instance (v : Z) (e : entry_base) : entry_base :=
  EntryBase (e_type_ e) (e_service_ e) v (e_major_version_ e) (e_ttl_ e)
    (options0_ e) (options1_ e) (num_options0_ e) (num_options1_ e) (index1_ e) (index2_ e).
Definition entry_set_major_version (v : Z) (e : entry_base) : entry_base :=
  EntryBase (e_type_ e) (e_service_ e) (e_instance_ e) v (e_ttl_ e)
    (options0_ e) (options1_ e) (num_options0_ e) (num_options1_ e) (index1_ e) (index2_ e).
Definition entry_set_ttl (v : Z) (e : entry_base) : entry_base :=
  EntryBase (e_type_ e) (e_service_ e) (e_instance_ e) (e_major_version_ e) v
    (options0_ e) (options1_ e) (num_options0_ e) (num_options1_ e) (index1_ e) (index2_ e).

Definition entry_get_options (run : Z) (e : entry_base) : list Z :=
  if bool_decide (run > 0) && bool_decide (run ≤ VSOMEIP_MAX_OPTION_RUN) then
    if bool_decide (run = 1) then options0_ e else options1_ e
  else [].

Definition get_num_options (run : Z) (e : entry_base) : Z :=
  if bool_decide (run < 1) || bool_decide (run > VSOMEIP_MAX_OPTION_RUN) then 0
  else if bool_decide (run = 1) then num_options0_ e else num_options1_ e.

Definition is_service_entry (e : entry_base) : bool :=
  bool_decide (e_type_ e ≤ REQUEST_SERVICE).
Definition is_eventgroup_entry (e : entry_base) : bool :=
  bool_decide (e_type_ e >= FIND_EVENT_GROUP)
  && bool_decide (e_type_ e ≤ SUBSCRIBE_EVENTGROUP_ACK).

(** The test whether an index extends a run at either end, and the extension. *)
Definition run_accepts (index : Z) (run : list Z) : bool :=
  match run with
  | [] => true
  | first :: _ =>
      bool_decide (first = index + 1) || bool_decide (default 0 (last run) + 1 = index)
  end.
Definition run_add (index : Z) (run : list Z) : list Z := merge_sort Z.le (run ++ [index]).

(** [i] is [get_owning_message()->get_option_index(_option)], a signed 16-bit
    value that is -1 when the option is not in the message. *)
Definition assign_option (i : Z) (e : entry_base) : entry_base :=
  if bool_decide (i > -1) && bool_decide (i < 256) then
    let its_index := u8 i in
    if run_accepts its_index (options0_ e) then
      EntryBase (e_type_ e) (e_service_ e) (e_instance_ e) (e_major_version_ e) (e_ttl_ e)
        (run_add its_index (options0_ e)) (options1_ e)
        (u8 (num_options0_ e + 1)) (num_options1_ e) (index1_ e) (index2_ e)
    else if run_accepts its_index (options1_ e) then
      EntryBase (e_type_ e) (e_service_ e) (e_instance_ e) (e_major_version_ e) (e_ttl_ e)
        (options0_ e) (run_add its_index (options1_ e))
        (num_options0_ e) (u8 (num_options1_ e + 1)) (index1_ e) (index2_ e)
    else e
  else e.

(** ** Serialization of the common part *)

Definition run_index (run : list Z) : Z := default 0 (head run).

Definition number_of_options (e : entry_base) : Z :=
  u8 (Z.lor (Z.shiftl (u8 (Z.of_nat (length (options0_ e)))) 4)
            (Z.land (u8 (Z.of_nat (length (options1_ e)))) 0x0F)).

Definition entry_base_serialize (e : entry_base) : ST serializer bool :=
  serialize_u8 (e_type_ e)
  <&&> serialize_u8 (run_index (options0_ e))
  <&&> serialize_u8 (run_index (options1_ e))
  <&&> serialize_u8 (number_of_options e)
  <&&> serialize_u16 (e_service_ e)
  <&&> serialize_u16 (e_instance_ e).

(** The indexes a run adds when it is read: [first .. first + count - 1], each
    truncated to eight bits. *)
Definition read_run (first count : Z) : list Z := u8 <$> seqZ first count.

Definition entry_base_deserialize (e : entry_base) : ST deserializer (bool * entry_base) :=
  '(ok, its_type) ← st_try true 0 deserialize_u8;
  '(ok, index1) ← st_try ok (index1_ e) deserialize_u8;
  '(ok, index2) ← st_try ok (index2_ e) deserialize_u8;
  '(ok, its_numbers) ← st_try ok 0 deserialize_u8;
  let num0 := u8 (Z.shiftr its_numbers 4) in
  let num1 := u8 (Z.land its_numbers 0xF) in
  '(ok, its_id) ← st_try ok 0 deserialize_u16;
  let service := its_id in
  '(ok, its_id) ← st_try ok its_id deserialize_u16;
  mret (ok, EntryBase its_type service its_id (e_major_version_ e) (e_ttl_ e)
              (options0_ e ++ read_run index1 num0) (options1_ e ++ read_run index2 num1)
              num0 num1 index1 index2).

(** * Service entries and eventgroup entries *)

(** [endpoints/include/endpoint_definition.hpp]: the address is the byte string of
    the boost address. *)
Record endpoint_definition := EndpointDefinition {
  ep_address_ : list Z;
  ep_port_ : Z;
  ep_is_reliable_ : bool;
  ep_remote_port_ : Z }.

#[export] Instance endpoint_definition_eq_dec : EqDecision endpoint_definition.
Proof. solve_decision. Defined.

Inductive entry_impl : Type :=
| ServiceEntry (e : entry_base) (minor_version_ : Z)
| EventgroupEntry (e : entry_base) (eventgroup_ reserved_ counter_ : Z)
    (target_reliable_ target_unreliable_ : option endpoint_definition).

Definition entry_common (x : entry_impl) : entry_base :=
  match x with ServiceEntry e _ => e | EventgroupEntry e _ _ _ _ _ => e end.

Definition with_common (f : entry_base → entry_base) (x : entry_impl) : entry_impl :=
  match x with
  | ServiceEntry e m => ServiceEntry (f e) m
  | EventgroupEntry e g r c t u => EventgroupEntry (f e) g r c t u
  end.

Definition serviceentry_new : entry_impl := ServiceEntry entry_base_new 0.
Definition eventgroupentry_new : entry_impl :=
  EventgroupEntry entry_base_new 0xFFFF 0 0 None None.

Definition serviceentry_serialize (e : entry_base) (minor_version : Z) : ST serializer bool :=
  entry_base_serialize e
  <&&> serialize_u8 (e_major_version_ e)
  <&&> serialize_u32 (e_ttl_ e) true
  <&&> serialize_u32 minor_version false.

Definition serviceentry_deserialize (e : entry_base) :
    ST deserializer (bool * (entry_base * Z)) :=
  '(ok, e) ← entry_base_deserialize e;
  '(ok, tmp_major_version) ← st_try ok 0 deserialize_u8;
  '(ok, tmp_ttl) ← st_try ok 0 (deserialize_u32 true);
  '(ok, tmp_minor_version) ← st_try ok 0 (deserialize_u32 false);
  mret (ok, (entry_set_ttl tmp_ttl (entry_set_major_version tmp_major_version e),
             tmp_minor_version)).

Definition eventgroupentry_serialize (e : entry_base) (eventgroup : Z) : ST serializer bool :=
  entry_base_serialize e
  <&&> serialize_u8 (e_major_version_ e)
  <&&> serialize_u32 (e_ttl_ e) true
  <&&> serialize_u16 reserved_word
  <&&> serialize_u16 eventgroup.

Definition eventgroupentry_deserialize (e : entry_base) (reserved : Z) :
    ST deserializer (bool * (entry_base * Z * Z)) :=
  '(ok, e) ← entry_base_deserialize e;
  '(ok, tmp_major_version) ← st_try ok 0 deserialize_u8;
  '(ok, its_ttl) ← st_try ok 0 (deserialize_u32 true);
  '(ok, reserved) ← st_try ok reserved deserialize_u16;
  '(ok, its_eventgroup) ← st_try ok 0 deserialize_u16;
  mret (ok, (entry_set_ttl its_ttl (entry_set_major_version tmp_major_version e),
             its_eventgroup, reserved)).

Definition entry_serialize (x : entry_impl) : ST serializer bool :=
  match x with
  | ServiceEntry e m => serviceentry_serialize e m
  | EventgroupEntry e g _ _ _ _ => eventgroupentry_serialize e g
  end.

Definition entry_deserialize (x : entry_impl) : ST deserializer (bool * entry_impl) :=
  match x with
  | ServiceEntry e _ =>
      '(ok, (e, m)) ← serviceentry_deserialize e; mret (ok, ServiceEntry e m)
  | EventgroupEntry e _ r c t u =>
      '(ok, (e, g, r)) ← eventgroupentry_deserialize e r;
      mret (ok, EventgroupEntry e g r c t u)
  end.

Definition add_target (target : endpoint_definition) (x : entry_impl) : entry_impl :=
  match x with
  | EventgroupEntry e g r c t u =>
      if ep_is_reliable_ target then EventgroupEntry e g r c (Some target) u
      else EventgroupEntry e g r c t (Some target)
  | _ => x
  end.
Definition get_target (reliable : bool) (x : entry_impl) : option endpoint_definition :=
  match x with
  | EventgroupEntry _ _ _ _ t u => if reliable then t else u
  | _ => None
  end.

(** ** Matching two eventgroup entries of one message *)

(** [operator==] of eventgroup entries. *)
Definition eventgroupentry_eqb (x y : entry_impl) : bool :=
  match x, y with
  | EventgroupEntry e g _ c _ _, EventgroupEntry e' g' _ c' _ _ =>
      bool_decide (e_ttl_ e = e_ttl_ e') && bool_decide (e_service_ e = e_service_ e') &&
      bool_decide (e_instance_ e = e_instance_ e') && bool_decide (g = g') &&
      bool_decide (index1_ e = index1_ e') && bool_decide (index2_ e = index2_ e') &&
      bool_decide (num_options0_ e = num_options0_ e') &&
      bool_decide (num_options1_ e = num_options1_ e') &&
      bool_decide (e_major_version_ e = e_major_version_ e') && bool_decide (c = c')
  | _, _ => false
  end.

(** The IP endpoint options an entry refers to through one run; indexes beyond the
    option array are skipped. *)
Definition ip_endpoints (options : list option_impl) (run : list Z) : list option_impl :=
  omap (λ index, o ← options !! Z.to_nat index;
                 if bool_decide (option_get_type o = IP4_ENDPOINT)
                    || bool_decide (option_get_type o = IP6_ENDPOINT)
                 then Some o else None) run.

(** The downcast [static_cast] needs the class the type byte announces. *)
Definition endpoint_address (o : option_impl) : outcome (list Z) :=
  match o with
  | Ipv4Option b _ a => if bool_decide (o_type_ b = IP4_ENDPOINT) then Ret a else Undef
  | Ipv6Option b _ a => if bool_decide (o_type_ b = IP6_ENDPOINT) then Ret a else Undef
  | _ => Undef
  end.

Definition endpoint_matches (c o : option_impl) : outcome bool :=
  eq ← option_equals c o;
  if (eq : bool) then
    a ← endpoint_address c; a' ← endpoint_address o; Ret (bool_decide (a = a'))
  else Ret false.

Fixpoint endpoint_found (c : option_impl) (others : list option_impl) : outcome bool :=
  match others with
  | [] => Ret false
  | o :: others =>
      found ← endpoint_matches c o;
      if (found : bool) then Ret true else endpoint_found c others
  end.

Fixpoint all_found (current others : list option_impl) : outcome bool :=
  match current with
  | [] => Ret true
  | c :: current =>
      found ← endpoint_found c others;
      if (found : bool) then all_found current others else Ret false
  end.

Definition eventgroupentry_matches (options : list option_impl) (x other : entry_impl) :
    outcome bool :=
  match x, other with
  | EventgroupEntry e g _ c _ _, EventgroupEntry e' g' _ c' _ _ =>
      if bool_decide (e_service_ e = e_service_ e') &&
         bool_decide (e_instance_ e = e_instance_ e') && bool_decide (g = g') &&
         bool_decide (e_major_version_ e = e_major_version_ e') && bool_decide (c = c')
      then
        if bool_decide (index1_ e = index1_ e') && bool_decide (index2_ e = index2_ e') &&
           bool_decide (num_options0_ e = num_options0_ e') &&
           bool_decide (num_options1_ e = num_options1_ e')
        then Ret true
        else if bool_decide (num_options0_ e + num_options1_ e ≠
                             num_options0_ e' + num_options1_ e') ||
                bool_decide (num_options0_ e + num_options1_ e = 0)
        then Ret false
        else
          let current := ip_endpoints options (options0_ e) ++ ip_endpoints options (options1_ e) in
          let others := ip_endpoints options (options0_ e') ++ ip_endpoints options (options1_ e') in
          if bool_decide (current = []) || bool_decide (others = []) then Ret false
          else all_found current others
      else Ret false
  | _, _ => Ret false
  end.

(** * The wire format of an entry *)

Definition entry_base_wire (e : entry_base) : list Z :=
  [e_type_ e] ++ [run_index (options0_ e)] ++ [run_index (options1_ e)] ++
  [number_of_options e] ++ be16 (e_service_ e) ++ be16 (e_instance_ e).

Definition entry_wire (x : entry_impl) : list Z :=
  entry_base_wire (entry_common x) ++ [e_major_version_ (entry_common x)] ++
  be24 (e_ttl_ (entry_common x)) ++
  match x with
  | ServiceEntry _ m => be32 m
  | EventgroupEntry _ g _ _ _ _ => be16 reserved_word ++ be16 g
  end.

Lemma length_entry_wire x : length (entry_wire x) = 16%nat.
Proof. by destruct x. Qed.

Lemma writes_entry_base e : writes (entry_base_serialize e) (entry_base_wire e).
Proof. unfold entry_base_serialize, entry_base_wire. auto 12 with stream. Qed.
#[export] Hint Resolve writes_entry_base : stream.

Lemma writes_entry x : writes (entry_serialize x) (entry_wire x).
Proof.
  destruct x; cbn [entry_serialize];
    unfold entry_wire, serviceentry_serialize, eventgroupentry_serialize;
    cbn [entry_common]; auto 12 with stream.
Qed.

(** ** Option runs *)

(** A run of consecutive eight-bit indexes. *)
Definition run_ok (run : list Z) : Prop :=
  ∃ first, run = seqZ first (Z.of_nat (length run)) ∧ 0 ≤ first ∧
    first + Z.of_nat (length run) ≤ 256.

Lemma run_ok_nil : run_ok [].
Proof. by exists 0. Qed.

Lemma read_run_seqZ first n : 0 ≤ first → first + n ≤ 256 →
  read_run first n = seqZ first n.
Proof.
  intros H0 H1. unfold read_run. rewrite <- (list_fmap_id (seqZ first n)) at 2.
  apply Forall_fmap_ext_1, Forall_seqZ. intros m Hm. apply (u8_id m). unfold is_u8. lia.
Qed.

Lemma run_index_seqZ first n : 0 < n → run_index (seqZ first n) = first.
Proof. intros Hn. unfold run_index. by rewrite seqZ_cons. Qed.

(** A run is determined by what is written of it. *)
Lemma read_run_index run : run_ok run →
  read_run (run_index run) (Z.of_nat (length run)) = run.
Proof.
  intros (first&E&H0&H1). destruct (decide (length run = 0%nat)) as [Hl|Hl].
  - by apply nil_length_inv in Hl as ->.
  - assert (run_index run = first) as ->.
    { rewrite E. apply run_index_seqZ. lia. }
    rewrite read_run_seqZ by lia. done.
Qed.

Lemma Sorted_seqZ_nat n : ∀ first, Sorted Z.le (seqZ first (Z.of_nat n)).
Proof.
  induction n as [|n IH]; intros first; [constructor|].
  rewrite seqZ_cons by lia. replace (Z.pred (Z.of_nat (S n))) with (Z.of_nat n) by lia.
  constructor; [apply IH|]. destruct n; [constructor|].
  rewrite seqZ_cons by lia. constructor. lia.
Qed.

Lemma run_add_eq index run target :
  Sorted Z.le target → target ≡ₚ run ++ [index] → run_add index run = target.
Proof.
  intros Hs Hp. unfold run_add. apply (Sorted_unique Z.le).
  - apply Sorted_merge_sort. apply _.
  - done.
  - by rewrite merge_sort_Permutation.
Qed.

Lemma last_seqZ first n : last (seqZ first (Z.of_nat (S n))) = Some (first + Z.of_nat n).
Proof. rewrite seqZ_S. apply last_snoc. Qed.

(** Adding an accepted index keeps a run consecutive. *)
Lemma run_add_ok index run : is_u8 index → run_ok run → run_accepts index run = true →
  run_ok (run_add index run) ∧ length (run_add index run) = S (length run) ∧
  run_add index run ≡ₚ run ++ [index].
Proof.
  intros Hi (first&E&H0&H1) Ha.
  assert (Hp : run_add index run ≡ₚ run ++ [index]) by apply merge_sort_Permutation.
  assert (Hl : length (run_add index run) = S (length run)).
  { rewrite Hp, length_app. cbn [length]. lia. }
  split_and!; [|done|done]. destruct (length run) as [|n] eqn:Hn.
  { apply nil_length_inv in Hn as ->. exists index. split_and!; [done| |]; width_lia. }
  rewrite E in Ha. unfold run_accepts in Ha.
  rewrite last_seqZ in Ha. rewrite seqZ_cons in Ha by lia. cbn [default from_option id] in Ha.
  apply orb_true_iff in Ha as [Ha%bool_decide_eq_true|Ha%bool_decide_eq_true].
  - exists index. rewrite Hl. split_and!; [|width_lia|lia].
    apply run_add_eq; [apply Sorted_seqZ_nat|]. rewrite seqZ_cons by lia.
    rewrite E, Permutation_app_comm. cbn [app]. f_equiv. f_equiv; lia.
  - exists first. rewrite Hl. split_and!; [|lia|width_lia].
    apply run_add_eq; [apply Sorted_seqZ_nat|].
    rewrite (seqZ_S first (S n)), <- E. by rewrite <- Ha, Nat2Z.inj_succ, Z.add_succ_r.
Qed.

(** The invariant [assign_option] keeps: both runs are consecutive and each counter
    is the length of its run, at eight bits. *)
Definition runs_ok (e : entry_base) : Prop :=
  run_ok (options0_ e) ∧ run_ok (options1_ e) ∧
  num_options0_ e = u8 (Z.of_nat (length (options0_ e))) ∧
  num_options1_ e = u8 (Z.of_nat (length (options1_ e))).

Lemma runs_ok_new : runs_ok entry_base_new.
Proof. split_and!; (apply run_ok_nil || done). Qed.

Lemma u8_succ n : u8 (u8 (Z.of_nat n) + 1) = u8 (Z.of_nat (S n)).
Proof. unfold u8. rewrite Nat2Z.inj_succ, Z.add_mod_idemp_l by done. done. Qed.

(** ** Reading an entry *)

(** What the wire format can carry of an entry: two runs of at most fifteen
    consecutive indexes, a 24-bit time to live, and no reserved bits or counter. *)
Definition entry_base_wf (e : entry_base) : Prop :=
  is_u8 (e_type_ e) ∧ is_u16 (e_service_ e) ∧ is_u16 (e_instance_ e) ∧
  is_u8 (e_major_version_ e) ∧ 0 ≤ e_ttl_ e < 2 ^ 24 ∧
  runs_ok e ∧ (length (options0_ e) ≤ 15)%nat ∧ (length (options1_ e) ≤ 15)%nat ∧
  index1_ e = run_index (options0_ e) ∧ index2_ e = run_index (options1_ e).

Definition entry_wf (x : entry_impl) : Prop :=
  entry_base_wf (entry_common x) ∧
  match x with
  | ServiceEntry _ m => is_u32 m
  | EventgroupEntry _ g r c t u =>
      is_u16 g ∧ r = reserved_word ∧ c = 0 ∧ t = None ∧ u = None
  end.

(** The object [deserialize_entry] creates for the class of [x]. *)
Definition entry_new_like (x : entry_impl) : entry_impl :=
  match x with
  | ServiceEntry _ _ => serviceentry_new
  | EventgroupEntry _ _ _ _ _ _ => eventgroupentry_new
  end.

(** The count byte carries both lengths while they fit a nibble each. *)
Lemma number_of_options_nibbles e :
  (length (options0_ e) ≤ 15)%nat → (length (options1_ e) ≤ 15)%nat →
  u8 (Z.shiftr (number_of_options e) 4) = Z.of_nat (length (options0_ e)) ∧
  u8 (Z.land (number_of_options e) 0xF) = Z.of_nat (length (options1_ e)).
Proof.
  intros H0 H1. unfold number_of_options.
  rewrite land_0f, lor_shiftl_add by width_lia. split; bit_lia.
Qed.

Lemma parses_entry_base e : entry_base_wf e →
  parses (entry_base_deserialize entry_base_new) (entry_base_wire e)
    (true, entry_set_ttl 0 (entry_set_major_version 0 e)).
Proof.
  intros (Ht&Hs&Hi&_&_&(Hr0&Hr1&Hn0&Hn1)&Hl0&Hl1&Hi1&Hi2).
  destruct (number_of_options_nibbles e Hl0 Hl1) as [N0 N1].
  unfold entry_base_wire, entry_base_deserialize.
  do 4 (eapply parses_bind; [eauto with stream|]).
  eapply parses_bind; [eauto with stream|].
  eapply (parses_bind_nil _ _ _ (true, e_instance_ e)); [eauto with stream|].
  rewrite N0, N1. cbn [entry_base_new options0_ options1_ app e_major_version_ e_ttl_].
  rewrite (read_run_index (options0_ e)), (read_run_index (options1_ e)) by done.
  rewrite <- Hi1, <- Hi2, <- (u8_id (Z.of_nat (length (options0_ e)))),
    <- (u8_id (Z.of_nat (length (options1_ e)))), <- Hn0, <- Hn1 by width_lia.
  destruct e. apply parses_ret.
Qed.
#[export] Hint Resolve parses_entry_base : stream.

Lemma parses_entry x : entry_wf x →
  parses (entry_deserialize (entry_new_like x)) (entry_wire x) (true, x).
Proof.
  intros [He Hx]. assert (Hf := He). destruct Hf as (_&_&_&Hm&Httl&_).
  unfold entry_wire. destruct x as [e m|e g r c t u]; cbn [entry_common entry_new_like] in *.
  - eapply (parses_bind_nil _ _ _ (true, (e, m))); [|apply parses_ret].
    eapply parses_bind; [eauto with stream|]. cbv beta iota.
    do 2 (eapply parses_bind; [eauto with stream|]; cbv beta iota).
    eapply (parses_bind_nil _ _ _ (true, m)); [eauto with stream|]. destruct e. apply parses_ret.
  - destruct Hx as (Hg&->&->&->&->).
    eapply (parses_bind_nil _ _ _ (true, (e, g, reserved_word))); [|apply parses_ret].
    eapply parses_bind; [eauto with stream|]. cbv beta iota.
    do 2 (eapply parses_bind; [eauto with stream|]; cbv beta iota).
    eapply parses_bind; [apply parses_try, parses_u16; done|]. cbv beta iota.
    eapply (parses_bind_nil _ _ _ (true, g)); [eauto with stream|]. destruct e. apply parses_ret.
Qed.

(** A reported success has read the sixteen bytes of an entry. *)
Lemma reader_entry_base e : reader true 8 (entry_base_deserialize e).
Proof.
  unfold entry_base_deserialize.
  change 8 with (1 + (1 + (1 + (1 + (2 + (2 + 0)))))).
  repeat (apply reader_bind; [auto with stream|intros ? ?]). apply reader_ret.
Qed.

Lemma reader_entry x : reader true 16 (entry_deserialize x).
Proof.
  destruct x as [e m|e g r c t u]; cbn [entry_deserialize].
  - apply (reader_bind _ 16 0); [|intros ? []; apply reader_ret].
    unfold serviceentry_deserialize. change 16 with (8 + (1 + (3 + (4 + 0)))).
    apply reader_bind; [apply reader_entry_base|intros ? ?].
    apply reader_bind; [auto with stream|intros ? ?].
    apply reader_bind; [apply (reader_u32 _ _ true)|intros ? ?].
    apply reader_bind; [apply (reader_u32 _ _ false)|intros ? ?]. apply reader_ret.
  - apply (reader_bind _ 16 0); [|intros ? [[]]; apply reader_ret].
    unfold eventgroupentry_deserialize. change 16 with (8 + (1 + (3 + (2 + (2 + 0))))).
    apply reader_bind; [apply reader_entry_base|intros ? ?].
    apply reader_bind; [auto with stream|intros ? ?].
    apply reader_bind; [apply (reader_u32 _ _ true)|intros ? ?].
    do 2 (apply reader_bind; [auto with stream|intros ? ?]). apply reader_ret.
Qed.

(** ** Comparing endpoints *)

Definition is_endpoint (o : option_impl) : Prop :=
  option_get_type o = IP4_ENDPOINT ∨ option_get_type o = IP6_ENDPOINT.

Lemma endpoint_class c : opt_wf c → is_endpoint c →
  (∃ b ip a, c = Ipv4Option b ip a ∧ o_type_ b = IP4_ENDPOINT) ∨
  (∃ b ip a, c = Ipv6Option b ip a ∧ o_type_ b = IP6_ENDPOINT).
Proof.
  intros [_ Hc] Ec. unfold is_endpoint, option_get_type in Ec.
  destruct c; cbn [opt_base] in *; destruct Ec as [E|E]; try done;
    destruct Hc as [Hc _]; rewrite E in Hc; try (vm_compute in Hc; discriminate);
    try (left; by eauto); try (right; by eauto);
    repeat (apply elem_of_cons in Hc as [Hc|Hc]; [vm_compute in Hc; discriminate|]);
    by apply not_elem_of_nil in Hc.
Qed.

Lemma endpoint_matches_eq c o : opt_wf c → opt_wf o → is_endpoint c →
  endpoint_matches c o = Ret (bool_decide (c = o)).
Proof.
  intros Hc Ho Ec. unfold endpoint_matches.
  destruct (endpoint_class c Hc Ec) as [(b&ip&a&->&Hb)|(b&ip&a&->&Hb)].
  all: rewrite option_equals_wf by (done || left; done); rewrite outcome_bind_Ret;
    case_bool_decide as E; [subst o|done]; cbn [endpoint_address];
    rewrite bool_decide_true by done; rewrite !outcome_bind_Ret; by rewrite bool_decide_true.
Qed.

Lemma endpoint_found_elem c others : opt_wf c → is_endpoint c →
  Forall (λ o, opt_wf o ∧ is_endpoint o) others →
  endpoint_found c others = Ret (bool_decide (c ∈ others)).
Proof.
  intros Hc Ec Ho. induction Ho as [|o others [Ho Eo] _ IH]; cbn [endpoint_found].
  { by rewrite bool_decide_false by apply not_elem_of_nil. }
  rewrite endpoint_matches_eq, outcome_bind_Ret by done.
  destruct (decide (c = o)) as [->|E].
  - rewrite !bool_decide_true by (done || constructor). done.
  - rewrite (bool_decide_false (c = o)), IH by done. f_equal.
    apply bool_decide_ext. rewrite elem_of_cons. naive_solver.
Qed.

Lemma all_found_subseteq current others :
  Forall (λ o, opt_wf o ∧ is_endpoint o) current →
  Forall (λ o, opt_wf o ∧ is_endpoint o) others →
  all_found current others = Ret (bool_decide (Forall (.∈ others) current)).
Proof.
  intros Hc Ho. induction Hc as [|c current [Hc Ec] _ IH]; cbn [all_found].
  { by rewrite bool_decide_true by constructor. }
  rewrite endpoint_found_elem, outcome_bind_Ret by done.
  destruct (decide (c ∈ others)) as [E|E].
  - rewrite (bool_decide_true (c ∈ others)), IH by done. f_equal.
    apply bool_decide_ext. rewrite Forall_cons. naive_solver.
  - rewrite (bool_decide_false (c ∈ others)) by done.
    by rewrite bool_decide_false by (rewrite Forall_cons; naive_solver).
Qed.

Lemma ip_endpoints_wf options run : Forall opt_wf options →
  Forall (λ o, opt_wf o ∧ is_endpoint o) (ip_endpoints options run).
Proof.
  intros Hw. unfold ip_endpoints. apply Forall_forall. intros o Ho.
  apply list_elem_of_omap in Ho as (i&_&Hi).
  destruct (options !! Z.to_nat i) as [o'|] eqn:E; [|done]. cbn in Hi.
  destruct (_ || _) eqn:B in Hi; [|done]. injection Hi as ->.
  split; [by eapply Forall_lookup_1|].
  apply orb_true_iff in B. by rewrite !bool_decide_eq_true in B.
Qed.

(** One assignment: the index is added to the first run it extends and to no other,
    and is dropped when it extends neither. *)
Lemma assign_option_spec i e :
  runs_ok e →
  runs_ok (assign_option i e) ∧
  (is_u8 i → run_accepts i (options0_ e) = true →
   options0_ (assign_option i e) ≡ₚ options0_ e ++ [i] ∧
   options1_ (assign_option i e) = options1_ e) ∧
  (is_u8 i → run_accepts i (options0_ e) = false → run_accepts i (options1_ e) = true →
   options0_ (assign_option i e) = options0_ e ∧
   options1_ (assign_option i e) ≡ₚ options1_ e ++ [i]) ∧
  (¬ is_u8 i ∨ run_accepts i (options0_ e) = false ∧ run_accepts i (options1_ e) = false →
   assign_option i e = e).
Proof.
  intros Hok. assert (H := Hok). destruct H as (R0&R1&N0&N1). unfold assign_option.
  destruct (decide (is_u8 i)) as [Hi|Hi].
  2:{ assert (bool_decide (i > -1) && bool_decide (i < 256) = false) as ->.
      { unfold is_u8 in Hi. rewrite andb_false_iff, !bool_decide_eq_false. lia. }
      split_and!; done. }
  rewrite !bool_decide_true by (unfold is_u8 in Hi; lia). rewrite u8_id by done. cbn [andb].
  destruct (run_accepts i (options0_ e)) eqn:A0.
  - destruct (run_add_ok i _ Hi R0 A0) as (R&L&P).
    unfold runs_ok. cbn [options0_ options1_ num_options0_ num_options1_].
    rewrite L, N0, u8_succ. naive_solver.
  - destruct (run_accepts i (options1_ e)) eqn:A1; [|split_and!; done].
    destruct (run_add_ok i _ Hi R1 A1) as (R&L&P).
    unfold runs_ok. cbn [options0_ options1_ num_options0_ num_options1_].
    rewrite L, N1, u8_succ. naive_solver.
Qed.

Lemma run_ok_NoDup run : run_ok run → NoDup run.
Proof. intros (first&->&_). apply NoDup_seqZ. Qed.

(** An index in a run after the assignment was there before or is the assigned one. *)
Lemma assign_option_elem i e j : runs_ok e →
  j ∈ options0_ (assign_option i e) ++ options1_ (assign_option i e) →
  j ∈ options0_ e ++ options1_ e ∨ j = i ∧ is_u8 i.
Proof.
  intros Hok. destruct (assign_option_spec i e Hok) as (_&H1&H2&H3).
  destruct (decide (is_u8 i)) as [Hi|Hi]; [|rewrite H3 by auto; auto].
  destruct (run_accepts i (options0_ e)) eqn:A0.
  { destruct (H1 Hi eq_refl) as [P ->]. rewrite P. set_solver. }
  destruct (run_accepts i (options1_ e)) eqn:A1; [|rewrite H3 by auto; auto].
  destruct (H2 Hi eq_refl eq_refl) as [-> P]. rewrite P. set_solver.
Qed.

(** * Theorems *)

(** Assigning options keeps an entry serializable.  After any sequence of
    [assign_option] calls on a new entry both runs are consecutive, without
    duplicates, and counted by their counters; they hold only indexes that were
    assigned; a further index is added to the first run it extends and to no other,
    and is dropped silently when it extends neither run or when the option is not
    among the first 256 of the message. *)
Theorem assign_option_history idx i :
  let e := foldl (λ e i, assign_option i e) entry_base_new idx in
  let e' := assign_option i e in
  runs_ok e ∧ NoDup (options0_ e) ∧ NoDup (options1_ e) ∧
  (∀ j, j ∈ options0_ e ++ options1_ e → j ∈ idx ∧ is_u8 j) ∧
  ((is_u8 i ∧ run_accepts i (options0_ e) = true ∧
    options0_ e' ≡ₚ options0_ e ++ [i] ∧ options1_ e' = options1_ e) ∨
   (is_u8 i ∧ run_accepts i (options0_ e) = false ∧ run_accepts i (options1_ e) = true ∧
    options0_ e' = options0_ e ∧ options1_ e' ≡ₚ options1_ e ++ [i]) ∨
   ((¬ is_u8 i ∨ run_accepts i (options0_ e) = false ∧ run_accepts i (options1_ e) = false) ∧
    e' = e)).
Proof.
  intros e e'.
  assert (He : runs_ok e ∧ ∀ j, j ∈ options0_ e ++ options1_ e → j ∈ idx ∧ is_u8 j).
  { subst e e'. induction idx as [|k idx [IH1 IH2]] using rev_ind.
    { split; [apply runs_ok_new|]. intros j Hj. by apply not_elem_of_nil in Hj. }
    rewrite foldl_app. cbn [foldl]. split; [by apply assign_option_spec|]. intros j Hj.
    apply assign_option_elem in Hj as [Hj|[-> Hj]]; [|set_solver|done].
    destruct (IH2 j Hj). set_solver. }
  destruct He as [Hok Hin]. assert (Hok' := Hok). destruct Hok' as (R0&R1&_).
  split_and!; [done|by apply run_ok_NoDup|by apply run_ok_NoDup|done|].
  destruct (assign_option_spec i e Hok) as (_&H1&H2&H3).
  destruct (decide (is_u8 i)); [|right; right; auto].
  destruct (run_accepts i (options0_ e)) eqn:A0; [left; naive_solver|].
  destruct (run_accepts i (options1_ e)) eqn:A1; [right; left; naive_solver|].
  right; right; auto.
Qed.

(** An entry survives the wire.  A service or eventgroup entry whose option runs
    are consecutive and fit their four-bit counts is written as sixteen bytes and
    read back unchanged, whatever follows it; the reserved bits and the counter of
    an eventgroup entry are written as zero, whatever they hold. *)
Theorem entry_roundtrip x s d rest :
  entry_wf x → d_wf d → avail d = entry_wire x ++ rest →
  entry_serialize x s = Ret (true, ser_append (entry_wire x) s) ∧
  length (entry_wire x) = 16%nat ∧
  entry_deserialize (entry_new_like x) d = Ret ((true, x), skip 16 d) ∧
  (∀ e g r c t u, x = EventgroupEntry e g r c t u →
   ∀ r' c', entry_wire (EventgroupEntry e g r' c' t u) = entry_wire x).
Proof.
  intros Hx Hd Hav. split_and!.
  - apply writes_entry.
  - apply length_entry_wire.
  - rewrite (parses_entry x Hx d rest Hd Hav). by rewrite length_entry_wire.
  - by intros e g r c t u ->.
Qed.

Definition sample_eventgroup_entry : entry_impl :=
  EventgroupEntry (EntryBase SUBSCRIBE_EVENTGROUP 0x1234 0x5678 1 0xFFFFFF [2; 3] [7] 2 1 2 7)
    0x4465 0 0 None None.

Lemma entry_roundtrip_witness :
  let x := sample_eventgroup_entry in
  let d := deserializer_of (entry_wire x ++ [1; 2; 3]) 0 in
  entry_serialize x (serializer_new 0) = Ret (true, ser_append (entry_wire x) (serializer_new 0)) ∧
  entry_deserialize eventgroupentry_new d = Ret ((true, x), skip 16 d) ∧
  entry_wire x = [6; 2; 7; 0x21; 0x12; 0x34; 0x56; 0x78; 1; 0xFF; 0xFF; 0xFF; 0; 0; 0x44; 0x65].
Proof.
  destruct (entry_roundtrip sample_eventgroup_entry (serializer_new 0)
              (deserializer_of (entry_wire sample_eventgroup_entry ++ [1; 2; 3]) 0) [1; 2; 3])
    as (Hs&_&Hp&_).
  - split; [|split_and!; vm_compute; done].
    split_and!; try (vm_compute; done).
    split_and!; [by exists 2|by exists 7|done|done].
    cbn. lia. cbn. lia.
  - apply d_wf_of.
  - apply avail_of.
  - split_and!; [exact Hs|exact Hp|vm_compute; done].
Defined.

(** When two eventgroup entries of one message match.  On well-formed options
    the comparison returns, without a failing downcast, true exactly for entries of
    one eventgroup (service, instance, eventgroup, major version and counter) that
    either name the same option runs, or name the same positive number of options
    and every IP endpoint of the one is among the IP endpoints of the other. *)
Theorem eventgroupentry_matches_spec options e g r c t u e' g' r' c' t' u' :
  Forall opt_wf options →
  let endpoints x := ip_endpoints options (options0_ x) ++ ip_endpoints options (options1_ x) in
  let count x := num_options0_ x + num_options1_ x in
  eventgroupentry_matches options (EventgroupEntry e g r c t u)
    (EventgroupEntry e' g' r' c' t' u') =
  Ret (bool_decide (
    (e_service_ e, e_instance_ e, g, e_major_version_ e, c) =
    (e_service_ e', e_instance_ e', g', e_major_version_ e', c') ∧
    ((index1_ e, index2_ e, num_options0_ e, num_options1_ e) =
     (index1_ e', index2_ e', num_options0_ e', num_options1_ e') ∨
     (count e = count e' ∧ count e ≠ 0 ∧ endpoints e ≠ [] ∧ endpoints e' ≠ [] ∧
      Forall (.∈ endpoints e') (endpoints e))))).
Proof.
  intros Hw endpoints count. cbn [eventgroupentry_matches].
  assert (Hwf : ∀ x, Forall (λ o, opt_wf o ∧ is_endpoint o) (endpoints x)).
  { intros x. apply Forall_app. split; by apply ip_endpoints_wf. }
  fold (count e) (count e') (endpoints e) (endpoints e').
  rewrite (all_found_subseteq (endpoints e) (endpoints e')) by apply Hwf.
  rewrite <- !bool_decide_and, <- !bool_decide_or.
  set (K := _ = _ :> Z * Z * Z * Z * Z). set (R := _ = _ :> Z * Z * Z * Z).
  rewrite (bool_decide_ext (_ ∧ c = c') K) by (unfold K; intuition congruence).
  rewrite (bool_decide_ext (_ ∧ num_options1_ e = num_options1_ e') R)
    by (unfold R; intuition congruence).
  destruct (decide K) as [HK|HK];
    [rewrite (bool_decide_true K) by done|by rewrite !bool_decide_false by tauto].
  destruct (decide R) as [HR|HR];
    [by rewrite !bool_decide_true by tauto|rewrite (bool_decide_false R) by done].
  case_bool_decide as H1; [by rewrite bool_decide_false by tauto|].
  case_bool_decide as H2; [by rewrite bool_decide_false by tauto|].
  f_equal. apply bool_decide_ext. split; [|tauto]. intros Hall.
  split; [done|]. right. split_and!; [|tauto..].
  destruct (decide (count e = count e')); tauto.
Qed.

(** Two UDP endpoints, and two subscriptions that list them in a different order. *)
Definition sample_endpoint (port : Z) : option_impl :=
  ipv4_option_of [192; 168; 0; 1] false port false.
Definition sample_subscription (i1 i2 : Z) : entry_base :=
  EntryBase SUBSCRIBE_EVENTGROUP 0x1234 0x5678 1 3 [i1] [i2] 1 1 i1 i2.

Lemma eventgroupentry_matches_spec_witness :
  eventgroupentry_matches [sample_endpoint 30509; sample_endpoint 30510]
    (EventgroupEntry (sample_subscription 0 1) 1 0 0 None None)
    (EventgroupEntry (sample_subscription 1 0) 1 0 0 None None) = Ret true.
Proof.
  rewrite (eventgroupentry_matches_spec [sample_endpoint 30509; sample_endpoint 30510]
             (sample_subscription 0 1) 1 0 0 None None (sample_subscription 1 0) 1 0 0 None None).
  - vm_compute. done.
  - repeat constructor; try (vm_compute; done); vm_compute; set_solver.
Defined.
