(* ===== verification/SdMessage.v ===== *)
(** Service discovery messages: [service_discovery/src/message_impl.cpp] and the
    [deserialize_sd_message] of [service_discovery/src/deserializer.cpp].

    A message owns an array of entries and an array of options.  Options are shared
    objects: [get_option_index] compares pointers while [find_option] compares
    contents, and the options of a new entry are visited in the order of a
    [std::map] keyed by pointer.  So an option of a message is a pair of an address
    and the object there. *)
From S2P Require Import Prelude ByteOrder Streams Message SdOptions SdEntries.

(** * Constants *)

Definition VSOMEIP_MAX_UDP_SD_PAYLOAD : Z := 1380.
Definition VSOMEIP_SOMEIP_SD_DATA_SIZE : Z := 12.
Definition VSOMEIP_SOMEIP_SD_ENTRY_LENGTH_SIZE : Z := 4.
Definition VSOMEIP_SOMEIP_SD_ENTRY_SIZE : Z := 16.
Definition VSOMEIP_SOMEIP_SD_OPTION_LENGTH_SIZE : Z := 4.
Definition VSOMEIP_SOMEIP_SD_EMPTY_MESSAGE_SIZE : Z := 28.
Definition VSOMEIP_SD_SERVICE : Z := 0xFFFF.
Definition VSOMEIP_SD_INSTANCE : Z := 0x0000.
Definition VSOMEIP_SD_METHOD : Z := 0x8100.
Definition VSOMEIP_SD_CLIENT : Z := 0x0.
Definition VSOMEIP_REBOOT_FLAG : Z := 0x80.
Definition VSOMEIP_UNICAST_FLAG : Z := 0x40.

(** * The message *)

(** A [std::shared_ptr<option_impl>] that is not null: address and pointee. *)
Definition option_ptr : Type := Z * option_impl.

Record sd_message := SdMessage {
  sd_header_ : message_header;
  flags_ : Z;
  options_length_ : Z;
  entries_ : list entry_impl;
  options_ : list option_ptr;
  current_message_size_ : Z }.

Definition set_flags (v : Z) (m : sd_message) : sd_message :=
  SdMessage (sd_header_ m) v (options_length_ m) (entries_ m) (options_ m)
    (current_message_size_ m).

Definition get_reboot_flag (m : sd_message) : bool :=
  bool_decide (Z.land (flags_ m) VSOMEIP_REBOOT_FLAG ≠ 0).
Definition set_reboot_flag (is_set : bool) (m : sd_message) : sd_message :=
  if is_set then set_flags (Z.lor (flags_ m) VSOMEIP_REBOOT_FLAG) m
  else set_flags (Z.land (flags_ m) (u8 (Z.lnot VSOMEIP_REBOOT_FLAG))) m.

Definition get_unicast_flag (m : sd_message) : bool :=
  bool_decide (Z.land (flags_ m) VSOMEIP_UNICAST_FLAG ≠ 0).
Definition set_unicast_flag (is_set : bool) (m : sd_message) : sd_message :=
  if is_set then set_flags (Z.lor (flags_ m) VSOMEIP_UNICAST_FLAG) m
  else set_flags (Z.land (flags_ m) (u8 (Z.lnot VSOMEIP_UNICAST_FLAG))) m.

Definition sd_header_new : message_header :=
  Header VSOMEIP_SD_SERVICE VSOMEIP_SD_METHOD 0 VSOMEIP_SD_CLIENT 0 0x01 0x01
    MT_NOTIFICATION E_OK VSOMEIP_SD_INSTANCE.

Definition sd_message_new : sd_message :=
  set_unicast_flag true
    (SdMessage sd_header_new 0 0 [] [] VSOMEIP_SOMEIP_SD_EMPTY_MESSAGE_SIZE).

(** What an option adds to the length fields of the message. *)
Definition option_size (o : option_ptr) : Z :=
  u32 (option_get_length o.2 + VSOMEIP_SOMEIP_SD_OPTION_HEADER_SIZE).

Definition sd_get_length (m : sd_message) : Z :=
  let current_length := VSOMEIP_SOMEIP_SD_DATA_SIZE in
  let current_length :=
    if bool_decide (length (entries_ m) ≠ 0%nat) then
      u32 (u32 (current_length + VSOMEIP_SOMEIP_SD_ENTRY_LENGTH_SIZE) +
           u32 (Z.of_nat (length (entries_ m)) * VSOMEIP_SOMEIP_SD_ENTRY_SIZE))
    else current_length in
  let current_length := u32 (current_length + VSOMEIP_SOMEIP_SD_OPTION_LENGTH_SIZE) in
  foldl (λ n o, u32 (n + option_size o)) current_length (options_ m).

Definition sd_get_size (m : sd_message) : Z := current_message_size_ m.

Definition has_entry (m : sd_message) : bool := bool_decide (0 < length (entries_ m))%nat.
Definition has_option (m : sd_message) : bool := bool_decide (0 < length (options_ m))%nat.

(** The first option of the message with the contents of [o]. *)
Fixpoint find_option (o : option_ptr) (options : list option_ptr) : outcome (option option_ptr) :=
  match options with
  | [] => Ret None
  | p :: options =>
      eq ← option_equals p.2 o.2;
      if (eq : bool) then Ret (Some p) else find_option o options
  end.

(** The position of the pointer [o], in a loop over [int16_t(options_.size())]. *)
Definition i16 (z : Z) : Z := (z + 2 ^ 15) mod 2 ^ 16 - 2 ^ 15.
Definition get_option_index (o : option_ptr) (options : list option_ptr) : Z :=
  match list_find (λ p : option_ptr, p.1 = o.1)
          (take (Z.to_nat (i16 (Z.of_nat (length options)))) options) with
  | Some (i, _) => Z.of_nat i
  | None => -1
  end.

Definition get_option (index : Z) (m : sd_message) : option option_ptr :=
  if bool_decide (index > -1) then options_ m !! Z.to_nat index else None.

(** ** Adding entries *)

(** [its_options[p] = b] in a map ordered by address. *)
Fixpoint options_insert (p : option_ptr) (b : bool) (its_options : list (option_ptr * bool)) :
    list (option_ptr * bool) :=
  match its_options with
  | [] => [(p, b)]
  | (q, c) :: l =>
      if bool_decide (p.1 < q.1) then (p, b) :: (q, c) :: l
      else if bool_decide (p.1 = q.1) then (q, b) :: l
      else (q, c) :: options_insert p b l
  end.

(** The loop that sorts the options of the entry into known and new ones and sums
    up the size the new ones take. *)
Fixpoint collect_options (opts : list option_ptr) (present : list option_ptr)
    (its_entry_size : Z) (its_options : list (option_ptr * bool)) :
    outcome (Z * list (option_ptr * bool)) :=
  match opts with
  | [] => Ret (its_entry_size, its_options)
  | o :: opts =>
      its_existing_option ← find_option o present;
      match its_existing_option with
      | None =>
          collect_options opts present (u32 (its_entry_size + option_get_size o.2))
            (options_insert o true its_options)
      | Some p => collect_options opts present its_entry_size (options_insert p false its_options)
      end
  end.

(** The loop over the map: a new option is appended to the message, and every
    option is assigned to the entry by its index at that moment. *)
Fixpoint assign_options (its_options : list (option_ptr * bool)) (options : list option_ptr)
    (e : entry_base) : list option_ptr * entry_base :=
  match its_options with
  | [] => (options, e)
  | (o, is_new) :: l =>
      let options := if (is_new : bool) then options ++ [o] else options in
      assign_options l options (assign_option (get_option_index o options) e)
  end.

Definition assign_known (its_options : list (option_ptr * bool)) (options : list option_ptr)
    (e : entry_base) : entry_base :=
  foldl (λ e ob, assign_option (get_option_index ob.1 options) e) e its_options.

(** [_entry] and [_other] are distinct objects that belong to no other message. *)
Definition add_entry_data (entry : entry_impl) (opts : list option_ptr)
    (other : option entry_impl) (m : sd_message) : outcome (bool * sd_message) :=
  let its_entry_size := VSOMEIP_SOMEIP_SD_ENTRY_SIZE in
  let its_entry_size :=
    match other with
    | Some _ => its_entry_size + VSOMEIP_SOMEIP_SD_ENTRY_SIZE
    | None => its_entry_size
    end in
  '(its_entry_size, its_options) ← collect_options opts (options_ m) its_entry_size [];
  if bool_decide (u32 (current_message_size_ m + its_entry_size) > VSOMEIP_MAX_UDP_SD_PAYLOAD)
  then Ret (false, m)
  else
    let '(options, e) := assign_options its_options (options_ m) (entry_common entry) in
    let entries := entries_ m ++ [with_common (λ _, e) entry] in
    let entries :=
      match other with
      | Some x => entries ++ [with_common (assign_known its_options options) x]
      | None => entries
      end in
    Ret (true, SdMessage (sd_header_ m) (flags_ m) (options_length_ m) entries options
                 (u32 (current_message_size_ m + its_entry_size))).

(** ** The options of an entry *)

Definition is_selective (o : option_ptr) : bool :=
  match o.2 with SelectiveOption _ _ => true | _ => false end.

(** The first selective option among the options the entry refers to. *)
Definition get_selective_option (e : entry_base) (m : sd_message) : option option_ptr :=
  head (omap (λ i, o ← get_option i m; if is_selective o then Some o else None)
          (options0_ e ++ options1_ e)).

(** ** Serialization *)

Fixpoint serialize_entries (l : list entry_impl) : ST serializer bool :=
  match l with
  | [] => mret true
  | x :: l => entry_serialize x <&&> serialize_entries l
  end.
Fixpoint serialize_options (l : list option_ptr) : ST serializer bool :=
  match l with
  | [] => mret true
  | o :: l => option_serialize o.2 <&&> serialize_options l
  end.

Definition options_length_of (l : list option_ptr) : Z :=
  foldl (λ n o, u32 (n + option_size o)) 0 l.

Definition sd_serialize (m : sd_message) : ST serializer bool :=
  message_header_serialize (sd_get_length m) (sd_header_ m)
  <&&> serialize_u8 (flags_ m)
  <&&> serialize_u32 0 true
  <&&> serialize_u32 (u32 (Z.of_nat (length (entries_ m)) * VSOMEIP_SOMEIP_SD_ENTRY_SIZE)) false
  <&&> serialize_entries (entries_ m)
  <&&> serialize_u32 (options_length_of (options_ m)) false
  <&&> serialize_options (options_ m).

(** ** Deserialization *)

Definition entry_new_of_type (t : Z) : option entry_impl :=
  if bool_decide (t ∈ [FIND_SERVICE; OFFER_SERVICE; REQUEST_SERVICE]) then Some serviceentry_new
  else if bool_decide (t ∈ [FIND_EVENT_GROUP; PUBLISH_EVENTGROUP; SUBSCRIBE_EVENTGROUP;
                            SUBSCRIBE_EVENTGROUP_ACK]) then Some eventgroupentry_new
  else None.

(** [None] is the null pointer. *)
Definition deserialize_entry : ST deserializer (option entry_impl) :=
  d ← st_get;
  tmp_entry_type ← st_lift (look_ahead_u8 0 d);
  match tmp_entry_type ≫= entry_new_of_type with
  | Some x => '(ok, x) ← entry_deserialize x; mret (if (ok : bool) then Some x else None)
  | None => mret None
  end.

Section deserialize.
  (** What an uninitialised 16-bit local of [selective_option_impl] holds, and the
      address of the [n]-th option of the message. *)
  Context (uninit : Z) (addr : nat → Z).

Definition deserialize_option : ST deserializer (option option_impl) :=
  d ← st_get;
  tmp_option_type ← st_lift (look_ahead_u8 2 d);
  match tmp_option_type with
  | Some t =>
      '(ok, o) ← option_deserialize uninit (option_new_of_type t);
      mret (if (ok : bool) then Some o else None)
  | None => mret None
  end.

(** [while (is_successful && _from->get_remaining())]: an entry takes sixteen bytes
    and an option four, so one more than the readable bytes bounds the rounds. *)
Fixpoint entries_loop (fuel : nat) (is_successful : bool) (entries : list entry_impl) :
    ST deserializer (bool * list entry_impl) :=
  match fuel with
  | O => λ _, NoFuel
  | S fuel =>
      d ← st_get;
      if is_successful && bool_decide (get_remaining d ≠ 0) then
        its_entry ← deserialize_entry;
        match its_entry with
        | Some x => entries_loop fuel is_successful (entries ++ [x])
        | None => entries_loop fuel false entries
        end
      else mret (is_successful, entries)
  end.

Fixpoint options_loop (fuel : nat) (is_successful : bool) (options : list option_ptr) :
    ST deserializer (list option_ptr) :=
  match fuel with
  | O => λ _, NoFuel
  | S fuel =>
      d ← st_get;
      if is_successful && bool_decide (get_remaining d ≠ 0) then
        its_option ← deserialize_option;
        match its_option with
        | Some o => options_loop fuel is_successful (options ++ [(addr (length options), o)])
        | None => options_loop fuel false options
        end
      else mret options
  end.

(** Enough rounds for the loops over the current readable bytes. *)
Definition rounds (d : deserializer) : nat := S (S (Z.to_nat (get_remaining d))).

Definition sd_deserialize (m : sd_message) : ST deserializer (bool * sd_message) :=
  '(ok, header) ← message_header_deserialize (sd_header_ m);
  '(ok, flags) ← st_try ok (flags_ m) deserialize_u8;
  '(ok, _) ← st_try ok 0 (deserialize_u32 true);
  '(ok, entries_length) ← st_try ok 0 (deserialize_u32 false);
  d ← st_get;
  let save_remaining := u32 (get_remaining d) in
  let failed := SdMessage header flags (options_length_ m) (entries_ m) (options_ m)
                  (current_message_size_ m) in
  if negb ok then mret (ok, failed)
  else if bool_decide (entries_length > save_remaining) then mret (false, failed)
  else
    _ ← st_modify (set_remaining entries_length);
    d ← st_get;
    '(ok, entries) ← entries_loop (rounds d) ok (entries_ m);
    _ ← st_modify (set_remaining (save_remaining - entries_length));
    d ← st_get;
    if bool_decide (get_remaining d = 0) then
      mret (ok, SdMessage header flags (options_length_ m) entries (options_ m)
                  (current_message_size_ m))
    else
      '(ok, options_length) ← st_try ok (options_length_ m) (deserialize_u32 false);
      _ ← st_modify (λ d, if bool_decide (get_remaining d > options_length)
                          then set_remaining options_length d else d);
      d ← st_get;
      options ← options_loop (rounds d) true (options_ m);
      mret (ok, SdMessage header flags options_length entries options 0).

Definition deserialize_sd_message : ST deserializer (option sd_message) :=
  '(ok, m) ← sd_deserialize sd_message_new;
  mret (if (ok : bool) then Some m else None).

End deserialize.

(** * The wire format of a message *)

Definition entries_wire (l : list entry_impl) : list Z := mjoin (entry_wire <$> l).
Definition options_wire (l : list option_ptr) : list Z := mjoin (opt_wire ∘ snd <$> l).

Definition sd_wire (m : sd_message) : list Z :=
  header_wire (sd_get_length m) (sd_header_ m) ++ [flags_ m] ++ be24 0 ++
  be32 (u32 (Z.of_nat (length (entries_ m)) * VSOMEIP_SOMEIP_SD_ENTRY_SIZE)) ++
  entries_wire (entries_ m) ++
  be32 (options_length_of (options_ m)) ++
  options_wire (options_ m).

Lemma length_entries_wire l : Z.of_nat (length (entries_wire l)) = 16 * Z.of_nat (length l).
Proof.
  induction l as [|x l IH]; [done|]. unfold entries_wire in *.
  rewrite fmap_cons, join_cons, length_app, length_entry_wire. cbn [length]. lia.
Qed.

Lemma writes_entries l : writes (serialize_entries l) (entries_wire l).
Proof.
  induction l; cbn [serialize_entries]; [apply writes_true|].
  apply writes_andb; [apply writes_entry|done].
Qed.
Lemma writes_options l : writes (serialize_options l) (options_wire l).
Proof.
  induction l; cbn [serialize_options]; [apply writes_true|].
  apply writes_andb; [apply writes_option|done].
Qed.
#[export] Hint Resolve writes_entries writes_options : stream.

Lemma writes_sd_message m : writes (sd_serialize m) (sd_wire m).
Proof. unfold sd_serialize, sd_wire. auto 12 with stream. Qed.

(** ** Lengths *)

Definition options_total (l : list option_ptr) : Z :=
  Z.of_nat (sum_list_with (λ o : option_ptr, length (opt_wire o.2)) l).

(** An option whose length field is right adds its wire size to the sums. *)
Lemma option_size_wire o : opt_wf o.2 → opt_length_ok o.2 →
  option_size o = Z.of_nat (length (opt_wire o.2)).
Proof.
  intros [Hl _] Ho. unfold option_size, VSOMEIP_SOMEIP_SD_OPTION_HEADER_SIZE.
  rewrite length_opt_wire by done. width_lia.
Qed.

Lemma foldl_option_size l : ∀ n, Forall (λ o : option_ptr, opt_wf o.2 ∧ opt_length_ok o.2) l →
  0 ≤ n → n + options_total l < 2 ^ 32 →
  foldl (λ n o, u32 (n + option_size o)) n l = n + options_total l.
Proof.
  unfold options_total.
  induction l as [|o l IH]; intros n Hl Hn Hmax; cbn [foldl sum_list_with] in *; [lia|].
  apply Forall_cons in Hl as [[Ho Hlen] Hl].
  rewrite option_size_wire by done. rewrite IH; [|done|width_lia|].
  - rewrite u32_id by width_lia. lia.
  - rewrite u32_id by width_lia. lia.
Qed.

Lemma length_options_wire l : Z.of_nat (length (options_wire l)) = options_total l.
Proof.
  unfold options_total, options_wire. f_equal. induction l as [|o l IH]; [done|].
  rewrite fmap_cons, join_cons, length_app, IH. done.
Qed.

Lemma length_sd_wire m : Z.of_nat (length (sd_wire m)) =
  28 + 16 * Z.of_nat (length (entries_ m)) + options_total (options_ m).
Proof.
  unfold sd_wire. rewrite !length_app, length_header_wire.
  rewrite !Nat2Z.inj_add, length_entries_wire, length_options_wire. cbn [length be24 be32]. lia.
Qed.

(** ** Reading the arrays *)

(** The class of the object agrees with its type byte. *)
Definition entry_typed (x : entry_impl) : Prop :=
  entry_new_of_type (e_type_ (entry_common x)) = Some (entry_new_like x).

Lemma deserialize_entry_parses x : entry_wf x → entry_typed x →
  parses deserialize_entry (entry_wire x) (Some x).
Proof.
  intros Hx Ht d rest Hd Hav. unfold deserialize_entry.
  rewrite (st_bind_Ret _ _ _ d d) by done.
  assert (Hr := avail_app_remaining _ _ _ Hd Hav). rewrite length_entry_wire in Hr.
  destruct (look_ahead_u8_window 0 d Hd) as (b&Hla&Hb); [lia|].
  rewrite Hav in Hb. change (Some (e_type_ (entry_common x)) = Some b) in Hb.
  injection Hb as <-. rewrite (st_bind_Ret _ _ _ (Some (e_type_ (entry_common x))) d)
    by (unfold st_lift; by rewrite Hla).
  cbn [mbind option_bind]. rewrite Ht.
  by rewrite (st_bind_Ret _ _ _ _ _ (parses_entry x Hx d rest Hd Hav)).
Qed.

Lemma entries_loop_parses l : ∀ fuel acc d, (length l < fuel)%nat →
  Forall (λ x, entry_wf x ∧ entry_typed x) l → d_wf d → avail d = entries_wire l →
  entries_loop fuel true acc d =
    Ret ((true, acc ++ l), skip (Z.of_nat (length (entries_wire l))) d).
Proof.
  induction l as [|x l IH]; intros fuel acc d Hf Hl Hd Hav;
    (destruct fuel as [|fuel]; [cbn in Hf; lia|]); cbn [entries_loop];
    rewrite (st_bind_Ret _ _ _ d d) by done; unfold get_remaining;
    rewrite <- (length_avail d Hd), Hav.
  - cbn. by rewrite app_nil_r, skip_0.
  - apply Forall_cons in Hl as [[Hx Ht] Hl]. unfold entries_wire in *.
    rewrite fmap_cons, join_cons in Hav |- *.
    rewrite bool_decide_true by (rewrite length_app, length_entry_wire; lia). cbn [andb].
    rewrite (st_bind_Ret _ _ _ _ _ (deserialize_entry_parses x Hx Ht d _ Hd Hav)).
    rewrite IH; [|cbn in Hf; lia|done| |by apply avail_skip_app].
    + by rewrite skip_skip, <- (assoc_L (++)), length_app, Nat2Z.inj_add.
    + apply d_wf_skip; [done|]. split; [lia|]. by eapply avail_app_remaining.
Qed.

Section read_options.
  Context (uninit : Z) (addr : nat → Z).

Lemma deserialize_option_parses o : opt_wf o →
  parses (deserialize_option uninit) (opt_wire o) (Some o).
Proof.
  intros Ho d rest Hd Hav. unfold deserialize_option.
  rewrite (st_bind_Ret _ _ _ d d) by done.
  assert (Hr := avail_app_remaining _ _ _ Hd Hav).
  assert (H4 : (4 ≤ length (opt_wire o))%nat).
  { unfold opt_wire. rewrite length_app. cbn [length base_wire be16 app]. lia. }
  destruct (look_ahead_u8_window 2 d Hd) as (b&Hla&Hb); [lia|].
  rewrite Hav in Hb. change (Some (option_get_type o) = Some b) in Hb.
  injection Hb as <-. rewrite (st_bind_Ret _ _ _ (Some (option_get_type o)) d)
    by (unfold st_lift; by rewrite Hla).
  by rewrite (st_bind_Ret _ _ _ _ _ (parses_option uninit o Ho d rest Hd Hav)).
Qed.

(** The objects of a received array, at the addresses they were allocated. *)
Definition place (n : nat) (l : list option_ptr) : list option_ptr :=
  imap (λ i o, (addr (n + i), o.2)) l.

(** The options are appended one by one; what remains is left to the further
    rounds. *)
Lemma options_loop_step (l : list option_ptr) : ∀ fuel acc d rest,
  Forall (λ o, opt_wf o.2) l → d_wf d → avail d = options_wire l ++ rest →
  options_loop uninit addr (length l + fuel) true acc d =
  options_loop uninit addr fuel true (acc ++ place (length acc) l)
    (skip (Z.of_nat (length (options_wire l))) d).
Proof.
  induction l as [|o l IH]; intros fuel acc d rest Hl Hd Hav.
  { unfold place. cbn. by rewrite app_nil_r, skip_0. }
  apply Forall_cons in Hl as [Ho Hl]. unfold options_wire in *.
  rewrite fmap_cons, join_cons in Hav |- *. rewrite <- (assoc_L (++)) in Hav.
  assert (H4 : (4 ≤ length (opt_wire o.2))%nat).
  { unfold opt_wire. rewrite length_app. cbn [length base_wire be16 app]. lia. }
  assert (Hr := avail_app_remaining _ _ _ Hd Hav). cbn [compose] in *.
  cbn [length Nat.add options_loop].
  rewrite (st_bind_Ret _ _ _ d d) by done. unfold get_remaining.
  rewrite bool_decide_true by lia. cbn [andb].
  rewrite (st_bind_Ret _ _ _ _ _ (deserialize_option_parses o.2 Ho d _ Hd Hav)).
  erewrite IH; [|done| |by apply avail_skip_app].
  - rewrite skip_skip, <- (assoc_L (++)), !length_app, Nat2Z.inj_add. f_equal.
    f_equal. unfold place. cbn [app length imap]. f_equal.
    + f_equal. f_equal. lia.
    + apply imap_ext. intros i p _. cbn. f_equal. f_equal. lia.
  - apply d_wf_skip; [done|]. lia.
Qed.

End read_options.

(** ** Reading a message *)

Lemma d_wf_set_remaining r d : d_wf d → 0 ≤ r ≤ remaining_ d → d_wf (set_remaining r d).
Proof. intros Hd Hr. eapply advanced_wf; [exact Hd|]. by apply advanced_set_remaining. Qed.

Lemma avail_set_remaining r d : 0 ≤ r ≤ remaining_ d →
  avail (set_remaining r d) = take (Z.to_nat r) (avail d).
Proof.
  intros Hr. unfold avail, set_remaining. cbn. rewrite take_take. f_equal. lia.
Qed.

Lemma skip_set_remaining n r r' d :
  set_remaining r' (skip n (set_remaining r d)) = set_remaining r' (skip n d).
Proof. done. Qed.

(** A bind whose first step parses a prefix of what is readable. *)
Lemma run_parses {A B} (m : ST deserializer A) (k : A → ST deserializer B) bs a d rest r :
  parses m bs a → d_wf d → avail d = bs ++ rest →
  (∀ d', d' = skip (Z.of_nat (length bs)) d → d_wf d' → avail d' = rest → k a d' = r) →
  (m ≫= k) d = r.
Proof.
  intros Hm Hd Hav Hk. rewrite (st_bind_Ret _ _ _ _ _ (Hm d rest Hd Hav)).
  apply Hk; [done| |by apply avail_skip_app].
  apply d_wf_skip; [done|]. split; [lia|]. by eapply avail_app_remaining.
Qed.

(** The message up to its options, and the options as a window of their own. *)
Definition sd_head_wire (m : sd_message) (options_length : Z) : list Z :=
  header_wire (sd_get_length m) (sd_header_ m) ++ [flags_ m] ++ be24 0 ++
  be32 (u32 (Z.of_nat (length (entries_ m)) * VSOMEIP_SOMEIP_SD_ENTRY_SIZE)) ++
  entries_wire (entries_ m) ++ be32 options_length.

Lemma sd_wire_split m :
  sd_wire m = sd_head_wire m (options_length_of (options_ m)) ++ options_wire (options_ m).
Proof. unfold sd_wire, sd_head_wire. by rewrite <- !(assoc_L (++)). Qed.

Definition sd_wf (m : sd_message) : Prop :=
  header_wf (sd_header_ m) ∧ is_u8 (flags_ m) ∧
  Forall (λ x, entry_wf x ∧ entry_typed x) (entries_ m) ∧
  Forall (λ o, opt_wf o.2 ∧ opt_length_ok o.2) (options_ m) ∧
  28 + 16 * Z.of_nat (length (entries_ m)) + options_total (options_ m) < 2 ^ 32.

Lemma options_total_nonneg l : 0 ≤ options_total l.
Proof. unfold options_total. lia. Qed.

Lemma foldl_u32 l : ∀ n, is_u32 n → is_u32 (foldl (λ n o, u32 (n + option_size o)) n l).
Proof. induction l; intros n Hn; cbn [foldl]; [done|]. apply IHl. auto with widths. Qed.
Lemma is_u32_options_length l : is_u32 (options_length_of l).
Proof. by apply foldl_u32. Qed.
Lemma is_u32_sd_length m : is_u32 (sd_get_length m).
Proof. unfold sd_get_length. apply foldl_u32. auto with widths. Qed.

(** The bytes behind a head, cut at the options length. *)
Lemma sd_window bs len d orest : 0 ≤ len → d_wf d → avail d = bs ++ orest →
  let d' := set_remaining (Z.min (Z.of_nat (length orest)) len)
              (skip (Z.of_nat (length bs)) d) in
  d_wf d' ∧ avail d' = take (Z.to_nat len) orest.
Proof.
  intros Hlen Hd Hav. set (k := skip _ d). intros d'.
  assert (d_wf k ∧ avail k = orest) as [Hk Hka].
  { split; [|by apply avail_skip_app]. apply d_wf_skip; [done|].
    split; [lia|]. by eapply avail_app_remaining. }
  assert (Hkr := length_avail k Hk). rewrite Hka in Hkr.
  split; [apply d_wf_set_remaining; [done|lia]|].
  unfold d'. rewrite avail_set_remaining, Hka by lia.
  destruct (decide (Z.of_nat (length orest) ≤ len)).
  - rewrite Z.min_l by done. rewrite !take_ge; [done|lia|lia].
  - by rewrite Z.min_r by lia.
Qed.

Section read_message.
  Context (uninit : Z) (addr : nat → Z).

(** After a well-formed head, the options loop runs on the bytes the options length
    admits. *)
Lemma sd_deserialize_head m options_length d orest :
  sd_wf m → is_u32 options_length → d_wf d → remaining_ d < 2 ^ 32 →
  avail d = sd_head_wire m options_length ++ orest →
  let n := Z.of_nat (length orest) in
  let d' := set_remaining (Z.min n options_length)
              (skip (Z.of_nat (length (sd_head_wire m options_length))) d) in
  sd_deserialize uninit addr sd_message_new d =
  (options ← options_loop uninit addr (rounds d') true [];
   mret (true, SdMessage (header_received (sd_get_length m) (sd_header_ m) sd_header_new)
                 (flags_ m) options_length (entries_ m) options 0)) d' ∧
  d_wf d' ∧ avail d' = take (Z.to_nat options_length) orest.
Proof.
  intros (Hh&Hf&He&Ho&Hsz) Hol Hd Hmax Hav n d'.
  assert (Hon := options_total_nonneg (options_ m)).
  assert (He16 : is_u32 (Z.of_nat (length (entries_ m)) * VSOMEIP_SOMEIP_SD_ENTRY_SIZE)).
  { unfold VSOMEIP_SOMEIP_SD_ENTRY_SIZE. width_lia. }
  split; [|apply sd_window; [width_lia|done|done]]. unfold sd_head_wire in Hav. rewrite <- !(assoc_L (++)) in Hav.
  unfold sd_deserialize.
  eapply run_parses;
    [apply (parses_header (sd_get_length m) _ _ Hh (is_u32_sd_length m))|done|exact Hav|].
  intros d1 E1 Hd1 Hav1. cbv beta iota.
  eapply run_parses; [apply parses_try, parses_u8|done|exact Hav1|].
  intros d2 E2 Hd2 Hav2. cbv beta iota.
  eapply (run_parses _ _ (be24 0)); [apply parses_try, parses_u24; done|done|exact Hav2|].
  intros d3 E3 Hd3 Hav3. cbv beta iota.
  eapply run_parses; [apply parses_try, parses_u32, is_u32_u32|done|exact Hav3|].
  intros d4 E4 Hd4 Hav4. cbv beta iota. rewrite E3, E2, E1, !skip_skip in E4. clear E1 E2 E3.
  rewrite (st_bind_Ret _ _ _ d4 d4) by done. cbn [negb].
  rewrite (u32_id _ He16). change (get_remaining d4) with (remaining_ d4).
  assert (Hr4 := length_avail d4 Hd4). rewrite Hav4, !length_app in Hr4.
  rewrite !Nat2Z.inj_add, length_entries_wire in Hr4. fold n in Hr4.
  change (Z.of_nat (length (be32 options_length))) with 4 in Hr4.
  set (el := Z.of_nat (length (entries_ m)) * VSOMEIP_SOMEIP_SD_ENTRY_SIZE) in *.
  assert (Hel : el = Z.of_nat (length (entries_wire (entries_ m)))).
  { rewrite length_entries_wire. subst el. unfold VSOMEIP_SOMEIP_SD_ENTRY_SIZE. lia. }
  assert (Hel' : el = 16 * Z.of_nat (length (entries_ m))) by (rewrite Hel; apply length_entries_wire).
  change (d4 = skip 24 d) in E4.
  assert (Hlt : remaining_ d4 < 2 ^ 32) by (rewrite E4; cbn [skip remaining_]; width_lia).
  rewrite !(u32_id (remaining_ d4)) by width_lia. rewrite bool_decide_false by lia.
  set (w := set_remaining el d4).
  rewrite (st_bind_Ret _ _ _ () w) by done. rewrite (st_bind_Ret _ _ _ w w) by done.
  assert (Hw : avail w = entries_wire (entries_ m)).
  { unfold w. rewrite avail_set_remaining, Hav4, Hel, Nat2Z.id by lia. apply take_app_length. }
  erewrite st_bind_Ret.
  2:{ apply (entries_loop_parses (entries_ m) _ []); [|done| |exact Hw].
      - unfold rounds, get_remaining, w. cbn [set_remaining remaining_]. lia.
      - apply d_wf_set_remaining; [done|lia]. }
  cbv beta iota. rewrite <- Hel.
  set (d5 := skip el d4).
  rewrite (st_bind_Ret _ _ _ () d5) by done. rewrite (st_bind_Ret _ _ _ d5 d5) by done.
  assert (Hd5 : d_wf d5) by (apply d_wf_skip; [done|lia]).
  assert (Hav5 : avail d5 = be32 options_length ++ orest).
  { unfold d5. rewrite Hel. by apply avail_skip_app. }
  rewrite bool_decide_false by (unfold get_remaining, d5; cbn [skip remaining_]; lia).
  eapply run_parses; [apply parses_try, (parses_u32 _ Hol)|done|exact Hav5|].
  intros d6 E6 Hd6 Hav6. cbv beta iota.
  assert (Hr6 := length_avail d6 Hd6). rewrite Hav6 in Hr6. fold n in Hr6.
  assert (Hlen : Z.of_nat (length (sd_head_wire m options_length)) = 24 + (el + 4)).
  { unfold sd_head_wire. rewrite !length_app, !Nat2Z.inj_add, <- Hel.
    cbn [length be24 be32 header_wire be16 app]. lia. }
  assert (E6' : d6 = skip (24 + (el + 4)) d).
  { rewrite E6. unfold d5. rewrite E4, !skip_skip.
    by change (Z.of_nat (length (be32 options_length))) with 4. }
  assert (Hd' : (if bool_decide (get_remaining d6 > options_length)
                 then set_remaining options_length d6 else d6) = d').
  { unfold d'. rewrite Hlen, <- E6'. unfold get_remaining. case_bool_decide.
    - by rewrite Z.min_r by lia.
    - rewrite Z.min_l, Hr6 by lia. by destruct d6. }
  rewrite (st_bind_Ret _ _ _ () d') by (unfold st_modify; by rewrite Hd').
  by rewrite (st_bind_Ret _ _ _ d' d') by done.
Qed.

(** What the receiver of [m] holds. *)
Definition sd_received (m : sd_message) : sd_message :=
  SdMessage (header_received (sd_get_length m) (sd_header_ m) sd_header_new) (flags_ m)
    (options_length_of (options_ m)) (entries_ m) (place addr 0 (options_ m)) 0.

Lemma options_wire_count (l : list option_ptr) : (length l ≤ length (options_wire l))%nat.
Proof.
  unfold options_wire. induction l as [|o l IH]; [done|].
  rewrite fmap_cons, join_cons, length_app. cbn [compose length].
  assert (length (opt_wire o.2) ≠ 0%nat); [|lia].
  unfold opt_wire, base_wire. rewrite length_app. cbn. lia.
Qed.

(** The loop over a window that starts with the options of [l]: they are read, and
    at least one round is left. *)
Lemma options_loop_window (l : list option_ptr) d rest :
  Forall (λ o, opt_wf o.2) l → d_wf d → avail d = options_wire l ++ rest →
  ∃ fuel, options_loop uninit addr (rounds d) true [] d =
    options_loop uninit addr (S fuel) true (place addr 0 l)
      (skip (Z.of_nat (length (options_wire l))) d).
Proof.
  intros Hl Hd Hav. exists (rounds d - length l - 1)%nat.
  assert (Hr := avail_app_remaining _ _ _ Hd Hav). assert (Hc := options_wire_count l).
  rewrite <- (options_loop_step uninit addr l (S _) [] d rest) by done.
  f_equal. unfold rounds, get_remaining. lia.
Qed.

Lemma options_length_total m : sd_wf m →
  options_length_of (options_ m) = options_total (options_ m).
Proof.
  intros (_&_&_&Ho&Hsz). apply foldl_option_size; [done|done|]. lia.
Qed.

End read_message.

(** * Reading arbitrary bytes *)

(** Two bytes of the buffer lie behind the window, where the look-ahead for the option type
    may read.  A received datagram is the whole buffer and has no such bytes. *)
Definition slack (d : deserializer) : Prop :=
  position_ d + remaining_ d + 2 ≤ Z.of_nat (length (data_ d)).

Lemma slack_advanced d d' : slack d → advanced d d' → slack d'.
Proof. unfold slack. intros Hs (->&?&?&?). lia. Qed.

(** A call returns, within the window, and [Some] has consumed at least [n] bytes. *)
Definition bounded_read {A} (n : Z) (m : ST deserializer (option A)) (d : deserializer) : Prop :=
  ∃ r d', m d = Ret (r, d') ∧ advanced d d' ∧ (is_Some r → remaining_ d' + n ≤ remaining_ d).

Lemma bounded_of_reader {A} n (m : ST deserializer (bool * A)) d :
  reader true n m → d_wf d →
  bounded_read n ('(ok, x) ← m; mret (if (ok : bool) then Some x else None)) d.
Proof.
  intros Hm Hd. destruct (Hm d Hd) as (ok&x&d'&E&Ha&Hc). unfold bounded_read.
  rewrite (st_bind_Ret _ _ _ _ _ E). eexists _, _. split_and!; [done|done|].
  destruct ok; [|by intros []]. intros _. by apply Hc.
Qed.

Lemma bounded_none {A} n d : d_wf d → bounded_read (A := A) n (mret None) d.
Proof.
  intros Hd. eexists _, _. split_and!; [done|by apply advanced_refl|by intros []].
Qed.

Lemma deserialize_entry_bounded d : d_wf d → remaining_ d ≠ 0 →
  bounded_read 16 deserialize_entry d.
Proof.
  intros Hd Hr. unfold deserialize_entry, bounded_read.
  rewrite (st_bind_Ret _ _ _ d d) by done.
  destruct (look_ahead_u8_window 0 d Hd) as (b&Hb&_); [destruct Hd as (?&?&?); lia|].
  rewrite (st_bind_Ret _ _ _ (Some b) d) by (unfold st_lift; by rewrite Hb).
  destruct (Some b ≫= entry_new_of_type) as [x|].
  - apply bounded_of_reader; [apply reader_entry|done].
  - by apply bounded_none.
Qed.

(** The call returns in the window, or reads behind the buffer. *)
Definition ends {A} (m : ST deserializer A) (d : deserializer) : Prop :=
  (∃ r d', m d = Ret (r, d') ∧ advanced d d') ∨ m d = Undef ∧ ¬ slack d.

Lemma deserialize_option_bounded uninit d : d_wf d → remaining_ d ≠ 0 →
  bounded_read 4 (deserialize_option uninit) d ∨ deserialize_option uninit d = Undef ∧ ¬ slack d.
Proof.
  intros Hd Hr. unfold deserialize_option, bounded_read.
  rewrite (st_bind_Ret _ _ _ d d) by done.
  assert ((∃ r, look_ahead_u8 2 d = Ret r) ∨ look_ahead_u8 2 d = Undef ∧ ¬ slack d) as [[r Hla]|[Hla Hs]].
  { unfold look_ahead_u8, slack. destruct Hd as (?&?&?). case_bool_decide; [by eauto|].
    destruct (decide (position_ d + 2 < Z.of_nat (length (data_ d)))) as [Hlt|Hge].
    - destruct (vget_ret (data_ d) (position_ d + 2)) as (b&->&_); [lia|]. left. by eexists.
    - right. split; [|lia]. rewrite vget_undef; [done|]. lia. }
  2:{ right. split; [|done]. st_run. by rewrite Hla. }
  left. rewrite (st_bind_Ret _ _ _ r d) by (unfold st_lift; by rewrite Hla).
  destruct r as [t|]; [|by apply bounded_none].
  apply bounded_of_reader; [|done]. apply reader_option.
  unfold option_new_of_type. repeat case_bool_decide; done.
Qed.

Lemma entries_loop_returns fuel : ∀ ok acc d, d_wf d → remaining_ d + 2 ≤ Z.of_nat fuel →
  ∃ r d', entries_loop fuel ok acc d = Ret (r, d') ∧ advanced d d'.
Proof.
  induction fuel as [|fuel IH]; intros ok acc d Hd Hf; [destruct Hd as (?&?&?); lia|].
  cbn [entries_loop]. rewrite (st_bind_Ret _ _ _ d d) by done. unfold get_remaining.
  destruct ok; [|eexists _, _; split; [done|by apply advanced_refl]]. cbn [andb].
  case_bool_decide as Hr; [|eexists _, _; split; [done|by apply advanced_refl]].
  destruct (deserialize_entry_bounded d Hd Hr) as (r&d1&E&Ha&Hc).
  rewrite (st_bind_Ret _ _ _ _ _ E). destruct r as [x|].
  - destruct (IH true (acc ++ [x]) d1) as (r&d2&E2&Ha2).
    + by eapply advanced_wf.
    + specialize (Hc ltac:(by eexists)). lia.
    + eexists _, _. split; [done|]. by eapply advanced_trans.
  - destruct fuel as [|fuel]; [destruct Hd as (?&?&?); lia|]. cbn [entries_loop].
    eexists _, _. split; [done|done].
Qed.

Lemma options_loop_ends uninit addr fuel : ∀ ok acc d, d_wf d →
  remaining_ d + 2 ≤ Z.of_nat fuel → ends (options_loop uninit addr fuel ok acc) d.
Proof.
  induction fuel as [|fuel IH]; intros ok acc d Hd Hf; [destruct Hd as (?&?&?); lia|]. unfold ends.
  cbn [options_loop]. rewrite (st_bind_Ret _ _ _ d d) by done. unfold get_remaining.
  destruct ok; [|left; eexists _, _; split; [done|by apply advanced_refl]]. cbn [andb].
  case_bool_decide as Hr; [|left; eexists _, _; split; [done|by apply advanced_refl]].
  destruct (deserialize_option_bounded uninit d Hd Hr) as [(r&d1&E&Ha&Hc)|[E Hs]].
  2:{ right. split; [|done]. st_run. by rewrite E. }
  rewrite (st_bind_Ret _ _ _ _ _ E). destruct r as [x|].
  - destruct (IH true (acc ++ [(addr (length acc), x)]) d1) as [(r&d2&E2&Ha2)|[E2 Hs2]].
    + by eapply advanced_wf.
    + specialize (Hc ltac:(by eexists)). lia.
    + left. eexists _, _. split; [done|]. by eapply advanced_trans.
    + right. split; [done|]. intros Hs. apply Hs2. by eapply slack_advanced.
  - destruct fuel as [|fuel]; [destruct Hd as (?&?&?); lia|]. cbn [options_loop].
    left. eexists _, _. split; [done|done].
Qed.

Lemma st_try_u32_range ok v omit d ok' x d' : is_u32 v →
  st_try ok v (deserialize_u32 omit) d = Ret ((ok', x), d') → is_u32 x.
Proof.
  intros Hv. destruct ok; [|by intros [= <- <- <-]]. intros Hrun.
  apply st_bind_inv in Hrun as (r&d1&E&Hk). destruct r as [y|].
  - apply deserialize_u32_Some in E as (_&Hy&_). by injection Hk as <- <- <-.
  - by injection Hk as <- <- <-.
Qed.

(** Leaving the window of the entry array for the rest of the message. *)
Lemma leave_window el d w d' : d_wf d → 0 ≤ el ≤ remaining_ d →
  w = set_remaining el d → advanced w d' →
  advanced d (set_remaining (remaining_ d - el) d').
Proof.
  intros (?&?&?) ? -> (Hd&?&?&?). unfold advanced in *. cbn in *. split_and!; (done || lia).
Qed.

Lemma sd_deserialize_ends uninit addr d : d_wf d → remaining_ d < 2 ^ 32 →
  ends (sd_deserialize uninit addr sd_message_new) d.
Proof.
  intros Hd Hmax. unfold ends, sd_deserialize.
  destruct (safe_header (sd_header_ sd_message_new) d Hd) as ([ok1 h]&d1&E1&A1).
  rewrite (st_bind_Ret _ _ _ _ _ E1).
  destruct (safe_try ok1 (flags_ sd_message_new) _ safe_u8 d1) as ([ok2 f]&d2&E2&A2);
    [eauto with stream|]. rewrite (st_bind_Ret _ _ _ _ _ E2).
  destruct (safe_try ok2 0 _ (safe_u32 true) d2) as ([ok3 rv]&d3&E3&A3);
    [eauto with stream|]. rewrite (st_bind_Ret _ _ _ _ _ E3).
  destruct (safe_try ok3 0 _ (safe_u32 false) d3) as ([ok4 el]&d4&E4&A4);
    [eauto with stream|]. rewrite (st_bind_Ret _ _ _ _ _ E4).
  apply st_try_u32_range in E4 as Hel; [|done].
  assert (A : advanced d d4) by eauto with stream.
  assert (Hd4 : d_wf d4) by eauto with stream.
  rewrite (st_bind_Ret _ _ _ d4 d4) by done. change (get_remaining d4) with (remaining_ d4).
  assert (Hr4 := advanced_remaining _ _ A).
  rewrite !(u32_id (remaining_ d4)) by (destruct Hd4 as (?&?&?); width_lia).
  destruct ok4; [|left; by eexists _, _]. cbn [negb].
  case_bool_decide as Hlen; [left; by eexists _, _|].
  set (w := set_remaining el d4). rewrite (st_bind_Ret _ _ _ () w) by done.
  rewrite (st_bind_Ret _ _ _ w w) by done.
  assert (Hel4 : 0 ≤ el ≤ remaining_ d4) by width_lia.
  assert (Hw : d_wf w) by (by apply d_wf_set_remaining).
  destruct (entries_loop_returns (rounds w) true (entries_ sd_message_new) w) as ([ok5 es]&d5&E5&A5);
    [done|unfold rounds, get_remaining; destruct Hw as (?&?&?); lia|].
  rewrite (st_bind_Ret _ _ _ _ _ E5).
  set (d6 := set_remaining (remaining_ d4 - el) d5).
  assert (A6 : advanced d4 d6) by (by eapply leave_window).
  assert (Hd6 : d_wf d6) by eauto with stream.
  rewrite (st_bind_Ret _ _ _ () d6) by done. rewrite (st_bind_Ret _ _ _ d6 d6) by done.
  case_bool_decide; [left; eexists _, _; split; [done|by eapply advanced_trans]|].
  destruct (safe_try ok5 (options_length_ sd_message_new) _ (safe_u32 false) d6)
    as ([ok7 ol]&d7&E7&A7); [done|]. rewrite (st_bind_Ret _ _ _ _ _ E7).
  apply st_try_u32_range in E7 as Hol; [|done]. cbv beta iota.
  set (d8 := if bool_decide (get_remaining d7 > ol) then set_remaining ol d7 else d7).
  assert (Hd7 : d_wf d7) by eauto with stream.
  assert (A8 : advanced d7 d8).
  { unfold d8, get_remaining. case_bool_decide; [|by apply advanced_refl].
    apply advanced_set_remaining; [done|width_lia]. }
  assert (Hd8 : d_wf d8) by eauto with stream.
  rewrite (st_bind_Ret _ _ _ () d8) by done. rewrite (st_bind_Ret _ _ _ d8 d8) by done.
  assert (A' : advanced d d8) by eauto 6 with stream.
  destruct (options_loop_ends uninit addr (rounds d8) true (options_ sd_message_new) d8)
    as [(os&d9&E9&A9)|[E9 Hs]]; [done|unfold rounds, get_remaining; destruct Hd8 as (?&?&?); lia| |].
  - rewrite (st_bind_Ret _ _ _ _ _ E9). left. eexists _, _. split; [done|]. by eapply advanced_trans.
  - right. split; [st_run; by rewrite E9|]. intros Hs'. apply Hs. by eapply slack_advanced.
Qed.

Lemma deserialize_sd_message_ends uninit addr d : d_wf d → remaining_ d < 2 ^ 32 →
  ends (deserialize_sd_message uninit addr) d.
Proof.
  intros Hd Hmax. unfold ends, deserialize_sd_message.
  destruct (sd_deserialize_ends uninit addr d Hd Hmax) as [([ok m]&d'&E&A)|[E Hs]].
  - rewrite (st_bind_Ret _ _ _ _ _ E). left. by eexists _, _.
  - right. split; [st_run; by rewrite E|done].
Qed.

(** * Theorems on the wire format *)

(** C2: a service discovery message survives the wire.  A message of well-formed
    entries and options is read back with the same flags, the same entries (their
    option references included) and the same options in the same order, in new
    objects; bytes behind the announced options are dropped, and the position is
    then behind the options. *)
Theorem sd_roundtrip uninit addr m s d rest :
  sd_wf m → d_wf d → remaining_ d < 2 ^ 32 → avail d = sd_wire m ++ rest →
  sd_serialize m s = Ret (true, ser_append (sd_wire m) s) ∧
  ∃ d', deserialize_sd_message uninit addr d = Ret (Some (sd_received addr m), d') ∧
    position_ d' = position_ d + Z.of_nat (length (sd_wire m)) ∧ remaining_ d' = 0.
Proof.
  intros Hm Hd Hmax Hav. split; [apply writes_sd_message|].
  rewrite sd_wire_split, <- (assoc_L (++)) in Hav.
  destruct (sd_deserialize_head uninit addr m _ d _ Hm (is_u32_options_length _) Hd Hmax Hav)
    as (E&Hd'&Hav').
  set (d' := set_remaining _ _) in *.
  assert (Hot := options_length_total m Hm).
  rewrite Hot, <- length_options_wire, Nat2Z.id, take_app_length in Hav'.
  destruct (options_loop_window uninit addr (options_ m) d' []) as [fuel Hl];
    [|done|by rewrite app_nil_r|].
  { destruct Hm as (_&_&_&Ho&_). eapply Forall_impl; [exact Ho|]. naive_solver. }
  set (d'' := skip _ d') in Hl.
  assert (Hr : remaining_ d'' = 0).
  { unfold d''. cbn. rewrite length_app, Hot.
    assert (H := length_options_wire (options_ m)). lia. }
  exists d''. split_and!; [| |done].
  2:{ unfold d'', d'. cbn [skip set_remaining position_]. rewrite sd_wire_split, length_app. lia. }
  unfold deserialize_sd_message. erewrite st_bind_Ret; [|rewrite E; erewrite st_bind_Ret;
    [reflexivity|rewrite Hl; cbn [options_loop]; rewrite (st_bind_Ret _ _ _ d'' d'') by done;
       unfold get_remaining; rewrite Hr; reflexivity]].
  done.
Qed.

(** The look-ahead for an option type may leave the buffer.
    Take any well-formed message, append one or two bytes and count them in the
    options length: the announced options then end one or two bytes after an option,
    and reading the message reads behind the end of the buffer. *)
Theorem sd_truncated_option_overreads uninit addr m t threshold :
  sd_wf m → (0 < length t ≤ 2)%nat →
  Z.of_nat (length (sd_wire m ++ t)) < 2 ^ 32 →
  let options_length := options_length_of (options_ m) + Z.of_nat (length t) in
  deserialize_sd_message uninit addr
    (deserializer_of (sd_head_wire m options_length ++ options_wire (options_ m) ++ t) threshold)
  = Undef.
Proof.
  intros Hm Ht Hlen ol. set (d := deserializer_of _ _).
  assert (Hot := options_length_total m Hm). assert (Hn := options_total_nonneg (options_ m)).
  assert (Hhead : ∀ a b, length (sd_head_wire m a) = length (sd_head_wire m b)).
  { intros a b. unfold sd_head_wire. by rewrite !length_app. }
  rewrite sd_wire_split, !length_app, !Nat2Z.inj_add, length_options_wire in Hlen.
  assert (Hol : is_u32 ol) by (unfold ol; rewrite Hot; width_lia).
  assert (Hmax : remaining_ d < 2 ^ 32).
  { unfold d. cbn [deserializer_of remaining_].
    rewrite !length_app, !Nat2Z.inj_add, length_options_wire,
      (Hhead ol (options_length_of (options_ m))). lia. }
  destruct (sd_deserialize_head uninit addr m ol d _ Hm Hol (d_wf_of _ _) Hmax (avail_of _ _))
    as (E&Hd'&Hav').
  set (d' := set_remaining _ _) in *.
  rewrite take_ge in Hav'.
  2:{ unfold ol. rewrite length_app, Hot. assert (H := length_options_wire (options_ m)). lia. }
  destruct (options_loop_window uninit addr (options_ m) d' t) as [fuel Hl]; [|done|done|].
  { destruct Hm as (_&_&_&Ho&_). eapply Forall_impl; [exact Ho|]. naive_solver. }
  unfold deserialize_sd_message, mbind, st_mbind. rewrite E.
  unfold mbind, st_mbind. rewrite Hl. clear E Hl. cbn [options_loop].
  set (d'' := skip _ d').
  assert (Hr : remaining_ d'' = Z.of_nat (length t)).
  { unfold d''. cbn [skip remaining_ d' set_remaining]. unfold ol.
    rewrite length_app, Nat2Z.inj_add, Hot, length_options_wire. lia. }
  assert (Hp : position_ d'' + Z.of_nat (length t) = Z.of_nat (length (data_ d''))).
  { unfold d''. cbn [skip position_ d' set_remaining d deserializer_of data_].
    rewrite !length_app. lia. }
  rewrite (st_bind_Ret _ _ _ d'' d'') by done. unfold get_remaining.
  rewrite bool_decide_true by lia. cbn [andb]. unfold mbind, st_mbind.
  unfold deserialize_option. rewrite (st_bind_Ret _ _ _ d'' d'') by done.
  assert (look_ahead_u8 2 d'' = Undef) as HU; [|by unfold mbind, st_mbind, st_lift; rewrite HU].
  unfold look_ahead_u8. rewrite bool_decide_false, vget_undef; [done|lia|].
  unfold d''. cbn [skip d' set_remaining d deserializer_of data_].
  rewrite !length_app. unfold sd_head_wire. rewrite !length_app. cbn [length header_wire be16 app]. lia.
Qed.

(** * Building a message *)

(** Every entry refers to options of the message, in consecutive runs. *)
Definition refs_ok (n : nat) (e : entry_base) : Prop :=
  runs_ok e ∧ ∀ i, i ∈ options0_ e ++ options1_ e → 0 ≤ i < Z.of_nat n.

(** The size an array of options has on the wire, by the length fields. *)
Definition options_size (l : list option_ptr) : Z := foldr (λ o n, option_size o + n) 0 l.

(** The bookkeeping of a message under construction: the recorded size covers the
    message, and stays within a datagram. *)
Definition sd_inv (m : sd_message) : Prop :=
  28 + 16 * Z.of_nat (length (entries_ m)) + options_size (options_ m)
    ≤ current_message_size_ m ≤ VSOMEIP_MAX_UDP_SD_PAYLOAD ∧
  Forall (λ x, refs_ok (length (options_ m)) (entry_common x)) (entries_ m).

(** An address holds one object. *)
Definition one_object (l : list option_ptr) : Prop :=
  ∀ p q, p ∈ l → q ∈ l → p.1 = q.1 → p = q.

Lemma option_size_bounds o : 0 ≤ option_size o < 2 ^ 32.
Proof. apply is_u32_u32. Qed.
Lemma options_size_nonneg l : 0 ≤ options_size l.
Proof.
  induction l as [|o l IH]; cbn [options_size foldr]; [done|].
  fold (options_size l). assert (H := option_size_bounds o). lia.
Qed.
Lemma options_size_app l1 l2 : options_size (l1 ++ l2) = options_size l1 + options_size l2.
Proof.
  unfold options_size. induction l1 as [|o l1 IH]; cbn [app foldr]; [done|]. lia.
Qed.

(** The options a map of [add_entry_data] marks as new. *)
Definition new_options (l : list (option_ptr * bool)) : list option_ptr :=
  omap (λ ob : option_ptr * bool, if ob.2 then Some ob.1 else None) l.

Lemma options_insert_elem p b l q c : (q, c) ∈ options_insert p b l →
  (q, c) ∈ l ∨ (q = p ∨ (∃ c', (q, c') ∈ l) ∧ q.1 = p.1) ∧ c = b.
Proof.
  induction l as [|[q' c'] l IH]; cbn [options_insert]; [set_solver|].
  case_bool_decide; [set_solver|]. case_bool_decide; set_solver.
Qed.

Lemma options_insert_key p b l : ∃ q, (q, b) ∈ options_insert p b l ∧ q.1 = p.1.
Proof.
  induction l as [|[q' c'] l (q&IH&E)]; cbn [options_insert]; [set_solver|].
  case_bool_decide; [set_solver|]. case_bool_decide; set_solver.
Qed.

Lemma options_insert_keep p b l q c : (q, c) ∈ l →
  ∃ c', (q, c') ∈ options_insert p b l.
Proof.
  induction l as [|[q' c'] l IH]; cbn [options_insert]; [set_solver|].
  case_bool_decide; [set_solver|]. case_bool_decide; set_solver.
Qed.

Lemma options_insert_length p b l :
  (length (options_insert p b l) ≤ S (length l))%nat.
Proof.
  induction l as [|[q c] l IH]; cbn [options_insert]; [done|].
  repeat case_bool_decide; cbn [length]; lia.
Qed.

Lemma new_options_size_cons q (c : bool) l :
  options_size (new_options ((q, c) :: l)) =
  (if c then option_size q else 0) + options_size (new_options l).
Proof. by destruct c. Qed.

(** Inserting costs at most the size of the inserted option. *)
Lemma new_options_insert p b l : (∀ q c, (q, c) ∈ l → q.1 = p.1 → q = p) →
  options_size (new_options (options_insert p b l)) ≤
  options_size (new_options l) + (if b then option_size p else 0).
Proof.
  assert (Hp := option_size_bounds p).
  induction l as [|[q c] l IH]; intros Hl; cbn [options_insert].
  { rewrite new_options_size_cons. lia. }
  repeat case_bool_decide; rewrite !new_options_size_cons.
  - lia.
  - assert (q = p) as -> by (apply (Hl q c); [constructor|done]). destruct c; lia.
  - specialize (IH ltac:(intros; eapply Hl; [by right|done])). lia.
Qed.

Lemma find_option_elem o present p : find_option o present = Ret (Some p) →
  p ∈ present ∧ option_equals p.2 o.2 = Ret true.
Proof.
  induction present as [|q present IH]; cbn [find_option]; [done|].
  destruct (option_equals q.2 o.2) as [[]| | |] eqn:E; try done; rewrite outcome_bind_Ret.
  - intros [= ->]. split; [constructor|done].
  - intros H%IH. destruct H. split; [by right|done].
Qed.

Section collect.
  Context (all present : list option_ptr).
  Context (Hone : one_object all) (Hpresent : present ⊆ all).

(** The options in the map are known objects, and those not marked new are in the
    message. *)
Definition map_ok (l : list (option_ptr * bool)) : Prop :=
  ∀ q c, (q, c) ∈ l → q ∈ all ∧ (c = false → q ∈ present).

Lemma map_ok_insert p b l : map_ok l → p ∈ all → (b = false → p ∈ present) →
  map_ok (options_insert p b l).
Proof.
  intros Hl Hp Hb q c Hq. apply options_insert_elem in Hq as [Hq|[[->|[[c' Hq] E]] ->]]; auto.
  destruct (Hl q c' Hq) as [Hq' _]. rewrite (Hone q p Hq' Hp E). auto.
Qed.

(** [q] stands for [o] in the message: it is [o] or an equal option. *)
Definition stands_for (q o : option_ptr) : Prop :=
  q = o ∨ q ∈ present ∧ option_equals q.2 o.2 = Ret true.

Lemma collect_options_spec opts : ∀ sz acc sz' acc',
  opts ⊆ all → Forall (λ o, is_u16 (option_get_length o.2)) opts → map_ok acc →
  0 ≤ sz → sz + Z.of_nat (length opts) * 2 ^ 17 < 2 ^ 32 →
  collect_options opts present sz acc = Ret (sz', acc') →
  map_ok acc' ∧ is_u32 sz' ∧
  options_size (new_options acc') + sz ≤ options_size (new_options acc) + sz' ∧
  sz' ≤ sz + Z.of_nat (length opts) * 2 ^ 17 ∧
  (length acc' ≤ length acc + length opts)%nat ∧
  (∀ q c, (q, c) ∈ acc → ∃ c', (q, c') ∈ acc') ∧
  (∀ o, o ∈ opts → ∃ q c, (q, c) ∈ acc' ∧ stands_for q o).
Proof.
  induction opts as [|o opts IH]; intros sz acc sz' acc' Hall Hlen Hacc Hsz Hmax Hc;
    cbn [collect_options length] in *.
  { injection Hc as <- <-. split_and!; [done|width_lia|lia|lia|lia|by eauto|].
    intros o Ho. by apply not_elem_of_nil in Ho. }
  apply Forall_cons in Hlen as [Ho Hlen].
  assert (Hoa : o ∈ all) by (apply Hall; constructor).
  assert (Hopts : opts ⊆ all) by set_solver.
  destruct (find_option o present) as [[p|]| | |] eqn:Hf; try done; rewrite outcome_bind_Ret in Hc.
  - apply find_option_elem in Hf as [Hp Heq].
    assert (Hpa : p ∈ all) by (by apply Hpresent).
    apply IH in Hc as (Hm&Hu&Hs&Hb&Hl&Hk&Ho'); [|done|done|by apply map_ok_insert|done|lia].
    assert (Hn := new_options_insert p false acc).
    assert (Hil := options_insert_length p false acc).
    split_and!; [done|done| |lia|lia| |].
    + enough (options_size (new_options (options_insert p false acc)) ≤
              options_size (new_options acc)) by lia.
      rewrite Z.add_0_r in Hn. apply Hn. intros q c Hq E. by apply Hone; [apply (Hacc q c)|..].
    + intros q c Hq. destruct (options_insert_keep p false acc q c Hq) as [c' Hq']. eauto.
    + intros x [->|Hx]%elem_of_cons; [|by apply Ho'].
      destruct (options_insert_key p false acc) as (q&Hq&E).
      destruct (Hk _ _ Hq) as [c' Hq']. exists q, c'. split; [done|]. right.
      assert (q = p) as ->; [|done]. apply Hone; [|done|done].
      by apply (map_ok_insert p false acc Hacc Hpa (λ _, Hp) q false).
  - assert (Hgs : option_get_size o.2 = option_size o) by done.
    assert (Hos : 0 ≤ option_size o ≤ 2 ^ 17).
    { unfold option_size, VSOMEIP_SOMEIP_SD_OPTION_HEADER_SIZE. width_lia. }
    rewrite Hgs, u32_id in Hc by width_lia.
    apply IH in Hc as (Hm&Hu&Hs&Hb&Hl&Hk&Ho'); [|done|done|by apply map_ok_insert|lia|lia].
    assert (Hn := new_options_insert o true acc).
    assert (Hil := options_insert_length o true acc).
    split_and!; [done|done| |lia|lia| |].
    + enough (options_size (new_options (options_insert o true acc)) ≤
              options_size (new_options acc) + option_size o) by lia.
      apply Hn. intros q c Hq E. by apply Hone; [apply (Hacc q c)|..].
    + intros q c Hq. destruct (options_insert_keep o true acc q c Hq) as [c' Hq']. eauto.
    + intros x [->|Hx]%elem_of_cons; [|by apply Ho'].
      destruct (options_insert_key o true acc) as (q&Hq&E).
      destruct (Hk _ _ Hq) as [c' Hq']. exists q, c'. split; [done|]. left.
      apply Hone; [|done|done]. by apply (map_ok_insert o true acc Hacc Hoa ltac:(done) q true).
Qed.

End collect.

(** ** Assigning the collected options *)

(** A found index is the position of the pointer, and a pointer among the first
    [2^15 - 1] options is found. *)
Lemma get_option_index_range o options :
  get_option_index o options = -1 ∨
  ∃ p, options !! Z.to_nat (get_option_index o options) = Some p ∧ p.1 = o.1 ∧
    0 ≤ get_option_index o options < Z.of_nat (length options).
Proof.
  unfold get_option_index. destruct (list_find _ _) as [[i p]|] eqn:E; [right|by left].
  apply list_find_Some in E as (Hi&Hp&_). exists p. rewrite Nat2Z.id.
  apply lookup_take_Some in Hi as [Hi _]. split_and!; [done|done|lia|].
  apply lookup_lt_Some in Hi. lia.
Qed.

Lemma get_option_index_found (o : option_ptr) options : o ∈ options → one_object options →
  Z.of_nat (length options) < 2 ^ 15 →
  ∃ i, get_option_index o options = Z.of_nat i ∧ options !! i = Some o.
Proof.
  intros Ho Hone Hl. unfold get_option_index.
  assert (Hi16 : i16 (Z.of_nat (length options)) = Z.of_nat (length options)).
  { unfold i16. width_lia. }
  rewrite Hi16, Nat2Z.id, take_ge by done.
  destruct (list_find_elem_of (λ p : option_ptr, p.1 = o.1) options o Ho eq_refl) as [[i p] E].
  rewrite E. apply list_find_Some in E as (Hi&Hp&_). exists i. split; [done|].
  rewrite Hi. f_equal. apply Hone; [by eapply list_elem_of_lookup_2|done|done].
Qed.

Lemma refs_ok_mono n n' e : (n ≤ n')%nat → refs_ok n e → refs_ok n' e.
Proof. intros Hn [Hr Hi]. split; [done|]. intros i Hin. specialize (Hi i Hin). lia. Qed.

Lemma refs_ok_assign o options e : refs_ok (length options) e →
  refs_ok (length options) (assign_option (get_option_index o options) e).
Proof.
  intros [Hr Hi]. split; [by apply assign_option_spec|]. intros i Hin.
  apply assign_option_elem in Hin as [Hin|[-> Hu]]; [by apply Hi| |done].
  destruct (get_option_index_range o options) as [E|(_&_&_&Hb)]; [|done].
  rewrite E in Hu. width_lia.
Qed.

Lemma assign_options_spec l : ∀ options e options' e',
  refs_ok (length options) e → assign_options l options e = (options', e') →
  options' = options ++ new_options l ∧ refs_ok (length options') e'.
Proof.
  induction l as [|[o b] l IH]; intros options e options' e' He; cbn [assign_options].
  { intros [= <- <-]. by rewrite app_nil_r. }
  intros Ha. apply IH in Ha as [-> Hr].
  - split; [|done]. destruct b; [|done]. by rewrite <- (assoc_L (++)).
  - apply refs_ok_assign. eapply refs_ok_mono; [|exact He].
    destruct b; [|done]. rewrite length_app. lia.
Qed.

Lemma assign_known_refs l options : ∀ e, refs_ok (length options) e →
  refs_ok (length options) (assign_known l options e).
Proof.
  unfold assign_known. induction l as [|[o b] l IH]; intros e He; cbn [foldl]; [done|].
  by apply IH, refs_ok_assign.
Qed.

(** An index always fits while a run is empty. *)
Lemma assign_option_fits i e : runs_ok e → is_u8 i → options0_ e = [] ∨ options1_ e = [] →
  i ∈ options0_ (assign_option i e) ++ options1_ (assign_option i e) ∧
  options0_ e ++ options1_ e ⊆ options0_ (assign_option i e) ++ options1_ (assign_option i e) ∧
  (options0_ e = [] → options1_ (assign_option i e) = options1_ e).
Proof.
  intros Hok Hi He. destruct (assign_option_spec i e Hok) as (_&H1&H2&_).
  destruct (run_accepts i (options0_ e)) eqn:A0.
  { destruct (H1 Hi eq_refl) as [P ->]. rewrite P. split_and!; [set_solver..|done]. }
  destruct He as [He|He]; [by rewrite He in A0|].
  destruct (H2 Hi eq_refl) as [-> P]; [by rewrite He|].
  split_and!; [rewrite P; set_solver..|]. intros E. by rewrite E in A0.
Qed.

(** Up to two options of a new entry are all referenced. *)
Lemma assign_options_two all present l e options' e' :
  one_object all → map_ok all present l → present ⊆ all → (length l ≤ 2)%nat →
  runs_ok e → options0_ e = [] → options1_ e = [] →
  assign_options l present e = (options', e') → (length options' ≤ 256)%nat →
  ∀ q c, (q, c) ∈ l →
    ∃ i, Z.of_nat i ∈ options0_ e' ++ options1_ e' ∧ options' !! i = Some q.
Proof.
  intros Hone Hl Hp Hlen Hok E0 E1 Ha Hmax.
  assert (Hfind : ∀ options o (b : bool), options ⊆ all → (o ∈ all ∧ (b = false → o ∈ options)) →
    (length (if b then options ++ [o] else options) ≤ 256)%nat →
    ∃ i, get_option_index o (if b then options ++ [o] else options) = Z.of_nat i ∧
      (if b then options ++ [o] else options) !! i = Some o ∧ is_u8 (Z.of_nat i)).
  { intros options o b Hs [Ho Hb] Hn. set (os := if b then _ else _) in *.
    destruct (get_option_index_found o os) as (i&Ei&Hi).
    - subst os. destruct b; [set_solver|auto].
    - intros x y Hx Hy. apply Hone; subst os; destruct b; set_solver.
    - width_lia.
    - exists i. split_and!; [done|done|]. apply lookup_lt_Some in Hi. width_lia. }
  destruct l as [|[q1 c1] [|[q2 c2] [|? ?]]]; cbn [length] in Hlen; [set_solver| | |lia];
    cbn [assign_options] in Ha; injection Ha as <- <-; set (os1 := if c1 then _ else _) in *.
  - destruct (Hfind present q1 c1) as (i&Ei&Hi&Hu); [done|apply Hl; constructor|done|].
    fold os1 in Ei, Hi. destruct (assign_option_fits (Z.of_nat i) e) as (Hin&_); [auto..|].
    intros q c [[= -> ->]|[]%not_elem_of_nil]%elem_of_cons. rewrite Ei. eauto.
  - set (os2 := if c2 then _ else _) in *.
    assert (Hpre : (length os1 ≤ length os2)%nat ∧ ∀ i x, os1 !! i = Some x → os2 !! i = Some x).
    { subst os2. destruct c2; [|done]. rewrite length_app. split; [lia|].
      intros. by apply lookup_app_l_Some. }
    destruct Hpre as [Hlen1 Hpre].
    destruct (Hfind present q1 c1) as (i&Ei&Hi&Hu); [done|apply Hl; constructor|fold os1; lia|].
    fold os1 in Ei, Hi. rewrite Ei in *.
    destruct (assign_option_fits (Z.of_nat i) e) as (Hin&_&Hemp); [auto..|].
    rewrite E1 in Hemp. specialize (Hemp E0).
    assert (Hok1 : runs_ok (assign_option (Z.of_nat i) e)) by (by apply assign_option_spec).
    assert (Hos1 : os1 ⊆ all).
    { subst os1. destruct (Hl q1 c1); [constructor|]. destruct c1; set_solver. }
    destruct (Hfind os1 q2 c2) as (j&Ej&Hj&Hv); [done| |done|].
    { destruct (Hl q2 c2) as [H1 H2]; [by right; constructor|]. split; [done|].
      intros Hc. specialize (H2 Hc). subst os1. destruct c1; set_solver. }
    fold os2 in Ej, Hj. rewrite Ej.
    destruct (assign_option_fits (Z.of_nat j) _ Hok1 Hv (or_intror Hemp)) as (Hin2&Hsub&_).
    intros q c Hq. apply elem_of_cons in Hq as [[= -> ->]|Hq]; [eauto|].
    apply list_elem_of_singleton in Hq as [= -> ->]. eauto.
Qed.

Lemma sd_inv_new : sd_inv sd_message_new.
Proof. split; [vm_compute; done|constructor]. Qed.

Lemma entry_common_with f x : entry_common (with_common f x) = f (entry_common x).
Proof. by destruct x. Qed.

Lemma find_option_returns o l : opt_wf o.2 → Forall (λ p : option_ptr, opt_wf p.2) l →
  ∃ r, find_option o l = Ret r.
Proof.
  intros Ho. induction 1 as [|p l Hp _ [r IH]]; cbn [find_option]; [by eexists|].
  assert (∃ b, option_equals p.2 o.2 = Ret b) as [b ->].
  { destruct (decide (opt_class p.2 = 2)) as [Hc|Hc], (decide (opt_class o.2 = 2)) as [Hc'|Hc'];
      try (rewrite option_equals_wf by auto; by eexists).
    destruct (p.2), (o.2); try (vm_compute in Hc; discriminate);
      try (vm_compute in Hc'; discriminate). rewrite load_balancing_equals. by eexists. }
  rewrite outcome_bind_Ret. destruct b; [by eexists|]. by eexists.
Qed.

Lemma collect_options_returns present opts : Forall (λ p : option_ptr, opt_wf p.2) present →
  ∀ sz acc, Forall (λ p : option_ptr, opt_wf p.2) opts →
  ∃ r, collect_options opts present sz acc = Ret r.
Proof.
  intros Hp. induction opts as [|o opts IH]; intros sz acc Ho; cbn [collect_options].
  { by eexists. }
  apply Forall_cons in Ho as [Ho Hopts].
  destruct (find_option_returns o present Ho Hp) as [r ->]. rewrite outcome_bind_Ret.
  destruct r; by apply IH.
Qed.

Lemma add_entry_data_keeps entry opts other m :
  sd_inv m → one_object (opts ++ options_ m) → Z.of_nat (length opts) < 2 ^ 14 →
  Forall (λ p, opt_wf p.2) opts → Forall (λ p, opt_wf p.2) (options_ m) →
  refs_ok (length (options_ m)) (entry_common entry) →
  (∀ x, other = Some x → refs_ok (length (options_ m)) (entry_common x)) →
  ∃ b m', add_entry_data entry opts other m = Ret (b, m') ∧ sd_inv m' ∧
    (if b then options_ m `prefix_of` options_ m' ∧
       length (entries_ m') = (length (entries_ m) + match other with Some _ => 2 | None => 1 end)%nat
     else m' = m).
Proof.
  intros [Hsz Hrefs] Hone Hn Hwf Hwfm He Hother. unfold add_entry_data.
  set (sz := match other with Some _ => _ | None => _ end).
  destruct (collect_options_returns (options_ m) opts Hwfm sz [] Hwf) as [[sz' l] Hc].
  rewrite Hc, outcome_bind_Ret.
  assert (Hsz0 : sz = 16 * match other with Some _ => 2 | None => 1 end)
    by (subst sz; by destruct other).
  assert (Hsz1 : 0 ≤ sz ≤ 32) by (destruct other; lia).
  apply (collect_options_spec (opts ++ options_ m)) in Hc
    as (_&Hu&Hs&Hb&_); [|done|set_solver|set_solver| |by intros ? ? []%not_elem_of_nil|lia|lia].
  2:{ eapply Forall_impl; [exact Hwf|]. by intros o [Ho _]. }
  cbn in Hs. unfold VSOMEIP_MAX_UDP_SD_PAYLOAD in *.
  case_bool_decide as Hfit; [eexists _, _; split_and!; [done|by split|done]|].
  destruct (assign_options l (options_ m) (entry_common entry)) as [os e'] eqn:Ha.
  apply assign_options_spec in Ha as [-> He']; [|done].
  assert (Hfit' : u32 (current_message_size_ m + sz') = current_message_size_ m + sz').
  { apply u32_id. assert (H := options_size_nonneg (options_ m)). width_lia. }
  rewrite Hfit' in *. set (os := options_ m ++ new_options l) in *.
  assert (Hmono : (length (options_ m) ≤ length os)%nat).
  { subst os. rewrite length_app. lia. }
  assert (Hrefs' : Forall (λ x, refs_ok (length os) (entry_common x)) (entries_ m)).
  { eapply Forall_impl; [exact Hrefs|]. intros x. by apply refs_ok_mono. }
  eexists true, _. split; [done|]. unfold sd_inv. cbn [entries_ options_ current_message_size_].
  assert (Hos : options_size os = options_size (options_ m) + options_size (new_options l))
    by apply options_size_app.
  destruct other as [x|]; rewrite ?length_app; cbn [length]; split_and!; try lia;
    try (by apply prefix_app_r); rewrite ?Forall_app, ?Forall_singleton, ?entry_common_with;
    split_and?; try done.
  apply assign_known_refs. eapply refs_ok_mono; [done|]. by apply Hother.
Qed.

(** The members of an entry but for its references to options. *)
Definition same_contents (e e' : entry_base) : Prop :=
  e_type_ e = e_type_ e' ∧ e_service_ e = e_service_ e' ∧ e_instance_ e = e_instance_ e' ∧
  e_major_version_ e = e_major_version_ e' ∧ e_ttl_ e = e_ttl_ e'.

Lemma assign_options_contents l options e options' e' :
  assign_options l options e = (options', e') → same_contents e' e.
Proof.
  revert options e. induction l as [|[o b] l IH]; intros options e; cbn [assign_options].
  { by intros [= _ <-]. }
  intros H%IH. unfold assign_option in H. repeat case_match; exact H.
Qed.

Lemma collect_options_elem present opts : ∀ sz acc sz' acc',
  collect_options opts present sz acc = Ret (sz', acc') →
  ∀ q c, (q, c) ∈ acc' → q ∈ opts ∨ q ∈ present ∨ ∃ c', (q, c') ∈ acc.
Proof.
  induction opts as [|o opts IH]; intros sz acc sz' acc' Hc q c Hq; cbn [collect_options] in Hc.
  { injection Hc as <- <-. eauto. }
  destruct (find_option o present) as [[p|]| | |] eqn:Hf; try done; rewrite outcome_bind_Ret in Hc;
    destruct (IH _ _ _ _ Hc q c Hq) as [?|[?|[c' Hi]]]; try (by left; right); try (by right; left);
    apply options_insert_elem in Hi.
  - apply find_option_elem in Hf as [Hp _]. naive_solver.
  - destruct Hi as [Hi|[[->|[[c2 Hi] _]] _]]; [by eauto|by left; left|by eauto].
Qed.

Lemma assign_options_options l options e options' e' :
  assign_options l options e = (options', e') → options' = options ++ new_options l.
Proof.
  revert options e. induction l as [|[o b] l IH]; intros options e; cbn [assign_options].
  { intros [= <- _]. by rewrite app_nil_r. }
  intros ->%IH. unfold new_options. destruct b; cbn; [by rewrite <- app_assoc|done].
Qed.

Lemma assign_known_contents l options e : same_contents (assign_known l options e) e.
Proof.
  unfold assign_known. revert e. induction l as [|[o b] l IH]; intros e; cbn [foldl]; [done|].
  specialize (IH (assign_option (get_option_index (o, b).1 options) e)).
  assert (same_contents (assign_option (get_option_index (o, b).1 options) e) e) as H
    by (unfold assign_option; repeat case_match; done).
  unfold same_contents in *. intuition congruence.
Qed.

(** The options of the message after an entry was added are those before and those of the
    entry; the entry is the last one, followed by the other one, with their contents but for
    the references. *)
Lemma add_entry_data_adds entry opts other m m' : add_entry_data entry opts other m = Ret (true, m') →
  (∀ p, p ∈ options_ m' → p ∈ opts ++ options_ m) ∧
  ∃ e e', entries_ m' = entries_ m ++ with_common (λ _, e) entry :: (with_common (λ _, e') <$> option_list other) ∧
    same_contents e (entry_common entry) ∧ ∀ x, other = Some x → same_contents e' (entry_common x).
Proof.
  unfold add_entry_data. intros H. apply outcome_bind_inv in H as ([sz l]&Hc&H). cbv beta iota in H.
  case_bool_decide; [done|]. destruct (assign_options l (options_ m) (entry_common entry)) as [os e] eqn:Ha.
  injection H as <-. cbn [options_ entries_]. split.
  - rewrite (assign_options_options _ _ _ _ _ Ha). intros p [?|Hp]%elem_of_app; [by apply elem_of_app; right|].
    unfold new_options in Hp. apply list_elem_of_omap in Hp as ([q c]&Hq&Hp).
    destruct c; [|done]. injection Hp as ->.
    destruct (collect_options_elem _ _ _ _ _ _ Hc p true Hq) as [?|[?|[c' []%not_elem_of_nil]]];
      apply elem_of_app; auto.
  - apply assign_options_contents in Ha. destruct other as [x|]; cbn [option_list fmap list_fmap].
    + exists e, (assign_known l os (entry_common x)). rewrite <- app_assoc. split; [|split; [done|]].
      * by destruct x.
      * intros y [= <-]. apply assign_known_contents.
    + exists e, e. by split.
Qed.

(** * Theorems on building a message *)

(** C27: [add_entry_data] keeps a message consistent.  On well-formed options it
    returns, without a failing downcast; when the entry does not fit, the message is
    unchanged; when it does, the options already there keep their positions, every
    entry still refers to options of the message in consecutive runs, and the
    recorded size still covers the message and stays within the maximal payload. *)
Theorem add_entry_data_inv entry opts other m :
  sd_inv m → one_object (opts ++ options_ m) → Z.of_nat (length opts) < 2 ^ 14 →
  Forall (λ p, opt_wf p.2) opts → Forall (λ p, opt_wf p.2) (options_ m) →
  refs_ok (length (options_ m)) (entry_common entry) →
  (∀ x, other = Some x → refs_ok (length (options_ m)) (entry_common x)) →
  ∃ b m', add_entry_data entry opts other m = Ret (b, m') ∧ sd_inv m' ∧
    (if b then options_ m `prefix_of` options_ m' ∧
       length (entries_ m') = (length (entries_ m) + match other with Some _ => 2 | None => 1 end)%nat
     else m' = m).
Proof. apply add_entry_data_keeps. Qed.



(** An entry with at most two options refers to all of them.  If a new entry is
    added with one or two options and the message has at most 256 options after
    that, then for every option passed the entry refers to it or to an option of the
    message that compares equal to it. *)
Theorem add_entry_data_two_options entry opts other m m' :
  (length opts ≤ 2)%nat → one_object (opts ++ options_ m) →
  Forall (λ p, opt_wf p.2) opts → Forall (λ p, opt_wf p.2) (options_ m) →
  runs_ok (entry_common entry) →
  options0_ (entry_common entry) = [] → options1_ (entry_common entry) = [] →
  add_entry_data entry opts other m = Ret (true, m') → (length (options_ m') ≤ 256)%nat →
  ∃ x, entries_ m' !! length (entries_ m) = Some x ∧
    ∀ o, o ∈ opts → ∃ i q,
      Z.of_nat i ∈ options0_ (entry_common x) ++ options1_ (entry_common x) ∧
      options_ m' !! i = Some q ∧ stands_for (options_ m) q o.
Proof.
  intros Hn Hone Hwf Hwfm Hr E0 E1 Hadd Hmax. unfold add_entry_data in Hadd.
  set (sz := match other with Some _ => _ | None => _ end) in Hadd.
  destruct (collect_options_returns (options_ m) opts Hwfm sz [] Hwf) as [[sz' l] Hc].
  rewrite Hc, outcome_bind_Ret in Hadd.
  assert (Hsz : 0 ≤ sz ≤ 32) by (subst sz; by destruct other).
  apply (collect_options_spec (opts ++ options_ m)) in Hc
    as (Hok&_&_&_&Hl&_&Hst); [|done|set_solver|set_solver| |by intros ? ? []%not_elem_of_nil|lia|lia].
  2:{ eapply Forall_impl; [exact Hwf|]. by intros o [Ho _]. }
  case_bool_decide; [done|].
  destruct (assign_options l (options_ m) (entry_common entry)) as [os e'] eqn:Ha.
  injection Hadd as <-. cbn [options_ entries_] in *.
  assert (Hall := assign_options_two _ _ _ _ _ _ Hone Hok ltac:(set_solver)
                    ltac:(cbn in Hl; lia) Hr E0 E1 Ha Hmax).
  exists (with_common (λ _, e') entry). rewrite entry_common_with. split.
  - destruct other; rewrite <- ?(assoc_L (++)); by apply list_lookup_middle.
  - intros o Ho. destruct (Hst o Ho) as (q&c&Hq&Hs). destruct (Hall q c Hq) as (i&Hi&Hi').
    eauto 6.
Qed.

(** The length field of a message.  For well-formed options the SOME/IP length is
    the number of bytes behind it if the message has an entry; a message without
    entries announces four bytes fewer than it writes. *)
Theorem sd_length_field m :
  sd_wf m →
  sd_get_length m + 8 + (if has_entry m then 0 else 4) = Z.of_nat (length (sd_wire m)).
Proof.
  intros (_&_&_&Ho&Hsz). rewrite length_sd_wire. unfold sd_get_length, has_entry.
  assert (Hn := options_total_nonneg (options_ m)).
  unfold VSOMEIP_SOMEIP_SD_ENTRY_SIZE, VSOMEIP_SOMEIP_SD_DATA_SIZE,
    VSOMEIP_SOMEIP_SD_ENTRY_LENGTH_SIZE, VSOMEIP_SOMEIP_SD_OPTION_LENGTH_SIZE.
  rewrite (bool_decide_ext (length (entries_ m) ≠ 0%nat) (0 < length (entries_ m))%nat) by lia.
  case_bool_decide; rewrite foldl_option_size; try done; width_lia.
Qed.

(** * Instances *)

(** An offer of one service, reachable through one UDP endpoint. *)
Definition sample_offer (runs : bool) : entry_impl :=
  ServiceEntry (EntryBase OFFER_SERVICE 0x1111 0x0001 0 3 (if runs then [0] else []) []
                  (if runs then 1 else 0) 0 0 0) 7.
Definition sample_sd_message : sd_message :=
  SdMessage sd_header_new 0xC0 0 [sample_offer true] [(100, sample_endpoint 30509)] 56.

Lemma sample_endpoint_wf port : is_u16 port → opt_wf (sample_endpoint port).
Proof.
  intros Hp. split; [vm_compute; done|]. unfold sample_endpoint, ipv4_option_of.
  cbn [opt_base o_type_ o_length_]. split_and!; [set_solver|done| | |done].
  - split; [cbn; set_solver|done].
  - repeat constructor; vm_compute; done.
Qed.

Lemma sample_sd_message_wf : sd_wf sample_sd_message.
Proof.
  split; [split_and!; vm_compute; done|]. split; [vm_compute; done|].
  split; [|split; [|vm_compute; done]].
  - constructor; [|constructor]. split; [|done]. split; [|vm_compute; done].
    unfold entry_base_wf. cbn [entry_common sample_offer]. split; [vm_compute; done|].
    do 4 (split; [vm_compute; done|]).
    split; [split_and!; [by exists 0|by exists 0|done|done]|].
    split_and!; (done || cbn; lia).
  - constructor; [|constructor]. split; [by apply sample_endpoint_wf|]. by vm_compute.
Qed.

Lemma sd_roundtrip_witness :
  ∃ d', deserialize_sd_message 0 (λ n, Z.of_nat n) (deserializer_of (sd_wire sample_sd_message ++ [1; 2]) 0) =
    Ret (Some (sd_received (λ n, Z.of_nat n) sample_sd_message), d') ∧
    position_ d' = 56 ∧ remaining_ d' = 0.
Proof.
  destruct (sd_roundtrip 0 (λ n, Z.of_nat n) sample_sd_message (serializer_new 0)
              (deserializer_of (sd_wire sample_sd_message ++ [1; 2]) 0) [1; 2]) as [_ H].
  - apply sample_sd_message_wf.
  - apply d_wf_of.
  - vm_compute. done.
  - apply avail_of.
  - exact H.
Defined.

Lemma sd_truncated_option_overreads_witness :
  deserialize_sd_message 0 (λ n, Z.of_nat n)
    (deserializer_of (sd_head_wire sample_sd_message 13 ++
                      options_wire (options_ sample_sd_message) ++ [0]) 0) = Undef.
Proof.
  apply (sd_truncated_option_overreads 0 (λ n, Z.of_nat n) sample_sd_message [0] 0).
  - apply sample_sd_message_wf.
  - cbn. lia.
  - vm_compute. done.
Defined.

Lemma add_entry_data_inv_witness :
  ∃ b m', add_entry_data (sample_offer false) [(7, sample_endpoint 1); (3, sample_endpoint 2)]
            None sd_message_new = Ret (b, m') ∧ sd_inv m' ∧
    (if b then [] `prefix_of` options_ m' ∧ length (entries_ m') = 1%nat else m' = sd_message_new).
Proof.
  apply (add_entry_data_inv (sample_offer false) [(7, sample_endpoint 1); (3, sample_endpoint 2)]
           None sd_message_new).
  - apply sd_inv_new.
  - intros p q Hp Hq. set_unfold in Hp. set_unfold in Hq.
    destruct Hp as [->|[->|[]]], Hq as [->|[->|[]]]; done.
  - vm_compute. done.
  - repeat constructor; by apply sample_endpoint_wf.
  - constructor.
  - split; [split_and!; [by exists 0|by exists 0|done|done]|].
    intros i []%not_elem_of_nil.
  - done.
Defined.

Lemma add_entry_data_two_options_witness :
  ∃ m', add_entry_data (sample_offer false) [(7, sample_endpoint 1); (3, sample_endpoint 2)]
          None sd_message_new = Ret (true, m') ∧
    options_ m' = [(3, sample_endpoint 2); (7, sample_endpoint 1)] ∧
    ∃ x, entries_ m' !! 0%nat = Some x ∧
      ∀ o, o ∈ [(7, sample_endpoint 1); (3, sample_endpoint 2)] → ∃ i q,
        Z.of_nat i ∈ options0_ (entry_common x) ++ options1_ (entry_common x) ∧
        options_ m' !! i = Some q ∧ stands_for [] q o.
Proof.
  eexists. split; [vm_compute; reflexivity|]. split; [vm_compute; reflexivity|].
  apply (add_entry_data_two_options (sample_offer false)
           [(7, sample_endpoint 1); (3, sample_endpoint 2)] None sd_message_new).
  - cbn. lia.
  - intros p q Hp Hq. set_unfold in Hp. set_unfold in Hq.
    destruct Hp as [->|[->|[]]], Hq as [->|[->|[]]]; done.
  - repeat constructor; by apply sample_endpoint_wf.
  - constructor.
  - split_and!; [by exists 0|by exists 0|done|done].
  - done.
  - done.
  - vm_compute. reflexivity.
  - cbn. lia.
Defined.

Lemma sd_length_field_witness :
  sd_get_length sample_sd_message + 8 + 0 = Z.of_nat (length (sd_wire sample_sd_message)).
Proof. apply (sd_length_field sample_sd_message), sample_sd_message_wf. Defined.
