(* ===== verification/SdReading.v ===== *)
(** Reading a received service discovery message: what is read depends on the received bytes
    only.

    [message_impl::deserialize_option] looks at the type of an option, two bytes ahead, before
    it tests how many bytes are left, so that reading may leave the buffer.  Two deserializers
    whose buffers begin with the same bytes are compared; what is behind these bytes has no
    influence on the message. *)
From S2P Require Import Prelude ByteOrder Streams Message SdEntries SdOptions SdMessage.

(** * Deserializers with the same bytes *)

Section windows.
  (** The number of bytes that the buffers have in common. *)
  Context (limit : nat).

Definition same (d1 d2 : deserializer) : Prop :=
  position_ d1 = position_ d2 ∧ remaining_ d1 = remaining_ d2 ∧ 0 ≤ position_ d1 ∧ 0 ≤ remaining_ d1 ∧
  position_ d1 + remaining_ d1 ≤ Z.of_nat limit ∧
  (limit ≤ length (data_ d1))%nat ∧ (limit ≤ length (data_ d2))%nat ∧
  take limit (data_ d1) = take limit (data_ d2).

Lemma same_wf d1 d2 : same d1 d2 → d_wf d1 ∧ d_wf d2.
Proof. intros (?&?&?&?&?&?&?&?). unfold d_wf. lia. Qed.

Lemma same_avail d1 d2 : same d1 d2 → avail d1 = avail d2.
Proof.
  intros (Hp&Hr&?&?&?&?&?&Ht). unfold avail. rewrite <- Hp, <- Hr.
  assert (∀ d, take (Z.to_nat (remaining_ d1)) (drop (Z.to_nat (position_ d1)) (data_ d)) =
    take (Z.to_nat (remaining_ d1)) (drop (Z.to_nat (position_ d1)) (take limit (data_ d)))) as E.
  { intros d. rewrite skipn_firstn_comm, take_take. f_equal. lia. }
  by rewrite (E d1), (E d2), Ht.
Qed.

Lemma same_skip n d1 d2 : same d1 d2 → 0 ≤ n ≤ remaining_ d1 → same (skip n d1) (skip n d2).
Proof. intros (?&?&?&?&?&?&?&?) ?. unfold same. cbn. split_and!; (done || lia). Qed.

Lemma same_set_remaining r d1 d2 : same d1 d2 → 0 ≤ r → position_ d1 + r ≤ Z.of_nat limit →
  same (set_remaining r d1) (set_remaining r d2).
Proof. intros (?&?&?&?&?&?&?&?) ? ?. unfold same. cbn. split_and!; (done || lia). Qed.

(** A call that returns for one of two such deserializers returns the same for the other. *)
Definition windowed_at {A} (m : ST deserializer A) (d1 d2 : deserializer) : Prop :=
  ∀ x d1', m d1 = Ret (x, d1') → ∃ d2', m d2 = Ret (x, d2') ∧ same d1' d2' ∧ advanced d1 d1'.
Definition windowed {A} (m : ST deserializer A) : Prop := ∀ d1 d2, same d1 d2 → windowed_at m d1 d2.

Lemma windowed_ret {A} (a : A) : windowed (mret a).
Proof. intros d1 d2 Hs x d1' [= <- <-]. exists d2. split_and!; [done..|]. by apply advanced_refl, (same_wf d1 d2). Qed.

Lemma windowed_at_bind {A B} (m : ST deserializer A) (k : A → ST deserializer B) d1 d2 :
  windowed_at m d1 d2 → (∀ a, windowed (k a)) → windowed_at (m ≫= k) d1 d2.
Proof.
  intros Hm Hk y d1'' E. apply st_bind_inv in E as (a&d1'&E1&E2).
  destruct (Hm a d1' E1) as (d2'&F1&Hs'&A1). destruct (Hk a d1' d2' Hs' y d1'' E2) as (d2''&F2&Hs''&A2).
  exists d2''. rewrite (st_bind_Ret _ _ _ _ _ F1). split_and!; [done..|]. by eapply advanced_trans.
Qed.
Lemma windowed_bind {A B} (m : ST deserializer A) (k : A → ST deserializer B) :
  windowed m → (∀ a, windowed (k a)) → windowed (m ≫= k).
Proof. intros Hm Hk d1 d2 Hs. apply windowed_at_bind; [by apply Hm|done]. Qed.

Lemma windowed_at_get {A} (k : deserializer → ST deserializer A) d1 d2 :
  k d1 = k d2 → windowed_at (k d1) d1 d2 → windowed_at (st_get ≫= k) d1 d2.
Proof. intros E Hk x d1' H. rewrite (st_bind_Ret st_get k d2 d2 d2) by done. rewrite <- E. by apply Hk. Qed.
Lemma windowed_get {A} (k : deserializer → ST deserializer A) :
  (∀ d1 d2, same d1 d2 → k d1 = k d2) → (∀ d1 d2, same d1 d2 → windowed_at (k d1) d1 d2) → windowed (st_get ≫= k).
Proof. intros E Hk d1 d2 Hs. apply windowed_at_get; auto. Qed.

Lemma windowed_try {A} ok (v : A) m : windowed m → windowed (st_try ok v m).
Proof. intros Hm. destruct ok; [|apply windowed_ret]. apply windowed_bind; [done|]. intros a. apply windowed_ret. Qed.

Lemma windowed_read_or {A} (v : A) m : windowed m → windowed (read_or v m).
Proof. intros Hm. apply windowed_bind; [done|]. intros a. apply windowed_ret. Qed.

Lemma windowed_close r : r = 0 → windowed (st_modify (set_remaining r)).
Proof.
  intros -> d1 d2 Hs x d1' [= <- <-]. exists (set_remaining 0 d2). split; [done|]. split.
  - apply same_set_remaining; [done..|]. destruct Hs as (?&?&?&?&?&?&?&?). lia.
  - apply advanced_set_remaining; [by apply (same_wf d1 d2)|]. destruct Hs as (?&?&?&?&?&?&?&?). lia.
Qed.

(** ** The primitive reads *)

Lemma windowed_skip {A} (m : ST deserializer A) n a d1 d2 : same d1 d2 → 0 ≤ n ≤ remaining_ d1 →
  m d1 = Ret (a, skip n d1) → m d2 = Ret (a, skip n d2) → windowed_at m d1 d2.
Proof.
  intros Hs Hn E1 E2 x d1' E. rewrite E1 in E. injection E as <- <-. exists (skip n d2).
  split_and!; [done|by apply same_skip|]. apply advanced_skip; [by apply (same_wf d1 d2)|done].
Qed.

Lemma windowed_next d1 d2 : same d1 d2 → 0 < remaining_ d1 → windowed_at next_byte d1 d2.
Proof.
  intros Hs Hr. destruct (same_wf d1 d2 Hs) as [W1 W2]. pose proof Hs as (_&Hr2&_).
  destruct (next_byte_ret d1 W1 Hr) as (b&E1&V1). destruct (next_byte_ret d2 W2) as (b'&E2&V2); [lia|].
  rewrite <- (same_avail d1 d2 Hs), V1 in V2. injection V2 as <- _. apply (windowed_skip _ 1 b); (done || lia).
Qed.

(** A block of [n] bytes in the window. *)
Lemma windowed_block n d1 d2 : same d1 d2 → 0 ≤ n ≤ remaining_ d1 → windowed_at (read_block n) d1 d2.
Proof.
  intros Hs Hn. destruct (same_wf d1 d2 Hs) as [W1 W2]. pose proof Hs as (_&Hr2&_).
  apply (windowed_skip _ n (Some (take (Z.to_nat n) (avail d1)))); [done..| |]; unfold read_block; st_run;
    (rewrite vrange_avail by (done || lia)); [done|]. by rewrite <- (same_avail d1 d2 Hs).
Qed.

(** Bytes one after the other: all but the first are in what the first left. *)
Fixpoint next_bytes (n : nat) : ST deserializer (list Z) :=
  match n with O => mret [] | S n => b ← next_byte; bs ← next_bytes n; mret (b :: bs) end.
Lemma windowed_next_bytes n d1 d2 : same d1 d2 → Z.of_nat n ≤ remaining_ d1 → windowed_at (next_bytes n) d1 d2.
Proof.
  revert d1 d2. induction n as [|n IH]; intros d1 d2 Hs Hr; cbn [next_bytes]; [by apply windowed_ret|].
  intros x d1' E. apply st_bind_inv in E as (b&d1a&E1&E). destruct (windowed_next d1 d2 Hs ltac:(lia) b d1a E1) as (d2a&F1&Hsa&A1).
  assert (remaining_ d1a = remaining_ d1 - 1) as Hra.
  { destruct (next_byte_ret d1) as (b'&E1'&_); [by apply (same_wf d1 d2)|lia|]. rewrite E1 in E1'. by injection E1' as _ ->. }
  destruct (windowed_at_bind (next_bytes n) (λ bs, mret (b :: bs)) d1a d2a) with x d1' as (d2'&F2&Hs'&A2).
  - apply IH; [done|lia].
  - intros bs. apply windowed_ret.
  - exact E.
  - exists d2'. rewrite (st_bind_Ret _ _ _ _ _ F1). split_and!; [done..|]. by eapply advanced_trans.
Qed.

Lemma windowed_at_ext {A} (m m' : ST deserializer A) d1 d2 :
  (∀ d, m d = m' d) → windowed_at m' d1 d2 → windowed_at m d1 d2.
Proof. intros E H x d1'. rewrite !E. apply H. Qed.

Lemma windowed_u8 : windowed deserialize_u8.
Proof.
  apply windowed_get; intros d1 d2 Hs; pose proof Hs as (_&Hr&?&?&_); [by rewrite Hr|].
  case_bool_decide; [by apply windowed_ret|]. apply windowed_at_bind; [apply windowed_next; (done || lia)|].
  intros b. apply windowed_ret.
Qed.

Lemma windowed_u16 : windowed deserialize_u16.
Proof.
  apply windowed_get; intros d1 d2 Hs; pose proof Hs as (_&Hr&?&?&_); [by rewrite Hr|].
  case_bool_decide; [by apply windowed_ret|].
  apply (windowed_at_ext _ (bs ← next_bytes 2; mret (Some (VSOMEIP_BYTES_TO_WORD (nth 0 bs 0) (nth 1 bs 0))))).
  - intros d. cbn [next_bytes]. st_run. destruct (next_byte d) as [[b0 d']| | |]; cbn; try done.
    by destruct (next_byte d') as [[b1 d'']| | |].
  - apply windowed_at_bind; [apply windowed_next_bytes; (done || lia)|]. intros b. apply windowed_ret.
Qed.

Lemma windowed_u32 omit : windowed (deserialize_u32 omit).
Proof.
  apply windowed_get; intros d1 d2 Hs; pose proof Hs as (_&Hr&?&?&_); [by rewrite Hr|].
  destruct omit; cbn [negb andb orb]; case_bool_decide; try case_bool_decide; cbn [orb]; try (by apply windowed_ret).
  - apply (windowed_at_ext _ (bs ← next_bytes 3; mret (Some (VSOMEIP_BYTES_TO_LONG 0 (nth 0 bs 0) (nth 1 bs 0) (nth 2 bs 0))))).
    + intros d. cbn [next_bytes]. st_run. destruct (next_byte d) as [[b0 e0]| | |]; cbn; try done.
      destruct (next_byte e0) as [[b1 e1]| | |]; cbn; try done. by destruct (next_byte e1) as [[b2 e2]| | |].
    + apply windowed_at_bind; [apply windowed_next_bytes; (done || lia)|]. intros b. apply windowed_ret.
  - apply (windowed_at_ext _ (bs ← next_bytes 4;
      mret (Some (VSOMEIP_BYTES_TO_LONG (nth 0 bs 0) (nth 1 bs 0) (nth 2 bs 0) (nth 3 bs 0))))).
    + intros d. cbn [next_bytes]. st_run. destruct (next_byte d) as [[b0 e0]| | |]; cbn; try done.
      destruct (next_byte e0) as [[b1 e1]| | |]; cbn; try done. destruct (next_byte e1) as [[b2 e2]| | |]; cbn; try done.
      by destruct (next_byte e2) as [[b3 e3]| | |].
    + apply windowed_at_bind; [apply windowed_next_bytes; (done || lia)|]. intros b. apply windowed_ret.
Qed.

Lemma windowed_array n : 0 ≤ n → windowed (deserialize_array n).
Proof.
  intros Hn. apply windowed_get; intros d1 d2 Hs; pose proof Hs as (_&Hr&?&?&_); [by rewrite Hr|].
  case_bool_decide; [by apply windowed_ret|]. apply windowed_block; (done || lia).
Qed.

Lemma windowed_string capacity n : 0 ≤ n → windowed (deserialize_string capacity n).
Proof.
  intros Hn. apply windowed_get; intros d1 d2 Hs; pose proof Hs as (_&Hr&?&?&_); [by rewrite Hr|].
  case_bool_decide; cbn [orb]; [by apply windowed_ret|]. case_bool_decide; [by apply windowed_ret|].
  apply windowed_block; (done || lia).
Qed.

Create HintDb window.
#[local] Hint Resolve windowed_ret windowed_try windowed_read_or windowed_u8 windowed_u16 windowed_u32 : window.

(** A chain of reads. *)
Local Ltac windowed := repeat
  lazymatch goal with
  | |- windowed (_ ≫= _) => apply windowed_bind; [|intros ?]
  | |- windowed (let '(_, _) := ?p in _) => destruct p; cbv beta iota
  | |- windowed (if ?b then _ else _) => destruct b
  | |- windowed (st_modify _) => by apply windowed_close
  | |- windowed _ => solve [eauto with window]
  end.

Lemma windowed_header h : windowed (message_header_deserialize h).
Proof. unfold message_header_deserialize. windowed. Qed.
Lemma windowed_entry_base e : windowed (entry_base_deserialize e).
Proof. unfold entry_base_deserialize. windowed. Qed.
#[local] Hint Resolve windowed_header windowed_entry_base : window.

Lemma windowed_entry x : windowed (entry_deserialize x).
Proof. destruct x; cbn [entry_deserialize]; unfold serviceentry_deserialize, eventgroupentry_deserialize; windowed. Qed.

Lemma windowed_option_base b : windowed (option_base_deserialize b).
Proof. unfold option_base_deserialize. windowed. Qed.
#[local] Hint Resolve windowed_entry windowed_option_base windowed_array : window.
#[local] Hint Extern 1 (0 ≤ _) => lia : window.

Lemma windowed_config_loop fuel : ∀ ok c, windowed (config_loop fuel ok c).
Proof.
  induction fuel as [|fuel IH]; intros ok c; cbn [config_loop]; [done|].
  apply windowed_bind; [windowed|]. intros [ok1 n]. case_bool_decide as Hn; [|windowed].
  apply windowed_bind; [apply windowed_try, windowed_string; lia|]. intros [ok2 item]. destruct (split_item item) as [k v].
  destruct (if ok2 then _ else _) as [ok3 c3].
  apply windowed_get; intros d1 d2 Hs; pose proof Hs as (_&Hr&_); [by rewrite Hr|].
  destruct (ok3 && _); [by apply IH|by apply windowed_ret].
Qed.

Lemma windowed_selective_loop uninit fuel : ∀ i len ok cs, windowed (selective_loop uninit fuel i len ok cs).
Proof.
  induction fuel as [|fuel IH]; intros i len ok cs; cbn [selective_loop]; [done|].
  case_bool_decide; [|windowed]. apply windowed_bind; [windowed|]. intros r. apply IH.
Qed.

Lemma windowed_option uninit o : windowed (option_deserialize uninit o).
Proof.
  destruct o; cbn [option_deserialize];
    unfold configuration_option_deserialize, load_balancing_option_deserialize, protection_option_deserialize,
      ipv4_option_deserialize, ipv6_option_deserialize, ip_option_deserialize, selective_option_deserialize.
  - windowed.
  - apply windowed_bind; [|intros [? [? ?]]; windowed]. apply windowed_bind; [windowed|]. intros [ok b'].
    apply windowed_get; intros d1 d2 Hs; pose proof Hs as (_&Hr&_); [by rewrite Hr|].
    apply windowed_bind; [apply windowed_config_loop|intros [? ?]; windowed|done].
  - windowed.
  - windowed.
  - windowed.
  - windowed.
  - apply windowed_bind; [|intros [? [? ?]]; windowed]. apply windowed_bind; [windowed|]. intros [ok b'].
    destruct ok; [|windowed]. apply windowed_bind; [apply windowed_selective_loop|intros [? ?]; windowed].
Qed.

(** ** The arrays of entries and options *)

Lemma look_ahead_same i d1 d2 : same d1 d2 → 0 ≤ i < remaining_ d1 → look_ahead_u8 i d1 = look_ahead_u8 i d2.
Proof.
  intros Hs Hi. destruct (same_wf d1 d2 Hs) as [W1 W2]. pose proof Hs as (_&Hr&_).
  destruct (look_ahead_u8_window i d1 W1 Hi) as (b1&->&V1).
  destruct (look_ahead_u8_window i d2 W2) as (b2&->&V2); [lia|].
  rewrite (same_avail d1 d2 Hs), V2 in V1. by injection V1 as <-.
Qed.

Lemma windowed_deserialize_entry d1 d2 : same d1 d2 → remaining_ d1 ≠ 0 → windowed_at deserialize_entry d1 d2.
Proof.
  intros Hs Hr. pose proof Hs as (_&_&_&?&_). apply windowed_at_get.
  { by rewrite (look_ahead_same 0 d1 d2) by (done || lia). }
  destruct (look_ahead_u8_window 0 d1) as (b&Hb&_); [by apply (same_wf d1 d2)|lia|]. rewrite Hb.
  apply windowed_at_bind.
  - intros x d1' [= <- <-]. exists d2. split_and!; [done..|]. by apply advanced_refl, (same_wf d1 d2).
  - intros r. destruct (r ≫= entry_new_of_type); windowed.
Qed.

Lemma windowed_entries_loop fuel : ∀ ok acc, windowed (entries_loop fuel ok acc).
Proof.
  induction fuel as [|fuel IH]; intros ok acc; cbn [entries_loop]; [done|].
  apply windowed_get; intros d1 d2 Hs; pose proof Hs as (_&Hr&_); unfold get_remaining; [by rewrite Hr|].
  destruct ok; cbn [andb]; [|by apply windowed_ret]. case_bool_decide; [|by apply windowed_ret].
  apply windowed_at_bind; [by apply windowed_deserialize_entry|]. intros [x|]; apply IH.
Qed.

(** Both calls return the same, if both return. *)
Definition agree_at {A} (m : ST deserializer A) (d1 d2 : deserializer) : Prop :=
  ∀ x1 x2 d1' d2', m d1 = Ret (x1, d1') → m d2 = Ret (x2, d2') → x1 = x2.

Lemma agree_windowed {A} (m : ST deserializer A) d1 d2 : windowed_at m d1 d2 → agree_at m d1 d2.
Proof. intros Hm x1 x2 d1' d2' E1 E2. destruct (Hm x1 d1' E1) as (d2''&E2'&_). by rewrite E2' in E2; injection E2 as <- _. Qed.

Lemma agree_bind {A B} (m : ST deserializer A) (k : A → ST deserializer B) d1 d2 : windowed_at m d1 d2 →
  (∀ a d1' d2', m d1 = Ret (a, d1') → m d2 = Ret (a, d2') → same d1' d2' → advanced d1 d1' → agree_at (k a) d1' d2') →
  agree_at (m ≫= k) d1 d2.
Proof.
  intros Hm Hk x1 x2 e1 e2 E1 E2. apply st_bind_inv in E1 as (a&d1'&F1&G1). apply st_bind_inv in E2 as (a2&d2'&F2&G2).
  destruct (Hm a d1' F1) as (d2''&F2'&Hs&Ha). rewrite F2' in F2. injection F2 as <- <-. by eapply Hk.
Qed.

Lemma agree_map {A B} (m : ST deserializer A) (f : A → B) d1 d2 : agree_at m d1 d2 → agree_at (m ≫= λ a, mret (f a)) d1 d2.
Proof.
  intros Hm x1 x2 e1 e2 E1 E2. apply st_bind_inv in E1 as (a&d1'&F1&[= <- <-]).
  apply st_bind_inv in E2 as (a2&d2'&F2&[= <- <-]). f_equal. by eapply Hm.
Qed.

(** An option of which fewer than four bytes are left is not read, whatever its type. *)
Lemma short_option uninit d r d' : d_wf d → remaining_ d < 4 → deserialize_option uninit d = Ret (r, d') → r = None.
Proof.
  intros Hd Hr E. destruct (decide (remaining_ d = 0)) as [Hz|Hz].
  - destruct r as [o|]; [|done]. exfalso. revert E. unfold deserialize_option. intros E.
    apply st_bind_inv in E as (?&?&[= <- <-]&E). apply st_bind_inv in E as (t&d1&Et&E).
    assert (d1 = d) as -> by (revert Et; st_run; by destruct (look_ahead_u8 2 d); [intros [= _ <-]|..]).
    destruct t as [t|]; [|done]. apply st_bind_inv in E as ([ok o']&d2&Eo&E). destruct ok; [|done].
    destruct (reader_option uninit (option_new_of_type t)) with d as (ok&a&d3&E3&A3&Hc); [|done|].
    { unfold option_new_of_type. repeat case_bool_decide; done. }
    rewrite E3 in Eo. injection Eo as -> -> ->. destruct Hc as [_ Hc]; [done|]. destruct A3 as (_&_&?&_). lia.
  - destruct (deserialize_option_bounded uninit d Hd Hz) as [(r'&d1&E'&A&Hc)|[E' _]]; [|by rewrite E' in E].
    rewrite E' in E. injection E as <- <-. destruct r' as [o|]; [|done]. specialize (Hc ltac:(by eexists)).
    destruct A as (_&_&?&_). lia.
Qed.

Lemma option_cases uninit d1 d2 : same d1 d2 → remaining_ d1 ≠ 0 →
  windowed_at (deserialize_option uninit) d1 d2 ∨
  (∀ r d', deserialize_option uninit d1 = Ret (r, d') → r = None) ∧
  (∀ r d', deserialize_option uninit d2 = Ret (r, d') → r = None).
Proof.
  intros Hs Hr. pose proof Hs as (_&Hr2&_). destruct (same_wf d1 d2 Hs) as [W1 W2].
  destruct (decide (remaining_ d1 < 3)) as [Hlt|Hge].
  { right. split; intros r d'; apply short_option; (done || lia). }
  left. apply windowed_at_get; [by rewrite (look_ahead_same 2 d1 d2) by (done || lia)|].
  destruct (look_ahead_u8_window 2 d1 W1) as (b&Hb&_); [lia|]. rewrite Hb.
  apply windowed_at_bind.
  - intros x d1' [= <- <-]. exists d2. split_and!; [done..|]. by apply advanced_refl.
  - intros [t|]; [|windowed]. apply windowed_bind; [apply windowed_option|]. intros [ok o]. windowed.
Qed.

Lemma options_loop_agree uninit addr fuel : ∀ ok acc d1 d2, same d1 d2 →
  agree_at (options_loop uninit addr fuel ok acc) d1 d2.
Proof.
  induction fuel as [|fuel IH]; intros ok acc d1 d2 Hs; cbn [options_loop]; [done|].
  intros x1 x2 e1 e2. rewrite (st_bind_Ret st_get _ d1 d1 d1), (st_bind_Ret st_get _ d2 d2 d2) by done.
  pose proof Hs as (_&Hr&_). unfold get_remaining. rewrite <- Hr. destruct ok; cbn [andb]; [|by intros [= <- _] [= <- _]].
  case_bool_decide as Hz; [|by intros [= <- _] [= <- _]].
  destruct (option_cases uninit d1 d2 Hs Hz) as [Hw|[H1 H2]].
  - apply agree_bind; [done|]. intros [o|] d1' d2' _ _ Hs' _; by apply IH.
  - intros E1 E2. apply st_bind_inv in E1 as (r1&d1'&F1&G1). apply st_bind_inv in E2 as (r2&d2'&F2&G2).
    rewrite (H1 _ _ F1) in G1. rewrite (H2 _ _ F2) in G2. destruct fuel as [|fuel]; [done|].
    cbn [options_loop] in G1, G2. apply st_bind_inv in G1 as (?&?&[= <- <-]&[= <- _]).
    by apply st_bind_inv in G2 as (?&?&[= <- <-]&[= <- _]).
Qed.

(** ** The message *)

Lemma agree_get {A} (k : deserializer → ST deserializer A) d1 d2 :
  k d1 = k d2 → agree_at (k d1) d1 d2 → agree_at (st_get ≫= k) d1 d2.
Proof. intros E Hk x1 x2 e1 e2 E1 E2. apply (Hk x1 x2 e1 e2); [exact E1|]. rewrite E. exact E2. Qed.
Lemma agree_modify {A} f (k : () → ST deserializer A) d1 d2 :
  agree_at (k ()) (f d1) (f d2) → agree_at (st_modify f ≫= k) d1 d2.
Proof. done. Qed.
Lemma agree_ret {A} (a : A) d1 d2 : agree_at (mret a) d1 d2.
Proof. by intros x1 x2 e1 e2 [= <- _] [= <- _]. Qed.

(** The window of the entries is left for the rest of the message. *)
Lemma same_leave el r d1 d2 e1 e2 : same d1 d2 → 0 ≤ el ≤ r → r ≤ remaining_ d1 →
  same e1 e2 → advanced (set_remaining el d1) e1 → same (set_remaining (r - el) e1) (set_remaining (r - el) e2).
Proof.
  intros (_&_&?&?&?&_) ? ? He (_&?&?&?). cbn in *. apply same_set_remaining; [done|lia|]. lia.
Qed.

(** The options are read after their length. *)
Lemma options_agree uninit addr ok (m : sd_message) h f es d1 d2 : is_u32 (options_length_ m) → same d1 d2 →
  agree_at ('(ok, options_length) ← st_try ok (options_length_ m) (deserialize_u32 false);
      _ ← st_modify (λ d, if bool_decide (get_remaining d > options_length) then set_remaining options_length d else d);
      d ← st_get;
      options ← options_loop uninit addr (rounds d) true (options_ m);
      mret (ok, SdMessage h f options_length es options 0)) d1 d2.
Proof.
  intros Hm Hs. apply agree_bind; [by apply windowed_try; [apply windowed_u32|]|].
  intros [ok' ol] a b E _ Hab _. apply st_try_u32_range in E as Hol; [|done].
  apply agree_modify. pose proof Hab as (_&Hr&?&?&?&_). unfold get_remaining. rewrite <- Hr.
  assert (∀ a b, same a b → agree_at (d ← st_get; options ← options_loop uninit addr (rounds d) true (options_ m);
    mret (ok', SdMessage h f ol es options 0)) a b) as Hloop.
  { intros a' b' Hs'. apply agree_get; [unfold rounds, get_remaining; by destruct Hs' as (_&->&_)|].
    by apply agree_map, options_loop_agree. }
  case_bool_decide; apply Hloop; [|done]. apply same_set_remaining; [done|width_lia|lia].
Qed.

Lemma sd_deserialize_agree uninit addr m d1 d2 : is_u32 (options_length_ m) → same d1 d2 →
  agree_at (sd_deserialize uninit addr m) d1 d2.
Proof.
  intros Hm Hs. unfold sd_deserialize.
  apply agree_bind; [by apply windowed_header|]. intros [ok1 h] a1 b1 _ _ H1 _.
  apply agree_bind; [by apply windowed_try; [apply windowed_u8|]|]. intros [ok2 f] a2 b2 _ _ H2 _.
  apply agree_bind; [by apply windowed_try; [apply windowed_u32|]|]. intros [ok3 rv] a3 b3 _ _ H3 _.
  apply agree_bind; [by apply windowed_try; [apply windowed_u32|]|]. intros [ok4 el] a4 b4 E4 _ H4 _.
  apply st_try_u32_range in E4 as Hel; [|done]. pose proof H4 as (_&Hr4&?&?&?&_).
  apply agree_get; [unfold get_remaining; by rewrite Hr4|]. unfold get_remaining.
  assert (0 ≤ u32 (remaining_ a4) ≤ remaining_ a4) as Hu by (unfold u32; split; [by apply Z.mod_pos_bound|by apply Z.mod_le]).
  destruct ok4; cbn [negb]; [|apply agree_ret]. case_bool_decide as Hlen; [apply agree_ret|].
  assert (0 ≤ el ≤ u32 (remaining_ a4)) as Hel4 by width_lia.
  apply agree_modify. assert (same (set_remaining el a4) (set_remaining el b4)) as Hw
    by (apply same_set_remaining; [done|lia..]).
  apply agree_get; [done|]. apply agree_bind; [by apply windowed_entries_loop|]. intros [ok5 es] a5 b5 _ _ Hs5 A5.
  apply agree_modify. pose proof (same_leave el _ _ _ _ _ H4 Hel4 (proj2 Hu) Hs5 A5) as Hs6.
  apply agree_get; [done|]. unfold get_remaining. cbn [set_remaining remaining_].
  case_bool_decide; [apply agree_ret|]. by apply options_agree.
Qed.
End windows.

(** * Reading a datagram *)

(** The received bytes, with others behind them that are not to be read. *)
Definition followed_by (rest bs : list Z) (threshold : Z) : deserializer :=
  set_remaining (Z.of_nat (length bs)) (deserializer_of (bs ++ rest) threshold).

Lemma followed_by_nil bs threshold : followed_by [] bs threshold = deserializer_of bs threshold.
Proof. unfold followed_by, deserializer_of, set_remaining. cbn. by rewrite app_nil_r. Qed.

Lemma followed_by_wf rest bs threshold : d_wf (followed_by rest bs threshold).
Proof. unfold d_wf, followed_by. cbn. rewrite length_app. lia. Qed.

Lemma followed_by_same rest rest' bs threshold :
  same (length bs) (followed_by rest bs threshold) (followed_by rest' bs threshold).
Proof.
  unfold same, followed_by. cbn. rewrite !length_app, !take_app_length. split_and!; (done || lia).
Qed.

Lemma sd_message_agree uninit addr limit d1 d2 : same limit d1 d2 → agree_at (deserialize_sd_message uninit addr) d1 d2.
Proof.
  intros Hs x1 x2 e1 e2 E1 E2. unfold deserialize_sd_message in *.
  apply st_bind_inv in E1 as ([ok m]&d1'&F1&[= <- _]). apply st_bind_inv in E2 as ([ok' m']&d2'&F2&[= <- _]).
  assert (Ee := sd_deserialize_agree limit uninit addr sd_message_new d1 d2 ltac:(done) Hs _ _ _ _ F1 F2). by injection Ee as <- <-.
Qed.

(** C40: reading a received datagram as a service discovery message ends, whatever the bytes
    are.  It returns in the buffer, or reads behind it, in search of the type of an option:
    then at most two bytes behind the datagram are read, and they do not matter.  That is,
    there is one result such that reading the datagram with any two or more bytes behind it
    in memory returns this result, within the datagram, and reading it without them returns
    it too, or is undefined behaviour. *)
Theorem sd_reading_ends uninit addr bs threshold : Z.of_nat (length bs) < 2 ^ 32 →
  ∃ r, (∀ rest, (2 ≤ length rest)%nat → ∃ d', deserialize_sd_message uninit addr (followed_by rest bs threshold) = Ret (r, d') ∧
         advanced (followed_by rest bs threshold) d') ∧
    (deserialize_sd_message uninit addr (deserializer_of bs threshold) = Undef ∨
     ∃ d', deserialize_sd_message uninit addr (deserializer_of bs threshold) = Ret (r, d') ∧
       advanced (deserializer_of bs threshold) d').
Proof.
  intros Hlen.
  assert (∀ rest, (2 ≤ length rest)%nat → ∃ r d', deserialize_sd_message uninit addr (followed_by rest bs threshold) = Ret (r, d') ∧
    advanced (followed_by rest bs threshold) d') as Hret.
  { intros rest Hr. destruct (deserialize_sd_message_ends uninit addr (followed_by rest bs threshold)) as [H|[_ H]];
      [apply followed_by_wf|done|done|]. destruct H. unfold slack, followed_by. cbn. rewrite length_app. lia. }
  destruct (Hret [0; 0]) as (r&d0&E0&_); [cbn; lia|]. exists r. split.
  - intros rest Hr. destruct (Hret rest Hr) as (r'&d'&E'&A'). exists d'.
    by rewrite (sd_message_agree uninit addr _ _ _ (followed_by_same [0; 0] rest bs threshold) _ _ _ _ E0 E').
  - rewrite <- followed_by_nil.
    destruct (deserialize_sd_message_ends uninit addr (followed_by [] bs threshold)) as [(r'&d'&E'&A')|[E' _]];
      [apply followed_by_wf|done| |by left].
    right. exists d'. by rewrite (sd_message_agree uninit addr _ _ _ (followed_by_same [0; 0] [] bs threshold) _ _ _ _ E0 E').
Qed.

(** A message of which the options are cut off one byte after an option. *)
Lemma sd_reading_ends_witness :
  let bs := sd_head_wire sample_sd_message 13 ++ options_wire (options_ sample_sd_message) ++ [0] in
  deserialize_sd_message 0 Z.of_nat (deserializer_of bs 0) = Undef ∧
  ∃ r, ∀ rest, (2 ≤ length rest)%nat → ∃ d', deserialize_sd_message 0 Z.of_nat (followed_by rest bs 0) = Ret (r, d') ∧
    advanced (followed_by rest bs 0) d'.
Proof.
  intros bs. split; [vm_compute; reflexivity|].
  destruct (sd_reading_ends 0 Z.of_nat bs 0) as (r&H&_); [vm_compute; reflexivity|]. exists r. exact H.
Defined.
