(* ===== verification/Tp.v ===== *)
(** Segmentation of large messages: [endpoints/include/tp.hpp] and
    [endpoints/src/tp.cpp]. *)
From S2P Require Import Prelude ByteOrder Message.

(** * Constants *)

Definition VSOMEIP_MAX_UDP_MESSAGE_SIZE : Z := 1416.
Definition VSOMEIP_LENGTH_POS_MIN : Z := 4.
Definition VSOMEIP_LENGTH_POS_MAX : Z := 7.
Definition VSOMEIP_MESSAGE_TYPE_POS : Z := 14.
Definition VSOMEIP_RETURN_CODE_POS : Z := 15.
Definition VSOMEIP_TP_HEADER_SIZE : Z := 4.
Definition VSOMEIP_TP_HEADER_POS_MIN : Z := 16.
Definition VSOMEIP_TP_HEADER_POS_MAX : Z := 19.
Definition VSOMEIP_TP_PAYLOAD_POS : Z := 20.
Definition TP_FLAG : Z := 0x20.
Definition tp_max_segment_length_ : Z := 1392.

(** * Header fields *)

Definition get_offset (tp_header : Z) : Z := Z.land tp_header 0xfffffff0.
Definition more_segments (tp_header : Z) : bool := bool_decide (Z.land tp_header 0x1 ≠ 0).
Definition tp_flag_is_set (msg_type : Z) : bool := bool_decide (Z.land msg_type TP_FLAG ≠ 0).
Definition tp_flag_set (msg_type : Z) : Z := Z.lor msg_type TP_FLAG.
Definition tp_flag_unset (msg_type : Z) : Z := u8 (Z.land msg_type (Z.lnot TP_FLAG)).

(** A 32-bit value stored in network byte order over four bytes of a buffer:
    [*reinterpret_cast<uint32_t *>(&l[i]) = htonl(v)]. *)
Definition put_u32 (l : list Z) (i v : Z) : outcome (list Z) :=
  l ← vset l i (VSOMEIP_LONG_BYTE3 v);
  l ← vset l (i + 1) (VSOMEIP_LONG_BYTE2 v);
  l ← vset l (i + 2) (VSOMEIP_LONG_BYTE1 v);
  vset l (i + 3) (VSOMEIP_LONG_BYTE0 v).

(** Setting and clearing the flag of a type that does not have it. *)
Lemma tp_flag_unset_clear t : is_u8 t → tp_flag_is_set t = false →
  tp_flag_unset t = t ∧ tp_flag_unset (Z.lor t TP_FLAG) = t.
Proof.
  intros Hb Hflag. apply bool_decide_eq_false in Hflag.
  assert (H5 : Z.testbit t 5 = false).
  { apply dec_stable in Hflag. assert (Ht := f_equal (λ z, Z.testbit z 5) Hflag).
    revert Ht. cbv beta. unfold TP_FLAG. by rewrite Z.land_spec, Z.bits_0, andb_true_r. }
  assert (Hbit : ∀ i, i ≠ 5 → Z.testbit TP_FLAG i = false).
  { intros i Hne. unfold TP_FLAG. change 32 with (2 ^ 5). by apply Z.pow2_bits_false. }
  unfold tp_flag_unset.
  assert (E : Z.land t (Z.lnot TP_FLAG) = t).
  { apply Z.bits_inj'. intros i Hi. rewrite Z.land_spec, Z.lnot_spec by done.
    destruct (decide (i = 5)) as [->|Hne]; [by rewrite H5|].
    by rewrite Hbit, andb_true_r by done. }
  assert (E' : Z.land (Z.lor t TP_FLAG) (Z.lnot TP_FLAG) = t).
  { apply Z.bits_inj'. intros i Hi. rewrite Z.land_spec, Z.lor_spec, Z.lnot_spec by done.
    destruct (decide (i = 5)) as [->|Hne]; [by rewrite H5|].
    by rewrite Hbit, orb_false_r, andb_true_r by done. }
  rewrite E, E', u8_id by done. done.
Qed.

(** * Splitting a message *)

(** One round of the loop: the segment that starts at [current_offset] of the
    buffer and the offset of the next one. *)
Definition tp_split_step (data : list Z) (current_offset : Z) : outcome (list Z * Z) :=
  let data_end := Z.of_nat (length data) in
  msg ← vrange data 0 VSOMEIP_FULL_HEADER_SIZE;
  type ← vget msg VSOMEIP_MESSAGE_TYPE_POS;
  msg ← vset msg VSOMEIP_MESSAGE_TYPE_POS (Z.lor type 0x20);
  let segment_end := current_offset + tp_max_segment_length_ in
  let is_last_segment := bool_decide (segment_end >= data_end) in
  let header := Z.lor (u32 (current_offset - VSOMEIP_FULL_HEADER_SIZE))
                      (if is_last_segment then 0x0 else 0x1) in
  let msg := msg ++ be32 header in
  payload ← vrange data current_offset (if is_last_segment then data_end else segment_end);
  let msg := msg ++ payload in
  let next := if is_last_segment then data_end else current_offset + tp_max_segment_length_ in
  let its_length := u32 (Z.of_nat (length msg) - VSOMEIP_SOMEIP_HEADER_SIZE) in
  msg ← put_u32 msg VSOMEIP_LENGTH_POS_MIN its_length;
  Ret (msg, next).

Fixpoint tp_split_loop (fuel : nat) (data : list Z) (current_offset : Z) :
    outcome (list (list Z)) :=
  match fuel with
  | O => NoFuel
  | S fuel =>
      if bool_decide (current_offset < Z.of_nat (length data)) then
        '(msg, next) ← tp_split_step data current_offset;
        rest ← tp_split_loop fuel data next;
        Ret (msg :: rest)
      else Ret []
  end.

(** [_size] is the length of the buffer. *)
Definition tp_split_message (data : list Z) : outcome (list (list Z)) :=
  if bool_decide (Z.of_nat (length data) < VSOMEIP_MAX_UDP_MESSAGE_SIZE) then Ret []
  else tp_split_loop (S (length data)) data VSOMEIP_FULL_HEADER_SIZE.

(** * The segments of a message *)

(** The reference definition: the payload is cut into chunks of 1392 bytes, and a
    segment is the header of the message with its length and type replaced, the
    offset with the bit for further segments, and its chunk. *)
Definition tp_payload (data : list Z) : list Z := drop 16 data.
Definition tp_count (payload : list Z) : nat := ((length payload + 1391) `div` 1392)%nat.
Definition tp_chunk (payload : list Z) (k : nat) : list Z :=
  take 1392 (drop (1392 * k) payload).
Definition tp_header_of (payload : list Z) (k : nat) : Z :=
  1392 * Z.of_nat k + (if bool_decide (S k < tp_count payload)%nat then 1 else 0).
Definition tp_segment (data : list Z) (k : nat) : list Z :=
  let payload := tp_payload data in
  take 4 data ++
  be32 (12 + Z.of_nat (length (tp_chunk payload k))) ++
  take 6 (drop 8 data) ++ [Z.lor (nth 14 data 0) TP_FLAG] ++ [nth 15 data 0] ++
  be32 (tp_header_of payload k) ++
  tp_chunk payload k.

(** ** Buffers with a header *)

Lemma vset_ret l i x : 0 ≤ i < Z.of_nat (length l) → vset l i x = Ret (<[Z.to_nat i := x]> l).
Proof. intros Hi. unfold vset. by rewrite bool_decide_true. Qed.

Lemma put_u32_app a x0 x1 x2 x3 b v :
  put_u32 (a ++ [x0; x1; x2; x3] ++ b) (Z.of_nat (length a)) v = Ret (a ++ be32 v ++ b).
Proof.
  unfold put_u32.
  do 4 (rewrite vset_ret by (rewrite ?length_insert, length_app; cbn [length app]; lia);
        cbn [outcome_mbind outcome_bind mbind]).
  f_equal. rewrite !insert_app_r_alt by lia.
  replace (Z.to_nat (Z.of_nat (length a)) - length a)%nat with 0%nat by lia.
  replace (Z.to_nat (Z.of_nat (length a) + 1) - length a)%nat with 1%nat by lia.
  replace (Z.to_nat (Z.of_nat (length a) + 2) - length a)%nat with 2%nat by lia.
  replace (Z.to_nat (Z.of_nat (length a) + 3) - length a)%nat with 3%nat by lia.
  done.
Qed.

(** A buffer of at least sixteen bytes, by name. *)
Lemma header_view (data : list Z) : (16 ≤ length data)%nat →
  ∃ h0 h1 h2 h3 h4 h5 h6 h7 h8 h9 h10 h11 h12 h13 h14 h15 p,
    data = h0 :: h1 :: h2 :: h3 :: h4 :: h5 :: h6 :: h7 :: h8 :: h9 :: h10 :: h11 :: h12 ::
           h13 :: h14 :: h15 :: p.
Proof.
  intros H. do 16 (destruct data as [|? data]; [cbn in H; lia|]). repeat eexists.
Qed.

Lemma vrange_drop l from to : 0 ≤ from ≤ to → to ≤ Z.of_nat (length l) →
  vrange l from to = Ret (take (Z.to_nat (to - from)) (drop (Z.to_nat from) l)).
Proof. intros. unfold vrange. by rewrite bool_decide_true. Qed.

(** ** Chunks *)

Lemma tp_count_spec (payload : list Z) k :
  (k < tp_count payload)%nat ↔ (1392 * k < length payload)%nat.
Proof.
  unfold tp_count. split; intros H.
  - assert (1392 * k < length payload ∨ length payload ≤ 1392 * k)%nat as [|Hle] by lia; [done|].
    assert ((length payload + 1391) `div` 1392 < S k)%nat; [|lia].
    apply Nat.Div0.div_lt_upper_bound. lia.
  - apply Nat.div_le_lower_bound; lia.
Qed.

Lemma length_tp_chunk payload k :
  length (tp_chunk payload k) = (1392 `min` (length payload - 1392 * k))%nat.
Proof. unfold tp_chunk. rewrite length_take, length_drop. lia. Qed.

Lemma tp_offset_lor k (b : Z) : 0 ≤ b < 2 →
  Z.lor (1392 * Z.of_nat k) b = 1392 * Z.of_nat k + b.
Proof.
  intros Hb. replace (1392 * Z.of_nat k) with (Z.shiftl (87 * Z.of_nat k) 4).
  - rewrite lor_shiftl_add by lia. rewrite Z.shiftl_mul_pow2 by lia. lia.
  - rewrite Z.shiftl_mul_pow2 by lia. lia.
Qed.

Lemma tp_split_step_segment data k :
  (16 ≤ length data)%nat → Z.of_nat (length data) < 2 ^ 32 →
  (k < tp_count (tp_payload data))%nat →
  tp_split_step data (16 + 1392 * Z.of_nat k) =
    Ret (tp_segment data k,
         Z.min (16 + 1392 * Z.of_nat (S k)) (Z.of_nat (length data))).
Proof.
  intros Hl Hmax Hk. apply tp_count_spec in Hk as Hk'.
  destruct (header_view data Hl) as (h0&h1&h2&h3&h4&h5&h6&h7&h8&h9&h10&h11&h12&h13&h14&h15&p&E).
  assert (Hp : tp_payload data = p) by (by rewrite E).
  assert (Hlen : length data = (16 + length p)%nat) by (by rewrite E).
  rewrite Hp in *. unfold tp_split_step, tp_max_segment_length_, VSOMEIP_FULL_HEADER_SIZE,
    VSOMEIP_MESSAGE_TYPE_POS, VSOMEIP_LENGTH_POS_MIN, VSOMEIP_SOMEIP_HEADER_SIZE.
  rewrite (vrange_drop data 0 16) by lia. rewrite outcome_bind_Ret.
  assert (Et : take (Z.to_nat (16 - 0)) (drop (Z.to_nat 0) data) =
    [h0; h1; h2; h3; h4; h5; h6; h7; h8; h9; h10; h11; h12; h13; h14; h15]) by (by rewrite E).
  rewrite Et. clear Et.
  change (vget _ 14) with (Ret h14 : outcome Z) at 1. rewrite outcome_bind_Ret.
  change (vset _ 14 _) with
    (Ret [h0; h1; h2; h3; h4; h5; h6; h7; h8; h9; h10; h11; h12; h13; Z.lor h14 32; h15]) at 1.
  rewrite outcome_bind_Ret.
  set (last := bool_decide (_ >= _)).
  assert (Hlast : last = negb (bool_decide (S k < tp_count p)%nat)).
  { apply eq_true_iff_eq. unfold last. rewrite negb_true_iff, bool_decide_eq_true,
      bool_decide_eq_false, tp_count_spec. lia. }
  assert (Hpl : vrange data (16 + 1392 * Z.of_nat k)
      (if last then Z.of_nat (length data) else 16 + 1392 * Z.of_nat k + 1392) = Ret (tp_chunk p k)).
  { destruct last eqn:El; subst last.
    - apply bool_decide_eq_true in El. rewrite vrange_drop by lia. f_equal. unfold tp_chunk.
      rewrite <- Hp. unfold tp_payload. rewrite drop_drop, !take_ge; [f_equal; lia|..];
        rewrite length_drop; lia.
    - apply bool_decide_eq_false in El. rewrite vrange_drop by lia. f_equal. unfold tp_chunk.
      rewrite <- Hp. unfold tp_payload. rewrite drop_drop. f_equal; [lia|]. f_equal. lia. }
  rewrite Hpl, outcome_bind_Ret.
  assert (Hhd : Z.lor (u32 (16 + 1392 * Z.of_nat k - 16)) (if last then 0 else 1) = tp_header_of p k).
  { replace (16 + 1392 * Z.of_nat k - 16) with (1392 * Z.of_nat k) by lia.
    rewrite u32_id by width_lia. unfold tp_header_of. rewrite Hlast.
    destruct (bool_decide (S k < _)%nat); apply tp_offset_lor; lia. }
  rewrite Hhd. clear Hhd Hpl.
  assert (Hcl := length_tp_chunk p k).
  set (hdr := be32 (tp_header_of p k)).
  assert (Hh4 : length hdr = 4%nat) by done.
  set (its_length := u32 _).
  assert (Hil : its_length = 12 + Z.of_nat (length (tp_chunk p k))).
  { unfold its_length. rewrite !length_app, Hh4. cbn [length]. width_lia. }
  clearbody its_length. subst its_length.
  pose proof (put_u32_app [h0; h1; h2; h3] h4 h5 h6 h7
    ([h8; h9; h10; h11; h12; h13; Z.lor h14 32; h15] ++ hdr ++ tp_chunk p k)
    (12 + Z.of_nat (length (tp_chunk p k)))) as Hput.
  cbn [app length] in Hput |- *. change (Z.of_nat 4) with 4 in Hput.
  rewrite Hput, outcome_bind_Ret. f_equal. f_equal.
  - unfold tp_segment. rewrite Hp, E. done.
  - rewrite Hlast. case_bool_decide as Hc; rewrite tp_count_spec in Hc; cbn [negb]; lia.
Qed.

Lemma tp_split_loop_segments data : (16 ≤ length data)%nat → Z.of_nat (length data) < 2 ^ 32 →
  ∀ fuel k, (k ≤ tp_count (tp_payload data))%nat →
  (tp_count (tp_payload data) - k < fuel)%nat →
  tp_split_loop fuel data (Z.min (16 + 1392 * Z.of_nat k) (Z.of_nat (length data))) =
    Ret (tp_segment data <$> seq k (tp_count (tp_payload data) - k)).
Proof.
  intros Hl Hmax. induction fuel as [|fuel IH]; intros k Hk Hf; [lia|]. cbn [tp_split_loop].
  assert (Hlen : length data = (16 + length (tp_payload data))%nat).
  { unfold tp_payload. rewrite length_drop. lia. }
  destruct (decide (k < tp_count (tp_payload data))%nat) as [Hlt|Hge].
  - assert (Hk' := Hlt). apply tp_count_spec in Hk'.
    rewrite bool_decide_true by lia. rewrite Z.min_l by lia.
    rewrite tp_split_step_segment, outcome_bind_Ret by done.
    rewrite IH by lia. rewrite outcome_bind_Ret.
    replace (tp_count (tp_payload data) - k)%nat
      with (S (tp_count (tp_payload data) - S k)) by lia. done.
  - assert (Hk' : ¬ (1392 * k < length (tp_payload data))%nat) by (by rewrite <- tp_count_spec).
    rewrite bool_decide_false by lia.
    replace (tp_count (tp_payload data) - k)%nat with 0%nat by lia. done.
Qed.

Lemma tp_count_le payload : (tp_count payload ≤ length payload)%nat.
Proof.
  destruct (decide (length payload < tp_count payload)%nat) as [H|]; [|lia].
  apply tp_count_spec in H. lia.
Qed.

Lemma tp_split_message_segments data :
  1416 ≤ Z.of_nat (length data) < 2 ^ 32 →
  tp_split_message data = Ret (tp_segment data <$> seq 0 (tp_count (tp_payload data))).
Proof.
  intros Hl. unfold tp_split_message, VSOMEIP_MAX_UDP_MESSAGE_SIZE, VSOMEIP_FULL_HEADER_SIZE.
  rewrite bool_decide_false by lia.
  replace 16 with (Z.min (16 + 1392 * Z.of_nat 0) (Z.of_nat (length data))) by lia.
  rewrite tp_split_loop_segments; [by rewrite Nat.sub_0_r|lia|lia|lia|].
  assert (H := tp_count_le (tp_payload data)). unfold tp_payload in *.
  rewrite length_drop in H. lia.
Qed.

(** The chunks put together are the payload. *)
Lemma tp_chunks_join payload : mjoin (tp_chunk payload <$> seq 0 (tp_count payload)) = payload.
Proof.
  enough (H : ∀ n k, mjoin (tp_chunk payload <$> seq k n) =
            take (1392 * n) (drop (1392 * k) payload)).
  { rewrite H. rewrite drop_0, take_ge; [done|].
    assert (H' := tp_count_spec payload (tp_count payload)). lia. }
  induction n as [|n IH]; intros k; cbn [seq]; [done|].
  rewrite fmap_cons, join_cons, IH. unfold tp_chunk.
  replace (1392 * S n)%nat with (1392 + 1392 * n)%nat by lia.
  rewrite <- (take_take_drop (drop (1392 * k) payload) 1392 (1392 * n)), drop_drop.
  do 3 f_equal. lia.
Qed.

(** The offset field is the header without its low four bits. *)
Lemma get_offset_align v : is_u32 v → get_offset v = 16 * (v / 16).
Proof.
  intros Hv. unfold get_offset.
  assert (E : 16 * (v / 16) = Z.shiftl (Z.shiftr v 4) 4).
  { rewrite Z.shiftl_mul_pow2, Z.shiftr_div_pow2 by lia. change (2 ^ 4) with 16. lia. }
  rewrite E. clear E. apply Z.bits_inj'. intros i Hi.
  change 0xfffffff0 with (Z.shiftl (Z.ones 28) 4). rewrite Z.land_spec.
  destruct (decide (i < 4)).
  { rewrite !Z.shiftl_spec_low by done. apply andb_false_r. }
  rewrite !Z.shiftl_spec_high, Z.shiftr_spec by lia. rewrite Z.sub_add.
  destruct (decide (i < 32)).
  - rewrite Z.ones_spec_low by lia. apply andb_true_r.
  - rewrite (testbit_above v 32 i) by (width_lia || lia). done.
Qed.

Lemma land_1 v : Z.land v 1 = v mod 2.
Proof. change 1 with (Z.ones 1). by rewrite Z.land_ones. Qed.

Lemma tp_header_fields (payload : list Z) k :
  Z.of_nat (length payload) < 2 ^ 32 → (k < tp_count payload)%nat →
  is_u32 (tp_header_of payload k) ∧
  get_offset (tp_header_of payload k) = 1392 * Z.of_nat k ∧
  more_segments (tp_header_of payload k) = bool_decide (S k < tp_count payload)%nat.
Proof.
  intros Hmax Hk. apply tp_count_spec in Hk as Hk'.
  assert (Hu : is_u32 (tp_header_of payload k)).
  { unfold tp_header_of. case_bool_decide as Hc; rewrite ?tp_count_spec in Hc; width_lia. }
  split_and!; [done| |].
  - rewrite get_offset_align by done. unfold tp_header_of. case_bool_decide; width_lia.
  - unfold more_segments. rewrite land_1. unfold tp_header_of.
    destruct (bool_decide (S k < tp_count payload)%nat);
      [apply bool_decide_true|apply bool_decide_false]; width_lia.
Qed.

(** * Theorems *)

(** Splitting a message.  A message of at least 1416 bytes is cut, in order, into
    the segments of the reference definition: each repeats the message header with
    the TP flag set and the length of the segment, carries its offset, a multiple of
    16, with the bit for further segments set except on the last, and at most 1392
    bytes; every segment fits a datagram and the payloads put together are the
    payload of the message. *)
Theorem tp_split_message_spec data :
  1416 ≤ Z.of_nat (length data) < 2 ^ 32 →
  let payload := tp_payload data in
  tp_split_message data = Ret (tp_segment data <$> seq 0 (tp_count payload)) ∧
  mjoin (tp_chunk payload <$> seq 0 (tp_count payload)) = payload ∧
  ∀ k, (k < tp_count payload)%nat →
    (20 < length (tp_segment data k) ≤ 1412)%nat ∧
    get_offset (tp_header_of payload k) = 1392 * Z.of_nat k ∧
    more_segments (tp_header_of payload k) = bool_decide (S k < tp_count payload)%nat.
Proof.
  intros Hl payload. split_and!; [by apply tp_split_message_segments|apply tp_chunks_join|].
  intros k Hk. assert (Hk' := Hk). apply tp_count_spec in Hk'.
  assert (Hlen : length payload = (length data - 16)%nat) by apply length_drop.
  split; [|apply tp_header_fields; [lia|done]].
  unfold tp_segment. fold payload. rewrite !length_app, !length_take, length_drop, length_tp_chunk.
  cbn [length be32 be24 app]. lia.
Qed.

Lemma tp_split_message_spec_witness :
  let data := repeat 7 3000 in
  let payload := tp_payload data in
  tp_split_message data = Ret (tp_segment data <$> seq 0 (tp_count payload)) ∧
  mjoin (tp_chunk payload <$> seq 0 (tp_count payload)) = payload ∧
  ∀ k, (k < tp_count payload)%nat →
    (20 < length (tp_segment data k) ≤ 1412)%nat ∧
    get_offset (tp_header_of payload k) = 1392 * Z.of_nat k ∧
    more_segments (tp_header_of payload k) = bool_decide (S k < tp_count payload)%nat.
Proof. apply (tp_split_message_spec (repeat 7 3000)). rewrite repeat_length. lia. Defined.
