(* ===== verification/TpMessage.v ===== *)
(** Reassembly of one segmented message: [endpoints/src/tp_message.cpp].

    The received segments are a [std::set] ordered by [segment_t::operator<], which
    is an order only among segments that do not lie inside one another: for a
    segment strictly inside another each is less than the other.  Inserting into a
    set whose comparison is no strict weak order is undefined, so [emplace] is
    [Undef] there.  Arithmetic on offsets and sizes is 32-bit. *)
From S2P Require Import Prelude ByteOrder Message Tp.

(** * Segments *)

Record segment_t := Segment { start_ : Z; end_ : Z }.

#[export] Instance segment_t_eq_dec : EqDecision segment_t.
Proof. solve_decision. Defined.

Definition segment_lt (s o : segment_t) : bool :=
  bool_decide (start_ s < start_ o)
  || (bool_decide (start_ s >= start_ o) && bool_decide (end_ s < end_ o)).

(** The segments before the place of [k], and the others. *)
Fixpoint seg_split (k : segment_t) (l : list segment_t) : list segment_t * list segment_t :=
  match l with
  | [] => ([], [])
  | s :: l =>
      if segment_lt s k then let '(before, after) := seg_split k l in (s :: before, after)
      else ([], s :: l)
  end.

(** [segments_.emplace(k)]: [None] if an equivalent segment is present, else the
    segments before and after the new one. *)
Definition emplace (k : segment_t) (l : list segment_t) :
    outcome (option (list segment_t * list segment_t)) :=
  if existsb (λ s, segment_lt s k && segment_lt k s) l then Undef
  else
    let '(before, after) := seg_split k l in
    match after with
    | s :: _ => if segment_lt k s then Ret (Some (before, after)) else Ret None
    | [] => Ret (Some (before, after))
    end.

(** The set after an [emplace]. *)
Definition emplaced (k : segment_t) (l : list segment_t) : outcome (list segment_t) :=
  r ← emplace k l;
  Ret (match r with Some (before, after) => before ++ k :: after | None => l end).

(** * The message *)

Record tp_message := TpMessage {
  timepoint_creation_ : Z;
  max_message_size_ : Z;
  current_message_size_ : Z;
  last_segment_received_ : bool;
  segments_ : list segment_t;
  message_ : list Z }.

Definition tp_header_at (data : list Z) : outcome Z :=
  b0 ← vget data VSOMEIP_TP_HEADER_POS_MIN;
  b1 ← vget data (VSOMEIP_TP_HEADER_POS_MIN + 1);
  b2 ← vget data (VSOMEIP_TP_HEADER_POS_MIN + 2);
  b3 ← vget data VSOMEIP_TP_HEADER_POS_MAX;
  Ret (VSOMEIP_BYTES_TO_LONG b0 b1 b2 b3).

Definition check_lengths (data : list Z) (segment_size : Z) (more_fragments : bool)
    (max_message_size current_message_size : Z) : outcome bool :=
  b0 ← vget data VSOMEIP_LENGTH_POS_MIN;
  b1 ← vget data (VSOMEIP_LENGTH_POS_MIN + 1);
  b2 ← vget data (VSOMEIP_LENGTH_POS_MIN + 2);
  b3 ← vget data VSOMEIP_LENGTH_POS_MAX;
  let its_length := VSOMEIP_BYTES_TO_LONG b0 b1 b2 b3 in
  its_tp_header ← tp_header_at data;
  msg_type ← vget data VSOMEIP_MESSAGE_TYPE_POS;
  Ret (
    if negb (tp_flag_is_set msg_type) then false
    else if bool_decide (Z.of_nat (length data) ≠ u32 (its_length + VSOMEIP_SOMEIP_HEADER_SIZE))
    then false
    else if bool_decide (segment_size ≠ u32 (its_length - VSOMEIP_TP_HEADER_SIZE -
                           (VSOMEIP_FULL_HEADER_SIZE - VSOMEIP_SOMEIP_HEADER_SIZE))) then false
    else if bool_decide (segment_size > tp_max_segment_length_) then false
    else if more_fragments && bool_decide (segment_size mod 16 > 0) then false
    else if bool_decide (u32 (current_message_size + segment_size) > max_message_size) then false
    else if bool_decide (u32 (get_offset its_tp_header + segment_size) > max_message_size)
    then false
    else true).

(** The constructor; [now] is the current time. *)
Definition tp_message_new (now : Z) (data : list Z) (max_message_size : Z) : outcome tp_message :=
  let data_length := Z.of_nat (length data) in
  if bool_decide (data_length < VSOMEIP_FULL_HEADER_SIZE + VSOMEIP_TP_HEADER_SIZE) then
    Ret (TpMessage now max_message_size 0 false [] [])
  else
    message ← vrange data 0 VSOMEIP_FULL_HEADER_SIZE;
    type ← vget message VSOMEIP_MESSAGE_TYPE_POS;
    message ← vset message VSOMEIP_MESSAGE_TYPE_POS (tp_flag_unset type);
    let its_segment_size := data_length - VSOMEIP_FULL_HEADER_SIZE - VSOMEIP_TP_HEADER_SIZE in
    its_tp_header ← tp_header_at data;
    ok ← check_lengths data its_segment_size (more_segments its_tp_header) max_message_size 0;
    if (ok : bool) then
      let its_offset := get_offset its_tp_header in
      let segments := [Segment its_offset (u32 (its_offset + its_segment_size - 1))] in
      let message :=
        if bool_decide (its_offset ≠ 0)
        then resize (Z.to_nat (u32 (VSOMEIP_FULL_HEADER_SIZE + its_offset))) 0 message
        else message in
      let last := bool_decide (its_offset ≠ 0) && negb (more_segments its_tp_header) in
      payload ← vrange data VSOMEIP_TP_PAYLOAD_POS (VSOMEIP_TP_PAYLOAD_POS + its_segment_size);
      Ret (TpMessage now max_message_size (u32 (VSOMEIP_FULL_HEADER_SIZE + its_segment_size))
             last segments (message ++ payload))
    else Ret (TpMessage now max_message_size 0 false [] message).

(** [std::memcpy(&dst[di], &src[si], n)]. *)
Definition memcpy (dst : list Z) (di : Z) (src : list Z) (si n : Z) : outcome (list Z) :=
  bs ← vrange src si (si + n);
  if bool_decide (0 ≤ di ∧ di + n ≤ Z.of_nat (length dst))
  then Ret (list_inserts (Z.to_nat di) bs dst)
  else Undef.

(** ** Placing a new segment

    The cases of [add_segment] for a segment [cur] that was inserted between
    [before] and [after]; they return the message, the set and the size. *)

(** The new segment is the last one. *)
Definition place_last (data : list Z) (cur : segment_t) (before : list segment_t) (size : Z)
    (more : bool) (m : tp_message) : outcome tp_message :=
  let '(TpMessage t mx cs lst _ msg) := m in
  match last before with
  | None =>
      (* the first received segment was not accepted *)
      let msg' := if bool_decide (start_ cur ≠ 0)
                  then resize (Z.to_nat (u32 (VSOMEIP_FULL_HEADER_SIZE + start_ cur))) 0 msg
                  else msg in
      let lst' := if bool_decide (start_ cur ≠ 0) && negb more then true else lst in
      payload ← vrange data VSOMEIP_TP_PAYLOAD_POS (VSOMEIP_TP_PAYLOAD_POS + size);
      Ret (TpMessage t mx (u32 (cs + size)) lst' [cur] (msg' ++ payload))
  | Some seg_prev =>
      if bool_decide (end_ seg_prev < start_ cur) then
        let msg' := if bool_decide (u32 (end_ seg_prev + 1) = start_ cur) then msg
                    else resize (Z.to_nat (u32 (VSOMEIP_FULL_HEADER_SIZE + start_ cur))) 0 msg in
        payload ← vrange data VSOMEIP_TP_PAYLOAD_POS (VSOMEIP_TP_PAYLOAD_POS + size);
        Ret (TpMessage t mx (u32 (cs + size)) lst (before ++ [cur]) (msg' ++ payload))
      else
        let skipped := u32 (u32 (end_ seg_prev + 1) - start_ cur) in
        payload ← vrange data (VSOMEIP_TP_PAYLOAD_POS + skipped) (VSOMEIP_TP_PAYLOAD_POS + size);
        segs ← emplaced (Segment (u32 (end_ seg_prev + 1)) (end_ cur)) before;
        Ret (TpMessage t mx (u32 (cs + u32 (end_ cur - end_ seg_prev))) lst segs (msg ++ payload))
  end.

(** Segments behind the new one were already received; [seg_next] is the first of
    [after]. *)
Definition place_between (data : list Z) (cur : segment_t) (before : list segment_t)
    (seg_next : segment_t) (after : list segment_t) (size : Z) (m : tp_message) :
    outcome tp_message :=
  let '(TpMessage t mx cs lst _ msg) := m in
  let pos off := u32 (VSOMEIP_FULL_HEADER_SIZE + off) in
  let copied msg' segs n := Ret (TpMessage t mx (u32 (cs + n)) lst segs msg') in
  let clear_of_prev :=
    match last before with
    | Some seg_prev => bool_decide (end_ seg_prev < start_ cur)
    | None => true
    end in
  if clear_of_prev then
    if bool_decide (end_ cur < start_ seg_next) then
      msg' ← memcpy msg (pos (start_ cur)) data VSOMEIP_TP_PAYLOAD_POS size;
      copied msg' (before ++ cur :: after) size
    else
      let n := u32 (start_ seg_next - start_ cur) in
      msg' ← memcpy msg (pos (start_ cur)) data VSOMEIP_TP_PAYLOAD_POS n;
      segs ← emplaced (Segment (start_ cur) (u32 (start_ seg_next - 1))) (before ++ after);
      copied msg' segs n
  else
    match last before with
    | None => Undef
    | Some seg_prev =>
        let its_corrected_offset := u32 (end_ seg_prev + 1) in
        msg' ← memcpy msg (pos its_corrected_offset) data
                 (VSOMEIP_TP_PAYLOAD_POS + its_corrected_offset - start_ cur)
                 (u32 (start_ seg_next - its_corrected_offset));
        if bool_decide (end_ cur < start_ seg_next) then
          segs ← emplaced (Segment its_corrected_offset (end_ cur)) (before ++ after);
          copied msg' segs (u32 (end_ cur - end_ seg_prev))
        else
          segs ← emplaced (Segment its_corrected_offset (u32 (start_ seg_next - 1)))
                   (before ++ after);
          copied msg' segs (u32 (start_ seg_next - its_corrected_offset))
    end.

(** [complete]: each segment starts where the one before it ended, the first at 0. *)
Fixpoint segments_complete (last_end : Z) (l : list segment_t) : bool :=
  match l with
  | [] => true
  | seg :: l =>
      if bool_decide (u32 (last_end + 1) ≠ start_ seg) then false
      else segments_complete (end_ seg) l
  end.

(** The tail of [add_segment]: is the message complete? *)
Definition finish_segment (data : list Z) (more : bool) (m : tp_message) :
    outcome (bool * tp_message) :=
  let '(TpMessage t mx cs lst segs msg) := m in
  let lst := if more then lst else true in
  if lst && segments_complete 0xFFFFFFFF segs then
    let its_length := u32 (Z.of_nat (length msg) - VSOMEIP_SOMEIP_HEADER_SIZE) in
    msg ← put_u32 msg VSOMEIP_LENGTH_POS_MIN its_length;
    code ← vget data VSOMEIP_RETURN_CODE_POS;
    msg ← vset msg VSOMEIP_RETURN_CODE_POS code;
    Ret (true, TpMessage t mx cs lst segs msg)
  else Ret (false, TpMessage t mx cs lst segs msg).

Definition add_segment (data : list Z) (m : tp_message) : outcome (bool * tp_message) :=
  let data_length := Z.of_nat (length data) in
  if bool_decide (data_length < VSOMEIP_FULL_HEADER_SIZE + VSOMEIP_TP_HEADER_SIZE)
  then Ret (false, m)
  else
    let its_segment_size := data_length - VSOMEIP_FULL_HEADER_SIZE - VSOMEIP_TP_HEADER_SIZE in
    its_tp_header ← tp_header_at data;
    let more := more_segments its_tp_header in
    ok ← check_lengths data its_segment_size more (max_message_size_ m) (current_message_size_ m);
    if (ok : bool) then
      let its_offset := get_offset its_tp_header in
      let cur := Segment its_offset (u32 (its_offset + its_segment_size - 1)) in
      emplace_res ← emplace cur (segments_ m);
      match emplace_res with
      | None => Ret (false, m)
      | Some (before, after) =>
          m ← match after with
              | [] => place_last data cur before its_segment_size more m
              | seg_next :: _ => place_between data cur before seg_next after its_segment_size m
              end;
          finish_segment data more m
      end
    else Ret (false, m).

Definition get_message (m : tp_message) : list Z := message_ m.

(** Feeding segments one after the other: what [add_segment] returned for each. *)
Fixpoint receive (segs : list (list Z)) (m : tp_message) : outcome (list bool * tp_message) :=
  match segs with
  | [] => Ret ([], m)
  | s :: segs =>
      '(b, m) ← add_segment s m;
      '(bs, m) ← receive segs m;
      Ret (b :: bs, m)
  end.

(** * Reassembling a split message

    Throughout this section [data] is a message without the TP flag that is split,
    [P] its payload, and its segments are identified by their number. *)

Section reassemble.
  Context (data : list Z) (mx : Z).
  Context (Hlen : 1416 ≤ Z.of_nat (length data) ≤ mx) (Hmx : mx < 2 ^ 32).
  Context (Hbytes : bytes data) (Hflag : tp_flag_is_set (nth 14 data 0) = false).

Definition orig : list Z := tp_payload data.
Definition nsegs : nat := tp_count orig.
Definition chunk_size (k : nat) : Z := Z.of_nat (length (tp_chunk orig k)).

(** The entry of the set for segment [k]. *)
Definition seg (k : nat) : segment_t :=
  Segment (1392 * Z.of_nat k) (1392 * Z.of_nat k + chunk_size k - 1).

Lemma length_orig : length data = (16 + length orig)%nat.
Proof. unfold orig, tp_payload. rewrite length_drop. lia. Qed.

Lemma nsegs_ge_2 : (2 ≤ nsegs)%nat.
Proof.
  assert (1 < nsegs)%nat; [|lia]. unfold nsegs. apply tp_count_spec.
  assert (H := length_orig). lia.
Qed.

Lemma chunk_size_bounds k : (k < nsegs)%nat →
  0 < chunk_size k ≤ 1392 ∧ 1392 * Z.of_nat k + chunk_size k ≤ Z.of_nat (length orig) ∧
  ((S k < nsegs)%nat → chunk_size k = 1392) ∧
  ((S k = nsegs)%nat → 1392 * Z.of_nat k + chunk_size k = Z.of_nat (length orig)).
Proof.
  intros Hk. apply tp_count_spec in Hk as Hk'. unfold chunk_size. rewrite length_tp_chunk.
  split_and!; [lia..| |]; intros Hs.
  - apply tp_count_spec in Hs. lia.
  - assert (¬ (1392 * S k < length orig)%nat); [|lia]. rewrite <- tp_count_spec. fold nsegs. lia.
Qed.

(** ** The fields of a segment *)

(** The header of a segment, and of the message under construction. *)
Definition seg_header (len type : Z) : list Z :=
  take 4 data ++ be32 len ++ take 6 (drop 8 data) ++ [type] ++ [nth 15 data 0].

Lemma tp_segment_eq k :
  tp_segment data k = seg_header (12 + chunk_size k) (Z.lor (nth 14 data 0) TP_FLAG) ++
                      be32 (tp_header_of orig k) ++ tp_chunk orig k.
Proof. unfold tp_segment, seg_header. by rewrite <- !(assoc_L (++)). Qed.

(** The header bytes by name. *)
Lemma seg_header_view : ∃ h0 h1 h2 h3 h8 h9 h10 h11 h12 h13, ∀ len type,
  seg_header len type =
    [h0; h1; h2; h3] ++ be32 len ++ [h8; h9; h10; h11; h12; h13; type; nth 15 data 0].
Proof.
  destruct (header_view data) as (h0&h1&h2&h3&h4&h5&h6&h7&h8&h9&h10&h11&h12&h13&h14&h15&p&E); [lia|].
  exists h0, h1, h2, h3, h8, h9, h10, h11, h12, h13. intros len type. unfold seg_header.
  by rewrite E.
Qed.

Lemma length_seg_header len type : length (seg_header len type) = 16%nat.
Proof. destruct seg_header_view as (?&?&?&?&?&?&?&?&?&?&E). by rewrite E. Qed.

Lemma length_tp_segment k : Z.of_nat (length (tp_segment data k)) = 20 + chunk_size k.
Proof.
  rewrite tp_segment_eq, !length_app, length_seg_header. cbn [length be32 be24 app].
  unfold chunk_size. lia.
Qed.

Lemma header_of_u32 k : (k < nsegs)%nat → is_u32 (tp_header_of orig k).
Proof.
  intros Hk. apply tp_header_fields; [|done]. assert (H := length_orig). lia.
Qed.

Lemma segment_tp_header k : (k < nsegs)%nat →
  tp_header_at (tp_segment data k) = Ret (tp_header_of orig k).
Proof.
  intros Hk. rewrite tp_segment_eq.
  destruct seg_header_view as (?&?&?&?&?&?&?&?&?&?&->).
  unfold tp_header_at, VSOMEIP_TP_HEADER_POS_MIN, VSOMEIP_TP_HEADER_POS_MAX.
  etransitivity; [|apply f_equal, long_of_be32; by apply header_of_u32]. reflexivity.
Qed.

Lemma tp_flag_lor v : tp_flag_is_set (Z.lor v TP_FLAG) = true.
Proof.
  apply bool_decide_true. intros H. assert (Ht := f_equal (λ z, Z.testbit z 5) H).
  revert Ht. cbv beta. unfold TP_FLAG.
  rewrite Z.land_spec, Z.lor_spec, orb_true_r, Z.bits_0. done.
Qed.

Lemma segment_check_lengths k more cs : (k < nsegs)%nat →
  more = bool_decide (S k < nsegs)%nat → 0 ≤ cs → cs + chunk_size k ≤ mx →
  check_lengths (tp_segment data k) (chunk_size k) more mx cs = Ret true.
Proof.
  intros Hk Hmore Hcs Hmax. destruct (chunk_size_bounds k Hk) as (Hb&Hoff&Hfull&_).
  unfold check_lengths. rewrite segment_tp_header by done.
  rewrite length_tp_segment. rewrite tp_segment_eq.
  destruct seg_header_view as (?&?&?&?&?&?&?&?&?&?&->).
  change (vget _ VSOMEIP_MESSAGE_TYPE_POS) with (Ret (Z.lor (nth 14 data 0) TP_FLAG)).
  change (vget _ VSOMEIP_LENGTH_POS_MIN) with (Ret (VSOMEIP_LONG_BYTE3 (12 + chunk_size k))).
  change (vget _ (VSOMEIP_LENGTH_POS_MIN + 1)) with (Ret (VSOMEIP_LONG_BYTE2 (12 + chunk_size k))).
  change (vget _ (VSOMEIP_LENGTH_POS_MIN + 2)) with (Ret (VSOMEIP_LONG_BYTE1 (12 + chunk_size k))).
  change (vget _ VSOMEIP_LENGTH_POS_MAX) with (Ret (VSOMEIP_LONG_BYTE0 (12 + chunk_size k))).
  rewrite !outcome_bind_Ret. cbv zeta. rewrite long_of_be32, tp_flag_lor by width_lia.
  assert (Horig := length_orig).
  destruct (tp_header_fields orig k) as (_&Hof&_); [lia|done|]. rewrite Hof. f_equal.
  unfold VSOMEIP_SOMEIP_HEADER_SIZE, VSOMEIP_TP_HEADER_SIZE, VSOMEIP_FULL_HEADER_SIZE,
    tp_max_segment_length_. cbn [negb].
  do 3 rewrite bool_decide_false by width_lia.
  assert (more && bool_decide (chunk_size k mod 16 > 0) = false) as ->.
  { subst more. case_bool_decide as Hs; [|done]. rewrite (Hfull Hs). done. }
  by rewrite !bool_decide_false by width_lia.
Qed.

Lemma segment_payload k :
  vrange (tp_segment data k) 20 (20 + chunk_size k) = Ret (tp_chunk orig k).
Proof.
  rewrite vrange_drop; [|unfold chunk_size; lia|rewrite length_tp_segment; lia].
  rewrite tp_segment_eq, (assoc_L (++)), drop_app_length'.
  - rewrite take_ge; [done|]. unfold chunk_size. lia.
  - rewrite length_app, length_seg_header. done.
Qed.

Lemma segment_code k : vget (tp_segment data k) VSOMEIP_RETURN_CODE_POS = Ret (nth 15 data 0).
Proof. rewrite tp_segment_eq. by destruct seg_header_view as (?&?&?&?&?&?&?&?&?&?&->). Qed.

(** ** The set of segments *)

Lemma segment_lt_seg j k : (j < nsegs)%nat → (k < nsegs)%nat → segment_lt (seg j) (seg k) = bool_decide (j < k)%nat.
Proof.
  intros Hj Hk. destruct (chunk_size_bounds j Hj) as (Hbj&Hoj&Hfj&Hlj).
  destruct (chunk_size_bounds k Hk) as (Hbk&Hok&Hfk&Hlk).
  unfold segment_lt, seg. cbn [start_ end_].
  destruct (decide (j < k)%nat) as [Hlt|Hge].
  - by rewrite (bool_decide_true (_ < _)), (bool_decide_true (j < k)%nat) by lia.
  - rewrite (bool_decide_false (_ < _)), (bool_decide_false (j < k)%nat) by lia. cbn [orb].
    rewrite (bool_decide_true (_ >= _)) by lia. cbn [andb]. apply bool_decide_false.
    destruct (decide (j = k)) as [->|Hne]; [lia|]. assert (Hfull := Hfk ltac:(lia)). lia.
Qed.

Lemma seg_split_app k lows highs : (k < nsegs)%nat → Forall (λ j, j < nsegs)%nat (lows ++ highs) →
  Forall (λ j, j < k)%nat lows → Forall (λ j, k < j)%nat highs →
  seg_split (seg k) (seg <$> (lows ++ highs)) = (seg <$> lows, seg <$> highs).
Proof.
  intros Hk Hn Hl Hh. induction Hl as [|j lows Hj _ IH]; cbn [app fmap list_fmap seg_split].
  - destruct Hh as [|j highs Hj _]; [done|]. apply Forall_cons in Hn as [Hjn _].
    cbn [app fmap list_fmap seg_split].
    rewrite segment_lt_seg, bool_decide_false by (done || lia). done.
  - apply Forall_cons in Hn as [Hjn Hn].
    rewrite segment_lt_seg, bool_decide_true by (done || lia). by rewrite IH.
Qed.

Lemma emplace_seg k lows highs : (k < nsegs)%nat → Forall (λ j, j < nsegs)%nat (lows ++ highs) →
  Forall (λ j, j < k)%nat lows → Forall (λ j, k < j)%nat highs →
  emplace (seg k) (seg <$> (lows ++ highs)) = Ret (Some (seg <$> lows, seg <$> highs)).
Proof.
  intros Hk Hn Hl Hh. unfold emplace.
  assert (existsb (λ s, segment_lt s (seg k) && segment_lt (seg k) s) (seg <$> lows ++ highs)
          = false) as ->.
  { apply not_true_iff_false. rewrite existsb_exists. intros (s&Hs&Hlt).
    apply list_elem_of_In, list_elem_of_fmap in Hs as (j&->&Hj).
    rewrite Forall_forall in Hn. specialize (Hn j Hj).
    rewrite !segment_lt_seg, andb_true_iff, !bool_decide_eq_true in Hlt by done. lia. }
  rewrite seg_split_app by done.
  destruct Hh as [|j highs Hj _]; [done|]. cbn [fmap list_fmap].
  apply Forall_app in Hn as [_ [Hjn _]%Forall_cons].
  by rewrite segment_lt_seg, bool_decide_true by (done || lia).
Qed.

(** A set of segments is complete when it is a prefix of all of them. *)
Lemma segments_complete_seg ks : ∀ j e, StronglySorted lt ks → Forall (λ k, k < nsegs)%nat ks →
  (j ≤ nsegs)%nat → u32 (e + 1) = Z.min (1392 * Z.of_nat j) (Z.of_nat (length orig)) →
  segments_complete e (seg <$> ks) = bool_decide (ks = seq j (length ks)).
Proof.
  assert (Horig := length_orig).
  induction ks as [|k ks IH]; intros j e Hs Hn Hj He; cbn [fmap list_fmap segments_complete length seq].
  { by rewrite bool_decide_true. }
  apply Forall_cons in Hn as [Hk Hn]. apply StronglySorted_inv in Hs as [Hs Hgt].
  destruct (chunk_size_bounds k Hk) as (Hb&Ho&Hf&Hl).
  assert (Hkc := Hk). apply tp_count_spec in Hkc.
  rewrite He. cbn [seg start_ end_]. destruct (decide (k = j)) as [->|Hne].
  - rewrite bool_decide_false by lia.
    rewrite (IH (S j)); [apply bool_decide_ext; split; congruence|done|done|lia|].
    destruct (decide (S j < nsegs)%nat) as [Hlt|Hge].
    + rewrite (Hf Hlt). apply tp_count_spec in Hlt. width_lia.
    + rewrite u32_id by width_lia. assert (HSj : S j = nsegs) by lia. specialize (Hl HSj).
      assert (¬ (1392 * S j < length orig)%nat); [rewrite <- tp_count_spec; fold nsegs; lia|]. lia.
  - rewrite bool_decide_true, bool_decide_false; [done|congruence|].
    destruct (decide (j < nsegs)%nat) as [Hjn|Hjn].
    + apply tp_count_spec in Hjn. lia.
    + assert (¬ (1392 * j < length orig)%nat); [rewrite <- tp_count_spec; fold nsegs; lia|]. lia.
Qed.

(** ** The buffer *)

(** [body], the buffer behind the header, holds the segments [ks] and zeros, up to
    the end of the last segment received. *)
Definition content (ks : list nat) (body : list Z) : Prop :=
  (∃ k, last ks = Some k ∧ length body = 1392 * k + length (tp_chunk orig k))%nat ∧
  ∀ i x, (i < length body)%nat → orig !! i = Some x →
    body !! i = Some (if bool_decide ((i `div` 1392)%nat ∈ ks) then x else 0).

Lemma chunk_lookup k i : (1392 * k ≤ i < 1392 * k + length (tp_chunk orig k))%nat →
  (i `div` 1392 = k)%nat ∧ tp_chunk orig k !! (i - 1392 * k)%nat = orig !! i.
Proof.
  intros Hi. rewrite length_tp_chunk in Hi. split.
  - symmetry. apply Nat.div_unique with (i - 1392 * k)%nat; lia.
  - unfold tp_chunk. rewrite lookup_take_lt, lookup_drop by lia. f_equal. lia.
Qed.

Lemma div_chunk_lt i k : (i < 1392 * k)%nat → (i `div` 1392 < k)%nat.
Proof. intros. apply Nat.Div0.div_lt_upper_bound. lia. Qed.
Lemma div_chunk_ge i k : (1392 * k ≤ i)%nat → (k ≤ i `div` 1392)%nat.
Proof. intros. apply Nat.div_le_lower_bound; lia. Qed.

Lemma sorted_le_last (ks : list nat) p k : StronglySorted lt ks → last ks = Some p → k ∈ ks →
  (k ≤ p)%nat.
Proof.
  intros Hs Hl Hk. apply last_Some in Hl as [l ->].
  apply elem_of_app in Hk as [Hk|Hk%list_elem_of_singleton]; [|lia].
  enough (k < p)%nat by lia. eapply StronglySorted_app_1_elem_of; [exact Hs|done|constructor].
Qed.

(** A later segment: the gap before it is filled with zeros. *)
Lemma content_append lows k body :
  StronglySorted lt lows → Forall (λ j, j < k)%nat lows → (k < nsegs)%nat →
  content lows body → (length body ≤ 1392 * k)%nat →
  content (lows ++ [k]) (body ++ replicate (1392 * k - length body) 0 ++ tp_chunk orig k).
Proof.
  intros Hs Hlt Hk [(p&Hlast&Hlen') Hc] Hle.
  rewrite Forall_forall in Hlt.
  assert (Hp : (p < k)%nat) by (apply Hlt; by apply last_Some_elem_of).
  assert (Hpf : length (tp_chunk orig p) = 1392%nat).
  { destruct (chunk_size_bounds p) as (_&_&Hf&_); [lia|]. unfold chunk_size in Hf.
    specialize (Hf ltac:(lia)). lia. }
  split.
  { exists k. rewrite last_snoc, !length_app, length_replicate. split; [done|lia]. }
  intros i x Hi Hx. rewrite !length_app, length_replicate in Hi.
  destruct (decide (i < length body)%nat) as [H1|H1].
  { rewrite lookup_app_l, (Hc i x H1 Hx) by done. f_equal.
    erewrite bool_decide_ext; [done|]. rewrite elem_of_app, list_elem_of_singleton.
    assert (H := div_chunk_lt i k ltac:(lia)). split; [tauto|]. intros [?|?]; [done|lia]. }
  rewrite lookup_app_r by lia. destruct (decide (i < 1392 * k)%nat) as [H2|H2].
  { rewrite lookup_app_l by (rewrite length_replicate; lia).
    rewrite lookup_replicate_2 by lia. rewrite bool_decide_false; [done|].
    rewrite elem_of_app, list_elem_of_singleton. intros [Hin|Heq].
    - apply (sorted_le_last lows p) in Hin; [|done|done].
      assert (H := div_chunk_ge i (S p) ltac:(lia)). lia.
    - assert (H := div_chunk_lt i k H2). lia. }
  rewrite lookup_app_r by (rewrite length_replicate; lia). rewrite length_replicate.
  destruct (chunk_lookup k i) as [Hd Hck]; [lia|].
  replace (i - length body - (1392 * k - length body))%nat with (i - 1392 * k)%nat by lia.
  rewrite Hck, Hx, Hd, bool_decide_true; [done|].
  apply elem_of_app. right. constructor.
Qed.

(** An earlier segment: its place is filled in. *)
Lemma content_fill lows k highs body :
  highs ≠ [] → (1392 * k + length (tp_chunk orig k) ≤ length body)%nat →
  content (lows ++ highs) body →
  content (lows ++ k :: highs) (list_inserts (1392 * k) (tp_chunk orig k) body).
Proof.
  intros Hne Hle [(p&Hlast&Hlen') Hc]. split.
  { exists p. rewrite length_inserts. split; [|done].
    destruct highs as [|h highs]; [done|].
    rewrite last_app_cons in Hlast. by rewrite last_app_cons, last_cons_cons. }
  intros i x Hi Hx. rewrite length_inserts in Hi.
  destruct (decide (1392 * k ≤ i < 1392 * k + length (tp_chunk orig k))%nat) as [Hin|Hout].
  - destruct (chunk_lookup k i Hin) as [Hd Hck].
    rewrite list_lookup_inserts, Hck, Hx, Hd, bool_decide_true; [done| |done|lia].
    apply elem_of_app. right. constructor.
  - assert (list_inserts (1392 * k) (tp_chunk orig k) body !! i = body !! i) as ->.
    { destruct (decide (i < 1392 * k)%nat).
      - by apply list_lookup_inserts_lt.
      - apply list_lookup_inserts_ge. lia. }
    rewrite (Hc i x Hi Hx). f_equal. erewrite bool_decide_ext; [done|].
    rewrite !elem_of_app, elem_of_cons. split; [tauto|]. intros [?|[Heq|?]]; [tauto| |tauto].
    exfalso. rewrite length_tp_chunk in Hout. apply lookup_lt_Some in Hx.
    assert (H1 := Nat.div_mod i 1392 ltac:(lia)). assert (H2 := Nat.mod_upper_bound i 1392 ltac:(lia)).
    lia.
Qed.

(** All segments: the buffer is the payload. *)
Lemma content_all body : content (seq 0 nsegs) body → body = orig.
Proof.
  intros [(k&Hlast&Hlen') Hc]. assert (H2 := nsegs_ge_2).
  assert (Hk : k = pred nsegs).
  { replace nsegs with (S (pred nsegs)) in Hlast by lia.
    rewrite seq_S, last_snoc in Hlast. by injection Hlast as <-. }
  destruct (chunk_size_bounds k) as (_&_&_&Hl); [lia|]. unfold chunk_size in Hl.
  assert (Hlo : length body = length orig) by lia.
  apply list_eq_same_length with (length orig); [done|done|]. intros i x y Hi Hx Hy.
  rewrite (Hc i y) in Hx by (lia || done). injection Hx as <-.
  assert (Hq : (i `div` 1392 < nsegs)%nat).
  { apply tp_count_spec. assert (H1 := Nat.div_mod i 1392 ltac:(lia)). lia. }
  rewrite bool_decide_true; [done|]. apply elem_of_seq. split; [apply Nat.le_0_l|exact Hq].
Qed.

(** ** Sizes *)

Definition sizes (ks : list nat) : Z := foldr (λ k z, chunk_size k + z) 0 ks.

Lemma sizes_app l1 l2 : sizes (l1 ++ l2) = sizes l1 + sizes l2.
Proof. induction l1 as [|k l1 IH]; cbn [app sizes foldr]; [done|]. fold (sizes (l1 ++ l2)) (sizes l1). lia. Qed.

Lemma sizes_bound ks : ∀ a, StronglySorted lt ks → Forall (λ k, a ≤ k < nsegs)%nat ks →
  0 ≤ sizes ks ≤ Z.max 0 (Z.of_nat (length orig) - 1392 * Z.of_nat a).
Proof.
  induction ks as [|k ks IH]; intros a Hs Hb; cbn [sizes foldr]; [lia|]. fold (sizes ks).
  apply StronglySorted_inv in Hs as [Hs Hgt]. apply Forall_cons in Hb as [Hk Hb].
  destruct (chunk_size_bounds k) as (Hc&Ho&Hf&Hl); [lia|].
  specialize (IH (S k) Hs). destruct IH as [IH0 IH1].
  { apply Forall_forall. intros j Hj. rewrite Forall_forall in Hb, Hgt.
    specialize (Hb j Hj). specialize (Hgt j Hj). lia. }
  destruct (decide (S k < nsegs)%nat) as [Hlt|Hge].
  - apply tp_count_spec in Hlt as Hlt'. specialize (Hf Hlt). lia.
  - assert (HSk : S k = nsegs) by lia. specialize (Hl HSk). lia.
Qed.

(** ** The state after receiving the segments [ks] *)

Definition placed (ks : list nat) (lst : bool) (m : tp_message) : Prop :=
  StronglySorted lt ks ∧ Forall (λ k, k < nsegs)%nat ks ∧
  segments_ m = seg <$> ks ∧ max_message_size_ m = mx ∧
  current_message_size_ m = 16 + sizes ks ∧
  last_segment_received_ m = lst ∧
  ∃ len body, message_ m = seg_header len (nth 14 data 0) ++ body ∧ content ks body.

Definition inv (ks : list nat) (m : tp_message) : Prop :=
  placed ks (bool_decide (pred nsegs ∈ ks)) m.

Lemma seg_end k : (k < nsegs)%nat →
  Segment (1392 * Z.of_nat k) (u32 (1392 * Z.of_nat k + chunk_size k - 1)) = seg k.
Proof.
  intros Hk. destruct (chunk_size_bounds k Hk) as (Hb&Ho&_). assert (H := length_orig).
  unfold seg. rewrite u32_id by width_lia. done.
Qed.

Lemma tp_flag_cleared :
  tp_flag_unset (nth 14 data 0) = nth 14 data 0 ∧
  tp_flag_unset (Z.lor (nth 14 data 0) TP_FLAG) = nth 14 data 0.
Proof. apply tp_flag_unset_clear; [apply Forall_nth; [done|lia]|done]. Qed.

Lemma last_iff k : (k < nsegs)%nat →
  negb (bool_decide (S k < nsegs)%nat) = bool_decide (k = pred nsegs).
Proof. intros Hk. case_bool_decide; symmetry; [apply bool_decide_false|apply bool_decide_true]; lia. Qed.

(** The first segment received, whichever it is. *)
Lemma first_segment now k : (k < nsegs)%nat →
  ∃ m, tp_message_new now (tp_segment data k) mx = Ret m ∧ inv [k] m.
Proof.
  intros Hk. destruct (chunk_size_bounds k Hk) as (Hb&Ho&_). assert (Horig := length_orig).
  destruct (tp_header_fields orig k) as (_&Hof&Hmo); [lia|done|].
  unfold tp_message_new. rewrite length_tp_segment.
  unfold VSOMEIP_FULL_HEADER_SIZE, VSOMEIP_TP_HEADER_SIZE, VSOMEIP_TP_PAYLOAD_POS.
  rewrite bool_decide_false by lia.
  replace (20 + chunk_size k - 16 - 4) with (chunk_size k) by lia.
  rewrite segment_tp_header, segment_payload by done.
  assert (vrange (tp_segment data k) 0 16 =
          Ret (seg_header (12 + chunk_size k) (Z.lor (nth 14 data 0) TP_FLAG))) as ->.
  { rewrite vrange_drop by (rewrite ?length_tp_segment; lia). f_equal.
    rewrite tp_segment_eq. change (Z.to_nat 0) with 0%nat. rewrite drop_0.
    by rewrite take_app_length' by (by rewrite length_seg_header). }
  rewrite outcome_bind_Ret.
  assert (vget (seg_header (12 + chunk_size k) (Z.lor (nth 14 data 0) TP_FLAG))
            VSOMEIP_MESSAGE_TYPE_POS = Ret (Z.lor (nth 14 data 0) TP_FLAG)) as ->.
  { by destruct seg_header_view as (?&?&?&?&?&?&?&?&?&?&->). }
  rewrite outcome_bind_Ret, (proj2 tp_flag_cleared).
  assert (vset (seg_header (12 + chunk_size k) (Z.lor (nth 14 data 0) TP_FLAG))
            VSOMEIP_MESSAGE_TYPE_POS (nth 14 data 0) =
          Ret (seg_header (12 + chunk_size k) (nth 14 data 0))) as ->.
  { destruct seg_header_view as (?&?&?&?&?&?&?&?&?&?&E). by rewrite !E. }
  rewrite !outcome_bind_Ret.
  rewrite segment_check_lengths, outcome_bind_Ret by (done || lia).
  cbv beta iota zeta. rewrite Hof, Hmo, seg_end by done. fold nsegs.
  eexists. split; [done|].
  split_and!; cbn [segments_ max_message_size_ current_message_size_ last_segment_received_ message_].
  - repeat constructor.
  - by constructor.
  - done.
  - done.
  - cbn [sizes foldr]. rewrite u32_id by width_lia. lia.
  - assert (H2 := nsegs_ge_2). rewrite last_iff by done. rewrite <- bool_decide_and.
    apply bool_decide_ext. rewrite list_elem_of_singleton. lia.
  - exists (12 + chunk_size k), (replicate (1392 * k) 0 ++ tp_chunk orig k). split.
    + destruct (decide (k = 0%nat)) as [->|Hne]; [done|].
      rewrite bool_decide_true by lia. rewrite u32_id by width_lia.
      rewrite resize_ge by (rewrite length_seg_header; lia).
      rewrite length_seg_header, <- (assoc_L (++)).
      replace (Z.to_nat (16 + 1392 * Z.of_nat k) - 16)%nat with (1392 * k)%nat by lia. done.
    + split; [exists k; rewrite length_app, length_replicate; done|].
      intros i x Hi Hx. rewrite length_app, length_replicate in Hi.
      destruct (decide (i < 1392 * k)%nat) as [H1|H1].
      * rewrite lookup_app_l, lookup_replicate_2 by (rewrite ?length_replicate; lia).
        rewrite bool_decide_false; [done|]. rewrite list_elem_of_singleton.
        assert (H := div_chunk_lt i k H1). lia.
      * rewrite lookup_app_r by (rewrite length_replicate; lia). rewrite length_replicate.
        destruct (chunk_lookup k i) as [Hd Hck]; [lia|].
        rewrite Hck, Hx, Hd, bool_decide_true; [done|]. constructor.
Qed.

(** ** A further segment *)

Lemma insert_sorted lows k highs : StronglySorted lt (lows ++ highs) →
  Forall (λ j, j < k)%nat lows → Forall (λ j, k < j)%nat highs →
  StronglySorted lt (lows ++ k :: highs).
Proof.
  intros (Hc&Hl&Hh)%StronglySorted_app Hlk Hkh. rewrite Forall_forall in Hlk.
  apply StronglySorted_app. split_and!; [|done|by constructor].
  intros x y Hx [->|Hy]%elem_of_cons; auto.
Qed.

Lemma insert_sizes lows k highs :
  StronglySorted lt (lows ++ k :: highs) → Forall (λ j, j < nsegs)%nat (lows ++ k :: highs) →
  sizes (lows ++ k :: highs) = sizes (lows ++ highs) + chunk_size k ∧
  0 ≤ sizes (lows ++ highs) ∧ 16 + sizes (lows ++ highs) + chunk_size k ≤ mx.
Proof.
  intros Hs Hn. assert (Horig := length_orig).
  destruct (sizes_bound (lows ++ k :: highs) 0 Hs) as [H0 H1].
  { eapply Forall_impl; [exact Hn|]. intros j Hj. split; [apply Nat.le_0_l|exact Hj]. }
  assert (E : sizes (lows ++ k :: highs) = sizes (lows ++ highs) + chunk_size k).
  { rewrite !sizes_app. cbn [sizes foldr]. fold (sizes highs). lia. }
  assert (Hhl : StronglySorted lt (lows ++ highs)).
  { apply StronglySorted_app in Hs as (Hc&Hl&Hh). apply StronglySorted_inv in Hh as [Hh _].
    apply StronglySorted_app. split_and!; [|done|done]. intros x y Hx Hy. apply Hc; [done|by right]. }
  destruct (sizes_bound (lows ++ highs) 0 Hhl) as [H2 _].
  { apply Forall_app in Hn as [Hn1 [_ Hn2]%Forall_cons]. apply Forall_app.
    split; (eapply Forall_impl; [eassumption|]); intros j Hj; split; (apply Nat.le_0_l || exact Hj). }
  split_and!; [done|done|lia].
Qed.

Lemma place_last_step lows k lst more m : placed lows lst m → (k < nsegs)%nat →
  Forall (λ j, j < k)%nat lows →
  ∃ m', place_last (tp_segment data k) (seg k) (seg <$> lows) (chunk_size k) more m = Ret m' ∧
    placed (lows ++ [k]) lst m'.
Proof.
  intros (Hs&Hn&Hsegs&Hm&Hcs&Hlst&len&body&Hmsg&Hc) Hk Hlt. destruct m as [t mx' cs lst' segs msg].
  cbn [segments_ max_message_size_ current_message_size_ last_segment_received_ message_] in *.
  assert (Hs' := insert_sorted lows k [] ltac:(by rewrite app_nil_r) Hlt ltac:(constructor)).
  assert (Hn' : Forall (λ j, j < nsegs)%nat (lows ++ [k])) by (apply Forall_app; auto).
  destruct (insert_sizes lows k [] Hs' Hn') as (Hsz&Hsz0&Hszm). rewrite app_nil_r in Hsz, Hsz0, Hszm.
  assert (Hc' := Hc). destruct Hc' as [(p&Hp&Hbl) _].
  assert (Hpk : (p < k)%nat).
  { rewrite Forall_forall in Hlt. apply Hlt. by apply last_Some_elem_of. }
  destruct (chunk_size_bounds p) as (_&_&Hfull&_); [lia|]. specialize (Hfull ltac:(lia)).
  assert (Horig := length_orig). destruct (chunk_size_bounds k Hk) as (Hb&Ho&_).
  unfold place_last. rewrite fmap_last, Hp. cbn [fmap option_fmap option_map].
  unfold VSOMEIP_TP_PAYLOAD_POS. rewrite segment_payload.
  cbn [seg start_ end_]. rewrite Hfull. rewrite bool_decide_true by lia.
  rewrite outcome_bind_Ret. eexists. split; [done|].
  split_and!; cbn [segments_ max_message_size_ current_message_size_ last_segment_received_ message_];
    [done|done|by rewrite fmap_app|done|rewrite Hcs, Hsz; width_lia|done|].
  exists len, (body ++ replicate (1392 * k - length body) 0 ++ tp_chunk orig k).
  unfold chunk_size in Hfull. split; [|apply content_append; (done || lia)].
  rewrite (u32_id (_ + 1)) by width_lia. case_bool_decide as Hd.
  - assert (1392 * k - length body = 0)%nat as -> by lia. rewrite Hmsg. by rewrite <- (assoc_L (++)).
  - unfold VSOMEIP_FULL_HEADER_SIZE. rewrite u32_id by width_lia.
    rewrite Hmsg, resize_app_ge by (rewrite length_seg_header; lia).
    rewrite length_seg_header, resize_ge by lia. rewrite <- !(assoc_L (++)).
    by replace (Z.to_nat (16 + 1392 * Z.of_nat k) - 16)%nat with (1392 * k)%nat by lia.
Qed.

Lemma place_between_step lows k h highs lst m : placed (lows ++ h :: highs) lst m →
  (k < nsegs)%nat → Forall (λ j, j < k)%nat lows → Forall (λ j, k < j)%nat (h :: highs) →
  ∃ m', place_between (tp_segment data k) (seg k) (seg <$> lows) (seg h) (seg <$> h :: highs)
          (chunk_size k) m = Ret m' ∧ placed (lows ++ k :: h :: highs) lst m'.
Proof.
  intros (Hs&Hn&Hsegs&Hm&Hcs&Hlst&len&body&Hmsg&Hc) Hk Hlt Hgt. destruct m as [t mx' cs lst' segs msg].
  cbn [segments_ max_message_size_ current_message_size_ last_segment_received_ message_] in *.
  assert (Hs' := insert_sorted lows k (h :: highs) Hs Hlt Hgt).
  assert (Hn' : Forall (λ j, j < nsegs)%nat (lows ++ k :: h :: highs)).
  { apply Forall_app in Hn as [? ?]. apply Forall_app. auto. }
  destruct (insert_sizes lows k (h :: highs) Hs' Hn') as (Hsz&Hsz0&Hszm).
  assert (Hhk : (k < h)%nat) by (by apply Forall_cons in Hgt as [? _]).
  assert (Hh : (h < nsegs)%nat).
  { apply Forall_app in Hn as [_ [? _]%Forall_cons]. done. }
  assert (Horig := length_orig). destruct (chunk_size_bounds k Hk) as (Hb&Ho&Hfull&_).
  specialize (Hfull ltac:(lia)).
  assert (Hbody : (1392 * h ≤ length body)%nat).
  { destruct Hc as [(q&Hq&Hbl) _]. enough (h ≤ q)%nat by lia.
    eapply sorted_le_last; [exact Hs|done|]. apply elem_of_app. right. constructor. }
  unfold place_between. rewrite fmap_last.
  assert (Hprev : match seg <$> last lows with
                  | Some seg_prev => bool_decide (end_ seg_prev < start_ (seg k)) | None => true end = true).
  { destruct (last lows) as [p|] eqn:Hp; [|done]. cbn [fmap option_fmap option_map seg start_ end_].
    assert (Hpk : (p < k)%nat).
    { rewrite Forall_forall in Hlt. apply Hlt. by apply last_Some_elem_of. }
    destruct (chunk_size_bounds p) as (_&_&Hfp&_); [lia|]. rewrite (Hfp ltac:(lia)).
    apply bool_decide_true. lia. }
  rewrite Hprev. cbn [seg start_ end_]. rewrite bool_decide_true by lia.
  unfold memcpy, VSOMEIP_TP_PAYLOAD_POS, VSOMEIP_FULL_HEADER_SIZE.
  rewrite segment_payload, outcome_bind_Ret. rewrite (u32_id (16 + _)) by width_lia.
  rewrite bool_decide_true.
  2:{ rewrite Hmsg, length_app, length_seg_header. lia. }
  rewrite outcome_bind_Ret. eexists. split; [done|].
  split_and!; cbn [segments_ max_message_size_ current_message_size_ last_segment_received_ message_];
    [done|done|by rewrite !fmap_app|done|rewrite Hcs, Hsz; width_lia|done|].
  exists len, (list_inserts (1392 * k) (tp_chunk orig k) body). split.
  - rewrite Hmsg. replace (Z.to_nat (16 + 1392 * Z.of_nat k))
      with (length (seg_header len (nth 14 data 0%Z)) + 1392 * k)%nat
      by (rewrite length_seg_header; lia). apply list_inserts_app_r.
  - unfold chunk_size in Hfull. apply content_fill; [done|lia|done].
Qed.

(** The message as it was before it was split, with the length field recomputed. *)
Definition tp_result : list Z :=
  take 4 data ++ be32 (Z.of_nat (length data) - 8) ++ drop 8 data.

Lemma seg_header_result :
  seg_header (Z.of_nat (length data) - 8) (nth 14 data 0) ++ orig = tp_result.
Proof.
  unfold seg_header, tp_result, orig, tp_payload.
  destruct (header_view data) as (h0&h1&h2&h3&h4&h5&h6&h7&h8&h9&h10&h11&h12&h13&h14&h15&p&E); [lia|].
  generalize (be32 (Z.of_nat (length data) - 8)). intros b. rewrite E.
  cbn [take drop app nth]. by rewrite <- !(assoc_L (++)).
Qed.

Lemma finish_step ks k lst m : placed ks lst m → (k < nsegs)%nat →
  lst || bool_decide (k = pred nsegs) = bool_decide (pred nsegs ∈ ks) →
  ∃ m', finish_segment (tp_segment data k) (bool_decide (S k < nsegs)%nat) m =
      Ret (bool_decide (ks = seq 0 nsegs), m') ∧
    (ks ≠ seq 0 nsegs → inv ks m') ∧ (ks = seq 0 nsegs → message_ m' = tp_result).
Proof.
  intros (Hs&Hn&Hsegs&Hm&Hcs&Hlst&len&body&Hmsg&Hc) Hk Hl. destruct m as [t mx' cs lst' segs msg].
  cbn [segments_ max_message_size_ current_message_size_ last_segment_received_ message_] in *.
  assert (Horig := length_orig).
  unfold finish_segment. rewrite Hsegs.
  rewrite (segments_complete_seg ks 0) by (done || lia || width_lia).
  assert (Hf : (if bool_decide (S k < nsegs)%nat then lst' else true) =
               bool_decide (pred nsegs ∈ ks)).
  { rewrite <- Hl, <- last_iff, Hlst by done. by destruct (bool_decide (S k < nsegs)%nat), lst. }
  rewrite Hf.
  assert (Hcomp : bool_decide (pred nsegs ∈ ks) && bool_decide (ks = seq 0 (length ks)) =
                  bool_decide (ks = seq 0 nsegs)).
  { rewrite <- bool_decide_and. apply bool_decide_ext. assert (H2 := nsegs_ge_2). split.
    - intros [Hin Heq]. rewrite Heq in Hin. apply elem_of_seq in Hin.
      assert (Hle : (length ks ≤ nsegs)%nat).
      { destruct (decide (length ks ≤ nsegs)%nat); [done|]. rewrite Forall_forall in Hn.
        specialize (Hn nsegs). rewrite Heq, elem_of_seq in Hn. lia. }
      assert (length ks = nsegs) as E by lia. by rewrite E in Heq.
    - intros Heq. assert (length ks = nsegs) as E by (rewrite Heq; apply length_seq).
      rewrite E. split; [|done]. rewrite Heq. apply elem_of_seq. lia. }
  rewrite Hcomp. destruct (decide (ks = seq 0 nsegs)) as [Hall|Hall];
    [rewrite (bool_decide_true (ks = _)) by done|rewrite (bool_decide_false (ks = _)) by done].
  - rewrite Hall in Hc. apply content_all in Hc as ->.
    destruct seg_header_view as (h0&h1&h2&h3&h8&h9&h10&h11&h12&h13&Hv).
    assert (Hput : ∀ v, put_u32 msg VSOMEIP_LENGTH_POS_MIN v =
      Ret (seg_header v (nth 14 data 0) ++ orig)).
    { intros v. rewrite Hmsg, !Hv. rewrite <- !(assoc_L (++)).
      change (be32 len) with [VSOMEIP_LONG_BYTE3 len; VSOMEIP_LONG_BYTE2 len;
                              VSOMEIP_LONG_BYTE1 len; VSOMEIP_LONG_BYTE0 len].
      apply (put_u32_app [h0; h1; h2; h3]). }
    rewrite Hput, outcome_bind_Ret, segment_code, outcome_bind_Ret.
    assert (Hcode : ∀ v, vset (seg_header v (nth 14 data 0) ++ orig) VSOMEIP_RETURN_CODE_POS
      (nth 15 data 0) = Ret (seg_header v (nth 14 data 0) ++ orig)).
    { intros v. rewrite vset_ret; [by rewrite Hv|].
      rewrite length_app, length_seg_header. unfold VSOMEIP_RETURN_CODE_POS. lia. }
    rewrite Hcode, outcome_bind_Ret. eexists. split; [done|]. split; [done|]. intros _.
    cbn [message_]. rewrite <- seg_header_result. do 2 f_equal.
    rewrite Hmsg, length_app, length_seg_header. unfold VSOMEIP_SOMEIP_HEADER_SIZE. width_lia.
  - eexists. split; [done|]. split; [|done]. intros _.
    split_and!; try done. by exists len, body.
Qed.

Lemma add_segment_step lows k highs m : inv (lows ++ highs) m → (k < nsegs)%nat →
  Forall (λ j, j < k)%nat lows → Forall (λ j, k < j)%nat highs →
  let ks := lows ++ k :: highs in
  ∃ m', add_segment (tp_segment data k) m = Ret (bool_decide (ks = seq 0 nsegs), m') ∧
    (ks ≠ seq 0 nsegs → inv ks m') ∧ (ks = seq 0 nsegs → message_ m' = tp_result).
Proof.
  intros Hi Hk Hlt Hgt ks. assert (Hi' := Hi).
  destruct Hi' as (Hs&Hn&Hsegs&Hm&Hcs&Hlst&_).
  assert (Hs' : StronglySorted lt ks) by (by apply insert_sorted).
  assert (Hn' : Forall (λ j, j < nsegs)%nat ks).
  { apply Forall_app in Hn as [? ?]. apply Forall_app. auto. }
  destruct (insert_sizes lows k highs Hs' Hn') as (Hsz&Hsz0&Hszm).
  assert (Horig := length_orig). destruct (chunk_size_bounds k Hk) as (Hb&Ho&_).
  destruct (tp_header_fields orig k) as (_&Hof&Hmo); [lia|done|].
  unfold add_segment. rewrite length_tp_segment.
  unfold VSOMEIP_FULL_HEADER_SIZE, VSOMEIP_TP_HEADER_SIZE.
  rewrite bool_decide_false by lia.
  replace (20 + chunk_size k - 16 - 4) with (chunk_size k) by lia.
  rewrite segment_tp_header, outcome_bind_Ret, Hmo by done. fold nsegs. cbv zeta.
  rewrite Hm, Hcs, segment_check_lengths, outcome_bind_Ret by (done || lia).
  rewrite Hof, seg_end, Hsegs, emplace_seg, outcome_bind_Ret by done.
  assert (Hfin : ∀ m1, placed ks (bool_decide (pred nsegs ∈ lows ++ highs)) m1 →
    ∃ m', finish_segment (tp_segment data k) (bool_decide (S k < nsegs)%nat) m1 =
        Ret (bool_decide (ks = seq 0 nsegs), m') ∧
      (ks ≠ seq 0 nsegs → inv ks m') ∧ (ks = seq 0 nsegs → message_ m' = tp_result)).
  { intros m1 H1. eapply finish_step; [exact H1|done|]. rewrite <- bool_decide_or.
    apply bool_decide_ext. unfold ks. rewrite !elem_of_app, elem_of_cons. intuition congruence. }
  destruct highs as [|h highs]; cbn [fmap list_fmap].
  - rewrite app_nil_r in Hi. destruct (place_last_step lows k _ (bool_decide (S k < nsegs)%nat) m Hi Hk Hlt)
      as (m1&E&H1).
    rewrite E, outcome_bind_Ret. apply Hfin. by rewrite app_nil_r.
  - destruct (place_between_step lows k h highs _ m Hi Hk Hlt Hgt) as (m1&E&H1).
    cbn [fmap list_fmap] in E. rewrite E, outcome_bind_Ret. by apply Hfin.
Qed.

Lemma sorted_split (ks : list nat) j : StronglySorted lt ks → j ∉ ks →
  ∃ lows highs, ks = lows ++ highs ∧ Forall (λ i, i < j)%nat lows ∧ Forall (λ i, j < i)%nat highs.
Proof.
  induction 1 as [|k ks Hs IH Hgt]; intros Hj; [by exists [], []|].
  apply not_elem_of_cons in Hj as [Hne Hj]. destruct (decide (k < j)%nat).
  - destruct (IH Hj) as (lows&highs&->&Hl&Hh). exists (k :: lows), highs.
    split_and!; [done|by constructor|done].
  - exists [], (k :: ks). split_and!; [done|constructor|]. constructor; [lia|].
    eapply Forall_impl; [exact Hgt|]. intros. lia.
Qed.

Lemma sorted_seq a c : StronglySorted lt (seq a c).
Proof.
  revert a. induction c as [|c IH]; intros a; cbn [seq]; constructor; [done|].
  apply Forall_seq. intros. lia.
Qed.

Lemma receive_inv order : ∀ ks m, inv ks m → ks ++ order ≡ₚ seq 0 nsegs → order ≠ [] →
  ∃ m', receive (tp_segment data <$> order) m =
      Ret (replicate (length order - 1) false ++ [true], m') ∧ message_ m' = tp_result.
Proof.
  induction order as [|j order IH]; intros ks m Hi Hp Hne; [done|].
  assert (Hnd : NoDup (ks ++ j :: order)) by (rewrite Hp; apply NoDup_seq).
  assert (Hj : (j < nsegs)%nat).
  { assert (Hin : j ∈ seq 0 nsegs); [rewrite <- Hp; set_solver|]. apply elem_of_seq in Hin. lia. }
  assert (Hs : StronglySorted lt ks) by apply Hi.
  destruct (sorted_split ks j Hs) as (lows&highs&E&Hl&Hh).
  { apply NoDup_app in Hnd as (_&H&_). intros Hin. apply (H j Hin). constructor. }
  rewrite E in Hi. destruct (add_segment_step lows j highs m Hi Hj Hl Hh) as (m1&Ea&Hinv&Hres).
  set (ks' := lows ++ j :: highs) in *.
  assert (Hp' : ks' ++ order ≡ₚ seq 0 nsegs).
  { rewrite <- Hp, E. unfold ks'. by rewrite <- Permutation_middle, <- Permutation_middle. }
  rewrite fmap_cons. cbn [receive]. rewrite Ea, outcome_bind_Ret.
  destruct order as [|j' order].
  - assert (Hall : ks' = seq 0 nsegs).
    { rewrite app_nil_r in Hp'. assert (AntiSymm (=) lt) by (intros ??; lia).
      apply (StronglySorted_unique lt); [|by apply sorted_seq|done].
      apply insert_sorted; [by rewrite <- E|done|done]. }
    rewrite bool_decide_true by done. cbn [fmap list_fmap receive].
    eexists. split; [done|]. by apply Hres.
  - assert (Hnot : ks' ≠ seq 0 nsegs).
    { intros Heq. apply Permutation_length in Hp'. rewrite Heq, length_app in Hp'. cbn in Hp'. lia. }
    rewrite bool_decide_false by done.
    destruct (IH ks' m1 (Hinv Hnot) Hp' ltac:(done)) as (m'&Er&Hm').
    rewrite Er, outcome_bind_Ret. eexists. split; [|exact Hm'].
    cbn [length]. by rewrite !Nat.sub_1_r.
Qed.

End reassemble.

(** * Theorems *)

Lemma reassembles data mx now k order :
  1416 ≤ Z.of_nat (length data) ≤ mx → mx < 2 ^ 32 → bytes data →
  tp_flag_is_set (nth 14 data 0) = false →
  k :: order ≡ₚ seq 0 (tp_count (tp_payload data)) →
  ∃ m0 m, tp_message_new now (tp_segment data k) mx = Ret m0 ∧
    receive (tp_segment data <$> order) m0 =
      Ret (replicate (length order - 1) false ++ [true], m) ∧
    get_message m = tp_result data ∧ order ≠ [].
Proof.
  intros Hl Hmx Hb Hf Hp.
  assert (Hk : (k < nsegs data)%nat).
  { assert (Hin : k ∈ seq 0 (nsegs data)); [|apply elem_of_seq in Hin; lia].
    unfold nsegs, orig. rewrite <- Hp. constructor. }
  destruct (first_segment data mx Hl Hmx Hb Hf now k Hk) as (m0&E0&Hi).
  assert (Hne : order ≠ []).
  { intros ->. apply Permutation_length in Hp. rewrite length_seq in Hp.
    assert (H2 := nsegs_ge_2 data mx Hl). change (1 = nsegs data)%nat in Hp. lia. }
  destruct (receive_inv data mx Hl Hmx Hb Hf order [k] m0 Hi Hp Hne) as (m&Er&Hm).
  exists m0, m. split_and!; [done|done|exact Hm|done].
Qed.

(** An order of the segments is an order of their numbers. *)
Lemma segments_order data segs first rest :
  1416 ≤ Z.of_nat (length data) < 2 ^ 32 →
  tp_split_message data = Ret segs → first :: rest ≡ₚ segs →
  ∃ k order, first = tp_segment data k ∧ rest = tp_segment data <$> order ∧
    k :: order ≡ₚ seq 0 (tp_count (tp_payload data)).
Proof.
  intros Hl Hs Hp. rewrite tp_split_message_segments in Hs by done. injection Hs as <-.
  apply Permutation_map_inv in Hp as ([|k order]&Heq&Hp); [done|].
  injection Heq as -> ->. by exists k, order.
Qed.

(** C1: a split message is put together again, in whatever order its segments arrive.
    For a message of at least 1416 bytes and at most the configured maximum, without
    the TP flag, and any permutation of the segments it is split into, the first
    segment received creates the state, every further segment is accepted and
    reported as not complete except the last one received, and the message is then
    the original one with its length field recomputed from its size; it is the
    original message if its length field was right. *)
Theorem tp_reassembly data mx now segs first rest :
  1416 ≤ Z.of_nat (length data) ≤ mx → mx < 2 ^ 32 → bytes data →
  tp_flag_is_set (nth 14 data 0) = false →
  tp_split_message data = Ret segs → first :: rest ≡ₚ segs →
  ∃ m0 m, tp_message_new now first mx = Ret m0 ∧
    receive rest m0 = Ret (replicate (length rest - 1) false ++ [true], m) ∧
    get_message m = take 4 data ++ be32 (Z.of_nat (length data) - 8) ++ drop 8 data ∧
    (take 4 (drop 4 data) = be32 (Z.of_nat (length data) - 8) → get_message m = data).
Proof.
  intros Hl Hmx Hb Hf Hs Hp.
  destruct (segments_order data segs first rest) as (k&order&->&->&Hp'); [lia|done|done|].
  destruct (reassembles data mx now k order Hl Hmx Hb Hf Hp') as (m0&m&E0&Er&Hm&_).
  exists m0, m. rewrite length_fmap. split_and!; [done|done|exact Hm|].
  intros Hlen. rewrite Hm. unfold tp_result. rewrite <- Hlen.
  change 8%nat with (4 + 4)%nat. rewrite <- drop_drop, !take_drop. done.
Qed.

(** A message of three segments. *)
Definition sample_tp_message : list Z :=
  [0x12; 0x34; 0; 1; 0; 0; 0x0B; 0xB8; 0; 1; 0; 2; 1; 1; 0; 0] ++ repeat 7 2992.

Lemma sample_tp_message_bytes : bytes sample_tp_message.
Proof.
  unfold sample_tp_message. apply Forall_app. split.
  - repeat constructor; vm_compute; done.
  - apply Forall_forall. intros x Hx%list_elem_of_In%repeat_spec. subst. vm_compute. done.
Qed.

Lemma tp_reassembly_witness :
  ∃ m0 m, tp_message_new 0 (tp_segment sample_tp_message 2) 4096 = Ret m0 ∧
    receive (tp_segment sample_tp_message <$> [0; 1]%nat) m0 =
      Ret (replicate (length (tp_segment sample_tp_message <$> [0; 1]%nat) - 1) false ++ [true], m) ∧
    get_message m = take 4 sample_tp_message ++
      be32 (Z.of_nat (length sample_tp_message) - 8) ++ drop 8 sample_tp_message ∧
    (take 4 (drop 4 sample_tp_message) = be32 (Z.of_nat (length sample_tp_message) - 8) →
     get_message m = sample_tp_message).
Proof.
  apply (tp_reassembly sample_tp_message 4096 0 (tp_segment sample_tp_message <$> [0; 1; 2]%nat)
           (tp_segment sample_tp_message 2) (tp_segment sample_tp_message <$> [0; 1]%nat)).
  - vm_compute. done.
  - lia.
  - apply sample_tp_message_bytes.
  - done.
  - apply tp_split_message_segments. vm_compute. done.
  - change (tp_segment sample_tp_message <$> [0; 1; 2]%nat) with
      ((tp_segment sample_tp_message <$> [0; 1]%nat) ++ [tp_segment sample_tp_message 2]).
    apply Permutation_cons_append.
Defined.

(** ** What arbitrary segments can do *)

(** An accepted segment reaches [emplace]. *)
Lemma add_segment_accepted data m h :
  20 ≤ Z.of_nat (length data) → tp_header_at data = Ret h →
  check_lengths data (Z.of_nat (length data) - 20) (more_segments h) (max_message_size_ m)
    (current_message_size_ m) = Ret true →
  add_segment data m =
    (r ← emplace (Segment (get_offset h) (u32 (get_offset h + (Z.of_nat (length data) - 20) - 1)))
           (segments_ m);
     match r with
     | None => Ret (false, m)
     | Some (before, after) =>
         m ← match after with
             | [] => place_last data (Segment (get_offset h)
                       (u32 (get_offset h + (Z.of_nat (length data) - 20) - 1))) before
                       (Z.of_nat (length data) - 20) (more_segments h) m
             | seg_next :: _ => place_between data (Segment (get_offset h)
                       (u32 (get_offset h + (Z.of_nat (length data) - 20) - 1))) before seg_next
                       after (Z.of_nat (length data) - 20) m
             end;
         finish_segment data (more_segments h) m
     end).
Proof.
  intros Hl Hh Hc. unfold add_segment, VSOMEIP_FULL_HEADER_SIZE, VSOMEIP_TP_HEADER_SIZE.
  rewrite bool_decide_false by lia. rewrite Hh, outcome_bind_Ret. cbv zeta.
  replace (Z.of_nat (length data) - 16 - 4) with (Z.of_nat (length data) - 20) by lia.
  by rewrite Hc, outcome_bind_Ret.
Qed.

(** A segment strictly inside one already received.  [segment_t::operator<] then
    holds both ways, so that it is no strict weak order on the set, and inserting
    the segment has undefined behaviour although it passed every length check. *)
Theorem nested_segment_undefined data m h s :
  20 ≤ Z.of_nat (length data) → tp_header_at data = Ret h →
  check_lengths data (Z.of_nat (length data) - 20) (more_segments h) (max_message_size_ m)
    (current_message_size_ m) = Ret true →
  s ∈ segments_ m → start_ s < get_offset h →
  u32 (get_offset h + (Z.of_nat (length data) - 20) - 1) < end_ s →
  let cur := Segment (get_offset h) (u32 (get_offset h + (Z.of_nat (length data) - 20) - 1)) in
  segment_lt s cur = true ∧ segment_lt cur s = true ∧ add_segment data m = Undef.
Proof.
  intros Hl Hh Hc Hs Hst Hen cur.
  assert (H1 : segment_lt s cur = true).
  { unfold segment_lt. by rewrite bool_decide_true. }
  assert (H2 : segment_lt cur s = true).
  { unfold segment_lt, cur. cbn [start_ end_].
    rewrite (bool_decide_true (_ >= _)), (bool_decide_true (_ < end_ s)) by lia. apply orb_true_r. }
  split_and!; [done|done|]. rewrite (add_segment_accepted _ _ _ Hl Hh Hc).
  unfold emplace. fold cur.
  assert (existsb (λ s, segment_lt s cur && segment_lt cur s) (segments_ m) = true) as ->; [|done].
  apply existsb_exists. exists s. split; [by apply list_elem_of_In|]. by rewrite H1, H2.
Qed.

(** A segment datagram with the given offset field, further-segments bit and payload. *)
Definition sample_segment (header : Z) (payload : list Z) : list Z :=
  [0x12; 0x34; 0; 1] ++ be32 (12 + Z.of_nat (length payload)) ++
  [0; 1; 0; 2; 1; 1; 0x20; 0] ++ be32 header ++ payload.

Lemma nested_segment_undefined_witness :
  let m := TpMessage 0 4096 64 false [Segment 0 47] (repeat 0 64) in
  add_segment (sample_segment 17 (repeat 1 16)) m = Undef.
Proof.
  apply (nested_segment_undefined (sample_segment 17 (repeat 1 16))
           (TpMessage 0 4096 64 false [Segment 0 47] (repeat 0 64)) 17 (Segment 0 47)).
  - vm_compute. done.
  - vm_compute. done.
  - vm_compute. done.
  - constructor.
  - vm_compute. done.
  - vm_compute. done.
Defined.

(** A segment that overlaps the one before it and leaves a gap to the one after
    it.  The number of bytes copied is the distance to the next segment and not the
    rest of this one, so the copy reads behind the end of the datagram. *)
Theorem overlapping_segment_overreads data cur before prev next after m :
  Z.of_nat (length data) = 20 + (end_ cur - start_ cur + 1) →
  last before = Some prev →
  0 ≤ start_ cur → start_ cur ≤ end_ prev < end_ cur → end_ cur + 1 < start_ next →
  start_ next < 2 ^ 32 →
  place_between data cur before next (next :: after) (end_ cur - start_ cur + 1) m = Undef.
Proof.
  intros Hl Hlast H0 Hov Hgap Hmax. unfold place_between. destruct m as [t mx cs lst segs msg].
  rewrite Hlast. rewrite bool_decide_false by lia.
  rewrite (u32_id (end_ prev + 1)) by width_lia.
  rewrite (u32_id (start_ next - _)) by width_lia.
  unfold memcpy, vrange, VSOMEIP_TP_PAYLOAD_POS.
  rewrite (bool_decide_false (0 ≤ _ ≤ _ ∧ _)) by lia. done.
Qed.

Lemma overlapping_segment_overreads_witness :
  let m := TpMessage 0 4096 80 false [Segment 0 31; Segment 64 79] (repeat 0 96) in
  place_between (sample_segment 17 (repeat 1 32)) (Segment 16 47) [Segment 0 31]
    (Segment 64 79) [Segment 64 79] 32 m = Undef ∧
  add_segment (sample_segment 17 (repeat 1 32)) m = Undef.
Proof.
  split; [|vm_compute; done].
  apply (overlapping_segment_overreads (sample_segment 17 (repeat 1 32)) (Segment 16 47)
           [Segment 0 31] (Segment 0 31) (Segment 64 79) []
           (TpMessage 0 4096 80 false [Segment 0 31; Segment 64 79] (repeat 0 96))).
  - vm_compute. done.
  - done.
  - cbn. lia.
  - cbn. lia.
  - cbn. lia.
  - cbn. lia.
Defined.

Lemma sample_tp_header h payload : is_u32 h → tp_header_at (sample_segment h payload) = Ret h.
Proof. intros Hh. etransitivity; [|by apply f_equal, long_of_be32]. reflexivity. Qed.

Lemma length_sample h payload :
  Z.of_nat (length (sample_segment h payload)) = 20 + Z.of_nat (length payload).
Proof. unfold sample_segment. rewrite !length_app. cbn [length be32 be24 app]. lia. Qed.

Lemma sample_check_lengths h payload more mx cs :
  is_u32 h → Z.of_nat (length payload) ≤ 1392 → (more = true → (16 | Z.of_nat (length payload))) →
  u32 (cs + Z.of_nat (length payload)) ≤ mx →
  u32 (get_offset h + Z.of_nat (length payload)) ≤ mx →
  check_lengths (sample_segment h payload) (Z.of_nat (length payload)) more mx cs = Ret true.
Proof.
  intros Hh Hp Hmore Hcs Hof. unfold check_lengths. rewrite sample_tp_header, length_sample by done.
  set (len := 12 + Z.of_nat (length payload)).
  change (vget _ VSOMEIP_MESSAGE_TYPE_POS) with (Ret 0x20).
  change (vget _ VSOMEIP_LENGTH_POS_MIN) with (Ret (VSOMEIP_LONG_BYTE3 len)).
  change (vget _ (VSOMEIP_LENGTH_POS_MIN + 1)) with (Ret (VSOMEIP_LONG_BYTE2 len)).
  change (vget _ (VSOMEIP_LENGTH_POS_MIN + 2)) with (Ret (VSOMEIP_LONG_BYTE1 len)).
  change (vget _ VSOMEIP_LENGTH_POS_MAX) with (Ret (VSOMEIP_LONG_BYTE0 len)).
  rewrite !outcome_bind_Ret. cbv zeta. rewrite long_of_be32 by (unfold len; width_lia).
  change (negb (tp_flag_is_set 32)) with false. cbv iota. f_equal. unfold len.
  unfold VSOMEIP_SOMEIP_HEADER_SIZE, VSOMEIP_TP_HEADER_SIZE, VSOMEIP_FULL_HEADER_SIZE,
    tp_max_segment_length_.
  do 3 rewrite bool_decide_false by width_lia.
  assert (more && bool_decide (Z.of_nat (length payload) mod 16 > 0) = false) as ->.
  { destruct more; [|done]. destruct (Hmore eq_refl) as [q ->].
    rewrite Z.mod_mul by done. done. }
  by rewrite !bool_decide_false by lia.
Qed.

(** The limit on the offset can be passed by wrapping around.  The check adds the
    offset and the size at 32 bits, so the offset [0xFFFFFFF0] is accepted for every
    configured maximum from 16 on, and the buffer is then resized to
    [16 + 0xFFFFFFF0 = 0] bytes: the header is lost and the payload stands alone. *)
Theorem tp_offset_wraps now mx payload :
  16 ≤ mx < 2 ^ 32 → length payload = 16%nat →
  ∃ m, tp_message_new now (sample_segment 0xFFFFFFF1 payload) mx = Ret m ∧
    segments_ m = [Segment 0xFFFFFFF0 (2 ^ 32 - 1)] ∧ mx ≤ 0xFFFFFFF0 + 15 ∧
    message_ m = payload.
Proof.
  intros Hmx Hp. unfold tp_message_new, VSOMEIP_FULL_HEADER_SIZE, VSOMEIP_TP_HEADER_SIZE,
    VSOMEIP_TP_PAYLOAD_POS. rewrite length_sample, Hp.
  rewrite bool_decide_false by lia. rewrite sample_tp_header by (vm_compute; done).
  rewrite (vrange_drop _ 0 16) by (rewrite ?length_sample; lia). rewrite outcome_bind_Ret.
  change (take _ _) with [0x12; 0x34; 0; 1; VSOMEIP_LONG_BYTE3 (12 + Z.of_nat (length payload));
    VSOMEIP_LONG_BYTE2 (12 + Z.of_nat (length payload)); VSOMEIP_LONG_BYTE1 (12 + Z.of_nat (length payload));
    VSOMEIP_LONG_BYTE0 (12 + Z.of_nat (length payload)); 0; 1; 0; 2; 1; 1; 0x20; 0].
  change (vget _ VSOMEIP_MESSAGE_TYPE_POS) with (Ret 0x20). rewrite outcome_bind_Ret.
  rewrite vset_ret by (vm_compute; done). rewrite !outcome_bind_Ret.
  replace (20 + Z.of_nat 16 - 16 - 4) with (Z.of_nat (length payload)) by lia.
  rewrite sample_check_lengths; [|vm_compute; done|lia| | |].
  2:{ intros _. rewrite Hp. by exists 1. }
  2:{ rewrite Hp. width_lia. }
  2:{ rewrite Hp. change (get_offset 0xFFFFFFF1) with 0xFFFFFFF0. width_lia. }
  rewrite outcome_bind_Ret. change (get_offset 0xFFFFFFF1) with 0xFFFFFFF0. cbv iota.
  rewrite (bool_decide_true (_ ≠ _)) by done. change (u32 (16 + 0xFFFFFFF0)) with 0.
  rewrite vrange_drop by (rewrite ?length_sample; lia). rewrite outcome_bind_Ret.
  eexists. split; [done|]. cbn [segments_ message_]. rewrite Hp.
  split_and!; [done|lia|].
  rewrite resize_0. cbn [app]. rewrite take_ge; [done|].
  unfold sample_segment. rewrite length_drop, !length_app. cbn [length be32 be24 app]. lia.
Qed.

Lemma tp_offset_wraps_witness :
  ∃ m, tp_message_new 0 (sample_segment 0xFFFFFFF1 (repeat 5 16)) 4096 = Ret m ∧
    segments_ m = [Segment 0xFFFFFFF0 (2 ^ 32 - 1)] ∧ 4096 ≤ 0xFFFFFFF0 + 15 ∧
    message_ m = repeat 5 16.
Proof. apply (tp_offset_wraps 0 4096 (repeat 5 16)); [lia|done]. Defined.

Lemma put_u32_cases l i v : put_u32 l i v = Undef ∨ ∃ l', put_u32 l i v = Ret l' ∧ length l' = length l.
Proof.
  unfold put_u32, vset.
  do 3 (case_bool_decide; [rewrite outcome_bind_Ret|by left]).
  case_bool_decide; [|by left]. right. eexists. split; [done|]. by rewrite !length_insert.
Qed.

(** A first datagram that is too short for a TP header.  It is stored with an empty
    buffer, and a later single segment of fewer than sixteen bytes is then taken for
    the complete message, whose length and return code are written outside the
    buffer. *)
Theorem short_first_segment_overwrites now first mx payload :
  (length first < 20)%nat → (length payload < 16)%nat → 16 ≤ mx < 2 ^ 32 →
  ∃ m, tp_message_new now first mx = Ret m ∧ message_ m = [] ∧
    add_segment (sample_segment 0 payload) m = Undef.
Proof.
  intros Hf Hp Hmx. eexists. split; [|split].
  { unfold tp_message_new, VSOMEIP_FULL_HEADER_SIZE, VSOMEIP_TP_HEADER_SIZE.
    rewrite bool_decide_true by lia. reflexivity. }
  { done. }
  assert (Hl := length_sample 0 payload).
  rewrite (add_segment_accepted _ _ 0); [|lia|by apply sample_tp_header|].
  2:{ cbn [max_message_size_ current_message_size_]. rewrite Hl.
      replace (20 + Z.of_nat (length payload) - 20) with (Z.of_nat (length payload)) by lia.
      apply sample_check_lengths; [done|lia|done|width_lia|].
      change (get_offset 0) with 0. width_lia. }
  rewrite Hl. replace (20 + Z.of_nat (length payload) - 20) with (Z.of_nat (length payload)) by lia.
  change (get_offset 0) with 0. cbn [segments_]. unfold emplace. cbn [existsb seg_split].
  rewrite outcome_bind_Ret. unfold place_last. cbn [last start_].
  unfold VSOMEIP_TP_PAYLOAD_POS. rewrite vrange_drop by (rewrite ?length_sample; lia).
  rewrite (bool_decide_false (0 ≠ 0)) by (intros H; by apply H). cbn [andb app].
  rewrite !outcome_bind_Ret. unfold finish_segment.
  change (more_segments 0) with false. cbn [andb segments_complete start_].
  rewrite (bool_decide_false (u32 _ ≠ 0)) by (vm_compute; intros H; by apply H).
  set (body := take _ _).
  assert (Hb : (length body < 16)%nat).
  { unfold body. rewrite length_take. lia. }
  clearbody body.
  destruct (put_u32_cases body VSOMEIP_LENGTH_POS_MIN
              (u32 (Z.of_nat (length body) - VSOMEIP_SOMEIP_HEADER_SIZE))) as [->|(l&->&Hll)]; [done|].
  rewrite outcome_bind_Ret. change (vget _ VSOMEIP_RETURN_CODE_POS) with (Ret 0).
  rewrite outcome_bind_Ret. unfold vset, VSOMEIP_RETURN_CODE_POS.
  by rewrite (bool_decide_false (0 ≤ 15 < _)) by lia.
Qed.

Lemma short_first_segment_overwrites_witness :
  ∃ m, tp_message_new 0 (repeat 0 16) 4096 = Ret m ∧ message_ m = [] ∧
    add_segment (sample_segment 0 [1; 2; 3]) m = Undef.
Proof. apply (short_first_segment_overwrites 0 (repeat 0 16) 4096 [1; 2; 3]); cbn; lia. Defined.
