(* ===== verification/TpReassembler.v ===== *)
(** Reassembly of the segmented messages of all senders:
    [endpoints/src/tp_reassembler.cpp].

    Unfinished messages are kept per sender address, port and message id; a timer
    drops those older than five seconds.  Time is in milliseconds, and the timer is
    the expiry time of the pending wait. *)
From S2P Require Import Prelude ByteOrder Message Tp TpMessage.

(** * State *)

Abbreviation tp_entry := (Z * tp_message)%type.
Abbreviation tp_by_id := (gmap Z tp_entry).
Abbreviation tp_by_port := (gmap Z tp_by_id).

Record tp_reassembler := Reassembler {
  r_max_message_size_ : Z;
  cleanup_timer_running_ : bool;
  cleanup_timer_ : option Z;
  tp_messages_ : gmap (list Z) tp_by_port }.

Definition tp_reassembler_new (max_message_size : Z) : tp_reassembler :=
  Reassembler max_message_size false None ∅.

Definition set_messages (ms : gmap (list Z) tp_by_port) (r : tp_reassembler) : tp_reassembler :=
  Reassembler (r_max_message_size_ r) (cleanup_timer_running_ r) (cleanup_timer_ r) ms.

(** * The cleanup timer *)

Definition cleanup_timer_start_unlocked (now : Z) (force : bool) (r : tp_reassembler) :
    tp_reassembler :=
  if negb (cleanup_timer_running_ r) || force
  then Reassembler (r_max_message_size_ r) true (Some (now + 5000)) (tp_messages_ r)
  else r.
Definition cleanup_timer_start := cleanup_timer_start_unlocked.

(** [map.empty() ? erase : keep]. *)
Definition nonempty {K A} `{Countable K} (m : gmap K A) : option (gmap K A) :=
  if bool_decide (m = ∅) then None else Some m.

Definition too_old (now : Z) (e : tp_entry) : bool :=
  bool_decide (now - timepoint_creation_ e.2 > 5000).

(** The three nested loops: unfinished messages that are too old are erased, and
    the ports and addresses left without messages with them. *)
Definition cleanup_unfinished_messages (now : Z) (r : tp_reassembler) : bool * tp_reassembler :=
  let ms := omap (λ ports : tp_by_port, nonempty
              (omap (λ ids : tp_by_id, nonempty
                 (omap (λ e : tp_entry, if too_old now e then None else Some e) ids)) ports))
              (tp_messages_ r) in
  (negb (bool_decide (ms = ∅)), set_messages ms r).


(** Cancelling drops the pending wait; its handler sees an error and does nothing. *)
Definition stop (r : tp_reassembler) : tp_reassembler :=
  Reassembler (r_max_message_size_ r) (cleanup_timer_running_ r) None (tp_messages_ r).

(** * Processing a datagram *)

Definition word_at (data : list Z) (i : Z) : outcome Z :=
  b0 ← vget data i; b1 ← vget data (i + 1); Ret (VSOMEIP_BYTES_TO_WORD b0 b1).

Definition tp_message_id (service method client interface_version msg_type : Z) : Z :=
  Z.lor (Z.lor (Z.lor (Z.lor (u64 (Z.shiftl service 48)) (u64 (Z.shiftl method 32)))
    (u64 (Z.shiftl client 16))) (u64 (Z.shiftl interface_version 8))) msg_type.

(** The message id and the session of a datagram. *)
Definition tp_id_session (data : list Z) : outcome (Z * Z) :=
  its_service ← word_at data 0;
  its_method ← word_at data 2;
  its_client ← word_at data 8;
  its_session ← word_at data 10;
  its_interface_version ← vget data 13;
  its_type ← vget data VSOMEIP_MESSAGE_TYPE_POS;
  let its_msg_type := tp_flag_unset its_type in
  Ret (tp_message_id its_service its_method its_client its_interface_version its_msg_type,
       its_session).

Definition process_tp_message (now : Z) (data : list Z) (address : list Z) (port : Z)
    (r : tp_reassembler) : outcome ((bool * list Z) * tp_reassembler) :=
  if bool_decide (Z.of_nat (length data) < VSOMEIP_FULL_HEADER_SIZE) then Ret ((false, []), r)
  else
    let r := cleanup_timer_start now false r in
    '(its_tp_message_id, its_session) ← tp_id_session data;
    let ms := tp_messages_ r in
    match ms !! address with
    | Some ports =>
        match ports !! port with
        | Some ids =>
            match ids !! its_tp_message_id with
            | Some (session, m) =>
                if bool_decide (session = its_session) then
                  '(complete, m) ← add_segment data m;
                  if (complete : bool) then
                    let ids := delete its_tp_message_id ids in
                    let ports := if bool_decide (ids = ∅) then delete port ports
                                 else <[port := ids]> ports in
                    let ms := if bool_decide (ids = ∅) && bool_decide (ports = ∅)
                              then delete address ms else <[address := ports]> ms in
                    Ret ((true, get_message m), set_messages ms r)
                  else
                    Ret ((false, []),
                         set_messages (<[address := <[port := <[its_tp_message_id :=
                           (session, m)]> ids]> ports]> ms) r)
                else
                  m ← tp_message_new now data (r_max_message_size_ r);
                  Ret ((false, []),
                       set_messages (<[address := <[port := <[its_tp_message_id :=
                         (its_session, m)]> ids]> ports]> ms) r)
            | None =>
                m ← tp_message_new now data (r_max_message_size_ r);
                Ret ((false, []),
                     set_messages (<[address := <[port := <[its_tp_message_id :=
                       (its_session, m)]> ids]> ports]> ms) r)
            end
        | None =>
            m ← tp_message_new now data (r_max_message_size_ r);
            Ret ((false, []),
                 set_messages (<[address := <[port := {[its_tp_message_id :=
                   (its_session, m)]}]> ports]> ms) r)
        end
    | None =>
        m ← tp_message_new now data (r_max_message_size_ r);
        Ret ((false, []),
             set_messages (<[address := {[port := {[its_tp_message_id := (its_session, m)]}]}]> ms) r)
    end.

(** * The messages as one map *)

(** The unfinished message of a sender, by id. *)
Definition tp_lookup (r : tp_reassembler) (k : list Z * Z * Z) : option tp_entry :=
  let '(address, port, id) := k in
  ports ← tp_messages_ r !! address; ids ← (ports : tp_by_port) !! port; (ids : tp_by_id) !! id.

(** No address without ports and no port without messages. *)
Definition no_empty (r : tp_reassembler) : Prop :=
  map_Forall (λ _ ports, ports ≠ ∅ ∧ map_Forall (λ _ (ids : tp_by_id), ids ≠ ∅) ports)
    (tp_messages_ r).

(** What a datagram does to the message it belongs to. *)
Definition tp_step (now mx : Z) (data : list Z) (session : Z) (e : option tp_entry) :
    outcome ((bool * list Z) * option tp_entry) :=
  match e with
  | Some (s, m) =>
      if bool_decide (s = session) then
        '(complete, m) ← add_segment data m;
        if (complete : bool) then Ret ((true, get_message m), None)
        else Ret ((false, []), Some (s, m))
      else
        m ← tp_message_new now data mx; Ret ((false, []), Some (session, m))
  | None => m ← tp_message_new now data mx; Ret ((false, []), Some (session, m))
  end.

(** ** Updates of the nested map *)

Lemma cleanup_timer_start_messages now f r :
  tp_messages_ (cleanup_timer_start now f r) = tp_messages_ r ∧
  r_max_message_size_ (cleanup_timer_start now f r) = r_max_message_size_ r.
Proof. unfold cleanup_timer_start, cleanup_timer_start_unlocked. by destruct (_ || _). Qed.

(** Storing an entry below an address and a port. *)
Lemma tp_lookup_insert r a p i e (ports : tp_by_port) (ids : tp_by_id) k :
  default ∅ (tp_messages_ r !! a) = ports → default ∅ (ports !! p) = ids →
  tp_lookup (set_messages (<[a := <[p := <[i := e]> ids]> ports]> (tp_messages_ r)) r) k =
    if decide (k = (a, p, i)) then Some e else tp_lookup r k.
Proof.
  intros <- <-. destruct k as [[a' p'] i']. unfold tp_lookup, set_messages. cbn [tp_messages_].
  destruct (decide (a' = a)) as [->|Ha]; [|rewrite lookup_insert_ne by done; case_decide; naive_solver].
  rewrite lookup_insert_eq. cbn [mbind option_bind].
  destruct (decide (p' = p)) as [->|Hp].
  - rewrite lookup_insert_eq. cbn [mbind option_bind].
    destruct (decide (i' = i)) as [->|Hi].
    + by rewrite lookup_insert_eq, decide_True by done.
    + rewrite lookup_insert_ne, decide_False by naive_solver.
      destruct (tp_messages_ r !! a) as [ports|]; cbn; [|by rewrite lookup_empty].
      by destruct (ports !! p).
  - rewrite lookup_insert_ne, decide_False by naive_solver.
    by destruct (tp_messages_ r !! a) as [ports|].
Qed.

Lemma no_empty_insert r a p i e (ports : tp_by_port) (ids : tp_by_id) :
  default ∅ (tp_messages_ r !! a) = ports → default ∅ (ports !! p) = ids →
  no_empty r →
  no_empty (set_messages (<[a := <[p := <[i := e]> ids]> ports]> (tp_messages_ r)) r).
Proof.
  intros <- <- Hr. unfold no_empty, set_messages. cbn [tp_messages_].
  apply map_Forall_insert_2; [|exact Hr]. split; [apply insert_non_empty|].
  apply map_Forall_insert_2; [apply insert_non_empty|].
  destruct (tp_messages_ r !! a) as [ports|] eqn:E; [|apply map_Forall_empty].
  cbn. by apply (Hr a ports E).
Qed.

(** Erasing a completed message, with the maps that become empty. *)
Lemma tp_lookup_erase r a p i (ports : tp_by_port) (ids : tp_by_id) k :
  tp_messages_ r !! a = Some ports → ports !! p = Some ids →
  let ids' := delete i ids in
  let ports' := if bool_decide (ids' = ∅) then delete p ports else <[p := ids']> ports in
  let ms := if bool_decide (ids' = ∅) && bool_decide (ports' = ∅)
            then delete a (tp_messages_ r) else <[a := ports']> (tp_messages_ r) in
  tp_lookup (set_messages ms r) k = (if decide (k = (a, p, i)) then None else tp_lookup r k) ∧
  (no_empty r → no_empty (set_messages ms r)).
Proof.
  intros Ea Ep ids' ports' ms.
  assert (Hids : ∀ i', ids' !! i' = if decide (i' = i) then None else ids !! i').
  { intros i'. unfold ids'. case_decide as H; [subst; apply lookup_delete_eq|by apply lookup_delete_ne]. }
  assert (Hports : ∀ p' i', (x ← ports' !! p'; (x : tp_by_id) !! i') =
            if decide ((p', i') = (p, i)) then None else (x ← ports !! p'; (x : tp_by_id) !! i')).
  { intros p' i'. unfold ports'. destruct (decide (p' = p)) as [->|Hp].
    - rewrite Ep. cbn [mbind option_bind].
      assert (E : (x ← (if bool_decide (ids' = ∅) then delete p ports else <[p:=ids']> ports) !! p;
                   (x : tp_by_id) !! i') = ids' !! i').
      { case_bool_decide as H; [rewrite lookup_delete_eq, H; by rewrite lookup_empty|].
        by rewrite lookup_insert_eq. }
      rewrite E, Hids. repeat case_decide; naive_solver.
    - rewrite decide_False by naive_solver.
      case_bool_decide; [by rewrite lookup_delete_ne by done|by rewrite lookup_insert_ne by done]. }
  split.
  - destruct k as [[a' p'] i']. unfold tp_lookup, set_messages, ms. cbn [tp_messages_].
    destruct (decide (a' = a)) as [->|Ha].
    + rewrite Ea. cbn [mbind option_bind].
      assert (E : (y ← (if bool_decide (ids' = ∅) && bool_decide (ports' = ∅)
                        then delete a (tp_messages_ r) else <[a:=ports']> (tp_messages_ r)) !! a;
                   x ← (y : tp_by_port) !! p'; (x : tp_by_id) !! i') =
                  (x ← ports' !! p'; (x : tp_by_id) !! i')).
      { destruct (bool_decide (ids' = ∅)) eqn:E1, (bool_decide (ports' = ∅)) eqn:E2; cbn [andb];
          rewrite ?lookup_insert_eq, ?lookup_delete_eq; try done.
        apply bool_decide_eq_true in E2. by rewrite E2, lookup_empty. }
      rewrite E, Hports. repeat case_decide; naive_solver.
    + rewrite (decide_False (P := (a', p', i') = (a, p, i))) by naive_solver.
      destruct (_ && _); [by rewrite lookup_delete_ne by done|by rewrite lookup_insert_ne by done].
  - intros Hr. unfold no_empty, set_messages, ms. cbn [tp_messages_].
    destruct (Hr a ports Ea) as [_ Hp].
    destruct (bool_decide (ids' = ∅)) eqn:E1; cbn [andb].
    + destruct (decide (ports' = ∅)) as [E2|E2];
        [rewrite bool_decide_true by done; by apply map_Forall_delete|].
      rewrite (bool_decide_false (ports' = ∅)) by done.
      apply map_Forall_insert_2; [|exact Hr]. split; [done|]. by apply map_Forall_delete.
    + apply bool_decide_eq_false in E1.
      apply map_Forall_insert_2; [|exact Hr]. split; [apply insert_non_empty|].
      by apply map_Forall_insert_2.
Qed.

(** ** The creation time of a message *)






(** * Processing refines one map from senders and ids to unfinished messages *)

(** The datagram's own key is updated as [tp_step] says, every other key is left
    alone, and no empty map is left behind. *)
Lemma process_refines now data a p r i session :
  16 ≤ Z.of_nat (length data) → tp_id_session data = Ret (i, session) →
  match tp_step now (r_max_message_size_ r) data session (tp_lookup r (a, p, i)) with
  | Ret (out, e) => ∃ r', process_tp_message now data a p r = Ret (out, r') ∧
      (∀ k, tp_lookup r' k = if decide (k = (a, p, i)) then e else tp_lookup r k) ∧
      (no_empty r → no_empty r') ∧
      ∃ ms, r' = set_messages ms (cleanup_timer_start now false r)
  | Throw x => process_tp_message now data a p r = Throw x
  | Undef => process_tp_message now data a p r = Undef
  | NoFuel => process_tp_message now data a p r = NoFuel
  end.
Proof.
  intros Hl Hid. unfold process_tp_message, VSOMEIP_FULL_HEADER_SIZE.
  rewrite bool_decide_false by lia. rewrite Hid, outcome_bind_Ret. cbv zeta.
  destruct (cleanup_timer_start_messages now false r) as [Em Emx].
  set (r1 := cleanup_timer_start now false r) in *. rewrite Emx.
  assert (Elk : ∀ k, tp_lookup r1 k = tp_lookup r k).
  { intros [[a' p'] i']. unfold tp_lookup. by rewrite Em. }
  assert (Ene : no_empty r → no_empty r1) by (unfold no_empty; by rewrite Em).
  assert (Hnew : ∀ ports ids, default ∅ (tp_messages_ r1 !! a) = ports → default ∅ (ports !! p) = ids →
    ∀ e, (∀ k, tp_lookup (set_messages (<[a := <[p := <[i := e]> ids]> ports]> (tp_messages_ r1)) r1) k =
          if decide (k = (a, p, i)) then Some e else tp_lookup r k) ∧
      (no_empty r → no_empty (set_messages (<[a := <[p := <[i := e]> ids]> ports]> (tp_messages_ r1)) r1)) ∧
      ∃ ms, set_messages (<[a := <[p := <[i := e]> ids]> ports]> (tp_messages_ r1)) r1 =
            set_messages ms r1).
  { intros ports ids Hp Hi e. split_and!; [|intros H; apply no_empty_insert; auto|by eexists].
    intros k. rewrite (tp_lookup_insert r1 a p i e ports ids k Hp Hi). by rewrite Elk. }
  assert (El : tp_lookup r (a, p, i) =
    ports ← tp_messages_ r1 !! a; ids ← (ports : tp_by_port) !! p; (ids : tp_by_id) !! i) by (symmetry; apply (Elk (a, p, i))).
  rewrite El. clear El. unfold tp_step.
  destruct (tp_messages_ r1 !! a) as [ports|] eqn:Ea; cbn [mbind option_bind];
    [destruct (ports !! p) as [ids|] eqn:Ep; cbn [mbind option_bind];
      [destruct (ids !! i) as [[s m]|] eqn:Ei; [case_bool_decide as Hs|]|]|].
  - destruct (add_segment data m) as [[[] m']| | |]; try done; rewrite !outcome_bind_Ret.
    + eexists. split; [done|].
      assert (He := λ k, tp_lookup_erase r1 a p i ports ids k Ea Ep). cbv zeta in He.
      split_and!; [|intros H; by apply (He (a, p, i)), Ene|by eexists].
      intros k. by rewrite (proj1 (He k)), Elk.
    + eexists. split; [done|]. apply Hnew; [done|by rewrite Ep].
  - destruct (tp_message_new _ _ _) as [m'| | |]; try done; rewrite !outcome_bind_Ret.
    eexists. split; [done|]. apply Hnew; [done|by rewrite Ep].
  - destruct (tp_message_new _ _ _) as [m'| | |]; try done; rewrite !outcome_bind_Ret.
    eexists. split; [done|]. apply Hnew; [done|by rewrite Ep].
  - destruct (tp_message_new _ _ _) as [m'| | |]; try done; rewrite !outcome_bind_Ret.
    eexists. split; [done|]. rewrite <- insert_empty. apply Hnew; [done|by rewrite Ep].
  - destruct (tp_message_new _ _ _) as [m'| | |]; try done; rewrite !outcome_bind_Ret.
    eexists. split; [done|]. rewrite <- !insert_empty. apply (Hnew ∅); [done|done].
Qed.

(** ** Traces *)

(** A datagram: when it arrived, its bytes, and its sender. *)
Record datagram := Datagram { at_ : Z; bytes_ : list Z; from_ : list Z; port_ : Z }.

Fixpoint run (ds : list datagram) (r : tp_reassembler) :
    outcome (list (bool * list Z) * tp_reassembler) :=
  match ds with
  | [] => Ret ([], r)
  | d :: ds =>
      '(out, r) ← process_tp_message (at_ d) (bytes_ d) (from_ d) (port_ d) r;
      '(outs, r) ← run ds r;
      Ret (out :: outs, r)
  end.

(** The key of a datagram, [None] if it has no SOME/IP header. *)
Definition key_of (d : datagram) : option (list Z * Z * Z) :=
  if bool_decide (Z.of_nat (length (bytes_ d)) < VSOMEIP_FULL_HEADER_SIZE) then None
  else match tp_id_session (bytes_ d) with
       | Ret (i, _) => Some (from_ d, port_ d, i)
       | _ => None
       end.
Definition session_of (d : datagram) : Z :=
  match tp_id_session (bytes_ d) with Ret (_, s) => s | _ => 0 end.

(** The specification of one key: its datagrams are applied to its message. *)
Fixpoint run_key (mx : Z) (ds : list datagram) (e : option tp_entry) :
    outcome (list (bool * list Z) * option tp_entry) :=
  match ds with
  | [] => Ret ([], e)
  | d :: ds =>
      '(out, e) ← tp_step (at_ d) mx (bytes_ d) (session_of d) e;
      '(outs, e) ← run_key mx ds e;
      Ret (out :: outs, e)
  end.

(** The results of the datagrams of one key. *)
Fixpoint outs_of (k : list Z * Z * Z) (ds : list datagram) (outs : list (bool * list Z)) :
    list (bool * list Z) :=
  match ds, outs with
  | d :: ds, out :: outs =>
      if decide (key_of d = Some k) then out :: outs_of k ds outs else outs_of k ds outs
  | _, _ => []
  end.

Lemma tp_id_session_returns data : 16 ≤ Z.of_nat (length data) →
  ∃ i s, tp_id_session data = Ret (i, s).
Proof.
  intros Hl. destruct (header_view data) as (?&?&?&?&?&?&?&?&?&?&?&?&?&?&?&?&p&->); [lia|].
  do 2 eexists. reflexivity.
Qed.

Lemma process_max now data a p r out r' : process_tp_message now data a p r = Ret (out, r') →
  r_max_message_size_ r' = r_max_message_size_ r.
Proof.
  intros H. destruct (cleanup_timer_start_messages now false r) as [_ Emx].
  unfold process_tp_message in H. outcome_inv H; subst; try done; exact Emx.
Qed.

(** One datagram, seen from one key. *)
Lemma process_key now data a p r out r' k :
  process_tp_message now data a p r = Ret (out, r') →
  if decide (key_of (Datagram now data a p) = Some k)
  then tp_step now (r_max_message_size_ r) data (session_of (Datagram now data a p))
         (tp_lookup r k) = Ret (out, tp_lookup r' k)
  else tp_lookup r' k = tp_lookup r k.
Proof.
  intros H. unfold key_of, session_of. cbn [bytes_ from_ port_].
  destruct (decide (Z.of_nat (length data) < VSOMEIP_FULL_HEADER_SIZE)) as [Hs|Hs].
  { rewrite bool_decide_true, decide_False by done. unfold process_tp_message in H.
    rewrite bool_decide_true in H by done. by injection H as _ <-. }
  rewrite bool_decide_false by done. unfold VSOMEIP_FULL_HEADER_SIZE in Hs.
  destruct (tp_id_session_returns data) as (i&s&Hid); [lia|]. rewrite Hid.
  assert (Href := process_refines now data a p r i s ltac:(lia) Hid).
  destruct (tp_step now (r_max_message_size_ r) data s (tp_lookup r (a, p, i)))
    as [[out' e]| | |] eqn:E; try congruence.
  destruct Href as (r''&H'&Hlk&_). rewrite H' in H. injection H as -> ->.
  case_decide as Hk.
  - injection Hk as <-. rewrite E. f_equal. f_equal. rewrite Hlk. by rewrite decide_True.
  - rewrite Hlk, decide_False by congruence. done.
Qed.

Lemma run_key_refines ds : ∀ r outs r' k, run ds r = Ret (outs, r') →
  run_key (r_max_message_size_ r) (filter (λ d, key_of d = Some k) ds) (tp_lookup r k) =
    Ret (outs_of k ds outs, tp_lookup r' k).
Proof.
  induction ds as [|[t data a p] ds IH]; intros r outs r' k H; cbn [run] in H.
  { by injection H as <- <-. }
  cbn [at_ bytes_ from_ port_] in H.
  apply outcome_bind_inv in H as ([out r1]&E1&H).
  apply outcome_bind_inv in H as ([outs1 r2]&E2&H). injection H as <- <-.
  specialize (IH _ _ _ k E2). rewrite (process_max _ _ _ _ _ _ _ E1) in IH.
  assert (Hk := process_key t data a p r out r1 k E1). cbn [outs_of].
  destruct (decide (key_of (Datagram t data a p) = Some k)) as [Hd|Hd].
  - rewrite filter_cons_True by done. cbn [run_key at_ bytes_].
    by rewrite Hk, outcome_bind_Ret, IH, outcome_bind_Ret.
  - rewrite filter_cons_False by done. by rewrite <- Hk.
Qed.

(** * Theorems *)

(** C38: senders and messages do not interfere.  For every trace of datagrams that is
    processed without undefined behaviour, and every key (address, port, message id),
    the results of the datagrams of that key and the unfinished message of that key
    are those of running its own datagrams alone against a single slot, where a
    datagram of another session replaces the message and a completed message leaves
    the slot; the nested maps never keep an empty map. *)
Theorem tp_process_refines_slots ds r outs r' k :
  no_empty r → run ds r = Ret (outs, r') →
  run_key (r_max_message_size_ r) (filter (λ d, key_of d = Some k) ds) (tp_lookup r k) =
    Ret (outs_of k ds outs, tp_lookup r' k) ∧ no_empty r'.
Proof.
  intros Hr H. split; [by apply run_key_refines|]. revert r outs Hr H.
  induction ds as [|[t data a p] ds IH]; intros r outs Hr H; cbn [run] in H.
  { by injection H as <- <-. }
  cbn [at_ bytes_ from_ port_] in H.
  apply outcome_bind_inv in H as ([out r1]&E1&H).
  apply outcome_bind_inv in H as ([outs1 r2]&E2&H). injection H as <- <-.
  eapply IH; [|exact E2].
  destruct (decide (Z.of_nat (length data) < 16)) as [Hs|Hs].
  { unfold process_tp_message in E1. rewrite bool_decide_true in E1 by done.
    by injection E1 as _ <-. }
  destruct (tp_id_session_returns data) as (i&s&Hid); [lia|].
  assert (Href := process_refines t data a p r i s ltac:(lia) Hid).
  destruct (tp_step t _ data s _) as [[out' e]| | |]; try congruence.
  destruct Href as (r''&H'&_&Hne&_). rewrite H' in E1. injection E1 as _ <-. auto.
Qed.

Lemma tp_process_refines_slots_witness :
  let d1 := Datagram 0 (sample_segment 1 (repeat 1 16)) [10; 0; 0; 1] 30509 in
  let d2 := Datagram 1 (sample_segment 1 (repeat 2 16)) [10; 0; 0; 2] 30509 in
  ∃ outs r', run [d1; d2] (tp_reassembler_new 4096) = Ret (outs, r') ∧
    run_key 4096 [d2] None = Ret (outs_of ([10; 0; 0; 2], 30509, 0x1234000100010100) [d1; d2] outs,
                                  tp_lookup r' ([10; 0; 0; 2], 30509, 0x1234000100010100)) ∧
    no_empty r'.
Proof.
  intros d1 d2. eexists _, _. split; [vm_compute; reflexivity|].
  apply (tp_process_refines_slots [d1; d2] (tp_reassembler_new 4096) _ _
           ([10; 0; 0; 2], 30509, 0x1234000100010100)).
  - apply map_Forall_empty.
  - vm_compute. reflexivity.
Defined.

(** ** Delivery *)

Lemma segment_id_session data mx k : 1416 ≤ Z.of_nat (length data) ≤ mx → bytes data →
  tp_flag_is_set (nth 14 data 0) = false →
  tp_id_session (tp_segment data k) = tp_id_session data.
Proof.
  intros Hl Hb Hf. destruct (tp_flag_cleared data mx Hl Hb Hf) as [Hc Hc'].
  rewrite (tp_segment_eq data k). unfold seg_header.
  destruct (header_view data) as (h0&h1&h2&h3&h4&h5&h6&h7&h8&h9&h10&h11&h12&h13&h14&h15&q&E); [lia|].
  generalize dependent (12 + chunk_size data k). generalize dependent (be32 (tp_header_of (orig data) k)).
  generalize (tp_chunk (orig data) k). intros ch hd len.
  rewrite E in *. cbn [nth] in Hc, Hc'.
  pose (W := VSOMEIP_BYTES_TO_WORD).
  change (Ret (tp_message_id (W h0 h1) (W h2 h3) (W h8 h9) h13 (tp_flag_unset (Z.lor h14 TP_FLAG)),
               W h10 h11) =
          Ret (tp_message_id (W h0 h1) (W h2 h3) (W h8 h9) h13 (tp_flag_unset h14), W h10 h11)).
  by rewrite Hc, Hc'.
Qed.

(** A slot sees what [receive] returns for the datagrams of its session. *)
Lemma run_key_receive mx s ts : ∀ m m', Forall (λ d, session_of d = s) ts → ts ≠ [] →
  receive (bytes_ <$> ts) m = Ret (replicate (length ts - 1) false ++ [true], m') →
  run_key mx ts (Some (s, m)) =
    Ret (replicate (length ts - 1) (false, []) ++ [(true, get_message m')], None).
Proof.
  induction ts as [|d ts IH]; intros m m' Hs Hne Hr; [done|].
  apply Forall_cons in Hs as [Hd Hs]. rewrite fmap_cons in Hr. cbn [receive] in Hr.
  apply outcome_bind_inv in Hr as ([b m1]&E1&Hr).
  apply outcome_bind_inv in Hr as ([bs m2]&E2&Hr).
  cbn [run_key]. unfold tp_step. rewrite Hd, bool_decide_true, E1, outcome_bind_Ret by done.
  destruct ts as [|d' ts].
  - cbn [fmap list_fmap receive] in E2. injection E2 as <- <-. cbn in Hr. by injection Hr as -> ->.
  - cbn [length] in Hr |- *. rewrite Nat.sub_1_r in Hr |- *. cbn [Nat.pred replicate app] in Hr |- *.
    injection Hr as -> -> ->. rewrite outcome_bind_Ret.
    assert (El : (length (d' :: ts) - 1 = length ts)%nat) by (cbn; lia).
    rewrite (IH m1 m'), El, outcome_bind_Ret by (by rewrite ?El). done.
Qed.

(** The segments of a message, applied to an empty slot. *)
Lemma run_key_segments data mx k order d ts i s :
  1416 ≤ Z.of_nat (length data) ≤ mx → mx < 2 ^ 32 → bytes data →
  tp_flag_is_set (nth 14 data 0) = false →
  k :: order ≡ₚ seq 0 (tp_count (tp_payload data)) →
  bytes_ d = tp_segment data k → bytes_ <$> ts = tp_segment data <$> order →
  tp_id_session data = Ret (i, s) →
  run_key mx (d :: ts) None =
    Ret ((false, []) :: replicate (length ts - 1) (false, []) ++ [(true, tp_result data)], None).
Proof.
  intros Hl Hmx Hb Hf Hp Hd Hts Hid.
  destruct (reassembles data mx (at_ d) k order Hl Hmx Hb Hf Hp) as (m0&m&E0&Er&Hm&Hne).
  assert (Hsess : ∀ d' k', bytes_ d' = tp_segment data k' → session_of d' = s).
  { intros d' k' E. unfold session_of. by rewrite E, (segment_id_session data mx), Hid. }
  assert (Hlen : length ts = length order).
  { rewrite <- (length_fmap bytes_ ts), Hts. apply length_fmap. }
  cbn [run_key tp_step]. rewrite Hd, E0, !outcome_bind_Ret, (Hsess d k Hd).
  rewrite (run_key_receive mx s ts m0 m); [by rewrite outcome_bind_Ret, Hm| | |].
  - apply Forall_forall. intros d' Hd'.
    assert (Hin : bytes_ d' ∈ tp_segment data <$> order).
    { rewrite <- Hts. by apply list_elem_of_fmap_2. }
    apply list_elem_of_fmap in Hin as (k'&E&_). by apply (Hsess d' k').
  - intros ->. destruct order; [done|]. cbn in Hlen. lia.
  - by rewrite Hts, Hlen.
Qed.

(** C12: a split message is delivered. Consider a trace of datagrams in which the timer
    that removes unfinished messages does not expire, and in which no datagram, of other
    keys either, is undefined behaviour (so that the trace runs to its end). Let the
    datagrams of one key be, in some order, the segments [tp_split_message] made of a
    message of at least 1416 bytes and at most the maximum size, and let the reassembler
    hold nothing for that key before. However they are interleaved with other traffic, they
    report nothing until the last of them arrives, which reports the original message with
    its length field recomputed, and nothing is left for the key. *)
Theorem tp_reassembler_delivers data segs r ds outs r' d ts k :
  1416 ≤ Z.of_nat (length data) ≤ r_max_message_size_ r → r_max_message_size_ r < 2 ^ 32 →
  bytes data → tp_flag_is_set (nth 14 data 0) = false →
  tp_split_message data = Ret segs →
  filter (λ d, key_of d = Some k) ds = d :: ts → bytes_ <$> (d :: ts) ≡ₚ segs →
  tp_lookup r k = None → run ds r = Ret (outs, r') →
  outs_of k ds outs =
    replicate (length ts) (false, []) ++
    [(true, take 4 data ++ be32 (Z.of_nat (length data) - 8) ++ drop 8 data)] ∧
  tp_lookup r' k = None.
Proof.
  intros Hl Hmx Hb Hf Hs Hfilt Hp Hr Hrun.
  assert (Hkey := run_key_refines ds r outs r' k Hrun). rewrite Hfilt, Hr in Hkey.
  destruct (segments_order data segs (bytes_ d) (bytes_ <$> ts)) as (j&order&Ed&Ets&Hp');
    [lia|done|done|].
  destruct (tp_id_session_returns data) as (i&s&Hid); [lia|].
  rewrite (run_key_segments data _ j order d ts i s) in Hkey by done.
  injection Hkey as <- <-. split; [|done].
  assert (Hts : (0 < length ts)%nat).
  { destruct (reassembles data _ 0 j order Hl Hmx Hb Hf Hp') as (_&_&_&_&_&Hne).
    rewrite <- (length_fmap bytes_ ts), Ets, length_fmap. by destruct order; cbn; [|lia]. }
  replace (length ts) with (S (length ts - 1)) at 2 by lia. done.
Qed.

(** Three segments of one message, out of order, with a datagram of another sender
    in between. *)
Definition sample_trace : list datagram :=
  let seg k := Datagram 5 (tp_segment sample_tp_message k) [10; 0; 0; 1] 30509 in
  [seg 2%nat; seg 0%nat; Datagram 7 (sample_segment 1 (repeat 1 16)) [10; 0; 0; 2] 30509; seg 1%nat].

Lemma tp_reassembler_delivers_witness :
  match run sample_trace (tp_reassembler_new 4096) with
  | Ret (outs, r') =>
      outs_of ([10; 0; 0; 1], 30509, 0x1234000100010100) sample_trace outs =
        replicate 2 (false, []) ++
        [(true, take 4 sample_tp_message ++ be32 (Z.of_nat (length sample_tp_message) - 8) ++
                drop 8 sample_tp_message)] ∧
      tp_lookup r' ([10; 0; 0; 1], 30509, 0x1234000100010100) = None
  | _ => False
  end.
Proof.
  assert (Hret : match run sample_trace (tp_reassembler_new 4096) with
                 | Ret _ => True | _ => False end) by (vm_compute; done).
  revert Hret. generalize (eq_refl (run sample_trace (tp_reassembler_new 4096))).
  generalize (run sample_trace (tp_reassembler_new 4096)) at 2 3 4.
  intros [[outs r']| | |] E Hret; [|destruct Hret..].
  apply (tp_reassembler_delivers sample_tp_message
           (tp_segment sample_tp_message <$> [0; 1; 2]%nat) (tp_reassembler_new 4096) sample_trace
           outs r' (Datagram 5 (tp_segment sample_tp_message 2) [10; 0; 0; 1] 30509)
           [Datagram 5 (tp_segment sample_tp_message 0) [10; 0; 0; 1] 30509;
            Datagram 5 (tp_segment sample_tp_message 1) [10; 0; 0; 1] 30509]).
  - clear E. vm_compute. done.
  - clear E. vm_compute. done.
  - clear E. apply sample_tp_message_bytes.
  - clear E. done.
  - clear E. apply tp_split_message_segments. vm_compute. done.
  - clear E. vm_compute. reflexivity.
  - clear E. change (tp_segment sample_tp_message <$> [0; 1; 2]%nat) with
      ((tp_segment sample_tp_message <$> [0; 1]%nat) ++ [tp_segment sample_tp_message 2]).
    apply Permutation_cons_append.
  - clear E. done.
  - exact E.
Defined.

(** ** Cleaning up *)

Lemma nonempty_bind {K A B} `{Countable K} (m : gmap K A) i (f : A → option B) :
  (x ← nonempty m; x !! i ≫= f) = m !! i ≫= f.
Proof. unfold nonempty. case_bool_decide as E; [|done]. by rewrite E, lookup_empty. Qed.
Lemma nonempty_lookup {K A} `{Countable K} (m : gmap K A) i : (x ← nonempty m; x !! i) = m !! i.
Proof. unfold nonempty. case_bool_decide as E; [|done]. by rewrite E, lookup_empty. Qed.

Lemma cleanup_lookup now r k :
  tp_lookup (cleanup_unfinished_messages now r).2 k =
    (e ← tp_lookup r k; if too_old now e then None else Some e).
Proof.
  destruct k as [[a p] i]. unfold cleanup_unfinished_messages, tp_lookup.
  cbn [snd set_messages tp_messages_].
  rewrite lookup_omap. destruct (tp_messages_ r !! a) as [ports|]; cbn [mbind option_bind]; [|done].
  change (option_bind ?A ?B ?f ?x) with (x ≫= f).
  rewrite nonempty_bind, lookup_omap. destruct (ports !! p) as [ids|]; [|done].
  cbn [mbind option_bind]. change (option_bind ?A ?B ?f ?x) with (x ≫= f).
  rewrite nonempty_lookup, lookup_omap. by destruct (ids !! i).
Qed.

Lemma cleanup_no_empty now r : no_empty (cleanup_unfinished_messages now r).2.
Proof.
  intros a ports. cbn [cleanup_unfinished_messages snd set_messages tp_messages_].
  rewrite lookup_omap. destruct (tp_messages_ r !! a) as [ports0|]; [|done]. cbn [mbind option_bind].
  unfold nonempty at 1. case_bool_decide as E; [done|]. intros [= <-]. split; [done|].
  intros p ids. rewrite lookup_omap. destruct (ports0 !! p) as [ids0|]; [|done].
  cbn [mbind option_bind]. unfold nonempty. case_bool_decide as E'; [done|]. by intros [= <-].
Qed.

(** A map without empty maps holds a message unless it is empty. *)
Lemma no_empty_lookup r : no_empty r → tp_messages_ r ≠ ∅ → ∃ k e, tp_lookup r k = Some e.
Proof.
  intros Hr Hne. apply map_choose in Hne as (a&ports&Ea).
  destruct (Hr a ports Ea) as [Hp Hi]. apply map_choose in Hp as (p&ids&Ep).
  destruct (map_choose ids (Hi p ids Ep)) as (i&e&Ei).
  exists (a, p, i), e. unfold tp_lookup. rewrite Ea. cbn. rewrite Ep. done.
Qed.

(** The cleanup drops exactly the messages that are older than five seconds.  Every
    younger message stays as it is, no empty map is left, and the result says whether
    any message is left. *)
Theorem cleanup_drops_old now r :
  let '(unfinished, r') := cleanup_unfinished_messages now r in
  (∀ k e, tp_lookup r' k = Some e ↔
     tp_lookup r k = Some e ∧ now - timepoint_creation_ e.2 ≤ 5000) ∧
  no_empty r' ∧ (unfinished = true ↔ ∃ k e, tp_lookup r' k = Some e).
Proof.
  assert (Hl := cleanup_lookup now r). assert (Hn := cleanup_no_empty now r).
  destruct (cleanup_unfinished_messages now r) as [u r'] eqn:E. cbn [snd] in *.
  split_and!; [|done|].
  - intros k e. rewrite Hl. destruct (tp_lookup r k) as [e'|]; cbn; [|naive_solver].
    unfold too_old. case_bool_decide; split; try naive_solver lia.
  - injection E as <- <-. rewrite negb_true_iff, bool_decide_eq_false. split.
    + by apply (no_empty_lookup _ Hn).
    + intros ([[a p] i]&e&Hk) He. unfold tp_lookup in Hk. cbn [set_messages tp_messages_] in *.
      by rewrite He, lookup_empty in Hk.
Qed.

(** ** The timer as a state machine *)









