(* ===== verification/E2eCrc.v ===== *)
(** The cyclic redundancy checks of end-to-end protection:
    [e2e_protection/src/crc/crc.cpp].

    Each check is driven by a table of 256 entries.  The reference definition
    divides bit by bit; the tables are shown to hold its results, and the checks to
    detect every change of a single byte. *)
From S2P Require Import Prelude.

(** * The lookup tables *)

Definition lookup_table_profile_01_ : list Z :=
  [0x00; 0x1D; 0x3A; 0x27; 0x74; 0x69; 0x4E; 0x53; 0xE8; 0xF5; 0xD2; 0xCF; 0x9C; 0x81; 0xA6; 0xBB;
   0xCD; 0xD0; 0xF7; 0xEA; 0xB9; 0xA4; 0x83; 0x9E; 0x25; 0x38; 0x1F; 0x02; 0x51; 0x4C; 0x6B; 0x76;
   0x87; 0x9A; 0xBD; 0xA0; 0xF3; 0xEE; 0xC9; 0xD4; 0x6F; 0x72; 0x55; 0x48; 0x1B; 0x06; 0x21; 0x3C;
   0x4A; 0x57; 0x70; 0x6D; 0x3E; 0x23; 0x04; 0x19; 0xA2; 0xBF; 0x98; 0x85; 0xD6; 0xCB; 0xEC; 0xF1;
   0x13; 0x0E; 0x29; 0x34; 0x67; 0x7A; 0x5D; 0x40; 0xFB; 0xE6; 0xC1; 0xDC; 0x8F; 0x92; 0xB5; 0xA8;
   0xDE; 0xC3; 0xE4; 0xF9; 0xAA; 0xB7; 0x90; 0x8D; 0x36; 0x2B; 0x0C; 0x11; 0x42; 0x5F; 0x78; 0x65;
   0x94; 0x89; 0xAE; 0xB3; 0xE0; 0xFD; 0xDA; 0xC7; 0x7C; 0x61; 0x46; 0x5B; 0x08; 0x15; 0x32; 0x2F;
   0x59; 0x44; 0x63; 0x7E; 0x2D; 0x30; 0x17; 0x0A; 0xB1; 0xAC; 0x8B; 0x96; 0xC5; 0xD8; 0xFF; 0xE2;
   0x26; 0x3B; 0x1C; 0x01; 0x52; 0x4F; 0x68; 0x75; 0xCE; 0xD3; 0xF4; 0xE9; 0xBA; 0xA7; 0x80; 0x9D;
   0xEB; 0xF6; 0xD1; 0xCC; 0x9F; 0x82; 0xA5; 0xB8; 0x03; 0x1E; 0x39; 0x24; 0x77; 0x6A; 0x4D; 0x50;
   0xA1; 0xBC; 0x9B; 0x86; 0xD5; 0xC8; 0xEF; 0xF2; 0x49; 0x54; 0x73; 0x6E; 0x3D; 0x20; 0x07; 0x1A;
   0x6C; 0x71; 0x56; 0x4B; 0x18; 0x05; 0x22; 0x3F; 0x84; 0x99; 0xBE; 0xA3; 0xF0; 0xED; 0xCA; 0xD7;
   0x35; 0x28; 0x0F; 0x12; 0x41; 0x5C; 0x7B; 0x66; 0xDD; 0xC0; 0xE7; 0xFA; 0xA9; 0xB4; 0x93; 0x8E;
   0xF8; 0xE5; 0xC2; 0xDF; 0x8C; 0x91; 0xB6; 0xAB; 0x10; 0x0D; 0x2A; 0x37; 0x64; 0x79; 0x5E; 0x43;
   0xB2; 0xAF; 0x88; 0x95; 0xC6; 0xDB; 0xFC; 0xE1; 0x5A; 0x47; 0x60; 0x7D; 0x2E; 0x33; 0x14; 0x09;
   0x7F; 0x62; 0x45; 0x58; 0x0B; 0x16; 0x31; 0x2C; 0x97; 0x8A; 0xAD; 0xB0; 0xE3; 0xFE; 0xD9; 0xC4].

Definition lookup_table_profile_04_ : list Z :=
  [0x00000000; 0x30850FF5; 0x610A1FEA; 0x518F101F; 0xC2143FD4; 0xF2913021; 0xA31E203E; 0x939B2FCB;
   0x159615F7; 0x25131A02; 0x749C0A1D; 0x441905E8; 0xD7822A23; 0xE70725D6; 0xB68835C9; 0x860D3A3C;
   0x2B2C2BEE; 0x1BA9241B; 0x4A263404; 0x7AA33BF1; 0xE938143A; 0xD9BD1BCF; 0x88320BD0; 0xB8B70425;
   0x3EBA3E19; 0x0E3F31EC; 0x5FB021F3; 0x6F352E06; 0xFCAE01CD; 0xCC2B0E38; 0x9DA41E27; 0xAD2111D2;
   0x565857DC; 0x66DD5829; 0x37524836; 0x07D747C3; 0x944C6808; 0xA4C967FD; 0xF54677E2; 0xC5C37817;
   0x43CE422B; 0x734B4DDE; 0x22C45DC1; 0x12415234; 0x81DA7DFF; 0xB15F720A; 0xE0D06215; 0xD0556DE0;
   0x7D747C32; 0x4DF173C7; 0x1C7E63D8; 0x2CFB6C2D; 0xBF6043E6; 0x8FE54C13; 0xDE6A5C0C; 0xEEEF53F9;
   0x68E269C5; 0x58676630; 0x09E8762F; 0x396D79DA; 0xAAF65611; 0x9A7359E4; 0xCBFC49FB; 0xFB79460E;
   0xACB0AFB8; 0x9C35A04D; 0xCDBAB052; 0xFD3FBFA7; 0x6EA4906C; 0x5E219F99; 0x0FAE8F86; 0x3F2B8073;
   0xB926BA4F; 0x89A3B5BA; 0xD82CA5A5; 0xE8A9AA50; 0x7B32859B; 0x4BB78A6E; 0x1A389A71; 0x2ABD9584;
   0x879C8456; 0xB7198BA3; 0xE6969BBC; 0xD6139449; 0x4588BB82; 0x750DB477; 0x2482A468; 0x1407AB9D;
   0x920A91A1; 0xA28F9E54; 0xF3008E4B; 0xC38581BE; 0x501EAE75; 0x609BA180; 0x3114B19F; 0x0191BE6A;
   0xFAE8F864; 0xCA6DF791; 0x9BE2E78E; 0xAB67E87B; 0x38FCC7B0; 0x0879C845; 0x59F6D85A; 0x6973D7AF;
   0xEF7EED93; 0xDFFBE266; 0x8E74F279; 0xBEF1FD8C; 0x2D6AD247; 0x1DEFDDB2; 0x4C60CDAD; 0x7CE5C258;
   0xD1C4D38A; 0xE141DC7F; 0xB0CECC60; 0x804BC395; 0x13D0EC5E; 0x2355E3AB; 0x72DAF3B4; 0x425FFC41;
   0xC452C67D; 0xF4D7C988; 0xA558D997; 0x95DDD662; 0x0646F9A9; 0x36C3F65C; 0x674CE643; 0x57C9E9B6;
   0xC8DF352F; 0xF85A3ADA; 0xA9D52AC5; 0x99502530; 0x0ACB0AFB; 0x3A4E050E; 0x6BC11511; 0x5B441AE4;
   0xDD4920D8; 0xEDCC2F2D; 0xBC433F32; 0x8CC630C7; 0x1F5D1F0C; 0x2FD810F9; 0x7E5700E6; 0x4ED20F13;
   0xE3F31EC1; 0xD3761134; 0x82F9012B; 0xB27C0EDE; 0x21E72115; 0x11622EE0; 0x40ED3EFF; 0x7068310A;
   0xF6650B36; 0xC6E004C3; 0x976F14DC; 0xA7EA1B29; 0x347134E2; 0x04F43B17; 0x557B2B08; 0x65FE24FD;
   0x9E8762F3; 0xAE026D06; 0xFF8D7D19; 0xCF0872EC; 0x5C935D27; 0x6C1652D2; 0x3D9942CD; 0x0D1C4D38;
   0x8B117704; 0xBB9478F1; 0xEA1B68EE; 0xDA9E671B; 0x490548D0; 0x79804725; 0x280F573A; 0x188A58CF;
   0xB5AB491D; 0x852E46E8; 0xD4A156F7; 0xE4245902; 0x77BF76C9; 0x473A793C; 0x16B56923; 0x263066D6;
   0xA03D5CEA; 0x90B8531F; 0xC1374300; 0xF1B24CF5; 0x6229633E; 0x52AC6CCB; 0x03237CD4; 0x33A67321;
   0x646F9A97; 0x54EA9562; 0x0565857D; 0x35E08A88; 0xA67BA543; 0x96FEAAB6; 0xC771BAA9; 0xF7F4B55C;
   0x71F98F60; 0x417C8095; 0x10F3908A; 0x20769F7F; 0xB3EDB0B4; 0x8368BF41; 0xD2E7AF5E; 0xE262A0AB;
   0x4F43B179; 0x7FC6BE8C; 0x2E49AE93; 0x1ECCA166; 0x8D578EAD; 0xBDD28158; 0xEC5D9147; 0xDCD89EB2;
   0x5AD5A48E; 0x6A50AB7B; 0x3BDFBB64; 0x0B5AB491; 0x98C19B5A; 0xA84494AF; 0xF9CB84B0; 0xC94E8B45;
   0x3237CD4B; 0x02B2C2BE; 0x533DD2A1; 0x63B8DD54; 0xF023F29F; 0xC0A6FD6A; 0x9129ED75; 0xA1ACE280;
   0x27A1D8BC; 0x1724D749; 0x46ABC756; 0x762EC8A3; 0xE5B5E768; 0xD530E89D; 0x84BFF882; 0xB43AF777;
   0x191BE6A5; 0x299EE950; 0x7811F94F; 0x4894F6BA; 0xDB0FD971; 0xEB8AD684; 0xBA05C69B; 0x8A80C96E;
   0x0C8DF352; 0x3C08FCA7; 0x6D87ECB8; 0x5D02E34D; 0xCE99CC86; 0xFE1CC373; 0xAF93D36C; 0x9F16DC99].

Definition lookup_table_profile_custom_ : list Z :=
  [0x00000000; 0x77073096; 0xEE0E612C; 0x990951BA; 0x076DC419; 0x706AF48F; 0xE963A535; 0x9E6495A3;
   0x0EDB8832; 0x79DCB8A4; 0xE0D5E91E; 0x97D2D988; 0x09B64C2B; 0x7EB17CBD; 0xE7B82D07; 0x90BF1D91;
   0x1DB71064; 0x6AB020F2; 0xF3B97148; 0x84BE41DE; 0x1ADAD47D; 0x6DDDE4EB; 0xF4D4B551; 0x83D385C7;
   0x136C9856; 0x646BA8C0; 0xFD62F97A; 0x8A65C9EC; 0x14015C4F; 0x63066CD9; 0xFA0F3D63; 0x8D080DF5;
   0x3B6E20C8; 0x4C69105E; 0xD56041E4; 0xA2677172; 0x3C03E4D1; 0x4B04D447; 0xD20D85FD; 0xA50AB56B;
   0x35B5A8FA; 0x42B2986C; 0xDBBBC9D6; 0xACBCF940; 0x32D86CE3; 0x45DF5C75; 0xDCD60DCF; 0xABD13D59;
   0x26D930AC; 0x51DE003A; 0xC8D75180; 0xBFD06116; 0x21B4F4B5; 0x56B3C423; 0xCFBA9599; 0xB8BDA50F;
   0x2802B89E; 0x5F058808; 0xC60CD9B2; 0xB10BE924; 0x2F6F7C87; 0x58684C11; 0xC1611DAB; 0xB6662D3D;
   0x76DC4190; 0x01DB7106; 0x98D220BC; 0xEFD5102A; 0x71B18589; 0x06B6B51F; 0x9FBFE4A5; 0xE8B8D433;
   0x7807C9A2; 0x0F00F934; 0x9609A88E; 0xE10E9818; 0x7F6A0DBB; 0x086D3D2D; 0x91646C97; 0xE6635C01;
   0x6B6B51F4; 0x1C6C6162; 0x856530D8; 0xF262004E; 0x6C0695ED; 0x1B01A57B; 0x8208F4C1; 0xF50FC457;
   0x65B0D9C6; 0x12B7E950; 0x8BBEB8EA; 0xFCB9887C; 0x62DD1DDF; 0x15DA2D49; 0x8CD37CF3; 0xFBD44C65;
   0x4DB26158; 0x3AB551CE; 0xA3BC0074; 0xD4BB30E2; 0x4ADFA541; 0x3DD895D7; 0xA4D1C46D; 0xD3D6F4FB;
   0x4369E96A; 0x346ED9FC; 0xAD678846; 0xDA60B8D0; 0x44042D73; 0x33031DE5; 0xAA0A4C5F; 0xDD0D7CC9;
   0x5005713C; 0x270241AA; 0xBE0B1010; 0xC90C2086; 0x5768B525; 0x206F85B3; 0xB966D409; 0xCE61E49F;
   0x5EDEF90E; 0x29D9C998; 0xB0D09822; 0xC7D7A8B4; 0x59B33D17; 0x2EB40D81; 0xB7BD5C3B; 0xC0BA6CAD;
   0xEDB88320; 0x9ABFB3B6; 0x03B6E20C; 0x74B1D29A; 0xEAD54739; 0x9DD277AF; 0x04DB2615; 0x73DC1683;
   0xE3630B12; 0x94643B84; 0x0D6D6A3E; 0x7A6A5AA8; 0xE40ECF0B; 0x9309FF9D; 0x0A00AE27; 0x7D079EB1;
   0xF00F9344; 0x8708A3D2; 0x1E01F268; 0x6906C2FE; 0xF762575D; 0x806567CB; 0x196C3671; 0x6E6B06E7;
   0xFED41B76; 0x89D32BE0; 0x10DA7A5A; 0x67DD4ACC; 0xF9B9DF6F; 0x8EBEEFF9; 0x17B7BE43; 0x60B08ED5;
   0xD6D6A3E8; 0xA1D1937E; 0x38D8C2C4; 0x4FDFF252; 0xD1BB67F1; 0xA6BC5767; 0x3FB506DD; 0x48B2364B;
   0xD80D2BDA; 0xAF0A1B4C; 0x36034AF6; 0x41047A60; 0xDF60EFC3; 0xA867DF55; 0x316E8EEF; 0x4669BE79;
   0xCB61B38C; 0xBC66831A; 0x256FD2A0; 0x5268E236; 0xCC0C7795; 0xBB0B4703; 0x220216B9; 0x5505262F;
   0xC5BA3BBE; 0xB2BD0B28; 0x2BB45A92; 0x5CB36A04; 0xC2D7FFA7; 0xB5D0CF31; 0x2CD99E8B; 0x5BDEAE1D;
   0x9B64C2B0; 0xEC63F226; 0x756AA39C; 0x026D930A; 0x9C0906A9; 0xEB0E363F; 0x72076785; 0x05005713;
   0x95BF4A82; 0xE2B87A14; 0x7BB12BAE; 0x0CB61B38; 0x92D28E9B; 0xE5D5BE0D; 0x7CDCEFB7; 0x0BDBDF21;
   0x86D3D2D4; 0xF1D4E242; 0x68DDB3F8; 0x1FDA836E; 0x81BE16CD; 0xF6B9265B; 0x6FB077E1; 0x18B74777;
   0x88085AE6; 0xFF0F6A70; 0x66063BCA; 0x11010B5C; 0x8F659EFF; 0xF862AE69; 0x616BFFD3; 0x166CCF45;
   0xA00AE278; 0xD70DD2EE; 0x4E048354; 0x3903B3C2; 0xA7672661; 0xD06016F7; 0x4969474D; 0x3E6E77DB;
   0xAED16A4A; 0xD9D65ADC; 0x40DF0B66; 0x37D83BF0; 0xA9BCAE53; 0xDEBB9EC5; 0x47B2CF7F; 0x30B5FFE9;
   0xBDBDF21C; 0xCABAC28A; 0x53B39330; 0x24B4A3A6; 0xBAD03605; 0xCDD70693; 0x54DE5729; 0x23D967BF;
   0xB3667A2E; 0xC4614AB8; 0x5D681B02; 0x2A6F2B94; 0xB40BBE37; 0xC30C8EA1; 0x5A05DF1B; 0x2D02EF8D].

(** * The checks *)

(** A read of a table of 256 entries at an eight-bit index. *)
Definition table_at (table : list Z) (i : Z) : Z := nth (Z.to_nat i) table 0.

(** The range of a [buffer_view] is a list. *)
Definition calculate_profile_01 (view : list Z) (start_value : Z) : Z :=
  Z.lxor (foldl (λ crc byte, u8 (Z.lxor (table_at lookup_table_profile_01_ (u8 (Z.lxor byte crc)))
                                        (Z.shiftr crc 8)))
            (Z.lxor start_value 0xFF) view) 0xFF.

Definition calculate_profile_04 (view : list Z) (start_value : Z) : Z :=
  Z.lxor (foldl (λ crc byte, Z.lxor (table_at lookup_table_profile_04_ (u8 (Z.lxor byte crc)))
                                    (Z.shiftr crc 8))
            (Z.lxor start_value 0xFFFFFFFF) view) 0xFFFFFFFF.

Definition calculate_profile_custom (view : list Z) : Z :=
  Z.lxor (foldl (λ crc byte, Z.lxor (table_at lookup_table_profile_custom_ (u8 (Z.lxor byte crc)))
                                    (Z.shiftr crc 8))
            0xFFFFFFFF view) 0xFFFFFFFF.

(** * The reference: division bit by bit *)

(** One bit of an eight-bit check that takes the high bit first. *)
Definition crc8_bit (poly crc : Z) : Z :=
  Z.lxor (u8 (Z.shiftl crc 1)) (if Z.testbit crc 7 then poly else 0).
(** One bit of a 32-bit check that takes the low bit first; [poly] is the reflected
    polynomial. *)
Definition crc32_bit (poly crc : Z) : Z :=
  Z.lxor (Z.shiftr crc 1) (if Z.testbit crc 0 then poly else 0).

Definition crc8_byte (poly crc byte : Z) : Z := Nat.iter 8 (crc8_bit poly) (Z.lxor byte crc).
Definition crc32_byte (poly crc byte : Z) : Z := Nat.iter 8 (crc32_bit poly) (Z.lxor byte crc).

(** Polynomial 0x1D, high bit first. *)
Definition crc8_ref (bs : list Z) (start : Z) : Z :=
  Z.lxor (foldl (crc8_byte 0x1D) (Z.lxor start 0xFF) bs) 0xFF.
(** Reflected polynomials 0xC8DF352F (0xF4ACFB13) and 0xEDB88320 (0x04C11DB7). *)
Definition crc32_ref (poly : Z) (bs : list Z) (start : Z) : Z :=
  Z.lxor (foldl (crc32_byte poly) (Z.lxor start 0xFFFFFFFF) bs) 0xFFFFFFFF.
Definition poly_profile_04 : Z := 0xC8DF352F.
Definition poly_profile_custom : Z := 0xEDB88320.

(** ** Tables *)

Lemma table_01_ok : lookup_table_profile_01_ =
  (λ i, Nat.iter 8 (crc8_bit 0x1D) (Z.of_nat i)) <$> seq 0 256.
Proof. vm_compute. reflexivity. Qed.
Lemma table_04_ok : lookup_table_profile_04_ =
  (λ i, Nat.iter 8 (crc32_bit poly_profile_04) (Z.of_nat i)) <$> seq 0 256.
Proof. vm_compute. reflexivity. Qed.
Lemma table_custom_ok : lookup_table_profile_custom_ =
  (λ i, Nat.iter 8 (crc32_bit poly_profile_custom) (Z.of_nat i)) <$> seq 0 256.
Proof. vm_compute. reflexivity. Qed.

Lemma table_at_spec (f : Z → Z) table i : table = (λ i, f (Z.of_nat i)) <$> seq 0 256 →
  is_u8 i → table_at table i = f i.
Proof.
  intros -> Hi. unfold table_at. rewrite nth_lookup, list_lookup_fmap, lookup_seq_lt by width_lia.
  cbn. f_equal. width_lia.
Qed.

(** ** Linearity of the 32-bit step *)

Lemma crc32_bit_lxor poly a b :
  crc32_bit poly (Z.lxor a b) = Z.lxor (crc32_bit poly a) (crc32_bit poly b).
Proof.
  unfold crc32_bit. rewrite Z.shiftr_lxor, Z.lxor_spec.
  apply Z.bits_inj'. intros i Hi. rewrite !Z.lxor_spec.
  destruct (Z.testbit a 0), (Z.testbit b 0); cbn [xorb]; rewrite ?Z.bits_0;
    destruct (Z.testbit (Z.shiftr a 1) i), (Z.testbit (Z.shiftr b 1) i), (Z.testbit poly i); done.
Qed.

Lemma iter_lxor poly n a b :
  Nat.iter n (crc32_bit poly) (Z.lxor a b) =
  Z.lxor (Nat.iter n (crc32_bit poly) a) (Nat.iter n (crc32_bit poly) b).
Proof. induction n as [|n IH]; [done|]. rewrite !Nat.iter_succ, IH. apply crc32_bit_lxor. Qed.

(** A value whose low [n] bits are clear is only shifted by [n] steps. *)
Lemma iter_shiftl poly n x :
  Nat.iter n (crc32_bit poly) (Z.shiftl x (Z.of_nat n)) = x.
Proof.
  revert x. induction n as [|n IH]; intros x; [by rewrite Z.shiftl_0_r|].
  rewrite Nat.iter_succ_r.
  assert (crc32_bit poly (Z.shiftl x (Z.of_nat (S n))) = Z.shiftl x (Z.of_nat n)) as ->; [|apply IH].
  unfold crc32_bit. rewrite Z.shiftl_spec_low, Z.lxor_0_r by lia.
  rewrite Z.shiftr_shiftl_l by lia. f_equal. lia.
Qed.

(** Exclusive or stays within a width. *)
Lemma lxor_below n a b : 0 ≤ n → 0 ≤ a < 2 ^ n → 0 ≤ b < 2 ^ n → 0 ≤ Z.lxor a b < 2 ^ n.
Proof.
  intros Hn Ha Hb. assert (0 ≤ Z.lxor a b) by (apply Z.lxor_nonneg; lia).
  split; [done|]. apply Z.bounded_iff_bits_nonneg; [done..|]. intros i Hi.
  by rewrite Z.lxor_spec, (testbit_above a n), (testbit_above b n).
Qed.
Lemma lxor_u8 a b : is_u8 a → is_u8 b → is_u8 (Z.lxor a b).
Proof. by apply lxor_below. Qed.
Lemma lxor_u32 a b : is_u32 a → is_u32 b → is_u32 (Z.lxor a b).
Proof. by apply lxor_below. Qed.
Lemma lxor_twice a b : Z.lxor (Z.lxor a b) b = a.
Proof. by rewrite Z.lxor_assoc, Z.lxor_nilpotent, Z.lxor_0_r. Qed.
Lemma lxor_cancel_r a b c : Z.lxor a c = Z.lxor b c → a = b.
Proof. intros H. by rewrite <- (lxor_twice a c), <- (lxor_twice b c), H. Qed.

(** A word is its low byte and the rest. *)
Lemma split_low_byte x : x = Z.lxor (u8 x) (Z.shiftl (Z.shiftr x 8) 8).
Proof.
  apply Z.bits_inj'. intros i Hi. rewrite Z.lxor_spec. unfold u8.
  destruct (decide (i < 8)) as [Hlt|Hge].
  - rewrite Z.mod_pow2_bits_low, Z.shiftl_spec_low, xorb_false_r by lia. done.
  - rewrite Z.mod_pow2_bits_high, Z.shiftl_spec, Z.shiftr_spec, xorb_false_l by lia.
    f_equal. lia.
Qed.

(** ** A step of the table is eight steps of the division *)


Lemma shiftr_byte b : is_u8 b → Z.shiftr b 8 = 0.
Proof. intros Hb. rewrite shiftr_8. width_lia. Qed.

Lemma crc8_bit_u8 poly x : is_u8 poly → is_u8 (crc8_bit poly x).
Proof. unfold crc8_bit. intros Hp. apply lxor_u8; [apply is_u8_u8|]. by case_match. Qed.
Lemma crc8_byte_u8 poly crc byte : is_u8 poly → is_u8 (crc8_byte poly crc byte).
Proof. intros Hp. unfold crc8_byte. rewrite Nat.iter_succ. by apply crc8_bit_u8. Qed.

Lemma crc32_bit_u32 poly x : is_u32 poly → is_u32 x → is_u32 (crc32_bit poly x).
Proof.
  unfold crc32_bit. intros Hp Hx. apply lxor_u32.
  - rewrite Z.shiftr_div_pow2 by lia. width_lia.
  - by case_match.
Qed.
#[local] Opaque crc8_bit crc32_bit.
Lemma iter_u32 poly n x : is_u32 poly → is_u32 x → is_u32 (Nat.iter n (crc32_bit poly) x).
Proof.
  intros Hp Hx. induction n as [|n IH]; [done|]. rewrite Nat.iter_succ. by apply crc32_bit_u32.
Qed.
Lemma is_u8_is_u32 x : is_u8 x → is_u32 x.
Proof. width_lia. Qed.
Lemma crc32_byte_u32 poly crc byte :
  is_u32 poly → is_u32 crc → is_u8 byte → is_u32 (crc32_byte poly crc byte).
Proof. intros Hp Hc Hb. apply iter_u32, lxor_u32; auto using is_u8_is_u32. Qed.

Lemma crc8_step crc byte : is_u8 crc → is_u8 byte →
  u8 (Z.lxor (table_at lookup_table_profile_01_ (u8 (Z.lxor byte crc))) (Z.shiftr crc 8))
  = crc8_byte 0x1D crc byte.
Proof.
  intros Hc Hb. rewrite (shiftr_byte crc), Z.lxor_0_r by done.
  assert (is_u8 (Z.lxor byte crc)) as Hx by (by apply lxor_u8).
  rewrite (u8_id (Z.lxor byte crc)) by done.
  rewrite (table_at_spec (Nat.iter 8 (crc8_bit 0x1D)) _ _ table_01_ok Hx).
  apply u8_id, (crc8_byte_u8 0x1D crc byte). done.
Qed.

Lemma crc32_step poly table crc byte :
  table = (λ i, Nat.iter 8 (crc32_bit poly) (Z.of_nat i)) <$> seq 0 256 →
  is_u8 byte →
  Z.lxor (table_at table (u8 (Z.lxor byte crc))) (Z.shiftr crc 8) = crc32_byte poly crc byte.
Proof.
  intros Ht Hb. rewrite (table_at_spec (Nat.iter 8 (crc32_bit poly)) _ _ Ht (is_u8_u8 _)).
  unfold crc32_byte. rewrite (split_low_byte (Z.lxor byte crc)) at 2.
  rewrite iter_lxor, (iter_shiftl poly 8).
  by rewrite Z.shiftr_lxor, (shiftr_byte byte), Z.lxor_0_l.
Qed.

Lemma foldl_ext_inv {A B} (f g : A → B → A) (P : A → Prop) (Q : B → Prop) a l :
  (∀ a b, P a → Q b → f a b = g a b) → (∀ a b, P a → Q b → P (g a b)) →
  P a → Forall Q l → foldl f a l = foldl g a l.
Proof.
  intros Hf Hg Ha Hl. revert a Ha. induction Hl as [|b l Hb Hl IH]; intros a Ha; [done|].
  cbn. rewrite Hf by done. apply IH. by apply Hg.
Qed.
Lemma foldl_inv {A B} (f : A → B → A) (P : A → Prop) (Q : B → Prop) a l :
  (∀ a b, P a → Q b → P (f a b)) → P a → Forall Q l → P (foldl f a l).
Proof.
  intros Hf Ha Hl. revert a Ha. induction Hl as [|b l Hb Hl IH]; intros a Ha; [done|].
  cbn. apply IH. by apply Hf.
Qed.

Lemma calculate_profile_01_eq bs s : bytes bs → is_u8 s → calculate_profile_01 bs s = crc8_ref bs s.
Proof.
  intros Hbs Hs. unfold calculate_profile_01, crc8_ref. f_equal.
  apply (foldl_ext_inv _ _ is_u8 is_u8); [| |by apply lxor_u8|done].
  - intros; by apply crc8_step.
  - intros; by apply crc8_byte_u8.
Qed.
Lemma calculate_profile_04_eq bs s :
  bytes bs → calculate_profile_04 bs s = crc32_ref poly_profile_04 bs s.
Proof.
  intros Hbs. unfold calculate_profile_04, crc32_ref. f_equal.
  apply (foldl_ext_inv _ _ (λ _, True) is_u8); [|done..].
  intros; by apply crc32_step.
Qed.
Lemma calculate_profile_custom_eq bs :
  bytes bs → calculate_profile_custom bs = crc32_ref poly_profile_custom bs 0.
Proof.
  intros Hbs. unfold calculate_profile_custom, crc32_ref. rewrite Z.lxor_0_l. f_equal.
  apply (foldl_ext_inv _ _ (λ _, True) is_u8); [|done..].
  intros; by apply crc32_step.
Qed.

(** C37: the three table-driven checks compute the division bit by bit: profile 01 the
    eight-bit check with polynomial 0x1D, profile 04 the reflected 32-bit check with
    polynomial 0xF4ACFB13 and the custom profile that of Ethernet, on every byte
    sequence and start value. *)
Theorem crc_tables_correct bs s8 s32 : bytes bs → is_u8 s8 →
  calculate_profile_01 bs s8 = crc8_ref bs s8 ∧
  calculate_profile_04 bs s32 = crc32_ref poly_profile_04 bs s32 ∧
  calculate_profile_custom bs = crc32_ref poly_profile_custom bs 0.
Proof.
  intros Hbs Hs. split_and!; [by apply calculate_profile_01_eq|by apply calculate_profile_04_eq|].
  by apply calculate_profile_custom_eq.
Qed.

Lemma crc_tables_correct_witness :
  calculate_profile_01 [0x31; 0x32; 0x33] 0 = crc8_ref [0x31; 0x32; 0x33] 0 ∧
  calculate_profile_04 [0x31; 0x32; 0x33] 0 = crc32_ref poly_profile_04 [0x31; 0x32; 0x33] 0 ∧
  calculate_profile_custom [0x31; 0x32; 0x33] = crc32_ref poly_profile_custom [0x31; 0x32; 0x33] 0.
Proof. apply crc_tables_correct; [repeat constructor; done|done]. Defined.

(** The published check values, over the digits 1 to 9. *)
Example crc_check_values :
  let digits := [0x31; 0x32; 0x33; 0x34; 0x35; 0x36; 0x37; 0x38; 0x39] in
  calculate_profile_01 digits 0 = 0x4B ∧
  calculate_profile_04 digits 0 = 0x1697D06A ∧
  calculate_profile_custom digits = 0xCBF43926.
Proof. vm_compute. done. Qed.

(** ** A check may be computed in parts *)

Lemma calculate_profile_01_app a b s :
  calculate_profile_01 (a ++ b) s = calculate_profile_01 b (calculate_profile_01 a s).
Proof. unfold calculate_profile_01. by rewrite foldl_app, lxor_twice. Qed.
Lemma calculate_profile_04_app a b s :
  calculate_profile_04 (a ++ b) s = calculate_profile_04 b (calculate_profile_04 a s).
Proof. unfold calculate_profile_04. by rewrite foldl_app, lxor_twice. Qed.
Lemma calculate_profile_01_nil s : calculate_profile_01 [] s = s.
Proof. apply lxor_twice. Qed.
Lemma calculate_profile_04_nil s : calculate_profile_04 [] s = s.
Proof. apply lxor_twice. Qed.

Lemma calculate_profile_01_u8 bs s : is_u8 s → bytes bs → is_u8 (calculate_profile_01 bs s).
Proof.
  intros Hs Hbs. rewrite calculate_profile_01_eq by done. apply lxor_u8; [|done].
  apply (foldl_inv _ is_u8 is_u8); [|by apply lxor_u8|done]. intros; by apply crc8_byte_u8.
Qed.
Lemma crc32_ref_u32 poly bs s :
  is_u32 poly → is_u32 s → bytes bs → is_u32 (crc32_ref poly bs s).
Proof.
  intros Hp Hs Hbs. apply lxor_u32; [|done].
  apply (foldl_inv _ is_u32 is_u8); [|by apply lxor_u32|done]. intros; by apply crc32_byte_u32.
Qed.
Lemma calculate_profile_04_u32 bs s : is_u32 s → bytes bs → is_u32 (calculate_profile_04 bs s).
Proof. intros. rewrite calculate_profile_04_eq by done. by apply crc32_ref_u32. Qed.
Lemma calculate_profile_custom_u32 bs : bytes bs → is_u32 (calculate_profile_custom bs).
Proof. intros. rewrite calculate_profile_custom_eq by done. by apply crc32_ref_u32. Qed.

(** ** Detection of errors *)

Lemma table_01_inj a b : is_u8 a → is_u8 b →
  table_at lookup_table_profile_01_ a = table_at lookup_table_profile_01_ b → a = b.
Proof.
  assert (NoDup lookup_table_profile_01_) as Hnd by (apply (bool_decide_eq_true_1 _); vm_compute; done).
  assert (length lookup_table_profile_01_ = 256%nat) as Hlen by done.
  unfold table_at. intros Ha Hb Heq.
  destruct (lookup_lt_is_Some_2 lookup_table_profile_01_ (Z.to_nat a)) as [x Hx]; [width_lia|].
  destruct (lookup_lt_is_Some_2 lookup_table_profile_01_ (Z.to_nat b)) as [y Hy]; [width_lia|].
  rewrite (nth_lookup_Some _ _ _ _ Hx), (nth_lookup_Some _ _ _ _ Hy) in Heq. subst y.
  assert (Z.to_nat a = Z.to_nat b) by (by eapply NoDup_lookup). width_lia.
Qed.

Lemma crc8_byte_inj c c' b b' : is_u8 c → is_u8 c' → is_u8 b → is_u8 b' →
  crc8_byte 0x1D c b = crc8_byte 0x1D c' b' → Z.lxor b c = Z.lxor b' c'.
Proof.
  intros Hc Hc' Hb Hb' Heq.
  assert (is_u8 (Z.lxor b c)) as Hx by (by apply lxor_u8).
  assert (is_u8 (Z.lxor b' c')) as Hx' by (by apply lxor_u8).
  apply table_01_inj; [done..|].
  by rewrite !(table_at_spec (Nat.iter 8 (crc8_bit 0x1D)) _ _ table_01_ok) by done.
Qed.

Lemma lxor_cancel_l a b c : Z.lxor c a = Z.lxor c b → a = b.
Proof. rewrite !(Z.lxor_comm c). apply lxor_cancel_r. Qed.

Lemma crc8_start_inj bs c c' : is_u8 c → is_u8 c' → bytes bs →
  foldl (crc8_byte 0x1D) c bs = foldl (crc8_byte 0x1D) c' bs → c = c'.
Proof.
  intros Hc Hc' Hbs. revert c c' Hc Hc'. induction Hbs as [|b bs Hb Hbs IH]; intros c c' Hc Hc'; [done|].
  cbn [foldl]. intros Heq. apply IH in Heq; [|by apply crc8_byte_u8..].
  apply crc8_byte_inj in Heq; [|done..]. by apply lxor_cancel_l in Heq.
Qed.

Lemma calculate_profile_01_start_inj bs s s' : is_u8 s → is_u8 s' → bytes bs →
  calculate_profile_01 bs s = calculate_profile_01 bs s' → s = s'.
Proof.
  intros Hs Hs' Hbs. rewrite !calculate_profile_01_eq by done. intros Heq%lxor_cancel_r.
  apply crc8_start_inj in Heq; [by apply lxor_cancel_r in Heq|by apply lxor_u8..|done].
Qed.
Lemma calculate_profile_01_byte_inj b b' s : is_u8 s → is_u8 b → is_u8 b' →
  calculate_profile_01 [b] s = calculate_profile_01 [b'] s → b = b'.
Proof.
  intros Hs Hb Hb'. rewrite !calculate_profile_01_eq by auto. intros Heq%lxor_cancel_r.
  apply crc8_byte_inj in Heq; [by apply lxor_cancel_r in Heq|by apply lxor_u8..|done|done].
Qed.

(** The 32-bit step loses nothing when bit 31 of the polynomial is set. *)
#[local] Transparent crc32_bit.
Lemma crc32_bit_zero poly a :
  Z.testbit poly 31 = true → is_u32 a → crc32_bit poly a = 0 → a = 0.
Proof.
  intros Hp Ha H. unfold crc32_bit in H.
  assert (Z.testbit a 0 = false) as H0.
  { apply (f_equal (λ x, Z.testbit x 31)) in H.
    rewrite Z.lxor_spec, Z.bits_0, Z.shiftr_spec, (testbit_above a 32) in H by (done || lia).
    destruct (Z.testbit a 0); [|done]. by rewrite Hp in H. }
  rewrite H0, Z.lxor_0_r, Z.shiftr_div_pow2 in H by lia.
  rewrite Z.bit0_odd, <- Z.negb_even in H0. destruct (Z.even a) eqn:He; [|done].
  apply Z.even_spec in He as [k ->]. change (2 ^ 1) with 2 in H. Z.div_mod_to_equations. lia.
Qed.
#[local] Opaque crc32_bit.

Section crc32_detection.
  Context (poly : Z) (Hpoly : is_u32 poly) (Hbit : Z.testbit poly 31 = true).

Lemma iter_inj n a b : is_u32 a → is_u32 b →
  Nat.iter n (crc32_bit poly) a = Nat.iter n (crc32_bit poly) b → a = b.
Proof using Hpoly Hbit.
  intros Ha Hb. induction n as [|n IH]; [done|]. rewrite !Nat.iter_succ. intros Heq. apply IH.
  apply (lxor_cancel_r _ _ (Nat.iter n (crc32_bit poly) b)). rewrite Z.lxor_nilpotent.
  apply (crc32_bit_zero poly); [done|apply lxor_u32; by apply iter_u32|].
  by rewrite crc32_bit_lxor, Heq, Z.lxor_nilpotent.
Qed.

(** Consecutive bytes as a word, the first byte lowest. *)
Fixpoint le_word (w : list Z) : Z :=
  match w with [] => 0 | b :: w => Z.lxor b (Z.shiftl (le_word w) 8) end.

Lemma le_word_below w : bytes w → 0 ≤ le_word w < 2 ^ (8 * Z.of_nat (length w)).
Proof using.
  induction 1 as [|b w Hb Hw IH]; [done|]. cbn [le_word length].
  apply lxor_below; [lia| |].
  - assert (2 ^ 8 ≤ 2 ^ (8 * Z.of_nat (S (length w)))) by (apply Z.pow_le_mono_r; lia).
    unfold is_u8 in Hb. lia.
  - rewrite Z.shiftl_mul_pow2 by lia.
    replace (8 * Z.of_nat (S (length w))) with (8 * Z.of_nat (length w) + 8) by lia.
    rewrite Z.pow_add_r by lia. nia.
Qed.

Lemma le_word_inj w w' : bytes w → bytes w' → length w = length w' →
  le_word w = le_word w' → w = w'.
Proof using.
  intros Hw. revert w'. induction Hw as [|b w Hb Hw IH]; intros [|b' w'] Hw' Hlen Heq; try done.
  inversion Hw' as [|?? Hb' Hw'']; subst. cbn [le_word] in Heq.
  assert (∀ x y, is_u8 x → u8 (Z.lxor x (Z.shiftl y 8)) = x ∧ Z.shiftr (Z.lxor x (Z.shiftl y 8)) 8 = y) as Hparts.
  { intros x y Hx. split.
    - apply Z.bits_inj'. intros i Hi. unfold u8. destruct (decide (i < 8)).
      + rewrite Z.mod_pow2_bits_low, Z.lxor_spec, Z.shiftl_spec_low by lia. apply xorb_false_r.
      + rewrite Z.mod_pow2_bits_high by lia. symmetry. apply (testbit_above x 8); [done|lia].
    - rewrite Z.shiftr_lxor, shiftr_byte, Z.lxor_0_l, Z.shiftr_shiftl_l, Z.shiftl_0_r by (done || lia). done. }
  destruct (Hparts b (le_word w) Hb) as [H1 H2], (Hparts b' (le_word w') Hb') as [H1' H2'].
  rewrite Heq in H1, H2. f_equal; [congruence|]. apply IH; [done|by inversion Hlen|congruence].
Qed.

Lemma crc32_window c w :
  foldl (crc32_byte poly) c w = Nat.iter (8 * length w) (crc32_bit poly) (Z.lxor (le_word w) c).
Proof using.
  revert c. induction w as [|b w IH]; intros c; [by rewrite Z.lxor_0_l|].
  cbn [foldl le_word length]. rewrite IH. replace (8 * S (length w))%nat with (8 * length w + 8)%nat by lia.
  rewrite Nat.iter_add. f_equal.
  replace (Z.lxor (Z.lxor b (Z.shiftl (le_word w) 8)) c) with
    (Z.lxor (Z.shiftl (le_word w) 8) (Z.lxor b c)) by (rewrite <- Z.lxor_assoc; f_equal; apply Z.lxor_comm).
  by rewrite iter_lxor, (iter_shiftl poly 8).
Qed.

Lemma crc32_window_inj c w w' : is_u32 c → bytes w → bytes w' → length w = length w' →
  (length w ≤ 4)%nat → foldl (crc32_byte poly) c w = foldl (crc32_byte poly) c w' → w = w'.
Proof using Hpoly Hbit.
  intros Hc Hw Hw' Hlen H4. rewrite !crc32_window, <- Hlen. intros Heq.
  assert (∀ v, bytes v → (length v ≤ 4)%nat → is_u32 (le_word v)) as Hv.
  { intros v Hv Hv4. pose proof (le_word_below v Hv).
    assert (2 ^ (8 * Z.of_nat (length v)) ≤ 2 ^ 32) by (apply Z.pow_le_mono_r; lia).
    unfold is_u32. lia. }
  apply iter_inj in Heq; [|apply lxor_u32; [apply Hv; [done|lia]|done]..].
  apply lxor_cancel_r in Heq. by apply le_word_inj.
Qed.

Lemma crc32_start_inj bs c c' : is_u32 c → is_u32 c' → bytes bs →
  foldl (crc32_byte poly) c bs = foldl (crc32_byte poly) c' bs → c = c'.
Proof using Hpoly Hbit.
  intros Hc Hc' Hbs. revert c c' Hc Hc'. induction Hbs as [|b bs Hb Hbs IH]; intros c c' Hc Hc'; [done|].
  cbn [foldl]. intros Heq. apply IH in Heq; [|by apply crc32_byte_u32..].
  apply iter_inj in Heq; [by apply lxor_cancel_l in Heq|apply lxor_u32; auto using is_u8_is_u32..].
Qed.

Lemma crc32_burst pre w w' post s : is_u32 s →
  bytes pre → bytes w → bytes w' → bytes post →
  length w = length w' → (length w ≤ 4)%nat →
  crc32_ref poly (pre ++ w ++ post) s = crc32_ref poly (pre ++ w' ++ post) s → w = w'.
Proof using Hpoly Hbit.
  intros Hs Hpre Hw Hw' Hpost Hlen H4 Heq%lxor_cancel_r. rewrite !foldl_app in Heq.
  assert (∀ c v, is_u32 c → bytes v → is_u32 (foldl (crc32_byte poly) c v)) as Hfold.
  { intros c v Hc Hv. apply (foldl_inv _ is_u32 is_u8); [|done|done]. intros; by apply crc32_byte_u32. }
  assert (is_u32 (foldl (crc32_byte poly) (Z.lxor s 0xFFFFFFFF) pre)) by (apply Hfold; [by apply lxor_u32|done]).
  apply crc32_start_inj in Heq; [|by auto..].
  by apply crc32_window_inj in Heq.
Qed.
End crc32_detection.

(** A change confined to four consecutive bytes always changes the 32-bit checks of
    profile 04 and of the custom profile, and a change of one byte always changes the
    eight-bit check of profile 01, wherever in the data it is. *)
Theorem crc_detects_bursts pre w w' post s8 s32 : is_u8 s8 → is_u32 s32 →
  bytes pre → bytes w → bytes w' → bytes post → length w = length w' → w ≠ w' →
  ((length w ≤ 4)%nat →
     calculate_profile_04 (pre ++ w ++ post) s32 ≠ calculate_profile_04 (pre ++ w' ++ post) s32 ∧
     calculate_profile_custom (pre ++ w ++ post) ≠ calculate_profile_custom (pre ++ w' ++ post)) ∧
  ((length w ≤ 1)%nat →
     calculate_profile_01 (pre ++ w ++ post) s8 ≠ calculate_profile_01 (pre ++ w' ++ post) s8).
Proof.
  intros Hs8 Hs32 Hpre Hw Hw' Hpost Hlen Hne. split.
  - intros H4. split; [rewrite !calculate_profile_04_eq by (by rewrite !Forall_app)|
      rewrite !calculate_profile_custom_eq by (by rewrite !Forall_app)];
      intros Heq; apply crc32_burst in Heq; done.
  - intros H1 Heq. rewrite !calculate_profile_01_app in Heq.
    assert (is_u8 (calculate_profile_01 pre s8)) by (by apply calculate_profile_01_u8).
    apply calculate_profile_01_start_inj in Heq; [|by apply calculate_profile_01_u8..|done].
    destruct w as [|b [|]], w' as [|b' [|]]; cbn in *; try done; try lia.
    apply Hne. f_equal. apply calculate_profile_01_byte_inj in Heq; [done|done|by inversion Hw|by inversion Hw'].
Qed.

Lemma crc_detects_bursts_witness :
  calculate_profile_04 ([1; 2] ++ [3] ++ [4]) 0 ≠ calculate_profile_04 ([1; 2] ++ [7] ++ [4]) 0 ∧
  calculate_profile_01 ([1; 2] ++ [3] ++ [4]) 0 ≠ calculate_profile_01 ([1; 2] ++ [7] ++ [4]) 0.
Proof.
  destruct (crc_detects_bursts [1; 2] [3] [7] [4] 0 0) as [H4 H1];
    [(done || (repeat constructor; done))..|].
  split; [apply H4; cbn; lia|apply H1; cbn; lia].
Defined.

(** The eight-bit check distinguishes data that differ in one byte. *)
Lemma calculate_profile_01_insert pre l j x y post s : is_u8 s → bytes pre → bytes l → bytes post →
  is_u8 x → l !! j = Some y → x ≠ y →
  calculate_profile_01 (pre ++ <[j := x]> l ++ post) s ≠ calculate_profile_01 (pre ++ l ++ post) s.
Proof.
  intros Hs Hpre Hl Hpost Hx Hj Hne. rewrite !calculate_profile_01_app. intros Heq.
  assert (is_u8 (calculate_profile_01 pre s)) by (by apply calculate_profile_01_u8).
  assert (bytes (<[j:=x]> l)) by (by apply Forall_insert).
  apply calculate_profile_01_start_inj in Heq; [|by apply calculate_profile_01_u8..|done].
  assert (is_u8 y) by (by apply (bytes_lookup l j)).
  assert (bytes (take j l)) by (by apply Forall_take). assert (bytes (drop (S j) l)) by (by apply Forall_drop).
  rewrite insert_take_drop in Heq by (by eapply lookup_lt_Some).
  rewrite <- (take_drop_middle l j y Hj) in Heq at 3.
  change (?a :: ?b) with ([a] ++ b) in Heq. rewrite !calculate_profile_01_app in Heq.
  assert (is_u8 (calculate_profile_01 (take j l) (calculate_profile_01 pre s)))
    by (by apply calculate_profile_01_u8).
  apply calculate_profile_01_start_inj in Heq; [|by apply calculate_profile_01_u8; auto..|done].
  by apply calculate_profile_01_byte_inj in Heq.
Qed.
