(* ===== verification/ConfigValues.v ===== *)
(** Numbers in configuration files: reading text with [operator>>] of a string stream, as
    [configuration/include/e2e.hpp] and [security/src/security_impl.cpp] do. *)
From Stdlib Require Import Ascii.
From stdpp Require Import strings pretty.
From S2P Require Import Prelude.
#[local] Open Scope Z_scope.

(** ** [operator>>] into an unsigned integer of [w] bits

    White space, an optional sign, an optional base prefix when the base is sixteen, and
    digits up to the first other character.  A value that does not fit becomes the
    greatest one; without a digit the result is zero.  A stream with nothing but
    white space leaves the variable unset, which is then read uninitialised. *)
Definition is_space (c : Ascii.ascii) : bool :=
  let n := Ascii.nat_of_ascii c in (n =? 32)%nat || ((9 <=? n) && (n <=? 13))%nat.
Fixpoint skip_space (s : string) : string :=
  match s with
  | String c s' => if is_space c then skip_space s' else s
  | EmptyString => EmptyString
  end.
Definition digit_of (hex : bool) (c : Ascii.ascii) : option Z :=
  let n := Z.of_nat (Ascii.nat_of_ascii c) in
  if (48 <=? n) && (n <=? 57) then Some (n - 48)
  else if hex && (97 <=? n) && (n <=? 102) then Some (n - 87)
  else if hex && (65 <=? n) && (n <=? 70) then Some (n - 55)
  else None.
Fixpoint read_digits (hex : bool) (acc : Z) (s : string) : Z :=
  match s with
  | EmptyString => acc
  | String c s' =>
      match digit_of hex c with
      | Some d => read_digits hex ((if hex then 16 else 10) * acc + d) s'
      | None => acc
      end
  end.
Definition read_sign (s : string) : bool * string :=
  match s with
  | String "-"%char s' => (true, s')
  | String "+"%char s' => (false, s')
  | _ => (false, s)
  end.
Definition read_prefix (hex : bool) (s : string) : string :=
  match s with
  | String "0"%char (String "x"%char s') => if hex then s' else s
  | String "0"%char (String "X"%char s') => if hex then s' else s
  | _ => s
  end.
Definition extract_unsigned (w : Z) (hex : bool) (s : string) : outcome Z :=
  match skip_space s with
  | EmptyString => Undef
  | s =>
      let '(negative, s) := read_sign s in
      let v := read_digits hex 0 (read_prefix hex s) in
      Ret (if bool_decide (2 ^ w ≤ v) then 2 ^ w - 1
           else if negative then (- v) `mod` 2 ^ w else v)
  end.

(** ** Decimal text *)

Lemma digit_of_char d : (d < 10)%N → digit_of false (pretty_N_char d) = Some (Z.of_N d).
Proof.
  intros Hd. assert (d = 0 ∨ d = 1 ∨ d = 2 ∨ d = 3 ∨ d = 4 ∨ d = 5 ∨ d = 6 ∨ d = 7 ∨ d = 8 ∨ d = 9)%N
    as Hcase by lia. by destruct_or! Hcase; subst d.
Qed.

Lemma read_digits_pretty x s : read_digits false 0 (pretty_N_go x s) = read_digits false (Z.of_N x) s.
Proof.
  revert s. induction (N.lt_wf_0 x) as [x _ IH]; intros s.
  destruct (decide (x = 0%N)) as [->|Hx]; [by rewrite pretty_N_go_0|].
  rewrite pretty_N_go_step by lia. rewrite IH by (apply N.div_lt; lia). cbn [read_digits].
  assert (x `mod` 10 < 10)%N by (by apply N.mod_lt). rewrite digit_of_char by done. f_equal.
  rewrite (N.div_mod x 10) at 3 by done. lia.
Qed.

(** The text of a number starts with a digit. *)
Lemma pretty_N_head x s : (0 < x)%N →
  ∃ d s', (d < 10)%N ∧ (0 < d)%N ∧ pretty_N_go x s = String (pretty_N_char d) s'.
Proof.
  revert s. induction (N.lt_wf_0 x) as [x _ IH]; intros s Hx. rewrite pretty_N_go_step by done.
  destruct (decide (x < 10)%N) as [Hlt|Hge].
  - rewrite N.div_small, N.mod_small, pretty_N_go_0 by done. eauto.
  - apply IH; [by apply N.div_lt|]. apply N.div_str_pos. lia.
Qed.

(** The decimal text of a number that fits is read as the number. *)
Lemma extract_pretty w (n : N) : 0 ≤ w → Z.of_N n < 2 ^ w → extract_unsigned w false (pretty n) = Ret (Z.of_N n).
Proof.
  intros Hw Hn. destruct (decide (n = 0%N)) as [->|Hne].
  { trans (Ret (if bool_decide (2 ^ w ≤ 0) then 2 ^ w - 1 else 0)); [done|].
    by rewrite bool_decide_false by (cbn in Hn; lia). }
  unfold pretty, pretty_N. rewrite decide_False by done.
  pose proof (read_digits_pretty n "") as Hread. cbn [read_digits] in Hread.
  destruct (pretty_N_head n "") as (d&s'&Hd&Hd0&Heq); [lia|]. rewrite Heq in *.
  assert (d = 1 ∨ d = 2 ∨ d = 3 ∨ d = 4 ∨ d = 5 ∨ d = 6 ∨ d = 7 ∨ d = 8 ∨ d = 9)%N
    as Hcase by lia. clear Heq. unfold extract_unsigned.
  destruct_or! Hcase; subst d; cbn [pretty_N_char skip_space read_sign read_prefix] in *;
    change (is_space _) with false; cbn iota; cbn [read_sign read_prefix];
    by rewrite Hread, bool_decide_false by lia.
Qed.

(** It is neither empty nor blank, and its second character, if any, is a digit. *)
Lemma pretty_shape (n : N) : ∃ c s, pretty n = String c s ∧ is_space c = false ∧ (c = "0"%char → s = "").
Proof.
  destruct (decide (n = 0%N)) as [->|Hne]; [by exists "0"%char, ""|].
  unfold pretty, pretty_N. rewrite decide_False by done.
  destruct (pretty_N_head n "") as (d&s'&Hd&Hd0&->); [lia|]. exists (pretty_N_char d), s'.
  assert (d = 1 ∨ d = 2 ∨ d = 3 ∨ d = 4 ∨ d = 5 ∨ d = 6 ∨ d = 7 ∨ d = 8 ∨ d = 9)%N as Hcase by lia.
  by destruct_or! Hcase; subst d.
Qed.
