(* ===== verification/E2eInterface.v ===== *)
(** The interface of end-to-end protection profiles:
    [e2e_protection/include/e2e/profile/profile_interface/] and the views of
    [e2e_protection/include/buffer/buffer.hpp].

    A protector rewrites a buffer and moves to its next state; a checker reads a
    buffer, returns a status and moves to its next state.  The checkers of a process
    also share one flag, a function-local static of profile 04, which every check
    takes and returns.  [Profile] states what a protector and a checker of one
    configuration promise each other, and [stream_accepted] what follows for a
    sequence of messages. *)
From S2P Require Import Prelude.

Inductive generic_check_status : Type := E2E_OK | E2E_WRONG_CRC | E2E_ERROR.

#[export] Instance generic_check_status_eq_dec : EqDecision generic_check_status.
Proof. solve_decision. Defined.

(** [buffer_view(_buffer, _begin, _end)]: iterating a view whose ends are not inside
    the buffer is undefined. *)
Definition buffer_view (buffer : list Z) (begin_ end_ : Z) : outcome (list Z) :=
  vrange buffer begin_ end_.

Definition buffer_size (buffer : list Z) : Z := Z.of_nat (length buffer).

(** [protector::protect] and [checker::check]. *)
Class Protector (P : Type) : Type :=
  protect : P → list Z → Z → outcome (list Z * P).
Class Checker (C : Type) : Type :=
  check : C → bool → list Z → Z → outcome (generic_check_status * C * bool).

(** A protector and a checker of the same configuration.  [in_step p c]: [c] has
    accepted what [p] has sent so far.  [accepts p buffer instance]: the buffer is one
    the configuration of [p] is meant for. *)
Class Profile (P C : Type) `{!Protector P, !Checker C} : Type := {
  in_step : P → C → Prop;
  accepts : P → list Z → Z → Prop;
  protect_accepts p b i b' p' b2 i2 :
    protect p b i = Ret (b', p') → accepts p b2 i2 → accepts p' b2 i2;
  protect_check p c b i : in_step p c → accepts p b i → bytes b →
    ∃ b' p', protect p b i = Ret (b', p') ∧ length b' = length b ∧
      ∀ g, ∃ c' g', check c g b' i = Ret (E2E_OK, c', g') ∧ in_step p' c'
}.

Section stream.
  Context {P C : Type} `{Profile P C}.

(** A sequence of buffers, each protected by the sender and checked by the receiver. *)
Fixpoint stream (p : P) (c : C) (g : bool) (ms : list (list Z * Z)) :
    outcome (list generic_check_status) :=
  match ms with
  | [] => Ret []
  | (b, i) :: ms =>
      '(b', p') ← protect p b i;
      '(s, c', g') ← check c g b' i;
      ss ← stream p' c' g' ms;
      Ret (s :: ss)
  end.

Lemma stream_accepted p c g ms : in_step p c →
  Forall (λ m, bytes m.1 ∧ accepts p m.1 m.2) ms →
  stream p c g ms = Ret (replicate (length ms) E2E_OK).
Proof.
  revert p c g. induction ms as [|[b i] ms IH]; intros p c g Hstep Hms; [done|].
  apply Forall_cons_1 in Hms as [[Hb Ha] Hms]. cbn [fst snd] in Hb, Ha.
  destruct (protect_check p c b i Hstep Ha Hb) as (b'&p'&Hp&_&Hc).
  destruct (Hc g) as (c'&g'&Hck&Hstep').
  cbn [stream]. rewrite Hp. cbn. rewrite Hck. cbn. rewrite IH; [done|done|].
  eapply Forall_impl; [exact Hms|]. intros m [Hmb Hma]. split; [done|].
  by eapply protect_accepts.
Qed.
End stream.

(** ** Writes into a buffer *)

Lemma vset_inside l i x : 0 ≤ i < buffer_size l → vset l i x = Ret (<[Z.to_nat i := x]> l).
Proof. intros Hi. unfold vset. rewrite bool_decide_true by (unfold buffer_size in Hi; lia). done. Qed.
Lemma buffer_size_insert l i x : buffer_size (<[i := x]> l) = buffer_size l.
Proof. unfold buffer_size. by rewrite length_insert. Qed.
Lemma bytes_insert l i x : bytes l → is_u8 x → bytes (<[i := x]> l).
Proof. intros Hl Hx. by apply Forall_insert. Qed.
Lemma buffer_view_ret l b e :
  0 ≤ b ≤ e → e ≤ buffer_size l → buffer_view l b e = Ret (take (Z.to_nat (e - b)) (drop (Z.to_nat b) l)).
Proof.
  intros Hb He. unfold buffer_view, vrange. unfold buffer_size in He.
  by rewrite bool_decide_true by done.
Qed.
Lemma bytes_take n l : bytes l → bytes (take n l).
Proof. apply Forall_take. Qed.
Lemma bytes_drop n l : bytes l → bytes (drop n l).
Proof. apply Forall_drop. Qed.

#[export] Hint Resolve bytes_insert bytes_take bytes_drop : widths.

(** Accesses behind a prefix of known length. *)
Lemma vset_at a b o k v : Z.of_nat (length a) = o → 0 ≤ k < Z.of_nat (length b) →
  vset (a ++ b) (o + k) v = Ret (a ++ <[Z.to_nat k := v]> b).
Proof.
  intros <- Hk. rewrite vset_inside by (unfold buffer_size; rewrite length_app; lia).
  rewrite insert_app_r_alt by lia. do 3 f_equal. lia.
Qed.
Lemma vget_at a b o k v : Z.of_nat (length a) = o → 0 ≤ k →
  b !! Z.to_nat k = Some v → vget (a ++ b) (o + k) = Ret v.
Proof.
  intros <- Hk Hb. replace (Z.of_nat (length a) + k) with (Z.of_nat (length a + Z.to_nat k)) by lia.
  apply vget_lookup. rewrite lookup_app_r by lia. by replace (_ + _ - _)%nat with (Z.to_nat k) by lia.
Qed.

(** ** A window of a buffer *)

Section window.
  Context {A : Type}.
  Implicit Types a w z : list A.

Lemma window_take a w z n : (length a + length w ≤ n)%nat →
  take n (a ++ w ++ z) = a ++ w ++ take (n - length a - length w) z.
Proof. intros. rewrite !take_app, (take_ge a), (take_ge w) by lia. done. Qed.
Lemma window_drop_past a w z n : (length a + length w ≤ n)%nat →
  drop n (a ++ w ++ z) = drop (n - length a - length w) z.
Proof. intros. rewrite !drop_app, (drop_ge a), (drop_ge w) by lia. done. Qed.
Lemma window_take_before a w z n : (n ≤ length a)%nat → take n (a ++ w ++ z) = take n a.
Proof. intros. by rewrite take_app_le. Qed.
Lemma window_drop a w z n : (n ≤ length a)%nat → drop n (a ++ w ++ z) = drop n a ++ w ++ z.
Proof. intros. by rewrite drop_app_le. Qed.
End window.
