(* ===== verification/E2eProfile01.v ===== *)
(** Profile 01 of end-to-end protection: [e2e_protection/src/e2e/profile/profile01/].

    The profile writes a four-bit counter, a nibble of the data identifier and an
    eight-bit check into the buffer.  The theorems show that the checker accepts what
    the protector wrote, which changes it detects, and on which buffers it reads past
    the end. *)
From S2P Require Import Prelude Message E2eCrc E2eInterface.

(** The enumeration has [uint8_t] as its underlying type, so that a conversion can
    yield values that name no enumerator. *)
Inductive p01_data_id_mode : Type :=
| E2E_P01_DATAID_BOTH
| E2E_P01_DATAID_ALT
| E2E_P01_DATAID_LOW
| E2E_P01_DATAID_NIBBLE
| E2E_P01_DATAID_UNNAMED (v : Z).

Record profile_config : Type := mk_profile_config {
  crc_offset_ : Z;
  data_id_ : Z;
  data_id_mode_ : p01_data_id_mode;
  data_length_ : Z;
  counter_offset_ : Z;
  data_id_nibble_offset_ : Z;
  base_ : Z
}.

Definition profile_config_new (crc_offset data_id : Z) (data_id_mode : p01_data_id_mode)
    (data_length counter_offset data_id_nibble_offset : Z) : profile_config :=
  mk_profile_config crc_offset data_id data_id_mode data_length counter_offset
    data_id_nibble_offset VSOMEIP_FULL_HEADER_SIZE.

(** ** [profile_01] *)

Definition compute_crc (config : profile_config) (buffer : list Z) : outcome Z :=
  let data_id_buffer := [u8 (Z.shiftr (data_id_ config) 8); u8 (data_id_ config)] in
  computed_crc ←
    match data_id_mode_ config with
    | E2E_P01_DATAID_BOTH =>
        lsb ← buffer_view data_id_buffer 1 2;
        msb ← buffer_view data_id_buffer 0 1;
        Ret (calculate_profile_01 msb (calculate_profile_01 lsb 0xFF))
    | E2E_P01_DATAID_LOW =>
        lsb ← buffer_view data_id_buffer 1 2;
        Ret (calculate_profile_01 lsb 0xFF)
    | E2E_P01_DATAID_ALT => Ret 0xFF
    | E2E_P01_DATAID_NIBBLE =>
        lsb ← buffer_view data_id_buffer 1 2;
        zero ← buffer_view [0x00] 0 1;
        Ret (calculate_profile_01 zero (calculate_profile_01 lsb 0xFF))
    | E2E_P01_DATAID_UNNAMED _ => Ret 0xFF
    end;
  computed_crc ←
    (if bool_decide (crc_offset_ config >= 1) then
       before ← buffer_view buffer 0 (crc_offset_ config);
       Ret (calculate_profile_01 before computed_crc)
     else Ret computed_crc);
  computed_crc ←
    (if bool_decide (crc_offset_ config < data_length_ config `div` 8 - 1) then
       after ← buffer_view buffer (crc_offset_ config + 1) (buffer_size buffer);
       Ret (calculate_profile_01 after computed_crc)
     else Ret computed_crc);
  Ret (Z.lxor computed_crc 0xFF).

Definition is_buffer_length_valid (config : profile_config) (buffer : list Z) : bool :=
  bool_decide (data_length_ config `div` 8 + 1 ≤ buffer_size buffer) &&
  bool_decide (crc_offset_ config ≤ buffer_size buffer) &&
  bool_decide (counter_offset_ config `div` 8 ≤ buffer_size buffer) &&
  bool_decide (data_id_nibble_offset_ config `div` 8 ≤ buffer_size buffer).

(** ** [protector] *)

Record protector : Type := mk_protector {
  config_ : profile_config;
  counter_ : Z
}.
Definition protector_new (config : profile_config) : protector := mk_protector config 0.

Definition write_counter (p : protector) (buffer : list Z) : outcome (list Z) :=
  let at_ := counter_offset_ (config_ p) `div` 8 in
  if bool_decide (counter_offset_ (config_ p) `mod` 8 = 0) then
    old ← vget buffer at_;
    vset buffer at_ (u8 (Z.lor (Z.land old 0xF0) (Z.land (counter_ p) 0x0F)))
  else
    old ← vget buffer at_;
    vset buffer at_ (u8 (Z.lor (Z.land old 0x0F) (Z.land (Z.shiftl (counter_ p) 4) 0xF0))).

Definition write_data_id (p : protector) (buffer : list Z) : outcome (list Z) :=
  match data_id_mode_ (config_ p) with
  | E2E_P01_DATAID_NIBBLE =>
      let at_ := data_id_nibble_offset_ (config_ p) `div` 8 in
      if bool_decide (data_id_nibble_offset_ (config_ p) `mod` 8 = 0) then
        old ← vget buffer at_;
        vset buffer at_ (u8 (Z.lor (Z.land old 0xF0) (Z.land (Z.shiftr (data_id_ (config_ p)) 8) 0x0F)))
      else
        old ← vget buffer at_;
        vset buffer at_ (u8 (Z.lor (Z.land old 0x0F) (Z.land (Z.shiftr (data_id_ (config_ p)) 4) 0xF0)))
  | _ => Ret buffer
  end.

Definition write_crc (p : protector) (buffer : list Z) (computed_crc : Z) : outcome (list Z) :=
  vset buffer (crc_offset_ (config_ p)) computed_crc.

Definition increment_counter (p : protector) : protector :=
  mk_protector (config_ p) (u8 (u32 (counter_ p + 1) `mod` 15)).

#[export] Instance protect_01 : Protector protector := λ p buffer _,
  if is_buffer_length_valid (config_ p) buffer then
    buffer ← write_counter p buffer;
    buffer ← write_data_id p buffer;
    computed_crc ← compute_crc (config_ p) buffer;
    buffer ← write_crc p buffer computed_crc;
    Ret (buffer, increment_counter p)
  else Ret (buffer, p).

(** ** [profile_01_checker] *)

Record profile_01_checker : Type := mk_checker { checker_config_ : profile_config }.

#[export] Instance check_01 : Checker profile_01_checker := λ c g buffer _,
  if is_buffer_length_valid (checker_config_ c) buffer then
    received_crc ← vget buffer (crc_offset_ (checker_config_ c));
    calculated_crc ← compute_crc (checker_config_ c) buffer;
    if bool_decide (received_crc = calculated_crc) then Ret (E2E_OK, c, g)
    else Ret (E2E_WRONG_CRC, c, g)
  else Ret (E2E_ERROR, c, g).

(** * The check of a buffer *)

(** The members hold values of their types. *)
Definition config_wf (config : profile_config) : Prop :=
  is_u16 (crc_offset_ config) ∧ is_u16 (data_id_ config) ∧ is_u16 (data_length_ config) ∧
  is_u16 (counter_offset_ config) ∧ is_u16 (data_id_nibble_offset_ config).

(** The bytes of the data identifier that the check covers. *)
Definition id_bytes (config : profile_config) : list Z :=
  let lsb := u8 (data_id_ config) in
  match data_id_mode_ config with
  | E2E_P01_DATAID_BOTH => [lsb; u8 (Z.shiftr (data_id_ config) 8)]
  | E2E_P01_DATAID_LOW => [lsb]
  | E2E_P01_DATAID_NIBBLE => [lsb; 0]
  | _ => []
  end.
(** The bytes of the buffer that the check covers. *)
Definition before_crc (config : profile_config) (buffer : list Z) : list Z :=
  take (Z.to_nat (crc_offset_ config)) buffer.
Definition after_crc (config : profile_config) (buffer : list Z) : list Z :=
  if bool_decide (crc_offset_ config < data_length_ config `div` 8 - 1)
  then drop (Z.to_nat (crc_offset_ config + 1)) buffer else [].
Definition crc_of (config : profile_config) (buffer : list Z) : Z :=
  Z.lxor (calculate_profile_01 (id_bytes config ++ before_crc config buffer ++ after_crc config buffer)
            0xFF) 0xFF.

Lemma bytes_id_bytes config : bytes (id_bytes config).
Proof. unfold id_bytes. case_match; repeat constructor; apply is_u8_u8 || done. Qed.

(** [_buffer[config_.crc_offset_]] lies in the buffer. *)
Definition crc_inside (config : profile_config) (buffer : list Z) : Prop :=
  is_u16 (crc_offset_ config) ∧ crc_offset_ config < buffer_size buffer.

Lemma compute_crc_spec config buffer :
  crc_inside config buffer → compute_crc config buffer = Ret (crc_of config buffer).
Proof.
  intros [Ho Hlt]. unfold compute_crc, crc_of. cbv zeta. rewrite !calculate_profile_01_app.
  match goal with |- ?m ≫= _ = _ =>
    assert (m = Ret (calculate_profile_01 (id_bytes config) 0xFF)) as -> end.
  { unfold id_bytes. destruct (data_id_mode_ config); rewrite ?calculate_profile_01_nil; try done.
    - exact (f_equal Ret (eq_sym (calculate_profile_01_app [_] [_] 0xFF))).
    - exact (f_equal Ret (eq_sym (calculate_profile_01_app [_] [_] 0xFF))). }
  rewrite outcome_bind_Ret.
  match goal with |- ?m ≫= _ = _ =>
    assert (m = Ret (calculate_profile_01 (before_crc config buffer)
                       (calculate_profile_01 (id_bytes config) 0xFF))) as -> end.
  { unfold before_crc. case_bool_decide as Hge.
    - rewrite buffer_view_ret, outcome_bind_Ret by (unfold is_u16 in Ho; lia).
      by rewrite Z.sub_0_r, drop_0.
    - replace (crc_offset_ config) with 0 by (unfold is_u16 in Ho; lia).
      by rewrite take_0, calculate_profile_01_nil. }
  rewrite outcome_bind_Ret. unfold after_crc. case_bool_decide as Hlast; [|by rewrite calculate_profile_01_nil].
  rewrite buffer_view_ret, !outcome_bind_Ret by (unfold is_u16 in Ho; lia).
  rewrite take_ge; [done|]. rewrite length_drop. unfold is_u16, buffer_size in *. lia.
Qed.

Lemma bytes_covered config buffer :
  bytes buffer → bytes (id_bytes config ++ before_crc config buffer ++ after_crc config buffer).
Proof.
  intros Hb. rewrite !Forall_app. split_and!; [apply bytes_id_bytes|by apply bytes_take|].
  unfold after_crc. case_bool_decide; [by apply bytes_drop|done].
Qed.

Lemma crc_of_u8 config buffer : bytes buffer → is_u8 (crc_of config buffer).
Proof.
  intros Hb. apply lxor_u8; [|done]. apply calculate_profile_01_u8; [done|by apply bytes_covered].
Qed.

(** The check does not cover its own byte. *)
Lemma crc_of_insert config buffer x : is_u16 (crc_offset_ config) →
  crc_of config (<[Z.to_nat (crc_offset_ config) := x]> buffer) = crc_of config buffer.
Proof.
  intros Ho. unfold crc_of, before_crc, after_crc.
  rewrite take_insert_ge by lia. rewrite drop_insert_lt by (unfold is_u16 in Ho; lia). done.
Qed.

(** A byte of the buffer that the check covers, or the check itself. *)
Definition covered (config : profile_config) (j : Z) : Prop :=
  0 ≤ j ∧ (j ≤ crc_offset_ config ∨ crc_offset_ config < data_length_ config `div` 8 - 1).

(** * Nibbles *)

(** The four bits at a bit offset: the low ones of the byte if the offset is a
    multiple of eight, else the high ones. *)
Definition low_nibble (offset : Z) : bool := bool_decide (offset `mod` 8 = 0).
Definition nibble_of (low : bool) (b : Z) : Z := if low then b `mod` 16 else b `div` 16.
Definition nibble_set (low : bool) (b v : Z) : Z :=
  if low then b `div` 16 * 16 + v else v * 16 + b `mod` 16.
Definition put_nibble (buffer : list Z) (offset v : Z) : list Z :=
  alter (λ b, nibble_set (low_nibble offset) b v) (Z.to_nat (offset `div` 8)) buffer.
Definition get_nibble (buffer : list Z) (offset : Z) : option Z :=
  nibble_of (low_nibble offset) <$> buffer !! Z.to_nat (offset `div` 8).

Lemma land_f0 x : Z.land x 0xF0 = Z.shiftl ((x `div` 16) `mod` 16) 4.
Proof.
  rewrite <- shiftr_4, <- land_0f. change 0xF0 with (Z.shiftl 0x0F 4). apply Z.bits_inj'. intros i Hi.
  rewrite Z.land_spec. destruct (decide (i < 4)).
  - rewrite !Z.shiftl_spec_low by lia. apply andb_false_r.
  - rewrite !Z.shiftl_spec by lia. rewrite Z.land_spec, Z.shiftr_spec by lia. do 2 f_equal. lia.
Qed.
Lemma lor_low old v : is_u8 old → 
  u8 (Z.lor (Z.land old 0xF0) (Z.land v 0x0F)) = nibble_set true old (v `mod` 16).
Proof.
  intros Ho. unfold nibble_set. rewrite land_f0, land_0f, lor_shiftl_add by (lia || width_lia). width_lia.
Qed.
Lemma lor_high old v : is_u8 old →
  u8 (Z.lor (Z.land old 0x0F) (Z.land v 0xF0)) = nibble_set false old ((v `div` 16) `mod` 16).
Proof.
  intros Ho. unfold nibble_set. rewrite Z.lor_comm, land_f0, land_0f, lor_shiftl_add by (lia || width_lia).
  width_lia.
Qed.

Lemma nibble_set_u8 low b v : is_u8 b → 0 ≤ v < 16 → is_u8 (nibble_set low b v).
Proof. intros. unfold nibble_set. destruct low; width_lia. Qed.
Lemma nibble_of_set low b v : is_u8 b → 0 ≤ v < 16 → nibble_of low (nibble_set low b v) = v.
Proof. intros. unfold nibble_of, nibble_set. destruct low; width_lia. Qed.
Lemma nibble_of_set_other low b v :
  is_u8 b → 0 ≤ v < 16 → nibble_of (negb low) (nibble_set low b v) = nibble_of (negb low) b.
Proof. intros. unfold nibble_of, nibble_set. destruct low; cbn; width_lia. Qed.

Lemma length_put_nibble b o v : length (put_nibble b o v) = length b.
Proof. apply length_alter. Qed.
Lemma bytes_put_nibble b o v : bytes b → 0 ≤ v < 16 → bytes (put_nibble b o v).
Proof.
  intros Hb Hv. apply Forall_lookup_2. intros i x. unfold put_nibble.
  destruct (decide (i = Z.to_nat (o `div` 8))) as [->|Hne].
  - rewrite list_lookup_alter_eq. intros (y&Hy&->)%fmap_Some.
    apply nibble_set_u8; [by eapply bytes_lookup|done].
  - rewrite list_lookup_alter_ne by done. intros. by eapply bytes_lookup.
Qed.
Lemma lookup_put_nibble_ne b o v j :
  j ≠ Z.to_nat (o `div` 8) → put_nibble b o v !! j = b !! j.
Proof. intros. by apply list_lookup_alter_ne. Qed.
Lemma get_put_nibble b o v : bytes b → 0 ≤ v < 16 →
  0 ≤ o `div` 8 < buffer_size b → get_nibble (put_nibble b o v) o = Some v.
Proof.
  intros Hb Hv Ho. unfold get_nibble, put_nibble. rewrite list_lookup_alter_eq.
  destruct (lookup_lt_is_Some_2 b (Z.to_nat (o `div` 8))) as [x Hx]; [unfold buffer_size in Ho; lia|].
  rewrite Hx. cbn. f_equal. apply nibble_of_set; [by eapply bytes_lookup|done].
Qed.
(** Writing one nibble leaves another one as it is. *)
Definition nibbles_apart (o o' : Z) : Prop :=
  o `div` 8 ≠ o' `div` 8 ∨ low_nibble o' = negb (low_nibble o).
Lemma get_put_nibble_other b o o' v : bytes b → 0 ≤ v < 16 → 0 ≤ o `div` 8 → 0 ≤ o' `div` 8 →
  nibbles_apart o o' → get_nibble (put_nibble b o v) o' = get_nibble b o'.
Proof.
  intros Hb Hv Ho Ho' Hap. unfold get_nibble, put_nibble.
  destruct (decide (o `div` 8 = o' `div` 8)) as [Heq|Hne].
  - rewrite Heq, list_lookup_alter_eq. destruct Hap as [|Hlow]; [done|]. rewrite Hlow.
    destruct (b !! _) as [x|] eqn:Hx; [|done]. cbn. f_equal.
    apply nibble_of_set_other; [by eapply bytes_lookup|done].
  - by rewrite list_lookup_alter_ne by lia.
Qed.

(** * The protector *)

(** The buffers a configuration is meant for: every byte it writes lies inside. *)
Definition fits (config : profile_config) (buffer : list Z) : Prop :=
  config_wf config ∧ data_length_ config `div` 8 + 1 ≤ buffer_size buffer ∧
  crc_offset_ config < buffer_size buffer ∧
  counter_offset_ config `div` 8 < buffer_size buffer ∧
  data_id_nibble_offset_ config `div` 8 < buffer_size buffer.

Lemma fits_valid config buffer : fits config buffer → is_buffer_length_valid config buffer = true.
Proof. intros (_&?&?&?&?). unfold is_buffer_length_valid. by rewrite !bool_decide_true by lia. Qed.
Lemma fits_inside config buffer : fits config buffer → crc_inside config buffer.
Proof. intros ((?&_)&?&?&_). by split. Qed.
Lemma fits_length config b b' : length b' = length b → fits config b → fits config b'.
Proof. unfold fits, buffer_size. by intros ->. Qed.

(** Writing a nibble through [_buffer[...]]. *)
Lemma write_nibble_ret (f : Z → Z) buffer o v : bytes buffer → 0 ≤ o `div` 8 < buffer_size buffer →
  (∀ old, is_u8 old → f old = nibble_set (low_nibble o) old v) →
  (old ← vget buffer (o `div` 8); vset buffer (o `div` 8) (f old)) = Ret (put_nibble buffer o v).
Proof.
  intros Hb Ho Hf. destruct (vget_ret buffer (o `div` 8)) as (x&->&Hx); [done|].
  rewrite outcome_bind_Ret, vset_inside by done. f_equal. rewrite Hf by (by eapply bytes_lookup).
  unfold put_nibble. rewrite list_insert_alter. apply (list_alter_ext _ _ buffer buffer); [|done].
  intros y Hy. by simplify_eq.
Qed.

Lemma write_counter_spec p buffer : bytes buffer → fits (config_ p) buffer →
  write_counter p buffer = Ret (put_nibble buffer (counter_offset_ (config_ p)) (counter_ p `mod` 16)).
Proof.
  intros Hb ((_&_&_&Hc&_)&_&_&Hlt&_). unfold write_counter. cbv zeta.
  case_bool_decide as Hlow; (eapply write_nibble_ret; [done|width_lia|]); intros old Hold; unfold low_nibble.
  - rewrite bool_decide_true by done. by apply lor_low.
  - rewrite bool_decide_false by done. rewrite lor_high, shiftl_4 by done. f_equal. width_lia.
Qed.

(** The buffer with the nibble of the data identifier written. *)
Definition with_id_nibble (config : profile_config) (buffer : list Z) : list Z :=
  match data_id_mode_ config with
  | E2E_P01_DATAID_NIBBLE =>
      put_nibble buffer (data_id_nibble_offset_ config) ((data_id_ config `div` 256) `mod` 16)
  | _ => buffer
  end.
Lemma write_data_id_spec p buffer : bytes buffer → fits (config_ p) buffer →
  write_data_id p buffer = Ret (with_id_nibble (config_ p) buffer).
Proof.
  intros Hb ((_&Hid&_&_&Hn)&_&_&_&Hlt). unfold write_data_id, with_id_nibble.
  destruct (data_id_mode_ (config_ p)); try done.
  cbv zeta. case_bool_decide as Hlow; (eapply write_nibble_ret; [done|width_lia|]);
    intros old Hold; unfold low_nibble.
  - rewrite bool_decide_true by done. by rewrite lor_low, shiftr_8.
  - rewrite bool_decide_false by done. rewrite lor_high, shiftr_4 by done. f_equal. width_lia.
Qed.

(** The buffer with both nibbles written, and the protected buffer. *)
Definition with_nibbles (p : protector) (buffer : list Z) : list Z :=
  with_id_nibble (config_ p) (put_nibble buffer (counter_offset_ (config_ p)) (counter_ p `mod` 16)).
Definition protected (p : protector) (buffer : list Z) : list Z :=
  <[Z.to_nat (crc_offset_ (config_ p)) := crc_of (config_ p) (with_nibbles p buffer)]>
    (with_nibbles p buffer).

Lemma length_with_nibbles p buffer : length (with_nibbles p buffer) = length buffer.
Proof. unfold with_nibbles, with_id_nibble. case_match; by rewrite ?length_put_nibble. Qed.
Lemma bytes_with_nibbles p buffer : bytes buffer → bytes (with_nibbles p buffer).
Proof.
  intros Hb. unfold with_nibbles, with_id_nibble.
  case_match; repeat apply bytes_put_nibble; try done; apply Z.mod_pos_bound; lia.
Qed.
Lemma length_protected p buffer : length (protected p buffer) = length buffer.
Proof. unfold protected. by rewrite length_insert, length_with_nibbles. Qed.
Lemma bytes_protected p buffer : bytes buffer → bytes (protected p buffer).
Proof. intros Hb. apply bytes_insert; [|apply crc_of_u8]; by apply bytes_with_nibbles. Qed.

Lemma protect_01_eq p buffer i : bytes buffer → fits (config_ p) buffer →
  protect p buffer i = Ret (protected p buffer, increment_counter p).
Proof.
  intros Hb Hf. unfold protect, protect_01. rewrite fits_valid by done.
  rewrite write_counter_spec, outcome_bind_Ret by done.
  assert (0 ≤ counter_ p `mod` 16 < 16) by (apply Z.mod_pos_bound; lia).
  rewrite write_data_id_spec, outcome_bind_Ret;
    [|by apply bytes_put_nibble|eapply fits_length; [apply length_put_nibble|done]].
  fold (with_nibbles p buffer).
  assert (fits (config_ p) (with_nibbles p buffer)) as Hf'
    by (eapply fits_length; [apply length_with_nibbles|done]).
  rewrite compute_crc_spec, outcome_bind_Ret by (by apply fits_inside).
  unfold write_crc. rewrite vset_inside; [done|]. destruct (fits_inside _ _ Hf') as [? ?].
  unfold is_u16 in *. lia.
Qed.

Lemma check_01_eq c g buffer i : fits (checker_config_ c) buffer →
  check c g buffer i =
  Ret (if bool_decide (buffer !! Z.to_nat (crc_offset_ (checker_config_ c)) =
                       Some (crc_of (checker_config_ c) buffer)) then E2E_OK else E2E_WRONG_CRC, c, g).
Proof.
  intros Hf. unfold check, check_01. rewrite fits_valid by done.
  destruct (fits_inside _ _ Hf) as [Ho Hlt].
  destruct (vget_ret buffer (crc_offset_ (checker_config_ c))) as (x&->&Hx);
    [unfold is_u16, buffer_size in *; lia|].
  rewrite outcome_bind_Ret, compute_crc_spec, outcome_bind_Ret by done. rewrite Hx.
  repeat case_bool_decide; congruence.
Qed.

Lemma protected_crc p buffer : fits (config_ p) buffer →
  protected p buffer !! Z.to_nat (crc_offset_ (config_ p)) =
  Some (crc_of (config_ p) (protected p buffer)).
Proof.
  intros Hf. destruct (fits_inside _ _ Hf) as [Ho Hlt]. unfold protected.
  rewrite crc_of_insert by done. apply list_lookup_insert_eq. rewrite length_with_nibbles.
  unfold is_u16, buffer_size in *. lia.
Qed.

(** ** The profile as an instance of the interface *)

#[export, refine] Instance profile_01_profile : Profile protector profile_01_checker := {
  in_step p c := checker_config_ c = config_ p;
  accepts p buffer _ := fits (config_ p) buffer
}.
Proof.
  - intros p b i b' p' b2 _ Hp. enough (config_ p' = config_ p) as -> by done.
    unfold protect, protect_01 in Hp. outcome_inv Hp; by subst.
  - intros p c b i Hstep Hf Hb. exists (protected p b), (increment_counter p).
    split; [by apply protect_01_eq|]. split; [apply length_protected|].
    intros g. exists c, g. split; [|done].
    rewrite check_01_eq; rewrite Hstep; [|eapply fits_length; [apply length_protected|done]].
    by rewrite bool_decide_true by (by apply protected_crc).
Defined.

(** The protector of profile 01, on a buffer that holds all the fields of its
    configuration, returns normally; it changes at most the bytes of the check, of the
    counter and (in nibble mode) of the data identifier; the counter nibble holds the
    counter and the identifier nibble bits 8 to 11 of the identifier, where the
    fields do not overlap; the counter advances modulo 15; and the checker of the same
    configuration accepts the buffer. *)
Theorem profile_01_protect_spec p buffer instance g : bytes buffer →
  fits (config_ p) buffer → 0 ≤ counter_ p < 15 →
  let config := config_ p in
  ∃ buffer', protect p buffer instance = Ret (buffer', mk_protector config ((counter_ p + 1) `mod` 15)) ∧
    length buffer' = length buffer ∧
    check (mk_checker config) g buffer' instance = Ret (E2E_OK, mk_checker config, g) ∧
    (∀ j, j ≠ Z.to_nat (crc_offset_ config) → j ≠ Z.to_nat (counter_offset_ config `div` 8) →
       (data_id_mode_ config = E2E_P01_DATAID_NIBBLE → j ≠ Z.to_nat (data_id_nibble_offset_ config `div` 8)) →
       buffer' !! j = buffer !! j) ∧
    (crc_offset_ config ≠ counter_offset_ config `div` 8 →
     (data_id_mode_ config = E2E_P01_DATAID_NIBBLE →
        nibbles_apart (data_id_nibble_offset_ config) (counter_offset_ config)) →
     get_nibble buffer' (counter_offset_ config) = Some (counter_ p)) ∧
    (data_id_mode_ config = E2E_P01_DATAID_NIBBLE →
     crc_offset_ config ≠ data_id_nibble_offset_ config `div` 8 →
     get_nibble buffer' (data_id_nibble_offset_ config) = Some ((data_id_ config `div` 256) `mod` 16)).
Proof.
  intros Hb Hf Hc config. exists (protected p buffer).
  assert (bytes (put_nibble buffer (counter_offset_ config) (counter_ p `mod` 16))) as Hb1
    by (apply bytes_put_nibble; [done|apply Z.mod_pos_bound; lia]).
  pose proof Hf as ((Ho&Hid&Hl&Hco&Hno)&_&Hcrc&Hcnt&Hnib). fold config in Ho, Hid, Hl, Hco, Hno, Hcrc, Hcnt, Hnib.
  assert (∀ off, is_u16 off → 0 ≤ off `div` 8) as Hdiv by (intros; width_lia).
  pose proof (Hdiv _ Hco). pose proof (Hdiv _ Hno).
  assert (0 ≤ (data_id_ config `div` 256) `mod` 16 < 16) as Hidn by (apply Z.mod_pos_bound; lia).
  split_and!.
  - rewrite protect_01_eq by done. unfold increment_counter. do 3 f_equal. width_lia.
  - apply length_protected.
  - rewrite check_01_eq by (eapply fits_length; [apply length_protected|done]).
    by rewrite bool_decide_true by (by apply protected_crc).
  - intros j Hj1 Hj2 Hj3. unfold protected. rewrite list_lookup_insert_ne by done.
    unfold with_nibbles, with_id_nibble. fold config.
    destruct (data_id_mode_ config); rewrite ?lookup_put_nibble_ne by auto; done.
  - intros Hne Hap. unfold get_nibble, protected. rewrite list_lookup_insert_ne by (fold config; unfold is_u16 in *; lia).
    fold (get_nibble (with_nibbles p buffer) (counter_offset_ config)). unfold with_nibbles, with_id_nibble. fold config.
    trans (get_nibble (put_nibble buffer (counter_offset_ config) (counter_ p `mod` 16)) (counter_offset_ config)).
    + destruct (data_id_mode_ config); try done. apply get_put_nibble_other; auto.
    + rewrite get_put_nibble; [f_equal; apply Z.mod_small; lia|done|apply Z.mod_pos_bound; lia|auto].
  - intros Hm Hne. unfold get_nibble, protected. rewrite list_lookup_insert_ne by (fold config; unfold is_u16 in *; lia).
    fold (get_nibble (with_nibbles p buffer) (data_id_nibble_offset_ config)). unfold with_nibbles, with_id_nibble.
    fold config. rewrite Hm. apply get_put_nibble; [done|done|]. split; [by auto|].
    unfold buffer_size. by rewrite length_put_nibble.
Qed.

(** The default layout: check, then counter and identifier nibble in one byte. *)
Definition example_config : profile_config :=
  profile_config_new 0 0x3A5 E2E_P01_DATAID_NIBBLE 32 8 12.

Lemma profile_01_protect_spec_witness :
  match protect (mk_protector example_config 7) [0; 0; 1; 2; 3; 4] 1 with
  | Ret (b, _) => check (mk_checker example_config) false b 1 = Ret (E2E_OK, mk_checker example_config, false) ∧
      get_nibble b 8 = Some 7 ∧ get_nibble b 12 = Some 3
  | _ => False
  end.
Proof.
  destruct (profile_01_protect_spec (mk_protector example_config 7) [0; 0; 1; 2; 3; 4] 1 false)
    as (b&Hp&_&Hc&_&Hn&Hi).
  - repeat constructor; done.
  - vm_compute. intuition congruence.
  - cbn. lia.
  - rewrite Hp. split; [exact Hc|]. split; [apply Hn|by apply Hi].
    + done.
    + intros _. right. done.
Defined.

(** ** Detection *)

Lemma crc_of_change config buffer j x y : is_u16 (crc_offset_ config) → bytes buffer → is_u8 x →
  covered config (Z.of_nat j) → Z.of_nat j ≠ crc_offset_ config → buffer !! j = Some y → x ≠ y →
  crc_of config (<[j := x]> buffer) ≠ crc_of config buffer.
Proof.
  intros Ho Hb Hx [_ Hcov] Hj Hy Hne Heq%lxor_cancel_r. revert Heq.
  assert (bytes (after_crc config buffer)) as Hafter
    by (unfold after_crc; case_bool_decide; [by apply bytes_drop|done]).
  destruct (decide (Z.of_nat j < crc_offset_ config)) as [Hlt|Hge].
  - assert (after_crc config (<[j:=x]> buffer) = after_crc config buffer) as ->.
    { unfold after_crc. case_bool_decide; [|done]. apply drop_insert_lt. lia. }
    assert (before_crc config (<[j:=x]> buffer) = <[j:=x]> (before_crc config buffer)) as ->
      by (apply take_insert_lt; lia).
    eapply calculate_profile_01_insert; [done|apply bytes_id_bytes|by apply bytes_take|done|done| |done].
    unfold before_crc. rewrite lookup_take_lt; [done|lia].
  - destruct Hcov as [|Hlast]; [lia|].
    assert (before_crc config (<[j:=x]> buffer) = before_crc config buffer) as ->
      by (apply take_insert_ge; lia).
    revert Hafter. unfold after_crc. rewrite bool_decide_true by done. intros Hafter.
    unfold is_u16 in Ho. rewrite drop_insert_ge by lia. rewrite !(app_assoc (id_bytes config)).
    intros Heq. eapply (calculate_profile_01_insert (id_bytes config ++ before_crc config buffer)
      (drop (Z.to_nat (crc_offset_ config + 1)) buffer) (j - Z.to_nat (crc_offset_ config + 1)) x y []);
      [..|rewrite !app_nil_r; exact Heq]; try done.
    + apply Forall_app; split; [apply bytes_id_bytes|by apply bytes_take].
    + rewrite lookup_drop. replace (_ + _)%nat with j by lia. done.
Qed.

(** The checker of profile 01 reports a wrong check for a protected buffer in which
    one byte was changed, if the byte is the check, lies before it, or lies after it
    and the check is not the last byte of the configured data length. *)
Theorem profile_01_detects_byte p buffer instance g j x : bytes buffer →
  fits (config_ p) buffer → is_u8 x → covered (config_ p) (Z.of_nat j) →
  let buffer' := protected p buffer in
  (j < length buffer)%nat → buffer' !! j ≠ Some x →
  protect p buffer instance = Ret (buffer', increment_counter p) ∧
  check (mk_checker (config_ p)) g (<[j := x]> buffer') instance =
    Ret (E2E_WRONG_CRC, mk_checker (config_ p), g).
Proof.
  intros Hb Hf Hx Hcov buffer' Hj Hne. split; [by apply protect_01_eq|].
  destruct (fits_inside _ _ Hf) as [Ho Hlt].
  rewrite check_01_eq by (eapply fits_length; [|done]; unfold buffer'; by rewrite length_insert, length_protected).
  cbn [checker_config_]. rewrite bool_decide_false; [done|].
  pose proof (protected_crc p buffer Hf) as Hcrc. fold buffer' in Hcrc.
  assert (j < length buffer')%nat as Hj' by (by unfold buffer'; rewrite length_protected).
  destruct (lookup_lt_is_Some_2 _ _ Hj') as [y Hy].
  destruct (decide (Z.of_nat j = crc_offset_ (config_ p))) as [Heq|Hjne].
  - assert (j = Z.to_nat (crc_offset_ (config_ p))) as -> by lia.
    rewrite list_lookup_insert_eq by done. rewrite crc_of_insert by done.
    congruence.
  - rewrite list_lookup_insert_ne by (unfold is_u16 in Ho; lia). rewrite Hcrc. intros [= Heq]. symmetry in Heq. revert Heq.
    apply (crc_of_change _ _ _ _ y); [done|by apply bytes_protected|done..|congruence].
Qed.

Lemma profile_01_detects_byte_witness :
  let p := mk_protector example_config 7 in
  check (mk_checker example_config) false (<[5%nat := 0xFF]> (protected p [0; 0; 1; 2; 3; 4])) 1 =
  Ret (E2E_WRONG_CRC, mk_checker example_config, false).
Proof.
  apply (profile_01_detects_byte (mk_protector example_config 7) [0; 0; 1; 2; 3; 4] 1 false 5 0xFF).
  - repeat constructor; done.
  - vm_compute. intuition congruence.
  - done.
  - split; [lia|]. right. done.
  - cbn. lia.
  - done.
Defined.

(** The checker of profile 01 reads outside the buffer exactly when the buffer
    passes its length test and ends where the check should be: the test compares the
    offset with [<=].  On every other buffer the check returns a status. *)
Theorem profile_01_check_undefined config buffer instance g : config_wf config →
  (check (mk_checker config) g buffer instance = Undef ↔
     is_buffer_length_valid config buffer = true ∧ crc_offset_ config = buffer_size buffer) ∧
  (crc_offset_ config ≠ buffer_size buffer →
     ∃ s, check (mk_checker config) g buffer instance = Ret (s, mk_checker config, g) ∧
       (s = E2E_ERROR ↔ is_buffer_length_valid config buffer = false)).
Proof.
  intros (Ho&_). unfold check, check_01. cbn [checker_config_].
  destruct (is_buffer_length_valid config buffer) eqn:Hv.
  2: { split; [by split; [|intros [? _]]|]. intros _. by eexists. }
  assert (crc_offset_ config ≤ buffer_size buffer) as Hle
    by (unfold is_buffer_length_valid in Hv; rewrite !andb_true_iff, !bool_decide_eq_true in Hv; tauto).
  destruct (decide (crc_offset_ config = buffer_size buffer)) as [Heq|Hne].
  - rewrite vget_undef by (unfold buffer_size in Heq; lia). done.
  - destruct (vget_ret buffer (crc_offset_ config)) as (x&->&_); [unfold is_u16, buffer_size in *; lia|].
    rewrite outcome_bind_Ret, compute_crc_spec, outcome_bind_Ret by (split; [done|lia]).
    case_bool_decide; (split; [by split; [|intros [_ ?]]|]); intros _; by eexists.
Qed.

Lemma profile_01_check_undefined_witness :
  check (mk_checker (profile_config_new 3 0 E2E_P01_DATAID_LOW 16 8 12)) false [1; 2; 3] 0 = Undef.
Proof.
  apply profile_01_check_undefined; [repeat split; done|split; vm_compute; reflexivity].
Defined.
