(* ===== verification/E2eProfile04.v ===== *)
(** Profile 04 of end-to-end protection: [e2e_protection/src/e2e/profile/profile04/].

    The profile writes the length, a 16-bit counter, the data identifier combined with
    the instance, and a 32-bit check over everything else.  The checker also follows the
    counter.  The theorems show that a sequence of protected messages is accepted,
    which changes are detected, what the counter test computes, and on which buffers
    the profile leaves the buffer. *)
From S2P Require Import Prelude ByteOrder Message E2eCrc E2eInterface.

Definition VSOMEIP_E2E_PROFILE04_MAX_INSTANCE : Z := 0x00ff.

Record profile_config : Type := mk_profile_config {
  data_id_ : Z;
  offset_ : Z;
  min_data_length_ : Z;
  max_data_length_ : Z;
  max_delta_counter_ : Z;
  base_ : Z
}.
Definition profile_config_new (data_id offset min_data_length max_data_length max_delta_counter : Z) :
    profile_config :=
  mk_profile_config data_id offset min_data_length max_data_length max_delta_counter
    VSOMEIP_SOMEIP_HEADER_SIZE.

(** ** [profile_04] *)

Definition compute_crc (config : profile_config) (buffer : list Z) : outcome Z :=
  its_before ← buffer_view buffer 0 (u64 (offset_ config + 8));
  let computed_crc := calculate_profile_04 its_before 0 in
  if bool_decide (u64 (offset_ config + 12) < buffer_size buffer) then
    its_after ← buffer_view buffer (u64 (offset_ config + 12)) (buffer_size buffer);
    Ret (calculate_profile_04 its_after computed_crc)
  else Ret computed_crc.

(** [uint32_t(_instance) << 24 | config_.data_id_] *)
Definition its_data_id (config : profile_config) (instance : Z) : Z :=
  Z.lor (u32 (Z.shiftl (u32 instance) 24)) (data_id_ config).

(** ** [protector] *)

Record protector : Type := mk_protector {
  config_ : profile_config;
  counter_ : Z
}.
Definition protector_new (config : profile_config) : protector := mk_protector config 0.

Definition verify_inputs (p : protector) (buffer : list Z) : bool :=
  bool_decide (buffer_size buffer >= min_data_length_ (config_ p)) &&
  bool_decide (buffer_size buffer ≤ max_data_length_ (config_ p)).

Definition write_16 (p : protector) (buffer : list Z) (data index : Z) : outcome (list Z) :=
  let o := offset_ (config_ p) in
  buffer ← vset buffer (u64 (o + index)) (VSOMEIP_WORD_BYTE1 data);
  vset buffer (u64 (o + index + 1)) (VSOMEIP_WORD_BYTE0 data).

Definition write_32 (p : protector) (buffer : list Z) (data index : Z) : outcome (list Z) :=
  let o := offset_ (config_ p) in
  buffer ← vset buffer (u64 (o + index)) (VSOMEIP_LONG_BYTE3 data);
  buffer ← vset buffer (u64 (o + index + 1)) (VSOMEIP_LONG_BYTE2 data);
  buffer ← vset buffer (u64 (o + index + 2)) (VSOMEIP_LONG_BYTE1 data);
  vset buffer (u64 (o + index + 3)) (VSOMEIP_LONG_BYTE0 data).

Definition increment_counter (p : protector) : protector :=
  mk_protector (config_ p) (u16 (counter_ p + 1)).

#[export] Instance protect_04 : Protector protector := λ p buffer instance,
  if bool_decide (instance > VSOMEIP_E2E_PROFILE04_MAX_INSTANCE) then Ret (buffer, p)
  else if verify_inputs p buffer then
    buffer ← write_16 p buffer (u16 (buffer_size buffer)) 0;
    buffer ← write_16 p buffer (counter_ p) 2;
    buffer ← write_32 p buffer (its_data_id (config_ p) instance) 4;
    its_crc ← compute_crc (config_ p) buffer;
    buffer ← write_32 p buffer its_crc 8;
    Ret (buffer, increment_counter p)
  else Ret (buffer, p).

(** ** [profile_04_checker] *)

Record profile_04_checker : Type := mk_checker {
  checker_config_ : profile_config;
  checker_counter_ : Z
}.
Definition checker_new (config : profile_config) : profile_04_checker := mk_checker config 0xffff.

Definition verify_input (c : profile_04_checker) (buffer : list Z) : bool :=
  let its_length := buffer_size buffer in
  bool_decide (its_length >= min_data_length_ (checker_config_ c)) &&
  bool_decide (its_length ≤ max_data_length_ (checker_config_ c)).

(** [has_counter] is a static variable of the function: one for all checkers. *)
Definition verify_counter (c : profile_04_checker) (has_counter : bool) (received_counter : Z) :
    bool * bool :=
  let '(its_delta, has_counter) :=
    if has_counter then
      (if bool_decide (checker_counter_ c < received_counter) then
         u16 (received_counter - checker_counter_ c)
       else u16 (0xffff - checker_counter_ c + received_counter), has_counter)
    else (0, true) in
  (bool_decide (its_delta ≤ max_delta_counter_ (checker_config_ c)), has_counter).

Definition read_16 (c : profile_04_checker) (buffer : list Z) (index : Z) : outcome Z :=
  let o := offset_ (checker_config_ c) in
  b0 ← vget buffer (u64 (o + index));
  b1 ← vget buffer (u64 (o + index + 1));
  Ret (VSOMEIP_BYTES_TO_WORD b0 b1).

Definition read_32 (c : profile_04_checker) (buffer : list Z) (index : Z) : outcome Z :=
  let o := offset_ (checker_config_ c) in
  b0 ← vget buffer (u64 (o + index));
  b1 ← vget buffer (u64 (o + index + 1));
  b2 ← vget buffer (u64 (o + index + 2));
  b3 ← vget buffer (u64 (o + index + 3));
  Ret (VSOMEIP_BYTES_TO_LONG b0 b1 b2 b3).

#[export] Instance check_04 : Checker profile_04_checker := λ c has_counter buffer instance,
  if bool_decide (instance > VSOMEIP_E2E_PROFILE04_MAX_INSTANCE) then Ret (E2E_ERROR, c, has_counter)
  else if verify_input c buffer then
    its_received_length ← read_16 c buffer 0;
    its_received_counter ← read_16 c buffer 2;
    its_received_data_id ← read_32 c buffer 4;
    its_received_crc ← read_32 c buffer 8;
    its_crc ← compute_crc (checker_config_ c) buffer;
    if bool_decide (its_received_crc ≠ its_crc) then Ret (E2E_WRONG_CRC, c, has_counter)
    else
      let '(ok, has_counter) :=
        if bool_decide (its_received_data_id = its_data_id (checker_config_ c) instance) &&
           bool_decide (its_received_length = buffer_size buffer)
        then verify_counter c has_counter its_received_counter
        else (false, has_counter) in
      Ret (if ok : bool then E2E_OK else E2E_ERROR,
           mk_checker (checker_config_ c) its_received_counter, has_counter)
  else Ret (E2E_ERROR, c, has_counter).

(** * The layout of a buffer *)

(** The members hold values of their types, and the fields of the profile lie inside
    the buffer. *)
Definition config_wf (config : profile_config) : Prop :=
  is_u32 (data_id_ config) ∧ is_u64 (offset_ config) ∧ is_u16 (max_delta_counter_ config).
Definition fits (config : profile_config) (buffer : list Z) : Prop :=
  config_wf config ∧ offset_ config + 12 ≤ buffer_size buffer < 2 ^ 64.

(** The fields: length, counter, data identifier, check. *)
Lemma fields_of config buffer : fits config buffer → bytes buffer →
  ∃ pre len cnt id crc post, buffer = pre ++ len ++ cnt ++ id ++ crc ++ post ∧
    Z.of_nat (length pre) = offset_ config ∧ length len = 2%nat ∧ length cnt = 2%nat ∧
    length id = 4%nat ∧ length crc = 4%nat.
Proof.
  intros ((_&Ho&_)&Hsz) Hb. unfold buffer_size in Hsz. unfold is_u64 in Ho.
  set (n := Z.to_nat (offset_ config)).
  exists (take n buffer), (take 2 (drop n buffer)), (take 2 (drop 2 (drop n buffer))),
    (take 4 (drop 2 (drop 2 (drop n buffer)))), (take 4 (drop 4 (drop 2 (drop 2 (drop n buffer))))),
    (drop 4 (drop 4 (drop 2 (drop 2 (drop n buffer))))).
  split; [by rewrite !take_drop|]. rewrite !length_take, !length_drop. lia.
Qed.

(** Byte and word accesses at an index behind the offset. *)
Lemma index_u64 o k n : 0 ≤ o → 0 ≤ k → o + k ≤ n < 2 ^ 64 → u64 (o + k) = o + k.
Proof. intros. apply u64_id. unfold is_u64. lia. Qed.

Section accesses.
  Context (a b : list Z) (o k : Z).
  Context (Ha : Z.of_nat (length a) = o + k) (Hok : 0 ≤ o) (Hk : 0 ≤ k).

Lemma write_16_at p f v : offset_ (config_ p) = o → length f = 2%nat →
  buffer_size (a ++ f ++ b) < 2 ^ 64 →
  write_16 p (a ++ f ++ b) v k = Ret (a ++ be16 v ++ b).
Proof using Ha Hok Hk.
  intros Hp Hf Hsz. unfold buffer_size in Hsz. rewrite !length_app in Hsz.
  destruct f as [|x0 [|x1 []]]; try done. unfold write_16. rewrite Hp. cbv zeta.
  rewrite !u64_id by (unfold is_u64; cbn in Hsz; lia).
  rewrite <- Ha, <- (Z.add_0_r (Z.of_nat (length a))) at 1.
  do 2 (erewrite vset_at by (done || rewrite ?length_insert, length_app; cbn; lia);
    cbn [outcome_mbind outcome_bind mbind]).
  done.
Qed.
Lemma write_32_at p f v : offset_ (config_ p) = o → length f = 4%nat →
  buffer_size (a ++ f ++ b) < 2 ^ 64 →
  write_32 p (a ++ f ++ b) v k = Ret (a ++ be32 v ++ b).
Proof using Ha Hok Hk.
  intros Hp Hf Hsz. unfold buffer_size in Hsz. rewrite !length_app in Hsz.
  destruct f as [|x0 [|x1 [|x2 [|x3 []]]]]; try done. unfold write_32. rewrite Hp. cbv zeta.
  rewrite !u64_id by (unfold is_u64; cbn in Hsz; lia).
  rewrite <- Ha, <- (Z.add_0_r (Z.of_nat (length a))) at 1.
  do 4 (erewrite vset_at by (done || rewrite ?length_insert, length_app; cbn; lia);
    cbn [outcome_mbind outcome_bind mbind]).
  done.
Qed.
Lemma read_16_at c x0 x1 : offset_ (checker_config_ c) = o →
  buffer_size (a ++ [x0; x1] ++ b) < 2 ^ 64 →
  read_16 c (a ++ [x0; x1] ++ b) k = Ret (VSOMEIP_BYTES_TO_WORD x0 x1).
Proof using Ha Hok Hk.
  intros Hp Hsz. unfold buffer_size in Hsz. rewrite !length_app in Hsz.
  unfold read_16. rewrite Hp. cbv zeta. rewrite !u64_id by (unfold is_u64; cbn in Hsz; lia).
  rewrite <- Ha, <- (Z.add_0_r (Z.of_nat (length a))) at 1.
  by rewrite (vget_at _ _ _ 0 x0), (vget_at _ _ _ 1 x1) by (done || lia).
Qed.
Lemma read_32_at c x0 x1 x2 x3 : offset_ (checker_config_ c) = o →
  buffer_size (a ++ [x0; x1; x2; x3] ++ b) < 2 ^ 64 →
  read_32 c (a ++ [x0; x1; x2; x3] ++ b) k = Ret (VSOMEIP_BYTES_TO_LONG x0 x1 x2 x3).
Proof using Ha Hok Hk.
  intros Hp Hsz. unfold buffer_size in Hsz. rewrite !length_app in Hsz.
  unfold read_32. rewrite Hp. cbv zeta. rewrite !u64_id by (unfold is_u64; cbn in Hsz; lia).
  rewrite <- Ha, <- (Z.add_0_r (Z.of_nat (length a))) at 1.
  by rewrite (vget_at _ _ _ 0 x0), (vget_at _ _ _ 1 x1), (vget_at _ _ _ 2 x2), (vget_at _ _ _ 3 x3)
    by (done || lia).
Qed.
End accesses.

(** ** The check covers everything but itself *)

Definition crc_of (config : profile_config) (buffer : list Z) : Z :=
  calculate_profile_04
    (take (Z.to_nat (offset_ config + 8)) buffer ++ drop (Z.to_nat (offset_ config + 12)) buffer) 0.

Lemma compute_crc_04_spec config buffer :
  fits config buffer → compute_crc config buffer = Ret (crc_of config buffer).
Proof.
  intros ((_&Ho&_)&Hsz). unfold is_u64 in Ho. unfold compute_crc, crc_of.
  rewrite !u64_id by (unfold is_u64; lia).
  rewrite (buffer_view_ret buffer 0), outcome_bind_Ret, Z.sub_0_r, drop_0, calculate_profile_04_app by lia.
  case_bool_decide as Hlt.
  - rewrite buffer_view_ret, outcome_bind_Ret by lia. do 2 f_equal. apply take_ge.
    rewrite length_drop. unfold buffer_size in *. lia.
  - rewrite (drop_ge buffer), calculate_profile_04_nil by (unfold buffer_size in *; lia). done.
Qed.
Lemma crc_of_u32 config buffer : bytes buffer → is_u32 (crc_of config buffer).
Proof. intros Hb. apply calculate_profile_04_u32; [done|]. apply Forall_app; auto with widths. Qed.

(** * Protecting and checking *)

(** The fields the protector writes, and the protected buffer. *)
Definition header (p : protector) (n instance : Z) : list Z :=
  be16 n ++ be16 (counter_ p) ++ be32 (its_data_id (config_ p) instance).
Definition protected (p : protector) (instance : Z) (pre post : list Z) : list Z :=
  let h := header p (u16 (Z.of_nat (length pre + 12 + length post))) instance in
  pre ++ h ++ be32 (calculate_profile_04 (pre ++ h ++ post) 0) ++ post.

Lemma crc_of_layout config pre h f post : Z.of_nat (length pre) = offset_ config →
  length h = 8%nat → length f = 4%nat →
  crc_of config (pre ++ h ++ f ++ post) = calculate_profile_04 (pre ++ h ++ post) 0.
Proof.
  intros Hpre Hh Hf. unfold crc_of. rewrite <- Hpre. f_equal.
  rewrite !(app_assoc pre).
  rewrite take_app_length' by (rewrite length_app; lia). rewrite <- !app_assoc. do 2 f_equal.
  rewrite !app_assoc. apply drop_app_length'. rewrite !length_app. lia.
Qed.

Lemma length_protected_04 p i pre post : length (protected p i pre post) = (length pre + 12 + length post)%nat.
Proof. unfold protected. rewrite !length_app. cbn. lia. Qed.
Lemma bytes_header p n i : bytes (header p n i).
Proof. unfold header. rewrite !Forall_app. auto using bytes_be16, bytes_be32. Qed.

(** The buffers the protector writes to. *)
Definition protectable (p : protector) (buffer : list Z) (instance : Z) : Prop :=
  fits (config_ p) buffer ∧ instance ≤ VSOMEIP_E2E_PROFILE04_MAX_INSTANCE ∧ verify_inputs p buffer = true.

Lemma protect_04_eq p pre len cnt id crc post i :
  let buffer := pre ++ len ++ cnt ++ id ++ crc ++ post in
  protectable p buffer i → Z.of_nat (length pre) = offset_ (config_ p) →
  length len = 2%nat → length cnt = 2%nat → length id = 4%nat → length crc = 4%nat →
  protect p buffer i = Ret (protected p i pre post, increment_counter p).
Proof.
  intros buffer (Hf&Hi&Hv) Hpre Hlen Hcnt Hid Hcrc. unfold protect, protect_04.
  rewrite bool_decide_false by lia. rewrite Hv.
  assert (buffer_size buffer = Z.of_nat (length pre + 12 + length post)) as Hsz
    by (unfold buffer, buffer_size; rewrite !length_app; f_equal; lia).
  pose proof Hf as (Hwf&Hs1&Hs2). rewrite Hsz in *. set (n := u16 _).
  unfold buffer at 1.
  rewrite (write_16_at pre (cnt ++ id ++ crc ++ post) (offset_ (config_ p)) 0)
    by (lia || (fold buffer; lia) || done).
  rewrite outcome_bind_Ret, (app_assoc pre).
  rewrite (write_16_at (pre ++ be16 n) (id ++ crc ++ post) (offset_ (config_ p)) 2)
    by (unfold buffer_size; rewrite ?length_app; cbn; lia).
  rewrite outcome_bind_Ret, (app_assoc (pre ++ _)).
  rewrite (write_32_at ((pre ++ be16 n) ++ be16 (counter_ p)) (crc ++ post) (offset_ (config_ p)) 4)
    by (unfold buffer_size; rewrite ?length_app; cbn; lia).
  rewrite outcome_bind_Ret.
  assert (((pre ++ be16 n) ++ be16 (counter_ p)) ++ be32 (its_data_id (config_ p) i) ++ crc ++ post =
    pre ++ header p n i ++ crc ++ post) as -> by (unfold header; by rewrite <- !app_assoc).
  rewrite compute_crc_04_spec, outcome_bind_Ret, crc_of_layout;
    [|done..|split; [done|unfold buffer_size; rewrite !length_app; cbn; lia]].
  rewrite (app_assoc pre).
  rewrite (write_32_at (pre ++ header p n i) post (offset_ (config_ p)) 8)
    by (unfold buffer_size; rewrite ?length_app; cbn; lia).
  rewrite outcome_bind_Ret, <- app_assoc. done.
Qed.

(** The status of a buffer whose check is right. *)
Definition verdict (c : profile_04_checker) (g : bool) (len cnt id n instance : Z) :
    generic_check_status * bool :=
  if bool_decide (id = its_data_id (checker_config_ c) instance) && bool_decide (len = n) then
    let '(ok, g') := verify_counter c g cnt in (if ok : bool then E2E_OK else E2E_ERROR, g')
  else (E2E_ERROR, g).

Lemma check_04_eq c g pre l0 l1 c0 c1 d0 d1 d2 d3 k0 k1 k2 k3 post i :
  let buffer := pre ++ [l0; l1] ++ [c0; c1] ++ [d0; d1; d2; d3] ++ [k0; k1; k2; k3] ++ post in
  fits (checker_config_ c) buffer → i ≤ VSOMEIP_E2E_PROFILE04_MAX_INSTANCE →
  verify_input c buffer = true → Z.of_nat (length pre) = offset_ (checker_config_ c) →
  check c g buffer i =
  if bool_decide (VSOMEIP_BYTES_TO_LONG k0 k1 k2 k3 = crc_of (checker_config_ c) buffer) then
    let cnt := VSOMEIP_BYTES_TO_WORD c0 c1 in
    let '(s, g') := verdict c g (VSOMEIP_BYTES_TO_WORD l0 l1) cnt (VSOMEIP_BYTES_TO_LONG d0 d1 d2 d3)
                      (buffer_size buffer) i in
    Ret (s, mk_checker (checker_config_ c) cnt, g')
  else Ret (E2E_WRONG_CRC, c, g).
Proof.
  intros buffer Hf Hi Hv Hpre. unfold check, check_04. rewrite bool_decide_false by lia. rewrite Hv.
  pose proof Hf as (Hwf&Hs1&Hs2).
  assert (buffer_size buffer = Z.of_nat (length pre + 12 + length post)) as Hsz
    by (unfold buffer, buffer_size; rewrite !length_app; f_equal; cbn; lia).
  set (o := offset_ (checker_config_ c)) in *.
  assert (0 ≤ o) by (destruct Hwf as (_&Ho&_); unfold o; unfold is_u64 in Ho; lia).
  assert (read_16 c buffer 0 = Ret (VSOMEIP_BYTES_TO_WORD l0 l1)) as ->
    by (apply (read_16_at pre _ o); lia || done || (fold buffer; lia)).
  assert (read_16 c buffer 2 = Ret (VSOMEIP_BYTES_TO_WORD c0 c1)) as ->.
  { replace buffer with ((pre ++ [l0; l1]) ++ [c0; c1] ++ [d0; d1; d2; d3] ++ [k0; k1; k2; k3] ++ post)
      by (unfold buffer; by rewrite <- app_assoc).
    apply (read_16_at _ _ o); unfold buffer_size; rewrite ?length_app; cbn; done || lia. }
  assert (read_32 c buffer 4 = Ret (VSOMEIP_BYTES_TO_LONG d0 d1 d2 d3)) as ->.
  { replace buffer with ((pre ++ [l0; l1; c0; c1]) ++ [d0; d1; d2; d3] ++ [k0; k1; k2; k3] ++ post)
      by (unfold buffer; by rewrite <- app_assoc).
    apply (read_32_at _ _ o); unfold buffer_size; rewrite ?length_app; cbn; done || lia. }
  assert (read_32 c buffer 8 = Ret (VSOMEIP_BYTES_TO_LONG k0 k1 k2 k3)) as ->.
  { replace buffer with ((pre ++ [l0; l1; c0; c1; d0; d1; d2; d3]) ++ [k0; k1; k2; k3] ++ post)
      by (unfold buffer; by rewrite <- app_assoc).
    apply (read_32_at _ _ o); unfold buffer_size; rewrite ?length_app; cbn; done || lia. }
  rewrite !outcome_bind_Ret, compute_crc_04_spec, outcome_bind_Ret by done.
  destruct (decide (VSOMEIP_BYTES_TO_LONG k0 k1 k2 k3 = crc_of (checker_config_ c) buffer)) as [Heq|Hne].
  - rewrite (bool_decide_true (_ = crc_of _ _)) by done. rewrite (bool_decide_false (_ ≠ _)) by (by intros []).
    unfold verdict. destruct (bool_decide _ && bool_decide _); [|done]. by destruct (verify_counter _ _ _).
  - rewrite (bool_decide_false (_ = crc_of _ _)) by done. by rewrite bool_decide_true by done.
Qed.

(** ** Counters *)

(** The distance from the last accepted counter to a received one. *)
Definition distance (last received : Z) : Z := (received - last) `mod` 2 ^ 16.

Lemma verify_counter_next c g : is_u16 (checker_counter_ c) → 1 ≤ max_delta_counter_ (checker_config_ c) →
  (verify_counter c g (u16 (checker_counter_ c + 1))).1 = true.
Proof.
  intros Hc Hm. unfold verify_counter. destruct g; cbn; [|apply bool_decide_eq_true; lia].
  apply bool_decide_eq_true. case_bool_decide; width_lia.
Qed.

(** The counter test of the profile 04 checker.  Until one checker of the process has
    tested a counter, every counter is accepted.  Afterwards a counter above the last
    one is accepted if it is at most [max_delta_counter_] ahead, one below the last one
    (the counter wrapped around) even if it is one further ahead than that, and a
    repeated counter only with the maximal tolerance 0xffff. *)
Theorem verify_counter_spec c received : is_u16 (checker_counter_ c) → is_u16 received →
  let last := checker_counter_ c in
  let max := max_delta_counter_ (checker_config_ c) in
  0 ≤ max →
  verify_counter c false received = (true, true) ∧
  (last < received →
     verify_counter c true received = (bool_decide (distance last received ≤ max), true)) ∧
  (received < last →
     verify_counter c true received = (bool_decide (distance last received ≤ max + 1), true)) ∧
  verify_counter c true last = (bool_decide (0xffff ≤ max), true).
Proof.
  intros Hl Hr last max Hmax. unfold verify_counter. fold last max. fold last in Hl. unfold distance.
  split_and!.
  - by rewrite bool_decide_true.
  - intros Hlt. rewrite (bool_decide_true (last < received)) by done. done.
  - intros Hlt. rewrite (bool_decide_false (last < received)) by lia. f_equal.
    apply bool_decide_ext. width_lia.
  - rewrite (bool_decide_false (last < last)) by lia. f_equal. apply bool_decide_ext. width_lia.
Qed.

Lemma verify_counter_spec_witness :
  verify_counter (mk_checker (profile_config_new 1 0 0 100 1) 0xffff) true 1 = (true, true) ∧
  verify_counter (mk_checker (profile_config_new 1 0 0 100 1) 3) true 5 = (false, true).
Proof.
  split.
  - destruct (verify_counter_spec (mk_checker (profile_config_new 1 0 0 100 1) 0xffff) 1) as (_&_&->&_);
      done.
  - destruct (verify_counter_spec (mk_checker (profile_config_new 1 0 0 100 1) 3) 5) as (_&->&_&_); done.
Defined.

(** ** Sequences of messages *)

Lemma its_data_id_u32 config i : config_wf config → is_u32 (its_data_id config i).
Proof.
  intros (Hid&_). unfold its_data_id.
  assert (0 ≤ u32 (Z.shiftl (u32 i) 24) < 2 ^ 32) as Hu by apply is_u32_u32.
  assert (0 ≤ Z.lor (u32 (Z.shiftl (u32 i) 24)) (data_id_ config)) by (apply Z.lor_nonneg; unfold is_u32 in Hid; lia).
  split; [done|]. apply Z.bounded_iff_bits_nonneg; [lia|done|]. intros l Hl.
  by rewrite Z.lor_spec, (testbit_above _ 32), (testbit_above _ 32).
Qed.

Lemma crc_of_protected p i pre post : Z.of_nat (length pre) = offset_ (config_ p) →
  crc_of (config_ p) (protected p i pre post) =
  calculate_profile_04
    (pre ++ header p (u16 (Z.of_nat (length pre + 12 + length post))) i ++ post) 0.
Proof. intros Hpre. by apply crc_of_layout. Qed.
Lemma calculate_04_header_u32 p n i pre post : bytes pre → bytes post →
  is_u32 (calculate_profile_04 (pre ++ header p n i ++ post) 0).
Proof.
  intros. apply calculate_profile_04_u32; [done|]. rewrite !Forall_app. auto using bytes_header.
Qed.

Lemma check_protected p c g i pre post :
  let buffer := protected p i pre post in
  config_wf (config_ p) → checker_config_ c = config_ p → Z.of_nat (length pre) = offset_ (config_ p) →
  i ≤ VSOMEIP_E2E_PROFILE04_MAX_INSTANCE → verify_input c buffer = true →
  Z.of_nat (length pre + 12 + length post) < 2 ^ 16 → is_u16 (counter_ p) →
  bytes pre → bytes post →
  check c g buffer i =
    let '(ok, g') := verify_counter c g (counter_ p) in
    Ret (if ok : bool then E2E_OK else E2E_ERROR, mk_checker (config_ p) (counter_ p), g').
Proof.
  intros buffer Hwf Hc Hpre Hi Hv Hsz Hcnt Hbpre Hbpost.
  assert (buffer_size buffer = Z.of_nat (length pre + 12 + length post)) as Hbs
    by (unfold buffer_size, buffer; by rewrite length_protected_04).
  assert (fits (checker_config_ c) buffer) as Hf by (rewrite Hc; split; [done|rewrite Hbs; lia]).
  pose proof (check_04_eq c g pre _ _ _ _ _ _ _ _ _ _ _ _ post i Hf Hi Hv) as Hck.
  cbv zeta in Hck. match type of Hck with context [crc_of _ ?b] => change b with buffer in Hck end.
  rewrite Hck by (by rewrite Hc). rewrite (bool_decide_true (_ = crc_of _ _)).
  2: { rewrite long_of_be32 by (by apply calculate_04_header_u32).
       rewrite Hc. symmetry. by apply crc_of_protected. }
  rewrite !word_of_be16 by (done || apply is_u16_u16). rewrite long_of_be32 by (by apply its_data_id_u32).
  unfold verdict. rewrite Hc. rewrite (bool_decide_true (its_data_id _ _ = _)) by done.
  rewrite (bool_decide_true (u16 _ = _)) by (rewrite Hbs, u16_id; [done|unfold is_u16; lia]).
  cbn. by destruct (verify_counter _ _ _).
Qed.

#[export, refine] Instance profile_04_profile : Profile protector profile_04_checker := {
  in_step p c := checker_config_ c = config_ p ∧ is_u16 (checker_counter_ c) ∧
    counter_ p = u16 (checker_counter_ c + 1);
  accepts p buffer i := protectable p buffer i ∧ buffer_size buffer < 2 ^ 16 ∧
    1 ≤ max_delta_counter_ (config_ p)
}.
Proof.
  - intros p b i b' p' b2 i2 Hp. enough (config_ p' = config_ p) as Heq
      by (unfold protectable, verify_inputs; by rewrite Heq).
    unfold protect, protect_04 in Hp. outcome_inv Hp; by subst.
  - intros p c b i (Hc&Hu&Hcnt) (Hpr&Hsz&Hmax) Hb.
    pose proof Hpr as (Hf&Hi&Hv).
    destruct (fields_of _ _ Hf Hb) as (pre&len&cnt&id&crc&post&->&Hpre&Hlen&Hcn&Hid&Hcrc).
    exists (protected p i pre post), (increment_counter p).
    assert (length (pre ++ len ++ cnt ++ id ++ crc ++ post) = (length pre + 12 + length post)%nat) as Hl
      by (rewrite !length_app; lia).
    split; [by apply protect_04_eq|]. split; [by rewrite length_protected_04|].
    intros g. rewrite !Forall_app in Hb. destruct Hb as (?&_&_&_&_&?).
    assert (is_u16 (counter_ p)) by (rewrite Hcnt; apply is_u16_u16).
    rewrite check_protected; try done.
    + pose proof (verify_counter_next c g Hu) as Hok. rewrite Hc in Hok. specialize (Hok Hmax).
      rewrite <- Hcnt in Hok. destruct (verify_counter c g (counter_ p)) as [ok g']. cbn in Hok. subst ok.
      eexists _, _. split; [reflexivity|]. done.
    + by destruct Hf.
    + unfold verify_input, verify_inputs in *. unfold buffer_size in *. by rewrite Hc, length_protected_04, <- Hl.
    + unfold buffer_size in Hsz. by rewrite <- Hl.
Defined.

(** A fresh protector and a fresh checker of one profile 04 configuration that
    tolerates a counter step of one: every sequence of messages that are in the
    configured lengths, hold the fields and are shorter than 64 KiB is accepted message
    by message when received in order, past the wrap-around of the counter, whatever
    other checkers of the process have left in the shared flag. *)
Theorem profile_04_stream config messages g : 1 ≤ max_delta_counter_ config →
  Forall (λ m, bytes m.1 ∧ protectable (protector_new config) m.1 m.2 ∧ buffer_size m.1 < 2 ^ 16) messages →
  stream (protector_new config) (checker_new config) g messages =
  Ret (replicate (length messages) E2E_OK).
Proof.
  intros Hmax Hms. apply stream_accepted.
  - split; [done|]. by split.
  - eapply Forall_impl; [exact Hms|]. intros m (Hb&Hp&Hs). by repeat split; try apply Hp.
Qed.

Definition example_config : profile_config := profile_config_new 0x2D 0 12 100 1.
Lemma profile_04_stream_witness :
  stream (protector_new example_config) (checker_new example_config) true
    [(replicate 14 7, 1); (replicate 12 9, 1)] = Ret [E2E_OK; E2E_OK].
Proof.
  apply (profile_04_stream example_config [(replicate 14 7, 1); (replicate 12 9, 1)] true); [done|].
  repeat constructor; cbn; try done; try lia.
Defined.

(** ** Detection *)

(** The four bytes of the check. *)
Definition crc_field (config : profile_config) (buffer : list Z) : list Z :=
  take 4 (drop (Z.to_nat (offset_ config + 8)) buffer).

Lemma be32_inj v v' : is_u32 v → is_u32 v' → be32 v = be32 v' → v = v'.
Proof. intros Hv Hv' H. rewrite <- (long_of_be32 v), <- (long_of_be32 v') by done. by inversion H. Qed.

Lemma crc_field_layout config pre h f post : Z.of_nat (length pre) = offset_ config →
  length h = 8%nat → length f = 4%nat → crc_field config (pre ++ h ++ f ++ post) = f.
Proof.
  intros Hpre Hh Hf. unfold crc_field. rewrite <- Hpre, (app_assoc pre).
  rewrite drop_app_length' by (rewrite length_app; lia). by apply take_app_length'.
Qed.

Lemma check_04_wrong c g buffer i : fits (checker_config_ c) buffer → bytes buffer →
  i ≤ VSOMEIP_E2E_PROFILE04_MAX_INSTANCE → verify_input c buffer = true →
  crc_field (checker_config_ c) buffer ≠ be32 (crc_of (checker_config_ c) buffer) →
  check c g buffer i = Ret (E2E_WRONG_CRC, c, g).
Proof.
  intros Hf Hb Hi Hv. destruct (fields_of _ _ Hf Hb) as (pre&len&cnt&id&crc&post&->&Hpre&Hlen&Hcn&Hid&Hcrc).
  destruct len as [|l0 [|l1 []]], cnt as [|c0 [|c1 []]], id as [|d0 [|d1 [|d2 [|d3 []]]]],
    crc as [|k0 [|k1 [|k2 [|k3 []]]]]; try done. intros Hne.
  pose proof (check_04_eq c g pre l0 l1 c0 c1 d0 d1 d2 d3 k0 k1 k2 k3 post i Hf Hi Hv Hpre) as ->.
  rewrite bool_decide_false; [done|]. intros Heq. apply Hne. rewrite <- Heq.
  pose proof (crc_field_layout (checker_config_ c) pre [l0; l1; c0; c1; d0; d1; d2; d3] [k0; k1; k2; k3]
    post Hpre eq_refl eq_refl) as Hfield.
  cbn [app] in Hfield |- *. rewrite Hfield.
  rewrite !Forall_app in Hb. destruct Hb as (_&_&_&_&Hk&_).
  do 4 (apply Forall_cons_1 in Hk as [? Hk]). by apply be32_of_bytes.
Qed.

(** A window of at most four bytes that does not straddle an end of the check. *)
Definition window_ok (config : profile_config) (a w : nat) : Prop :=
  (w ≤ 4)%nat ∧
  (Z.of_nat (a + w) ≤ offset_ config + 8 ∨
   (offset_ config + 8 ≤ Z.of_nat a ∧ Z.of_nat (a + w) ≤ offset_ config + 12) ∨
   offset_ config + 12 ≤ Z.of_nat a).

Lemma window_breaks_crc config a w w' z : 0 ≤ offset_ config → window_ok config (length a) (length w) →
  length w = length w' → w ≠ w' → bytes a → bytes w → bytes w' → bytes z →
  crc_field config (a ++ w ++ z) = be32 (crc_of config (a ++ w ++ z)) →
  crc_field config (a ++ w' ++ z) ≠ be32 (crc_of config (a ++ w' ++ z)).
Proof.
  intros Ho (H4&Hwin) Hlen Hne Ha Hw Hw' Hz.
  assert (∀ v, bytes v → is_u32 (crc_of config (a ++ v ++ z))) as Hu
    by (intros; apply crc_of_u32; by rewrite !Forall_app).
  assert (crc_field config (a ++ w ++ z) = crc_field config (a ++ w' ++ z) →
    crc_of config (a ++ w ++ z) ≠ crc_of config (a ++ w' ++ z) →
    crc_field config (a ++ w ++ z) = be32 (crc_of config (a ++ w ++ z)) →
    crc_field config (a ++ w' ++ z) ≠ be32 (crc_of config (a ++ w' ++ z))) as Hdiff.
  { intros Hsame Hcrc Heq Heq'. apply Hcrc, be32_inj; [by apply Hu..|congruence]. }
  destruct Hwin as [Hbefore|[[Hin1 Hin2]|Hafter]].
  - apply Hdiff; unfold crc_field, crc_of.
    + by rewrite !window_drop_past, Hlen by lia.
    + rewrite !window_take, !window_drop_past by lia. rewrite <- !app_assoc, <- Hlen.
      rewrite !calculate_profile_04_eq by (rewrite !Forall_app; auto with widths).
      intros Heq. apply crc32_burst in Heq; auto with widths; try done. apply Forall_app; auto with widths.
  - intros Heq Heq'. apply Hne.
    assert (crc_of config (a ++ w ++ z) = crc_of config (a ++ w' ++ z)) as Hsame.
    { unfold crc_of. by rewrite !window_take_before, !window_drop_past, Hlen by lia. }
    assert (crc_field config (a ++ w ++ z) = crc_field config (a ++ w' ++ z)) as Hf by congruence.
    unfold crc_field in Hf. rewrite !window_drop, !window_take, <- Hlen in Hf by (rewrite ?length_drop; lia).
    apply app_inj_1 in Hf as [_ Hf]; [|done]. by apply app_inj_1 in Hf as [Hf _].
  - apply Hdiff; unfold crc_field, crc_of.
    + rewrite !window_drop by lia. by rewrite !window_take_before by (rewrite length_drop; lia).
    + rewrite !window_take_before, !window_drop by lia. rewrite !(app_assoc (take _ a)).
      rewrite !calculate_profile_04_eq by (rewrite !Forall_app; auto with widths).
      intros Heq. apply crc32_burst in Heq; try done. apply Forall_app; auto with widths.
Qed.

(** C25: the checker of profile 04 reports a wrong check for every protected buffer in
    which a window of up to four bytes was changed, before, inside or after the check,
    whatever its counter and the shared flag are; its counter stays as it is. *)
Theorem profile_04_detects_burst p buffer instance c g buffer' p' a w w' z :
  protectable p buffer instance → bytes buffer →
  protect p buffer instance = Ret (buffer', p') → buffer' = a ++ w ++ z →
  length w' = length w → w' ≠ w → bytes w' → window_ok (config_ p) (length a) (length w) →
  checker_config_ c = config_ p →
  check c g (a ++ w' ++ z) instance = Ret (E2E_WRONG_CRC, c, g).
Proof.
  intros Hpr Hb Hp Hb' Hlen Hne Hw' Hwin Hc. pose proof Hpr as (Hf&Hi&Hv).
  destruct (fields_of _ _ Hf Hb) as (pre&len&cnt&id&crc&post&->&Hpre&Hl1&Hl2&Hl3&Hl4).
  rewrite protect_04_eq in Hp by done. inversion Hp; subst p' buffer'. clear Hp.
  rewrite !Forall_app in Hb. destruct Hb as (Hbpre&_&_&_&_&Hbpost).
  assert (bytes (a ++ w ++ z)) as Hall.
  { rewrite <- H0. unfold protected. rewrite !Forall_app. auto 10 using bytes_header, bytes_be32. }
  rewrite !Forall_app in Hall. destruct Hall as (Hba&Hbw&Hbz).
  assert (buffer_size (a ++ w' ++ z) = buffer_size (pre ++ len ++ cnt ++ id ++ crc ++ post)) as Hsz.
  { unfold buffer_size. f_equal. pose proof (length_protected_04 p instance pre post) as Hlp.
    rewrite H0 in Hlp. rewrite !length_app in *. lia. }
  apply check_04_wrong; rewrite ?Hc; [|by rewrite !Forall_app|done| |].
  - unfold fits. by rewrite Hsz.
  - unfold verify_input. rewrite Hc, Hsz. exact Hv.
  - apply (window_breaks_crc _ _ w); try done.
    + destruct Hf as ((_&Ho&_)&_). unfold is_u64 in Ho. lia.
    + rewrite <- H0, crc_of_protected by done. by apply crc_field_layout.
Qed.

Lemma profile_04_detects_burst_witness :
  match protect (protector_new example_config) (replicate 14 7) 1 with
  | Ret (b, _) => check (checker_new example_config) false (take 12 b ++ [1] ++ drop 13 b) 1 =
                  Ret (E2E_WRONG_CRC, checker_new example_config, false)
  | _ => False
  end.
Proof.
  destruct (protect (protector_new example_config) (replicate 14 7) 1) as [[b p']| | |] eqn:Hp;
    [|vm_compute in Hp; discriminate..].
  apply (profile_04_detects_burst (protector_new example_config) (replicate 14 7) 1 _ _ b p'
           (take 12 b) (take 1 (drop 12 b)) [1] (drop 13 b)); vm_compute in Hp; inversion Hp; subst;
    try done; try (repeat constructor; done).
Defined.

(** ** Short buffers *)

(** Computations that only access buffers: a value or undefined behaviour. *)
Definition plain {A} (m : outcome A) : Prop :=
  match m with Ret _ | Undef => True | _ => False end.
Lemma plain_bind {A B} (m : outcome A) (f : A → outcome B) :
  plain m → (∀ a, plain (f a)) → plain (m ≫= f).
Proof. destruct m; cbn; auto. Qed.
Lemma plain_vset l i x : plain (vset l i x).
Proof. unfold vset. by case_bool_decide. Qed.
Lemma plain_vget l i : plain (vget l i).
Proof. unfold vget. case_bool_decide; [by case_match|done]. Qed.
Lemma plain_view l b e : plain (buffer_view l b e).
Proof. unfold buffer_view, vrange. by case_bool_decide. Qed.
Lemma plain_undef {A} (m : outcome A) : plain m → (∀ x, m ≠ Ret x) → m = Undef.
Proof. destruct m; cbn; try done. intros _ H. by destruct (H a). Qed.

Ltac plain_tac := repeat (first [apply plain_bind; [|intros]|apply plain_vset|apply plain_vget
  |apply plain_view|progress case_bool_decide|case_match|exact I]).

Lemma plain_compute_crc config buffer : plain (compute_crc config buffer).
Proof. unfold compute_crc. plain_tac. Qed.
Lemma plain_write_16 p b d k : plain (write_16 p b d k).
Proof. unfold write_16. plain_tac. Qed.
Lemma plain_write_32 p b d k : plain (write_32 p b d k).
Proof. unfold write_32. plain_tac. Qed.
Lemma plain_read_16 c b k : plain (read_16 c b k).
Proof. unfold read_16. plain_tac. Qed.
Lemma plain_read_32 c b k : plain (read_32 c b k).
Proof. unfold read_32. plain_tac. Qed.

Lemma vset_length l i x l' : vset l i x = Ret l' → length l' = length l ∧ 0 ≤ i < Z.of_nat (length l).
Proof.
  unfold vset. case_bool_decide; [|done]. intros [= <-]. by rewrite length_insert.
Qed.
Lemma vget_bound l i x : vget l i = Ret x → 0 ≤ i < Z.of_nat (length l).
Proof.
  unfold vget. case_bool_decide; [|done]. destruct (l !! Z.to_nat i) eqn:E; [|done].
  apply lookup_lt_Some in E. lia.
Qed.
Lemma write_16_length p b d k b' : write_16 p b d k = Ret b' → length b' = length b.
Proof.
  unfold write_16. intros H. outcome_inv H. apply vset_length in E, H. lia.
Qed.
Lemma write_32_length p b d k b' : write_32 p b d k = Ret b' →
  length b' = length b ∧ u64 (offset_ (config_ p) + k + 3) < Z.of_nat (length b).
Proof.
  unfold write_32. intros H. outcome_inv H.
  repeat match goal with H : vset _ _ _ = Ret _ |- _ => apply vset_length in H as [??] end. lia.
Qed.
Lemma read_32_bound c b k v : read_32 c b k = Ret v →
  u64 (offset_ (checker_config_ c) + k + 3) < Z.of_nat (length b).
Proof.
  unfold read_32. intros H. outcome_inv H.
  repeat match goal with H : vget _ _ = Ret _ |- _ => apply vget_bound in H end. lia.
Qed.

(** Profile 04 does not test that its fields lie in the buffer: on a buffer of a
    configured length that ends before the last byte of the check, protector and
    checker both access bytes outside it. *)
Theorem profile_04_short_undefined config buffer instance counter g :
  is_u64 (offset_ config) → instance ≤ VSOMEIP_E2E_PROFILE04_MAX_INSTANCE →
  verify_inputs (mk_protector config counter) buffer = true →
  buffer_size buffer < offset_ config + 12 < 2 ^ 64 →
  protect (mk_protector config counter) buffer instance = Undef ∧
  check (mk_checker config counter) g buffer instance = Undef.
Proof.
  intros Ho Hi Hv Hsz. assert (u64 (offset_ config + 8 + 3) = offset_ config + 11) as Hidx.
  { rewrite u64_id; [lia|]. unfold is_u64 in *. lia. }
  unfold buffer_size in Hsz. unfold protect, protect_04, check, check_04.
  rewrite bool_decide_false by lia. rewrite Hv.
  assert (verify_input (mk_checker config counter) buffer = true) as -> by exact Hv.
  split; apply plain_undef.
  - repeat (apply plain_bind; [first [apply plain_write_16|apply plain_write_32|apply plain_compute_crc]|
      intros]). done.
  - intros x H. outcome_inv H. apply write_16_length in E, E0.
    apply write_32_length in E1 as [? _], E3 as [? Hb]. cbn [config_] in Hb. lia.
  - repeat (apply plain_bind; [first [apply plain_read_16|apply plain_read_32|apply plain_compute_crc]|
      intros]). plain_tac.
  - intros x H. outcome_inv H; apply read_32_bound in E2; cbn [checker_config_] in E2; lia.
Qed.

Lemma profile_04_short_undefined_witness :
  protect (protector_new (profile_config_new 0x2D 0 0 0xffff 1)) (replicate 11 0) 1 = Undef.
Proof.
  apply (profile_04_short_undefined (profile_config_new 0x2D 0 0 0xffff 1) (replicate 11 0) 1 0 false);
    cbn; done || lia.
Defined.
