(* ===== verification/E2eProfileCustom.v ===== *)
(** The custom profile of end-to-end protection:
    [e2e_protection/src/e2e/profile/profile_custom/].

    The profile writes a 32-bit check of the bytes that follow it. *)
From S2P Require Import Prelude ByteOrder Message E2eCrc E2eInterface.

Record profile_config : Type := mk_profile_config {
  crc_offset_ : Z;
  base_ : Z
}.
Definition profile_config_new (crc_offset : Z) : profile_config :=
  mk_profile_config crc_offset VSOMEIP_FULL_HEADER_SIZE.

(** ** [profile_custom] *)

Definition compute_crc (config : profile_config) (buffer : list Z) : outcome Z :=
  view ← buffer_view buffer (crc_offset_ config + 4) (buffer_size buffer);
  Ret (calculate_profile_custom view).

Definition is_buffer_length_valid (config : profile_config) (buffer : list Z) : bool :=
  bool_decide (crc_offset_ config + 4 ≤ buffer_size buffer).

(** ** [protector] *)

Record protector : Type := mk_protector { config_ : profile_config }.

Definition write_crc (p : protector) (buffer : list Z) (computed_crc : Z) : outcome (list Z) :=
  let o := crc_offset_ (config_ p) in
  buffer ← vset buffer o (u8 (Z.shiftr computed_crc 24));
  buffer ← vset buffer (o + 1) (u8 (Z.shiftr computed_crc 16));
  buffer ← vset buffer (o + 2) (u8 (Z.shiftr computed_crc 8));
  vset buffer (o + 3) (u8 computed_crc).

#[export] Instance protect_custom : Protector protector := λ p buffer _,
  if is_buffer_length_valid (config_ p) buffer then
    computed_crc ← compute_crc (config_ p) buffer;
    buffer ← write_crc p buffer computed_crc;
    Ret (buffer, p)
  else Ret (buffer, p).

(** ** [profile_custom_checker] *)

Record profile_custom_checker : Type := mk_checker { checker_config_ : profile_config }.

Definition read_crc (c : profile_custom_checker) (buffer : list Z) : outcome Z :=
  let o := crc_offset_ (checker_config_ c) in
  b0 ← vget buffer o;
  b1 ← vget buffer (o + 1);
  b2 ← vget buffer (o + 2);
  b3 ← vget buffer (o + 3);
  Ret (Z.lor (Z.lor (Z.lor (u32 (Z.shiftl b0 24)) (u32 (Z.shiftl b1 16))) (u32 (Z.shiftl b2 8))) b3).

#[export] Instance check_custom : Checker profile_custom_checker := λ c g buffer _,
  if is_buffer_length_valid (checker_config_ c) buffer then
    received_crc ← read_crc c buffer;
    calculated_crc ← compute_crc (checker_config_ c) buffer;
    if bool_decide (received_crc = calculated_crc) then Ret (E2E_OK, c, g)
    else Ret (E2E_WRONG_CRC, c, g)
  else Ret (E2E_ERROR, c, g).

(** * Layout

    A buffer that holds the check: bytes before it, its four bytes, bytes after it. *)
Section layout.
  Context (config : profile_config) (pre post : list Z).
  Context (Hpre : Z.of_nat (length pre) = crc_offset_ config).

Lemma valid_layout f : length f = 4%nat → is_buffer_length_valid config (pre ++ f ++ post) = true.
Proof using Hpre.
  intros Hf. unfold is_buffer_length_valid, buffer_size. rewrite !length_app. apply bool_decide_true. lia.
Qed.

Lemma compute_crc_layout f : length f = 4%nat →
  compute_crc config (pre ++ f ++ post) = Ret (calculate_profile_custom post).
Proof using Hpre.
  intros Hf. unfold compute_crc.
  assert (buffer_size (pre ++ f ++ post) = crc_offset_ config + 4 + Z.of_nat (length post)) as Hsz
    by (unfold buffer_size; rewrite !length_app; lia).
  rewrite buffer_view_ret by lia. cbn. do 2 f_equal.
  rewrite window_drop_past by lia. rewrite Hsz.
  replace (_ - _ - _)%nat with 0%nat by lia. rewrite drop_0. apply take_ge. lia.
Qed.

Lemma write_crc_layout f v : length f = 4%nat →
  write_crc (mk_protector config) (pre ++ f ++ post) v = Ret (pre ++ be32 v ++ post).
Proof using Hpre.
  intros Hf. destruct f as [|x0 [|x1 [|x2 [|x3 []]]]]; try done.
  unfold write_crc. cbn [config_]. rewrite <- (Z.add_0_r (crc_offset_ config)) at 1.
  do 4 (erewrite vset_at by (done || rewrite ?length_insert, length_app; cbn; lia); cbn [outcome_mbind outcome_bind mbind]).
  cbn. unfold be32, be24, VSOMEIP_LONG_BYTE3, VSOMEIP_LONG_BYTE2, VSOMEIP_LONG_BYTE1, VSOMEIP_LONG_BYTE0.
  assert (∀ x, u8 (Z.land x 0xFF) = u8 x) as Hland by (intros; rewrite land_ff; width_lia).
  by rewrite !Hland.
Qed.

Lemma read_crc_layout x0 x1 x2 x3 : bytes [x0; x1; x2; x3] →
  read_crc (mk_checker config) (pre ++ [x0; x1; x2; x3] ++ post) = Ret (VSOMEIP_BYTES_TO_LONG x0 x1 x2 x3).
Proof using Hpre.
  intros Hb. unfold read_crc. cbn [checker_config_]. rewrite <- (Z.add_0_r (crc_offset_ config)) at 1.
  erewrite (vget_at _ _ _ 0), (vget_at _ _ _ 1), (vget_at _ _ _ 2), (vget_at _ _ _ 3) by (done || lia).
  assert (∀ x y, u32 (Z.lor x y) = Z.lor (u32 x) (u32 y)) as Hlor.
  { intros x y. unfold u32. rewrite <- !(Z.land_ones _ 32) by lia. apply Z.land_lor_distr_l. }
  unfold VSOMEIP_BYTES_TO_LONG. rewrite !Hlor, (u32_id x3); [done|].
  do 4 (apply Forall_cons_1 in Hb as [? Hb]). width_lia.
Qed.
End layout.

(** A buffer long enough for the check has this layout. *)
Lemma layout_of config buffer : is_u16 (crc_offset_ config) →
  is_buffer_length_valid config buffer = true →
  ∃ pre f post, buffer = pre ++ f ++ post ∧ Z.of_nat (length pre) = crc_offset_ config ∧ length f = 4%nat.
Proof.
  unfold is_buffer_length_valid, buffer_size. intros Ho Hv%bool_decide_eq_true. unfold is_u16 in Ho.
  set (n := Z.to_nat (crc_offset_ config)).
  exists (take n buffer), (take 4 (drop n buffer)), (drop 4 (drop n buffer)).
  split; [by rewrite !take_drop|]. rewrite !length_take, length_drop. lia.
Qed.

Lemma length_be32 v : length (be32 v) = 4%nat.
Proof. done. Qed.

Lemma check_layout config pre f post g i : Z.of_nat (length pre) = crc_offset_ config →
  length f = 4%nat → bytes f → bytes post →
  check (mk_checker config) g (pre ++ f ++ post) i =
  Ret (if bool_decide (f = be32 (calculate_profile_custom post)) then E2E_OK else E2E_WRONG_CRC,
       mk_checker config, g).
Proof.
  intros Hpre Hf Hbf Hpost. unfold check, check_custom. cbn [checker_config_].
  rewrite valid_layout by done. destruct f as [|x0 [|x1 [|x2 [|x3 []]]]]; try done.
  rewrite read_crc_layout, outcome_bind_Ret, compute_crc_layout, outcome_bind_Ret by done.
  pose proof (calculate_profile_custom_u32 post Hpost) as Hu. generalize (calculate_profile_custom post), Hu.
  intros v Hv. destruct (decide ([x0; x1; x2; x3] = be32 v)) as [Heq|Hne].
  - rewrite (bool_decide_true ([_; _; _; _] = _)) by done. inversion Heq.
    by rewrite long_of_be32, bool_decide_true by done.
  - rewrite (bool_decide_false ([_; _; _; _] = _)) by done. rewrite bool_decide_false; [done|].
    intros <-. apply Hne. do 4 (apply Forall_cons_1 in Hbf as [? Hbf]).
    by apply be32_of_bytes.
Qed.

Lemma protect_layout config pre f post i : Z.of_nat (length pre) = crc_offset_ config →
  length f = 4%nat →
  protect (mk_protector config) (pre ++ f ++ post) i =
  Ret (pre ++ be32 (calculate_profile_custom post) ++ post, mk_protector config).
Proof.
  intros Hpre Hf. unfold protect, protect_custom. cbn [config_].
  by rewrite valid_layout, compute_crc_layout, outcome_bind_Ret, write_crc_layout by done.
Qed.

#[export, refine] Instance profile_custom_profile : Profile protector profile_custom_checker := {
  in_step p c := checker_config_ c = config_ p;
  accepts p buffer _ := is_u16 (crc_offset_ (config_ p)) ∧ is_buffer_length_valid (config_ p) buffer = true
}.
Proof.
  - intros p b i b' p' b2 _ Hp. enough (p' = p) as -> by done.
    unfold protect, protect_custom in Hp. outcome_inv Hp; by subst.
  - intros [config] [config'] b i Hstep [Ho Hv] Hb. cbn in Hstep. subst config'. cbn [config_] in *.
    destruct (layout_of config b Ho Hv) as (pre&f&post&->&Hpre&Hf).
    apply Forall_app in Hb as [_ [_ Hpost]%Forall_app].
    eexists _, _. split; [by apply protect_layout|]. split; [rewrite !length_app; cbn; lia|].
    intros g. exists (mk_checker config), g. split; [|done].
    rewrite check_layout by (done || apply bytes_be32). by rewrite bool_decide_true by done.
Defined.

(** The protector of the custom profile replaces the four bytes at the configured
    offset by the check of the bytes after them, changes nothing else, and leaves a
    buffer that is too short as it is; the checker accepts exactly the buffers in
    which the four bytes are that check, and returns an error for a buffer that is too
    short.  Neither ever leaves the buffer. *)
Theorem profile_custom_spec config buffer instance g : is_u16 (crc_offset_ config) → bytes buffer →
  (is_buffer_length_valid config buffer = false ∧
   protect (mk_protector config) buffer instance = Ret (buffer, mk_protector config) ∧
   check (mk_checker config) g buffer instance = Ret (E2E_ERROR, mk_checker config, g)) ∨
  ∃ pre f post, buffer = pre ++ f ++ post ∧
    Z.of_nat (length pre) = crc_offset_ config ∧ length f = 4%nat ∧
    let crc := be32 (crc32_ref poly_profile_custom post 0) in
    protect (mk_protector config) buffer instance = Ret (pre ++ crc ++ post, mk_protector config) ∧
    check (mk_checker config) g buffer instance =
      Ret (if bool_decide (f = crc) then E2E_OK else E2E_WRONG_CRC, mk_checker config, g).
Proof.
  intros Ho Hb. destruct (is_buffer_length_valid config buffer) eqn:Hv.
  - right. destruct (layout_of config buffer Ho Hv) as (pre&f&post&->&Hpre&Hf).
    apply Forall_app in Hb as [_ [Hbf Hpost]%Forall_app].
    exists pre, f, post. rewrite <- calculate_profile_custom_eq by done.
    split; [done|]. split; [done|]. split; [done|]. split; [by apply protect_layout|by apply check_layout].
  - left. unfold protect, protect_custom, check, check_custom. cbn [config_ checker_config_]. by rewrite Hv.
Qed.

Lemma profile_custom_spec_witness :
  match protect (mk_protector (profile_config_new 2)) [9; 9; 0; 0; 0; 0; 1; 2; 3] 0 with
  | Ret (b, _) => check (mk_checker (profile_config_new 2)) false b 0 =
                  Ret (E2E_OK, mk_checker (profile_config_new 2), false)
  | _ => False
  end.
Proof.
  destruct (profile_custom_spec (profile_config_new 2) [9; 9; 0; 0; 0; 0; 1; 2; 3] 0 false)
    as [(Hv&_)|(pre&f&post&Hb&Hpre&Hf&->&_)]; [done|repeat constructor; done|done|].
  destruct (profile_custom_spec (profile_config_new 2)
    (pre ++ be32 (crc32_ref poly_profile_custom post 0) ++ post) 0 false)
    as [(Hv&_)|(pre'&f'&post'&Hb'&Hpre'&Hf'&_&->)].
  - done.
  - assert (bytes (pre ++ f ++ post)) as Hall by (rewrite <- Hb; repeat constructor; done).
    rewrite !Forall_app in *. intuition auto using bytes_be32.
  - exfalso. unfold is_buffer_length_valid in Hv. apply bool_decide_eq_false in Hv. apply Hv.
    unfold buffer_size. rewrite !length_app, length_be32. rewrite <- Hpre. lia.
  - apply app_inj_1 in Hb' as [-> Hb']; [|cbn in Hpre, Hpre'; lia].
    apply app_inj_1 in Hb' as [<- <-]; [|by rewrite Hf'].
    by rewrite bool_decide_true.
Defined.
