(* ===== verification/E2eProvider.v ===== *)
(** The provider of end-to-end protection:
    [e2e_protection/src/e2e/profile/e2e_provider_impl.cpp] and the configuration it
    reads, [configuration/include/e2e.hpp].

    The provider keeps a protector and a checker per service and event, of the profile
    the configuration names.  The theorems show that configured pairs accept each
    other's traffic however it is interleaved, and which identifiers a configuration
    protects and checks. *)
From Stdlib Require Import Ascii.
From stdpp Require Import strings pretty.
From S2P Require Import Prelude ByteOrder ConfigValues E2eInterface.
From S2P Require Import E2eProfile01.
From S2P Require Import E2eProfile04.
From S2P Require Import E2eProfileCustom.
#[local] Open Scope Z_scope.

(** * The configuration *)

(** [cfg::e2e] *)
Record e2e : Type := mk_e2e {
  variant : string;
  profile : string;
  service_id : Z;
  event_id : Z;
  custom_parameters : gmap string string
}.

Definition read_value_from_config (w : Z) (config : e2e) (name : string) (default_value : Z) :
    outcome Z :=
  match custom_parameters config !! name with
  | Some its_value =>
      let hex := match its_value with String "0"%char (String "x"%char _) => true | _ => false end in
      extract_unsigned w hex its_value
  | None => Ret default_value
  end.

(** ** [make_e2e_profile_config] *)

Definition p01_data_id_mode_of (v : Z) : p01_data_id_mode :=
  match u8 v with
  | 0 => E2E_P01_DATAID_BOTH
  | 1 => E2E_P01_DATAID_ALT
  | 2 => E2E_P01_DATAID_LOW
  | 3 => E2E_P01_DATAID_NIBBLE
  | m => E2E_P01_DATAID_UNNAMED m
  end.

Definition make_e2e_profile_config_01 (config : e2e) : outcome E2eProfile01.profile_config :=
  data_id ← read_value_from_config 16 config "data_id" 0;
  crc_offset ← read_value_from_config 16 config "crc_offset" 0;
  data_length ← read_value_from_config 16 config "data_length" 0;
  counter_offset ← read_value_from_config 16 config "counter_offset" 8;
  data_id_nibble_offset ← read_value_from_config 16 config "data_id_nibble_offset" 12;
  data_id_mode ← read_value_from_config 16 config "data_id_mode" 0;
  Ret (E2eProfile01.profile_config_new crc_offset data_id (p01_data_id_mode_of data_id_mode)
         data_length counter_offset data_id_nibble_offset).

Definition make_e2e_profile_config_04 (config : e2e) : outcome E2eProfile04.profile_config :=
  data_id ← read_value_from_config 32 config "data_id" 0;
  offset ← read_value_from_config 64 config "crc_offset" 0;
  let offset := offset `div` 8 in
  min_data_length ← read_value_from_config 64 config "min_data_length" 0;
  max_data_length ← read_value_from_config 64 config "max_data_length" 0xffff;
  max_delta_counter ← read_value_from_config 16 config "max_delta_counter" 0xffff;
  Ret (E2eProfile04.profile_config_new data_id offset min_data_length max_data_length max_delta_counter).

Definition make_e2e_profile_config_custom (config : e2e) : outcome E2eProfileCustom.profile_config :=
  crc_offset ← read_value_from_config 16 config "crc_offset" 0;
  Ret (E2eProfileCustom.profile_config_new crc_offset).

(** * The provider *)

(** [std::shared_ptr<profile_interface::protector>] and [...::checker]: an object of
    one of the profiles. *)
Inductive any_protector : Type :=
| protector01 (p : E2eProfile01.protector)
| protector04 (p : E2eProfile04.protector)
| protector_custom (p : E2eProfileCustom.protector).
Inductive any_checker : Type :=
| checker01 (c : profile_01_checker)
| checker04 (c : profile_04_checker)
| checker_custom (c : profile_custom_checker).

(** Virtual calls. *)
#[export] Instance protect_any : Protector any_protector := λ p b i,
  match p with
  | protector01 p => '(b', p') ← protect p b i; Ret (b', protector01 p')
  | protector04 p => '(b', p') ← protect p b i; Ret (b', protector04 p')
  | protector_custom p => '(b', p') ← protect p b i; Ret (b', protector_custom p')
  end.
#[export] Instance check_any : Checker any_checker := λ c g b i,
  match c with
  | checker01 c => '(s, c', g') ← check c g b i; Ret (s, checker01 c', g')
  | checker04 c => '(s, c', g') ← check c g b i; Ret (s, checker04 c', g')
  | checker_custom c => '(s, c', g') ← check c g b i; Ret (s, checker_custom c', g')
  end.

(** [e2exf::data_identifier_t] *)
Abbreviation data_identifier_t := (Z * Z)%type.

Record e2e_provider_impl : Type := mk_provider {
  custom_protectors_ : gmap data_identifier_t any_protector;
  custom_checkers_ : gmap data_identifier_t any_checker;
  custom_bases_ : gmap data_identifier_t Z
}.
Definition provider_new : e2e_provider_impl := mk_provider ∅ ∅ ∅.

(** [process_e2e_profile], with the checker, the protector and the base that the
    profile makes of its configuration. *)
Definition process_e2e_profile (config : e2e) (checker : any_checker) (protector : any_protector)
    (base : Z) (s : e2e_provider_impl) : e2e_provider_impl :=
  let data_identifier := (service_id config, event_id config) in
  mk_provider
    (if bool_decide (variant config = "protector" ∨ variant config = "both")
     then <[data_identifier := protector]> (custom_protectors_ s) else custom_protectors_ s)
    (if bool_decide (variant config = "checker" ∨ variant config = "both")
     then <[data_identifier := checker]> (custom_checkers_ s) else custom_checkers_ s)
    (<[data_identifier := base]> (custom_bases_ s)).

Definition add_configuration (config : e2e) (s : e2e_provider_impl) : outcome (bool * e2e_provider_impl) :=
  if bool_decide (profile config = "CRC8" ∨ profile config = "P01") then
    c ← make_e2e_profile_config_01 config;
    Ret (true, process_e2e_profile config (checker01 (E2eProfile01.mk_checker c))
                 (protector01 (E2eProfile01.protector_new c)) (E2eProfile01.base_ c) s)
  else if bool_decide (profile config = "CRC32" ∨ profile config = "CSTM") then
    c ← make_e2e_profile_config_custom config;
    Ret (true, process_e2e_profile config (checker_custom (E2eProfileCustom.mk_checker c))
                 (protector_custom (E2eProfileCustom.mk_protector c)) (E2eProfileCustom.base_ c) s)
  else if bool_decide (profile config = "P04") then
    c ← make_e2e_profile_config_04 config;
    Ret (true, process_e2e_profile config (checker04 (E2eProfile04.checker_new c))
                 (protector04 (E2eProfile04.protector_new c)) (E2eProfile04.base_ c) s)
  else Ret (false, s).

Definition is_protected (id : data_identifier_t) (s : e2e_provider_impl) : bool :=
  bool_decide (is_Some (custom_protectors_ s !! id)).
Definition is_checked (id : data_identifier_t) (s : e2e_provider_impl) : bool :=
  bool_decide (is_Some (custom_checkers_ s !! id)).
Definition get_protection_base (id : data_identifier_t) (s : e2e_provider_impl) : Z :=
  match custom_bases_ s !! id with Some base => base | None => 0 end.

Definition provider_protect (id : data_identifier_t) (buffer : list Z) (instance : Z)
    (s : e2e_provider_impl) : outcome (list Z * e2e_provider_impl) :=
  match custom_protectors_ s !! id with
  | Some protector =>
      '(buffer, protector) ← protect protector buffer instance;
      Ret (buffer, mk_provider (<[id := protector]> (custom_protectors_ s))
                     (custom_checkers_ s) (custom_bases_ s))
  | None => Ret (buffer, s)
  end.

(** [status] is the value of the reference argument before the call; [g] is the flag
    shared by the checkers. *)
Definition provider_check (id : data_identifier_t) (buffer : list Z) (instance : Z)
    (status : generic_check_status) (g : bool) (s : e2e_provider_impl) :
    outcome (generic_check_status * bool * e2e_provider_impl) :=
  match custom_checkers_ s !! id with
  | Some checker =>
      '(status, checker, g) ← check checker g buffer instance;
      Ret (status, g, mk_provider (custom_protectors_ s)
                        (<[id := checker]> (custom_checkers_ s)) (custom_bases_ s))
  | None => Ret (status, g, s)
  end.

(** * Use by the routing manager *)

(** [routing_manager_impl::init]: every configuration is added; an unknown profile is
    skipped. *)
Fixpoint add_configurations (configs : list e2e) (s : e2e_provider_impl) : outcome e2e_provider_impl :=
  match configs with
  | [] => Ret s
  | config :: configs =>
      '(_, s) ← add_configuration config s;
      add_configurations configs s
  end.

Definition VSOMEIP_SERVICE_POS_MIN : Z := 0.
Definition VSOMEIP_SERVICE_POS_MAX : Z := 1.
Definition VSOMEIP_METHOD_POS_MIN : Z := 2.
Definition VSOMEIP_METHOD_POS_MAX : Z := 3.

(** The service and method words of a message. *)
Definition data_identifier_of (data : list Z) : outcome data_identifier_t :=
  s0 ← vget data VSOMEIP_SERVICE_POS_MIN;
  s1 ← vget data VSOMEIP_SERVICE_POS_MAX;
  m0 ← vget data VSOMEIP_METHOD_POS_MIN;
  m1 ← vget data VSOMEIP_METHOD_POS_MAX;
  Ret (VSOMEIP_BYTES_TO_WORD s0 s1, VSOMEIP_BYTES_TO_WORD m0 m1).

(** The protection of a message that is sent ([routing_manager_impl::send]). *)
Definition protect_message (data : list Z) (instance : Z) (s : e2e_provider_impl) :
    outcome (list Z * e2e_provider_impl) :=
  id ← data_identifier_of data;
  if is_protected id s then
    let its_base := get_protection_base id s in
    its_buffer ← vrange data its_base (buffer_size data);
    '(its_buffer, s) ← provider_protect id its_buffer instance s;
    its_header ← vrange data 0 its_base;
    Ret (its_header ++ its_buffer, s)
  else Ret (data, s).

(** The check of a message that was received ([routing_manager_impl::on_message]). *)
Definition check_message (data : list Z) (instance : Z) (status : generic_check_status) (g : bool)
    (s : e2e_provider_impl) : outcome (generic_check_status * bool * e2e_provider_impl) :=
  id ← data_identifier_of data;
  if is_checked id s then
    let its_base := get_protection_base id s in
    its_buffer ← vrange data its_base (buffer_size data);
    provider_check id its_buffer instance status g s
  else Ret (status, g, s).

(** * Pairs of protector and checker *)

Lemma bind_pair {A B C} (m : outcome (A * B)) (f : A → B → outcome C) a b :
  m = Ret (a, b) → ('(x, y) ← m; f x y) = f a b.
Proof. by intros ->. Qed.

#[export, refine] Instance any_profile : Profile any_protector any_checker := {
  in_step p c :=
    match p, c with
    | protector01 p, checker01 c => in_step p c
    | protector04 p, checker04 c => in_step p c
    | protector_custom p, checker_custom c => in_step p c
    | _, _ => False
    end;
  accepts p b i :=
    match p with
    | protector01 p => accepts p b i
    | protector04 p => accepts p b i
    | protector_custom p => accepts p b i
    end
}.
Proof.
  - intros [p|p|p] b i b' p' b2 i2 Hp; unfold protect, protect_any in Hp;
      apply outcome_bind_inv in Hp as ([b1 p1]&Hp&[= <- <-]); by eapply protect_accepts.
  - intros [p|p|p] [c|c|c] b i Hstep Ha Hb; try done;
      destruct (protect_check p c b i Hstep Ha Hb) as (b'&p'&Hp&Hlen&Hc);
      (eexists b', _; split; [unfold protect at 1, protect_any; rewrite Hp; done|]);
      (split; [done|]); intros g; destruct (Hc g) as (c'&g'&Hck&Hstep');
      (eexists _, g'; split; [unfold check at 1, check_any; rewrite Hck; done|done]).
Defined.

(** The sending and the receiving provider agree: every protector has a checker in step
    with it, behind the same number of unprotected bytes. *)
Definition linked (ss rs : e2e_provider_impl) : Prop :=
  ∀ id p, custom_protectors_ ss !! id = Some p →
    ∃ c base, custom_checkers_ rs !! id = Some c ∧ in_step p c ∧ 8 ≤ base ∧
      custom_bases_ ss !! id = Some base ∧ custom_bases_ rs !! id = Some base.

(** The same configuration for another role. *)
Definition with_variant (v : string) (config : e2e) : e2e :=
  mk_e2e v (profile config) (service_id config) (event_id config) (custom_parameters config).

Lemma process_linked config c p base ss rs : in_step p c → 8 ≤ base → linked ss rs →
  linked (process_e2e_profile (with_variant "protector" config) c p base ss)
         (process_e2e_profile (with_variant "checker" config) c p base rs).
Proof.
  intros Hstep Hbase Hl id q. unfold process_e2e_profile.
  rewrite (bool_decide_true (variant (with_variant "protector" _) = "protector" ∨ _)) by (by left).
  rewrite (bool_decide_true (variant (with_variant "checker" _) = "checker" ∨ _)) by (by left).
  cbn [custom_protectors_ custom_checkers_ custom_bases_].
  change (service_id (with_variant _ config)) with (service_id config).
  change (event_id (with_variant _ config)) with (event_id config).
  set (k := (service_id config, event_id config)).
  destruct (decide (k = id)) as [->|Hne].
  - rewrite !lookup_insert_eq. intros Hq. injection Hq as <-. exists c, base. done.
  - rewrite !lookup_insert_ne by done. apply Hl.
Qed.

Lemma make_01_base config c : make_e2e_profile_config_01 config = Ret c → E2eProfile01.base_ c = 16.
Proof. unfold make_e2e_profile_config_01. intros H. outcome_inv H. by subst. Qed.
Lemma make_04_base config c : make_e2e_profile_config_04 config = Ret c → E2eProfile04.base_ c = 8.
Proof. unfold make_e2e_profile_config_04. intros H. outcome_inv H. by subst. Qed.
Lemma make_custom_base config c :
  make_e2e_profile_config_custom config = Ret c → E2eProfileCustom.base_ c = 16.
Proof. unfold make_e2e_profile_config_custom. intros H. outcome_inv H. by subst. Qed.

(** What a configuration stands for: a fresh checker and protector, and the base. *)
Definition fresh_pair (config : e2e) : outcome (option (any_checker * any_protector * Z)) :=
  if bool_decide (profile config = "CRC8" ∨ profile config = "P01") then
    c ← make_e2e_profile_config_01 config;
    Ret (Some (checker01 (E2eProfile01.mk_checker c), protector01 (E2eProfile01.protector_new c),
               E2eProfile01.base_ c))
  else if bool_decide (profile config = "CRC32" ∨ profile config = "CSTM") then
    c ← make_e2e_profile_config_custom config;
    Ret (Some (checker_custom (E2eProfileCustom.mk_checker c),
               protector_custom (E2eProfileCustom.mk_protector c), E2eProfileCustom.base_ c))
  else if bool_decide (profile config = "P04") then
    c ← make_e2e_profile_config_04 config;
    Ret (Some (checker04 (E2eProfile04.checker_new c), protector04 (E2eProfile04.protector_new c),
               E2eProfile04.base_ c))
  else Ret None.

Lemma add_configuration_fresh config s : add_configuration config s =
  (r ← fresh_pair config;
   Ret (match r with
        | Some (c, p, base) => (true, process_e2e_profile config c p base s)
        | None => (false, s)
        end)).
Proof.
  unfold add_configuration, fresh_pair. repeat case_bool_decide; try done.
  - by destruct (make_e2e_profile_config_01 config).
  - by destruct (make_e2e_profile_config_custom config).
  - by destruct (make_e2e_profile_config_04 config).
Qed.
Lemma fresh_pair_variant v config : fresh_pair (with_variant v config) = fresh_pair config.
Proof. done. Qed.

Lemma fresh_pair_in_step config c p base : fresh_pair config = Ret (Some (c, p, base)) →
  in_step p c ∧ 8 ≤ base.
Proof.
  unfold fresh_pair. intros H. repeat case_bool_decide; [..|done];
    apply outcome_bind_inv in H as (k&Hk&[= <- <- <-]).
  - rewrite (make_01_base _ _ Hk). done.
  - rewrite (make_custom_base _ _ Hk). done.
  - rewrite (make_04_base _ _ Hk). by repeat split.
Qed.

Lemma add_configurations_linked configs ss rs ss' rs' : linked ss rs →
  add_configurations (with_variant "protector" <$> configs) ss = Ret ss' →
  add_configurations (with_variant "checker" <$> configs) rs = Ret rs' →
  linked ss' rs'.
Proof.
  revert ss rs. induction configs as [|config configs IH]; intros ss rs Hl; [by intros [= <-] [= <-]|].
  cbn [fmap list_fmap add_configurations]. rewrite !add_configuration_fresh, !fresh_pair_variant.
  destruct (fresh_pair config) as [[[[c p] base]|]| | |] eqn:Hf; try done; cbn; intros H1 H2.
  - destruct (fresh_pair_in_step _ _ _ _ Hf). eapply IH; [|exact H1|exact H2]. by apply process_linked.
  - by eapply IH.
Qed.

(** * Exchange of messages *)

(** A message that the sending provider protects: its words name a configured
    identifier, and what lies behind the base suits the profile. *)
Definition sendable (s : e2e_provider_impl) (data : list Z) (instance : Z) : Prop :=
  bytes data ∧ ∃ id p base, data_identifier_of data = Ret id ∧
    custom_protectors_ s !! id = Some p ∧ custom_bases_ s !! id = Some base ∧
    base ≤ buffer_size data ∧ accepts p (drop (Z.to_nat base) data) instance.

(** Every message is protected by the sender and checked by the receiver, with [status]
    in the variable of the caller. *)
Fixpoint exchange (status : generic_check_status) (ss rs : e2e_provider_impl) (g : bool)
    (ms : list (list Z * Z)) : outcome (list (list Z * generic_check_status)) :=
  match ms with
  | [] => Ret []
  | (data, instance) :: ms =>
      '(data', ss') ← protect_message data instance ss;
      '(status', g', rs') ← check_message data' instance status g rs;
      rest ← exchange status ss' rs' g' ms;
      Ret ((data', status') :: rest)
  end.

Lemma data_identifier_of_ext data data' : take 4 data' = take 4 data →
  data_identifier_of data' = data_identifier_of data.
Proof.
  intros Heq. assert (∀ i, 0 ≤ i < 4 → vget data' i = vget data i) as Hget.
  { intros i Hi. unfold vget. rewrite !bool_decide_true by lia.
    by rewrite <- (lookup_take_lt data' 4), <- (lookup_take_lt data 4), Heq by lia. }
  unfold data_identifier_of. by rewrite !Hget by done.
Qed.

(** One message. *)
Lemma exchange_step status ss rs g data instance : linked ss rs → sendable ss data instance →
  ∃ data' ss' rs' g', protect_message data instance ss = Ret (data', ss') ∧
    check_message data' instance status g rs = Ret (E2E_OK, g', rs') ∧
    length data' = length data ∧ take 8 data' = take 8 data ∧ linked ss' rs' ∧
    ∀ d i, sendable ss d i → sendable ss' d i.
Proof.
  intros Hl (Hb&id&p&base&Hid&Hp&Hbs&Hle&Ha).
  destruct (Hl id p Hp) as (c&base'&Hc&Hstep&H8&Hbs'&Hbr). simplify_eq.
  assert (bytes (drop (Z.to_nat base) data)) as Hbd by (by apply bytes_drop).
  destruct (protect_check p c _ instance Hstep Ha Hbd) as (b'&p'&Hpr&Hlen&Hck).
  destruct (Hck g) as (c'&g'&Hchk&Hstep').
  unfold buffer_size in Hle.
  assert (length (take (Z.to_nat base) data ++ b') = length data) as Hl'
    by (rewrite length_app, length_take, Hlen, length_drop; lia).
  assert (take 8 (take (Z.to_nat base) data ++ b') = take 8 data) as H8'.
  { rewrite take_app_le by (rewrite length_take; lia). rewrite take_take. f_equal. lia. }
  exists (take (Z.to_nat base) data ++ b'),
    (mk_provider (<[id := p']> (custom_protectors_ ss)) (custom_checkers_ ss) (custom_bases_ ss)),
    (mk_provider (custom_protectors_ rs) (<[id := c']> (custom_checkers_ rs)) (custom_bases_ rs)), g'.
  assert (∀ d n, vrange d n (buffer_size d) = Ret (drop (Z.to_nat n) d) ∨ ¬ (0 ≤ n ≤ buffer_size d)) as Hrange.
  { intros d n. destruct (decide (0 ≤ n ≤ buffer_size d)); [left|by right].
    fold (buffer_view d n (buffer_size d)). rewrite buffer_view_ret by lia. f_equal. apply take_ge.
    rewrite length_drop. unfold buffer_size. lia. }
  split_and!; [| |done..| |].
  - unfold protect_message. rewrite Hid. cbn. unfold is_protected. rewrite Hp, bool_decide_true by done.
    unfold get_protection_base. rewrite Hbs.
    destruct (Hrange data base) as [->|]; [|unfold buffer_size in *; lia].
    rewrite outcome_bind_Ret. unfold provider_protect. rewrite Hp, Hpr. cbn.
    fold (buffer_view data 0 base). rewrite buffer_view_ret by (unfold buffer_size; lia).
    cbn. by rewrite Z.sub_0_r, drop_0.
  - unfold check_message. rewrite (data_identifier_of_ext data), Hid.
    2: { apply (f_equal (take 4)) in H8'. by rewrite !take_take in H8'. }
    cbn. unfold is_checked. rewrite Hc, bool_decide_true by done.
    unfold get_protection_base. rewrite Hbr.
    destruct (Hrange (take (Z.to_nat base) data ++ b') base) as [->|];
      [|unfold buffer_size in *; rewrite Hl' in *; lia].
    rewrite outcome_bind_Ret. unfold provider_check. rewrite Hc.
    rewrite drop_app_length' by (rewrite length_take; lia). by rewrite Hchk.
  - intros id2 q. cbn [custom_protectors_ custom_checkers_ custom_bases_]. destruct (decide (id = id2)) as [->|Hne].
    + rewrite !lookup_insert_eq. intros Hq. injection Hq as <-. exists c', base. by rewrite Hbs, Hbr.
    + rewrite !lookup_insert_ne by done. apply Hl.
  - intros d i (Hbd2&id2&q&base2&Hid2&Hq&Hbase2&Hle2&Ha2). split; [done|].
    destruct (decide (id = id2)) as [->|Hne].
    + exists id2, p', base2. cbn [custom_protectors_ custom_bases_]. rewrite lookup_insert_eq. simplify_eq.
      split_and!; try done. by apply (protect_accepts p (drop (Z.to_nat base) data) instance b').
    + exists id2, q, base2. cbn [custom_protectors_ custom_bases_]. by rewrite lookup_insert_ne.
Qed.

(** C4: two providers configured alike, one to protect and one to check. Every sequence of
    messages that can be protected, interleaved in any way, is accepted message by message;
    each delivered message keeps its size and its first eight bytes (service, method and
    length), whatever the status variable and the shared flag held. A message can be
    protected if its words name a configured identifier, the base of this identifier lies
    in the message, and what follows suits the profile: for profile 01, check, counter,
    data identifier and the configured data length lie inside it; for the custom profile,
    the check does; for profile 04, the fields do, the length is within the configured
    limits and below 65536, the instance is not above the maximum of the profile, and the
    configured maximum of the counter delta is at least 1. *)
Theorem provider_exchange configs ss rs status g ms :
  add_configurations (with_variant "protector" <$> configs) provider_new = Ret ss →
  add_configurations (with_variant "checker" <$> configs) provider_new = Ret rs →
  Forall (λ m, sendable ss m.1 m.2) ms →
  ∃ out, exchange status ss rs g ms = Ret out ∧
    Forall2 (λ m r, r.2 = E2E_OK ∧ length r.1 = length m.1 ∧ take 8 r.1 = take 8 m.1) ms out.
Proof.
  intros Hss Hrs. assert (linked ss rs) as Hl by (eapply add_configurations_linked; [|done..]; by intros ??).
  clear Hss Hrs. revert ss rs g Hl. induction ms as [|[data i] ms IH]; intros ss rs g Hl Hms.
  { exists []. by split. }
  apply Forall_cons_1 in Hms as [Hm Hms].
  destruct (exchange_step status ss rs g data i Hl Hm) as (d'&ss'&rs'&g'&Hp&Hc&Hlen&H8&Hl'&Hs).
  destruct (IH ss' rs' g' Hl') as (out&Ho&Hout).
  { eapply Forall_impl; [exact Hms|]. intros m. apply Hs. }
  exists ((d', E2E_OK) :: out). split; [|by constructor].
  cbn [exchange]. rewrite Hp. cbn. rewrite Hc. cbn. by rewrite Ho.
Qed.

Definition example_params : gmap string string :=
  <["crc_offset" := "0"]> (<["data_length" := "0x20"]> (<["data_id" := "0x2A5"]> ∅)).
Definition example_configs : list e2e :=
  [mk_e2e "both" "P01" 0x1111 0x8001 example_params;
   mk_e2e "both" "CSTM" 0x1111 0x8002 example_params].
Definition example_message (event : Z) : list Z :=
  be16 0x1111 ++ be16 event ++ replicate 12 0 ++ [0; 0; 1; 2; 3; 4].

Lemma provider_exchange_witness :
  match add_configurations (with_variant "protector" <$> example_configs) provider_new,
        add_configurations (with_variant "checker" <$> example_configs) provider_new with
  | Ret ss, Ret rs =>
      ∃ out, exchange E2E_ERROR ss rs true [(example_message 0x8001, 1); (example_message 0x8002, 1);
               (example_message 0x8001, 1)] = Ret out ∧ (snd <$> out) = [E2E_OK; E2E_OK; E2E_OK]
  | _, _ => False
  end.
Proof.
  destruct (add_configurations (with_variant "protector" <$> example_configs) provider_new)
    as [ss| | |] eqn:Hss; [|vm_compute in Hss; discriminate Hss..].
  destruct (add_configurations (with_variant "checker" <$> example_configs) provider_new)
    as [rs| | |] eqn:Hrs; [|vm_compute in Hrs; discriminate Hrs..].
  destruct (provider_exchange example_configs ss rs E2E_ERROR true [(example_message 0x8001, 1);
    (example_message 0x8002, 1); (example_message 0x8001, 1)] Hss Hrs) as (out&Ho&Hout).
  - vm_compute in Hss. injection Hss as <-.
    assert (∀ e, bytes (example_message e)) as Hb
      by (intros; unfold example_message; rewrite !Forall_app; split_and!; auto using bytes_be16;
          repeat constructor; done).
    repeat apply Forall_cons_2; [..|apply Forall_nil_2]; cbn [fst snd]; (split; [apply Hb|]).
    all: eexists _, _, _; split; [vm_compute; reflexivity|].
    all: split; [vm_compute; reflexivity|]; split; [vm_compute; reflexivity|].
    all: vm_compute; intuition congruence.
  - exists out. split; [exact Ho|].
    apply Forall2_length in Hout as Hlen. destruct out as [|[? ?] [|[? ?] [|[? ?] []]]]; try discriminate Hlen.
    decompose_Forall_hyps. cbn in *. intuition congruence.
Defined.

(** ** Effect of a configuration *)

Lemma is_some_insert_if {V} (m : gmap data_identifier_t V) k v (B : Prop) `{!Decision B} id :
  bool_decide (is_Some ((if bool_decide B then <[k := v]> m else m) !! id)) =
  bool_decide (is_Some (m !! id)) || bool_decide (id = k ∧ B).
Proof.
  rewrite <- bool_decide_or. apply bool_decide_ext. case_bool_decide as HB; [|naive_solver].
  destruct (decide (id = k)) as [->|]; [rewrite lookup_insert_eq|rewrite lookup_insert_ne by done]; naive_solver.
Qed.

Lemma process_effect config c p base s id :
  let key := (service_id config, event_id config) in
  let s' := process_e2e_profile config c p base s in
  is_protected id s' = is_protected id s ||
    bool_decide (id = key ∧ (variant config = "protector" ∨ variant config = "both")) ∧
  is_checked id s' = is_checked id s ||
    bool_decide (id = key ∧ (variant config = "checker" ∨ variant config = "both")) ∧
  get_protection_base id s' = if bool_decide (id = key) then base else get_protection_base id s.
Proof.
  split; [apply is_some_insert_if|]. split; [apply is_some_insert_if|].
  unfold get_protection_base, process_e2e_profile. cbn [custom_bases_].
  case_bool_decide as Hid; [subst id; by rewrite lookup_insert_eq|by rewrite lookup_insert_ne].
Qed.

(** Adding a configuration succeeds exactly for the five profile names.  An unknown
    profile changes nothing.  A known one makes its identifier protected for the
    variants "protector" and "both" and checked for "checker" and "both", sets its base
    to 8 for profile 04 and 16 for the others, and leaves other identifiers alone. *)
Theorem add_configuration_spec config s r s' : add_configuration config s = Ret (r, s') →
  let key := (service_id config, event_id config) in
  (r = true ↔ profile config ∈ ["CRC8"; "P01"; "CRC32"; "CSTM"; "P04"]) ∧
  (r = false → s' = s) ∧
  (r = true → ∀ id,
     is_protected id s' = is_protected id s ||
       bool_decide (id = key ∧ (variant config = "protector" ∨ variant config = "both")) ∧
     is_checked id s' = is_checked id s ||
       bool_decide (id = key ∧ (variant config = "checker" ∨ variant config = "both")) ∧
     get_protection_base id s' =
       if bool_decide (id = key) then (if bool_decide (profile config = "P04") then 8 else 16)
       else get_protection_base id s).
Proof.
  rewrite add_configuration_fresh. intros Hadd key.
  apply outcome_bind_inv in Hadd as (o&Ho&Hr). unfold fresh_pair in Ho.
  rewrite !elem_of_cons, elem_of_nil.
  destruct (decide (profile config = "CRC8" ∨ profile config = "P01")) as [H1|H1];
    [rewrite bool_decide_true in Ho by done|rewrite bool_decide_false in Ho by done;
     destruct (decide (profile config = "CRC32" ∨ profile config = "CSTM")) as [H2|H2];
     [rewrite bool_decide_true in Ho by done|rewrite bool_decide_false in Ho by done;
      destruct (decide (profile config = "P04")) as [H3|H3];
      [rewrite bool_decide_true in Ho by done|rewrite bool_decide_false in Ho by done]]].
  4: { simplify_eq. split; [intuition congruence|done]. }
  all: apply outcome_bind_inv in Ho as (k&Hk&[= <-]); injection Hr as <- <-;
    (split; [intuition congruence|]); (split; [done|]); intros _ id; (split; [apply process_effect|]);
    (split; [apply process_effect|]); etrans; [apply process_effect|]; fold key.
  - rewrite (make_01_base _ _ Hk), (bool_decide_false (profile config = _)); [done|intuition congruence].
  - rewrite (make_custom_base _ _ Hk), (bool_decide_false (profile config = _)); [done|intuition congruence].
  - by rewrite (make_04_base _ _ Hk), (bool_decide_true (profile config = _)).
Qed.

Lemma add_configuration_spec_witness :
  match add_configuration (mk_e2e "checker" "P04" 1 2 ∅) provider_new with
  | Ret (_, s) => is_checked (1, 2) s = true ∧ is_protected (1, 2) s = false ∧ get_protection_base (1, 2) s = 8
  | _ => False
  end.
Proof.
  destruct (add_configuration (mk_e2e "checker" "P04" 1 2 ∅) provider_new) as [[r s]| | |] eqn:H;
    [|vm_compute in H; discriminate H..].
  destruct (add_configuration_spec _ _ _ _ H) as (Hr&_&Heff).
  destruct (Heff (proj2 Hr ltac:(by repeat constructor)) (1, 2)) as (->&->&->). done.
Defined.

(** ** Parameters written as decimal numbers *)

(** A parameter written as the decimal text of a number that fits the type is read as
    that number; a missing parameter is read as the default value. *)
Theorem read_value_decimal w config name n default : 0 ≤ w → (Z.of_N n < 2 ^ w) →
  (custom_parameters config !! name = Some (pretty n) →
     read_value_from_config w config name default = Ret (Z.of_N n)) ∧
  (custom_parameters config !! name = None →
     read_value_from_config w config name default = Ret default).
Proof.
  intros Hw Hn. unfold read_value_from_config. split; intros ->; [|done].
  pose proof (extract_pretty w n Hw Hn) as He. destruct (pretty_shape n) as (c&s&Es&_&Hc). rewrite Es in *.
  assert (match String c s with String "0"%char (String "x"%char _) => true | _ => false end = false) as Hhex; [|by rewrite Hhex].
  clear -Hc. destruct c as [[] [] [] [] [] [] [] []]; try done. by rewrite Hc.
Qed.

Lemma read_value_decimal_witness :
  read_value_from_config 16 (mk_e2e "both" "P01" 1 2 {["data_id" := "4660"]}) "data_id" 0 = Ret 4660.
Proof.
  apply (read_value_decimal 16 (mk_e2e "both" "P01" 1 2 {["data_id" := "4660"]}) "data_id" 4660 0);
    [lia|lia|reflexivity].
Defined.
