(* ===== verification/ClientIds.v ===== *)
(** Client identifiers: [request_client_id], [release_client_id],
    [get_used_client_ids], [reset_client_ids] and [get_max_client_number] of
    [utility/src/utility.cpp], with the getters of [configuration_impl.cpp] they call.

    The static members of [utility] and the function-local statics of
    [request_client_id] are the fields of one state; every operation runs under one
    mutex, so that a process is a sequence of them.  The identifiers of a diagnosis
    address are cycled through by an increment under a bit mask; [rank] numbers them,
    and in that numbering the increment is the successor modulo their number. *)
From Stdlib Require Import Zbitwise.
From stdpp Require Import strings.
From S2P Require Import Prelude.

Definition VSOMEIP_CLIENT_UNSET : Z := 0xFFFF.

(** What the configuration says about clients. *)
Record configuration : Type := Configuration {
  diagnosis_ : Z;
  diagnosis_mask_ : Z;
  client_identifiers_ : gset Z
}.

Definition get_diagnosis_address (c : configuration) : Z := diagnosis_ c.
Definition get_diagnosis_mask (c : configuration) : Z := diagnosis_mask_ c.
Definition is_configured_client_id (c : configuration) (id : Z) : bool :=
  bool_decide (id ∈ client_identifiers_ c).

(** The function-local statics of [request_client_id], which keep the values of the
    first call. *)
Record request_statics : Type := RequestStatics {
  its_max_num_clients : Z;
  its_diagnosis_mask : Z;
  its_client_mask : Z;
  its_masked_diagnosis_address : Z;
  its_biggest_client : Z;
  its_smallest_client : Z
}.

Record utility : Type := Utility {
  next_client__ : Z;
  used_clients__ : gmap Z string;
  statics__ : option request_statics
}.

(** The members before the first call. *)
Definition utility_init : utility := Utility VSOMEIP_CLIENT_UNSET ∅ None.

(** [~x] converted to [std::uint16_t]. *)
Definition not16 (x : Z) : Z := u16 (Z.lnot x).

(** [__builtin_popcount] of a 16-bit value. *)
Definition popcount (x : Z) : Z :=
  foldr (λ i acc, Z.b2z (Z.testbit x i) + acc) 0 (seqZ 0 16).

Definition get_max_client_number (c : configuration) : Z :=
  let bits_for_clients := popcount (not16 (get_diagnosis_mask c)) in
  foldl (λ its_max_clients var, u16 (Z.lor its_max_clients (Z.shiftl 1 var))) 0
    (seqZ 0 bits_for_clients).

Definition init_statics (c : configuration) : request_statics :=
  let mask := get_diagnosis_mask c in
  let client_mask := not16 mask in
  let masked_address := u16 (Z.land (Z.shiftl (get_diagnosis_address c) 8) mask) in
  RequestStatics (get_max_client_number c) mask client_mask masked_address
    (Z.lor masked_address client_mask) masked_address.

(** The assignment to [next_client__] at the head of the loop. *)
Definition increment_client (s : request_statics) (next : Z) : Z :=
  Z.lor (Z.land next (not16 (its_client_mask s)))
    (Z.land (u16 (Z.lor next (not16 (its_client_mask s)) + 1)) (its_client_mask s)).

(** The loop: the value of [next_client__] when it is left, and whether it was left by
    the test of its condition ([true]) or by [return VSOMEIP_CLIENT_UNSET]. *)
Fixpoint find_free_client (fuel : nat) (s : request_statics) (c : configuration)
    (used : gmap Z string) (next increase_count : Z) : outcome (bool * Z) :=
  match fuel with
  | O => NoFuel
  | S fuel =>
      let next := increment_client s next in
      if bool_decide (increase_count = its_max_num_clients s) then Ret (false, next)
      else if bool_decide (is_Some (used !! next)) || is_configured_client_id c next
      then find_free_client fuel s c used next (u16 (increase_count + 1))
      else Ret (true, next)
  end.

(** [client_ids s]: how many identifiers share a diagnosis address, the number of
    iterations after which the loop is left. *)
Definition client_ids (s : request_statics) : nat := Z.to_nat (its_max_num_clients s + 1).

(** The part of [request_client_id] that searches an unused identifier. *)
Definition request_any (s : request_statics) (c : configuration) (name : string)
    (u : utility) : outcome (Z * utility) :=
  let next := if bool_decide (next_client__ u = its_biggest_client s)
              then its_smallest_client s else next_client__ u in
  '(found, next) ← find_free_client (client_ids s) s c (used_clients__ u) next 0;
  if (found : bool)
  then Ret (next, Utility next (<[next := name]> (used_clients__ u)) (statics__ u))
  else Ret (VSOMEIP_CLIENT_UNSET, Utility next (used_clients__ u) (statics__ u)).

Definition request_client_id (c : configuration) (name : string) (client : Z)
    (u : utility) : outcome (Z * utility) :=
  let s := default (init_statics c) (statics__ u) in
  let next := if bool_decide (next_client__ u = VSOMEIP_CLIENT_UNSET)
              then its_smallest_client s else next_client__ u in
  let u := Utility next (used_clients__ u) (Some s) in
  if bool_decide (client ≠ VSOMEIP_CLIENT_UNSET) then
    match used_clients__ u !! client with
    | None => Ret (client, Utility next (<[client := name]> (used_clients__ u)) (Some s))
    | Some n => if bool_decide (n = name) then Ret (client, u) else request_any s c name u
    end
  else request_any s c name u.

Definition release_client_id (client : Z) (u : utility) : utility :=
  Utility (next_client__ u) (delete client (used_clients__ u)) (statics__ u).

Definition get_used_client_ids (u : utility) : gset Z := dom (used_clients__ u).

Definition reset_client_ids (u : utility) : utility :=
  Utility VSOMEIP_CLIENT_UNSET ∅ (statics__ u).

(** ** The increment under a mask *)

(** [x] has bits of the mask [m] only. *)
Definition submask (m x : Z) : Prop := Z.land x m = x.

(** The number of bits of [m] among the lowest [n]. *)
Fixpoint weight (n : nat) (m : Z) : Z :=
  match n with O => 0 | S n => Z.b2z (Z.odd m) + weight n (m / 2) end.

(** The bits of [x] at the positions of [m], read as one number. *)
Fixpoint rank (n : nat) (m x : Z) : Z :=
  match n with
  | O => 0
  | S n => if Z.odd m then Z.b2z (Z.odd x) + 2 * rank n (m / 2) (x / 2)
           else rank n (m / 2) (x / 2)
  end.

(** Set all bits outside the mask, add one, keep the bits of the mask. *)
Definition next_submask (n : nat) (m x : Z) : Z :=
  Z.land ((Z.lor x (2 ^ Z.of_nat n - 1 - m) + 1) mod 2 ^ Z.of_nat n) m.

Lemma half_bit z : z = 2 * (z / 2) + Z.b2z (Z.odd z).
Proof. rewrite <- Z.div2_div. apply Z.div2_odd. Qed.
Lemma half_double a (b : bool) : (2 * a + Z.b2z b) / 2 = a.
Proof. destruct b; cbn [Z.b2z]; Z.div_mod_to_equations; lia. Qed.
Lemma odd_double a (b : bool) : Z.odd (2 * a + Z.b2z b) = b.
Proof.
  rewrite Z.add_comm, Z.odd_add_mul_2. by destruct b.
Qed.
Lemma half_even a : (2 * a) / 2 = a.
Proof. rewrite Z.mul_comm. by apply Z.div_mul. Qed.
Lemma odd_even a : Z.odd (2 * a) = false.
Proof. by rewrite Z.odd_mul. Qed.

Lemma land_double a b (p q : bool) :
  Z.land (2 * a + Z.b2z p) (2 * b + Z.b2z q) = 2 * Z.land a b + Z.b2z (p && q).
Proof.
  apply Z.bits_inj'. intros i Hi. rewrite Z.land_spec.
  destruct (decide (i = 0)) as [->|]; [by rewrite !Z.testbit_0_r|].
  rewrite <- (Z.succ_pred i), !Z.testbit_succ_r by lia. by rewrite Z.land_spec.
Qed.
Lemma lor_double a b (p q : bool) :
  Z.lor (2 * a + Z.b2z p) (2 * b + Z.b2z q) = 2 * Z.lor a b + Z.b2z (p || q).
Proof.
  apply Z.bits_inj'. intros i Hi. rewrite Z.lor_spec.
  destruct (decide (i = 0)) as [->|]; [by rewrite !Z.testbit_0_r|].
  rewrite <- (Z.succ_pred i), !Z.testbit_succ_r by lia. by rewrite Z.lor_spec.
Qed.

Lemma submask_double a b (p q : bool) :
  submask (2 * a + Z.b2z p) (2 * b + Z.b2z q) ↔ submask a b ∧ (q = true → p = true).
Proof.
  unfold submask. rewrite land_double.
  destruct p, q; cbn [andb Z.b2z]; split; intros H; repeat split; try lia; naive_solver lia.
Qed.
Lemma submask_half m x : submask m x →
  submask (m / 2) (x / 2) ∧ (Z.odd x = true → Z.odd m = true).
Proof. rewrite (half_bit m), (half_bit x) at 1. apply submask_double. Qed.
Lemma submask_bounds m x : 0 ≤ m → submask m x → 0 ≤ x ≤ m.
Proof.
  intros Hm <-. apply Z.ldiff_le; [done|]. apply Z.bits_inj'. intros i Hi.
  rewrite Z.ldiff_spec, Z.land_spec, Z.bits_0. by destruct (Z.testbit x i), (Z.testbit m i).
Qed.

(** The complement within [n] bits has no bit of the mask. *)
Lemma land_complement n m x : 0 ≤ m < 2 ^ Z.of_nat n → submask m x →
  Z.land (Z.lor x (2 ^ Z.of_nat n - 1 - m)) m = x.
Proof.
  intros Hm Hx. assert (2 ^ Z.of_nat n - 1 - m = Z.ldiff (Z.ones (Z.of_nat n)) m) as ->.
  { rewrite <- Z.sub_nocarry_ldiff; [rewrite Z.ones_equiv; lia|].
    apply Z.bits_inj'. intros i Hi. rewrite Z.ldiff_spec, Z.bits_0.
    destruct (decide (i < Z.of_nat n)); [rewrite Z.ones_spec_low by lia; apply andb_false_r|].
    by rewrite (testbit_above m (Z.of_nat n)) by lia. }
  unfold submask in Hx. rewrite <- Hx. apply Z.bits_inj'. intros i Hi.
  rewrite !Z.land_spec, Z.lor_spec, Z.ldiff_spec, Z.land_spec.
  by destruct (Z.testbit x i), (Z.testbit m i), (Z.testbit (Z.ones _) i).
Qed.

Lemma land_half a (b : bool) m :
  Z.land (2 * a + Z.b2z b) m = 2 * Z.land a (m / 2) + Z.b2z (b && Z.odd m).
Proof. rewrite (half_bit m) at 1. apply land_double. Qed.
Lemma mod_double a (b : bool) M : 0 < M →
  (2 * a + Z.b2z b) mod (2 * M) = 2 * (a mod M) + Z.b2z b.
Proof.
  intros HM. pose proof (Z.mod_pos_bound a M HM). pose proof (Z.div_mod a M).
  symmetry. apply Z.mod_unique with (a / M); destruct b; cbn [Z.b2z]; lia.
Qed.

(** The increment, bit by bit: a carry passes through the bits outside the mask. *)
Lemma next_submask_S n m x : 0 ≤ m < 2 ^ Z.of_nat (S n) → submask m x →
  next_submask (S n) m x =
  if Z.odd m && negb (Z.odd x) then x + 1 else 2 * next_submask n (m / 2) (x / 2).
Proof.
  intros Hm Hx. destruct (submask_half _ _ Hx) as [Hh Ho].
  assert (Hm2 : 0 ≤ m / 2 < 2 ^ Z.of_nat n).
  { rewrite Nat2Z.inj_succ, Z.pow_succ_r in Hm by lia. split; [apply Z.div_pos; lia|].
    apply Z.div_lt_upper_bound; lia. }
  pose proof (land_complement n (m / 2) (x / 2) Hm2 Hh) as Hc.
  assert (Hx2 : 0 ≤ Z.lor (x / 2) (2 ^ Z.of_nat n - 1 - m / 2) < 2 ^ Z.of_nat n).
  { pose proof (submask_bounds (m / 2) (x / 2) ltac:(lia) Hh).
    split; [apply Z.lor_nonneg; lia|].
    pose proof (Z.add_lor_land (x / 2) (2 ^ Z.of_nat n - 1 - m / 2)).
    pose proof (Z.land_nonneg (x / 2) (2 ^ Z.of_nat n - 1 - m / 2)). lia. }
  unfold next_submask. rewrite Nat2Z.inj_succ, Z.pow_succ_r by lia.
  assert (Hcm : 2 * 2 ^ Z.of_nat n - 1 - m
    = 2 * (2 ^ Z.of_nat n - 1 - m / 2) + Z.b2z (negb (Z.odd m))).
  { pose proof (half_bit m). destruct (Z.odd m); cbn [negb Z.b2z] in *; lia. }
  rewrite Hcm, (half_bit x) at 1. rewrite lor_double.
  set (L := Z.lor (x / 2) _) in *.
  destruct (Z.odd m && negb (Z.odd x)) eqn:E.
  - apply andb_true_iff in E as [Em Ex%negb_true_iff]. rewrite Em, Ex. cbn [orb negb].
    replace (2 * L + Z.b2z false + 1) with (2 * L + Z.b2z true) by (cbn; lia).
    rewrite mod_double, Z.mod_small, land_half, Hc, Em by lia.
    rewrite (half_bit x) at 2. rewrite Ex. cbn. lia.
  - replace (Z.odd x || negb (Z.odd m)) with true
      by (destruct (Z.odd m), (Z.odd x); done).
    replace (2 * L + Z.b2z true + 1) with (2 * (L + 1) + Z.b2z false) by (cbn; lia).
    rewrite mod_double, land_half by lia. cbn. lia.
Qed.

Lemma submask_0 m : submask m 0.
Proof. apply Z.land_0_l. Qed.
Lemma next_submask_submask n m x : submask m (next_submask n m x).
Proof. unfold submask, next_submask. by rewrite <- Z.land_assoc, Z.land_diag. Qed.

Lemma weight_nonneg n m : 0 ≤ weight n m.
Proof. revert m. induction n; intros m; cbn; [done|]. specialize (IHn (m / 2)). destruct (Z.odd m); cbn; lia. Qed.

Lemma half_range n m : 0 ≤ m < 2 ^ Z.of_nat (S n) → 0 ≤ m / 2 < 2 ^ Z.of_nat n.
Proof.
  rewrite Nat2Z.inj_succ, Z.pow_succ_r by lia. intros Hm. split; [apply Z.div_pos; lia|].
  apply Z.div_lt_upper_bound; lia.
Qed.

Lemma weight_S_pow n m :
  2 ^ weight (S n) m = if Z.odd m then 2 * 2 ^ weight n (m / 2) else 2 ^ weight n (m / 2).
Proof.
  pose proof (weight_nonneg n (m / 2)). cbn [weight].
  destruct (Z.odd m); cbn [Z.b2z]; [by rewrite Z.pow_add_r by lia|done].
Qed.

Lemma rank_bounds n m x : 0 ≤ rank n m x < 2 ^ weight n m.
Proof.
  revert m x. induction n as [|n IH]; intros m x; [cbn; lia|].
  rewrite weight_S_pow. specialize (IH (m / 2) (x / 2)). cbn [rank].
  destruct (Z.odd m), (Z.odd x); cbn [Z.b2z]; lia.
Qed.

(** The number of a submask determines it. *)
Lemma rank_inj n m x y : 0 ≤ m < 2 ^ Z.of_nat n → submask m x → submask m y →
  rank n m x = rank n m y → x = y.
Proof.
  revert m x y. induction n as [|n IH]; intros m x y Hm Hx Hy Hr.
  { cbn in Hm. pose proof (submask_bounds m x). pose proof (submask_bounds m y).
    naive_solver lia. }
  apply submask_half in Hx as [Hx Ex], Hy as [Hy Ey].
  rewrite (half_bit x), (half_bit y). cbn [rank] in Hr. apply half_range in Hm.
  destruct (Z.odd m).
  - assert (Z.odd x = Z.odd y ∧ rank n (m / 2) (x / 2) = rank n (m / 2) (y / 2)) as [-> ?].
    { destruct (Z.odd x), (Z.odd y); cbn [Z.b2z] in Hr; split; (done || lia). }
    by rewrite (IH (m / 2) (x / 2) (y / 2)).
  - rewrite (IH (m / 2) (x / 2) (y / 2)) by done.
    destruct (Z.odd x), (Z.odd y); naive_solver.
Qed.

(** In this numbering the increment adds one, modulo the number of submasks. *)
Lemma rank_next n m x : 0 ≤ m < 2 ^ Z.of_nat n → submask m x →
  rank n m (next_submask n m x) = (rank n m x + 1) mod 2 ^ weight n m.
Proof.
  revert m x. induction n as [|n IH]; intros m x Hm Hx; [done|].
  rewrite next_submask_S by done. apply submask_half in Hx as [Hx Ex].
  apply half_range in Hm. specialize (IH (m / 2) (x / 2) Hm Hx).
  pose proof (rank_bounds n (m / 2) (x / 2)) as Hb.
  rewrite weight_S_pow. cbn [rank]. destruct (Z.odd m) eqn:Em, (Z.odd x) eqn:Eo; cbn [andb negb].
  - rewrite half_even, odd_even, IH.
    replace (Z.b2z true + 2 * rank n (m / 2) (x / 2) + 1) with
      (2 * (rank n (m / 2) (x / 2) + 1) + Z.b2z false) by (cbn; lia).
    rewrite mod_double by lia. cbn [Z.b2z]. lia.
  - assert (x + 1 = 2 * (x / 2) + Z.b2z true) as ->.
    { rewrite (half_bit x) at 1. rewrite Eo. cbn. lia. }
    rewrite half_double, odd_double. cbn [Z.b2z]. rewrite Z.mod_small; lia.
  - by rewrite half_even, IH.
  - by rewrite half_even, IH.
Qed.

(** ** The identifiers of a diagnosis address *)

Lemma testbit_not16 x i : 0 ≤ i →
  Z.testbit (not16 x) i = bool_decide (i < 16) && negb (Z.testbit x i).
Proof.
  intros Hi. unfold not16, u16. case_bool_decide; cbn [andb].
  - by rewrite Z.mod_pow2_bits_low, Z.lnot_spec by lia.
  - by rewrite Z.mod_pow2_bits_high by lia.
Qed.
Lemma testbit_u16 x i : 0 ≤ i → is_u16 x → Z.testbit x i = bool_decide (i < 16) && Z.testbit x i.
Proof.
  intros Hi Hx. case_bool_decide; [done|]. cbn. apply (testbit_above x 16); [done|lia].
Qed.
Lemma not16_sub x : is_u16 x → not16 x = 2 ^ Z.of_nat 16 - 1 - x.
Proof.
  intros Hx. unfold not16, Z.lnot. change (2 ^ Z.of_nat 16) with (2 ^ 16). width_lia.
Qed.
Lemma is_u16_not16 x : is_u16 (not16 x).
Proof. apply is_u16_u16. Qed.
Lemma not16_involutive x : is_u16 x → not16 (not16 x) = x.
Proof.
  intros Hx. rewrite (not16_sub (not16 x)), not16_sub by (done || apply is_u16_not16). lia.
Qed.

(** Bitwise equality of 16-bit values. *)
Ltac bits16 :=
  apply Z.bits_inj'; intros i Hi;
  repeat first [rewrite Z.land_spec | rewrite Z.lor_spec | rewrite testbit_not16 by done].

Lemma is_u16_land x y : is_u16 y → is_u16 (Z.land x y).
Proof.
  intros Hy. pose proof (submask_bounds y (Z.land x y)) as H.
  unfold submask in H. rewrite <- Z.land_assoc, Z.land_diag in H.
  unfold is_u16 in *. destruct H; [lia|done|lia].
Qed.
Lemma is_u16_lor x y : is_u16 x → is_u16 y → is_u16 (Z.lor x y).
Proof.
  intros Hx Hy. assert (Z.lor x y = Z.land (Z.lor x y) (not16 0)) as ->.
  { bits16. rewrite (testbit_u16 x), (testbit_u16 y), Z.bits_0 by done.
    destruct (Z.testbit x i), (Z.testbit y i), (bool_decide (i < 16)); done. }
  apply is_u16_land, is_u16_not16.
Qed.

(** The values the statics can have. *)
Definition valid_statics (s : request_statics) : Prop :=
  ∃ c, is_u16 (get_diagnosis_mask c) ∧ is_u16 (get_diagnosis_address c) ∧ s = init_statics c.

(** An identifier of the diagnosis address. *)
Definition of_diagnosis_address (s : request_statics) (id : Z) : Prop :=
  is_u16 id ∧ Z.land id (its_diagnosis_mask s) = its_masked_diagnosis_address s.

Section statics.
  Context (s : request_statics) (Hs : valid_statics s).
Let cm := its_client_mask s.

Lemma client_mask_u16 : is_u16 (its_client_mask s).
Proof. destruct Hs as (c&_&_&->). apply is_u16_not16. Qed.
Lemma not16_client_mask : not16 (its_client_mask s) = its_diagnosis_mask s.
Proof. destruct Hs as (c&Hc&_&->). by apply not16_involutive. Qed.

Lemma smallest_of_address : of_diagnosis_address s (its_smallest_client s).
Proof.
  destruct Hs as (c&Hm&_&->). cbn. split; [apply is_u16_u16|].
  cbn [its_smallest_client its_diagnosis_mask its_masked_diagnosis_address init_statics].
  rewrite (u16_id (Z.land _ _)) by (by apply is_u16_land).
  by rewrite <- Z.land_assoc, Z.land_diag.
Qed.

(** Identifiers of the address differ in the bits of the client mask. *)
Lemma of_address_split id : of_diagnosis_address s id →
  id = Z.lor (its_masked_diagnosis_address s) (Z.land id cm).
Proof.
  intros [Hid <-]. rewrite <- not16_client_mask. subst cm. bits16.
  rewrite (testbit_u16 id) by done.
  by destruct (bool_decide (i < 16)), (Z.testbit id i), (Z.testbit (its_client_mask s) i).
Qed.

Lemma increment_client_spec id : of_diagnosis_address s id →
  of_diagnosis_address s (increment_client s id) ∧
  Z.land (increment_client s id) cm = next_submask 16 cm (Z.land id cm).
Proof.
  intros [Hid Ha]. pose proof client_mask_u16 as Hcm. unfold increment_client, next_submask.
  assert (Hlor : Z.lor id (not16 cm) = Z.lor (Z.land id cm) (2 ^ Z.of_nat 16 - 1 - cm)).
  { rewrite <- not16_sub by done. bits16. rewrite (testbit_u16 id) by done.
    by destruct (bool_decide (i < 16)), (Z.testbit id i), (Z.testbit cm i). }
  fold cm. rewrite Hlor. change (2 ^ Z.of_nat 16) with (2 ^ 16). fold (u16 (Z.lor (Z.land id cm) (2 ^ 16 - 1 - cm) + 1)).
  set (t := u16 _). assert (Ht : is_u16 t) by apply is_u16_u16.
  split; [split|].
  - apply is_u16_lor; apply is_u16_land; [apply is_u16_not16|done].
  - rewrite <- Ha, <- not16_client_mask. fold cm. bits16.
    rewrite (testbit_u16 id) by done.
    by destruct (bool_decide (i < 16)), (Z.testbit id i), (Z.testbit cm i), (Z.testbit t i).
  - bits16. by destruct (bool_decide (i < 16)), (Z.testbit id i), (Z.testbit cm i), (Z.testbit t i).
Qed.
End statics.

Lemma weight_popcount n m k :
  weight n (m / 2 ^ Z.of_nat k) =
  foldr (λ i acc, Z.b2z (Z.testbit m i) + acc) 0 (seqZ (Z.of_nat k) (Z.of_nat n)).
Proof.
  revert k. induction n as [|n IH]; intros k; [done|].
  rewrite seqZ_cons by lia. cbn [weight foldr].
  rewrite Z.testbit_odd, Z.shiftr_div_pow2 by lia. f_equal.
  rewrite Z.div_div by lia. replace (2 ^ Z.of_nat k * 2) with (2 ^ Z.of_nat (S k)).
  2: { rewrite Nat2Z.inj_succ, Z.pow_succ_r by lia. lia. }
  rewrite IH. do 2 f_equal; lia.
Qed.

Lemma weight_le n m : weight n m ≤ Z.of_nat n.
Proof.
  revert m. induction n as [|n IH]; intros m; [done|]. cbn [weight]. specialize (IH (m / 2)).
  destruct (Z.odd m); cbn [Z.b2z]; lia.
Qed.

(** [get_max_client_number]: all but one of the identifiers of an address. *)
Lemma max_num_clients s : valid_statics s →
  its_max_num_clients s = 2 ^ weight 16 (its_client_mask s) - 1 ∧ is_u16 (its_max_num_clients s).
Proof.
  intros (c&_&_&->). cbn [its_max_num_clients its_client_mask init_statics].
  unfold get_max_client_number. set (m := not16 _).
  assert (popcount m = weight 16 m) as ->.
  { pose proof (weight_popcount 16 m 0) as E. change (2 ^ Z.of_nat 0) with 1 in E.
    rewrite Z.div_1_r in E. symmetry. exact E. }
  pose proof (weight_nonneg 16 m). pose proof (weight_le 16 m).
  assert (∃ k, (k ≤ 16)%nat ∧ weight 16 m = Z.of_nat k) as (k&Hk&->)
    by (exists (Z.to_nat (weight 16 m)); lia).
  do 17 (destruct k as [|k]; [vm_compute; repeat split; done|]). lia.
Qed.

#[local] Opaque rank weight next_submask.

Section cycle.
  Context (s : request_statics) (Hs : valid_statics s).

(** The number of an identifier among those of its address. *)
Definition client_rank (id : Z) : Z :=
  rank 16 (its_client_mask s) (Z.land id (its_client_mask s)).
Definition client_after (j : nat) (id : Z) : Z := Nat.iter j (increment_client s) id.

Lemma client_ids_pow : Z.of_nat (client_ids s) = 2 ^ weight 16 (its_client_mask s).
Proof.
  destruct (max_num_clients s Hs) as [Hm Hu]. unfold client_ids. unfold is_u16 in Hu. lia.
Qed.

Lemma client_after_of_address j id :
  of_diagnosis_address s id → of_diagnosis_address s (client_after j id).
Proof.
  intros Hid. induction j as [|j IH]; [done|]. cbn. by apply increment_client_spec.
Qed.

Lemma client_after_rank j id : of_diagnosis_address s id →
  client_rank (client_after j id) = (client_rank id + Z.of_nat j) mod Z.of_nat (client_ids s).
Proof.
  intros Hid. rewrite client_ids_pow. pose proof (weight_nonneg 16 (its_client_mask s)).
  induction j as [|j IH].
  - change (client_after 0 id) with id. unfold client_rank. rewrite Z.add_0_r, Z.mod_small; [done|]. apply rank_bounds.
  - pose proof (client_after_of_address j id Hid) as Hj.
    destruct (increment_client_spec s Hs _ Hj) as [_ Hn].
    change (client_rank (increment_client s (client_after j id)) =
      (client_rank id + Z.of_nat (S j)) mod 2 ^ weight 16 (its_client_mask s)).
    unfold client_rank at 1. cbv zeta in Hn. rewrite Hn, rank_next.
    + change (rank _ _ _) with (client_rank (client_after j id)). rewrite IH, Z.add_mod_idemp_l by lia. f_equal. lia.
    + apply (client_mask_u16 s Hs).
    + unfold submask. by rewrite <- Z.land_assoc, Z.land_diag.
Qed.

Lemma client_rank_inj x y : of_diagnosis_address s x → of_diagnosis_address s y →
  client_rank x = client_rank y → x = y.
Proof.
  intros Hx Hy Hr. rewrite (of_address_split s Hs x Hx), (of_address_split s Hs y Hy).
  f_equal. apply (rank_inj 16 (its_client_mask s)); [|..|done];
    [apply (client_mask_u16 s Hs)|..]; unfold submask; by rewrite <- Z.land_assoc, Z.land_diag.
Qed.

(** The increment visits all identifiers of the address and then starts again. *)
Lemma client_after_all id : of_diagnosis_address s id → client_after (client_ids s) id = id.
Proof.
  intros Hid. apply client_rank_inj; [by apply client_after_of_address|done|].
  pose proof (rank_bounds 16 (its_client_mask s) (Z.land id (its_client_mask s))).
  pose proof client_ids_pow.
  rewrite client_after_rank by done. rewrite <- (Z.mul_1_l (Z.of_nat (client_ids s))) at 1.
  rewrite Z_mod_plus_full, Z.mod_small; [done|]. unfold client_rank. lia.
Qed.

Lemma client_after_covers start id :
  of_diagnosis_address s start → of_diagnosis_address s id → id ≠ start →
  ∃ j, (1 ≤ j < client_ids s)%nat ∧ id = client_after j start.
Proof.
  intros Hst Hid Hne. pose proof client_ids_pow. pose proof (weight_nonneg 16 (its_client_mask s)).
  assert (0 < Z.of_nat (client_ids s)) by lia.
  set (j := Z.to_nat ((client_rank id - client_rank start) mod Z.of_nat (client_ids s))).
  pose proof (Z.mod_pos_bound (client_rank id - client_rank start) (Z.of_nat (client_ids s))).
  assert (id = client_after j start) as Hj.
  { apply client_rank_inj; [done|by apply client_after_of_address|].
    rewrite client_after_rank by done. subst j. rewrite Z2Nat.id, Z.add_mod_idemp_r by lia.
    replace (client_rank start + (client_rank id - client_rank start)) with (client_rank id) by lia.
    rewrite Z.mod_small; [done|].
    pose proof (rank_bounds 16 (its_client_mask s) (Z.land id (its_client_mask s))).
    unfold client_rank. lia. }
  exists j. split; [|done]. split; [|lia].
  destruct (decide (j = O)) as [->|]; [done|lia].
Qed.
End cycle.

(** ** The search for an unused identifier *)

(** An identifier the loop passes over. *)
Definition taken (c : configuration) (used : gmap Z string) (id : Z) : bool :=
  bool_decide (is_Some (used !! id)) || is_configured_client_id c id.

Lemma find_free_client_spec s c used fuel next :
  valid_statics s → of_diagnosis_address s next → (1 ≤ fuel ≤ client_ids s)%nat →
  let run := find_free_client fuel s c used next (Z.of_nat (client_ids s - fuel)) in
  (∃ j, (1 ≤ j < fuel)%nat ∧ run = Ret (true, client_after s j next) ∧
    taken c used (client_after s j next) = false) ∨
  (run = Ret (false, client_after s fuel next) ∧
    ∀ j, (1 ≤ j < fuel)%nat → taken c used (client_after s j next) = true).
Proof.
  intros Hs. destruct (max_num_clients s Hs) as [_ Hu].
  assert (HN : Z.of_nat (client_ids s) = its_max_num_clients s + 1)
    by (unfold client_ids, is_u16 in *; lia).
  revert next. induction fuel as [|fuel IH]; intros next Hn Hf; [lia|].
  cbv zeta. cbn [find_free_client]. case_bool_decide as Hc.
  { right. assert (fuel = O) as -> by lia. split; [done|]. intros j Hj. lia. }
  assert (Hfuel : (1 ≤ fuel)%nat) by lia.
  fold (taken c used (increment_client s next)).
  destruct (taken c used (increment_client s next)) eqn:Ht.
  2: { left. exists 1%nat. split; [lia|]. done. }
  assert (u16 (Z.of_nat (client_ids s - S fuel) + 1) = Z.of_nat (client_ids s - fuel)) as ->.
  { rewrite u16_id; [lia|]. unfold is_u16 in *. lia. }
  assert (Hstep : ∀ j, client_after s j (increment_client s next) = client_after s (S j) next)
    by (intros j; unfold client_after; by rewrite Nat.iter_succ_r).
  destruct (IH (increment_client s next)) as [(j&Hj&Hr&Hfree)|[Hr Hall]].
  - by apply increment_client_spec.
  - lia.
  - left. exists (S j). rewrite Hstep in Hr, Hfree. split; [lia|done].
  - right. rewrite Hstep in Hr. split; [done|]. intros [|[|j]] Hj; [lia|done|].
    rewrite <- Hstep. apply Hall. lia.
Qed.

(** What a search from the identifier [start] does: it assigns a free identifier of
    the diagnosis address other than [start], or there is none and nothing is assigned. *)
Definition searched (s : request_statics) (c : configuration) (name : string)
    (used : gmap Z string) (start r : Z) (u' : utility) : Prop :=
  statics__ u' = Some s ∧
  ((of_diagnosis_address s r ∧ r ≠ start ∧ used !! r = None ∧
      is_configured_client_id c r = false ∧
      used_clients__ u' = <[r := name]> used ∧ next_client__ u' = r)
   ∨ (r = VSOMEIP_CLIENT_UNSET ∧ used_clients__ u' = used ∧ next_client__ u' = start ∧
      ∀ id, of_diagnosis_address s id → id ≠ start →
        is_Some (used !! id) ∨ is_configured_client_id c id = true)).

(** Where the search starts. *)
Definition search_start (s : request_statics) (next : Z) : Z :=
  if bool_decide (next = VSOMEIP_CLIENT_UNSET) || bool_decide (next = its_biggest_client s)
  then its_smallest_client s else next.

Lemma client_after_ne s id j : valid_statics s → of_diagnosis_address s id →
  (1 ≤ j < client_ids s)%nat → client_after s j id ≠ id.
Proof.
  intros Hs Hid Hj He. pose proof (client_after_rank s Hs j id Hid) as Hr. rewrite He in Hr.
  pose proof (rank_bounds 16 (its_client_mask s) (Z.land id (its_client_mask s))).
  pose proof (client_ids_pow s Hs). unfold client_rank in Hr.
  set (x := rank _ _ _) in *. set (N := Z.of_nat (client_ids s)) in *.
  pose proof (Z.div_mod (x + Z.of_nat j) N ltac:(lia)) as Hd. rewrite <- Hr in Hd.
  set (q := _ / N) in Hd. destruct (decide (q ≤ 0)); nia.
Qed.

Lemma taken_false c used id : taken c used id = false →
  used !! id = None ∧ is_configured_client_id c id = false.
Proof.
  unfold taken. intros [H1 H2]%orb_false_iff. apply bool_decide_eq_false in H1.
  split; [by apply eq_None_not_Some|done].
Qed.
Lemma taken_true c used id : taken c used id = true →
  is_Some (used !! id) ∨ is_configured_client_id c id = true.
Proof. unfold taken. intros [H%bool_decide_eq_true|H]%orb_true_iff; auto. Qed.

Lemma request_any_spec s c name u : valid_statics s →
  of_diagnosis_address s (next_client__ u) → statics__ u = Some s →
  let start := if bool_decide (next_client__ u = its_biggest_client s)
               then its_smallest_client s else next_client__ u in
  ∃ r u', request_any s c name u = Ret (r, u') ∧
    searched s c name (used_clients__ u) start r u'.
Proof.
  intros Hs Hn Hu start. assert (Hst : of_diagnosis_address s start).
  { subst start. case_bool_decide; [by apply smallest_of_address|done]. }
  destruct (max_num_clients s Hs) as [_ Hmu].
  assert (1 ≤ client_ids s)%nat by (unfold client_ids, is_u16 in *; lia).
  unfold request_any. fold start.
  pose proof (find_free_client_spec s c (used_clients__ u) (client_ids s) start Hs Hst
    ltac:(lia)) as Hf. rewrite Nat.sub_diag in Hf. change (Z.of_nat 0) with 0 in Hf. cbv zeta in Hf.
  destruct Hf as [(j&Hj&->&[Hfree Hcfg]%taken_false)|[-> Hall]];
    rewrite outcome_bind_Ret; cbv beta iota.
  - do 2 eexists. split; [done|]. split; [done|]. left.
    cbn [used_clients__ next_client__].
    pose proof (client_after_of_address s Hs j start Hst).
    pose proof (client_after_ne s start j Hs Hst Hj). repeat (split; [done|]). done.
  - do 2 eexists. split; [done|]. split; [done|]. right.
    cbn [used_clients__ next_client__]. rewrite client_after_all by done.
    repeat (split; [done|]). intros id Hid Hne. apply taken_true.
    destruct (client_after_covers s Hs start id Hst Hid Hne) as (j&Hj&->). by apply Hall.
Qed.

(** ** Reachable states *)

(** The getters return 16-bit values. *)
Definition configuration_ok (c : configuration) : Prop :=
  is_u16 (get_diagnosis_mask c) ∧ is_u16 (get_diagnosis_address c).

(** The states of a process: any sequence of calls, in any order and with any
    configurations. *)
Inductive reachable : utility → Prop :=
| reachable_init : reachable utility_init
| reachable_request c name client u r u' :
    reachable u → configuration_ok c →
    request_client_id c name client u = Ret (r, u') → reachable u'
| reachable_release client u : reachable u → reachable (release_client_id client u)
| reachable_reset u : reachable u → reachable (reset_client_ids u).

Definition utility_inv (u : utility) : Prop :=
  match statics__ u with
  | None => next_client__ u = VSOMEIP_CLIENT_UNSET
  | Some s => valid_statics s ∧
      (next_client__ u = VSOMEIP_CLIENT_UNSET ∨ of_diagnosis_address s (next_client__ u))
  end.

(** The statics a call uses. *)
Definition statics_of (c : configuration) (u : utility) : request_statics :=
  default (init_statics c) (statics__ u).

Lemma statics_of_valid c u : utility_inv u → configuration_ok c →
  valid_statics (statics_of c u).
Proof.
  unfold utility_inv, statics_of. intros Hu [Hm Ha]. destruct (statics__ u) as [s|]; cbn.
  - apply Hu.
  - by exists c.
Qed.

(** All cases of [request_client_id] in a state with the invariant. *)
Lemma request_client_id_cases c name client u : utility_inv u → configuration_ok c →
  let s := statics_of c u in
  let used := used_clients__ u in
  ∃ r u', request_client_id c name client u = Ret (r, u') ∧
    if bool_decide (client ≠ VSOMEIP_CLIENT_UNSET ∧ (used !! client = None ∨ used !! client = Some name))
    then r = client ∧ used_clients__ u' = <[client := name]> used ∧
         statics__ u' = Some s ∧ of_diagnosis_address s (next_client__ u')
    else searched s c name used (search_start s (next_client__ u)) r u'.
Proof.
  intros Hu Hc s used. pose proof (statics_of_valid c u Hu Hc) as Hs. fold s in Hs.
  unfold request_client_id. fold (statics_of c u). fold s.
  set (next := if bool_decide (next_client__ u = _) then _ else _).
  assert (Hnext : of_diagnosis_address s next).
  { subst next. case_bool_decide as E; [by apply smallest_of_address|].
    unfold utility_inv in Hu. subst s. unfold statics_of. destruct (statics__ u); naive_solver. }
  assert (Hst : search_start s (next_client__ u) =
    if bool_decide (next = its_biggest_client s) then its_smallest_client s else next).
  { unfold search_start. subst next. case_bool_decide; cbn [orb]; [|done].
    by case_bool_decide. }
  rewrite Hst. set (u1 := Utility next used (Some s)).
  destruct (request_any_spec s c name u1 Hs Hnext eq_refl) as (r&u'&Hr&Hsearch).
  cbn [used_clients__ next_client__ u1] in Hsearch. cbv zeta.
  destruct (decide (client = VSOMEIP_CLIENT_UNSET)) as [->|Hcl].
  { rewrite (bool_decide_false (_ ≠ _)) by (intros []; done).
    rewrite (bool_decide_false (_ ≠ _ ∧ _)) by (intros [[] _]; done). eauto. }
  rewrite (bool_decide_true (_ ≠ _)) by done. fold used. fold u1.
  change (used_clients__ u1) with used.
  destruct (used !! client) as [n|] eqn:E.
  - destruct (decide (n = name)) as [->|En].
    + rewrite (bool_decide_true (name = name)) by done.
      rewrite (bool_decide_true (_ ∧ _)) by auto. exists client, u1.
      split; [done|]. rewrite insert_id by done. done.
    + rewrite (bool_decide_false (n = name)) by done.
      rewrite (bool_decide_false (_ ∧ _)) by naive_solver. eauto.
  - rewrite (bool_decide_true (_ ∧ _)) by auto. do 2 eexists. split; [done|]. done.
Qed.

Lemma search_start_of_address s next : valid_statics s →
  next = VSOMEIP_CLIENT_UNSET ∨ of_diagnosis_address s next →
  of_diagnosis_address s (search_start s next).
Proof.
  intros Hs Hn. unfold search_start. pose proof (smallest_of_address s Hs).
  case_bool_decide; [done|]. case_bool_decide; [done|]. by destruct Hn.
Qed.

Lemma reachable_inv u : reachable u → utility_inv u.
Proof.
  induction 1 as [|c name client u r u' _ Hu Hc Hr|client u _ Hu|u _ Hu].
  - done.
  - destruct (request_client_id_cases c name client u Hu Hc) as (r0&u0&Hr0&H).
    rewrite Hr in Hr0. injection Hr0 as <- <-.
    pose proof (statics_of_valid c u Hu Hc) as Hs. unfold utility_inv.
    case_bool_decide.
    + destruct H as (_&_&->&Hn). auto.
    + destruct H as [-> [(Ha&_&_&_&_&->)|(_&_&->&_)]]; [by auto|]. split; [done|]. right.
      apply search_start_of_address; [done|]. unfold utility_inv in Hu. unfold statics_of.
      destruct (statics__ u); naive_solver.
  - exact Hu.
  - unfold utility_inv in *. cbn. destruct (statics__ u); naive_solver.
Qed.

(** C26: In every state a process can reach, [request_client_id] returns after at most
    [its_max_num_clients + 1] iterations.  A predefined identifier that is unused, or
    already held under the same name, is granted.  Otherwise the result is an identifier
    with the configured diagnosis address bits that no application holds and that no
    application is configured to use, and it is recorded for the name; or it is
    [VSOMEIP_CLIENT_UNSET], nothing is recorded, and every identifier of the diagnosis
    address is held or configured, except possibly the one the search started from. *)
Theorem request_client_id_spec c name client u : reachable u → configuration_ok c →
  let s := statics_of c u in
  let used := used_clients__ u in
  ∃ r u', request_client_id c name client u = Ret (r, u') ∧
    if bool_decide (client ≠ VSOMEIP_CLIENT_UNSET ∧ (used !! client = None ∨ used !! client = Some name))
    then r = client ∧ used_clients__ u' = <[client := name]> used ∧
         statics__ u' = Some s ∧ of_diagnosis_address s (next_client__ u')
    else searched s c name used (search_start s (next_client__ u)) r u'.
Proof. intros Hu Hc. apply request_client_id_cases; [by apply reachable_inv|done]. Qed.

(** A configuration with two bits for clients, and the states of a process that uses it. *)
Definition small_configuration : configuration := Configuration 0x10 0xFFFC {[0x1001]}.

Lemma request_client_id_spec_witness :
  ∃ r u', request_client_id small_configuration "a" VSOMEIP_CLIENT_UNSET utility_init = Ret (r, u') ∧
    r = 0x1002.
Proof.
  destruct (request_client_id_spec small_configuration "a" VSOMEIP_CLIENT_UNSET utility_init)
    as (r&u'&Hr&H).
  - apply reachable_init.
  - split; vm_compute; split; done.
  - exists r, u'. split; [done|]. vm_compute in Hr. by injection Hr as <- _.
Defined.

(** Four applications of a process that has four identifiers: the last one assigned is
    released again, and a request finds no identifier although that one is free. *)
Definition small_requests : outcome (Z * utility) :=
  let c := Configuration 0x10 0xFFFC ∅ in
  let any name u := request_client_id c name VSOMEIP_CLIENT_UNSET u in
  '(_, u) ← request_client_id c "a" 0x1000 utility_init;
  '(_, u) ← any "b" u;
  '(_, u) ← any "c" u;
  '(_, u) ← any "d" u;
  '(_, u) ← any "e" (release_client_id 0x1002 u);
  any "f" (release_client_id 0x1002 u).

Example released_client_not_reassigned :
  ∃ u, small_requests = Ret (VSOMEIP_CLIENT_UNSET, u) ∧ get_used_client_ids u = {[0x1000; 0x1001; 0x1003]}.
Proof. eexists. split; [vm_compute; reflexivity|]. vm_compute. reflexivity. Qed.
