(* ===== verification/Event.v ===== *)
(** Events and fields: [routing/src/event.cpp] with [routing/include/event.hpp], and the
    session counter of [runtime/src/application_impl.cpp] it draws from.

    An event holds the last payload in a notification message, the clients subscribed to
    each of its eventgroups, the references to it, and a timer for cyclic updates.  What
    it gives to the routing manager ([send], [send_to], which serialize the message at
    once) is kept in a list.  A [shared_ptr] to an endpoint definition is its identity,
    an integer; the null pointer is [None]. *)
From S2P Require Import Prelude ByteOrder Streams Message.

Inductive event_type_e : Type := ET_EVENT | ET_SELECTIVE_EVENT | ET_FIELD | ET_UNKNOWN.
Inductive reliability_type_e : Type := RT_RELIABLE | RT_UNRELIABLE | RT_BOTH | RT_UNKNOWN.

#[export] Instance event_type_e_eq_dec : EqDecision event_type_e.
Proof. solve_decision. Defined.
#[export] Instance reliability_type_e_eq_dec : EqDecision reliability_type_e.
Proof. solve_decision. Defined.

Definition ANY_CLIENT : Z := 0xFFFF.
Definition VSOMEIP_ROUTING_CLIENT : Z := 0.
Definition VSOMEIP_PROTOCOL_VERSION : Z := 0x1.
Definition DEFAULT_MAJOR : Z := 0x00.

(** ** The timer

    A [boost::asio::steady_timer]: its expiry time, the waits that a new expiry time or
    [cancel] aborts, and the waits that have expired, whose handlers are queued and will
    run without an error whatever happens to the timer. *)
Record steady_timer : Type := Timer { expiry : Z; waits : nat; queued : nat }.

Definition expires_from_now (now d : Z) (t : steady_timer) : steady_timer :=
  Timer (now + d) 0 (queued t).
Definition async_wait (t : steady_timer) : steady_timer :=
  Timer (expiry t) (S (waits t)) (queued t).
Definition timer_cancel (t : steady_timer) : steady_timer :=
  Timer (expiry t) 0 (queued t).

(** ** The event *)

Record event : Type := Event {
  ev_message_ : message_impl;
  ev_type_ : event_type_e;
  ev_cycle_timer_ : steady_timer;
  ev_cycle_ : Z;
  ev_change_resets_cycle_ : bool;
  ev_is_updating_on_change_ : bool;
  ev_eventgroups_ : gmap Z (gset Z);
  ev_is_set_ : bool;
  ev_is_provided_ : bool;
  ev_refs_ : gmap Z (gmap bool Z);
  ev_is_shadow_ : bool;
  ev_is_cache_placeholder_ : bool;
  ev_epsilon_change_func_ : payload_impl → payload_impl → bool;
  ev_reliability_ : reliability_type_e;
  ev_pending_ : gset Z
}.

Definition with_message (v : message_impl) (e : event) : event :=
  Event v (ev_type_ e) (ev_cycle_timer_ e) (ev_cycle_ e) (ev_change_resets_cycle_ e)
    (ev_is_updating_on_change_ e) (ev_eventgroups_ e) (ev_is_set_ e) (ev_is_provided_ e)
    (ev_refs_ e) (ev_is_shadow_ e) (ev_is_cache_placeholder_ e) (ev_epsilon_change_func_
    e) (ev_reliability_ e) (ev_pending_ e).
Definition with_type (v : event_type_e) (e : event) : event :=
  Event (ev_message_ e) v (ev_cycle_timer_ e) (ev_cycle_ e) (ev_change_resets_cycle_ e)
    (ev_is_updating_on_change_ e) (ev_eventgroups_ e) (ev_is_set_ e) (ev_is_provided_ e)
    (ev_refs_ e) (ev_is_shadow_ e) (ev_is_cache_placeholder_ e) (ev_epsilon_change_func_
    e) (ev_reliability_ e) (ev_pending_ e).
Definition with_cycle_timer (v : steady_timer) (e : event) : event :=
  Event (ev_message_ e) (ev_type_ e) v (ev_cycle_ e) (ev_change_resets_cycle_ e)
    (ev_is_updating_on_change_ e) (ev_eventgroups_ e) (ev_is_set_ e) (ev_is_provided_ e)
    (ev_refs_ e) (ev_is_shadow_ e) (ev_is_cache_placeholder_ e) (ev_epsilon_change_func_
    e) (ev_reliability_ e) (ev_pending_ e).
Definition with_cycle (v : Z) (e : event) : event :=
  Event (ev_message_ e) (ev_type_ e) (ev_cycle_timer_ e) v (ev_change_resets_cycle_ e)
    (ev_is_updating_on_change_ e) (ev_eventgroups_ e) (ev_is_set_ e) (ev_is_provided_ e)
    (ev_refs_ e) (ev_is_shadow_ e) (ev_is_cache_placeholder_ e) (ev_epsilon_change_func_
    e) (ev_reliability_ e) (ev_pending_ e).
Definition with_change_resets_cycle (v : bool) (e : event) : event :=
  Event (ev_message_ e) (ev_type_ e) (ev_cycle_timer_ e) (ev_cycle_ e) v
    (ev_is_updating_on_change_ e) (ev_eventgroups_ e) (ev_is_set_ e) (ev_is_provided_ e)
    (ev_refs_ e) (ev_is_shadow_ e) (ev_is_cache_placeholder_ e) (ev_epsilon_change_func_
    e) (ev_reliability_ e) (ev_pending_ e).
Definition with_is_updating_on_change (v : bool) (e : event) : event :=
  Event (ev_message_ e) (ev_type_ e) (ev_cycle_timer_ e) (ev_cycle_ e)
    (ev_change_resets_cycle_ e) v (ev_eventgroups_ e) (ev_is_set_ e) (ev_is_provided_ e)
    (ev_refs_ e) (ev_is_shadow_ e) (ev_is_cache_placeholder_ e) (ev_epsilon_change_func_
    e) (ev_reliability_ e) (ev_pending_ e).
Definition with_eventgroups (v : gmap Z (gset Z)) (e : event) : event :=
  Event (ev_message_ e) (ev_type_ e) (ev_cycle_timer_ e) (ev_cycle_ e)
    (ev_change_resets_cycle_ e) (ev_is_updating_on_change_ e) v (ev_is_set_ e)
    (ev_is_provided_ e) (ev_refs_ e) (ev_is_shadow_ e) (ev_is_cache_placeholder_ e)
    (ev_epsilon_change_func_ e) (ev_reliability_ e) (ev_pending_ e).
Definition with_is_set (v : bool) (e : event) : event :=
  Event (ev_message_ e) (ev_type_ e) (ev_cycle_timer_ e) (ev_cycle_ e)
    (ev_change_resets_cycle_ e) (ev_is_updating_on_change_ e) (ev_eventgroups_ e) v
    (ev_is_provided_ e) (ev_refs_ e) (ev_is_shadow_ e) (ev_is_cache_placeholder_ e)
    (ev_epsilon_change_func_ e) (ev_reliability_ e) (ev_pending_ e).
Definition with_is_provided (v : bool) (e : event) : event :=
  Event (ev_message_ e) (ev_type_ e) (ev_cycle_timer_ e) (ev_cycle_ e)
    (ev_change_resets_cycle_ e) (ev_is_updating_on_change_ e) (ev_eventgroups_ e)
    (ev_is_set_ e) v (ev_refs_ e) (ev_is_shadow_ e) (ev_is_cache_placeholder_ e)
    (ev_epsilon_change_func_ e) (ev_reliability_ e) (ev_pending_ e).
Definition with_refs (v : gmap Z (gmap bool Z)) (e : event) : event :=
  Event (ev_message_ e) (ev_type_ e) (ev_cycle_timer_ e) (ev_cycle_ e)
    (ev_change_resets_cycle_ e) (ev_is_updating_on_change_ e) (ev_eventgroups_ e)
    (ev_is_set_ e) (ev_is_provided_ e) v (ev_is_shadow_ e) (ev_is_cache_placeholder_ e)
    (ev_epsilon_change_func_ e) (ev_reliability_ e) (ev_pending_ e).
Definition with_is_shadow (v : bool) (e : event) : event :=
  Event (ev_message_ e) (ev_type_ e) (ev_cycle_timer_ e) (ev_cycle_ e)
    (ev_change_resets_cycle_ e) (ev_is_updating_on_change_ e) (ev_eventgroups_ e)
    (ev_is_set_ e) (ev_is_provided_ e) (ev_refs_ e) v (ev_is_cache_placeholder_ e)
    (ev_epsilon_change_func_ e) (ev_reliability_ e) (ev_pending_ e).
Definition with_is_cache_placeholder (v : bool) (e : event) : event :=
  Event (ev_message_ e) (ev_type_ e) (ev_cycle_timer_ e) (ev_cycle_ e)
    (ev_change_resets_cycle_ e) (ev_is_updating_on_change_ e) (ev_eventgroups_ e)
    (ev_is_set_ e) (ev_is_provided_ e) (ev_refs_ e) (ev_is_shadow_ e) v
    (ev_epsilon_change_func_ e) (ev_reliability_ e) (ev_pending_ e).
Definition with_epsilon_change_func (v : payload_impl → payload_impl → bool) (e : event) : event :=
  Event (ev_message_ e) (ev_type_ e) (ev_cycle_timer_ e) (ev_cycle_ e)
    (ev_change_resets_cycle_ e) (ev_is_updating_on_change_ e) (ev_eventgroups_ e)
    (ev_is_set_ e) (ev_is_provided_ e) (ev_refs_ e) (ev_is_shadow_ e)
    (ev_is_cache_placeholder_ e) v (ev_reliability_ e) (ev_pending_ e).
Definition with_reliability (v : reliability_type_e) (e : event) : event :=
  Event (ev_message_ e) (ev_type_ e) (ev_cycle_timer_ e) (ev_cycle_ e)
    (ev_change_resets_cycle_ e) (ev_is_updating_on_change_ e) (ev_eventgroups_ e)
    (ev_is_set_ e) (ev_is_provided_ e) (ev_refs_ e) (ev_is_shadow_ e)
    (ev_is_cache_placeholder_ e) (ev_epsilon_change_func_ e) v (ev_pending_ e).
Definition with_pending (v : gset Z) (e : event) : event :=
  Event (ev_message_ e) (ev_type_ e) (ev_cycle_timer_ e) (ev_cycle_ e)
    (ev_change_resets_cycle_ e) (ev_is_updating_on_change_ e) (ev_eventgroups_ e)
    (ev_is_set_ e) (ev_is_provided_ e) (ev_refs_ e) (ev_is_shadow_ e)
    (ev_is_cache_placeholder_ e) (ev_epsilon_change_func_ e) (ev_reliability_ e) v.

(** What is handed to the routing manager. *)
Inductive sending : Type :=
| Send (client : Z) (m : message_impl)
| SendTo (client : Z) (target : Z) (m : message_impl).

(** The event, the clock, the session counter of the application, and what was sent. *)
Record world : Type := World {
  ev : event;
  now : Z;
  has_session_handling_ : bool;
  app_session_ : Z;
  sent : list sending
}.

Definition upd (f : event → event) : ST world () :=
  st_modify (λ w, World (f (ev w)) (now w) (has_session_handling_ w) (app_session_ w) (sent w)).
Definition this {A} (f : event → A) : ST world A := w ← st_get; mret (f (ev w)).
Definition emit (a : sending) : ST world () :=
  st_modify (λ w, World (ev w) (now w) (has_session_handling_ w) (app_session_ w) (sent w ++ [a])).

(** [application_impl::get_session]. *)
Definition get_session : ST world Z :=
  w ← st_get;
  if negb (has_session_handling_ w) then mret 0
  else
    let s := u16 (app_session_ w + 1) in
    let s := if bool_decide (s = 0) then 1 else s in
    st_modify (λ w, World (ev w) (now w) (has_session_handling_ w) s (sent w));;
    mret s.

(** [runtime_impl::create_notification] with its default argument. *)
Definition create_notification : message_impl :=
  Message
    (set_interface_version DEFAULT_MAJOR (set_reliable false (set_return_code E_OK
      (set_message_type MT_NOTIFICATION (set_protocol_version VSOMEIP_PROTOCOL_VERSION
        (base message_new))))))
    (payload_ message_new) (check_result_ message_new) (uid_ message_new) (gid_ message_new).

Definition on_base (f : message_base → message_base) (m : message_impl) : message_impl :=
  Message (f (base m)) (payload_ m) (check_result_ m) (uid_ m) (gid_ m).

(** [event::compare]: the loop over the bytes of two payloads of the same length. *)
Fixpoint compare_bytes (old new : list Z) : bool :=
  match old, new with
  | x :: old, y :: new => if bool_decide (x ≠ y) then true else compare_bytes old new
  | _, _ => false
  end.
Definition compare (lhs rhs : payload_impl) : bool :=
  if bool_decide (payload_get_length lhs ≠ payload_get_length rhs) then true
  else compare_bytes (velems (pl_data_ lhs)) (velems (pl_data_ rhs)).

Definition event_new (is_shadow : bool) : event :=
  Event create_notification ET_EVENT (Timer 0 0 0) 0 false true ∅ false false ∅ is_shadow
    false compare RT_UNKNOWN ∅.

Definition set_event_service (v : Z) (e : event) : event :=
  with_message (on_base (set_service v) (ev_message_ e)) e.
Definition set_event_instance (v : Z) (e : event) : event :=
  with_message (on_base (set_instance v) (ev_message_ e)) e.
Definition set_version (v : Z) (e : event) : event :=
  with_message (on_base (set_interface_version v) (ev_message_ e)) e.
Definition set_event (v : Z) (e : event) : event :=
  with_message (on_base (set_method v) (ev_message_ e)) e.
Definition get_event (e : event) : Z := method_ (header_ (base (ev_message_ e))).
Definition is_field (e : event) : bool := bool_decide (ev_type_ e = ET_FIELD).
Definition event_get_payload (e : event) : option payload_impl := payload_ (ev_message_ e).

(** ** Cyclic updates *)

Definition start_cycle : ST world () :=
  w ← st_get;
  if bool_decide (0 ≠ ev_cycle_ (ev w)) then
    upd (λ e, with_cycle_timer (async_wait (expires_from_now (now w) (ev_cycle_ e) (ev_cycle_timer_ e))) e)
  else mret ().

Definition stop_cycle : ST world () :=
  cycle ← this ev_cycle_;
  if bool_decide (0 ≠ cycle) then upd (λ e, with_cycle_timer (timer_cancel (ev_cycle_timer_ e)) e)
  else mret ().

(** [message_->set_session(routing_->get_session())]. *)
Definition stamp_session : ST world () :=
  s ← get_session; upd (λ e, with_message (on_base (set_session s) (ev_message_ e)) e).

Definition notify : ST world () :=
  is_set ← this ev_is_set_;
  if (is_set : bool) then
    stamp_session;;
    m ← this ev_message_;
    emit (Send VSOMEIP_ROUTING_CLIENT m)
  else mret ().

Definition update_cbk (error : bool) : ST world () :=
  if negb error then
    w ← st_get;
    upd (λ e, with_cycle_timer (expires_from_now (now w) (ev_cycle_ e) (ev_cycle_timer_ e)) e);;
    notify;;
    upd (λ e, with_cycle_timer (async_wait (ev_cycle_timer_ e)) e)
  else mret ().

(** ** Notifying one receiver *)

Definition notify_one_unlocked_to (client : Z) (target : option Z) : ST world () :=
  match target with
  | Some t =>
      is_set ← this ev_is_set_;
      if (is_set : bool) then
        stamp_session;;
        m ← this ev_message_;
        emit (SendTo client t m)
      else upd (λ e, with_pending ({[t]} ∪ ev_pending_ e) e)
  | None => mret ()
  end.

Definition notify_one_to (client : Z) (target : option Z) : ST world () :=
  match target with
  | Some _ => notify_one_unlocked_to client target
  | None => mret ()
  end.

Definition notify_one_unlocked (client : Z) : ST world () :=
  is_set ← this ev_is_set_;
  if (is_set : bool) then
    stamp_session;;
    m ← this ev_message_;
    emit (Send client m)
  else mret ().

Definition notify_one (client : Z) : ST world () := notify_one_unlocked client.

(** ** Payloads *)

Definition set_payload_helper (payload : payload_impl) (force : bool) : ST world bool :=
  e ← this id;
  match ev_type_ e with
  | ET_FIELD =>
      if force then mret true
      else st_lift (match event_get_payload e with
                    | Some its_payload => Ret (ev_epsilon_change_func_ e its_payload payload)
                    | None => Undef
                    end)
  | _ => mret true
  end.

Definition reset_payload (payload : payload_impl) : ST world () :=
  let its_new_payload := payload_of (velems (pl_data_ payload)) in
  upd (λ e, with_message (message_set_payload (Some its_new_payload) (ev_message_ e)) e);;
  is_set ← this ev_is_set_;
  (if negb is_set then start_cycle else mret ());;
  upd (with_is_set true).

Definition set_payload_dont_notify (payload : payload_impl) : ST world bool :=
  placeholder ← this ev_is_cache_placeholder_;
  if (placeholder : bool) then
    reset_payload payload;; upd (with_is_set true);; mret true
  else
    changed ← set_payload_helper payload false;
    if (changed : bool) then reset_payload payload;; mret true else mret false.

Definition set_payload (payload : payload_impl) (force : bool) : ST world () :=
  e ← this id;
  if ev_is_provided_ e then
    changed ← set_payload_helper payload force;
    if (changed : bool) then
      reset_payload payload;;
      if ev_is_updating_on_change_ e then
        (if ev_change_resets_cycle_ e then stop_cycle else mret ());;
        notify;;
        (if ev_change_resets_cycle_ e then start_cycle else mret ())
      else mret ()
    else mret ()
  else mret ().

Definition set_payload_client (payload : payload_impl) (client : Z) (force : bool) : ST world () :=
  e ← this id;
  if ev_is_provided_ e then
    changed ← set_payload_helper payload force;
    if (changed : bool) then
      reset_payload payload;;
      if ev_is_updating_on_change_ e then notify_one_unlocked client else mret ()
    else mret ()
  else mret ().

Definition set_payload_target (payload : payload_impl) (client : Z) (target : option Z)
    (force : bool) : ST world () :=
  e ← this id;
  if ev_is_provided_ e then
    changed ← set_payload_helper payload force;
    if (changed : bool) then
      reset_payload payload;;
      if ev_is_updating_on_change_ e then notify_one_unlocked_to client target else mret ()
    else mret ()
  else mret ().

(** The loop that sends the pending initial events. *)
Fixpoint send_pending (targets : list Z) : ST world () :=
  match targets with
  | [] => mret ()
  | t :: targets =>
      stamp_session;;
      m ← this ev_message_;
      emit (SendTo VSOMEIP_ROUTING_CLIENT t m);;
      send_pending targets
  end.

Definition set_payload_notify_pending (payload : payload_impl) : ST world bool :=
  e ← this id;
  if negb (ev_is_set_ e) && ev_is_provided_ e then
    reset_payload payload;;
    pending ← this ev_pending_;
    send_pending (elements pending);;
    upd (with_pending ∅);;
    mret true
  else mret false.

Definition clear_payload : ST world () :=
  upd (with_is_set false);;
  stop_cycle;;
  upd (λ e, with_message (message_set_payload (Some payload_new) (ev_message_ e)) e).

Definition unset_payload (force : bool) : ST world () :=
  if force then clear_payload
  else
    provided ← this ev_is_provided_;
    if (provided : bool) then clear_payload else mret ().

Definition set_update_cycle (cycle : Z) : ST world () :=
  provided ← this ev_is_provided_;
  if (provided : bool) then stop_cycle;; upd (with_cycle cycle);; start_cycle else mret ().

Definition set_update_on_change (is_active : bool) (e : event) : event :=
  if ev_is_provided_ e then with_is_updating_on_change is_active e else e.

(** An empty [std::function] is [None]. *)
Definition set_epsilon_change_function (f : option (payload_impl → payload_impl → bool))
    (e : event) : event :=
  match f with Some f => with_epsilon_change_func f e | None => e end.

Definition remove_pending (target : Z) (e : event) : event :=
  with_pending (ev_pending_ e ∖ {[target]}) e.

(** ** Eventgroups and subscribers *)

Definition get_eventgroups (e : event) : gset Z := dom (ev_eventgroups_ e).
Definition get_eventgroups_of (client : Z) (e : event) : gset Z :=
  dom (filter (λ x, client ∈ x.2) (ev_eventgroups_ e)).
Definition add_eventgroup (g : Z) (e : event) : event :=
  match ev_eventgroups_ e !! g with
  | None => with_eventgroups (<[g := ∅]> (ev_eventgroups_ e)) e
  | Some _ => e
  end.
Definition set_eventgroups (gs : gset Z) (e : event) : event :=
  with_eventgroups (set_fold (λ g m, <[g := ∅]> m) (ev_eventgroups_ e) gs) e.

(** [eventgroups_[_eventgroup].insert(_client).second]. *)
Definition add_subscriber (g client : Z) (force : bool) (e : event) : bool * event :=
  if force || ev_is_provided_ e || ev_is_shadow_ e || ev_is_cache_placeholder_ e then
    let clients := default ∅ (ev_eventgroups_ e !! g) in
    (bool_decide (client ∉ clients),
     with_eventgroups (<[g := {[client]} ∪ clients]> (ev_eventgroups_ e)) e)
  else (false, e).
Definition remove_subscriber (g client : Z) (e : event) : event :=
  match ev_eventgroups_ e !! g with
  | Some clients => with_eventgroups (<[g := clients ∖ {[client]}]> (ev_eventgroups_ e)) e
  | None => e
  end.
Definition has_subscriber (g client : Z) (e : event) : bool :=
  match ev_eventgroups_ e !! g with
  | Some clients =>
      if bool_decide (client = ANY_CLIENT) then bool_decide (0 < Z.of_nat (size clients))
      else bool_decide (client ∈ clients)
  | None => false
  end.
Definition get_subscribers (e : event) : gset Z :=
  map_fold (λ _ clients acc, clients ∪ acc) ∅ (ev_eventgroups_ e).
Definition get_subscribers_of (g : Z) (e : event) : gset Z :=
  default ∅ (ev_eventgroups_ e !! g).
Definition clear_subscribers (e : event) : event :=
  with_eventgroups ((λ _, ∅) <$> ev_eventgroups_ e) e.
Definition is_subscribed (client : Z) (e : event) : bool :=
  existsb (λ x : Z * gset Z, bool_decide (client ∈ x.2)) (map_to_list (ev_eventgroups_ e)).

(** ** References *)

Definition add_ref (client : Z) (is_provided : bool) (e : event) : event :=
  match ev_refs_ e !! client with
  | None => with_refs (<[client := {[is_provided := 1]}]> (ev_refs_ e)) e
  | Some m =>
      match m !! is_provided with
      | None => with_refs (<[client := <[is_provided := 1]> m]> (ev_refs_ e)) e
      | Some n => with_refs (<[client := <[is_provided := u32 (n + 1)]> m]> (ev_refs_ e)) e
      end
  end.
Definition remove_ref (client : Z) (is_provided : bool) (e : event) : event :=
  match ev_refs_ e !! client with
  | Some m =>
      match m !! is_provided with
      | Some n =>
          let n := u32 (n - 1) in
          if bool_decide (n = 0) then
            let m := delete is_provided m in
            if bool_decide (m = ∅) then with_refs (delete client (ev_refs_ e)) e
            else with_refs (<[client := m]> (ev_refs_ e)) e
          else with_refs (<[client := <[is_provided := n]> m]> (ev_refs_ e)) e
      | None => e
      end
  | None => e
  end.
Definition has_any_ref (e : event) : bool := bool_decide (ev_refs_ e ≠ ∅).
Definition has_ref (client : Z) (is_provided : bool) (e : event) : bool :=
  match ev_refs_ e !! client with
  | Some m => match m !! is_provided with Some n => bool_decide (n > 0) | None => false end
  | None => false
  end.

(** ** The operations as functions of the world *)

Definition on_event (f : event → event) (w : world) : world :=
  World (f (ev w)) (now w) (has_session_handling_ w) (app_session_ w) (sent w).

(** The session of the next message, never 0 while sessions are handled. *)
Definition next_session (w : world) : Z :=
  if has_session_handling_ w then
    let s := u16 (app_session_ w + 1) in if bool_decide (s = 0) then 1 else s
  else 0.

(** The world after the message got its session. *)
Definition stamped (w : world) : world :=
  World (with_message (on_base (set_session (next_session w)) (ev_message_ (ev w))) (ev w))
    (now w) (has_session_handling_ w)
    (if has_session_handling_ w then next_session w else app_session_ w) (sent w).

(** The world after the stamped message was handed over. *)
Definition sent_out (a : message_impl → sending) (w : world) : world :=
  let w := stamped w in
  World (ev w) (now w) (has_session_handling_ w) (app_session_ w) (sent w ++ [a (ev_message_ (ev w))]).

Lemma upd_eq f w : upd f w = Ret ((), on_event f w).
Proof. done. Qed.

Lemma stamp_session_eq w : stamp_session w = Ret ((), stamped w).
Proof.
  unfold stamp_session, get_session, stamped, next_session. destruct w as [e t h s l].
  by destruct h.
Qed.

(** The notification that the bodies of [notify] and its variants end in. *)
Lemma stamp_send_eq (a : message_impl → sending) w :
  (stamp_session;; m ← this ev_message_; emit (a m)) w = Ret ((), sent_out a w).
Proof. rewrite (st_bind_Ret _ _ _ _ _ (stamp_session_eq w)). done. Qed.

Lemma notify_eq w : notify w =
  Ret ((), if ev_is_set_ (ev w) then sent_out (Send VSOMEIP_ROUTING_CLIENT) w else w).
Proof.
  unfold notify. rewrite (st_bind_Ret _ _ _ _ _ (eq_refl : this ev_is_set_ w = Ret (_, _))).
  destruct (ev_is_set_ (ev w)); [apply stamp_send_eq|done].
Qed.

Lemma notify_one_unlocked_eq c w : notify_one_unlocked c w =
  Ret ((), if ev_is_set_ (ev w) then sent_out (Send c) w else w).
Proof.
  unfold notify_one_unlocked. rewrite (st_bind_Ret _ _ _ _ _ (eq_refl : this ev_is_set_ w = Ret (_, _))).
  destruct (ev_is_set_ (ev w)); [apply stamp_send_eq|done].
Qed.

Lemma notify_one_to_eq c t w : notify_one_to c (Some t) w =
  Ret ((), if ev_is_set_ (ev w) then sent_out (SendTo c t) w
           else on_event (λ e, with_pending ({[t]} ∪ ev_pending_ e) e) w).
Proof.
  unfold notify_one_to, notify_one_unlocked_to.
  rewrite (st_bind_Ret _ _ _ _ _ (eq_refl : this ev_is_set_ w = Ret (_, _))).
  destruct (ev_is_set_ (ev w)); [apply stamp_send_eq|done].
Qed.

Definition started (w : world) : world :=
  if bool_decide (0 ≠ ev_cycle_ (ev w)) then
    on_event (λ e, with_cycle_timer (async_wait (expires_from_now (now w) (ev_cycle_ e) (ev_cycle_timer_ e))) e) w
  else w.
Definition stopped (w : world) : world :=
  if bool_decide (0 ≠ ev_cycle_ (ev w)) then
    on_event (λ e, with_cycle_timer (timer_cancel (ev_cycle_timer_ e)) e) w
  else w.

Lemma start_cycle_eq w : start_cycle w = Ret ((), started w).
Proof. unfold start_cycle, started. st_run. by case_bool_decide. Qed.
Lemma stop_cycle_eq w : stop_cycle w = Ret ((), stopped w).
Proof. unfold stop_cycle, stopped, this. st_run. by case_bool_decide. Qed.

(** The world after [reset_payload]. *)
Definition with_payload (p : payload_impl) (w : world) : world :=
  on_event (λ e, with_message
    (message_set_payload (Some (payload_of (velems (pl_data_ p)))) (ev_message_ e)) e) w.
Definition payload_reset (p : payload_impl) (w : world) : world :=
  on_event (with_is_set true)
    (if ev_is_set_ (ev w) then with_payload p w else started (with_payload p w)).

Lemma reset_payload_eq p w : reset_payload p w = Ret ((), payload_reset p w).
Proof.
  unfold reset_payload, payload_reset. cbv zeta.
  rewrite (st_bind_Ret _ _ _ _ _ (upd_eq _ w)).
  change (on_event _ w) with (with_payload p w).
  rewrite (st_bind_Ret _ _ _ _ _ (eq_refl : this ev_is_set_ (with_payload p w) = Ret (_, _))).
  change (ev_is_set_ (ev (with_payload p w))) with (ev_is_set_ (ev w)).
  destruct (ev_is_set_ (ev w)); cbn [negb]; [done|].
  by rewrite (st_bind_Ret _ _ _ _ _ (start_cycle_eq _)).
Qed.

(** Whether a payload counts as a change: always for an event, for a field if it is
    forced or the change function says so. *)
Definition is_change (e : event) (p : payload_impl) (force : bool) : bool :=
  negb (is_field e) || force ||
  match event_get_payload e with Some old => ev_epsilon_change_func_ e old p | None => false end.

Lemma set_payload_helper_eq p force w : is_Some (event_get_payload (ev w)) →
  set_payload_helper p force w = Ret (is_change (ev w) p force, w).
Proof.
  intros [old Hold]. unfold set_payload_helper, is_change, is_field.
  rewrite (st_bind_Ret _ _ _ _ _ (eq_refl : this id w = Ret (_, _))). cbn [id].
  destruct (ev_type_ (ev w)); cbn [negb orb];
    try (rewrite bool_decide_false by done; done).
  rewrite bool_decide_true by done. cbn [negb orb].
  destruct force; [done|]. by rewrite Hold.
Qed.

(** Run the next call with its equation. *)
Ltac st_step E := rewrite (st_bind_Ret _ _ _ _ _ E); cbv beta zeta.

Definition restarting (b : bool) (w : world) : world := if b then started w else w.
Definition stopping (b : bool) (w : world) : world := if b then stopped w else w.

(** The world after a payload was stored and notified to all. *)
Definition notified (p : payload_impl) (w : world) : world :=
  let r := ev_change_resets_cycle_ (ev w) in
  restarting r (sent_out (Send VSOMEIP_ROUTING_CLIENT) (stopping r (payload_reset p w))).

Lemma started_is_set w : ev_is_set_ (ev (started w)) = ev_is_set_ (ev w).
Proof. unfold started. by case_bool_decide. Qed.
Lemma stopped_is_set w : ev_is_set_ (ev (stopped w)) = ev_is_set_ (ev w).
Proof. unfold stopped. by case_bool_decide. Qed.
Lemma payload_reset_is_set p w : ev_is_set_ (ev (payload_reset p w)) = true.
Proof. done. Qed.

Section payload_equations.
  Context (p : payload_impl) (w : world) (Hw : is_Some (event_get_payload (ev w))).
Let e := ev w.

(** The common head of the three variants of [set_payload]. *)
Lemma set_payload_head force (k : event → ST world ()) :
  (e ← this id;
   if ev_is_provided_ e then
     changed ← set_payload_helper p force;
     if (changed : bool) then reset_payload p;; k e else mret ()
   else mret ()) w =
  if ev_is_provided_ e && is_change e p force then k e (payload_reset p w) else Ret ((), w).
Proof.
  st_step (eq_refl : this id w = Ret (_, _)). cbn [id]. fold e.
  destruct (ev_is_provided_ e); cbn [andb]; [|done].
  st_step (set_payload_helper_eq p force w Hw). fold e.
  destruct (is_change e p force); [|done]. st_step (reset_payload_eq p w). done.
Qed.

Lemma set_payload_eq force : set_payload p force w = Ret ((),
  if ev_is_provided_ e && is_change e p force then
    if ev_is_updating_on_change_ e then notified p w else payload_reset p w
  else w).
Proof.
  unfold set_payload. rewrite (set_payload_head force (λ e,
    if ev_is_updating_on_change_ e then
      (if ev_change_resets_cycle_ e then stop_cycle else mret ());;
      notify;;
      (if ev_change_resets_cycle_ e then start_cycle else mret ())
    else mret ())).
  destruct (_ && _); [|done]. destruct (ev_is_updating_on_change_ e); [|done].
  unfold notified, restarting, stopping. fold e.
  destruct (ev_change_resets_cycle_ e); cbv zeta.
  - st_step (stop_cycle_eq (payload_reset p w)). st_step (notify_eq (stopped (payload_reset p w))).
    rewrite stopped_is_set, payload_reset_is_set. apply start_cycle_eq.
  - st_step (st_mret_eq () (payload_reset p w)). by st_step (notify_eq (payload_reset p w)).
Qed.

Lemma set_payload_client_eq client force : set_payload_client p client force w = Ret ((),
  if ev_is_provided_ e && is_change e p force then
    if ev_is_updating_on_change_ e then sent_out (Send client) (payload_reset p w)
    else payload_reset p w
  else w).
Proof.
  unfold set_payload_client. rewrite (set_payload_head force (λ e,
    if ev_is_updating_on_change_ e then notify_one_unlocked client else mret ())).
  destruct (_ && _); [|done]. destruct (ev_is_updating_on_change_ e); [|done].
  rewrite notify_one_unlocked_eq. by rewrite payload_reset_is_set.
Qed.

Lemma set_payload_target_eq client target force :
  set_payload_target p client target force w = Ret ((),
  if ev_is_provided_ e && is_change e p force then
    match target with
    | Some t => if ev_is_updating_on_change_ e then sent_out (SendTo client t) (payload_reset p w)
                else payload_reset p w
    | None => payload_reset p w
    end
  else w).
Proof.
  unfold set_payload_target. rewrite (set_payload_head force (λ e,
    if ev_is_updating_on_change_ e then notify_one_unlocked_to client target else mret ())).
  destruct (_ && _); [|done]. destruct (ev_is_updating_on_change_ e), target as [t|]; try done.
  change (notify_one_unlocked_to client (Some t)) with (notify_one_to client (Some t)).
  rewrite notify_one_to_eq. by rewrite payload_reset_is_set.
Qed.

Lemma set_payload_dont_notify_eq : set_payload_dont_notify p w =
  let b := ev_is_cache_placeholder_ e || is_change e p false in
  Ret (b, if b then payload_reset p w else w).
Proof.
  unfold set_payload_dont_notify. st_step (eq_refl : this ev_is_cache_placeholder_ w = Ret (_, _)).
  fold e. destruct (ev_is_cache_placeholder_ e); cbn [orb].
  - st_step (reset_payload_eq p w). done.
  - st_step (set_payload_helper_eq p false w Hw). fold e. destruct (is_change e p false); [|done].
    by st_step (reset_payload_eq p w).
Qed.
End payload_equations.

(** The world after the pending initial events were sent to the given targets. *)
Definition sent_pending (targets : list Z) (w : world) : world :=
  foldl (λ w t, sent_out (SendTo VSOMEIP_ROUTING_CLIENT t) w) w targets.

Lemma send_pending_eq targets w : send_pending targets w = Ret ((), sent_pending targets w).
Proof.
  revert w. induction targets as [|t targets IH]; intros w; [done|]. cbn [send_pending].
  st_step (stamp_session_eq w). st_step (eq_refl : this ev_message_ (stamped w) = Ret (_, _)).
  st_step (eq_refl : emit (SendTo VSOMEIP_ROUTING_CLIENT t (ev_message_ (ev (stamped w)))) (stamped w)
    = Ret ((), sent_out (SendTo VSOMEIP_ROUTING_CLIENT t) w)).
  apply IH.
Qed.

Lemma set_payload_notify_pending_eq p w : set_payload_notify_pending p w =
  if negb (ev_is_set_ (ev w)) && ev_is_provided_ (ev w) then
    Ret (true, on_event (with_pending ∅)
      (sent_pending (elements (ev_pending_ (ev w))) (payload_reset p w)))
  else Ret (false, w).
Proof.
  unfold set_payload_notify_pending. st_step (eq_refl : this id w = Ret (_, _)). cbn [id].
  destruct (negb _ && _); [|done]. st_step (reset_payload_eq p w).
  st_step (eq_refl : this ev_pending_ (payload_reset p w) = Ret (_, _)).
  assert (ev_pending_ (ev (payload_reset p w)) = ev_pending_ (ev w)) as ->.
  { unfold payload_reset, started. destruct (ev_is_set_ _); [done|]. by case_bool_decide. }
  st_step (send_pending_eq (elements (ev_pending_ (ev w))) (payload_reset p w)). done.
Qed.

Definition cleared (w : world) : world :=
  on_event (λ e, with_message (message_set_payload (Some payload_new) (ev_message_ e)) e)
    (stopped (on_event (with_is_set false) w)).

Lemma unset_payload_eq force w : unset_payload force w =
  Ret ((), if force || ev_is_provided_ (ev w) then cleared w else w).
Proof.
  assert (Hc : clear_payload w = Ret ((), cleared w)).
  { unfold clear_payload. st_step (upd_eq (with_is_set false) w).
    by st_step (stop_cycle_eq (on_event (with_is_set false) w)). }
  unfold unset_payload. destruct force; [exact Hc|].
  st_step (eq_refl : this ev_is_provided_ w = Ret (_, _)). by destruct (ev_is_provided_ (ev w)).
Qed.

Lemma set_update_cycle_eq c w : set_update_cycle c w =
  Ret ((), if ev_is_provided_ (ev w) then started (on_event (with_cycle c) (stopped w)) else w).
Proof.
  unfold set_update_cycle. st_step (eq_refl : this ev_is_provided_ w = Ret (_, _)).
  destruct (ev_is_provided_ (ev w)); [|done]. st_step (stop_cycle_eq w).
  st_step (upd_eq (with_cycle c) (stopped w)). apply start_cycle_eq.
Qed.

(** The world after the handler of the timer ran without an error. *)
Definition cycled (w : world) : world :=
  let w1 := on_event (λ e, with_cycle_timer
    (expires_from_now (now w) (ev_cycle_ e) (ev_cycle_timer_ e)) e) w in
  on_event (λ e, with_cycle_timer (async_wait (ev_cycle_timer_ e)) e)
    (if ev_is_set_ (ev w) then sent_out (Send VSOMEIP_ROUTING_CLIENT) w1 else w1).

Lemma update_cbk_eq error w : update_cbk error w = Ret ((), if error then w else cycled w).
Proof.
  unfold update_cbk. destruct error; cbn [negb]; [done|].
  st_step (eq_refl : st_get w = Ret (_, _)).
  set (f := λ e, with_cycle_timer (expires_from_now (now w) (ev_cycle_ e) (ev_cycle_timer_ e)) e).
  st_step (upd_eq f w). set (w1 := on_event f w). st_step (notify_eq w1).
  unfold cycled. cbv zeta. fold w1. change (ev_is_set_ (ev w1)) with (ev_is_set_ (ev w)).
  by destruct (ev_is_set_ (ev w)).
Qed.

(** ** What setting a payload does *)

Lemma compare_bytes_decides l1 l2 : length l1 = length l2 →
  compare_bytes l1 l2 = bool_decide (l1 ≠ l2).
Proof.
  revert l2. induction l1 as [|x l1 IH]; intros [|y l2] Hl; try done; cbn [compare_bytes].
  destruct (decide (x = y)) as [->|Hxy].
  - rewrite (bool_decide_false (y ≠ y)) by (intros []; done).
    rewrite IH by (by injection Hl). apply bool_decide_ext. naive_solver.
  - rewrite !bool_decide_true by naive_solver. done.
Qed.

(** Payloads are shorter than 4 GiB. *)
Definition payload_ok (p : payload_impl) : Prop := is_u32 (Z.of_nat (length (velems (pl_data_ p)))).

(** The default comparison decides whether the bytes differ. *)
Lemma compare_decides p q : payload_ok p → payload_ok q →
  compare p q = bool_decide (velems (pl_data_ p) ≠ velems (pl_data_ q)).
Proof.
  unfold compare, payload_get_length. intros Hp Hq. rewrite !u32_id by done.
  case_bool_decide as Hl.
  - rewrite bool_decide_true; [done|]. intros E. apply Hl. by rewrite E.
  - apply compare_bytes_decides. by apply Nat2Z.inj.
Qed.

(** What [f] keeps of an event: everything but message, timer and [is_set_]. *)
Definition same_frame (e e' : event) : Prop :=
  ev_type_ e' = ev_type_ e ∧ ev_cycle_ e' = ev_cycle_ e ∧
  ev_eventgroups_ e' = ev_eventgroups_ e ∧ ev_is_provided_ e' = ev_is_provided_ e ∧
  ev_refs_ e' = ev_refs_ e ∧ ev_pending_ e' = ev_pending_ e ∧
  ev_reliability_ e' = ev_reliability_ e.

Lemma started_frame w : same_frame (ev w) (ev (started w)) ∧
  ev_message_ (ev (started w)) = ev_message_ (ev w) ∧ sent (started w) = sent w ∧
  next_session (started w) = next_session w.
Proof. unfold started. case_bool_decide; done. Qed.
Lemma stopped_frame w : same_frame (ev w) (ev (stopped w)) ∧
  ev_message_ (ev (stopped w)) = ev_message_ (ev w) ∧ sent (stopped w) = sent w ∧
  next_session (stopped w) = next_session w.
Proof. unfold stopped. case_bool_decide; done. Qed.

Lemma same_frame_trans e1 e2 e3 : same_frame e1 e2 → same_frame e2 e3 → same_frame e1 e3.
Proof. unfold same_frame. intuition congruence. Qed.

Lemma payload_reset_frame p w : same_frame (ev w) (ev (payload_reset p w)) ∧
  event_get_payload (ev (payload_reset p w)) = Some (payload_of (velems (pl_data_ p))) ∧
  sent (payload_reset p w) = sent w ∧ next_session (payload_reset p w) = next_session w.
Proof.
  unfold payload_reset. destruct (ev_is_set_ (ev w)); [done|].
  destruct (started_frame (with_payload p w)) as (Hf&Hm&Hs&Hn).
  split_and!; [exact Hf| |exact Hs|exact Hn].
  unfold event_get_payload. cbn [ev on_event with_is_set ev_message_]. by rewrite Hm.
Qed.

Lemma notified_frame p w : same_frame (ev w) (ev (notified p w)) ∧
  ev_is_set_ (ev (notified p w)) = true ∧
  event_get_payload (ev (notified p w)) = Some (payload_of (velems (pl_data_ p))) ∧
  session_ (header_ (base (ev_message_ (ev (notified p w))))) = next_session w ∧
  sent (notified p w) = sent w ++ [Send VSOMEIP_ROUTING_CLIENT (ev_message_ (ev (notified p w)))].
Proof.
  destruct (payload_reset_frame p w) as (Hf&Hp&Hs&Hn). unfold notified.
  set (r := ev_change_resets_cycle_ (ev w)). cbv zeta.
  set (w1 := stopping r (payload_reset p w)).
  assert (H1 : same_frame (ev w) (ev w1) ∧ ev_message_ (ev w1) = ev_message_ (ev (payload_reset p w)) ∧
    sent w1 = sent w ∧ next_session w1 = next_session w ∧ ev_is_set_ (ev w1) = true).
  { subst w1. unfold stopping. destruct r.
    - destruct (stopped_frame (payload_reset p w)) as (Hf1&Hm1&Hs1&Hn1).
      split_and!; [by eapply same_frame_trans|done|congruence|congruence|].
      by rewrite stopped_is_set.
    - by split_and!. }
  destruct H1 as (Hf1&Hm1&Hs1&Hn1&Hi1). set (w2 := sent_out _ w1).
  assert (H2 : same_frame (ev w) (ev w2)) by (eapply same_frame_trans; [exact Hf1|done]).
  assert (Hp2 : event_get_payload (ev w2) = Some (payload_of (velems (pl_data_ p)))).
  { unfold event_get_payload. cbn. rewrite Hm1. exact Hp. }
  assert (Hs2 : sent w2 = sent w ++ [Send VSOMEIP_ROUTING_CLIENT (ev_message_ (ev w2))])
    by (cbn; by rewrite Hs1).
  assert (Hn2 : session_ (header_ (base (ev_message_ (ev w2)))) = next_session w)
    by (rewrite <- Hn1; done).
  unfold restarting. destruct r; [|by split_and!].
  destruct (started_frame w2) as (Hf3&Hm3&Hs3&_). unfold event_get_payload in *.
  rewrite started_is_set, Hm3, Hs3.
  split_and!; [by eapply same_frame_trans|done|done|done|done].
Qed.

(** Setting a payload of an event with [set_payload]: an event that is not provided
    does not change.  A provided event takes the bytes of every new payload, a field only
    of a payload that is forced or that its change function reports as changed; the
    default function reports exactly the payloads with other bytes.  When the event is
    updated on change, one notification with these bytes and the next session goes to
    the routing manager, otherwise none; subscribers, references and pending targets
    stay as they are. *)
Theorem set_payload_spec p force w : is_Some (event_get_payload (ev w)) →
  let e := ev w in
  (∃ w', set_payload p force w = Ret ((), w') ∧
    if ev_is_provided_ e && is_change e p force then
      ev_is_set_ (ev w') = true ∧ same_frame e (ev w') ∧
      event_get_payload (ev w') = Some (payload_of (velems (pl_data_ p))) ∧
      if ev_is_updating_on_change_ e then
        session_ (header_ (base (ev_message_ (ev w')))) = next_session w ∧
        sent w' = sent w ++ [Send VSOMEIP_ROUTING_CLIENT (ev_message_ (ev w'))]
      else sent w' = sent w
    else w' = w) ∧
  (∀ q, event_get_payload e = Some q → payload_ok p → payload_ok q →
     ev_epsilon_change_func_ e = compare →
     is_change e p force = negb (is_field e) || force ||
       bool_decide (velems (pl_data_ q) ≠ velems (pl_data_ p))).
Proof.
  intros Hp e. split.
  - eexists. split; [by apply set_payload_eq|]. fold e. destruct (_ && _); [|done].
    destruct (ev_is_updating_on_change_ e).
    + destruct (notified_frame p w) as (Hf&Hi&Hpl&Hn&Hs). by split_and!.
    + destruct (payload_reset_frame p w) as (Hf&Hpl&Hs&_). by split_and!.
  - intros q Hq Hok1 Hok2 He. unfold is_change. rewrite Hq, He. by rewrite compare_decides.
Qed.

(** A provided field with a payload. *)
Definition sample_field : event :=
  with_is_set true (with_is_provided true (with_type ET_FIELD
    (with_message (message_set_payload (Some (payload_of [1; 2]))
      (on_base (set_method 0x8001) create_notification)) (event_new false)))).
Definition sample_world : world := World sample_field 0 true 0xFFFF [].

Lemma set_payload_spec_witness :
  (∃ w', set_payload (payload_of [1; 3]) false sample_world = Ret ((), w') ∧
    length (sent w') = 1%nat ∧ session_ (header_ (base (ev_message_ (ev w')))) = 1) ∧
  (∃ w', set_payload (payload_of [1; 2]) false sample_world = Ret ((), w') ∧ w' = sample_world).
Proof.
  split.
  - destruct (set_payload_spec (payload_of [1; 3]) false sample_world) as [(w'&Hr&_&_&_&Hn&Hs) _].
    + by eexists.
    + exists w'. split; [exact Hr|]. rewrite Hs, Hn. done.
  - destruct (set_payload_spec (payload_of [1; 2]) false sample_world) as [(w'&Hr&H) _].
    + by eexists.
    + exists w'. split; [exact Hr|exact H].
Defined.

(** ** An event over time *)

Inductive event_op : Type :=
| OpSetPayload (p : payload_impl) (force : bool)
| OpSetPayloadClient (p : payload_impl) (client : Z) (force : bool)
| OpSetPayloadTarget (p : payload_impl) (client : Z) (target : option Z) (force : bool)
| OpSetPayloadDontNotify (p : payload_impl)
| OpSetPayloadNotifyPending (p : payload_impl)
| OpUnsetPayload (force : bool)
| OpSetUpdateCycle (cycle : Z)
| OpNotifyOne (client : Z)
| OpNotifyOneTo (client : Z) (target : option Z)
| OpSetType (t : event_type_e)
| OpSetProvided (b : bool)
| OpSetShadow (b : bool)
| OpSetCachePlaceholder (b : bool)
| OpSetChangeResetsCycle (b : bool)
| OpSetUpdateOnChange (b : bool)
| OpSetEpsilon (f : option (payload_impl → payload_impl → bool))
| OpSetReliability (r : reliability_type_e)
| OpRemovePending (target : Z)
| OpAddEventgroup (g : Z)
| OpSetEventgroups (gs : gset Z)
| OpAddSubscriber (g client : Z) (force : bool)
| OpRemoveSubscriber (g client : Z)
| OpClearSubscribers
| OpAddRef (client : Z) (provided : bool)
| OpRemoveRef (client : Z) (provided : bool).

Definition run_op (op : event_op) : ST world () :=
  match op with
  | OpSetPayload p force => set_payload p force
  | OpSetPayloadClient p c force => set_payload_client p c force
  | OpSetPayloadTarget p c t force => set_payload_target p c t force
  | OpSetPayloadDontNotify p => set_payload_dont_notify p;; mret ()
  | OpSetPayloadNotifyPending p => set_payload_notify_pending p;; mret ()
  | OpUnsetPayload force => unset_payload force
  | OpSetUpdateCycle c => set_update_cycle c
  | OpNotifyOne c => notify_one c
  | OpNotifyOneTo c t => notify_one_to c t
  | OpSetType t => upd (with_type t)
  | OpSetProvided b => upd (with_is_provided b)
  | OpSetShadow b => upd (with_is_shadow b)
  | OpSetCachePlaceholder b => upd (with_is_cache_placeholder b)
  | OpSetChangeResetsCycle b => upd (with_change_resets_cycle b)
  | OpSetUpdateOnChange b => upd (set_update_on_change b)
  | OpSetEpsilon f => upd (set_epsilon_change_function f)
  | OpSetReliability r => upd (with_reliability r)
  | OpRemovePending t => upd (remove_pending t)
  | OpAddEventgroup g => upd (add_eventgroup g)
  | OpSetEventgroups gs => upd (set_eventgroups gs)
  | OpAddSubscriber g c force => upd (λ e, (add_subscriber g c force e).2)
  | OpRemoveSubscriber g c => upd (remove_subscriber g c)
  | OpClearSubscribers => upd clear_subscribers
  | OpAddRef c b => upd (add_ref c b)
  | OpRemoveRef c b => upd (remove_ref c b)
  end.

Definition at_time (t : Z) (w : world) : world :=
  World (ev w) t (has_session_handling_ w) (app_session_ w) (sent w).
Definition expired (t : steady_timer) : steady_timer := Timer (expiry t) 0 (queued t + waits t).
Definition dequeued (n : nat) (t : steady_timer) : steady_timer := Timer (expiry t) (waits t) n.
Definition on_timer (f : steady_timer → steady_timer) : world → world :=
  on_event (λ e, with_cycle_timer (f (ev_cycle_timer_ e)) e).
Definition timer_of (w : world) : steady_timer := ev_cycle_timer_ (ev w).

(** A call, the passing of time, the expiry of the timer, or the run of a queued handler. *)
Inductive event_step : world → world → Prop :=
| step_call op w w' : run_op op w = Ret ((), w') → event_step w w'
| step_time t w : now w ≤ t → event_step w (at_time t w)
| step_expire w : expiry (timer_of w) ≤ now w → event_step w (on_timer expired w)
| step_handler n w w' : queued (timer_of w) = S n →
    update_cbk false (on_timer (dequeued n) w) = Ret ((), w') → event_step w w'.

(** At most one wait, which ends within a cycle; one wait or queued handler as long as a
    payload is set and the cycle is not zero. *)
Definition cycle_inv (w : world) : Prop :=
  let t := timer_of w in
  (waits t ≤ 1)%nat ∧
  (waits t = 1%nat → expiry t ≤ now w + ev_cycle_ (ev w)) ∧
  (ev_is_set_ (ev w) = true → ev_cycle_ (ev w) ≠ 0 → (1 ≤ waits t + queued t)%nat) ∧
  is_Some (event_get_payload (ev w)).

(** The part of the world the invariant reads. *)
Lemma cycle_inv_same w w' :
  timer_of w' = timer_of w → now w' = now w → ev_cycle_ (ev w') = ev_cycle_ (ev w) →
  ev_is_set_ (ev w') = ev_is_set_ (ev w) →
  is_Some (event_get_payload (ev w')) → cycle_inv w → cycle_inv w'.
Proof. unfold cycle_inv. intros -> -> -> -> Hp (H1&H2&H3&_). done. Qed.

Lemma cycle_inv_started w : cycle_inv w → cycle_inv (started w).
Proof.
  intros (H1&H2&H3&H4). unfold started. case_bool_decide as Hc; [|done].
  unfold cycle_inv. cbn. split_and!; [lia|intros _; lia|intros _ _; lia|done].
Qed.

(** Like [cycle_inv], except that the timer need not run. *)
Definition cycle_inv_idle (w : world) : Prop :=
  (waits (timer_of w) ≤ 1)%nat ∧
  (waits (timer_of w) = 1%nat → expiry (timer_of w) ≤ now w + ev_cycle_ (ev w)) ∧
  is_Some (event_get_payload (ev w)).

Lemma cycle_inv_idle_started w : cycle_inv_idle w → cycle_inv (started w).
Proof.
  intros (H1&H2&H4). unfold started. case_bool_decide as Hc.
  - unfold cycle_inv. cbn. split_and!; [lia|intros _; lia|intros _ _; lia|done].
  - split_and!; [done|done|lia|done].
Qed.
Lemma cycle_inv_idle_stopped w : cycle_inv w → cycle_inv_idle (stopped w).
Proof.
  intros (H1&H2&_&H4). unfold stopped. case_bool_decide; [|done].
  split_and!; cbn; [lia|lia|done].
Qed.

Lemma cycle_inv_sent_out a w : cycle_inv w → cycle_inv (sent_out a w).
Proof. intros H. eapply cycle_inv_same; [..|exact H]; try done. apply H. Qed.

Lemma cycle_inv_payload_reset p w : cycle_inv w → cycle_inv (payload_reset p w).
Proof.
  intros H. unfold payload_reset. destruct (ev_is_set_ (ev w)) eqn:Hs.
  - eapply cycle_inv_same; [..|exact H]; try done.
  - assert (Hi : cycle_inv (started (with_payload p w))).
    { apply cycle_inv_idle_started. destruct H as (H1&H2&_&_). split_and!; [done|done|by eexists]. }
    unfold started in *. case_bool_decide as Hc.
    + destruct Hi as (H1&H2&_&H4). split_and!; [done|done|intros _ _; cbn; lia|done].
    + destruct Hi as (H1&H2&_&H4). split_and!; [done|done|cbn in *; lia|done].
Qed.

Lemma cycle_inv_notified p w : cycle_inv w → cycle_inv (notified p w).
Proof.
  intros H. apply (cycle_inv_payload_reset p) in H. unfold notified, restarting, stopping.
  destruct (ev_change_resets_cycle_ (ev w)); [|by apply cycle_inv_sent_out].
  apply cycle_inv_idle_stopped in H as (H1&H2&H4).
  apply cycle_inv_idle_started. by split_and!.
Qed.

Lemma cycle_inv_sent_pending ts w : cycle_inv w → cycle_inv (sent_pending ts w).
Proof. revert w. induction ts; intros w H; [done|]. by apply IHts, cycle_inv_sent_out. Qed.

Lemma cycle_inv_cycled n w : cycle_inv w → cycle_inv (cycled (on_timer (dequeued n) w)).
Proof.
  intros (_&_&_&H4). unfold cycled. cbv zeta.
  change (ev_is_set_ (ev (on_timer (dequeued n) w))) with (ev_is_set_ (ev w)).
  destruct (ev_is_set_ (ev w)); unfold cycle_inv; cbn; (split_and!; [lia|lia|lia|exact H4]).
Qed.

Lemma cycle_inv_cleared w : cycle_inv w → cycle_inv (cleared w).
Proof.
  intros (H1&H2&_&_). unfold cleared, stopped.
  change (ev_cycle_ (ev (on_event (with_is_set false) w))) with (ev_cycle_ (ev w)).
  case_bool_decide; unfold cycle_inv; cbn; split_and!; (done || lia).
Qed.

Lemma cycle_inv_update_cycle c w :
  cycle_inv w → cycle_inv (started (on_event (with_cycle c) (stopped w))).
Proof.
  intros (H1&H2&_&H4). unfold started, stopped.
  destruct (decide (c = 0)) as [->|Hc].
  - rewrite (bool_decide_false (0 ≠ _)) by (cbn; intros []; done).
    case_bool_decide as Hc; unfold cycle_inv; cbn.
    + split_and!; (done || lia).
    + assert (ev_cycle_ (ev w) = 0) as E by lia. rewrite E in H2. split_and!; (done || lia).
  - rewrite (bool_decide_true (0 ≠ _)) by (cbn; done).
    unfold cycle_inv. cbn. case_bool_decide; cbn; (split_and!; (done || lia)).
Qed.

(** An update of the other members. *)
Lemma cycle_inv_on_event f w :
  (∀ e, ev_cycle_timer_ (f e) = ev_cycle_timer_ e ∧ ev_cycle_ (f e) = ev_cycle_ e ∧
     ev_is_set_ (f e) = ev_is_set_ e ∧ ev_message_ (f e) = ev_message_ e) →
  cycle_inv w → cycle_inv (on_event f w).
Proof.
  intros Hf H. destruct (Hf (ev w)) as (Ht&Hc&Hs&Hm).
  eapply cycle_inv_same; [exact Ht|done|exact Hc|exact Hs| |exact H].
  unfold event_get_payload. cbn. rewrite Hm. apply H.
Qed.

(** An update that keeps message, timer, cycle and [is_set_], by cases of its body. *)
Ltac frame_upd :=
  intros e; unfold set_update_on_change, set_epsilon_change_function, remove_pending,
    add_eventgroup, set_eventgroups, add_subscriber, remove_subscriber, clear_subscribers,
    add_ref, remove_ref; cbv zeta; repeat case_match; done.

Lemma cycle_inv_op op w : cycle_inv w → ∃ w', run_op op w = Ret ((), w') ∧ cycle_inv w'.
Proof.
  intros H. pose proof H as (_&_&_&Hp).
  destruct op; cbn [run_op];
    try (eexists; split; [apply upd_eq|apply cycle_inv_on_event; [|done]; frame_upd]).
  - eexists. split; [by apply set_payload_eq|].
    repeat case_match; auto using cycle_inv_notified, cycle_inv_payload_reset.
  - eexists. split; [by apply set_payload_client_eq|].
    repeat case_match; auto using cycle_inv_sent_out, cycle_inv_payload_reset.
  - eexists. split; [by apply set_payload_target_eq|].
    repeat case_match; auto using cycle_inv_sent_out, cycle_inv_payload_reset.
  - eexists. split.
    { st_step (set_payload_dont_notify_eq p w Hp). done. }
    case_match; auto using cycle_inv_payload_reset.
  - pose proof (set_payload_notify_pending_eq p w) as E. destruct (_ && _) eqn:Eb;
      (eexists; split; [st_step E; done|]); [|done].
    apply cycle_inv_on_event; [done|]. by apply cycle_inv_sent_pending, cycle_inv_payload_reset.
  - eexists. split; [apply unset_payload_eq|]. case_match; auto using cycle_inv_cleared.
  - eexists. split; [apply set_update_cycle_eq|]. case_match; [|done].
    by apply cycle_inv_update_cycle.
  - eexists. split; [apply notify_one_unlocked_eq|]. case_match; auto using cycle_inv_sent_out.
  - destruct target as [t|]; [|by eexists].
    eexists. split; [apply notify_one_to_eq|]. case_match; [by apply cycle_inv_sent_out|].
    by apply cycle_inv_on_event.
Qed.

Lemma cycle_inv_step w w' : event_step w w' → cycle_inv w → cycle_inv w'.
Proof.
  intros Hstep H. destruct Hstep as [op w w' Hr|t w Ht|w He|n w w' Hn Hr].
  - destruct (cycle_inv_op op w H) as (w1&Hr1&H1). rewrite Hr in Hr1. by injection Hr1 as <-.
  - destruct H as (H1&H2&H3&H4). split_and!; [done| |done|done].
    intros Hw. specialize (H2 Hw). cbn. change (expiry (timer_of w) ≤ t + ev_cycle_ (ev w)). lia.
  - destruct H as (H1&_&H3&H4). unfold cycle_inv. cbn. split_and!; [lia|lia| |done].
    intros Hs Hc. specialize (H3 Hs Hc). unfold timer_of in H3. lia.
  - rewrite update_cbk_eq in Hr. injection Hr as <-. by apply cycle_inv_cycled.
Qed.

Lemma cycle_inv_reachable shadow t h s w :
  rtc event_step (World (event_new shadow) t h s []) w → cycle_inv w.
Proof.
  apply (rtc_ind_r cycle_inv).
  - unfold cycle_inv. cbn. split_and!; [lia|lia|done|by eexists].
  - intros x y _ Hxy Hx. by eapply cycle_inv_step.
Qed.

(** C23: Cyclic updates go on.  In every state an event reaches from its creation by calls,
    the passing of time, expiries of its timer and runs of the timer's handler, in any
    order: while a payload is set and the cycle is not zero, a handler is queued or the
    timer expires within one cycle; and whenever a queued handler runs, it hands exactly
    one notification with the current payload to the routing manager and starts the
    timer for the next cycle. *)
Theorem cyclic_updates_go_on shadow t h s w :
  rtc event_step (World (event_new shadow) t h s []) w →
  ev_is_set_ (ev w) = true → ev_cycle_ (ev w) ≠ 0 →
  ((1 ≤ queued (timer_of w))%nat ∨
   waits (timer_of w) = 1%nat ∧ expiry (timer_of w) ≤ now w + ev_cycle_ (ev w)) ∧
  ∀ n, queued (timer_of w) = S n →
    ∃ w', update_cbk false (on_timer (dequeued n) w) = Ret ((), w') ∧
      event_get_payload (ev w') = event_get_payload (ev w) ∧
      sent w' = sent w ++ [Send VSOMEIP_ROUTING_CLIENT (ev_message_ (ev w'))] ∧
      timer_of w' = Timer (now w + ev_cycle_ (ev w)) 1 n.
Proof.
  intros Hr Hs Hc. destruct (cycle_inv_reachable shadow t h s w Hr) as (H1&H2&H3&_).
  specialize (H3 Hs Hc). split.
  - destruct (decide (waits (timer_of w) = 1%nat)) as [Hw|]; [right; auto|left; lia].
  - intros n Hn. eexists. split; [apply update_cbk_eq|]. unfold cycled. cbv zeta.
    change (ev_is_set_ (ev (on_timer (dequeued n) w))) with (ev_is_set_ (ev w)). rewrite Hs. done.
Qed.

(** A sequence of calls. *)
Fixpoint run_ops (ops : list event_op) : ST world () :=
  match ops with [] => mret () | op :: ops => run_op op;; run_ops ops end.

Lemma run_ops_steps ops w w' : run_ops ops w = Ret ((), w') → rtc event_step w w'.
Proof.
  revert w. induction ops as [|op ops IH]; intros w Hr; cbn [run_ops] in Hr.
  - injection Hr as <-. apply rtc_refl.
  - apply st_bind_inv in Hr as ([]&w1&H1&H2). eapply rtc_l; [by eapply step_call|by apply IH].
Qed.

(** An event with a cycle of 100 ms and a payload, after its timer expired. *)
Definition cyclic_event : event :=
  with_is_set true (with_is_provided true (with_cycle 100
    (with_cycle_timer (Timer 100 1 0) (with_message (message_set_payload (Some (payload_of [7]))
      create_notification) (event_new false))))).
Definition cyclic_world : world :=
  on_timer expired (at_time 100 (World cyclic_event 0 true 0 [])).

Lemma cyclic_world_reachable : rtc event_step (World (event_new false) 0 true 0 []) cyclic_world.
Proof.
  etrans.
  - apply (run_ops_steps [OpSetProvided true; OpSetUpdateOnChange false;
      OpSetPayload (payload_of [7]) false; OpSetUpdateOnChange true; OpSetUpdateCycle 100]
      _ (World cyclic_event 0 true 0 [])).
    cbv -[compare]. reflexivity.
  - eapply rtc_l; [apply (step_time 100); vm_compute; discriminate|].
    eapply rtc_l; [apply step_expire; vm_compute; discriminate|]. apply rtc_refl.
Qed.

Lemma cyclic_updates_go_on_witness :
  (1 ≤ queued (timer_of cyclic_world))%nat ∧
  ∃ w', update_cbk false (on_timer (dequeued 0) cyclic_world) = Ret ((), w') ∧
    timer_of w' = Timer 200 1 0 ∧ length (sent w') = 1%nat.
Proof.
  destruct (cyclic_updates_go_on false 0 true 0 cyclic_world cyclic_world_reachable)
    as [_ H]; [done|done|].
  destruct (H 0%nat eq_refl) as (w'&Hr&_&Hs&Ht).
  split; [cbn; lia|]. exists w'. split; [exact Hr|]. split; [exact Ht|]. rewrite Hs. done.
Defined.

(** A cycle that is switched off while the handler of its last expiry is queued: the
    handler starts the timer with a cycle of zero, and neither unsetting the payload nor
    setting the cycle to zero again stops it. *)
Definition stop_race : outcome (nat * nat) :=
  '(_, w) ← set_update_cycle 0 cyclic_world;
  '(_, w) ← update_cbk false (on_timer (dequeued 0) w);
  '(_, w1) ← unset_payload true w;
  '(_, w2) ← set_update_cycle 0 w1;
  Ret (waits (timer_of w1), waits (timer_of w2)).

Example stopped_cycle_keeps_running : stop_race = Ret (1%nat, 1%nat).
Proof. reflexivity. Qed.

(** ** Pending initial events *)

(** What a receiver gets: the target, and the bytes of the payload. *)
Definition received (a : sending) : option Z * option (list Z) :=
  match a with
  | Send _ m => (None, (λ p, velems (pl_data_ p)) <$> payload_ m)
  | SendTo _ t m => (Some t, (λ p, velems (pl_data_ p)) <$> payload_ m)
  end.

Lemma sent_pending_spec targets w bs :
  (λ p, velems (pl_data_ p)) <$> event_get_payload (ev w) = Some bs →
  received <$> sent (sent_pending targets w) =
    (received <$> sent w) ++ ((λ t, (Some t, Some bs)) <$> targets) ∧
  same_frame (ev w) (ev (sent_pending targets w)) ∧
  ev_is_set_ (ev (sent_pending targets w)) = ev_is_set_ (ev w) ∧
  event_get_payload (ev (sent_pending targets w)) = event_get_payload (ev w).
Proof.
  revert w. induction targets as [|t targets IH]; intros w Hp.
  { split_and!; try done. by rewrite app_nil_r. }
  destruct (IH (sent_out (SendTo VSOMEIP_ROUTING_CLIENT t) w) Hp) as (Hs&Hf&Hi&Hg).
  split_and!; [|exact Hf|exact Hi|exact Hg].
  change (sent_pending (t :: targets) w) with (sent_pending targets (sent_out (SendTo VSOMEIP_ROUTING_CLIENT t) w)).
  rewrite Hs. cbn [sent_out sent]. rewrite fmap_app, <- app_assoc. cbn.
  unfold event_get_payload in Hp. by rewrite Hp.
Qed.

(** Several calls of [notify_one] for targets. *)
Fixpoint notify_all (client : Z) (targets : list Z) : ST world () :=
  match targets with
  | [] => mret ()
  | t :: targets => notify_one_to client (Some t);; notify_all client targets
  end.

Lemma notify_all_pending client targets w : ev_is_set_ (ev w) = false →
  notify_all client targets w =
    Ret ((), on_event (λ e, with_pending (list_to_set targets ∪ ev_pending_ e) e) w).
Proof.
  revert w. induction targets as [|t targets IH]; intros w Hs.
  - change (Ret ((), w) = Ret ((), on_event (λ e, with_pending (∅ ∪ ev_pending_ e) e) w)).
    unfold on_event. rewrite union_empty_l_L. by destruct w as [[] ? ? ? ?].
  - cbn [notify_all]. st_step (notify_one_to_eq client t w). rewrite Hs.
    rewrite IH by done. unfold on_event. cbn [ev now has_session_handling_ app_session_ sent].
    do 3 f_equal. unfold with_pending at 1 2 3. rewrite list_to_set_cons.
    replace ({[t]} ∪ list_to_set targets ∪ ev_pending_ (ev w))
      with (list_to_set targets ∪ ({[t]} ∪ ev_pending_ (ev w))); [done|]. set_solver.
Qed.

(** Initial events that are asked for before the event has a payload are sent when it
    gets one.  After any calls of [notify_one] for targets, with repetitions, on a
    provided event without a payload, nothing has been sent; [set_payload_notify_pending]
    then sends the payload exactly once to each of these targets and to those that were
    pending before, leaves none pending, and reports this; called again it does nothing. *)
Theorem pending_initial_events client targets p w :
  ev_is_set_ (ev w) = false → ev_is_provided_ (ev w) = true →
  let bs := velems (pl_data_ p) in
  ∃ w1 w', notify_all client targets w = Ret ((), w1) ∧ sent w1 = sent w ∧
    set_payload_notify_pending p w1 = Ret (true, w') ∧
    received <$> sent w' = (received <$> sent w) ++
      ((λ t, (Some t, Some bs)) <$> elements (list_to_set targets ∪ ev_pending_ (ev w))) ∧
    ev_pending_ (ev w') = ∅ ∧
    event_get_payload (ev w') = Some (payload_of bs) ∧
    ∀ q, set_payload_notify_pending q w' = Ret (false, w').
Proof.
  intros Hs Hp bs. do 2 eexists. split; [by apply notify_all_pending|].
  set (w1 := on_event _ w). split; [done|].
  split; [rewrite set_payload_notify_pending_eq; subst w1; cbn [ev on_event with_pending ev_is_set_ ev_is_provided_]; by rewrite Hs, Hp|].
  destruct (payload_reset_frame p w1) as (Hf&Hg&Hsent&_).
  destruct (sent_pending_spec (elements (ev_pending_ (ev w1))) (payload_reset p w1) bs)
    as (H1&H2&H3&H4); [by rewrite Hg|].
  split_and!.
  - etrans; [exact H1|]. by rewrite Hsent.
  - done.
  - etrans; [exact H4|exact Hg].
  - intros q. rewrite set_payload_notify_pending_eq.
    match goal with |- context [negb ?b] => assert (b = true) as -> by exact H3 end. done.
Qed.

Lemma pending_initial_events_witness :
  ∃ w1 w', notify_all 0 [5; 6; 5] (World (with_is_provided true (event_new false)) 0 true 0 []) = Ret ((), w1) ∧
    set_payload_notify_pending (payload_of [1; 2]) w1 = Ret (true, w') ∧
    received <$> sent w' = [(Some 5, Some [1; 2]); (Some 6, Some [1; 2])].
Proof.
  destruct (pending_initial_events 0 [5; 6; 5] (payload_of [1; 2])
    (World (with_is_provided true (event_new false)) 0 true 0 [])) as (w1&w'&H1&_&H2&H3&_); [done|done|].
  exists w1, w'. split; [exact H1|]. split; [exact H2|]. rewrite H3. vm_compute. reflexivity.
Defined.

(** ** References *)

(** The number of references of a client. *)
Definition ref_count (e : event) (c : Z) (b : bool) : Z :=
  default 0 (ev_refs_ e !! c ≫= λ m, m !! b).

(** No counter is zero and no client is listed without a counter. *)
Definition refs_wf (e : event) : Prop :=
  ∀ c m, ev_refs_ e !! c = Some m →
    m ≠ ∅ ∧ ∀ b n, m !! b = Some n → 0 < n < 2 ^ 32.

Inductive ref_op : Type := AddRef (c : Z) (b : bool) | RemoveRef (c : Z) (b : bool).
#[export] Instance ref_op_eq_dec : EqDecision ref_op.
Proof. solve_decision. Defined.

Definition run_ref_op (e : event) (op : ref_op) : event :=
  match op with AddRef c b => add_ref c b e | RemoveRef c b => remove_ref c b e end.

(** The counter of one client that a sequence of calls asks for: a removal without a
    reference has no effect. *)
Definition count_step (c : Z) (b : bool) (n : Z) (op : ref_op) : Z :=
  if bool_decide (op = AddRef c b) then n + 1
  else if bool_decide (op = RemoveRef c b) then Z.max 0 (n - 1)
  else n.
Definition count_refs (ops : list ref_op) (c : Z) (b : bool) : Z := foldl (count_step c b) 0 ops.

Lemma refs_wf_insert c m e : refs_wf e → m ≠ ∅ → (∀ b n, m !! b = Some n → 0 < n < 2 ^ 32) →
  refs_wf (with_refs (<[c := m]> (ev_refs_ e)) e).
Proof.
  intros He Hm Hn c' m' H. cbn in H. destruct (decide (c' = c)) as [->|].
  - rewrite lookup_insert_eq in H. by injection H as <-.
  - rewrite lookup_insert_ne in H by done. by apply (He c').
Qed.
Lemma refs_wf_delete c e : refs_wf e → refs_wf (with_refs (delete c (ev_refs_ e)) e).
Proof. intros He c' m' H. cbn in H. apply lookup_delete_Some in H as [_ H]. by apply (He c'). Qed.

Lemma ref_count_insert c m e c' b' :
  ref_count (with_refs (<[c := m]> (ev_refs_ e)) e) c' b' =
  if bool_decide (c' = c) then default 0 (m !! b') else ref_count e c' b'.
Proof.
  unfold ref_count. cbn [with_refs ev_refs_]. case_bool_decide as Hc.
  - subst. by rewrite lookup_insert_eq.
  - by rewrite lookup_insert_ne by done.
Qed.

Lemma insert_bounds (m : gmap bool Z) b0 x : 0 < x < 2 ^ 32 →
  (∀ b n, m !! b = Some n → 0 < n < 2 ^ 32) →
  ∀ b n, <[b0 := x]> m !! b = Some n → 0 < n < 2 ^ 32.
Proof. intros Hx Hm b n [[<- <-]|[_ H]]%lookup_insert_Some; [done|by eapply Hm]. Qed.

Lemma add_ref_spec c b e : refs_wf e → ref_count e c b < 2 ^ 32 - 1 →
  refs_wf (add_ref c b e) ∧
  ∀ c' b', ref_count (add_ref c b e) c' b' = count_step c' b' (ref_count e c' b') (AddRef c b).
Proof.
  intros He Hc. unfold add_ref.
  assert (∃ m, default ∅ (ev_refs_ e !! c) = m ∧
    add_ref c b e = with_refs (<[c := <[b := ref_count e c b + 1]> m]> (ev_refs_ e)) e) as (m&Hm&Ha).
  { eexists. split; [done|]. unfold add_ref, ref_count in *. destruct (ev_refs_ e !! c) as [m|] eqn:E; [|done].
    cbn in *. destruct (m !! b) as [n|] eqn:En; [|done]. cbn in *.
    destruct (He c m E) as [_ Hn]. specialize (Hn b n En). rewrite u32_id; [done|].
    unfold is_u32. lia. }
  fold (add_ref c b e). rewrite Ha.
  assert (Hb : ∀ b n, m !! b = Some n → 0 < n < 2 ^ 32).
  { intros b0 n Hn. destruct (ev_refs_ e !! c) as [m0|] eqn:E; cbn in Hm; subst m; [|done].
    by eapply He. }
  assert (Hge : 0 ≤ ref_count e c b).
  { unfold ref_count. destruct (ev_refs_ e !! c) as [m0|] eqn:E; cbn in *; [|done].
    destruct (m0 !! b) as [n|] eqn:En; cbn; [|done]. destruct (He c m0 E) as [_ Hn].
    specialize (Hn b n En). lia. }
  split.
  - apply refs_wf_insert; [done|by apply insert_non_empty|]. apply insert_bounds; [lia|done].
  - intros c' b'. rewrite ref_count_insert. unfold count_step.
    rewrite (bool_decide_false (AddRef c b = RemoveRef _ _)) by done.
    case_bool_decide as Ec; [subst c'|rewrite bool_decide_false by naive_solver; done].
    destruct (decide (b' = b)) as [->|Hbb].
    + rewrite lookup_insert_eq, bool_decide_true by done. done.
    + rewrite lookup_insert_ne, bool_decide_false by naive_solver.
      unfold ref_count. destruct (ev_refs_ e !! c); cbn in Hm |- *; by subst m.
Qed.

Lemma ref_count_delete c e c' b' :
  ref_count (with_refs (delete c (ev_refs_ e)) e) c' b' =
  if bool_decide (c' = c) then 0 else ref_count e c' b'.
Proof.
  unfold ref_count. cbn [with_refs ev_refs_]. case_bool_decide as Hc.
  - subst. by rewrite lookup_delete_eq.
  - by rewrite lookup_delete_ne by done.
Qed.

(** A removal of the client [c] leaves the counters of its map [m'], which differs from
    the old map [m] in the counter at [b]. *)
Lemma count_remove e c b (m m' : gmap bool Z) : ev_refs_ e !! c = Some m →
  default 0 (m' !! b) = Z.max 0 (default 0 (m !! b) - 1) →
  (∀ b', b' ≠ b → m' !! b' = m !! b') →
  ∀ c' b', (if bool_decide (c' = c) then default 0 (m' !! b') else ref_count e c' b') =
    count_step c' b' (ref_count e c' b') (RemoveRef c b).
Proof.
  intros E Hb Hne c' b'. unfold count_step. rewrite (bool_decide_false (RemoveRef c b = AddRef _ _)) by done.
  case_bool_decide as Ec; [subst c'|by rewrite bool_decide_false by naive_solver].
  unfold ref_count. rewrite E. cbn.
  destruct (decide (b' = b)) as [->|Hbb]; [by rewrite bool_decide_true|].
  rewrite bool_decide_false by naive_solver. by rewrite Hne.
Qed.

Lemma remove_ref_spec c b e : refs_wf e →
  refs_wf (remove_ref c b e) ∧
  ∀ c' b', ref_count (remove_ref c b e) c' b' = count_step c' b' (ref_count e c' b') (RemoveRef c b).
Proof.
  intros He. unfold remove_ref.
  assert (Hnone : ref_count e c b = 0 → refs_wf e ∧
    ∀ c' b', ref_count e c' b' = count_step c' b' (ref_count e c' b') (RemoveRef c b)).
  { intros H0. split; [done|]. intros c' b'. unfold count_step.
    rewrite (bool_decide_false (RemoveRef c b = AddRef _ _)) by done.
    case_bool_decide as Er; [|done]. injection Er as -> ->. lia. }
  destruct (ev_refs_ e !! c) as [m|] eqn:E; [|apply Hnone; unfold ref_count; by rewrite E].
  destruct (m !! b) as [n|] eqn:En; [|apply Hnone; unfold ref_count; rewrite E; cbn; by rewrite En].
  destruct (He c m E) as [_ Hb]. pose proof (Hb b n En) as Hn.
  rewrite u32_id by (unfold is_u32; lia). cbv zeta.
  assert (Hdel : ∀ b0 n0, delete b m !! b0 = Some n0 → 0 < n0 < 2 ^ 32)
    by (intros b0 n0 [_ H]%lookup_delete_Some; by eapply Hb).
  case_bool_decide as H0; [case_bool_decide as Hd|].
  - split; [by apply refs_wf_delete|]. intros c' b'. rewrite ref_count_delete.
    rewrite <- (count_remove e c b m ∅ E).
    + by rewrite lookup_empty.
    + rewrite En, lookup_empty. cbn. lia.
    + intros b0 Hb0. rewrite <- Hd. by rewrite lookup_delete_ne.
  - split; [by apply refs_wf_insert|]. intros c' b'. rewrite ref_count_insert.
    apply (count_remove e c b m (delete b m) E).
    + rewrite En, lookup_delete_eq. cbn. lia.
    + intros b0 Hb0. by rewrite lookup_delete_ne.
  - split.
    + apply refs_wf_insert; [done|by apply insert_non_empty|]. apply insert_bounds; [lia|done].
    + intros c' b'. rewrite ref_count_insert. apply (count_remove e c b m (<[b := n - 1]> m) E).
      * rewrite En, lookup_insert_eq. cbn. lia.
      * intros b0 Hb0. by rewrite lookup_insert_ne.
Qed.

Lemma count_refs_bounds ops c b : 0 ≤ count_refs ops c b ≤ Z.of_nat (length ops).
Proof.
  unfold count_refs. induction ops as [|op ops IH] using rev_ind; [done|].
  rewrite foldl_app, length_app. cbn [foldl length]. unfold count_step at 1 3. repeat case_bool_decide; lia.
Qed.

Lemma run_refs_spec e ops : ev_refs_ e = ∅ → Z.of_nat (length ops) < 2 ^ 32 →
  refs_wf (foldl run_ref_op e ops) ∧
  ∀ c b, ref_count (foldl run_ref_op e ops) c b = count_refs ops c b.
Proof.
  intros He. induction ops as [|op ops IH] using rev_ind; intros Hl.
  - cbn [foldl]. split; [|intros c b]; [intros c m; rewrite He|unfold ref_count; rewrite He]; by rewrite lookup_empty.
  - rewrite length_app in Hl. cbn [length] in Hl. destruct IH as [Hw Hc]; [lia|].
    unfold count_refs. rewrite !foldl_app. cbn [foldl]. set (e1 := foldl run_ref_op e ops) in *.
    destruct op as [c b|c b]; cbn [run_ref_op].
    + destruct (add_ref_spec c b e1 Hw) as [Hw' Hc'].
      { rewrite Hc. pose proof (count_refs_bounds ops c b). lia. }
      split; [done|]. intros c' b'. rewrite foldl_app, Hc', Hc. done.
    + destruct (remove_ref_spec c b e1 Hw) as [Hw' Hc'].
      split; [done|]. intros c' b'. rewrite foldl_app, Hc', Hc. done.
Qed.

(** The references of an event refine a counter per client and kind.  After any
    sequence of fewer than 2^32 calls of [add_ref] and [remove_ref] on a new event,
    [has_ref] of a client holds exactly if more references were added than removed
    (counting no removal below zero), and [has_ref] without arguments exactly if this is
    so for some client: no entry without a reference is left behind. *)
Theorem refs_refine_counters shadow ops : Z.of_nat (length ops) < 2 ^ 32 →
  let e := foldl run_ref_op (event_new shadow) ops in
  (∀ c b, has_ref c b e = bool_decide (0 < count_refs ops c b)) ∧
  (has_any_ref e = true ↔ ∃ c b, 0 < count_refs ops c b).
Proof.
  intros Hl e. destruct (run_refs_spec (event_new shadow) ops eq_refl Hl) as [Hw Hc].
  fold e in Hw, Hc. split.
  - intros c b. rewrite <- Hc. unfold has_ref, ref_count.
    destruct (ev_refs_ e !! c) as [m|]; cbn; [|done]. destruct (m !! b); cbn; [|done].
    apply bool_decide_ext. lia.
  - unfold has_any_ref. rewrite bool_decide_eq_true. split.
    + intros (c&m&E)%map_choose. destruct (Hw c m E) as [(b&n&En)%map_choose Hb].
      exists c, b. rewrite <- Hc. unfold ref_count. rewrite E. cbn. rewrite En. cbn.
      specialize (Hb b n En). lia.
    + intros (c&b&H) E. rewrite <- Hc in H. unfold ref_count in H.
      rewrite E, lookup_empty in H. cbn in H. lia.
Qed.

Lemma refs_refine_counters_witness :
  has_ref 7 true (foldl run_ref_op (event_new false)
    [AddRef 7 true; AddRef 7 true; RemoveRef 7 true; RemoveRef 8 false]) = true ∧
  has_any_ref (foldl run_ref_op (event_new false)
    [RemoveRef 7 true; AddRef 7 true; RemoveRef 7 true]) = false.
Proof.
  split.
  - destruct (refs_refine_counters false
      [AddRef 7 true; AddRef 7 true; RemoveRef 7 true; RemoveRef 8 false]) as [H _]; [cbn; lia|].
    rewrite H. reflexivity.
  - destruct (has_any_ref _) eqn:E; [|done].
    destruct (refs_refine_counters false [RemoveRef 7 true; AddRef 7 true; RemoveRef 7 true])
      as [_ [H _]]; [cbn; lia|].
    destruct (H E) as (c&b&Hn). exfalso. revert Hn. unfold count_refs, count_step. cbn [foldl].
    repeat case_bool_decide; try lia; naive_solver.
Defined.

(** ** Subscribers *)

Inductive subscriber_op : Type :=
| AddEventgroup (g : Z)
| SetEventgroups (gs : gset Z)
| AddSubscriber (g c : Z) (force : bool)
| RemoveSubscriber (g c : Z)
| ClearSubscribers.

Definition run_subscriber_op (e : event) (op : subscriber_op) : event :=
  match op with
  | AddEventgroup g => add_eventgroup g e
  | SetEventgroups gs => set_eventgroups gs e
  | AddSubscriber g c force => (add_subscriber g c force e).2
  | RemoveSubscriber g c => remove_subscriber g c e
  | ClearSubscribers => clear_subscribers e
  end.

(** Whether an event of this state takes subscribers without [_force]. *)
Definition takes_subscribers (e : event) : bool :=
  ev_is_provided_ e || ev_is_shadow_ e || ev_is_cache_placeholder_ e.

(** The pairs of eventgroup and client that a sequence of calls asks for. *)
Definition subscriber_step (takes : bool) (r : gset (Z * Z)) (op : subscriber_op) : gset (Z * Z) :=
  match op with
  | AddEventgroup _ => r
  | SetEventgroups gs => filter (λ x, x.1 ∉ gs) r
  | AddSubscriber g c force => if force || takes then {[(g, c)]} ∪ r else r
  | RemoveSubscriber g c => r ∖ {[(g, c)]}
  | ClearSubscribers => ∅
  end.

Definition subscribes (e : event) (g c : Z) : Prop :=
  ∃ clients, ev_eventgroups_ e !! g = Some clients ∧ c ∈ clients.

Lemma subscribes_default e g c : subscribes e g c ↔ c ∈ get_subscribers_of g e.
Proof. unfold subscribes, get_subscribers_of. destruct (ev_eventgroups_ e !! g); cbn; set_solver. Qed.

Lemma lookup_reset_groups (gs : gset Z) (m : gmap Z (gset Z)) g :
  let r := set_fold (λ g m, <[g := ∅]> m) m gs in
  (g ∈ gs → r !! g = Some ∅) ∧ (g ∉ gs → r !! g = m !! g).
Proof.
  apply (set_fold_ind_L (λ r X, (g ∈ X → r !! g = Some ∅) ∧ (g ∉ X → r !! g = m !! g))); [set_solver|].
  intros x X r Hx IH. destruct (decide (g = x)) as [->|Hg].
  - rewrite lookup_insert_eq. set_solver.
  - rewrite lookup_insert_ne by done. set_solver.
Qed.

Lemma subscribes_insert e g0 s g c :
  subscribes (with_eventgroups (<[g0 := s]> (ev_eventgroups_ e)) e) g c ↔
  if bool_decide (g = g0) then c ∈ s else subscribes e g c.
Proof.
  unfold subscribes. cbn [with_eventgroups ev_eventgroups_].
  case_bool_decide as Hg; [subst; rewrite lookup_insert_eq|by rewrite lookup_insert_ne by done].
  split; [by intros (?&[= ->]&?)|eauto].
Qed.

Lemma subscriber_op_spec (e : event) (r : gset (Z * Z)) op :
  (∀ g c, subscribes e g c ↔ (g, c) ∈ r) →
  takes_subscribers (run_subscriber_op e op) = takes_subscribers e ∧
  ∀ g c, subscribes (run_subscriber_op e op) g c ↔ (g, c) ∈ subscriber_step (takes_subscribers e) r op.
Proof.
  intros Hr. destruct op as [g0|gs|g0 c0 force|g0 c0|]; cbn [run_subscriber_op subscriber_step].
  - unfold add_eventgroup. destruct (ev_eventgroups_ e !! g0) eqn:E; [done|]. split; [done|].
    intros g c. rewrite <- Hr, subscribes_insert. destruct (decide (g = g0)) as [->|Hg];
      [rewrite bool_decide_true by done|by rewrite bool_decide_false by done].
    unfold subscribes. rewrite E. set_solver.
  - split; [done|]. intros g c. rewrite elem_of_filter, <- Hr, !subscribes_default.
    unfold get_subscribers_of, set_eventgroups. cbn [with_eventgroups ev_eventgroups_].
    destruct (lookup_reset_groups gs (ev_eventgroups_ e) g) as [H1 H2].
    destruct (decide (g ∈ gs)); [rewrite H1 by done|rewrite H2 by done]; set_solver.
  - unfold add_subscriber. rewrite <- !orb_assoc.
    replace (ev_is_provided_ e || (ev_is_shadow_ e || ev_is_cache_placeholder_ e))
      with (takes_subscribers e) by (unfold takes_subscribers; by rewrite orb_assoc).
    destruct (force || takes_subscribers e); cbn [snd]; [|done]. split; [done|].
    intros g c. rewrite subscribes_insert, (elem_of_union _ _ (g, c)), <- Hr.
    change (default ∅ (ev_eventgroups_ e !! g0)) with (get_subscribers_of g0 e).
    destruct (decide (g = g0)) as [->|Hg].
    + rewrite bool_decide_true by done. rewrite subscribes_default. set_solver.
    + rewrite bool_decide_false by done. set_solver.
  - unfold remove_subscriber. destruct (ev_eventgroups_ e !! g0) as [s|] eqn:E; (split; [done|]); intros g c.
    + rewrite subscribes_insert, (elem_of_difference _ _ (g, c)), <- Hr.
      destruct (decide (g = g0)) as [->|Hg].
      * rewrite bool_decide_true by done.
        rewrite subscribes_default. unfold get_subscribers_of. rewrite E. set_solver.
      * rewrite bool_decide_false by done. set_solver.
    + rewrite elem_of_difference, <- Hr. split; [|tauto]. intros H. split; [done|].
      intros [= -> ->]%elem_of_singleton. destruct H as (s&Hs&_). congruence.
  - split; [done|]. intros g c. split; [|set_solver]. intros (s&Hs&Hc).
    cbn [clear_subscribers with_eventgroups ev_eventgroups_] in Hs.
    rewrite lookup_fmap in Hs. destruct (ev_eventgroups_ e !! g); simplify_eq/=. set_solver.
Qed.

Lemma get_subscribers_elem e c : c ∈ get_subscribers e ↔ ∃ g, subscribes e g c.
Proof.
  unfold get_subscribers, subscribes.
  apply (map_fold_weak_ind (λ r (m : gmap Z (gset Z)), c ∈ r ↔ ∃ g s, m !! g = Some s ∧ c ∈ s)).
  - split; [set_solver|]. intros (g&s&H&_). by rewrite lookup_empty in H.
  - intros g s m r Hg IH. rewrite elem_of_union, IH. split.
    + intros [Hc|(g'&s'&H&Hc)].
      * exists g, s. by rewrite lookup_insert_eq.
      * exists g', s'. rewrite lookup_insert_ne; [done|]. congruence.
    + intros (g'&s'&H&Hc). apply lookup_insert_Some in H as [[<- <-]|[_ H]]; eauto.
Qed.

Lemma is_subscribed_spec e c : is_subscribed c e = true ↔ ∃ g, subscribes e g c.
Proof.
  unfold is_subscribed, subscribes. rewrite existsb_exists. split.
  - intros ([g s]&Hin%list_elem_of_In&Hc%bool_decide_eq_true).
    exists g, s. by apply elem_of_map_to_list in Hin.
  - intros (g&s&Hg&Hc). exists (g, s). split; [|by apply bool_decide_eq_true].
    by apply list_elem_of_In, elem_of_map_to_list.
Qed.

Lemma get_eventgroups_of_spec e c g : g ∈ get_eventgroups_of c e ↔ subscribes e g c.
Proof.
  unfold get_eventgroups_of, subscribes. rewrite elem_of_dom. unfold is_Some.
  setoid_rewrite map_lookup_filter_Some. reflexivity.
Qed.

Lemma has_subscriber_spec e g c : has_subscriber g c e = true ↔
  if bool_decide (c = ANY_CLIENT) then ∃ c', subscribes e g c' else subscribes e g c.
Proof.
  unfold has_subscriber, subscribes. destruct (ev_eventgroups_ e !! g) as [s|] eqn:E.
  - case_bool_decide as Hc; rewrite bool_decide_eq_true.
    + split.
      * intros Hs. destruct (set_choose_L s) as [c' Hc']; [|eauto]. intros ->. by rewrite size_empty in Hs.
      * intros (c'&s'&[= <-]&Hc'). 
        assert (size s ≠ 0%nat) by (apply size_non_empty_iff; set_solver). lia.
    + split; [eauto|]. by intros (s'&[= <-]&?).
  - case_bool_decide; naive_solver.
Qed.

(** The subscribers of an event refine a set of pairs of eventgroup and client.  After
    any sequence of calls that add eventgroups, set them (which empties the ones that
    exist), add, remove or clear subscribers on a new event, all queries agree with the
    set of pairs these calls ask for: [has_subscriber], also for [ANY_CLIENT],
    [get_subscribers], the eventgroups of a client, and [is_subscribed]; and
    [add_subscriber] returns [true] exactly if it takes a subscriber that is not in the
    set yet. *)
Theorem subscribers_refine_pairs shadow ops :
  let e := foldl run_subscriber_op (event_new shadow) ops in
  let pairs := foldl (subscriber_step shadow) ∅ ops in
  (∀ g c, c ≠ ANY_CLIENT → has_subscriber g c e = bool_decide ((g, c) ∈ pairs)) ∧
  (∀ g, has_subscriber g ANY_CLIENT e = true ↔ ∃ c, (g, c) ∈ pairs) ∧
  (∀ c, c ∈ get_subscribers e ↔ ∃ g, (g, c) ∈ pairs) ∧
  (∀ g c, c ∈ get_subscribers_of g e ↔ (g, c) ∈ pairs) ∧
  (∀ g c, g ∈ get_eventgroups_of c e ↔ (g, c) ∈ pairs) ∧
  (∀ c, is_subscribed c e = true ↔ ∃ g, (g, c) ∈ pairs) ∧
  ∀ g c force, (add_subscriber g c force e).1 = (force || shadow) && bool_decide ((g, c) ∉ pairs).
Proof.
  intros e pairs.
  assert (H : takes_subscribers e = shadow ∧ ∀ g c, subscribes e g c ↔ (g, c) ∈ pairs).
  { subst e pairs. induction ops as [|op ops [IHt IH]] using rev_ind.
    - cbn [foldl]. split; [by destruct shadow|]. intros g c. split; [|set_solver].
      intros (s&Hs&_). cbn [event_new ev_eventgroups_] in Hs. by rewrite lookup_empty in Hs.
    - rewrite !foldl_app. cbn [foldl].
      destruct (subscriber_op_spec _ _ op IH) as [Ht Hr]. rewrite IHt in Ht, Hr. done. }
  destruct H as [Ht Hr]. split_and!.
  - intros g c Hc. apply eq_bool_prop_intro. rewrite !Is_true_true, has_subscriber_spec, bool_decide_eq_true.
    by rewrite (bool_decide_false (c = ANY_CLIENT)) by done.
  - intros g. rewrite has_subscriber_spec, (bool_decide_true (ANY_CLIENT = ANY_CLIENT)) by done.
    by setoid_rewrite Hr.
  - intros c. rewrite get_subscribers_elem. by setoid_rewrite Hr.
  - intros g c. by rewrite <- Hr, subscribes_default.
  - intros g c. by rewrite get_eventgroups_of_spec.
  - intros c. rewrite is_subscribed_spec. by setoid_rewrite Hr.
  - intros g c force. unfold add_subscriber. rewrite <- !orb_assoc.
    replace (ev_is_provided_ e || (ev_is_shadow_ e || ev_is_cache_placeholder_ e))
      with shadow by (rewrite <- Ht; unfold takes_subscribers; by rewrite orb_assoc).
    destruct (force || shadow); cbn [fst andb]; [|done]. apply bool_decide_ext.
    rewrite <- Hr, subscribes_default. done.
Qed.
