(* ===== verification/RemoteSubscription.v ===== *)
(** Remote subscriptions and endpoint definitions:
    [routing/src/remote_subscription.cpp] and [endpoints/src/endpoint_definition.cpp].

    A [shared_ptr] or [weak_ptr] is the identity of the object, an integer, and the null
    pointer is [None]; what a [weak_ptr] locks is decided where the owners are known.
    Times are in milliseconds of the steady clock, and [time_point()] is 0. *)
From S2P Require Import Prelude.

Inductive remote_subscription_state_e : Type :=
| SUBSCRIPTION_PENDING
| SUBSCRIPTION_ACKED
| SUBSCRIPTION_NACKED
| SUBSCRIPTION_ERROR
| SUBSCRIPTION_UNKNOWN.

#[export] Instance remote_subscription_state_e_eq_dec : EqDecision remote_subscription_state_e.
Proof. solve_decision. Defined.

Definition PENDING_SUBSCRIPTION_ID : Z := 0.
Definition DEFAULT_TTL : Z := 0xFFFFFF.

(** ** The subscription *)

Record remote_subscription : Type := Subscription {
  rs_id_ : Z;
  rs_is_initial_ : bool;
  rs_force_initial_events_ : bool;
  rs_parent_ : option Z;
  rs_eventgroupinfo_ : option Z;
  rs_major_ : Z;
  rs_ttl_ : Z;
  rs_reserved_ : Z;
  rs_counter_ : Z;
  rs_clients_ : gmap Z (remote_subscription_state_e * Z);
  rs_subscriber_ : option Z;
  rs_reliable_ : option Z;
  rs_unreliable_ : option Z;
  rs_answers_ : Z
}.

Definition rs_with_id (v : Z) (x : remote_subscription) : remote_subscription :=
  Subscription v (rs_is_initial_ x) (rs_force_initial_events_ x) (rs_parent_ x)
    (rs_eventgroupinfo_ x) (rs_major_ x) (rs_ttl_ x) (rs_reserved_ x) (rs_counter_ x)
    (rs_clients_ x) (rs_subscriber_ x) (rs_reliable_ x) (rs_unreliable_ x) (rs_answers_
    x).
Definition rs_with_is_initial (v : bool) (x : remote_subscription) : remote_subscription :=
  Subscription (rs_id_ x) v (rs_force_initial_events_ x) (rs_parent_ x)
    (rs_eventgroupinfo_ x) (rs_major_ x) (rs_ttl_ x) (rs_reserved_ x) (rs_counter_ x)
    (rs_clients_ x) (rs_subscriber_ x) (rs_reliable_ x) (rs_unreliable_ x) (rs_answers_
    x).
Definition rs_with_force_initial_events (v : bool) (x : remote_subscription) : remote_subscription :=
  Subscription (rs_id_ x) (rs_is_initial_ x) v (rs_parent_ x) (rs_eventgroupinfo_ x)
    (rs_major_ x) (rs_ttl_ x) (rs_reserved_ x) (rs_counter_ x) (rs_clients_ x)
    (rs_subscriber_ x) (rs_reliable_ x) (rs_unreliable_ x) (rs_answers_ x).
Definition rs_with_parent (v : option Z) (x : remote_subscription) : remote_subscription :=
  Subscription (rs_id_ x) (rs_is_initial_ x) (rs_force_initial_events_ x) v
    (rs_eventgroupinfo_ x) (rs_major_ x) (rs_ttl_ x) (rs_reserved_ x) (rs_counter_ x)
    (rs_clients_ x) (rs_subscriber_ x) (rs_reliable_ x) (rs_unreliable_ x) (rs_answers_
    x).
Definition rs_with_eventgroupinfo (v : option Z) (x : remote_subscription) : remote_subscription :=
  Subscription (rs_id_ x) (rs_is_initial_ x) (rs_force_initial_events_ x) (rs_parent_ x)
    v (rs_major_ x) (rs_ttl_ x) (rs_reserved_ x) (rs_counter_ x) (rs_clients_ x)
    (rs_subscriber_ x) (rs_reliable_ x) (rs_unreliable_ x) (rs_answers_ x).
Definition rs_with_major (v : Z) (x : remote_subscription) : remote_subscription :=
  Subscription (rs_id_ x) (rs_is_initial_ x) (rs_force_initial_events_ x) (rs_parent_ x)
    (rs_eventgroupinfo_ x) v (rs_ttl_ x) (rs_reserved_ x) (rs_counter_ x) (rs_clients_
    x) (rs_subscriber_ x) (rs_reliable_ x) (rs_unreliable_ x) (rs_answers_ x).
Definition rs_with_ttl (v : Z) (x : remote_subscription) : remote_subscription :=
  Subscription (rs_id_ x) (rs_is_initial_ x) (rs_force_initial_events_ x) (rs_parent_ x)
    (rs_eventgroupinfo_ x) (rs_major_ x) v (rs_reserved_ x) (rs_counter_ x) (rs_clients_
    x) (rs_subscriber_ x) (rs_reliable_ x) (rs_unreliable_ x) (rs_answers_ x).
Definition rs_with_reserved (v : Z) (x : remote_subscription) : remote_subscription :=
  Subscription (rs_id_ x) (rs_is_initial_ x) (rs_force_initial_events_ x) (rs_parent_ x)
    (rs_eventgroupinfo_ x) (rs_major_ x) (rs_ttl_ x) v (rs_counter_ x) (rs_clients_ x)
    (rs_subscriber_ x) (rs_reliable_ x) (rs_unreliable_ x) (rs_answers_ x).
Definition rs_with_counter (v : Z) (x : remote_subscription) : remote_subscription :=
  Subscription (rs_id_ x) (rs_is_initial_ x) (rs_force_initial_events_ x) (rs_parent_ x)
    (rs_eventgroupinfo_ x) (rs_major_ x) (rs_ttl_ x) (rs_reserved_ x) v (rs_clients_ x)
    (rs_subscriber_ x) (rs_reliable_ x) (rs_unreliable_ x) (rs_answers_ x).
Definition rs_with_clients (v : gmap Z (remote_subscription_state_e * Z)) (x : remote_subscription) : remote_subscription :=
  Subscription (rs_id_ x) (rs_is_initial_ x) (rs_force_initial_events_ x) (rs_parent_ x)
    (rs_eventgroupinfo_ x) (rs_major_ x) (rs_ttl_ x) (rs_reserved_ x) (rs_counter_ x) v
    (rs_subscriber_ x) (rs_reliable_ x) (rs_unreliable_ x) (rs_answers_ x).
Definition rs_with_subscriber (v : option Z) (x : remote_subscription) : remote_subscription :=
  Subscription (rs_id_ x) (rs_is_initial_ x) (rs_force_initial_events_ x) (rs_parent_ x)
    (rs_eventgroupinfo_ x) (rs_major_ x) (rs_ttl_ x) (rs_reserved_ x) (rs_counter_ x)
    (rs_clients_ x) v (rs_reliable_ x) (rs_unreliable_ x) (rs_answers_ x).
Definition rs_with_reliable (v : option Z) (x : remote_subscription) : remote_subscription :=
  Subscription (rs_id_ x) (rs_is_initial_ x) (rs_force_initial_events_ x) (rs_parent_ x)
    (rs_eventgroupinfo_ x) (rs_major_ x) (rs_ttl_ x) (rs_reserved_ x) (rs_counter_ x)
    (rs_clients_ x) (rs_subscriber_ x) v (rs_unreliable_ x) (rs_answers_ x).
Definition rs_with_unreliable (v : option Z) (x : remote_subscription) : remote_subscription :=
  Subscription (rs_id_ x) (rs_is_initial_ x) (rs_force_initial_events_ x) (rs_parent_ x)
    (rs_eventgroupinfo_ x) (rs_major_ x) (rs_ttl_ x) (rs_reserved_ x) (rs_counter_ x)
    (rs_clients_ x) (rs_subscriber_ x) (rs_reliable_ x) v (rs_answers_ x).
Definition rs_with_answers (v : Z) (x : remote_subscription) : remote_subscription :=
  Subscription (rs_id_ x) (rs_is_initial_ x) (rs_force_initial_events_ x) (rs_parent_ x)
    (rs_eventgroupinfo_ x) (rs_major_ x) (rs_ttl_ x) (rs_reserved_ x) (rs_counter_ x)
    (rs_clients_ x) (rs_subscriber_ x) (rs_reliable_ x) (rs_unreliable_ x) v.

Definition remote_subscription_new : remote_subscription :=
  Subscription PENDING_SUBSCRIPTION_ID true false None None 0x00 DEFAULT_TTL 0 0 ∅ None None None 1.

(** [operator==], given what the weak pointers of the two objects lock: endpoints count
    as equal when one of them is missing. *)
Definition endpoints_equal (a b : option Z) : bool :=
  match a, b with Some x, Some y => bool_decide (x = y) | _, _ => true end.
Definition equals (own_egi other_egi : option Z) (s other : remote_subscription) : bool :=
  match own_egi, other_egi with
  | Some x, Some y =>
      bool_decide (x = y) && endpoints_equal (rs_unreliable_ s) (rs_unreliable_ other)
      && endpoints_equal (rs_reliable_ s) (rs_reliable_ other)
  | _, _ => false
  end.

Definition reset (clients : gset Z) (s : remote_subscription) : remote_subscription :=
  let its_client_state := (SUBSCRIPTION_PENDING, 0) in
  rs_with_clients
    (if bool_decide (clients = ∅) then <[0 := its_client_state]> (rs_clients_ s)
     else set_fold (λ c m, <[c := its_client_state]> m) (rs_clients_ s) clients) s.

Definition get_clients (s : remote_subscription) : gset Z := dom (rs_clients_ s).
Definition has_clients (s : remote_subscription) : bool := bool_decide (rs_clients_ s ≠ ∅).
Definition has_client (c : Z) (s : remote_subscription) : bool :=
  bool_decide (is_Some (rs_clients_ s !! c)).
Definition remove_client (c : Z) (s : remote_subscription) : remote_subscription :=
  rs_with_clients (delete c (rs_clients_ s)) s.

Definition get_client_state (c : Z) (s : remote_subscription) : remote_subscription_state_e :=
  match rs_clients_ s !! c with Some (state, _) => state | None => SUBSCRIPTION_UNKNOWN end.

Definition set_client_state (now c : Z) (state : remote_subscription_state_e)
    (s : remote_subscription) : remote_subscription :=
  match rs_clients_ s !! c with
  | Some (_, t) =>
      let t := if bool_decide (t = 0)
                  && (bool_decide (state = SUBSCRIPTION_ACKED) || bool_decide (state = SUBSCRIPTION_NACKED))
               then now + rs_ttl_ s * 1000 else t in
      rs_with_clients (<[c := (state, t)]> (rs_clients_ s)) s
  | None => s
  end.

Definition set_all_client_states (state : remote_subscription_state_e)
    (s : remote_subscription) : remote_subscription :=
  rs_with_clients ((λ x, (state, x.2)) <$> rs_clients_ s) s.

Definition is_pending (s : remote_subscription) : bool :=
  existsb (λ x : Z * (remote_subscription_state_e * Z), bool_decide (x.2.1 = SUBSCRIPTION_PENDING))
    (map_to_list (rs_clients_ s)).
Definition is_acknowledged (s : remote_subscription) : bool :=
  forallb (λ x : Z * (remote_subscription_state_e * Z), bool_decide (x.2.1 = SUBSCRIPTION_ACKED))
    (map_to_list (rs_clients_ s)).

Definition get_expiration (now c : Z) (s : remote_subscription) : Z :=
  match rs_clients_ s !! c with Some (_, t) => t | None => now end.

(** The first loop of [update] over the clients of a request: renew the known ones and
    collect the ones that change. *)
Definition update_collect (clients : gset Z) (timepoint : Z) (is_subscribe : bool)
    (m : gmap Z (remote_subscription_state_e * Z)) :
    gset Z * gmap Z (remote_subscription_state_e * Z) :=
  set_fold (λ c '(its_changed, m),
    match m !! c with
    | Some (state, _) =>
        if is_subscribe then (its_changed, <[c := (state, timepoint)]> m)
        else ({[c]} ∪ its_changed, m)
    | None => if is_subscribe then ({[c]} ∪ its_changed, m) else (its_changed, m)
    end) (∅, m) clients.

(** The second loop: add or remove the changed ones. *)
Definition update_apply (its_changed : gset Z) (timepoint : Z) (is_subscribe : bool)
    (m : gmap Z (remote_subscription_state_e * Z)) : gmap Z (remote_subscription_state_e * Z) :=
  set_fold (λ c m, if is_subscribe then <[c := (SUBSCRIPTION_PENDING, timepoint)]> m else delete c m)
    m its_changed.

Definition update (clients : gset Z) (timepoint : Z) (is_subscribe : bool)
    (s : remote_subscription) : gset Z * remote_subscription :=
  let '(its_changed, m) := update_collect clients timepoint is_subscribe (rs_clients_ s) in
  (its_changed, rs_with_clients (update_apply its_changed timepoint is_subscribe m) s).

(** ** Endpoint definitions

    An address of [boost::asio::ip] is an opaque value, an integer. *)
Record endpoint_definition : Type := EndpointDefinition {
  ed_address_ : Z;
  ed_port_ : Z;
  ed_remote_port_ : Z;
  ed_is_reliable_ : bool
}.

Definition endpoint_definition_new (address port : Z) (is_reliable : bool) : endpoint_definition :=
  EndpointDefinition address port port is_reliable.
Definition set_remote_port (port : Z) (d : endpoint_definition) : endpoint_definition :=
  EndpointDefinition (ed_address_ d) (ed_port_ d) port (ed_is_reliable_ d).

(** The objects that exist, by identity, and the static map [definitions_]. *)
Record definitions : Type := Definitions {
  objects : gmap Z endpoint_definition;
  definitions_ : gmap (Z * Z * Z * Z * bool) Z
}.

(** [endpoint_definition::get]: [std::make_shared] yields an object that does not exist
    yet. *)
Definition endpoint_definition_get (address port : Z) (is_reliable : bool)
    (service instance : Z) (s : definitions) : Z * definitions :=
  let key := (service, instance, address, port, is_reliable) in
  match definitions_ s !! key with
  | Some p => (p, s)
  | None =>
      let p := fresh (dom (objects s)) in
      (p, Definitions (<[p := endpoint_definition_new address port is_reliable]> (objects s))
            (<[key := p]> (definitions_ s)))
  end.

(** ** What an update does *)

Lemma update_collect_spec clients t sub m : let r := update_collect clients t sub m in
  r.1 = (if sub then clients ∖ dom m else clients ∩ dom m) ∧
  ∀ c, (c ∈ clients → r.2 !! c = if sub : bool then (λ x, (x.1, t)) <$> m !! c else m !! c) ∧
       (c ∉ clients → r.2 !! c = m !! c).
Proof.
  unfold update_collect.
  apply (set_fold_ind_L (λ r X, r.1 = (if sub then X ∖ dom m else X ∩ dom m) ∧
    ∀ c, (c ∈ X → r.2 !! c = if sub : bool then (λ x, (x.1, t)) <$> m !! c else m !! c) ∧
         (c ∉ X → r.2 !! c = m !! c))).
  { split; [destruct sub; set_solver|set_solver]. }
  intros x X [ch m'] Hx [H1 H2]. cbn in H1, H2. destruct (H2 x) as [_ Hxm].
  specialize (Hxm Hx). rewrite Hxm.
  destruct (m !! x) as [[st t0]|] eqn:E.
  - assert (x ∈ dom m) by (by eapply elem_of_dom_2). destruct sub; cbn.
    + split; [set_solver|]. intros c. destruct (decide (c = x)) as [->|Hc].
      * rewrite lookup_insert_eq, E. set_solver.
      * rewrite lookup_insert_ne by done. specialize (H2 c). set_solver.
    + split; [set_solver|]. intros c. destruct (decide (c = x)) as [->|Hc].
      * rewrite Hxm, E. set_solver.
      * specialize (H2 c). set_solver.
  - assert (x ∉ dom m) by (by apply not_elem_of_dom). destruct sub; cbn.
    + split; [set_solver|]. intros c. destruct (decide (c = x)) as [->|Hc].
      * rewrite Hxm, E. set_solver.
      * specialize (H2 c). set_solver.
    + split; [set_solver|]. intros c. destruct (decide (c = x)) as [->|Hc].
      * rewrite Hxm, E. set_solver.
      * specialize (H2 c). set_solver.
Qed.

Lemma update_apply_spec ch t sub m c :
  (c ∈ ch → update_apply ch t sub m !! c = if sub : bool then Some (SUBSCRIPTION_PENDING, t) else None) ∧
  (c ∉ ch → update_apply ch t sub m !! c = m !! c).
Proof.
  unfold update_apply.
  apply (set_fold_ind_L (λ r X, (c ∈ X → r !! c = if sub : bool then Some (SUBSCRIPTION_PENDING, t) else None) ∧
    (c ∉ X → r !! c = m !! c))); [set_solver|].
  intros x X r Hx IH. destruct (decide (c = x)) as [->|Hc].
  - destruct sub; [rewrite lookup_insert_eq|rewrite lookup_delete_eq]; set_solver.
  - destruct sub; [rewrite lookup_insert_ne by done|rewrite lookup_delete_ne by done]; set_solver.
Qed.

Lemma update_result clients t is_subscribe s :
  let '(its_changed, s') := update clients t is_subscribe s in
  its_changed = (if is_subscribe then clients ∖ get_clients s else clients ∩ get_clients s) ∧
  get_clients s' = (if is_subscribe then clients ∪ get_clients s else get_clients s ∖ clients) ∧
  ∀ c, rs_clients_ s' !! c =
    if bool_decide (c ∈ clients) then
      if is_subscribe : bool then
        Some (from_option fst SUBSCRIPTION_PENDING (rs_clients_ s !! c), t)
      else None
    else rs_clients_ s !! c.
Proof.
  unfold update, get_clients.
  pose proof (update_collect_spec clients t is_subscribe (rs_clients_ s)) as Hc.
  destruct (update_collect clients t is_subscribe (rs_clients_ s)) as [ch m]. cbn [fst snd] in Hc.
  destruct Hc as [Hch Hm]. cbn [rs_with_clients rs_clients_].
  assert (Hl : ∀ c, update_apply ch t is_subscribe m !! c =
    if bool_decide (c ∈ clients) then
      if is_subscribe : bool then
        Some (from_option fst SUBSCRIPTION_PENDING (rs_clients_ s !! c), t)
      else None
    else rs_clients_ s !! c).
  { intros c. destruct (update_apply_spec ch t is_subscribe m c) as [Hin Hout].
    destruct (Hm c) as [Hm1 Hm2].
    case_bool_decide as Hcl.
    - specialize (Hm1 Hcl). destruct is_subscribe, (rs_clients_ s !! c) as [[st t0]|] eqn:E; cbn.
      + rewrite Hout, Hm1; [done|]. apply elem_of_dom_2 in E. rewrite Hch. set_solver.
      + apply Hin. apply not_elem_of_dom in E. rewrite Hch. set_solver.
      + apply Hin. apply elem_of_dom_2 in E. rewrite Hch. set_solver.
      + rewrite Hout, Hm1; [done|]. apply not_elem_of_dom in E. rewrite Hch. set_solver.
    - rewrite Hout by (rewrite Hch; destruct is_subscribe; set_solver). auto. }
  split_and!; [done| |done].
  apply set_eq. intros c. rewrite elem_of_dom, Hl. pose proof (elem_of_dom (rs_clients_ s) c).
  case_bool_decide; destruct is_subscribe; set_solver.
Qed.

Lemma update_frame clients t b s :
  (update clients t b s).2 = rs_with_clients (rs_clients_ (update clients t b s).2) s.
Proof. unfold update. by destruct (update_collect _ _ _ _). Qed.

(** [update] of a remote subscription for a set of clients.  On a subscribe, the
    clients reported as changed are exactly the ones that were not subscribed; they
    become pending, the known ones keep their state, and all get the new expiration.  On
    an unsubscribe, the ones reported are those that were subscribed, and all are
    removed.  Other clients keep state and expiration. *)
Theorem update_spec clients t is_subscribe s :
  let '(its_changed, s') := update clients t is_subscribe s in
  its_changed = (if is_subscribe then clients ∖ get_clients s else clients ∩ get_clients s) ∧
  get_clients s' = (if is_subscribe then clients ∪ get_clients s else get_clients s ∖ clients) ∧
  ∀ c, rs_clients_ s' !! c =
    if bool_decide (c ∈ clients) then
      if is_subscribe : bool then
        Some (from_option fst SUBSCRIPTION_PENDING (rs_clients_ s !! c), t)
      else None
    else rs_clients_ s !! c.
Proof. apply update_result. Qed.

Lemma is_pending_spec s : is_pending s = true ↔ ∃ c, get_client_state c s = SUBSCRIPTION_PENDING.
Proof.
  unfold is_pending, get_client_state. rewrite existsb_exists. split.
  - intros ([c [st t]]&Hin%list_elem_of_In&H%bool_decide_eq_true). cbn in H.
    apply elem_of_map_to_list in Hin. exists c. by rewrite Hin.
  - intros (c&H). destruct (rs_clients_ s !! c) as [[st t]|] eqn:E; [|done].
    exists (c, (st, t)). split; [by apply list_elem_of_In, elem_of_map_to_list|].
    by apply bool_decide_eq_true.
Qed.

(** ** Endpoint definitions are interned *)

Definition definition_key : Type := Z * Z * Z * Z * bool.
Definition get_by_key (k : definition_key) (s : definitions) : Z * definitions :=
  let '(service, instance, address, port, is_reliable) := k in
  endpoint_definition_get address port is_reliable service instance s.

(** Calls of [get], which are logged with their results, and of [set_remote_port] on an
    existing object. *)
Inductive definition_op : Type := Get (k : definition_key) | SetRemotePort (p port : Z).

Definition run_definition_op (x : list (definition_key * Z) * definitions) (op : definition_op) :
    list (definition_key * Z) * definitions :=
  match op with
  | Get k => let '(p, s) := get_by_key k x.2 in (x.1 ++ [(k, p)], s)
  | SetRemotePort p port =>
      (x.1, Definitions (alter (set_remote_port port) p (objects x.2)) (definitions_ x.2))
  end.

(** The object of a key has its address, port and reliability. *)
Definition object_of (k : definition_key) (d : endpoint_definition) : Prop :=
  let '(_, _, address, port, is_reliable) := k in
  ed_address_ d = address ∧ ed_port_ d = port ∧ ed_is_reliable_ d = is_reliable.

Definition definitions_inv (x : list (definition_key * Z) * definitions) : Prop :=
  (∀ k p, definitions_ x.2 !! k = Some p → ∃ d, objects x.2 !! p = Some d ∧ object_of k d) ∧
  (∀ k k' p, definitions_ x.2 !! k = Some p → definitions_ x.2 !! k' = Some p → k = k') ∧
  (∀ k p, (k, p) ∈ x.1 → definitions_ x.2 !! k = Some p).

Lemma get_by_key_spec k s : let '(p, s') := get_by_key k s in
  (definitions_ s !! k = Some p ∧ s' = s) ∨
  (definitions_ s !! k = None ∧ objects s !! p = None ∧ definitions_ s' = <[k := p]> (definitions_ s) ∧
   ∃ d, objects s' = <[p := d]> (objects s) ∧ object_of k d).
Proof.
  destruct k as [[[[service instance] address] port] is_reliable]. cbn [get_by_key].
  unfold endpoint_definition_get. destruct (definitions_ s !! _) eqn:E; [by left|].
  right. split_and!; [done|apply not_elem_of_dom, is_fresh|done|]. eexists. by split.
Qed.

Lemma definitions_inv_step x op : definitions_inv x → definitions_inv (run_definition_op x op).
Proof.
  destruct x as [log s]. intros (H1&H2&H3). cbn in H1, H2, H3. destruct op as [k|p port]; cbn [run_definition_op fst snd].
  - pose proof (get_by_key_spec k s) as Hg. destruct (get_by_key k s) as [p s'].
    destruct Hg as [[Hk ->]|(Hk&Hp&Hd&d&Ho&Hod)]; unfold definitions_inv; cbn [fst snd].
    + split_and!; [done|done|]. intros k' p' [H|[= -> ->]%list_elem_of_singleton]%elem_of_app; auto.
    + rewrite Hd, Ho. split_and!.
      * intros k' p' [[<- <-]|[_ H]]%lookup_insert_Some; [rewrite lookup_insert_eq; eauto|].
        destruct (H1 k' p' H) as (d'&Hd'&?). exists d'. rewrite lookup_insert_ne; [done|congruence].
      * intros k1 k2 q [[<- <-]|[? E1]]%lookup_insert_Some [[<- E2]|[? E2]]%lookup_insert_Some;
          [done|..]; try (destruct (H1 _ _ E2) as (?&?&?); congruence).
        { subst. destruct (H1 _ _ E1) as (?&?&?). congruence. }
        by eapply H2.
      * intros k' p' [H|[= -> ->]%list_elem_of_singleton]%elem_of_app; [|by rewrite lookup_insert_eq].
        apply H3 in H. rewrite lookup_insert_ne; congruence.
  - split_and!; cbn [fst snd definitions_ objects]; [|done|done].
    intros k q Hk. destruct (H1 k q Hk) as (d&Hd&Ho). rewrite lookup_alter. case_decide; [subst|by eauto].
    rewrite Hd. eexists. split; [done|]. destruct k as [[[[? ?] ?] ?] ?]. exact Ho.
Qed.

(** Endpoint definitions are interned: in any sequence of calls of
    [endpoint_definition::get] and [set_remote_port], two calls of [get] return the same
    object exactly if they are for the same service, instance, address, port and
    protocol, and the object has this address, port and protocol.  Comparing the
    pointers, as subscriptions do, therefore compares the endpoints. *)
Theorem definitions_interned ops :
  let '(log, s) := foldl run_definition_op ([], Definitions ∅ ∅) ops in
  ∀ k k' p p', (k, p) ∈ log → (k', p') ∈ log →
    (p = p' ↔ k = k') ∧ ∃ d, objects s !! p = Some d ∧ object_of k d.
Proof.
  assert (H : definitions_inv (foldl run_definition_op ([], Definitions ∅ ∅) ops)).
  { assert (H0 : definitions_inv ([], Definitions ∅ ∅)) by (split_and!; cbn; set_solver).
    revert H0. generalize (([] : list (definition_key * Z)), Definitions ∅ ∅). induction ops as [|op ops IH]; intros x Hx; [done|].
    cbn [foldl]. by apply IH, definitions_inv_step. }
  destruct (foldl run_definition_op _ ops) as [log s]. destruct H as (H1&H2&H3). cbn in H1, H2, H3.
  intros k k' p p' Hk%H3 Hk'%H3. split; [|by apply H1].
  split; [intros ->; by eapply H2|intros ->; congruence].
Qed.
