(* ===== verification/Eventgroups.v ===== *)
(** Eventgroups and their remote subscriptions: [routing/src/eventgroupinfo.cpp], and the
    handlers of [routing/src/routing_manager_impl.cpp] that subscribe, acknowledge,
    unsubscribe and expire remote subscriptions.

    Subscriptions, eventgroups and events are shared objects: the state keeps them by
    identity, and an operation on an object changes it for all that refer to it.  A
    subscription is owned by the eventgroups that list it and by the callers that hold
    it; a weak pointer to it locks only while it has an owner.  [subscriptions_] is a
    [std::map], which is searched in the order of the identifiers.  The clock stands
    still within one handler. *)
From S2P Require Import Prelude Message Event RemoteSubscription.

Inductive subscription_state_e : Type :=
| SUBSCRIPTION_ACKNOWLEDGED
| SUBSCRIPTION_NOT_ACKNOWLEDGED
| IS_SUBSCRIBING.
#[export] Instance subscription_state_e_eq_dec : EqDecision subscription_state_e.
Proof. solve_decision. Defined.

Definition ILLEGAL_PORT : Z := 0.
Definition ANY_EVENT : Z := 0xFFFF.

Record eventgroupinfo : Type := Eventgroupinfo {
  eg_service_ : Z;
  eg_instance_ : Z;
  eg_eventgroup_ : Z;
  eg_major_ : Z;
  eg_ttl_ : Z;
  eg_address_ : Z;
  eg_port_ : Z;
  eg_events_ : gset Z;
  eg_threshold_ : Z;
  eg_subscriptions_ : gmap Z Z;
  eg_id_ : Z;
  eg_reliability_ : reliability_type_e;
  eg_reliability_auto_mode_ : bool
}.

Definition eg_with_service (v : Z) (x : eventgroupinfo) : eventgroupinfo :=
  Eventgroupinfo v (eg_instance_ x) (eg_eventgroup_ x) (eg_major_ x) (eg_ttl_ x)
    (eg_address_ x) (eg_port_ x) (eg_events_ x) (eg_threshold_ x) (eg_subscriptions_ x)
    (eg_id_ x) (eg_reliability_ x) (eg_reliability_auto_mode_ x).
Definition eg_with_instance (v : Z) (x : eventgroupinfo) : eventgroupinfo :=
  Eventgroupinfo (eg_service_ x) v (eg_eventgroup_ x) (eg_major_ x) (eg_ttl_ x)
    (eg_address_ x) (eg_port_ x) (eg_events_ x) (eg_threshold_ x) (eg_subscriptions_ x)
    (eg_id_ x) (eg_reliability_ x) (eg_reliability_auto_mode_ x).
Definition eg_with_eventgroup (v : Z) (x : eventgroupinfo) : eventgroupinfo :=
  Eventgroupinfo (eg_service_ x) (eg_instance_ x) v (eg_major_ x) (eg_ttl_ x)
    (eg_address_ x) (eg_port_ x) (eg_events_ x) (eg_threshold_ x) (eg_subscriptions_ x)
    (eg_id_ x) (eg_reliability_ x) (eg_reliability_auto_mode_ x).
Definition eg_with_major (v : Z) (x : eventgroupinfo) : eventgroupinfo :=
  Eventgroupinfo (eg_service_ x) (eg_instance_ x) (eg_eventgroup_ x) v (eg_ttl_ x)
    (eg_address_ x) (eg_port_ x) (eg_events_ x) (eg_threshold_ x) (eg_subscriptions_ x)
    (eg_id_ x) (eg_reliability_ x) (eg_reliability_auto_mode_ x).
Definition eg_with_ttl (v : Z) (x : eventgroupinfo) : eventgroupinfo :=
  Eventgroupinfo (eg_service_ x) (eg_instance_ x) (eg_eventgroup_ x) (eg_major_ x) v
    (eg_address_ x) (eg_port_ x) (eg_events_ x) (eg_threshold_ x) (eg_subscriptions_ x)
    (eg_id_ x) (eg_reliability_ x) (eg_reliability_auto_mode_ x).
Definition eg_with_address (v : Z) (x : eventgroupinfo) : eventgroupinfo :=
  Eventgroupinfo (eg_service_ x) (eg_instance_ x) (eg_eventgroup_ x) (eg_major_ x)
    (eg_ttl_ x) v (eg_port_ x) (eg_events_ x) (eg_threshold_ x) (eg_subscriptions_ x)
    (eg_id_ x) (eg_reliability_ x) (eg_reliability_auto_mode_ x).
Definition eg_with_port (v : Z) (x : eventgroupinfo) : eventgroupinfo :=
  Eventgroupinfo (eg_service_ x) (eg_instance_ x) (eg_eventgroup_ x) (eg_major_ x)
    (eg_ttl_ x) (eg_address_ x) v (eg_events_ x) (eg_threshold_ x) (eg_subscriptions_ x)
    (eg_id_ x) (eg_reliability_ x) (eg_reliability_auto_mode_ x).
Definition eg_with_events (v : gset Z) (x : eventgroupinfo) : eventgroupinfo :=
  Eventgroupinfo (eg_service_ x) (eg_instance_ x) (eg_eventgroup_ x) (eg_major_ x)
    (eg_ttl_ x) (eg_address_ x) (eg_port_ x) v (eg_threshold_ x) (eg_subscriptions_ x)
    (eg_id_ x) (eg_reliability_ x) (eg_reliability_auto_mode_ x).
Definition eg_with_threshold (v : Z) (x : eventgroupinfo) : eventgroupinfo :=
  Eventgroupinfo (eg_service_ x) (eg_instance_ x) (eg_eventgroup_ x) (eg_major_ x)
    (eg_ttl_ x) (eg_address_ x) (eg_port_ x) (eg_events_ x) v (eg_subscriptions_ x)
    (eg_id_ x) (eg_reliability_ x) (eg_reliability_auto_mode_ x).
Definition eg_with_subscriptions (v : gmap Z Z) (x : eventgroupinfo) : eventgroupinfo :=
  Eventgroupinfo (eg_service_ x) (eg_instance_ x) (eg_eventgroup_ x) (eg_major_ x)
    (eg_ttl_ x) (eg_address_ x) (eg_port_ x) (eg_events_ x) (eg_threshold_ x) v (eg_id_
    x) (eg_reliability_ x) (eg_reliability_auto_mode_ x).
Definition eg_with_id (v : Z) (x : eventgroupinfo) : eventgroupinfo :=
  Eventgroupinfo (eg_service_ x) (eg_instance_ x) (eg_eventgroup_ x) (eg_major_ x)
    (eg_ttl_ x) (eg_address_ x) (eg_port_ x) (eg_events_ x) (eg_threshold_ x)
    (eg_subscriptions_ x) v (eg_reliability_ x) (eg_reliability_auto_mode_ x).
Definition eg_with_reliability (v : reliability_type_e) (x : eventgroupinfo) : eventgroupinfo :=
  Eventgroupinfo (eg_service_ x) (eg_instance_ x) (eg_eventgroup_ x) (eg_major_ x)
    (eg_ttl_ x) (eg_address_ x) (eg_port_ x) (eg_events_ x) (eg_threshold_ x)
    (eg_subscriptions_ x) (eg_id_ x) v (eg_reliability_auto_mode_ x).
Definition eg_with_reliability_auto_mode (v : bool) (x : eventgroupinfo) : eventgroupinfo :=
  Eventgroupinfo (eg_service_ x) (eg_instance_ x) (eg_eventgroup_ x) (eg_major_ x)
    (eg_ttl_ x) (eg_address_ x) (eg_port_ x) (eg_events_ x) (eg_threshold_ x)
    (eg_subscriptions_ x) (eg_id_ x) (eg_reliability_ x) v.

(** What the handlers ask of other parts: the callback of service discovery, the
    offering application, service discovery, and the subscribing applications. *)
Inductive action : Type :=
| Callback (p : Z)
| SendSubscription (offering_client service instance eventgroup major : Z) (clients : gset Z) (id : Z)
| SendUnsubscription (offering_client service instance eventgroup major : Z) (clients : gset Z) (id : Z)
| DiscoveryUpdate (p : Z)
| OnSubscriptionStatus (service instance eventgroup event : Z)
| SendSubscribeAck (client service instance eventgroup event : Z).

Record routing : Type := Routing {
  r_groups : gmap Z eventgroupinfo;
  r_eventgroups_ : gmap (Z * Z * Z) Z;
  r_subs : gmap Z remote_subscription;
  r_held : gset Z;
  r_events : gmap Z event;
  r_endpoints : gmap Z endpoint_definition;
  r_remote_subscribers_ : gmap (Z * Z) (gmap Z (gset (option Z)));
  r_remote_subscription_state_ : gmap (Z * Z * Z * Z) subscription_state_e;
  r_clock : Z;
  r_has_sessions : bool;
  r_session_ : Z;
  r_sent : list sending;
  r_actions : list action
}.

Definition r_with_groups (v : gmap Z eventgroupinfo) (x : routing) : routing :=
  Routing v (r_eventgroups_ x) (r_subs x) (r_held x) (r_events x) (r_endpoints x)
    (r_remote_subscribers_ x) (r_remote_subscription_state_ x) (r_clock x)
    (r_has_sessions x) (r_session_ x) (r_sent x) (r_actions x).
Definition r_with_eventgroups (v : gmap (Z * Z * Z) Z) (x : routing) : routing :=
  Routing (r_groups x) v (r_subs x) (r_held x) (r_events x) (r_endpoints x)
    (r_remote_subscribers_ x) (r_remote_subscription_state_ x) (r_clock x)
    (r_has_sessions x) (r_session_ x) (r_sent x) (r_actions x).
Definition r_with_subs (v : gmap Z remote_subscription) (x : routing) : routing :=
  Routing (r_groups x) (r_eventgroups_ x) v (r_held x) (r_events x) (r_endpoints x)
    (r_remote_subscribers_ x) (r_remote_subscription_state_ x) (r_clock x)
    (r_has_sessions x) (r_session_ x) (r_sent x) (r_actions x).
Definition r_with_held (v : gset Z) (x : routing) : routing :=
  Routing (r_groups x) (r_eventgroups_ x) (r_subs x) v (r_events x) (r_endpoints x)
    (r_remote_subscribers_ x) (r_remote_subscription_state_ x) (r_clock x)
    (r_has_sessions x) (r_session_ x) (r_sent x) (r_actions x).
Definition r_with_events (v : gmap Z event) (x : routing) : routing :=
  Routing (r_groups x) (r_eventgroups_ x) (r_subs x) (r_held x) v (r_endpoints x)
    (r_remote_subscribers_ x) (r_remote_subscription_state_ x) (r_clock x)
    (r_has_sessions x) (r_session_ x) (r_sent x) (r_actions x).
Definition r_with_endpoints (v : gmap Z endpoint_definition) (x : routing) : routing :=
  Routing (r_groups x) (r_eventgroups_ x) (r_subs x) (r_held x) (r_events x) v
    (r_remote_subscribers_ x) (r_remote_subscription_state_ x) (r_clock x)
    (r_has_sessions x) (r_session_ x) (r_sent x) (r_actions x).
Definition r_with_remote_subscribers (v : gmap (Z * Z) (gmap Z (gset (option Z)))) (x : routing) : routing :=
  Routing (r_groups x) (r_eventgroups_ x) (r_subs x) (r_held x) (r_events x)
    (r_endpoints x) v (r_remote_subscription_state_ x) (r_clock x) (r_has_sessions x)
    (r_session_ x) (r_sent x) (r_actions x).
Definition r_with_remote_subscription_state (v : gmap (Z * Z * Z * Z) subscription_state_e) (x : routing) : routing :=
  Routing (r_groups x) (r_eventgroups_ x) (r_subs x) (r_held x) (r_events x)
    (r_endpoints x) (r_remote_subscribers_ x) v (r_clock x) (r_has_sessions x)
    (r_session_ x) (r_sent x) (r_actions x).
Definition r_with_clock (v : Z) (x : routing) : routing :=
  Routing (r_groups x) (r_eventgroups_ x) (r_subs x) (r_held x) (r_events x)
    (r_endpoints x) (r_remote_subscribers_ x) (r_remote_subscription_state_ x) v
    (r_has_sessions x) (r_session_ x) (r_sent x) (r_actions x).
Definition r_with_has_sessions (v : bool) (x : routing) : routing :=
  Routing (r_groups x) (r_eventgroups_ x) (r_subs x) (r_held x) (r_events x)
    (r_endpoints x) (r_remote_subscribers_ x) (r_remote_subscription_state_ x) (r_clock
    x) v (r_session_ x) (r_sent x) (r_actions x).
Definition r_with_session (v : Z) (x : routing) : routing :=
  Routing (r_groups x) (r_eventgroups_ x) (r_subs x) (r_held x) (r_events x)
    (r_endpoints x) (r_remote_subscribers_ x) (r_remote_subscription_state_ x) (r_clock
    x) (r_has_sessions x) v (r_sent x) (r_actions x).
Definition r_with_sent (v : list sending) (x : routing) : routing :=
  Routing (r_groups x) (r_eventgroups_ x) (r_subs x) (r_held x) (r_events x)
    (r_endpoints x) (r_remote_subscribers_ x) (r_remote_subscription_state_ x) (r_clock
    x) (r_has_sessions x) (r_session_ x) v (r_actions x).
Definition r_with_actions (v : list action) (x : routing) : routing :=
  Routing (r_groups x) (r_eventgroups_ x) (r_subs x) (r_held x) (r_events x)
    (r_endpoints x) (r_remote_subscribers_ x) (r_remote_subscription_state_ x) (r_clock
    x) (r_has_sessions x) (r_session_ x) (r_sent x) v.

(** ** The eventgroup *)

(** An address that was not set; [boost::asio::ip::address()] is not a multicast address. *)
Definition eventgroupinfo_new (service instance eventgroup major ttl no_address : Z) : eventgroupinfo :=
  Eventgroupinfo service instance eventgroup major ttl no_address ILLEGAL_PORT ∅ 0 ∅
    PENDING_SUBSCRIPTION_ID RT_UNKNOWN false.

Definition set_multicast (address port : Z) (g : eventgroupinfo) : eventgroupinfo :=
  eg_with_port port (eg_with_address address g).

Definition update_id (g : eventgroupinfo) : eventgroupinfo :=
  let id := u16 (eg_id_ g + 1) in
  eg_with_id (if bool_decide (id = PENDING_SUBSCRIPTION_ID) then 1 else id) g.

(** [add_event], where the event has the given reliability. *)
Definition add_event (e : Z) (reliability : reliability_type_e) (g : eventgroupinfo) : eventgroupinfo :=
  let g := eg_with_events ({[e]} ∪ eg_events_ g) g in
  if negb (eg_reliability_auto_mode_ g) && bool_decide (reliability = RT_UNKNOWN)
  then eg_with_reliability_auto_mode true g
  else
    match reliability with
    | RT_RELIABLE =>
        if bool_decide (eg_reliability_ g = RT_UNRELIABLE) then eg_with_reliability RT_BOTH g
        else if bool_decide (eg_reliability_ g ≠ RT_BOTH) then eg_with_reliability RT_RELIABLE g
        else g
    | RT_UNRELIABLE =>
        if bool_decide (eg_reliability_ g = RT_RELIABLE) then eg_with_reliability RT_BOTH g
        else if bool_decide (eg_reliability_ g ≠ RT_BOTH) then eg_with_reliability RT_UNRELIABLE g
        else g
    | RT_BOTH => eg_with_reliability RT_BOTH g
    | RT_UNKNOWN => g
    end.

Definition remove_event (e : Z) (g : eventgroupinfo) : eventgroupinfo :=
  eg_with_events (eg_events_ g ∖ {[e]}) g.

(** The subscriptions in the order of their identifiers. *)
Definition by_id (x y : Z * Z) : Prop := x.1 ≤ y.1.
#[export] Instance by_id_dec : RelDecision by_id.
Proof. intros x y. unfold by_id. apply _. Defined.
Definition in_order (m : gmap Z Z) : list (Z * Z) := merge_sort by_id (map_to_list m).

(** ** Access to the objects *)

Definition the_sub (p : Z) : ST routing remote_subscription :=
  r ← st_get; st_lift (match r_subs r !! p with Some s => Ret s | None => Undef end).
Definition the_group (g : Z) : ST routing eventgroupinfo :=
  r ← st_get; st_lift (match r_groups r !! g with Some x => Ret x | None => Undef end).
Definition the_event (e : Z) : ST routing event :=
  r ← st_get; st_lift (match r_events r !! e with Some x => Ret x | None => Undef end).
Definition upd_sub (p : Z) (f : remote_subscription → remote_subscription) : ST routing () :=
  st_modify (λ r, r_with_subs (alter f p (r_subs r)) r).
Definition upd_group (g : Z) (f : eventgroupinfo → eventgroupinfo) : ST routing () :=
  st_modify (λ r, r_with_groups (alter f g (r_groups r)) r).
Definition upd_event (e : Z) (f : event → event) : ST routing () :=
  st_modify (λ r, r_with_events (alter f e (r_events r)) r).
Definition act (a : action) : ST routing () :=
  st_modify (λ r, r_with_actions (r_actions r ++ [a]) r).

(** An operation on an event, which shares clock, sessions and output with the others. *)
Definition on_event_at {A} (e : Z) (m : ST world A) : ST routing A :=
  x ← the_event e;
  r ← st_get;
  '(a, w) ← st_lift (m (World x (r_clock r) (r_has_sessions r) (r_session_ r) (r_sent r)));
  st_modify (λ r, r_with_events (<[e := ev w]> (r_events r))
    (r_with_session (app_session_ w) (r_with_sent (Event.sent w) r)));;
  mret a.

(** Whether a subscription has an owner. *)
Definition listed (r : routing) (p : Z) : bool :=
  existsb (λ g : Z * eventgroupinfo,
    existsb (λ x : Z * Z, bool_decide (x.2 = p)) (map_to_list (eg_subscriptions_ g.2)))
    (map_to_list (r_groups r)).
Definition owned (r : routing) (p : Z) : bool := bool_decide (p ∈ r_held r) || listed r p.

(** [weak_ptr::lock] on the parent and on the eventgroup of a subscription. *)
Definition lock_parent (r : routing) (s : remote_subscription) : option Z :=
  p ← rs_parent_ s; if owned r p then Some p else None.
Definition lock_group (r : routing) (s : remote_subscription) : option Z :=
  g ← rs_eventgroupinfo_ s; if bool_decide (is_Some (r_groups r !! g)) then Some g else None.

(** A loop over a list that threads the state. *)
Fixpoint for_each {S A} (f : A → ST S ()) (l : list A) : ST S () :=
  match l with [] => mret () | x :: l => f x;; for_each f l end.

(** ** Subscriptions of an eventgroup *)

(** [its_item.second->equals(_subscription)] *)
Definition equals_at (q p : Z) : ST routing bool :=
  item ← the_sub q;
  s ← the_sub p;
  r ← st_get;
  mret (equals (lock_group r item) (lock_group r s) item s).

(** The loop over [subscriptions_] up to the first subscription that equals [p]. *)
Fixpoint find_equal (l : list (Z * Z)) (p : Z) : ST routing (option Z) :=
  match l with
  | [] => mret None
  | (_, q) :: l => b ← equals_at q p; if (b : bool) then mret (Some q) else find_equal l p
  end.

(** The loop that copies acknowledgment states from the existing subscription [q]. *)
Definition copy_states (q p : Z) (clients : list Z) : ST routing () :=
  for_each (λ c,
    item ← the_sub q;
    r ← st_get;
    upd_sub p (set_client_state (r_clock r) c (get_client_state c item))) clients.

(** [update_id(); _subscription->set_id(id_); subscriptions_[id_] = _subscription;] *)
Definition register (g p : Z) : ST routing Z :=
  upd_group g update_id;;
  info ← the_group g;
  upd_sub p (rs_with_id (eg_id_ info));;
  upd_group g (eg_with_subscriptions (<[eg_id_ info := p]> (eg_subscriptions_ info)));;
  mret (eg_id_ info).

(** The branch of [update_remote_subscription] for a subscribe. *)
Definition update_subscribed (g q p : Z) (its_changed : gset Z) : ST routing () :=
  if bool_decide (its_changed ≠ ∅) then
    upd_sub p (rs_with_parent (Some q));;
    register g p;; mret ()
  else
    s ← the_sub p;
    if negb (is_pending s) then
      if negb (rs_force_initial_events_ s) then upd_sub p (rs_with_is_initial false) else mret ()
    else
      item ← the_sub q;
      upd_sub q (rs_with_answers (u32 (rs_answers_ item + 1)));;
      upd_sub p (rs_with_parent (Some q));;
      upd_sub p (rs_with_answers 0).

(** The branch for an unsubscribe. *)
Definition update_unsubscribed (g q : Z) : ST routing () :=
  item ← the_sub q;
  if is_pending item then
    info ← the_group g;
    for_each (λ e,
      item ← the_sub q;
      match rs_subscriber_ item with
      | Some t => upd_event e (remove_pending t)
      | None => mret ()
      end) (elements (eg_events_ info))
  else mret ().

(** [update_remote_subscription]: [None] is [false], otherwise the values of [_changed]
    and [_id]. *)
Definition update_remote_subscription (g p expiration : Z) (is_subscribe : bool) :
    ST routing (option (gset Z * Z)) :=
  info ← the_group g;
  found ← find_equal (in_order (eg_subscriptions_ info)) p;
  match found with
  | Some q =>
      s ← the_sub p;
      item ← the_sub q;
      let '(its_changed, item') := update (get_clients s) expiration is_subscribe item in
      upd_sub q (λ _, item');;
      s ← the_sub p;
      copy_states q p (elements (get_clients s));;
      (if is_subscribe then update_subscribed g q p its_changed
       else update_unsubscribed g q);;
      mret (Some (its_changed, rs_id_ item'))
  | None => mret None
  end.

Definition add_remote_subscription (g p : Z) : ST routing Z := register g p.

Definition get_remote_subscription (g id : Z) : ST routing (option Z) :=
  info ← the_group g; mret (eg_subscriptions_ info !! id).

Definition remove_remote_subscription (g id : Z) : ST routing () :=
  upd_group g (λ x, eg_with_subscriptions (delete id (eg_subscriptions_ x)) x).

Definition clear_remote_subscriptions (g : Z) : ST routing () :=
  upd_group g (eg_with_subscriptions ∅).

Definition get_remote_subscriptions (g : Z) : ST routing (gset Z) :=
  info ← the_group g; mret (list_to_set (snd <$> map_to_list (eg_subscriptions_ info))).

(** ** Targets *)

(** The subscriptions that [get_unreliable_target_count] counts. *)
Definition counts_as_target (r : routing) (p : Z) : bool :=
  match r_subs r !! p with
  | Some s => bool_decide (lock_parent r s = None) && bool_decide (is_Some (rs_unreliable_ s))
  | None => false
  end.
Definition get_unreliable_target_count (r : routing) (g : eventgroupinfo) : Z :=
  foldr (λ x n, if counts_as_target r x.2 then u32 (n + 1) else n) 0
    (map_to_list (eg_subscriptions_ g)).

Definition get_unicast_targets (r : routing) (g : eventgroupinfo) : gset Z :=
  foldr (λ x acc,
    match r_subs r !! x.2 with
    | Some s => from_option (λ e, {[e]}) ∅ (rs_reliable_ s)
                ∪ (from_option (λ e, {[e]}) ∅ (rs_unreliable_ s) ∪ acc)
    | None => acc
    end) ∅ (map_to_list (eg_subscriptions_ g)).

(** ** Handlers of the routing manager *)

(** What the handlers read of the configuration and of the service registry. *)
Record environment : Type := Environment {
  find_local_client : Z → Z → Z;
  get_reliable_port : Z → Z → Z;
  get_unreliable_port : Z → Z → Z;
  (** the address is [None] when the configured text is not an address *)
  get_multicast : Z → Z → Z → option (option Z * Z);
  get_threshold : Z → Z → Z → Z;
  (** major version and TTL of a known service *)
  find_service : Z → Z → option (Z * Z);
  is_multicast : Z → bool;
  get_client : Z;
  has_discovery : bool;
  enable_compat : bool
}.

Definition is_sending_multicast (env : environment) (r : routing) (g : eventgroupinfo) : bool :=
  is_multicast env (eg_address_ g) && bool_decide (eg_threshold_ g ≠ 0)
  && bool_decide (get_unreliable_target_count r g >= eg_threshold_ g).

(** [is_selective], for the events of the state. *)
Definition is_selective (g : Z) : ST routing bool :=
  info ← the_group g;
  match elements (eg_events_ info) with
  | [e] => x ← the_event e; mret (bool_decide (ev_type_ x = ET_SELECTIVE_EVENT))
  | _ => mret false
  end.

(** The reliability with which [send_initial_events] sends a field. *)
Definition initial_reliability (env : environment) (reliable unreliable : option Z)
    (reliability : reliability_type_e) : reliability_type_e :=
  if enable_compat env && bool_decide (reliability = RT_UNKNOWN) then
    match reliable, unreliable with
    | Some _, Some _ => RT_BOTH
    | Some _, None => RT_RELIABLE
    | None, Some _ => RT_UNRELIABLE
    | None, None => RT_UNKNOWN
    end
  else reliability.

(** The loop that builds the sets of reliable and unreliable fields. *)
Definition initial_events (env : environment) (r : routing) (reliable unreliable : option Z)
    (es : gset Z) : gset Z * gset Z :=
  let select f := list_to_set (filter (λ e, match r_events r !! e with
      | Some x => bool_decide (ev_type_ x = ET_FIELD)
                  && f (initial_reliability env reliable unreliable (ev_reliability_ x))
      | None => false
      end = true) (elements es)) in
  (select (λ t, match t with RT_RELIABLE | RT_BOTH => true | _ => false end),
   select (λ t, match t with RT_UNRELIABLE | RT_BOTH => true | _ => false end)).

Definition send_initial_events (env : environment) (g : Z) (reliable unreliable : option Z) :
    ST routing () :=
  info ← the_group g;
  r ← st_get;
  let '(its_reliable_events, its_unreliable_events) :=
    initial_events env r reliable unreliable (eg_events_ info) in
  for_each (λ e, on_event_at e (notify_one_to VSOMEIP_ROUTING_CLIENT reliable))
    (elements its_reliable_events);;
  for_each (λ e, on_event_at e (notify_one_to VSOMEIP_ROUTING_CLIENT unreliable))
    (elements its_unreliable_events).

(** [routing_manager_base::find_eventgroup], which also refreshes the eventgroup. *)
Definition find_eventgroup (env : environment) (service instance eventgroup : Z) :
    ST routing (option Z) :=
  r ← st_get;
  match r_eventgroups_ r !! (service, instance, eventgroup) with
  | Some g =>
      match find_service env service instance with
      | Some (major, ttl) =>
          (match get_multicast env service instance eventgroup with
           | Some (Some address, port) => upd_group g (set_multicast address port)
           | _ => mret ()
           end);;
          upd_group g (λ x, eg_with_threshold (get_threshold env service instance eventgroup)
            (eg_with_ttl ttl (eg_with_major major x)));;
          mret (Some g)
      | None => mret (Some g)
      end
  | None => mret None
  end.

(** [set_remote_port] on the endpoints of a subscription. *)
Definition set_remote_ports (env : environment) (info : eventgroupinfo) (s : remote_subscription) :
    ST routing () :=
  let set port e := st_modify (λ r, r_with_endpoints (alter (set_remote_port port) e (r_endpoints r)) r) in
  (match rs_reliable_ s with
   | Some e => set (get_reliable_port env (eg_service_ info) (eg_instance_ info)) e
   | None => mret ()
   end);;
  match rs_unreliable_ s with
  | Some e => set (get_unreliable_port env (eg_service_ info) (eg_instance_ info)) e
  | None => mret ()
  end.

Definition send_subscription (env : environment) (info : eventgroupinfo) (clients : gset Z) (id : Z) :
    ST routing () :=
  act (SendSubscription (find_local_client env (eg_service_ info) (eg_instance_ info))
    (eg_service_ info) (eg_instance_ info) (eg_eventgroup_ info) (eg_major_ info) clients id).
Definition send_unsubscription (env : environment) (info : eventgroupinfo) (clients : gset Z) (id : Z) :
    ST routing () :=
  act (SendUnsubscription (find_local_client env (eg_service_ info) (eg_instance_ info))
    (eg_service_ info) (eg_instance_ info) (eg_eventgroup_ info) (eg_major_ info) clients id).

Definition on_remote_subscribe (env : environment) (p : Z) : ST routing () :=
  s ← the_sub p;
  r ← st_get;
  match lock_group r s with
  | None => mret ()
  | Some g =>
      info ← the_group g;
      set_remote_ports env info s;;
      let its_expiration := r_clock r + rs_ttl_ s * 1000 in
      its_result ← update_remote_subscription g p its_expiration true;
      match its_result with
      | Some (its_added, _) =>
          s ← the_sub p;
          if negb (is_pending s) then act (Callback p)
          else if bool_decide (its_added ≠ ∅) then send_subscription env info its_added (rs_id_ s)
          else act (Callback p)
      | None =>
          its_id ← add_remote_subscription g p;
          s ← the_sub p;
          send_subscription env info (get_clients s) its_id
      end
  end.

Definition on_remote_unsubscribe (env : environment) (p : Z) : ST routing () :=
  s ← the_sub p;
  r ← st_get;
  match lock_group r s with
  | None => mret ()
  | Some g =>
      info ← the_group g;
      set_remote_ports env info s;;
      its_result ← update_remote_subscription g p (r_clock r) false;
      match its_result with
      | Some (its_removed, its_id) => send_unsubscription env info its_removed its_id
      | None => mret ()
      end
  end.

(** The part of [on_subscribe_ack] and [on_subscribe_nack] that updates the states of the
    subscription [p] with the identifier [id] and of its parent. *)
Definition answer_subscription (g id p client : Z) (state : remote_subscription_state_e) :
    ST routing () :=
  r ← st_get;
  upd_sub p (set_client_state (r_clock r) client state);;
  s ← the_sub p;
  r ← st_get;
  match lock_parent r s with
  | Some q =>
      upd_sub q (set_client_state (r_clock r) client state);;
      s ← the_sub p;
      if negb (is_pending s) then remove_remote_subscription g id else mret ()
  | None => mret ()
  end.

(** The applications to inform: all subscribers of the event, or the one client. *)
Definition ack_receivers (info : eventgroupinfo) (event client : Z) (r : routing) : gset Z :=
  if bool_decide (client = VSOMEIP_ROUTING_CLIENT) then
    foldr (λ e acc, match r_events r !! e with
      | Some x => if bool_decide (event = ANY_EVENT) || bool_decide (event = get_event x)
                  then get_subscribers x ∪ acc else acc
      | None => acc
      end) ∅ (elements (eg_events_ info))
  else {[client]}.

Definition inform_subscribers (env : environment) (info : eventgroupinfo)
    (service instance eventgroup event client : Z) : ST routing () :=
  r ← st_get;
  for_each (λ its_subscriber,
    if bool_decide (its_subscriber = get_client env) then
      if bool_decide (event = ANY_EVENT) then
        for_each (λ e, x ← the_event e;
          act (OnSubscriptionStatus service instance eventgroup (get_event x)))
          (elements (eg_events_ info))
      else act (OnSubscriptionStatus service instance eventgroup event)
    else act (SendSubscribeAck its_subscriber service instance eventgroup event))
    (elements (ack_receivers info event client r)).

Definition on_subscribe_ack (env : environment) (client service instance eventgroup event id : Z) :
    ST routing () :=
  found ← find_eventgroup env service instance eventgroup;
  match found with
  | None => mret ()
  | Some g =>
      info ← the_group g;
      its_subscription ← get_remote_subscription g id;
      match its_subscription with
      | Some p =>
          answer_subscription g id p client SUBSCRIPTION_ACKED;;
          if has_discovery env then
            s ← the_sub p;
            st_modify (λ r, r_with_remote_subscribers
              (let m := default ∅ (r_remote_subscribers_ r !! (service, instance)) in
               <[(service, instance) :=
                 <[VSOMEIP_ROUTING_CLIENT :=
                   {[rs_subscriber_ s]} ∪ default ∅ (m !! VSOMEIP_ROUTING_CLIENT)]> m]>
                 (r_remote_subscribers_ r)) r);;
            act (DiscoveryUpdate p);;
            (* the log message dereferences the subscriber *)
            match rs_subscriber_ s with Some _ => mret () | None => st_lift Undef end
          else inform_subscribers env info service instance eventgroup event client
      | None =>
          let its_tuple := (service, instance, eventgroup, client) in
          r ← st_get;
          if bool_decide (r_remote_subscription_state_ r !! its_tuple = Some SUBSCRIPTION_ACKNOWLEDGED)
          then mret ()
          else
            st_modify (λ r, r_with_remote_subscription_state
              (<[its_tuple := SUBSCRIPTION_ACKNOWLEDGED]> (r_remote_subscription_state_ r)) r);;
            inform_subscribers env info service instance eventgroup event client
      end
  end.

Definition on_subscribe_nack (env : environment) (client service instance eventgroup event id : Z) :
    ST routing () :=
  found ← find_eventgroup env service instance eventgroup;
  match found with
  | None => mret ()
  | Some g =>
      its_subscription ← get_remote_subscription g id;
      match its_subscription with
      | Some p =>
          answer_subscription g id p client SUBSCRIPTION_NACKED;;
          if has_discovery env then
            s ← the_sub p;
            act (DiscoveryUpdate p);;
            match rs_subscriber_ s with Some _ => mret () | None => st_lift Undef end
          else mret ()
      | None => mret ()
      end
  end.

(** Whether an eventgroup of the event has remote subscriptions. *)
Fixpoint has_remote_subscriber (env : environment) (service instance : Z) (gs : list Z) :
    ST routing bool :=
  match gs with
  | [] => mret false
  | eg :: gs =>
      found ← find_eventgroup env service instance eg;
      b ← (match found with
           | Some g => ps ← get_remote_subscriptions g; mret (bool_decide (0 < Z.of_nat (size ps)))
           | None => mret false
           end);
      b' ← has_remote_subscriber env service instance gs;
      mret (b || b')
  end.

Definition on_unsubscribe_ack (env : environment) (client service instance eventgroup id : Z) :
    ST routing () :=
  found ← find_eventgroup env service instance eventgroup;
  match found with
  | None => mret ()
  | Some g =>
      its_subscription ← get_remote_subscription g id;
      match its_subscription with
      | None => mret ()
      | Some _ =>
          remove_remote_subscription g id;;
          st_modify (λ r, r_with_remote_subscribers
            (<[(service, instance) :=
               delete client (default ∅ (r_remote_subscribers_ r !! (service, instance)))]>
              (r_remote_subscribers_ r)) r);;
          ps ← get_remote_subscriptions g;
          if bool_decide (size ps = 0%nat) then
            info ← the_group g;
            for_each (λ e,
              x ← the_event e;
              b ← has_remote_subscriber env service instance (elements (get_eventgroups x));
              if negb b && ev_is_shadow_ x then on_event_at e (unset_payload false) else mret ())
              (elements (eg_events_ info))
          else mret ()
      end
  end.

(** ** Expiration *)

(** The loop over the clients of one subscription: the expired ones, and the time of the
    next expiration. *)
Definition expired_clients (now : Z) (force : bool) (s : remote_subscription) (next : Z) :
    gset Z * Z :=
  set_fold (λ c '(acc, next),
    if force then ({[c]} ∪ acc, next)
    else
      let its_expiration := get_expiration now c s in
      if bool_decide (its_expiration ≠ 0) then
        if bool_decide (its_expiration < now) then ({[c]} ∪ acc, next)
        else if bool_decide (its_expiration < next) then (acc, its_expiration)
        else (acc, next)
      else (acc, next)) (∅, next) (get_clients s).

(** The subscriptions of an eventgroup that have expired clients. *)
Fixpoint collect_expired (now : Z) (force : bool) (ps : list Z)
    (acc : gmap Z (gset Z)) (next : Z) : ST routing (gmap Z (gset Z) * Z) :=
  match ps with
  | [] => mret (acc, next)
  | p :: ps =>
      s ← the_sub p;
      let '(cs, next) := expired_clients now force s next in
      collect_expired now force ps
        (if bool_decide (cs = ∅) then acc
         else <[p := cs ∪ default ∅ (acc !! p)]> acc) next
  end.

Fixpoint collect_all_expired (now : Z) (force : bool) (gs : list Z)
    (acc : gmap Z (gset Z)) (next : Z) : ST routing (gmap Z (gset Z) * Z) :=
  match gs with
  | [] => mret (acc, next)
  | g :: gs =>
      ps ← get_remote_subscriptions g;
      '(acc, next) ← collect_expired now force (elements ps) acc next;
      collect_all_expired now force gs acc next
  end.

(** The second loop: unsubscribe. The expired clients are the argument for [_changed],
    which [update_remote_subscription] only writes. *)
Definition expire_one (env : environment) (p : Z) : ST routing () :=
  s ← the_sub p;
  r ← st_get;
  match lock_group r s with
  | None => mret ()
  | Some g =>
      info ← the_group g;
      its_result ← update_remote_subscription g p (r_clock r) false;
      match its_result with
      | Some (its_removed, _) => s ← the_sub p; send_unsubscription env info its_removed (rs_id_ s)
      | None => mret ()
      end
  end.

Definition expire_subscriptions (env : environment) (force : bool) : ST routing Z :=
  r ← st_get;
  '(its_expired, next) ← collect_all_expired (r_clock r) force
    (snd <$> map_to_list (r_eventgroups_ r)) ∅ (r_clock r + 24 * 3600 * 1000);
  for_each (expire_one env) (fst <$> map_to_list its_expired);;
  mret next.

(** ** Reliability of an eventgroup *)

(** The least reliability type that covers both. *)
Definition reliability_join (a b : reliability_type_e) : reliability_type_e :=
  match a, b with
  | RT_UNKNOWN, x | x, RT_UNKNOWN => x
  | RT_RELIABLE, RT_RELIABLE => RT_RELIABLE
  | RT_UNRELIABLE, RT_UNRELIABLE => RT_UNRELIABLE
  | _, _ => RT_BOTH
  end.

Lemma add_event_spec e t g :
  eg_reliability_ (add_event e t g) = reliability_join (eg_reliability_ g) t ∧
  eg_reliability_auto_mode_ (add_event e t g) =
    eg_reliability_auto_mode_ g || bool_decide (t = RT_UNKNOWN) ∧
  eg_events_ (add_event e t g) = {[e]} ∪ eg_events_ g.
Proof.
  unfold add_event. destruct g as [? ? ? ? ? ? ? ? ? ? ? rel auto], t, rel, auto; done.
Qed.

(** Whatever events are added to an eventgroup and in whatever order, its reliability
    is the least one that covers the reliabilities of all of them: reliable, unreliable,
    both, or unknown if it is unknown for all; and it is determined automatically exactly
    if the reliability of one of them is unknown. *)
Theorem eventgroup_reliability (es : list (Z * reliability_type_e)) service instance eventgroup major ttl a :
  let g := foldl (λ g x, add_event x.1 x.2 g)
    (eventgroupinfo_new service instance eventgroup major ttl a) es in
  let has t := existsb (λ x : Z * reliability_type_e, bool_decide (x.2 = t)) es in
  eg_events_ g = list_to_set (fst <$> es) ∧
  eg_reliability_auto_mode_ g = has RT_UNKNOWN ∧
  eg_reliability_ g =
    if has RT_BOTH || has RT_RELIABLE && has RT_UNRELIABLE then RT_BOTH
    else if has RT_RELIABLE then RT_RELIABLE
    else if has RT_UNRELIABLE then RT_UNRELIABLE
    else RT_UNKNOWN.
Proof.
  induction es as [|[e t] es IH] using rev_ind; [done|].
  cbv zeta in *. rewrite foldl_app. cbn [foldl fst snd].
  set (g := foldl _ _ es) in *. destruct IH as (He&Ha&Hr).
  destruct (add_event_spec e t g) as (Hr'&Ha'&He').
  rewrite fmap_app, list_to_set_app_L, He', He, Ha', Ha, Hr', Hr, !existsb_app.
  cbn [fmap list_fmap existsb list_to_set fst snd]. rewrite !orb_false_r.
  split_and!; [set_solver|done|].
  destruct (existsb (λ x, bool_decide (x.2 = RT_BOTH)) es),
    (existsb (λ x, bool_decide (x.2 = RT_RELIABLE)) es),
    (existsb (λ x, bool_decide (x.2 = RT_UNRELIABLE)) es), t; done.
Qed.

(** ** The listing of subscriptions *)

(** Every listed subscription exists, refers to its eventgroup and has the identifier it
    is listed under, which is a 16-bit value other than 0. *)
Definition listing_inv (r : routing) : Prop :=
  ∀ g info, r_groups r !! g = Some info → 0 ≤ eg_id_ info < 2 ^ 16 ∧
    ∀ id p, eg_subscriptions_ info !! id = Some p → 0 < id < 2 ^ 16 ∧
      ∃ s, r_subs r !! p = Some s ∧ rs_id_ s = id ∧ rs_eventgroupinfo_ s = Some g.

Definition lists (r : routing) (g id p : Z) : Prop :=
  ∃ info, r_groups r !! g = Some info ∧ eg_subscriptions_ info !! id = Some p.

Lemma listed_spec r p : listed r p = true ↔ ∃ g id, lists r g id p.
Proof.
  unfold listed, lists. rewrite existsb_exists. split.
  - intros ([g info]&Hg%list_elem_of_In&H). apply elem_of_map_to_list in Hg.
    apply existsb_exists in H as ([id q]&Hq%list_elem_of_In&Hp%bool_decide_eq_true).
    apply elem_of_map_to_list in Hq. cbn in *. subst q. eauto.
  - intros (g&id&info&Hg&Hid). exists (g, info). split; [by apply list_elem_of_In, elem_of_map_to_list|].
    apply existsb_exists. exists (id, p). split; [by apply list_elem_of_In, elem_of_map_to_list|].
    by apply bool_decide_eq_true.
Qed.

Lemma in_order_elem m id p : (id, p) ∈ in_order m ↔ m !! id = Some p.
Proof.
  unfold in_order. rewrite merge_sort_Permutation. by rewrite elem_of_map_to_list.
Qed.

(** The result of the search, as a function. *)
Definition equals_in (r : routing) (s : remote_subscription) (q : Z) : bool :=
  match r_subs r !! q with
  | Some item => equals (lock_group r item) (lock_group r s) item s
  | None => false
  end.
Fixpoint first_equal (r : routing) (s : remote_subscription) (l : list (Z * Z)) : option Z :=
  match l with
  | [] => None
  | (_, q) :: l => if equals_in r s q then Some q else first_equal r s l
  end.

Lemma the_sub_eq r p s : r_subs r !! p = Some s → the_sub p r = Ret (s, r).
Proof. intros H. unfold the_sub. st_run. by rewrite H. Qed.
Lemma the_group_eq r g x : r_groups r !! g = Some x → the_group g r = Ret (x, r).
Proof. intros H. unfold the_group. st_run. by rewrite H. Qed.
Lemma upd_sub_eq r p f : upd_sub p f r = Ret ((), r_with_subs (alter f p (r_subs r)) r).
Proof. done. Qed.
Lemma upd_group_eq r g f : upd_group g f r = Ret ((), r_with_groups (alter f g (r_groups r)) r).
Proof. done. Qed.

Lemma find_equal_eq r p s l : r_subs r !! p = Some s →
  (∀ id q, (id, q) ∈ l → is_Some (r_subs r !! q)) →
  find_equal l p r = Ret (first_equal r s l, r).
Proof.
  intros Hp. induction l as [|[id q] l IH]; intros Hl; [done|].
  destruct (Hl id q) as [item Hq]; [by left|].
  cbn [find_equal first_equal]. unfold equals_at, equals_in. rewrite Hq.
  erewrite st_bind_Ret.
  2: { st_step (the_sub_eq r q item Hq). st_step (the_sub_eq r p s Hp).
       st_step (eq_refl : st_get r = Ret (r, r)). apply st_mret_eq. }
  destruct (equals _ _ item s); [done|]. apply IH. intros id' q' H. apply (Hl id'). by right.
Qed.

Lemma first_equal_Some r s l q : first_equal r s l = Some q →
  (∃ id, (id, q) ∈ l) ∧ equals_in r s q = true.
Proof.
  induction l as [|[id q'] l IH]; [done|]. cbn. destruct (equals_in r s q') eqn:E.
  - intros [= <-]. split; [|done]. exists id. by left.
  - intros H. apply IH in H as [[id' H] ?]. split; [|done]. exists id'. by right.
Qed.

(** ** Copying the states of an existing subscription *)

Definition copied_state (now ttl : Z) (st : remote_subscription_state_e) (t : Z) : Z :=
  if bool_decide (t = 0) && (bool_decide (st = SUBSCRIPTION_ACKED) || bool_decide (st = SUBSCRIPTION_NACKED))
  then now + ttl * 1000 else t.
Definition copied (now : Z) (item s : remote_subscription) : remote_subscription :=
  rs_with_clients (map_imap (λ c x, Some (get_client_state c item,
    copied_state now (rs_ttl_ s) (get_client_state c item) x.2)) (rs_clients_ s)) s.

Lemma set_client_state_lookup now c st s c' :
  rs_clients_ (set_client_state now c st s) !! c' =
  if bool_decide (c' = c) then (λ x, (st, copied_state now (rs_ttl_ s) st x.2)) <$> rs_clients_ s !! c
  else rs_clients_ s !! c'.
Proof.
  unfold set_client_state. destruct (rs_clients_ s !! c) as [[st0 t]|] eqn:E;
    cbn [rs_with_clients rs_clients_ fmap option_fmap option_map snd].
  - destruct (decide (c' = c)) as [->|Hc].
    + by rewrite lookup_insert_eq, (bool_decide_true (c = c)).
    + by rewrite lookup_insert_ne, (bool_decide_false (c' = c)).
  - case_bool_decide; [by subst|done].
Qed.
Lemma set_client_state_frame now c st s :
  set_client_state now c st s = rs_with_clients (rs_clients_ (set_client_state now c st s)) s.
Proof. unfold set_client_state. destruct (rs_clients_ s !! c) as [[? ?]|]; by destruct s. Qed.
Lemma set_client_state_ttl now c st s : rs_ttl_ (set_client_state now c st s) = rs_ttl_ s.
Proof. by rewrite set_client_state_frame. Qed.

(** The loop over all clients of a subscription copies every state. *)
Lemma copy_loop now item s cs : NoDup cs → (∀ c, c ∈ cs ↔ c ∈ get_clients s) →
  foldl (λ s c, set_client_state now c (get_client_state c item) s) s cs = copied now item s.
Proof.
  intros Hnd Hcs.
  assert (Hf : ∀ l s0, NoDup l →
    let s1 := foldl (λ s c, set_client_state now c (get_client_state c item) s) s0 l in
    s1 = rs_with_clients (rs_clients_ s1) s0 ∧
    ∀ c, rs_clients_ s1 !! c = if bool_decide (c ∈ l)
      then (λ x, (get_client_state c item, copied_state now (rs_ttl_ s0) (get_client_state c item) x.2))
             <$> rs_clients_ s0 !! c
      else rs_clients_ s0 !! c).
  { clear. induction l as [|c l IH]; intros s0 Hnd; [by destruct s0|].
    apply NoDup_cons in Hnd as [Hc Hnd]. cbn [foldl].
    destruct (IH (set_client_state now c (get_client_state c item) s0) Hnd) as [H1 H2].
    set (s1 := foldl _ _ l) in *. split.
    - rewrite H1 at 1. rewrite set_client_state_frame. done.
    - intros c'. rewrite H2, set_client_state_ttl, !set_client_state_lookup.
      destruct (decide (c' = c)) as [->|Hne].
      + rewrite (bool_decide_false (c ∈ l)), (bool_decide_true (c = c)), (bool_decide_true (c ∈ c :: l)) by (done || by left).
        done.
      + rewrite !(bool_decide_false (c' = c)) by done.
        by rewrite (bool_decide_ext (c' ∈ c :: l) (c' ∈ l)) by set_solver. }
  destruct (Hf cs s Hnd) as [H1 H2]. set (s1 := foldl _ s cs) in *. rewrite H1. unfold copied.
  f_equal. apply map_eq. intros c. rewrite H2, map_lookup_imap.
  case_bool_decide as Hc; [by destruct (rs_clients_ s !! c)|].
  rewrite Hcs in Hc. unfold get_clients in Hc; apply not_elem_of_dom in Hc. by rewrite Hc.
Qed.

(** Replacing one subscription. *)
Definition put_sub (p : Z) (s : remote_subscription) (r : routing) : routing :=
  r_with_subs (<[p := s]> (r_subs r)) r.

Lemma upd_sub_put r p f s : r_subs r !! p = Some s → upd_sub p f r = Ret ((), put_sub p (f s) r).
Proof.
  intros H. rewrite upd_sub_eq. unfold put_sub. do 3 f_equal.
  apply map_eq. intros q. rewrite lookup_alter. case_decide; subst.
  - by rewrite H, lookup_insert_eq.
  - by rewrite lookup_insert_ne.
Qed.
Lemma put_sub_lookup p s r : r_subs (put_sub p s r) !! p = Some s.
Proof. apply lookup_insert_eq. Qed.
Lemma put_sub_lookup_ne p q s r : p ≠ q → r_subs (put_sub p s r) !! q = r_subs r !! q.
Proof. intros. by apply lookup_insert_ne. Qed.
Lemma put_sub_twice p s s' r : put_sub p s (put_sub p s' r) = put_sub p s r.
Proof. unfold put_sub. cbn [r_with_subs r_subs]. by rewrite insert_insert_eq. Qed.
Lemma put_sub_same p s r : r_subs r !! p = Some s → put_sub p s r = r.
Proof. intros H. unfold put_sub. rewrite insert_id by done. by destruct r. Qed.

Lemma copy_states_eq q p cs r item s : q ≠ p →
  r_subs r !! q = Some item → r_subs r !! p = Some s →
  copy_states q p cs r =
    Ret ((), put_sub p (foldl (λ s c, set_client_state (r_clock r) c (get_client_state c item) s) s cs) r).
Proof.
  intros Hne. unfold copy_states. revert r s. induction cs as [|c cs IH]; intros r s Hq Hp.
  { cbn. by rewrite put_sub_same. }
  cbn [for_each foldl]. erewrite st_bind_Ret.
  2: { st_step (the_sub_eq r q item Hq). st_step (eq_refl : st_get r = Ret (r, r)).
       by apply upd_sub_put. }
  rewrite (IH _ (set_client_state (r_clock r) c (get_client_state c item) s)).
  - change (r_clock (put_sub p _ r)) with (r_clock r). by rewrite put_sub_twice.
  - by rewrite put_sub_lookup_ne.
  - apply put_sub_lookup.
Qed.

(** Registering a subscription, as a function. *)
Definition next_id (info : eventgroupinfo) : Z := eg_id_ (update_id info).
Definition registered (g p : Z) (info : eventgroupinfo) (s : remote_subscription) (r : routing) : routing :=
  let n := next_id info in
  put_sub p (rs_with_id n s)
    (r_with_groups (<[g := eg_with_subscriptions (<[n := p]> (eg_subscriptions_ info)) (update_id info)]>
      (r_groups r)) r).

Lemma next_id_range info : 0 ≤ eg_id_ info < 2 ^ 16 → 0 < next_id info < 2 ^ 16.
Proof.
  intros H. unfold next_id, update_id. cbn [eg_with_id eg_id_].
  pose proof (is_u16_u16 (eg_id_ info + 1)) as Hu. unfold is_u16 in Hu.
  unfold PENDING_SUBSCRIPTION_ID. case_bool_decide; lia.
Qed.

Lemma register_eq g p r info s : r_groups r !! g = Some info → r_subs r !! p = Some s →
  register g p r = Ret (next_id info, registered g p info s r).
Proof.
  intros Hg Hp. unfold register. rewrite (st_bind_Ret _ _ _ _ _ (upd_group_eq r g update_id)).
  set (r1 := r_with_groups _ r).
  assert (Hg1 : r_groups r1 !! g = Some (update_id info)).
  { subst r1. cbn [r_with_groups r_groups]. by rewrite lookup_alter_eq, Hg. }
  st_step (the_group_eq r1 g _ Hg1). st_step (upd_sub_put r1 p (rs_with_id (eg_id_ (update_id info))) s Hp).
  rewrite (st_bind_Ret _ _ _ _ _ (upd_group_eq _ g _)). rewrite st_mret_eq.
  unfold registered, put_sub. cbv zeta. do 2 f_equal. subst r1. unfold r_with_groups, r_with_subs.
  cbn [r_groups r_subs r_eventgroups_ r_held r_events r_endpoints r_remote_subscribers_
    r_remote_subscription_state_ r_clock r_has_sessions r_session_ r_sent r_actions].
  f_equal. apply map_eq. intros h. rewrite lookup_alter. case_decide as Hh; subst.
  - rewrite lookup_alter_eq, Hg, lookup_insert_eq. done.
  - rewrite lookup_alter_ne, lookup_insert_ne by done. done.
Qed.

(** ** A subscribe *)

(** The state after a subscribe of [p] that equals the existing subscription [q]. *)
Definition subscribed (g p q : Z) (info : eventgroupinfo) (s item : remote_subscription) (t : Z)
    (r : routing) : routing :=
  let '(its_changed, item') := update (get_clients s) t true item in
  let s' := copied (r_clock r) item' s in
  let r1 := put_sub q item' r in
  if bool_decide (its_changed ≠ ∅) then registered g p info (rs_with_parent (Some q) s') r1
  else if is_pending s' then
    put_sub p (rs_with_answers 0 (rs_with_parent (Some q) s'))
      (put_sub q (rs_with_answers (u32 (rs_answers_ item' + 1)) item') r1)
  else put_sub p (if rs_force_initial_events_ s' then s' else rs_with_is_initial false s') r1.

Lemma put_sub_comm p q s s' r : p ≠ q → put_sub p s (put_sub q s' r) = put_sub q s' (put_sub p s r).
Proof. intros H. unfold put_sub. cbn [r_with_subs r_subs]. by rewrite insert_insert_ne. Qed.

Lemma registered_put_same g p info s s' r :
  registered g p info s (put_sub p s' r) = registered g p info s r.
Proof.
  unfold registered. cbv zeta. unfold put_sub. cbn [r_with_subs r_with_groups r_subs r_groups].
  unfold r_with_subs, r_with_groups. cbn. by rewrite insert_insert_eq.
Qed.

Lemma put_sub_groups p s r : r_groups (put_sub p s r) = r_groups r.
Proof. done. Qed.

Lemma update_subscribed_eq g q p its_changed r info s item : p ≠ q →
  r_groups r !! g = Some info → r_subs r !! p = Some s → r_subs r !! q = Some item →
  update_subscribed g q p its_changed r = Ret ((),
    if bool_decide (its_changed ≠ ∅) then registered g p info (rs_with_parent (Some q) s) r
    else if is_pending s then
      put_sub p (rs_with_answers 0 (rs_with_parent (Some q) s))
        (put_sub q (rs_with_answers (u32 (rs_answers_ item + 1)) item) r)
    else put_sub p (if rs_force_initial_events_ s then s else rs_with_is_initial false s) r).
Proof.
  intros Hne Hg Hp Hq. unfold update_subscribed. case_bool_decide.
  - st_step (upd_sub_put r p (rs_with_parent (Some q)) s Hp).
    rewrite (st_bind_Ret _ _ _ _ _ (register_eq g p (put_sub p (rs_with_parent (Some q) s) r) info
      _ Hg (put_sub_lookup _ _ _))).
    by rewrite st_mret_eq, registered_put_same.
  - st_step (the_sub_eq r p s Hp). destruct (is_pending s); cbn [negb].
    + st_step (the_sub_eq r q item Hq).
      st_step (upd_sub_put r q (rs_with_answers (u32 (rs_answers_ item + 1))) item Hq).
      set (r1 := put_sub q _ r).
      assert (Hp1 : r_subs r1 !! p = Some s) by (subst r1; by rewrite put_sub_lookup_ne).
      st_step (upd_sub_put r1 p (rs_with_parent (Some q)) s Hp1).
      rewrite (upd_sub_put _ p (rs_with_answers 0) _ (put_sub_lookup _ _ _)).
      by rewrite put_sub_twice.
    + destruct (rs_force_initial_events_ s); cbn [negb]; [by rewrite st_mret_eq, put_sub_same|].
      by apply upd_sub_put.
Qed.

Lemma update_subscribe_eq g p t r info s :
  r_groups r !! g = Some info → r_subs r !! p = Some s →
  (∀ id q, eg_subscriptions_ info !! id = Some q → is_Some (r_subs r !! q) ∧ q ≠ p) →
  update_remote_subscription g p t true r =
    match first_equal r s (in_order (eg_subscriptions_ info)) with
    | None => Ret (None, r)
    | Some q =>
        match r_subs r !! q with
        | Some item => Ret (Some (get_clients s ∖ get_clients item, rs_id_ item),
                            subscribed g p q info s item t r)
        | None => Undef
        end
    end.
Proof.
  intros Hg Hp Hl. unfold update_remote_subscription. st_step (the_group_eq r g info Hg).
  rewrite (st_bind_Ret _ _ _ _ _ (find_equal_eq r p s (in_order (eg_subscriptions_ info)) Hp
    (λ id q H, proj1 (Hl id q (proj1 (in_order_elem _ _ _) H))))).
  destruct (first_equal _ _ _) as [q|] eqn:Hf; [|done].
  apply first_equal_Some in Hf as [[id Hin] _]. apply in_order_elem in Hin.
  destruct (Hl id q Hin) as [[item Hq] Hne]. rewrite Hq.
  st_step (the_sub_eq r p s Hp). st_step (the_sub_eq r q item Hq).
  unfold subscribed. pose proof (update_result (get_clients s) t true item) as Hch.
  pose proof (update_frame (get_clients s) t true item) as Hfr.
  destruct (update (get_clients s) t true item) as [its_changed item'] eqn:Hu.
  destruct Hch as [Hch _]. cbn [snd] in Hfr. cbn beta iota.
  rewrite (st_bind_Ret _ _ _ _ _ (upd_sub_put r q (λ _, item') item Hq)).
  set (r1 := put_sub q item' r).
  assert (Hp1 : r_subs r1 !! p = Some s) by (subst r1; by rewrite put_sub_lookup_ne).
  assert (Hq1 : r_subs r1 !! q = Some item') by apply put_sub_lookup.
  st_step (the_sub_eq r1 p s Hp1).
  rewrite (st_bind_Ret _ _ _ _ _ (copy_states_eq q p (elements (get_clients s)) r1 item' s Hne Hq1 Hp1)).
  rewrite copy_loop by (apply NoDup_elements || (intros; by rewrite elem_of_elements)).
  set (s' := copied _ item' s). set (r2 := put_sub p s' r1).
  assert (Hq2 : r_subs r2 !! q = Some item') by (subst r2; by rewrite put_sub_lookup_ne).
  rewrite (st_bind_Ret _ _ _ _ _ (update_subscribed_eq g q p its_changed r2 info s' item'
    (not_eq_sym Hne) Hg (put_sub_lookup _ _ _) Hq2)).
  rewrite st_mret_eq. do 2 f_equal; [by rewrite Hch, Hfr|].
  subst r2. rewrite registered_put_same. case_bool_decide; [done|]. destruct (is_pending s').
  - rewrite (put_sub_comm q p) by done. by rewrite put_sub_twice.
  - by rewrite put_sub_twice.
Qed.

Lemma not_listed r p g info id q : listed r p = false → r_groups r !! g = Some info →
  eg_subscriptions_ info !! id = Some q → q ≠ p.
Proof.
  intros Hp Hg Hid ->. assert (listed r p = true); [|congruence].
  apply listed_spec. exists g, id. by exists info.
Qed.

(** Replacing a subscription keeps the listing consistent if it keeps identifier and
    eventgroup. *)
Lemma listing_inv_put p s r : listing_inv r →
  (∀ s0, listed r p = true → r_subs r !! p = Some s0 →
     rs_id_ s = rs_id_ s0 ∧ rs_eventgroupinfo_ s = rs_eventgroupinfo_ s0) →
  listing_inv (put_sub p s r).
Proof.
  intros Hi Hs g info Hg. destruct (Hi g info Hg) as [Hid Hl]. split; [done|].
  intros id q Hq. destruct (Hl id q Hq) as (Hr&s0&Hs0&<-&He). split; [done|].
  destruct (decide (p = q)) as [->|Hne].
  - exists s. rewrite put_sub_lookup. destruct (Hs s0) as [? ?]; [|done|by split_and!; congruence].
    apply listed_spec. exists g, (rs_id_ s0). by exists info.
  - exists s0. by rewrite put_sub_lookup_ne.
Qed.

Lemma listing_inv_registered g p info s r : listing_inv r → listed r p = false →
  r_groups r !! g = Some info → rs_eventgroupinfo_ s = Some g →
  listing_inv (registered g p info s r).
Proof.
  intros Hi Hp Hg Hs h x Hx. unfold registered in *. cbv zeta in *.
  rewrite put_sub_groups in Hx. cbn [r_with_groups r_groups] in Hx.
  pose proof (next_id_range info (proj1 (Hi g info Hg))) as Hn.
  assert (Hold : ∀ h y, r_groups r !! h = Some y → ∀ id q, eg_subscriptions_ y !! id = Some q →
    0 < id < 2 ^ 16 ∧ ∃ s0, r_subs (put_sub p (rs_with_id (next_id info) s) r) !! q = Some s0 ∧
      rs_id_ s0 = id ∧ rs_eventgroupinfo_ s0 = Some h).
  { intros h' y Hy id q Hq. destruct (Hi h' y Hy) as [_ Hl].
    destruct (Hl id q Hq) as (Hr&s0&?&?&?). split; [done|]. exists s0.
    rewrite put_sub_lookup_ne; [done|]. apply not_eq_sym. by eapply not_listed. }
  apply lookup_insert_Some in Hx as [[<- <-]|[_ Hx]].
  - cbn [eg_with_subscriptions eg_id_ eg_subscriptions_]. split; [unfold next_id in Hn; cbn in *; lia|].
    intros id q [[<- <-]|[_ Hq]]%lookup_insert_Some.
    + split; [done|]. exists (rs_with_id (next_id info) s). by rewrite put_sub_lookup.
    + by apply (Hold g info).
  - split; [by apply (Hi h)|]. by apply Hold.
Qed.

Lemma copied_pending now item s : is_pending (copied now item s) = true ↔
  ∃ c, c ∈ get_clients s ∧ get_client_state c item = SUBSCRIPTION_PENDING.
Proof.
  rewrite is_pending_spec. unfold get_client_state at 1, copied, get_clients.
  cbn [rs_with_clients rs_clients_]. setoid_rewrite map_lookup_imap. setoid_rewrite elem_of_dom. split.
  - intros (c&Hc). exists c. destruct (rs_clients_ s !! c) eqn:E; cbn in Hc; [|done]. split; [by eexists|done].
  - intros (c&[x Hx]&Hc). exists c. by rewrite Hx.
Qed.

Lemma copied_frame now item s : copied now item s = rs_with_clients (rs_clients_ (copied now item s)) s.
Proof. done. Qed.

(** The facts about [subscribed] that callers use. *)
Lemma subscribed_spec g p q info s item t r : listing_inv r → listed r p = false → q ≠ p →
  r_groups r !! g = Some info → r_subs r !! p = Some s → rs_eventgroupinfo_ s = Some g →
  r_subs r !! q = Some item →
  let r' := subscribed g p q info s item t r in
  let added := get_clients s ∖ get_clients item in
  listing_inv r' ∧ r_actions r' = r_actions r ∧
  ∃ item' s', r_subs r' !! q = Some item' ∧ r_subs r' !! p = Some s' ∧
    (∀ c, rs_clients_ item' !! c = if bool_decide (c ∈ get_clients s)
       then Some (from_option fst SUBSCRIPTION_PENDING (rs_clients_ item !! c), t)
       else rs_clients_ item !! c) ∧
    (is_pending s' = true ↔ ∃ c, c ∈ get_clients s ∧ get_client_state c item' = SUBSCRIPTION_PENDING) ∧
    if bool_decide (added ≠ ∅) then
      rs_parent_ s' = Some q ∧ rs_id_ s' = next_id info ∧ rs_answers_ item' = rs_answers_ item ∧
      eg_subscriptions_ <$> r_groups r' !! g = Some (<[next_id info := p]> (eg_subscriptions_ info))
    else
      r_groups r' = r_groups r ∧
      rs_answers_ item' = (if is_pending s' then u32 (rs_answers_ item + 1) else rs_answers_ item) ∧
      rs_answers_ s' = (if is_pending s' then 0 else rs_answers_ s).
Proof.
  intros Hi Hp Hne Hg Hs He Hq r' added.
  pose proof (update_result (get_clients s) t true item) as Hu.
  pose proof (update_frame (get_clients s) t true item) as Hfr.
  subst r'. unfold subscribed. destruct (update (get_clients s) t true item) as [ch item'].
  destruct Hu as (->&_&Hcl). cbn [snd] in Hfr. fold added.
  set (s' := copied (r_clock r) item' s). set (r1 := put_sub q item' r).
  assert (Hi1 : listing_inv r1).
  { apply listing_inv_put; [done|]. intros s0 _ E. rewrite Hq in E. injection E as <-. by rewrite Hfr. }
  assert (Hp1 : listed r1 p = false) by done.
  assert (Hq1 : r_subs r1 !! q = Some item') by apply put_sub_lookup.
  assert (Hans : rs_answers_ item' = rs_answers_ item) by (by rewrite Hfr).
  assert (Hpend : ∀ x, rs_clients_ x = rs_clients_ s' → (is_pending x = true ↔
    ∃ c, c ∈ get_clients s ∧ get_client_state c item' = SUBSCRIPTION_PENDING)).
  { intros x Hx. assert (is_pending x = is_pending s') as -> by (unfold is_pending; by rewrite Hx).
    apply copied_pending. }
  case_bool_decide as Hadd; cbv zeta.
  - split; [by apply listing_inv_registered|]. split; [done|].
    exists item', (rs_with_id (next_id info) (rs_with_parent (Some q) s')).
    unfold registered. cbv zeta. split_and!.
    + by rewrite put_sub_lookup_ne.
    + apply put_sub_lookup.
    + exact Hcl.
    + by apply Hpend.
    + done.
    + done.
    + done.
    + rewrite put_sub_groups. cbn [r_with_groups r_groups]. by rewrite lookup_insert_eq.
  - destruct (is_pending s') eqn:Epend.
    + set (r2 := put_sub q _ r1). split.
      { apply listing_inv_put; [|intros s0 E; exfalso; revert E; change (listed r2 p) with (listed r p); by rewrite Hp].
        apply listing_inv_put; [done|]. intros s0 _ E. rewrite Hq1 in E. by injection E as <-. }
      split; [done|]. exists (rs_with_answers (u32 (rs_answers_ item' + 1)) item'),
        (rs_with_answers 0 (rs_with_parent (Some q) s')).
      split_and!; [rewrite put_sub_lookup_ne by done; apply put_sub_lookup|apply put_sub_lookup|exact Hcl|by apply Hpend|done|..];
        change (is_pending (rs_with_answers _ _)) with (is_pending s'); rewrite Epend; by rewrite ?Hans.
    + set (s2 := if rs_force_initial_events_ s' then s' else _).
      assert (Hs2 : rs_clients_ s2 = rs_clients_ s' ∧ rs_answers_ s2 = rs_answers_ s)
        by (subst s2; destruct (rs_force_initial_events_ s'); done).
      destruct Hs2 as [Hs2 Hs2a]. split.
      { apply listing_inv_put; [done|]. intros s0 E. by rewrite Hp1 in E. }
      split; [done|]. exists item', s2.
      split_and!; [by rewrite put_sub_lookup_ne|apply put_sub_lookup|exact Hcl|by apply Hpend|done|..];
        (assert (is_pending s2 = false) as -> by (unfold is_pending in *; by rewrite Hs2)); done.
Qed.

Lemma set_remote_ports_eq env info s r :
  ∃ e, set_remote_ports env info s r = Ret ((), r_with_endpoints e r).
Proof.
  unfold set_remote_ports. destruct (rs_reliable_ s) as [a|], (rs_unreliable_ s) as [b|]; st_run; eauto.
  exists (r_endpoints r). by destruct r.
Qed.

Lemma first_equal_endpoints e r s l : first_equal (r_with_endpoints e r) s l = first_equal r s l.
Proof. induction l as [|[id q] l IH]; [done|]. cbn [first_equal]. by rewrite IH. Qed.

Lemma lock_group_eq r s g info : rs_eventgroupinfo_ s = Some g → r_groups r !! g = Some info →
  lock_group r s = Some g.
Proof.
  intros Hs Hg. unfold lock_group. rewrite Hs. cbn. by rewrite bool_decide_true by (by eexists).
Qed.

(** The subscriptions of an eventgroup. *)
Definition subscriptions_of (r : routing) (g : Z) : option (gmap Z Z) :=
  eg_subscriptions_ <$> r_groups r !! g.

(** The message to the application that offers the service of an eventgroup. *)
Definition subscription_message (env : environment) (info : eventgroupinfo) (clients : gset Z) (id : Z) :
    action :=
  SendSubscription (find_local_client env (eg_service_ info) (eg_instance_ info))
    (eg_service_ info) (eg_instance_ info) (eg_eventgroup_ info) (eg_major_ info) clients id.

Section subscribe.
  Context (env : environment) (p g : Z) (info : eventgroupinfo) (s : remote_subscription) (r : routing).
  Context (Hi : listing_inv r) (Hs : r_subs r !! p = Some s)
    (He : rs_eventgroupinfo_ s = Some g) (Hg : r_groups r !! g = Some info)
    (Hp : listed r p = false).

(** What a subscribe by [p] ends in, by cases of the search for an equal subscription. *)
Definition subscribe_result (r' : routing) : Prop :=
  let t := r_clock r + rs_ttl_ s * 1000 in
  listing_inv r' ∧
  match first_equal r s (in_order (eg_subscriptions_ info)) with
  | None =>
      subscriptions_of r' g = Some (<[next_id info := p]> (eg_subscriptions_ info)) ∧
      r_subs r' = <[p := rs_with_id (next_id info) s]> (r_subs r) ∧
      r_actions r' = r_actions r ++ [subscription_message env info (get_clients s) (next_id info)]
  | Some q => ∃ item item' s',
      r_subs r !! q = Some item ∧ r_subs r' !! q = Some item' ∧ r_subs r' !! p = Some s' ∧
      (∀ c, rs_clients_ item' !! c = if bool_decide (c ∈ get_clients s)
         then Some (from_option fst SUBSCRIPTION_PENDING (rs_clients_ item !! c), t)
         else rs_clients_ item !! c) ∧
      let added := get_clients s ∖ get_clients item in
      if bool_decide (added ≠ ∅) then
        subscriptions_of r' g = Some (<[next_id info := p]> (eg_subscriptions_ info)) ∧
        rs_id_ s' = next_id info ∧ rs_parent_ s' = Some q ∧ rs_answers_ item' = rs_answers_ item ∧
        r_actions r' = r_actions r ++ [subscription_message env info added (next_id info)]
      else
        r_groups r' = r_groups r ∧ r_actions r' = r_actions r ++ [Callback p] ∧
        rs_answers_ item' = (if is_pending s' then u32 (rs_answers_ item + 1) else rs_answers_ item) ∧
        rs_answers_ s' = (if is_pending s' then 0 else rs_answers_ s) ∧
        (is_pending s' = true ↔
           ∃ c, c ∈ get_clients s ∧ get_client_state c item = SUBSCRIPTION_PENDING)
  end.

Lemma subscribe_known q item (e : gmap Z endpoint_definition) :
  first_equal r s (in_order (eg_subscriptions_ info)) = Some q → q ≠ p →
  r_subs r !! q = Some item →
  let r1 := r_with_endpoints e r in
  let t := r_clock r + rs_ttl_ s * 1000 in
  let added := get_clients s ∖ get_clients item in
  let r2 := subscribed g p q info s item t r1 in
  ∃ s', r_subs r2 !! p = Some s' ∧
  let a := if negb (is_pending s') then Callback p
           else if bool_decide (added ≠ ∅) then subscription_message env info added (rs_id_ s')
           else Callback p in
  subscribe_result (r_with_actions (r_actions r2 ++ [a]) r2).
Proof.
  intros Hf Hne Hq r1 t added r2.
  destruct (subscribed_spec g p q info s item t r1 Hi Hp Hne Hg Hs He Hq)
    as (Hi2&Ha2&item'&s'&Hq2&Hs2&Hcl&Hpend&Hcase).
  fold r2 in Hi2, Ha2, Hq2, Hs2, Hcase. fold added in Hcase.
  exists s'. split; [done|]. cbv zeta. unfold subscribe_result. split; [exact Hi2|]. rewrite Hf.
  exists item, item', s'. split_and!; [done|done|done|done|]. cbv zeta. fold added.
  cbn [r_with_actions r_actions r_groups subscriptions_of].
  case_bool_decide as Hadd.
  - destruct Hcase as (Hpar&Hid&Hans&Hsub).
    assert (is_pending s' = true) as ->.
    { apply Hpend. apply set_choose_L in Hadd as [c Hc]. exists c. split; [set_solver|].
      unfold get_client_state. rewrite Hcl, bool_decide_true by set_solver.
      assert (rs_clients_ item !! c = None) as ->; [|done].
      apply not_elem_of_dom. unfold added, get_clients in Hc. set_solver. }
    cbn [negb]. rewrite Hid, Ha2. done.
  - destruct Hcase as (Hgr&Hans&Hans'). split_and!; [done| |done|done|].
    + rewrite Ha2. by destruct (is_pending s').
    + rewrite Hpend. assert (Hin : ∀ c, c ∈ get_clients s → c ∈ get_clients item).
      { intros c Hc. destruct (decide (c ∈ get_clients item)); [done|].
        assert (c ∈ added) as Hca by (by apply elem_of_difference). rewrite Hadd in Hca.
        by apply not_elem_of_empty in Hca. }
      assert (Hst : ∀ c, c ∈ get_clients s → get_client_state c item' = get_client_state c item).
      { intros c Hc. unfold get_client_state. rewrite Hcl, bool_decide_true by done.
        specialize (Hin c Hc). unfold get_clients in Hin; apply elem_of_dom in Hin as [[st t0] E]. by rewrite E. }
      split; intros (c&Hc&Hc'); exists c; (split; [done|]); [by rewrite <- Hst|by rewrite Hst].
Qed.

(** The head of the handler, up to the answer of the eventgroup. *)
Lemma on_remote_subscribe_head : ∃ e,
  let r1 := r_with_endpoints e r in
  on_remote_subscribe env p r =
    (its_result ← update_remote_subscription g p (r_clock r + rs_ttl_ s * 1000) true;
     match its_result with
     | Some (its_added, _) =>
         s ← the_sub p;
         if negb (is_pending s) then act (Callback p)
         else if bool_decide (its_added ≠ ∅) then send_subscription env info its_added (rs_id_ s)
         else act (Callback p)
     | None =>
         its_id ← add_remote_subscription g p;
         s ← the_sub p;
         send_subscription env info (get_clients s) its_id
     end) r1 ∧
  update_remote_subscription g p (r_clock r + rs_ttl_ s * 1000) true r1 =
    match first_equal r s (in_order (eg_subscriptions_ info)) with
    | None => Ret (None, r1)
    | Some q =>
        match r_subs r !! q with
        | Some item => Ret (Some (get_clients s ∖ get_clients item, rs_id_ item),
            subscribed g p q info s item (r_clock r + rs_ttl_ s * 1000) r1)
        | None => Undef
        end
    end.
Proof using Hi Hs He Hg Hp.
  destruct (set_remote_ports_eq env info s r) as [e Hports]. exists e. split.
  - unfold on_remote_subscribe. st_step (the_sub_eq r p s Hs). st_step (eq_refl : st_get r = Ret (r, r)).
    rewrite (lock_group_eq r s g info He Hg). st_step (the_group_eq r g info Hg). by st_step Hports.
  - rewrite (update_subscribe_eq g p _ (r_with_endpoints e r) info s Hg Hs).
    + by rewrite first_equal_endpoints.
    + intros id q Hq. destruct (proj2 (Hi g info Hg) id q Hq) as (_&s0&?&_).
      split; [by exists s0|by eapply not_listed].
Qed.

Lemma first_equal_listed q : first_equal r s (in_order (eg_subscriptions_ info)) = Some q →
  q ≠ p ∧ listed r q = true ∧ is_Some (r_subs r !! q).
Proof using Hi Hg Hp.
  intros [[id Hin%in_order_elem] _]%first_equal_Some.
  destruct (proj2 (Hi g info Hg) id q Hin) as (_&s0&?&_).
  split_and!; [by eapply not_listed| |by exists s0].
  apply listed_spec. exists g, id. by exists info.
Qed.

(** A subscribe that finds the equal subscription [q]. *)
Lemma on_remote_subscribe_known q item :
  first_equal r s (in_order (eg_subscriptions_ info)) = Some q → r_subs r !! q = Some item →
  ∃ e s', let t := r_clock r + rs_ttl_ s * 1000 in
  let added := get_clients s ∖ get_clients item in
  let r2 := subscribed g p q info s item t (r_with_endpoints e r) in
  let a := if negb (is_pending s') then Callback p
           else if bool_decide (added ≠ ∅) then subscription_message env info added (rs_id_ s')
           else Callback p in
  on_remote_subscribe env p r = Ret ((), r_with_actions (r_actions r2 ++ [a]) r2) ∧
  subscribe_result (r_with_actions (r_actions r2 ++ [a]) r2).
Proof using Hi Hs He Hg Hp.
  intros Hf Hq. destruct on_remote_subscribe_head as (e&Hhead&Hup). cbv zeta in Hhead.
  destruct (first_equal_listed q Hf) as (Hne&_&_). rewrite Hf, Hq in Hup.
  destruct (subscribe_known q item e Hf Hne Hq) as (s'&Hs'&Hres).
  exists e, s'. cbv zeta. split; [|exact Hres]. rewrite Hhead. st_step Hup. st_step (the_sub_eq _ p s' Hs').
  destruct (negb (is_pending s')); [done|]. by case_bool_decide.
Qed.

(** C5: A remote subscribe, as [routing_manager_impl::on_remote_subscribe] handles it for a
    subscription that is not listed yet. If the eventgroup has no equal subscription, it is
    listed under the next identifier and sent to the offering application with all its
    clients. Otherwise the first equal one (in the order of the identifiers) takes all the
    clients, with the new expiration, known ones keeping their state and new ones pending;
    if there are new ones, the subscription is listed as a child of it and sent with the
    new clients only; if there are none, service discovery is called back at once, and if
    some client is still pending, the existing subscription owes one more answer and the
    new one none. (A comment in the code says that the update fails if the subscription is
    still pending; it succeeds.) The listing stays consistent: each subscription is listed
    under its own identifier, never 0, in its own eventgroup. *)
Theorem on_remote_subscribe_spec :
  ∃ r', on_remote_subscribe env p r = Ret ((), r') ∧ subscribe_result r'.
Proof using Hi Hs He Hg Hp.
  destruct (first_equal r s (in_order (eg_subscriptions_ info))) as [q|] eqn:Hf.
  { destruct (first_equal_listed q Hf) as (_&_&[item Hq]).
    destruct (on_remote_subscribe_known q item Hf Hq) as (e&s'&Hrun&Hres). eauto. }
  destruct on_remote_subscribe_head as (e&Hhead&Hup). rewrite Hf in Hup.
  set (r1 := r_with_endpoints e r) in *. rewrite Hhead. st_step Hup.
  rewrite (st_bind_Ret _ _ _ _ _ (register_eq g p r1 info s Hg Hs)).
  assert (Hs2 : r_subs (registered g p info s r1) !! p = Some (rs_with_id (next_id info) s))
    by apply put_sub_lookup.
  st_step (the_sub_eq _ p _ Hs2). eexists. split; [done|]. unfold subscribe_result. rewrite Hf.
  split_and!; [exact (listing_inv_registered g p info s r1 Hi Hp Hg He)| |done|done].
  unfold subscriptions_of, registered. cbv zeta.
  cbn [r_with_actions r_groups]. rewrite put_sub_groups. cbn [r_with_groups r_groups].
  by rewrite lookup_insert_eq.
Qed.
End subscribe.

(** ** Counting targets *)

Lemma target_count_filter r m :
  foldr (λ x n, if counts_as_target r x.2 then u32 (n + 1) else n) 0 m =
  u32 (Z.of_nat (length (filter (λ x : Z * Z, counts_as_target r x.2 = true) m))).
Proof.
  induction m as [|x m IH]; [done|]. cbn [foldr]. rewrite filter_cons, IH. case_decide as H.
  - rewrite H. cbn [length]. width_lia.
  - by destruct (counts_as_target r x.2).
Qed.

(** The count depends on which listed subscriptions count as targets only. *)
Lemma target_count_ext r r' info info' :
  (∀ id x, eg_subscriptions_ info !! id = Some x → counts_as_target r' x = counts_as_target r x) →
  eg_subscriptions_ info' = eg_subscriptions_ info ∨
  (∃ n p, eg_subscriptions_ info !! n = None ∧
     eg_subscriptions_ info' = <[n := p]> (eg_subscriptions_ info) ∧ counts_as_target r' p = false) →
  get_unreliable_target_count r' info' = get_unreliable_target_count r info.
Proof.
  intros Hx Hc. unfold get_unreliable_target_count. rewrite !target_count_filter. do 2 f_equal.
  assert (Hlist : ∀ l : list (Z * Z), (∀ y, y ∈ l → counts_as_target r' y.2 = counts_as_target r y.2) →
    length (filter (λ x : Z * Z, counts_as_target r' x.2 = true) l) =
    length (filter (λ x : Z * Z, counts_as_target r x.2 = true) l)).
  { induction l as [|y l IH]; intros Hy; [done|]. rewrite !filter_cons.
    rewrite (Hy y) by (by left). specialize (IH (λ z Hz, Hy z (list_elem_of_further _ _ _ Hz))).
    case_decide; cbn [length]; congruence. }
  assert (Hm : ∀ y, y ∈ map_to_list (eg_subscriptions_ info) →
    counts_as_target r' y.2 = counts_as_target r y.2)
    by (intros [id x] H%elem_of_map_to_list; by apply (Hx id)).
  destruct Hc as [->|(n&p&Hn&->&Hp)]; [by apply Hlist|].
  rewrite <- (Hlist _ Hm). rewrite map_to_list_insert by done. rewrite filter_cons_False; [done|].
  cbn. congruence.
Qed.

Lemma counts_as_target_ext r r' x s s' : r_subs r !! x = Some s → r_subs r' !! x = Some s' →
  rs_parent_ s' = rs_parent_ s → rs_unreliable_ s' = rs_unreliable_ s →
  (∀ y, owned r' y = owned r y) → counts_as_target r' x = counts_as_target r x.
Proof.
  intros Hs Hs' Hp Hu Ho. unfold counts_as_target, lock_parent. rewrite Hs, Hs', Hp, Hu.
  destruct (rs_parent_ s) as [y|]; cbn; [by rewrite Ho|done].
Qed.

(** What [subscribed] leaves of the other subscriptions, and of the equal one. *)
Lemma subscribed_frame g p q info s item t r : q ≠ p → r_subs r !! q = Some item →
  let r' := subscribed g p q info s item t r in
  r_held r' = r_held r ∧
  (∀ x, x ≠ p → ∀ sx, r_subs r !! x = Some sx → ∃ sx', r_subs r' !! x = Some sx' ∧
     rs_parent_ sx' = rs_parent_ sx ∧ rs_unreliable_ sx' = rs_unreliable_ sx) ∧
  (r_groups r' = r_groups r ∨
   r_groups r' = <[g := eg_with_subscriptions (<[next_id info := p]> (eg_subscriptions_ info))
                          (update_id info)]> (r_groups r) ∧
   ∃ s', r_subs r' !! p = Some s' ∧ rs_parent_ s' = Some q).
Proof.
  intros Hne Hq r'. pose proof (update_frame (get_clients s) t true item) as Hfr.
  subst r'. unfold subscribed. destruct (update (get_clients s) t true item) as [ch item'].
  cbn [snd] in Hfr. set (s' := copied _ item' s).
  assert (Hbase : ∀ i s0 x sx, rs_parent_ i = rs_parent_ item → rs_unreliable_ i = rs_unreliable_ item →
    x ≠ p → r_subs r !! x = Some sx → ∃ sx', r_subs (put_sub p s0 (put_sub q i r)) !! x = Some sx' ∧
      rs_parent_ sx' = rs_parent_ sx ∧ rs_unreliable_ sx' = rs_unreliable_ sx).
  { intros i s0 x sx Hi1 Hi2 Hx Hsx. rewrite put_sub_lookup_ne by done.
    destruct (decide (x = q)) as [->|Hxq].
    - rewrite put_sub_lookup. exists i. rewrite Hq in Hsx. by injection Hsx as <-.
    - rewrite put_sub_lookup_ne by done. eauto. }
  assert (rs_parent_ item' = rs_parent_ item ∧ rs_unreliable_ item' = rs_unreliable_ item) as [Hp1 Hu1]
    by (by rewrite Hfr).
  case_bool_decide; [|destruct (is_pending s')].
  - split; [done|]. split; [intros x Hx sx; by apply Hbase|]. right. split; [done|].
    eexists. split; [apply put_sub_lookup|done].
  - split; [done|]. rewrite put_sub_twice. split; [intros x Hx sx; by apply Hbase|by left].
  - split; [done|]. split; [intros x Hx sx; by apply Hbase|by left].
Qed.

(** Listing a subscription that is held anyway changes no owner. *)
Lemma owned_registered r r' g p n info info' :
  r_held r' = r_held r → p ∈ r_held r → r_groups r !! g = Some info →
  eg_subscriptions_ info !! n = None →
  r_groups r' = <[g := info']> (r_groups r) →
  eg_subscriptions_ info' = <[n := p]> (eg_subscriptions_ info) →
  ∀ y, owned r' y = owned r y.
Proof.
  intros Hh Hp Hg Hn Hg' Hs y. unfold owned. rewrite Hh.
  destruct (decide (y ∈ r_held r)) as [Hy|Hy]; [by rewrite bool_decide_true|].
  rewrite bool_decide_false by done. cbn [orb]. apply eq_bool_prop_intro.
  rewrite !Is_true_true, !listed_spec. unfold lists. rewrite Hg'. split.
  - intros (h&id&x&[[<- <-]|[? Hx]]%lookup_insert_Some&Hid); [|by eauto].
    rewrite Hs in Hid. apply lookup_insert_Some in Hid as [[_ <-]|[_ Hid]]; [done|]. eauto.
  - intros (h&id&x&Hx&Hid). destruct (decide (h = g)) as [->|Hne].
    + exists g, id, info'. rewrite lookup_insert_eq. split; [done|]. rewrite Hs.
      rewrite Hg in Hx. injection Hx as <-. rewrite lookup_insert_ne; [done|congruence].
    + exists h, id, x. by rewrite lookup_insert_ne.
Qed.

(** A further subscribe from an endpoint that is subscribed already does not count as
    another target: after [on_remote_subscribe] for a subscription that equals a listed
    one, the eventgroup has the same number of unreliable targets as before, although the
    subscription may be listed as a child, and it therefore sends by multicast exactly if
    it did before.  (The next identifier must be free.) *)
Theorem renewal_keeps_targets env p g info s r q : listing_inv r →
  r_subs r !! p = Some s → rs_eventgroupinfo_ s = Some g → r_groups r !! g = Some info →
  listed r p = false → p ∈ r_held r → eg_subscriptions_ info !! next_id info = None →
  first_equal r s (in_order (eg_subscriptions_ info)) = Some q →
  ∃ r' info', on_remote_subscribe env p r = Ret ((), r') ∧ r_groups r' !! g = Some info' ∧
    get_unreliable_target_count r' info' = get_unreliable_target_count r info ∧
    is_sending_multicast env r' info' = is_sending_multicast env r info.
Proof.
  intros Hi Hs He Hg Hp Hh Hn Hf.
  destruct (first_equal_listed p g info s r Hi Hg Hp q Hf) as (Hne&Hql&[item Hq]).
  destruct (on_remote_subscribe_known env p g info s r Hi Hs He Hg Hp q item Hf Hq)
    as (e&s'&Hrun&_). cbv zeta in Hrun. set (r2 := subscribed _ _ _ _ _ _ _ _) in Hrun.
  destruct (subscribed_frame g p q info s item (r_clock r + rs_ttl_ s * 1000) (r_with_endpoints e r) Hne Hq)
    as (Hh2&Hsubs&Hgroups). fold r2 in Hh2, Hsubs, Hgroups.
  set (r' := r_with_actions _ r2) in Hrun.
  assert (Hex : ∃ info', r_groups r' !! g = Some info' ∧ (∀ y, owned r' y = owned r y) ∧
    eg_address_ info' = eg_address_ info ∧ eg_threshold_ info' = eg_threshold_ info ∧
    (eg_subscriptions_ info' = eg_subscriptions_ info ∨
     eg_subscriptions_ info' = <[next_id info := p]> (eg_subscriptions_ info) ∧
     ∃ s', r_subs r2 !! p = Some s' ∧ rs_parent_ s' = Some q)).
  { destruct Hgroups as [Hgr|[Hgr Hpar]].
    - exists info. split_and!; [by change (r_groups r' !! g) with (r_groups r2 !! g); rewrite Hgr| |done|done|by left].
      intros y. unfold owned, listed. change (r_groups r') with (r_groups r2). rewrite Hgr.
      change (r_held r') with (r_held r2). by rewrite Hh2.
    - eexists. split; [change (r_groups r' !! g) with (r_groups r2 !! g); rewrite Hgr; apply lookup_insert_eq|].
      split; [|split_and!; [done|done|by right]].
      by apply (owned_registered r r' g p (next_id info) info
        (eg_with_subscriptions (<[next_id info := p]> (eg_subscriptions_ info)) (update_id info))). }
  destruct Hex as (info'&Hg'&Hown&Ha&Ht&Hsub). exists r', info'.
  assert (Hcount : get_unreliable_target_count r' info' = get_unreliable_target_count r info).
  { apply target_count_ext.
    - intros id x Hx. destruct (proj2 (Hi g info Hg) id x Hx) as (_&sx&Hsx&_).
      destruct (Hsubs x) with sx as (sx'&Hsx'&?&?); [by eapply not_listed|done|].
      by apply (counts_as_target_ext r r' x sx sx').
    - destruct Hsub as [Hsub|(Hsub&s2&Hs2&Hpar)]; [by left|right].
      exists (next_id info), p. split_and!; [done|done|]. unfold counts_as_target.
      change (r_subs r' !! p) with (r_subs r2 !! p). rewrite Hs2. unfold lock_parent. rewrite Hpar.
      cbn. rewrite Hown. unfold owned. rewrite Hql, orb_true_r. done. }
  split_and!; [done|done|done|]. unfold is_sending_multicast. by rewrite Hcount, Ha, Ht.
Qed.

(** ** Unsubscribing and expiring *)

Lemma update_unsubscribe_all clients t s : get_clients s ⊆ clients →
  update clients t false s = (get_clients s, rs_with_clients ∅ s).
Proof.
  intros Hsub. pose proof (update_result clients t false s) as H.
  pose proof (update_frame clients t false s) as Hf.
  destruct (update clients t false s) as [ch s']. destruct H as (->&_&Hl). cbn [snd] in Hf.
  rewrite Hf. f_equal; [set_solver|]. f_equal. apply map_eq. intros c. rewrite Hl, lookup_empty.
  case_bool_decide as Hc; [done|]. apply not_elem_of_dom. unfold get_clients in *. set_solver.
Qed.

(** An unsubscribe for all clients of the equal subscription [q], which may be the
    subscription itself. *)
Lemma update_unsubscribed_all_eq g p q t r info s item :
  r_groups r !! g = Some info → r_subs r !! p = Some s → r_subs r !! q = Some item →
  (∀ id x, eg_subscriptions_ info !! id = Some x → is_Some (r_subs r !! x)) →
  first_equal r s (in_order (eg_subscriptions_ info)) = Some q →
  get_clients item ⊆ get_clients s →
  let item' := rs_with_clients ∅ item in
  update_remote_subscription g p t false r = Ret (Some (get_clients item, rs_id_ item),
    if bool_decide (p = q) then put_sub q item' r
    else put_sub p (copied (r_clock r) item' s) (put_sub q item' r)).
Proof.
  intros Hg Hp Hq Hl Hf Hsub item'. unfold update_remote_subscription.
  st_step (the_group_eq r g info Hg).
  rewrite (st_bind_Ret _ _ _ _ _ (find_equal_eq r p s (in_order (eg_subscriptions_ info)) Hp
    (λ id x H, Hl id x (proj1 (in_order_elem _ _ _) H)))). rewrite Hf.
  st_step (the_sub_eq r p s Hp). st_step (the_sub_eq r q item Hq).
  rewrite update_unsubscribe_all by done. fold item'. cbn beta iota.
  rewrite (st_bind_Ret _ _ _ _ _ (upd_sub_put r q (λ _, item') item Hq)).
  set (r1 := put_sub q item' r).
  assert (Hend : ∀ r2, r_subs r2 !! q = Some item' → update_unsubscribed g q r2 = Ret ((), r2)).
  { intros r2 H2. unfold update_unsubscribed. by st_step (the_sub_eq r2 q item' H2). }
  case_bool_decide as Hpq.
  - subst q. st_step (the_sub_eq r1 p item' (put_sub_lookup _ _ _)).
    assert (elements (get_clients item') = []) as -> by (unfold get_clients; cbn; by rewrite dom_empty_L, elements_empty).
    st_step (st_mret_eq () r1 : copy_states p p [] r1 = _).
    by st_step (Hend r1 (put_sub_lookup _ _ _)).
  - assert (Hp1 : r_subs r1 !! p = Some s) by (subst r1; by rewrite put_sub_lookup_ne by congruence).
    st_step (the_sub_eq r1 p s Hp1).
    rewrite (st_bind_Ret _ _ _ _ _ (copy_states_eq q p (elements (get_clients s)) r1 item' s
      (not_eq_sym Hpq) (put_sub_lookup _ _ _) Hp1)).
    rewrite copy_loop by (apply NoDup_elements || (intros; by rewrite elem_of_elements)).
    change (r_clock r1) with (r_clock r).
    assert (H2 : r_subs (put_sub p (copied (r_clock r) item' s) r1) !! q = Some item')
      by (rewrite put_sub_lookup_ne by done; apply put_sub_lookup).
    by st_step (Hend _ H2).
Qed.

(** Expiring a subscription drops all its clients.  When [expire_subscriptions] finds a
    client of a listed subscription expired, it unsubscribes the subscription (the first
    equal one in its eventgroup), and then no client is left and the offering application
    is told to unsubscribe every one of them, whether it had expired or not; pending
    initial events for the subscriber stay pending. *)
Theorem expire_drops_all_clients env p g info id s r : listing_inv r →
  r_groups r !! g = Some info → eg_subscriptions_ info !! id = Some p → r_subs r !! p = Some s →
  first_equal r s (in_order (eg_subscriptions_ info)) = Some p →
  ∃ r', expire_one env p r = Ret ((), r') ∧ listing_inv r' ∧
    r_subs r' = <[p := rs_with_clients ∅ s]> (r_subs r) ∧ r_events r' = r_events r ∧
    r_actions r' = r_actions r ++ [SendUnsubscription
      (find_local_client env (eg_service_ info) (eg_instance_ info)) (eg_service_ info)
      (eg_instance_ info) (eg_eventgroup_ info) (eg_major_ info) (get_clients s) id].
Proof.
  intros Hi Hg Hid Hs Hf. destruct (proj2 (Hi g info Hg) id p Hid) as (_&s0&Hs0&Hsid&He).
  rewrite Hs in Hs0. injection Hs0 as <-. unfold expire_one. st_step (the_sub_eq r p s Hs).
  st_step (eq_refl : st_get r = Ret (r, r)). rewrite (lock_group_eq r s g info He Hg).
  st_step (the_group_eq r g info Hg).
  assert (Hl : ∀ id x, eg_subscriptions_ info !! id = Some x → is_Some (r_subs r !! x)).
  { intros id' x Hx. destruct (proj2 (Hi g info Hg) id' x Hx) as (_&s'&?&_). by exists s'. }
  rewrite (st_bind_Ret _ _ _ _ _ (update_unsubscribed_all_eq g p p (r_clock r) r info s s Hg Hs Hs Hl Hf
    (reflexivity _))).
  rewrite (bool_decide_true (p = p)) by done. cbv beta iota zeta.
  st_step (the_sub_eq (put_sub p (rs_with_clients ∅ s) r) p _ (put_sub_lookup _ _ _)).
  eexists. split; [done|]. split_and!; [|done|done|by rewrite <- Hsid].
  apply (listing_inv_put p (rs_with_clients ∅ s) r Hi). intros s0 _ H0. rewrite Hs in H0. by injection H0 as <-.
Qed.

(** ** Acknowledgements *)

(** An answer of the offering application to a child subscription, as
    [on_subscribe_ack] and [on_subscribe_nack] process it: the answered client gets the
    new state in the child and in its parent; if the child has no pending client left, it
    is no longer listed, otherwise the listing does not change.  A subscription without
    a parent stays listed.  All other subscriptions stay as they are, and so does the
    consistency of the listing. *)
Theorem answer_subscription_spec g info id p client st s r : listing_inv r →
  r_groups r !! g = Some info → eg_subscriptions_ info !! id = Some p → r_subs r !! p = Some s →
  (∀ q, lock_parent r s = Some q → q ≠ p ∧ is_Some (r_subs r !! q)) →
  let s' := set_client_state (r_clock r) client st s in
  ∃ r', answer_subscription g id p client st r = Ret ((), r') ∧ listing_inv r' ∧
    r_subs r' !! p = Some s' ∧
    match lock_parent r s with
    | Some q => ∃ item, r_subs r !! q = Some item ∧
        r_subs r' !! q = Some (set_client_state (r_clock r) client st item) ∧
        (∀ x, x ≠ p → x ≠ q → r_subs r' !! x = r_subs r !! x) ∧
        subscriptions_of r' g = Some (if is_pending s' then eg_subscriptions_ info
                                      else delete id (eg_subscriptions_ info))
    | None => r_groups r' = r_groups r ∧ ∀ x, x ≠ p → r_subs r' !! x = r_subs r !! x
    end.
Proof.
  intros Hi Hg Hid Hs Hpar s'. unfold answer_subscription.
  st_step (eq_refl : st_get r = Ret (r, r)).
  st_step (upd_sub_put r p (set_client_state (r_clock r) client st) s Hs). fold s'.
  set (r1 := put_sub p s' r).
  assert (Hkeep : ∀ x, rs_id_ (set_client_state (r_clock r) client st x) = rs_id_ x ∧
    rs_eventgroupinfo_ (set_client_state (r_clock r) client st x) = rs_eventgroupinfo_ x)
    by (intros x; by rewrite set_client_state_frame).
  assert (Hi1 : listing_inv r1).
  { apply listing_inv_put; [done|]. intros s0 _ E. rewrite Hs in E. injection E as <-. apply Hkeep. }
  st_step (the_sub_eq r1 p s' (put_sub_lookup _ _ _)). st_step (eq_refl : st_get r1 = Ret (r1, r1)).
  assert (Hlock : lock_parent r1 s' = lock_parent r s).
  { unfold lock_parent. subst s'. by rewrite set_client_state_frame. }
  rewrite Hlock. destruct (lock_parent r s) as [q|] eqn:Eq.
  2: { eexists. split; [done|]. split_and!; [done|apply put_sub_lookup|done|].
       intros x Hx. subst r1. by rewrite put_sub_lookup_ne. }
  destruct (Hpar q eq_refl) as [Hne [item Hq]].
  assert (Hq1 : r_subs r1 !! q = Some item) by (subst r1; by rewrite put_sub_lookup_ne).
  st_step (upd_sub_put r1 q (set_client_state (r_clock r1) client st) item Hq1).
  change (r_clock r1) with (r_clock r). set (r2 := put_sub q _ r1).
  assert (Hs2 : r_subs r2 !! p = Some s') by (subst r2; rewrite put_sub_lookup_ne by done; apply put_sub_lookup).
  assert (Hi2 : listing_inv r2).
  { apply listing_inv_put; [done|]. intros s0 _ E. rewrite Hq1 in E. injection E as <-. apply Hkeep. }
  assert (Hrest : r_subs r2 !! q = Some (set_client_state (r_clock r) client st item) ∧
    ∀ x, x ≠ p → x ≠ q → r_subs r2 !! x = r_subs r !! x).
  { split; [apply put_sub_lookup|]. intros x Hx1 Hx2. subst r2 r1. by rewrite !put_sub_lookup_ne. }
  destruct Hrest as [Hq2 Hrest].
  st_step (the_sub_eq r2 p s' Hs2). destruct (is_pending s'); cbn [negb].
  - eexists. split; [done|]. split_and!; [done|done|]. exists item. split_and!; [done|done|done|].
    unfold subscriptions_of. change (r_groups r2) with (r_groups r). by rewrite Hg.
  - eexists. split; [apply upd_group_eq|].
    split_and!; [|done|exists item; split_and!; [done|done|done|]].
    + intros h x Hx. cbn [r_with_groups r_groups] in Hx. apply lookup_alter_Some in Hx as
        [(<-&y&Hy&->)|[_ Hx]]; [|by apply (Hi2 h)].
      destruct (Hi2 g y Hy) as [Hr Hl]. split; [done|]. intros id' x Hx.
      cbn [eg_with_subscriptions eg_subscriptions_] in Hx. apply lookup_delete_Some in Hx as [_ Hx].
      by apply Hl.
    + unfold subscriptions_of. cbn [r_with_groups r_groups]. change (r_groups r2) with (r_groups r).
      by rewrite lookup_alter_eq, Hg.
Qed.

(** ** An eventgroup with subscriptions

    The eventgroup at 100 lists the subscription 1, whose client 7 is acknowledged and
    whose client 8 is pending; the subscriptions 2 and 3 come from the same endpoint 50
    and are not listed, 4 is a child of 1. *)
Definition sample_env : environment :=
  Environment (λ _ _, 0x33) (λ _ _, 30509) (λ _ _, 30510) (λ _ _ _, None) (λ _ _ _, 1)
    (λ _ _, None) (λ _, true) 0x99 true false.
Definition sample_sub (id : Z) (parent : option Z) (clients : list (Z * (remote_subscription_state_e * Z))) :
    remote_subscription :=
  Subscription id true false parent (Some 100) 0 3 0 0 (list_to_map clients) (Some 50) None (Some 50) 1.
Definition sample_subs : gmap Z remote_subscription :=
  {[ 1 := sample_sub 1 None [(7, (SUBSCRIPTION_ACKED, 900)); (8, (SUBSCRIPTION_PENDING, 5000))];
     2 := sample_sub 0 None [(8, (SUBSCRIPTION_PENDING, 0)); (9, (SUBSCRIPTION_PENDING, 0))];
     3 := sample_sub 0 None [(7, (SUBSCRIPTION_PENDING, 0))];
     4 := sample_sub 2 (Some 1) [(8, (SUBSCRIPTION_PENDING, 5000))] ]}.
Definition sample_group (listing : gmap Z Z) (id : Z) : eventgroupinfo :=
  Eventgroupinfo 0x1111 0x1 0x10 0 3 0 0 ∅ 1 listing id RT_UNRELIABLE false.
Definition sample_routing (listing : gmap Z Z) (id : Z) : routing :=
  Routing {[100 := sample_group listing id]} {[(0x1111, 0x1, 0x10) := 100]} sample_subs {[2; 3]} ∅ ∅ ∅ ∅
    1000 true 0 [] [].

(** Decide the consistency of a listing. *)
Definition listing_ok (r : routing) : bool :=
  forallb (λ x : Z * eventgroupinfo,
    bool_decide (0 ≤ eg_id_ x.2 < 2 ^ 16) &&
    forallb (λ y : Z * Z, bool_decide (0 < y.1 < 2 ^ 16) &&
      match r_subs r !! y.2 with
      | Some s => bool_decide (rs_id_ s = y.1) && bool_decide (rs_eventgroupinfo_ s = Some x.1)
      | None => false
      end) (map_to_list (eg_subscriptions_ x.2)))
    (map_to_list (r_groups r)).

Lemma listing_ok_inv r : listing_ok r = true → listing_inv r.
Proof.
  unfold listing_ok. rewrite forallb_forall. intros H g info Hg.
  specialize (H (g, info) (proj1 (list_elem_of_In _ _) (proj2 (elem_of_map_to_list _ _ _) Hg))).
  apply andb_true_iff in H as [Hr%bool_decide_eq_true Hl]. split; [done|]. intros id p Hp.
  rewrite forallb_forall in Hl.
  specialize (Hl (id, p) (proj1 (list_elem_of_In _ _) (proj2 (elem_of_map_to_list _ _ _) Hp))).
  apply andb_true_iff in Hl as [Hid%bool_decide_eq_true Hs]. split; [done|]. cbn [fst snd] in Hs.
  destruct (r_subs r !! p) as [s|]; [|done].
  apply andb_true_iff in Hs as [H1%bool_decide_eq_true H2%bool_decide_eq_true]. eauto.
Qed.

Lemma on_remote_subscribe_spec_witness :
  ∃ r', on_remote_subscribe sample_env 2 (sample_routing {[1 := 1]} 1) = Ret ((), r') ∧
    r_actions r' = [SendSubscription 0x33 0x1111 0x1 0x10 0 {[9]} 2] ∧
    subscriptions_of r' 100 = Some {[1 := 1; 2 := 2]}.
Proof.
  destruct (on_remote_subscribe_spec sample_env 2 100 (sample_group {[1 := 1]} 1)
    (sample_sub 0 None [(8, (SUBSCRIPTION_PENDING, 0)); (9, (SUBSCRIPTION_PENDING, 0))])
    (sample_routing {[1 := 1]} 1)) as (r'&Hr&_&Hres).
  - apply listing_ok_inv. vm_compute. reflexivity.
  - vm_compute. reflexivity.
  - reflexivity.
  - vm_compute. reflexivity.
  - vm_compute. reflexivity.
  - exists r'. split; [exact Hr|].
    set (f := first_equal _ _ _) in Hres. vm_compute in f. subst f. cbv beta iota zeta in Hres.
    destruct Hres as (item&item'&s'&Hq&_&_&_&Hcase). vm_compute in Hq. injection Hq as <-.
    set (b := bool_decide _) in Hcase. vm_compute in b. subst b. cbv beta iota in Hcase.
    destruct Hcase as (Hsub&_&_&_&Hact). rewrite Hact, Hsub. split; vm_compute; reflexivity.
Defined.

Lemma renewal_keeps_targets_witness :
  ∃ r' info', on_remote_subscribe sample_env 2 (sample_routing {[1 := 1]} 1) = Ret ((), r') ∧
    r_groups r' !! 100 = Some info' ∧ get_unreliable_target_count r' info' = 1 ∧
    is_sending_multicast sample_env r' info' = true.
Proof.
  destruct (renewal_keeps_targets sample_env 2 100 (sample_group {[1 := 1]} 1)
    (sample_sub 0 None [(8, (SUBSCRIPTION_PENDING, 0)); (9, (SUBSCRIPTION_PENDING, 0))])
    (sample_routing {[1 := 1]} 1) 1) as (r'&info'&Hr&Hg&Hc&Hm).
  - apply listing_ok_inv. vm_compute. reflexivity.
  - vm_compute. reflexivity.
  - reflexivity.
  - vm_compute. reflexivity.
  - vm_compute. reflexivity.
  - set_solver.
  - vm_compute. reflexivity.
  - vm_compute. reflexivity.
  - exists r', info'. split; [exact Hr|]. split; [exact Hg|]. rewrite Hc, Hm. split; vm_compute; reflexivity.
Defined.

Lemma expire_drops_all_clients_witness :
  ∃ r', expire_one sample_env 1 (sample_routing {[1 := 1]} 1) = Ret ((), r') ∧
    r_actions r' = [SendUnsubscription 0x33 0x1111 0x1 0x10 0 {[7; 8]} 1].
Proof.
  destruct (expire_drops_all_clients sample_env 1 100 (sample_group {[1 := 1]} 1) 1
    (sample_sub 1 None [(7, (SUBSCRIPTION_ACKED, 900)); (8, (SUBSCRIPTION_PENDING, 5000))])
    (sample_routing {[1 := 1]} 1)) as (r'&Hr&_&_&_&Hact).
  - apply listing_ok_inv. vm_compute. reflexivity.
  - vm_compute. reflexivity.
  - vm_compute. reflexivity.
  - vm_compute. reflexivity.
  - vm_compute. reflexivity.
  - exists r'. split; [exact Hr|]. rewrite Hact. vm_compute. reflexivity.
Defined.

(** Client 7 has expired, client 8 has not, and both are unsubscribed. *)
Example expire_subscriptions_drops_all :
  ∃ next r', expire_subscriptions sample_env false (sample_routing {[1 := 1]} 1) = Ret (next, r') ∧
    next = 5000 ∧ r_actions r' = [SendUnsubscription 0x33 0x1111 0x1 0x10 0 {[7; 8]} 1].
Proof. do 2 eexists. split; [vm_compute; reflexivity|]. split; vm_compute; reflexivity. Qed.

Lemma answer_subscription_spec_witness :
  ∃ r', answer_subscription 100 2 4 8 SUBSCRIPTION_ACKED (sample_routing {[1 := 1; 2 := 4]} 2) = Ret ((), r') ∧
    subscriptions_of r' 100 = Some {[1 := 1]} ∧
    get_client_state 8 <$> r_subs r' !! 1 = Some SUBSCRIPTION_ACKED.
Proof.
  destruct (answer_subscription_spec 100 (sample_group {[1 := 1; 2 := 4]} 2) 2 4 8 SUBSCRIPTION_ACKED
    (sample_sub 2 (Some 1) [(8, (SUBSCRIPTION_PENDING, 5000))])
    (sample_routing {[1 := 1; 2 := 4]} 2)) as (r'&Hr&_&_&Hcase).
  - apply listing_ok_inv. vm_compute. reflexivity.
  - vm_compute. reflexivity.
  - vm_compute. reflexivity.
  - vm_compute. reflexivity.
  - intros q Hq. vm_compute in Hq. injection Hq as <-. split; [done|]. eexists. vm_compute. reflexivity.
  - exists r'. split; [exact Hr|]. set (f := lock_parent _ _) in Hcase. vm_compute in f. subst f.
    cbv beta iota in Hcase. destruct Hcase as (item&Hi&Hi'&_&Hsub). vm_compute in Hi. injection Hi as <-.
    rewrite Hsub, Hi'. split; vm_compute; reflexivity.
Defined.
