(* ===== verification/Policy.v ===== *)
(** Security policies: the wire format of [security/src/policy.cpp].

    A policy is read from a buffer through a pointer that advances and a count of the
    bytes left; a read that leaves the buffer is [Undef].  Its contents are interval sets
    and interval maps of Boost.Icl, which are not part of the sources: the class [Icl]
    has the operations the code calls, and [IclLaws] what it relies on, that adding the
    parts of a container to an empty one yields it again.  Intervals keep the kind of their
    bounds.  Variables that the code leaves uninitialised have arbitrary values. *)
From S2P Require Import Prelude ByteOrder.

Definition ANY_METHOD : Z := 0xFFFF.

(** ** Interval containers

    [interval_set<T>], [interval_map<T, interval_set<T'>>] and [interval_map<service_t,
    interval_map<instance_t, interval_set<method_t>>>].  [size()] of a set or map is the
    number of elements it covers. *)
Record interval : Type := Interval {
  lower : Z;
  upper : Z;
  left_open : bool;
  right_open : bool
}.
Definition closed (l u : Z) : interval := Interval l u false false.

(** The least and the greatest element; [wrap] is the arithmetic of the element type. *)
Definition get_bounds (wrap : Z → Z) (i : interval) : Z * Z :=
  ((if left_open i then wrap (lower i + 1) else lower i),
   (if right_open i then wrap (upper i - 1) else upper i)).

Class Icl : Type := {
  iset : Type;
  iset_empty : iset;
  iset_insert : interval → iset → iset;
  iset_intervals : iset → list interval;
  iset_size : iset → Z;
  imap : Type;
  imap_empty : imap;
  imap_add : interval → iset → imap → imap;
  imap_segments : imap → list (interval * iset);
  imap_size : imap → Z;
  rmap : Type;
  rmap_empty : rmap;
  rmap_add : interval → imap → rmap → rmap;
  rmap_segments : rmap → list (interval * imap)
}.

Section policy.
  Context `{Icl}.

Record policy : Type := Policy {
  credentials_ : imap;
  allow_who_ : bool;
  requests_ : rmap;
  offers_ : imap;
  allow_what_ : bool
}.

Definition policy_new : policy := Policy imap_empty false rmap_empty imap_empty false.

(** ** Reading *)

Record reader : Type := Reader { data : list Z; size : Z }.

Definition deserialize_u16 : ST reader (option Z) :=
  r ← st_get;
  if bool_decide (size r < 2) then mret None
  else match data r with
       | x0 :: x1 :: rest =>
           st_modify (λ _, Reader rest (u32 (size r - 2)));;
           mret (Some (VSOMEIP_BYTES_TO_WORD x0 x1))
       | _ => st_lift Undef
       end.

Definition deserialize_u32 : ST reader (option Z) :=
  r ← st_get;
  if bool_decide (size r < 4) then mret None
  else match data r with
       | x0 :: x1 :: x2 :: x3 :: rest =>
           st_modify (λ _, Reader rest (u32 (size r - 4)));;
           mret (Some (VSOMEIP_BYTES_TO_LONG x0 x1 x2 x3))
       | _ => st_lift Undef
       end.

(** Go on with the value that was read, or return [false]. *)
Definition or_fail {A B} (m : ST reader (option A)) (k : A → ST reader (option B)) :
    ST reader (option B) :=
  x ← m; match x with Some a => k a | None => mret None end.

Definition deserialize_uid_gid : ST reader (option (Z * Z)) :=
  or_fail deserialize_u32 (λ uid, or_fail deserialize_u32 (λ gid, mret (Some (uid, gid)))).

(** The end of [deserialize_id_item]: the special value, and the result. *)
Definition id_item_result (low high : Z) : option (Z * Z) :=
  let low := if bool_decide (low = ANY_METHOD) && bool_decide (high = ANY_METHOD) then 0x01 else low in
  if bool_decide (low ≠ 0x0000) then Some (low, high) else None.

(** [uninit] has the values of [_low] and [_high] before the call. *)
Definition deserialize_id_item (uninit : Z * Z) : ST reader (option (Z * Z)) :=
  or_fail deserialize_u32 (λ its_length,
  or_fail deserialize_u32 (λ its_type,
    if bool_decide (its_type = 1) && bool_decide (its_length = 2) then
      or_fail deserialize_u16 (λ low, mret (id_item_result low low))
    else if bool_decide (its_type = 2) && bool_decide (its_length = 4) then
      or_fail deserialize_u16 (λ low,
      or_fail deserialize_u16 (λ high,
        if bool_decide (low > high) then mret None else mret (id_item_result low high)))
    else mret (id_item_result uninit.1 uninit.2))).

(** The values of uninitialised variables when [n] bytes are left. *)
Context (uninit : Z → Z * Z).

(** A loop [while (0 < length) { body; length -= consumed; }] over an array of [length]
    bytes: every round runs the body and takes off what it consumed. *)
Fixpoint array_loop {A} (fuel : nat) (body : A → ST reader (option A)) (its_length : Z) (acc : A) :
    ST reader (option A) :=
  match fuel with
  | O => st_lift NoFuel
  | S fuel =>
      if bool_decide (0 < its_length) then
        r ← st_get;
        or_fail (body acc) (λ acc,
          r' ← st_get;
          array_loop fuel body (u32 (its_length - u32 (size r - size r'))) acc)
      else mret (Some acc)
  end.

(** Every round consumes at least one byte. *)
Definition rounds (r : reader) : nat := S (Z.to_nat (size r)).

Definition deserialize_id_item_list : ST reader (option iset) :=
  or_fail deserialize_u32 (λ its_length,
    r ← st_get;
    array_loop (rounds r) (λ its_intervals,
      r ← st_get;
      or_fail (deserialize_id_item (uninit (size r))) (λ '(low, high),
        mret (Some (iset_insert (closed low high) its_intervals)))) its_length iset_empty).

Definition deserialize_ids : ST reader (option imap) :=
  or_fail deserialize_u32 (λ its_array_length,
    r ← st_get;
    array_loop (rounds r) (λ its_ids,
      or_fail deserialize_id_item_list (λ its_instances,
      or_fail deserialize_id_item_list (λ its_methods,
        mret (Some (foldl (λ ids i, imap_add i its_methods ids) its_ids
          (iset_intervals its_instances)))))) its_array_length imap_empty).

(** A service identifier, which must not be 0 or 0xFFFF. *)
Definition deserialize_service : ST reader (option Z) :=
  or_fail deserialize_u16 (λ its_service,
    if bool_decide (its_service = 0x0000) || bool_decide (its_service = 0xFFFF) then mret None
    else mret (Some its_service)).

(** The two loops of [deserialize].  The members already changed stay changed when the
    rest cannot be read: the accumulator carries the policy, and [Some] is returned with
    it in every case, together with the result of the loop. *)
Fixpoint member_loop {A} (fuel : nat) (body : ST reader (option A)) (add : A → policy → policy)
    (its_length : Z) (p : policy) : ST reader (bool * policy) :=
  match fuel with
  | O => st_lift NoFuel
  | S fuel =>
      if bool_decide (0 < its_length) then
        r ← st_get;
        x ← body;
        match x with
        | Some a =>
            r' ← st_get;
            member_loop fuel body add (u32 (its_length - u32 (size r - size r'))) (add a p)
        | None => mret (false, p)
        end
      else mret (true, p)
  end.

Definition deserialize_request : ST reader (option (Z * imap)) :=
  or_fail deserialize_service (λ its_service,
  or_fail deserialize_ids (λ its_ids, mret (Some (its_service, its_ids)))).
Definition deserialize_offer : ST reader (option (Z * iset)) :=
  or_fail deserialize_service (λ its_service,
  or_fail deserialize_id_item_list (λ its_instances, mret (Some (its_service, its_instances)))).

Definition add_request (x : Z * imap) (p : policy) : policy :=
  Policy (credentials_ p) (allow_who_ p) (rmap_add (closed x.1 x.1) x.2 (requests_ p)) (offers_ p) (allow_what_ p).
Definition add_offer (x : Z * iset) (p : policy) : policy :=
  Policy (credentials_ p) (allow_who_ p) (requests_ p) (imap_add (closed x.1 x.1) x.2 (offers_ p)) (allow_what_ p).

(** The credentials that are read, and the two flags. *)
Definition add_credentials (uid gid : Z) (p : policy) : policy :=
  Policy (imap_add (closed uid uid) (iset_insert (closed gid gid) iset_empty) (credentials_ p)) true
    (requests_ p) (offers_ p) true.

Definition deserialize (p : policy) : ST reader (bool * policy) :=
  x ← deserialize_uid_gid;
  match x with
  | None => mret (false, p)
  | Some (uid, gid) =>
      let p := add_credentials uid gid p in
      n ← deserialize_u32;
      match n with
      | None => mret (false, p)
      | Some its_requests_length =>
          r ← st_get;
          '(ok, p) ← member_loop (rounds r) deserialize_request add_request its_requests_length p;
          if negb ok then mret (false, p)
          else
            n ← deserialize_u32;
            match n with
            | None => mret (false, p)
            | Some its_offers_length =>
                r ← st_get;
                member_loop (rounds r) deserialize_offer add_offer its_offers_length p
            end
      end
  end.

(** ** Writing *)

Definition serialize_u16 (v : Z) (d : list Z) : list Z :=
  d ++ [VSOMEIP_WORD_BYTE1 v; VSOMEIP_WORD_BYTE0 v].
Definition serialize_u32 (v : Z) (d : list Z) : list Z :=
  d ++ [VSOMEIP_LONG_BYTE3 v; VSOMEIP_LONG_BYTE2 v; VSOMEIP_LONG_BYTE1 v; VSOMEIP_LONG_BYTE0 v].

Definition serialize_u32_at (v : Z) (d : list Z) (pos : Z) : outcome (list Z) :=
  d ← vset d pos (VSOMEIP_LONG_BYTE3 v);
  d ← vset d (pos + 1) (VSOMEIP_LONG_BYTE2 v);
  d ← vset d (pos + 2) (VSOMEIP_LONG_BYTE1 v);
  vset d (pos + 3) (VSOMEIP_LONG_BYTE0 v).

(** A length field that is patched after its contents were written. *)
Definition with_length (write : list Z → outcome (list Z)) (d : list Z) : outcome (list Z) :=
  let its_pos := Z.of_nat (length d) in
  d ← write (serialize_u32 0 d);
  serialize_u32_at (u32 (Z.of_nat (length d) - its_pos - 4)) d its_pos.

Definition serialize_interval (i : interval) (d : list Z) : list Z :=
  if bool_decide (lower i = upper i) then
    serialize_u16 (lower i) (serialize_u32 1 (serialize_u32 2 d))
  else
    serialize_u16 (upper i) (serialize_u16 (lower i) (serialize_u32 2 (serialize_u32 4 d))).

Definition serialize_interval_set (s : iset) (d : list Z) : outcome (list Z) :=
  with_length (λ d, Ret (foldl (λ d i, serialize_interval i d) d (iset_intervals s))) d.

(** A loop over a list that appends to the data. *)
Fixpoint write_all {A} (f : A → list Z → outcome (list Z)) (l : list A) (d : list Z) :
    outcome (list Z) :=
  match l with [] => Ret d | x :: l => d ← f x d; write_all f l d end.

Definition serialize_instances (ids : imap) : list Z → outcome (list Z) :=
  with_length (write_all (λ i d,
    d ← serialize_interval_set (iset_insert i.1 iset_empty) d;
    serialize_interval_set i.2 d) (imap_segments ids)).

(** [for (its_service = lower; its_service <= upper; its_service++)], with a 16-bit
    counter. *)
Fixpoint serialize_services (fuel : nat) (its_service upper : Z) (ids : imap) (d : list Z) :
    outcome (list Z) :=
  match fuel with
  | O => NoFuel
  | S fuel =>
      if bool_decide (its_service ≤ upper) then
        d ← serialize_instances ids (serialize_u16 its_service d);
        serialize_services fuel (u16 (its_service + 1)) upper ids d
      else Ret d
  end.

(** [*credentials_.begin()] and [*its_gids.begin()]. *)
Definition first_of {A} (l : list A) : outcome A :=
  match l with x :: _ => Ret x | [] => Undef end.

(** The single uid and gid of a policy, [None] if there are several. *)
Definition single_credential (p : policy) : outcome (option (Z * Z)) :=
  if bool_decide (imap_size (credentials_ p) ≠ 1) then Ret None
  else
    its_credential ← first_of (imap_segments (credentials_ p));
    if bool_decide (iset_size its_credential.2 ≠ 1) then Ret None
    else
      gid ← first_of (iset_intervals its_credential.2);
      if bool_decide (lower its_credential.1 ≠ upper its_credential.1) then Ret None
      else if bool_decide (lower gid ≠ upper gid) then Ret None
      else Ret (Some (lower its_credential.1, lower gid)).

Definition get_uid_gid (p : policy) : outcome (option (Z * Z)) := single_credential p.

Definition serialize_uid_gid (p : policy) (d : list Z) : outcome (option (list Z)) :=
  c ← single_credential p;
  Ret (match c with
       | Some (uid, gid) => Some (serialize_u32 gid (serialize_u32 uid d))
       | None => None
       end).

Definition serialize (fuel : nat) (p : policy) (d : list Z) : outcome (option (list Z)) :=
  x ← serialize_uid_gid p d;
  match x with
  | None => Ret None
  | Some d =>
      d ← with_length (write_all (λ x,
            serialize_services fuel (lower x.1) (upper x.1) x.2) (rmap_segments (requests_ p))) d;
      Ret (Some (serialize_u32 0 d))
  end.
End policy.

(** ** Reading stays in the buffer and ends *)

Definition reader_ok (r : reader) : Prop :=
  size r = Z.of_nat (length (data r)) ∧ is_u32 (size r).

(** [r'] is reached from [r] by consuming at least [n] bytes. *)
Definition consumed (n : Z) (r r' : reader) : Prop :=
  reader_ok r' ∧ data r' `suffix_of` data r ∧ size r' + n ≤ size r.

(** From every position in the buffer the computation returns, still in the buffer; if it
    succeeds it has consumed at least [n] bytes. *)
Definition reads {A} (n : Z) (m : ST reader (option A)) : Prop :=
  ∀ r, reader_ok r → ∃ x r', m r = Ret (x, r') ∧ consumed 0 r r' ∧
    (is_Some x → consumed n r r').

Lemma consumed_refl r : reader_ok r → consumed 0 r r.
Proof. intros H. split; [done|]. split; [done|lia]. Qed.
Lemma consumed_trans n m r1 r2 r3 : consumed n r1 r2 → consumed m r2 r3 → consumed (n + m) r1 r3.
Proof. intros (?&?&?) (?&?&?). split; [done|]. split; [by etrans|lia]. Qed.
Lemma consumed_le n m r r' : m ≤ n → consumed n r r' → consumed m r r'.
Proof. intros ? (?&?&?). split; [done|]. split; [done|lia]. Qed.

Lemma reads_u16 : reads 2 deserialize_u16.
Proof.
  intros r [Hs Hu]. unfold deserialize_u16. st_run. case_bool_decide as Hlt.
  - exists None, r. split; [done|]. split; [by apply consumed_refl|by intros []].
  - destruct (data r) as [|x0 [|x1 rest]] eqn:E; cbn [length] in Hs; [lia|lia|].
    do 2 eexists. split; [done|].
    assert (consumed 2 r (Reader rest (u32 (size r - 2)))); [|split; [eapply consumed_le; [|done]; lia|done]].
    unfold consumed, reader_ok. cbn [data size]. rewrite E.
    rewrite u32_id by (unfold is_u32 in *; lia). unfold is_u32 in *.
    split_and!; [lia|lia|lia|by exists [x0; x1]|lia].
Qed.

Lemma reads_u32 : reads 4 deserialize_u32.
Proof.
  intros r [Hs Hu]. unfold deserialize_u32. st_run. case_bool_decide as Hlt.
  - exists None, r. split; [done|]. split; [by apply consumed_refl|by intros []].
  - destruct (data r) as [|x0 [|x1 [|x2 [|x3 rest]]]] eqn:E; cbn [length] in Hs; [lia..|].
    do 2 eexists. split; [done|].
    assert (consumed 4 r (Reader rest (u32 (size r - 4)))); [|split; [eapply consumed_le; [|done]; lia|done]].
    unfold consumed, reader_ok. cbn [data size]. rewrite E.
    rewrite u32_id by (unfold is_u32 in *; lia). unfold is_u32 in *.
    split_and!; [lia|lia|lia|by exists [x0; x1; x2; x3]|lia].
Qed.

Lemma reads_ret {A} (x : option A) : reads 0 (mret x).
Proof. intros r Hr. exists x, r. split; [done|]. split; [|intros _]; by apply consumed_refl. Qed.

Lemma reads_le {A} n m (c : ST reader (option A)) : m ≤ n → reads n c → reads m c.
Proof.
  intros Hnm Hc r Hr. destruct (Hc r Hr) as (x&r'&?&?&Hn). exists x, r'. split_and!; [done|done|].
  intros Hx. eapply consumed_le; [done|by apply Hn].
Qed.

Lemma reads_or_fail {A B} n m (c : ST reader (option A)) (k : A → ST reader (option B)) :
  reads n c → (∀ a, reads m (k a)) → reads (n + m) (or_fail c k).
Proof.
  intros Hc Hk r Hr. destruct (Hc r Hr) as (x&r1&E1&H0&Hn). unfold or_fail.
  rewrite (st_bind_Ret _ _ _ _ _ E1). destruct x as [a|].
  - destruct (Hn ltac:(by eexists)) as (Hr1&Hs1&Hz1). destruct (Hk a r1 Hr1) as (y&r2&E2&H2&Hm).
    exists y, r2. split; [done|]. split; [by apply (consumed_trans 0 0 r r1)|].
    intros Hy. apply (consumed_trans n m r r1); [by split_and!|by apply Hm].
  - exists None, r1. split; [done|]. split; [done|by intros []].
Qed.

Lemma reads_get {A} n (k : reader → ST reader (option A)) :
  (∀ r, reads n (k r)) → reads n (r ← st_get; k r).
Proof. intros Hk r Hr. destruct (Hk r r Hr) as (x&r'&E&H0&Hn). exists x, r'. by split. Qed.

(** A loop whose body consumes something has enough rounds. *)
Lemma reads_array_loop {A} (body : A → ST reader (option A)) fuel n acc r :
  (∀ acc, reads 1 (body acc)) → reader_ok r → size r < Z.of_nat fuel →
  ∃ x r', array_loop fuel body n acc r = Ret (x, r') ∧ consumed 0 r r'.
Proof.
  intros Hb. revert n acc r. induction fuel as [|fuel IH]; intros n acc r Hr Hf.
  { destruct Hr as [Hr _]. lia. }
  cbn [array_loop]. case_bool_decide; [|exists (Some acc), r; split; [done|by apply consumed_refl]].
  rewrite (st_bind_Ret _ _ _ _ _ (eq_refl : st_get r = Ret (r, r))).
  destruct (Hb acc r Hr) as (x&r1&E1&H0&Hn). unfold or_fail. rewrite (st_bind_Ret _ _ _ _ _ E1).
  destruct x as [acc1|]; [|by exists None, r1].
  destruct (Hn ltac:(by eexists)) as (Hr1&Hs1&Hz1).
  rewrite (st_bind_Ret _ _ _ _ _ (eq_refl : st_get r1 = Ret (r1, r1))).
  destruct (IH (u32 (n - u32 (size r - size r1))) acc1 r1 Hr1) as (y&r2&E2&H2); [lia|].
  exists y, r2. split; [done|]. apply (consumed_trans 0 0 r r1); [|done]. split_and!; [done|done|lia].
Qed.

Section safety.
  Context `{Icl} (uninit : Z → Z * Z).

Lemma reads_id_item u : reads 8 (deserialize_id_item u).
Proof.
  unfold deserialize_id_item. apply (reads_or_fail 4 4); [apply reads_u32|]. intros n.
  apply (reads_or_fail 4 0); [apply reads_u32|]. intros t.
  case_match; [|case_match; [|apply reads_ret]].
  - apply (reads_le 2); [lia|]. apply (reads_or_fail 2 0); [apply reads_u16|]. intros. apply reads_ret.
  - apply (reads_le (2 + 2)); [lia|]. apply (reads_or_fail 2 2); [apply reads_u16|]. intros low.
    apply (reads_or_fail 2 0); [apply reads_u16|]. intros high. destruct (bool_decide (low > high)); apply reads_ret.
Qed.

(** A list with its length field, whose elements are read by a body that consumes. *)
Lemma reads_array {A} (body : A → ST reader (option A)) acc :
  (∀ acc, reads 1 (body acc)) →
  reads 4 (or_fail deserialize_u32 (λ n, r ← st_get; array_loop (rounds r) body n acc)).
Proof.
  intros Hb. apply (reads_or_fail 4 0); [apply reads_u32|]. intros n r Hr.
  rewrite (st_bind_Ret _ _ _ _ _ (eq_refl : st_get r = Ret (r, r))).
  destruct (reads_array_loop body (rounds r) n acc r Hb Hr) as (x&r'&E&Hc).
  - unfold rounds. destruct Hr as [-> _]. lia.
  - exists x, r'. split; [done|]. split; [done|]. intros _. done.
Qed.

Lemma reads_id_item_list : reads 4 (deserialize_id_item_list uninit).
Proof.
  apply reads_array. intros acc. apply reads_get. intros r.
  apply (reads_le (8 + 0)); [lia|]. apply reads_or_fail; [apply reads_id_item|].
  intros [low high]. apply reads_ret.
Qed.

Lemma reads_ids : reads 4 (deserialize_ids uninit).
Proof.
  apply reads_array. intros acc. apply (reads_le (4 + (4 + 0))); [lia|].
  apply reads_or_fail; [apply reads_id_item_list|]. intros a.
  apply reads_or_fail; [apply reads_id_item_list|]. intros b. apply reads_ret.
Qed.

Lemma reads_service : reads 2 deserialize_service.
Proof.
  apply (reads_or_fail 2 0); [apply reads_u16|]. intros s. case_match; apply reads_ret.
Qed.
Lemma reads_request : reads 6 (deserialize_request uninit).
Proof.
  apply (reads_or_fail 2 4); [apply reads_service|]. intros s.
  apply (reads_or_fail 4 0); [apply reads_ids|]. intros i. apply reads_ret.
Qed.
Lemma reads_offer : reads 6 (deserialize_offer uninit).
Proof.
  apply (reads_or_fail 2 4); [apply reads_service|]. intros s.
  apply (reads_or_fail 4 0); [apply reads_id_item_list|]. intros i. apply reads_ret.
Qed.

Lemma reads_member_loop {A} (body : ST reader (option A)) add fuel n p r :
  reads 6 body → reader_ok r → size r < Z.of_nat fuel →
  ∃ x r', member_loop fuel body add n p r = Ret (x, r') ∧ consumed 0 r r'.
Proof.
  intros Hb. revert n p r. induction fuel as [|fuel IH]; intros n p r Hr Hf.
  { destruct Hr as [Hr _]. lia. }
  cbn [member_loop]. case_bool_decide as Hpos; [|exists (true, p), r; split; [done|by apply consumed_refl]].
  rewrite (st_bind_Ret _ _ _ _ _ (eq_refl : st_get r = Ret (r, r))).
  destruct (Hb r Hr) as (x&r1&E1&H0&Hn). rewrite (st_bind_Ret _ _ _ _ _ E1).
  destruct x as [a|]; [|by exists (false, p), r1].
  destruct (Hn ltac:(by eexists)) as (Hr1&Hs1&Hz1).
  rewrite (st_bind_Ret _ _ _ _ _ (eq_refl : st_get r1 = Ret (r1, r1))).
  destruct (IH (u32 (n - u32 (size r - size r1))) (add a p) r1 Hr1) as (y&r2&E2&H2); [lia|].
  exists y, r2. split; [done|]. apply (consumed_trans 0 0 r r1); [|done]. split_and!; [done|done|lia].
Qed.

(** Reading a policy from any buffer ends and never leaves the buffer, whatever its
    bytes and whatever the uninitialised variables hold: [deserialize] returns, and the
    pointer and the count of bytes left are those of a rest of the buffer. *)
Theorem policy_deserialize_safe p bs : is_u32 (Z.of_nat (length bs)) →
  ∃ ok p' r', deserialize uninit p (Reader bs (Z.of_nat (length bs))) = Ret ((ok, p'), r') ∧
    data r' `suffix_of` bs ∧ size r' = Z.of_nat (length (data r')).
Proof.
  intros Hl. set (r0 := Reader bs (Z.of_nat (length bs))). assert (Hr0 : reader_ok r0) by done.
  assert (Hdone : ∀ (m : ST reader (bool * policy)),
    (∃ x r', m r0 = Ret (x, r') ∧ consumed 0 r0 r') → ∃ ok p' r', m r0 = Ret ((ok, p'), r') ∧
      data r' `suffix_of` bs ∧ size r' = Z.of_nat (length (data r'))).
  { intros m ([ok p']&r'&E&(Hr'&_)&Hs&_). exists ok, p', r'. by split_and!. }
  apply Hdone. unfold deserialize.
  assert (Hug : reads 8 deserialize_uid_gid).
  { apply (reads_or_fail 4 4); [apply reads_u32|]. intros u.
    apply (reads_or_fail 4 0); [apply reads_u32|]. intros g. apply reads_ret. }
  destruct (Hug r0 Hr0) as (x&r1&E1&H1&_). rewrite (st_bind_Ret _ _ _ _ _ E1).
  pose proof (proj1 H1) as Hr1. destruct x as [[uid gid]|]; [|by eauto].
  destruct (reads_u32 r1 Hr1) as (n&r2&E2&H2&_). cbv zeta. rewrite (st_bind_Ret _ _ _ _ _ E2).
  pose proof (proj1 H2) as Hr2. pose proof (consumed_trans 0 0 _ _ _ H1 H2) as H12.
  destruct n as [n|]; [|by eauto].
  rewrite (st_bind_Ret _ _ _ _ _ (eq_refl : st_get r2 = Ret (r2, r2))).
  destruct (reads_member_loop (deserialize_request uninit) add_request (rounds r2) n
    (add_credentials uid gid p) r2 reads_request Hr2) as ([ok p3]&r3&E3&H3).
  { unfold rounds. rewrite (proj1 Hr2). lia. }
  pose proof (proj1 H3) as Hr3. pose proof (consumed_trans 0 0 _ _ _ H12 H3) as H13.
  rewrite (st_bind_Ret _ _ _ _ _ E3). destruct ok; cbn [negb]; [|by eauto].
  destruct (reads_u32 r3 Hr3) as (n4&r4&E4&H4&_). rewrite (st_bind_Ret _ _ _ _ _ E4).
  pose proof (proj1 H4) as Hr4. pose proof (consumed_trans 0 0 _ _ _ H13 H4) as H14.
  destruct n4 as [n4|]; [|by eauto].
  rewrite (st_bind_Ret _ _ _ _ _ (eq_refl : st_get r4 = Ret (r4, r4))).
  destruct (reads_member_loop (deserialize_offer uninit) add_offer (rounds r4) n4 p3 r4
    reads_offer Hr4) as (y&r5&E5&H5).
  { unfold rounds. rewrite (proj1 Hr4). lia. }
  exists y, r5. split; [done|]. apply (consumed_trans 0 0 _ _ _ H14 H5).
Qed.
End safety.

(** ** What is written *)

(** A byte sequence behind its length. *)
Definition counted (c : list Z) : list Z := be32 (u32 (Z.of_nat (length c))) ++ c.

Definition interval_wire (i : interval) : list Z :=
  if bool_decide (lower i = upper i) then be32 2 ++ be32 1 ++ be16 (lower i)
  else be32 4 ++ be32 2 ++ be16 (lower i) ++ be16 (upper i).

Lemma serialize_u16_app v d : serialize_u16 v d = d ++ be16 v.
Proof. done. Qed.
Lemma serialize_u32_app v d : serialize_u32 v d = d ++ be32 v.
Proof. done. Qed.

Lemma serialize_interval_app i d : serialize_interval i d = d ++ interval_wire i.
Proof.
  unfold serialize_interval, interval_wire.
  case_bool_decide; rewrite !serialize_u16_app, !serialize_u32_app, <- !app_assoc; done.
Qed.

Lemma vset_app d x y rest : vset (d ++ x :: rest) (Z.of_nat (length d)) y = Ret (d ++ y :: rest).
Proof.
  unfold vset. rewrite bool_decide_true by (rewrite length_app; cbn; lia). f_equal.
  rewrite Nat2Z.id. by rewrite insert_app_r_alt, Nat.sub_diag by lia.
Qed.

Lemma serialize_u32_at_app v d x0 x1 x2 x3 rest :
  serialize_u32_at v (d ++ x0 :: x1 :: x2 :: x3 :: rest) (Z.of_nat (length d)) = Ret (d ++ be32 v ++ rest).
Proof.
  unfold serialize_u32_at. rewrite vset_app, outcome_bind_Ret.
  replace (d ++ VSOMEIP_LONG_BYTE3 v :: x1 :: x2 :: x3 :: rest)
    with ((d ++ [VSOMEIP_LONG_BYTE3 v]) ++ x1 :: x2 :: x3 :: rest) by (by rewrite <- app_assoc).
  replace (Z.of_nat (length d) + 1) with (Z.of_nat (length (d ++ [VSOMEIP_LONG_BYTE3 v])))
    by (rewrite length_app; cbn [length]; lia).
  rewrite vset_app, outcome_bind_Ret.
  replace ((d ++ [VSOMEIP_LONG_BYTE3 v]) ++ VSOMEIP_LONG_BYTE2 v :: x2 :: x3 :: rest)
    with ((d ++ [VSOMEIP_LONG_BYTE3 v; VSOMEIP_LONG_BYTE2 v]) ++ x2 :: x3 :: rest) by (by rewrite <- !app_assoc).
  replace (Z.of_nat (length d) + 2)
    with (Z.of_nat (length (d ++ [VSOMEIP_LONG_BYTE3 v; VSOMEIP_LONG_BYTE2 v])))
    by (rewrite length_app; cbn [length]; lia).
  rewrite vset_app, outcome_bind_Ret.
  replace ((d ++ [VSOMEIP_LONG_BYTE3 v; VSOMEIP_LONG_BYTE2 v]) ++ VSOMEIP_LONG_BYTE1 v :: x3 :: rest)
    with ((d ++ [VSOMEIP_LONG_BYTE3 v; VSOMEIP_LONG_BYTE2 v; VSOMEIP_LONG_BYTE1 v]) ++ x3 :: rest)
    by (by rewrite <- !app_assoc).
  replace (Z.of_nat (length d) + 3)
    with (Z.of_nat (length (d ++ [VSOMEIP_LONG_BYTE3 v; VSOMEIP_LONG_BYTE2 v; VSOMEIP_LONG_BYTE1 v])))
    by (rewrite length_app; cbn [length]; lia).
  rewrite vset_app. by rewrite <- !app_assoc.
Qed.

(** Contents written behind a length field that is patched. *)
Lemma with_length_app write c d : (∀ d, write d = Ret (d ++ c)) →
  with_length write d = Ret (d ++ counted c).
Proof.
  intros Hw. unfold with_length. cbv zeta. rewrite Hw, outcome_bind_Ret, serialize_u32_app, <- app_assoc.
  unfold counted. replace (Z.of_nat (length (d ++ be32 0 ++ c)) - Z.of_nat (length d) - 4)
    with (Z.of_nat (length c)) by (rewrite !length_app; cbn [length be32 be24]; lia).
  apply serialize_u32_at_app.
Qed.

Lemma write_all_app {A} (f : A → list Z → outcome (list Z)) (w : A → list Z) l d :
  (∀ x d, x ∈ l → f x d = Ret (d ++ w x)) → write_all f l d = Ret (d ++ mjoin (w <$> l)).
Proof.
  revert d. induction l as [|x l IH]; intros d Hf; cbn [write_all fmap list_fmap].
  - by rewrite app_nil_r.
  - rewrite Hf by (by left). rewrite outcome_bind_Ret, IH, join_cons, app_assoc; [done|].
    intros y d' Hy. apply Hf. by right.
Qed.

Section wire.
  Context `{Icl}.

Definition set_wire (s : iset) : list Z := counted (mjoin (interval_wire <$> iset_intervals s)).
Definition segment_wire (x : interval * iset) : list Z :=
  set_wire (iset_insert x.1 iset_empty) ++ set_wire x.2.
Definition ids_wire (ids : imap) : list Z := counted (mjoin (segment_wire <$> imap_segments ids)).
Definition service_wire (x : Z * imap) : list Z := be16 x.1 ++ ids_wire x.2.

(** The services of a segment, one by one. *)
Definition services_of (x : interval * imap) : list (Z * imap) :=
  (λ k, (k, x.2)) <$> seqZ (lower x.1) (upper x.1 - lower x.1 + 1).
Definition requests_wire (p : policy) : list Z :=
  counted (mjoin (service_wire <$> mjoin (services_of <$> rmap_segments (requests_ p)))).

Lemma serialize_interval_set_app s d : serialize_interval_set s d = Ret (d ++ set_wire s).
Proof.
  unfold serialize_interval_set, set_wire. apply with_length_app. intros d'. f_equal.
  generalize (iset_intervals s). intros l. revert d'.
  induction l as [|i l IH]; intros d'; cbn [foldl fmap list_fmap]; [by rewrite app_nil_r|].
  by rewrite IH, serialize_interval_app, join_cons, app_assoc.
Qed.

Lemma serialize_instances_app ids d : serialize_instances ids d = Ret (d ++ ids_wire ids).
Proof.
  unfold serialize_instances, ids_wire. apply with_length_app. intros d'.
  apply write_all_app. intros x d2 _. rewrite serialize_interval_set_app, outcome_bind_Ret.
  rewrite serialize_interval_set_app. unfold segment_wire. by rewrite app_assoc.
Qed.

Lemma serialize_services_app fuel k i ids d : 0 ≤ k ≤ upper i + 1 → upper i < 0xFFFF →
  upper i - k + 1 < Z.of_nat fuel →
  serialize_services fuel k (upper i) ids d =
    Ret (d ++ mjoin (service_wire <$> services_of (closed k (upper i), ids))).
Proof.
  revert k d. induction fuel as [|fuel IH]; intros k d Hl Hu Hf; [lia|].
  cbn [serialize_services]. unfold services_of. cbn [fst snd closed lower upper]. case_bool_decide as Hle.
  - rewrite serialize_instances_app, outcome_bind_Ret, serialize_u16_app, u16_id by (unfold is_u16; lia).
    rewrite IH by lia. unfold services_of. cbn [fst snd closed lower upper]. rewrite (seqZ_cons k) by lia.
    replace (Z.pred (upper i - k + 1)) with (upper i - (k + 1) + 1) by lia.
    cbn [fmap list_fmap]. rewrite join_cons. unfold service_wire at 2. cbn [fst snd].
    by rewrite <- !app_assoc.
  - rewrite seqZ_nil by lia. by rewrite app_nil_r.
Qed.

(** The policies that can be written and read back. *)
Definition is_closed (i : interval) : Prop := i = closed (lower i) (upper i).
Definition interval_ok (i : interval) : Prop :=
  is_closed i ∧ 0 < lower i ≤ upper i ∧ upper i < 2 ^ 16 ∧
  ¬ (lower i = ANY_METHOD ∧ upper i = ANY_METHOD).
Definition segment_ok (x : interval * iset) : Prop :=
  interval_ok x.1 ∧ Forall interval_ok (iset_intervals x.2).
Definition request_ok (x : interval * imap) : Prop :=
  is_closed x.1 ∧ 0 < lower x.1 ≤ upper x.1 ∧ upper x.1 < 0xFFFF ∧ Forall segment_ok (imap_segments x.2).

Lemma serialize_app fuel p d uid gid : single_credential p = Ret (Some (uid, gid)) →
  Forall request_ok (rmap_segments (requests_ p)) → 0x10000 ≤ Z.of_nat fuel →
  serialize fuel p d = Ret (Some (d ++ be32 uid ++ be32 gid ++ requests_wire p ++ be32 0)).
Proof.
  intros Hc Hok Hf. unfold serialize, serialize_uid_gid. rewrite Hc, !outcome_bind_Ret.
  rewrite (with_length_app _ (mjoin (service_wire <$> mjoin (services_of <$> rmap_segments (requests_ p))))).
  - rewrite outcome_bind_Ret, !serialize_u32_app. unfold requests_wire. by rewrite <- !app_assoc.
  - intros d'. rewrite (write_all_app _ (λ x, mjoin (service_wire <$> services_of x))).
    + do 2 f_equal. generalize (rmap_segments (requests_ p)). intros l. induction l as [|x l IH]; [done|].
      cbn [fmap list_fmap]. by rewrite !join_cons, fmap_app, join_app, IH.
    + intros [i ids] d2 Hx. rewrite Forall_forall in Hok. specialize (Hok _ Hx).
      destruct Hok as (Hi&?&?&_). cbn [fst snd] in *. apply (serialize_services_app fuel (lower i) i ids d2); lia.
Qed.
End wire.

(** ** What is read back *)

(** The reader at the start of a buffer. *)
Definition rd (l : list Z) : reader := Reader l (Z.of_nat (length l)).

(** From a buffer that starts with [w], the computation reads [a] and consumes [w]. *)
Definition decodes {A} (m : ST reader (option A)) (w : list Z) (a : A) : Prop :=
  ∀ rest, is_u32 (Z.of_nat (length (w ++ rest))) → m (rd (w ++ rest)) = Ret (Some a, rd rest).

Lemma decodes_u16 v : is_u16 v → decodes deserialize_u16 (be16 v) v.
Proof.
  intros Hv rest Hl. unfold deserialize_u16. st_run. rewrite length_app in Hl. unfold is_u32 in Hl.
  cbn [length be16] in Hl. unfold rd. cbn [size data be16 app length].
  rewrite bool_decide_false by lia. rewrite word_of_be16 by done.
  rewrite u32_id by (unfold is_u32; lia). do 3 f_equal. lia.
Qed.
Lemma decodes_u32 v : is_u32 v → decodes deserialize_u32 (be32 v) v.
Proof.
  intros Hv rest Hl. unfold deserialize_u32. st_run. rewrite length_app in Hl. unfold is_u32 in Hl.
  cbn [length be32 be24] in Hl. unfold rd. cbn [size data be32 be24 app length].
  rewrite bool_decide_false by lia. rewrite long_of_be32 by done.
  rewrite u32_id by (unfold is_u32; lia). do 3 f_equal. lia.
Qed.
Lemma decodes_ret {A} (a : A) : decodes (mret (Some a)) [] a.
Proof. done. Qed.

Lemma decodes_or_fail {A B} (m : ST reader (option A)) (k : A → ST reader (option B)) w w' a b :
  decodes m w a → decodes (k a) w' b → decodes (or_fail m k) (w ++ w') b.
Proof.
  intros Hm Hk rest Hl. rewrite <- app_assoc in *. unfold or_fail.
  rewrite (st_bind_Ret _ _ _ _ _ (Hm (w' ++ rest) Hl)). apply Hk.
  rewrite !length_app in *. unfold is_u32 in *. lia.
Qed.
Lemma decodes_get {A} (k : reader → ST reader (option A)) w a :
  (∀ r, decodes (k r) w a) → decodes (r ← st_get; k r) w a.
Proof. intros Hk rest Hl. by apply Hk. Qed.

(** An array whose elements [x] are written as [enc x] and change the accumulator as
    [step]. *)
Lemma decodes_array_loop {A E} (body : A → ST reader (option A)) (enc : E → list Z) (step : A → E → A)
    l fuel acc :
  (∀ acc x, x ∈ l → decodes (body acc) (enc x) (step acc x)) → (∀ x, x ∈ l → enc x ≠ []) →
  (length l < fuel)%nat →
  decodes (array_loop fuel body (Z.of_nat (length (mjoin (enc <$> l)))) acc)
    (mjoin (enc <$> l)) (foldl step acc l).
Proof.
  revert fuel acc. induction l as [|x l IH]; intros fuel acc Hb He Hf rest Hl;
    (destruct fuel as [|fuel]; [cbn in Hf; lia|]); cbn [array_loop].
  { done. }
  rewrite fmap_cons, join_cons in *. set (c := mjoin (enc <$> l)) in *.
  assert (Hx : (0 < length (enc x))%nat).
  { specialize (He x ltac:(by left)). by destruct (enc x); [|cbn; lia]. }
  rewrite bool_decide_true by (rewrite length_app; lia). rewrite <- app_assoc in *.
  st_run. unfold or_fail. st_run. rewrite (Hb acc x ltac:(by left) (c ++ rest) Hl). st_run.
  cbn [rd size]. rewrite !length_app in *. unfold is_u32 in Hl.
  assert (Hin : u32 (Z.of_nat (length (enc x) + (length c + length rest))
      - Z.of_nat (length c + length rest)) = Z.of_nat (length (enc x)))
    by (rewrite u32_id; unfold is_u32; lia).
  rewrite Hin. clear Hin.
  assert (u32 (Z.of_nat (length (enc x) + length c) - Z.of_nat (length (enc x))) = Z.of_nat (length c))
    as -> by (rewrite u32_id; unfold is_u32; lia).
  cbn [foldl]. apply (IH fuel (step acc x)).
  - intros acc' y Hy. apply Hb. by right.
  - intros y Hy. apply He. by right.
  - cbn in Hf. lia.
  - unfold is_u32. rewrite length_app. lia.
Qed.

Lemma enc_length {E} (enc : E → list Z) l : (∀ x, x ∈ l → enc x ≠ []) →
  (length l ≤ length (mjoin (enc <$> l)))%nat.
Proof.
  induction l as [|x l IH]; intros He; [done|]. cbn [fmap list_fmap]. rewrite join_cons, length_app.
  specialize (IH (λ y Hy, He y (list_elem_of_further _ _ _ Hy))).
  specialize (He x ltac:(by left)). destruct (enc x); [done|]. cbn. lia.
Qed.

Lemma decodes_array {A E} (body : A → ST reader (option A)) (enc : E → list Z) (step : A → E → A) l acc :
  (∀ acc x, x ∈ l → decodes (body acc) (enc x) (step acc x)) → (∀ x, x ∈ l → enc x ≠ []) →
  decodes (or_fail deserialize_u32 (λ n, r ← st_get; array_loop (rounds r) body n acc))
    (counted (mjoin (enc <$> l))) (foldl step acc l).
Proof.
  intros Hb He rest Hl. unfold counted in *. set (c := mjoin (enc <$> l)) in *.
  assert (is_u32 (Z.of_nat (length c))).
  { rewrite !length_app in Hl. unfold is_u32 in *. lia. }
  rewrite u32_id in * by done.
  refine (decodes_or_fail _ _ _ c _ _ (decodes_u32 _ ltac:(done)) _ rest Hl).
  intros rest' Hl'. rewrite (st_bind_Ret _ _ _ _ _ (eq_refl : st_get (rd (c ++ rest')) = Ret (_, _))).
  apply (decodes_array_loop body enc step); [done|done| |done].
  unfold rounds, rd. cbn [size]. pose proof (enc_length enc l He) as Hen. fold c in Hen. rewrite length_app. lia.
Qed.

(** What the code relies on: a set of one interval has that interval; inserting the
    intervals of a set into an empty one, adding the segments of a map to an empty one, and
    adding the elements of a map one by one to an empty one yield the same container again,
    if all its bounds are closed. *)
Class IclLaws `{Icl} : Prop := {
  iset_insert_one i : lower i ≤ upper i → is_closed i → iset_intervals (iset_insert i iset_empty) = [i];
  iset_rebuild s : Forall is_closed (iset_intervals s) →
    foldl (λ s i, iset_insert i s) iset_empty (iset_intervals s) = s;
  imap_rebuild m : Forall (λ x, is_closed x.1) (imap_segments m) →
    foldl (λ m x, imap_add x.1 x.2 m) imap_empty (imap_segments m) = m;
  rmap_rebuild r : Forall (λ x, is_closed x.1 ∧ lower x.1 ≤ upper x.1) (rmap_segments r) →
    foldl (λ r x, rmap_add (closed x.1 x.1) x.2 r) rmap_empty
      (mjoin (services_of <$> rmap_segments r)) = r
}.

Section roundtrip.
  Context `{IclLaws} (uninit : Z → Z * Z).

Lemma interval_wire_nonempty i : interval_wire i ≠ [].
Proof. unfold interval_wire. by case_bool_decide. Qed.

Lemma id_item_result_ok low high : interval_ok (closed low high) → id_item_result low high = Some (low, high).
Proof.
  intros (_&H1&H2&H3). cbn [closed lower upper] in *. unfold id_item_result.
  destruct (bool_decide (low = ANY_METHOD) && bool_decide (high = ANY_METHOD)) eqn:E.
  - apply andb_true_iff in E as [?%bool_decide_eq_true ?%bool_decide_eq_true]. naive_solver.
  - by rewrite bool_decide_true by lia.
Qed.

Lemma decodes_id_item u low high : interval_ok (closed low high) →
  decodes (deserialize_id_item u) (interval_wire (closed low high)) (low, high).
Proof.
  intros Hi. pose proof Hi as (_&H1&H2&_). cbn [closed lower upper] in *.
  unfold interval_wire, deserialize_id_item. cbn [closed lower upper]. case_bool_decide as E.
  - subst high. apply (decodes_or_fail _ _ (be32 2) _ 2); [by apply decodes_u32|].
    apply (decodes_or_fail _ _ (be32 1) _ 1); [by apply decodes_u32|]. cbn -[be16].
    rewrite <- (app_nil_r (be16 low)). apply (decodes_or_fail _ _ _ _ low); [apply decodes_u16; unfold is_u16; lia|].
    rewrite id_item_result_ok by done. apply decodes_ret.
  - apply (decodes_or_fail _ _ (be32 4) _ 4); [by apply decodes_u32|].
    apply (decodes_or_fail _ _ (be32 2) _ 2); [by apply decodes_u32|]. cbn -[be16].
    apply (decodes_or_fail _ _ _ _ low); [apply decodes_u16; unfold is_u16; lia|].
    rewrite <- (app_nil_r (be16 high)). apply (decodes_or_fail _ _ _ _ high); [apply decodes_u16; unfold is_u16; lia|].
    rewrite bool_decide_false by lia. rewrite id_item_result_ok by done. apply decodes_ret.
Qed.

Lemma decodes_set s : Forall interval_ok (iset_intervals s) →
  decodes (deserialize_id_item_list uninit) (set_wire s) s.
Proof.
  intros Hs. rewrite <- (iset_rebuild s) at 2 by (eapply Forall_impl; [done|by intros ? []]). unfold deserialize_id_item_list, set_wire.
  apply decodes_array; [|intros; apply interval_wire_nonempty].
  intros acc i Hi. apply decodes_get. intros r. rewrite <- (app_nil_r (interval_wire i)).
  assert (Hok : interval_ok i) by (by eapply Forall_forall in Hs). rewrite (proj1 Hok) in Hok |- *.
  apply (decodes_or_fail _ _ _ _ (lower i, upper i)); [by apply decodes_id_item|apply decodes_ret].
Qed.

Lemma counted_nonempty c : counted c ≠ [].
Proof. done. Qed.

Lemma decodes_ids ids : Forall segment_ok (imap_segments ids) →
  decodes (deserialize_ids uninit) (ids_wire ids) ids.
Proof.
  intros Hs. rewrite <- (imap_rebuild ids) at 2 by (eapply Forall_impl; [done|by intros ? [[]]]). unfold deserialize_ids, ids_wire.
  apply decodes_array; [|done]. intros acc x Hx.
  rewrite Forall_forall in Hs. destruct (Hs x Hx) as [Hi Hm].
  assert (Hone : iset_intervals (iset_insert x.1 iset_empty) = [x.1])
    by (destruct Hi as (?&?&_); apply iset_insert_one; [lia|done]).
  apply (decodes_or_fail _ _ _ _ (iset_insert x.1 iset_empty)).
  { apply decodes_set. rewrite Hone. by apply Forall_singleton. }
  rewrite <- (app_nil_r (set_wire x.2)). apply (decodes_or_fail _ _ _ _ x.2); [by apply decodes_set|].
  rewrite Hone. apply decodes_ret.
Qed.

Lemma decodes_request k ids : 0 < k < 0xFFFF → Forall segment_ok (imap_segments ids) →
  decodes (deserialize_request uninit) (service_wire (k, ids)) (k, ids).
Proof.
  intros Hk Hs. unfold deserialize_request, service_wire. cbn [fst snd].
  apply (decodes_or_fail _ _ _ _ k).
  - unfold deserialize_service. rewrite <- (app_nil_r (be16 k)).
    apply (decodes_or_fail _ _ _ _ k); [apply decodes_u16; unfold is_u16; lia|].
    rewrite !bool_decide_false by lia. apply decodes_ret.
  - rewrite <- (app_nil_r (ids_wire ids)). apply (decodes_or_fail _ _ _ _ ids); [by apply decodes_ids|].
    apply decodes_ret.
Qed.

Lemma decodes_requests l fuel p rest : Forall (λ x, 0 < x.1 < 0xFFFF ∧ Forall segment_ok (imap_segments x.2)) l →
  (length l < fuel)%nat → is_u32 (Z.of_nat (length (mjoin (service_wire <$> l) ++ rest))) →
  member_loop fuel (deserialize_request uninit) add_request
    (Z.of_nat (length (mjoin (service_wire <$> l)))) p (rd (mjoin (service_wire <$> l) ++ rest)) =
  Ret ((true, foldl (λ p x, add_request x p) p l), rd rest).
Proof.
  revert fuel p. induction l as [|[k ids] l IH]; intros fuel p Hl Hf Hn;
    (destruct fuel as [|fuel]; [cbn in Hf; lia|]); cbn [member_loop]; [done|].
  apply Forall_cons_1 in Hl as [[Hk Hs] Hl]. rewrite fmap_cons, join_cons in *.
  set (c := mjoin (service_wire <$> l)) in *. set (w := service_wire (k, ids)) in *.
  assert (Hw : (0 < length w)%nat) by (subst w; cbn; lia).
  rewrite bool_decide_true by (rewrite length_app; lia). rewrite <- app_assoc in *. st_run.
  rewrite (decodes_request k ids Hk Hs (c ++ rest) Hn
    : deserialize_request uninit (rd (w ++ c ++ rest)) = _). cbn [rd size].
  rewrite !length_app in *. unfold is_u32 in Hn.
  assert (Hin : u32 (Z.of_nat (length w + (length c + length rest))
      - Z.of_nat (length c + length rest)) = Z.of_nat (length w))
    by (rewrite u32_id; unfold is_u32; lia).
  rewrite Hin. clear Hin.
  assert (u32 (Z.of_nat (length w + length c) - Z.of_nat (length w)) = Z.of_nat (length c))
    as -> by (rewrite u32_id; unfold is_u32; lia).
  cbn [foldl]. apply IH; [done|cbn in Hf; lia|unfold is_u32; lia].
Qed.

(** Reading requests changes the requests only. *)
Lemma add_requests_each l p : foldl (λ p x, add_request x p) p l =
  Policy (credentials_ p) (allow_who_ p)
    (foldl (λ r x, rmap_add (closed x.1 x.1) x.2 r) (requests_ p) l) (offers_ p) (allow_what_ p).
Proof. revert p. induction l as [|x l IH]; intros p; [by destruct p|]. apply IH. Qed.

Lemma single_credential_one p uid gid gids :
  imap_size (credentials_ p) = 1 → imap_segments (credentials_ p) = [(closed uid uid, gids)] →
  iset_size gids = 1 → iset_intervals gids = [closed gid gid] →
  single_credential p = Ret (Some (uid, gid)).
Proof.
  intros Hn Hc Hgn Hg. unfold single_credential. rewrite Hn, Hc, (bool_decide_false (1 ≠ 1)) by lia.
  cbn [first_of]. rewrite outcome_bind_Ret. cbn [fst snd]. rewrite Hgn, (bool_decide_false (1 ≠ 1)) by lia.
  rewrite Hg. cbn [first_of]. rewrite outcome_bind_Ret. cbn [fst snd closed lower upper].
  by rewrite !(bool_decide_false (_ ≠ _)) by lia.
Qed.

Lemma decodes_uid_gid uid gid : is_u32 uid → is_u32 gid →
  decodes deserialize_uid_gid (be32 uid ++ be32 gid) (uid, gid).
Proof.
  intros Hu Hg. apply (decodes_or_fail _ _ _ _ uid); [by apply decodes_u32|].
  rewrite <- (app_nil_r (be32 gid)).
  apply (decodes_or_fail _ _ _ _ gid); [by apply decodes_u32|apply decodes_ret].
Qed.

Lemma services_of_ok l : Forall request_ok l →
  Forall (λ x, 0 < x.1 < 0xFFFF ∧ Forall segment_ok (imap_segments x.2)) (mjoin (services_of <$> l)).
Proof.
  intros Hok. induction Hok as [|[i ids] l (_&Hlo&Hhi&Hs) _ IH]; [constructor|].
  rewrite fmap_cons, join_cons. apply Forall_app. split; [|done]. apply Forall_fmap.
  apply Forall_forall. intros k Hk%elem_of_seqZ. cbn [compose fst snd] in *. split; [lia|done].
Qed.

(** C28: Writing a policy for one user and group and reading it back into an empty policy
    yields its requests and its credentials, allows, and has no offers (which are not
    written).  The intervals of instances and methods must not start at 0 nor be just the
    wildcard 0xFFFF, the services must lie between 0 and 0xFFFF, and all bounds be closed. *)
Theorem policy_roundtrip fuel p uid gid gids :
  imap_size (credentials_ p) = 1 → imap_segments (credentials_ p) = [(closed uid uid, gids)] →
  iset_size gids = 1 → iset_intervals gids = [closed gid gid] → is_u32 uid → is_u32 gid →
  Forall request_ok (rmap_segments (requests_ p)) → 0x10000 ≤ Z.of_nat fuel →
  is_u32 (16 + Z.of_nat (length (requests_wire p))) →
  ∃ d, serialize fuel p [] = Ret (Some d) ∧
    deserialize uninit policy_new (Reader d (Z.of_nat (length d))) =
      Ret ((true, Policy (credentials_ p) true (requests_ p) imap_empty true), Reader [] 0).
Proof.
  intros Hn Hc Hgn Hg Hu Hgu Hok Hf Hlen.
  eexists. split; [apply (serialize_app fuel p [] uid gid); [by eapply single_credential_one|done|done]|]. cbn [app].
  set (l := mjoin (services_of <$> rmap_segments (requests_ p))).
  set (c := mjoin (service_wire <$> l)).
  assert (Hcw : requests_wire p = counted c) by done. rewrite Hcw in *. unfold counted in *.
  rewrite !length_app in Hlen. cbn [length be32 be24] in Hlen. unfold is_u32 in Hlen.
  change (Reader ?d (Z.of_nat (length ?d))) with (rd d). unfold deserialize.
  assert (Hsz : ∀ n, 0 ≤ n ≤ 16 + Z.of_nat (length c) → is_u32 n) by (unfold is_u32; lia).
  replace (be32 uid ++ be32 gid ++ (be32 (u32 (Z.of_nat (length c))) ++ c) ++ be32 0)
    with ((be32 uid ++ be32 gid) ++ be32 (u32 (Z.of_nat (length c))) ++ c ++ be32 0)
    by (by rewrite <- !app_assoc).
  rewrite (st_bind_Ret _ _ _ _ _ (decodes_uid_gid uid gid Hu Hgu (be32 (u32 (Z.of_nat (length c))) ++ c ++ be32 0)
    ltac:(apply Hsz; rewrite !length_app; cbn [length be32 be24]; lia))).
  cbv beta iota zeta. rewrite u32_id by (apply Hsz; lia).
  rewrite (st_bind_Ret _ _ _ _ _ (decodes_u32 (Z.of_nat (length c)) ltac:(apply Hsz; lia) (c ++ be32 0)
    ltac:(apply Hsz; rewrite !length_app; cbn [length be32 be24]; lia))).
  rewrite (st_bind_Ret _ _ _ _ _ (eq_refl : st_get (rd (c ++ be32 0)) = Ret (_, _))).
  assert (Hne : ∀ x, x ∈ l → service_wire x ≠ []) by done.
  rewrite (st_bind_Ret _ _ _ _ _ (decodes_requests l (rounds (rd (c ++ be32 0))) (add_credentials uid gid policy_new) (be32 0) (services_of_ok _ Hok)
    ltac:(unfold rounds, rd; cbn [size]; pose proof (enc_length service_wire l Hne) as Hen; fold c in Hen;
          rewrite length_app; lia)
    ltac:(apply Hsz; rewrite !length_app; fold c; cbn [length be32 be24]; lia))).
  cbv beta iota. cbn [negb].
  rewrite (st_bind_Ret _ _ _ _ _ (decodes_u32 0 ltac:(done) [] ltac:(done) : deserialize_u32 (rd (be32 0)) = _)).
  rewrite (st_bind_Ret _ _ _ _ _ (eq_refl : st_get (rd []) = Ret (_, _))).
  cbn [rounds rd size length member_loop]. rewrite bool_decide_false by lia. rewrite st_mret_eq.
  do 3 f_equal. rewrite add_requests_each.
  cbn [add_credentials policy_new requests_ credentials_ offers_ allow_who_ allow_what_]. f_equal.
  - rewrite <- (imap_rebuild (credentials_ p)), Hc by (rewrite Hc; by apply Forall_singleton).
    cbn [foldl fst snd]. f_equal. by rewrite <- (iset_rebuild gids), Hg by (rewrite Hg; by apply Forall_singleton).
  - apply rmap_rebuild. eapply Forall_impl; [done|]. intros x (?&?&_). split; [done|lia].
Qed.
End roundtrip.

(** ** Services up to 0xFFFF *)

Section wildcard.
  Context `{Icl}.

Lemma serialize_services_any fuel k ids d : is_u16 k →
  serialize_services fuel k 0xFFFF ids d = NoFuel.
Proof.
  revert k d. induction fuel as [|fuel IH]; intros k d Hk; [done|]. cbn [serialize_services].
  rewrite bool_decide_true by (unfold is_u16 in Hk; lia).
  rewrite serialize_instances_app, outcome_bind_Ret. apply IH. apply is_u16_u16.
Qed.

Lemma serialize_services_defined fuel k upper ids d :
  serialize_services fuel k upper ids d = NoFuel ∨
  ∃ d', serialize_services fuel k upper ids d = Ret d'.
Proof.
  revert k d. induction fuel as [|fuel IH]; intros k d; [by left|]. cbn [serialize_services].
  case_bool_decide; [|by eauto]. rewrite serialize_instances_app, outcome_bind_Ret. apply IH.
Qed.

Lemma write_all_NoFuel {A} (f : A → list Z → outcome (list Z)) x l d :
  x ∈ l → (∀ d, f x d = NoFuel) → (∀ y d, f y d = NoFuel ∨ ∃ d', f y d = Ret d') →
  write_all f l d = NoFuel.
Proof.
  intros Hx Hf Hall. revert d. induction l as [|y l IH]; intros d; cbn [write_all].
  - by apply elem_of_nil in Hx.
  - apply elem_of_cons in Hx as [->|Hx]; [by rewrite Hf|].
    destruct (Hall y d) as [->|[d' ->]]; [done|]. rewrite outcome_bind_Ret. by apply IH.
Qed.

(** A policy for one user and group with a request whose services go up to 0xFFFF
    cannot be written: the loop over the services counts in 16 bits, so the counter wraps
    before it exceeds the upper bound, and [serialize] never returns, however many rounds
    it is given. *)
Theorem policy_serialize_wildcard_diverges p c x : single_credential p = Ret (Some c) →
  x ∈ rmap_segments (requests_ p) → is_u16 (lower x.1) → upper x.1 = 0xFFFF →
  ∀ fuel d, serialize fuel p d = NoFuel.
Proof.
  intros Hc Hx Hlo Hhi fuel d. unfold serialize, serialize_uid_gid. destruct c as [uid gid].
  rewrite Hc, !outcome_bind_Ret. unfold with_length. cbv zeta.
  rewrite (write_all_NoFuel _ x); [done|done| |].
  - intros d'. rewrite Hhi. by apply serialize_services_any.
  - intros y d'. apply serialize_services_defined.
Qed.
End wildcard.

(** ** Containers that satisfy the laws

    Lists of what was added, in this order; a map of the requests has one segment per
    service. *)
Definition list_icl : Icl := {|
  iset := list interval;
  iset_empty := [];
  iset_insert i s := s ++ [i];
  iset_intervals s := s;
  iset_size s := foldr (λ i n, upper i - lower i + 1 + n) 0 s;
  imap := list (interval * list interval);
  imap_empty := [];
  imap_add i s m := m ++ [(i, s)];
  imap_segments m := m;
  imap_size m := foldr (λ x n, upper x.1 - lower x.1 + 1 + n) 0 m;
  rmap := list (Z * list (interval * list interval));
  rmap_empty := [];
  rmap_add i v r := r ++ ((λ k, (k, v)) <$> seqZ (lower i) (upper i - lower i + 1));
  rmap_segments r := (λ x, (closed x.1 x.1, x.2)) <$> r
|}.

Lemma foldl_snoc {A B} (g : list B → A → list B) (f : A → B) l acc :
  (∀ acc x, g acc x = acc ++ [f x]) → foldl g acc l = acc ++ (f <$> l).
Proof.
  intros Hg. revert acc. induction l as [|x l IH]; intros acc; cbn [foldl]; [by rewrite app_nil_r|].
  by rewrite IH, Hg, <- app_assoc.
Qed.

Lemma list_services (r : @rmap list_icl) :
  mjoin (@services_of list_icl <$> @rmap_segments list_icl r) = r.
Proof.
  induction r as [|[k v] r IH]; [done|]. cbn [rmap_segments list_icl] in *.
  rewrite !fmap_cons, join_cons, IH. unfold services_of. cbn [fst snd closed lower upper].
  by replace (k - k + 1) with 1 by lia.
Qed.

#[local] Instance list_icl_laws : @IclLaws list_icl.
Proof.
  split.
  - done.
  - cbn. intros s _. rewrite (foldl_snoc _ id) by done. by rewrite list_fmap_id.
  - cbn. intros m _. rewrite (foldl_snoc _ id) by (by intros ? []). by rewrite list_fmap_id.
  - intros r _. rewrite (list_services r). cbn in r |- *.
    rewrite (foldl_snoc _ id); [by rewrite list_fmap_id|].
    intros acc [k v]. cbn. by replace (k - k + 1) with 1 by lia.
Qed.

(** User 1000 of group 100 may call methods 1 to 0x7FFF of instance 1 of the services
    [first] to [last]. *)
Definition sample_policy (first last : Z) : @policy list_icl :=
  @Policy list_icl [(closed 1000 1000, [closed 100 100])] true
    (@rmap_add list_icl (closed first last) [(closed 1 1, [closed 1 0x7FFF])] []) [] true.

Lemma policy_deserialize_safe_witness :
  ∃ ok p' r', @deserialize list_icl (λ _, (7, 3)) (@policy_new list_icl)
      (Reader [0;0;3;0xE8; 0;0;0;100; 0;0;0;40; 0x11;0x11; 0xFF;0xFF;0xFF;0xFF; 0;0;0;9]
        (Z.of_nat (length [0;0;3;0xE8; 0;0;0;100; 0;0;0;40; 0x11;0x11; 0xFF;0xFF;0xFF;0xFF; 0;0;0;9]))) =
    Ret ((ok, p'), r') ∧
    data r' `suffix_of` [0;0;3;0xE8; 0;0;0;100; 0;0;0;40; 0x11;0x11; 0xFF;0xFF;0xFF;0xFF; 0;0;0;9] ∧
    size r' = Z.of_nat (length (data r')).
Proof.
  exact (@policy_deserialize_safe list_icl (λ _, (7, 3)) (@policy_new list_icl)
    [0;0;3;0xE8; 0;0;0;100; 0;0;0;40; 0x11;0x11; 0xFF;0xFF;0xFF;0xFF; 0;0;0;9] ltac:(by vm_compute)).
Defined.

(** Reading the same bytes fails after the credentials were taken over. *)
Example policy_partial_read :
  (λ o, match o with Ret ((ok, p), r) => Some (ok, credentials_ p, data r) | _ => None end)
    (@deserialize list_icl (λ _, (7, 3)) (@policy_new list_icl)
      (Reader [0;0;3;0xE8; 0;0;0;100; 0;0;0;40; 0x11;0x11; 0xFF;0xFF;0xFF;0xFF; 0;0;0;9] 22)) =
  Some (false, [(closed 1000 1000, [closed 100 100])], []).
Proof. by vm_compute. Qed.

Lemma policy_roundtrip_witness :
  let p := sample_policy 0x1234 0x1235 in
  ∃ d, serialize (Z.to_nat 0x10000) p [] = Ret (Some d) ∧
    deserialize (λ _, (7, 3)) policy_new (Reader d (Z.of_nat (length d))) =
      Ret ((true, Policy (credentials_ p) true (requests_ p) imap_empty true), Reader [] 0).
Proof.
  refine (@policy_roundtrip list_icl list_icl_laws (λ _, (7, 3)) (Z.to_nat 0x10000)
    (sample_policy 0x1234 0x1235) 1000 100 [closed 100 100] eq_refl eq_refl eq_refl eq_refl _ _ _ _ _).
  1, 2: by vm_compute.
  - repeat constructor; cbn; lia || (unfold ANY_METHOD; lia).
  - lia.
  - by vm_compute.
Defined.

Lemma policy_serialize_wildcard_diverges_witness :
  serialize (Z.to_nat 0x20000) (sample_policy 0xFFFF 0xFFFF) [] = NoFuel.
Proof.
  apply (@policy_serialize_wildcard_diverges list_icl (sample_policy 0xFFFF 0xFFFF) (1000, 100)
    (closed 0xFFFF 0xFFFF, [(closed 1 1, [closed 1 0x7FFF])])); [by vm_compute| |by vm_compute|done].
  by left.
Defined.

(** The kind of the bounds is not looked at when an interval is written: the interval from
    1 to 2 that Boost.Icl keeps as half-open is written as the interval from 1 to 3. *)
Example half_open_interval_widened :
  get_bounds u16 (Interval 1 3 false true) = (1, 2) ∧
  serialize_interval (Interval 1 3 false true) [] = serialize_interval (closed 1 3) [].
Proof. by vm_compute. Qed.
