(* ===== verification/Security.v ===== *)
(** Security checks: [security/src/security_impl.cpp].

    The object that decides which user may offer, request and call what, from a list of
    policies.  A policy is shared between the list, its creator and others: policy objects
    are kept in a store and the list holds their keys.  The interval containers of
    Boost.Icl are used through the classes [Icl] of [Policy], for what changes them, and
    [IclFind], for look-ups; [IclFindLaws] states the documented meaning: a set is the set
    of its elements, adding to a map unites the values, and neutral elements are absorbed.
    Messages to the log are left out, and so are the mutexes: every method holds its own
    for as long as it touches what they protect. *)
From S2P Require Import Prelude ByteOrder Policy.

Definition ANY_UID : Z := 0xFFFFFFFF.
Definition ANY_GID : Z := 0xFFFFFFFF.

(** ** Look-ups in interval containers *)

#[export] Instance in_interval : ElemOf Z interval := λ x i,
  (if left_open i then lower i < x else lower i ≤ x) ∧
  (if right_open i then x < upper i else x ≤ upper i).
#[export] Instance in_interval_dec (x : Z) (i : interval) : Decision (x ∈ i).
Proof. unfold elem_of, in_interval. destruct (left_open i), (right_open i); apply _. Defined.

(** [find(x) != end()], the value that is found, [empty()]. *)
Class IclFind `{Icl} : Type := {
  iset_find : Z → iset → bool;
  imap_find : Z → imap → option iset;
  rmap_find : Z → rmap → option imap;
  rmap_is_empty : rmap → bool
}.

Section security.
  Context `{IclFind}.

(** A key with an element in its value. *)
Definition imap_has (k v : Z) (m : imap) : bool :=
  match imap_find k m with Some s => iset_find v s | None => false end.
Definition rmap_has (k i v : Z) (r : rmap) : bool :=
  match rmap_find k r with Some m => imap_has i v m | None => false end.

(** ** State *)

Record security : Type := Security {
  policies : gmap Z policy;
  any_client_policies_ : list Z;
  ids_ : gmap Z (Z * Z);
  uid_to_clients_ : gmap (Z * Z) (gset Z);
  policy_enabled_ : bool;
  check_credentials_ : bool;
  check_routing_credentials_ : bool;
  allow_remote_clients_ : bool;
  check_whitelist_ : bool;
  service_interface_whitelist_ : iset;
  uid_whitelist_ : iset;
  routing_credentials_ : Z * Z;
  is_configured_ : bool
}.

Definition security_new : security :=
  Security ∅ [] ∅ ∅ false false false true false iset_empty iset_empty (0, 0) false.

Definition set_policies (ps : gmap Z policy) (l : list Z) (s : security) : security :=
  Security ps l (ids_ s) (uid_to_clients_ s) (policy_enabled_ s) (check_credentials_ s)
    (check_routing_credentials_ s) (allow_remote_clients_ s) (check_whitelist_ s)
    (service_interface_whitelist_ s) (uid_whitelist_ s) (routing_credentials_ s) (is_configured_ s).
Definition set_mappings (ids : gmap Z (Z * Z)) (us : gmap (Z * Z) (gset Z)) (s : security) : security :=
  Security (policies s) (any_client_policies_ s) ids us (policy_enabled_ s) (check_credentials_ s)
    (check_routing_credentials_ s) (allow_remote_clients_ s) (check_whitelist_ s)
    (service_interface_whitelist_ s) (uid_whitelist_ s) (routing_credentials_ s) (is_configured_ s).

(** The object a pointer refers to. *)
Definition deref (s : security) (q : Z) : policy := default policy_new (policies s !! q).
Definition its_policies (s : security) : list policy := deref s <$> any_client_policies_ s.

Definition is_enabled (s : security) : bool := policy_enabled_ s.
Definition is_audit (s : security) : bool := check_credentials_ s.

(** ** Clients and users *)

Definition store_client_to_uid_gid_mapping (_client _uid _gid : Z) (s : security) : bool * security :=
  (true,
   match ids_ s !! _client with
   | Some x =>
       if bool_decide (x ≠ (_uid, _gid)) then
         set_mappings (<[_client := (_uid, _gid)]> (ids_ s)) (uid_to_clients_ s) s
       else s
   | None => set_mappings (<[_client := (_uid, _gid)]> (ids_ s)) (uid_to_clients_ s) s
   end).

Definition get_client_to_uid_gid_mapping (_client : Z) (s : security) : option (Z * Z) :=
  ids_ s !! _client.

Definition store_uid_gid_to_client_mapping (_uid _gid _client : Z) (s : security) : security :=
  let mapped_clients :=
    match uid_to_clients_ s !! (_uid, _gid) with
    | Some cs => {[_client]} ∪ cs
    | None => {[_client]}
    end in
  set_mappings (ids_ s) (<[(_uid, _gid) := mapped_clients]> (uid_to_clients_ s)) s.

Definition get_uid_gid_to_client_mapping (_uid_gid : Z * Z) (s : security) : option (gset Z) :=
  uid_to_clients_ s !! _uid_gid.

(** Take a client out of the clients of a user, who goes with the last one. *)
Definition erase_client (_client : Z) (k : Z * Z) (us : gmap (Z * Z) (gset Z)) : option (gmap (Z * Z) (gset Z)) :=
  match us !! k with
  | Some cs =>
      if bool_decide (_client ∈ cs) then
        let cs := cs ∖ {[_client]} in
        Some (if bool_decide (cs = ∅) then delete k us else <[k := cs]> us)
      else None
  | None => None
  end.

(** The keys of [uid_to_clients_] in the order of the map. *)
Definition pair_le (x y : Z * Z) : Prop := x.1 < y.1 ∨ (x.1 = y.1 ∧ x.2 ≤ y.2).
#[export] Instance pair_le_dec x y : Decision (pair_le x y).
Proof. unfold pair_le. apply _. Defined.
Definition users (us : gmap (Z * Z) (gset Z)) : list (Z * Z) :=
  merge_sort pair_le (elements (dom us)).

Fixpoint erase_first (_client : Z) (ks : list (Z * Z)) (us : gmap (Z * Z) (gset Z)) :
    option (gmap (Z * Z) (gset Z)) :=
  match ks with
  | [] => None
  | k :: ks =>
      match erase_client _client k us with
      | Some us => Some us
      | None => erase_first _client ks us
      end
  end.

Definition remove_client_to_uid_gid_mapping (_client : Z) (s : security) : bool * security :=
  match ids_ s !! _client with
  | Some its_uid_gid =>
      let ids := delete _client (ids_ s) in
      match erase_client _client its_uid_gid (uid_to_clients_ s) with
      | Some us => (true, set_mappings ids us s)
      | None => (false, set_mappings ids (uid_to_clients_ s) s)
      end
  | None =>
      match erase_first _client (users (uid_to_clients_ s)) (uid_to_clients_ s) with
      | Some us => (false, set_mappings (ids_ s) us s)
      | None => (false, s)
      end
  end.

Definition get_clients (_uid _gid : Z) (s : security) : gset Z :=
  dom (filter (λ x : Z * (Z * Z), x.2 = (_uid, _gid)) (ids_ s)).

(** ** Decisions *)

(** [has_uid] and [has_gid] of the loops over the policies. *)
Definition has_id (_uid _gid : Z) (p : policy) : bool := imap_has _uid _gid (credentials_ p).

(** The policy is about the user. *)
Definition is_who (_uid _gid : Z) (p : policy) : bool :=
  (has_id _uid _gid p && allow_who_ p) || (negb (has_id _uid _gid p) && negb (allow_who_ p)).

Fixpoint check_policies (ps : list policy) (_client _uid _gid : Z) (s : security) : bool * security :=
  match ps with
  | [] => (negb (check_credentials_ s), s)
  | p :: ps =>
      if is_who _uid _gid p then
        let '(ok, s) := store_client_to_uid_gid_mapping _client _uid _gid s in
        if negb ok then (negb (check_credentials_ s), s)
        else (true, store_uid_gid_to_client_mapping _uid _gid _client s)
      else check_policies ps _client _uid _gid s
  end.

Definition check_credentials (_client _uid _gid : Z) (s : security) : bool * security :=
  if negb (policy_enabled_ s) then (true, s)
  else check_policies (its_policies s) _client _uid _gid s.

(** [is_matching] of [is_client_allowed]. *)
Definition is_matching (_service _instance _method : Z) (_is_request_service : bool) (p : policy) : bool :=
  match rmap_find _service (requests_ p) with
  | Some found_service =>
      match imap_find _instance found_service with
      | Some found_instance =>
          if negb _is_request_service then iset_find _method found_instance else true
      | None => false
      end
  | None => false
  end.

Fixpoint client_allowed_by (ps : list policy) (_uid _gid _service _instance _method : Z)
    (_is_request_service : bool) : bool :=
  match ps with
  | [] => false
  | p :: ps =>
      let matching := is_matching _service _instance _method _is_request_service p in
      if is_who _uid _gid p &&
         (if allow_what_ p then matching
          else (negb matching && bool_decide (_method ≠ ANY_METHOD)) ||
               (negb matching && bool_decide (_method = ANY_METHOD) && rmap_is_empty (requests_ p)))
      then true
      else client_allowed_by ps _uid _gid _service _instance _method _is_request_service
  end.

Definition is_client_allowed (_uid _gid _service _instance _method : Z) (_is_request_service : bool)
    (s : security) : bool :=
  if negb (policy_enabled_ s) then true
  else if bool_decide (_uid ≠ ANY_UID) && bool_decide (_gid ≠ ANY_GID) then
    if client_allowed_by (its_policies s) _uid _gid _service _instance _method _is_request_service
    then true else negb (check_credentials_ s)
  else negb (check_credentials_ s).

Fixpoint offer_allowed_by (ps : list policy) (_uid _gid _service _instance : Z) : bool :=
  match ps with
  | [] => false
  | p :: ps =>
      let has_offer := imap_has _service _instance (offers_ p) in
      if is_who _uid _gid p && bool_decide (allow_what_ p = has_offer) then true
      else offer_allowed_by ps _uid _gid _service _instance
  end.

Definition is_offer_allowed (_uid _gid _service _instance : Z) (s : security) : bool :=
  if negb (policy_enabled_ s) then true
  else if bool_decide (_uid ≠ ANY_UID) && bool_decide (_gid ≠ ANY_GID) then
    if offer_allowed_by (its_policies s) _uid _gid _service _instance
    then true else negb (check_credentials_ s)
  else negb (check_credentials_ s).

Definition is_remote_client_allowed (s : security) : bool :=
  if negb (check_credentials_ s) then true else allow_remote_clients_ s.

Definition check_routing_credentials (_uid _gid : Z) (s : security) : bool :=
  if bool_decide ((routing_credentials_ s).1 = _uid) && bool_decide ((routing_credentials_ s).2 = _gid)
  then true else negb (check_routing_credentials_ s).

(** ** Changing the policies *)

(** Only policies that allow the user are removed. *)
Definition is_removed (_uid _gid : Z) (p : policy) : bool := has_id _uid _gid p && allow_who_ p.

Definition remove_security_policy (_uid _gid : Z) (s : security) : bool * security :=
  let removed q := is_removed _uid _gid (deref s q) in
  (existsb removed (any_client_policies_ s),
   set_policies (policies s) (filter (λ q, removed q = false) (any_client_policies_ s)) s).

(** The policy whose credentials are just this user, and that treats them like [who]. *)
Definition is_single (_uid _gid : Z) (who : bool) (p : policy) : outcome bool :=
  if bool_decide (imap_size (credentials_ p) = 1) then
    its_uids ← first_of (imap_segments (credentials_ p));
    if bool_decide (lower its_uids.1 = _uid) && bool_decide (upper its_uids.1 = _uid)
       && bool_decide (iset_size its_uids.2 = 1) then
      its_gids ← first_of (iset_intervals its_uids.2);
      Ret (bool_decide (lower its_gids = _gid) && bool_decide (upper its_gids = _gid)
           && bool_decide (allow_who_ p = who))
    else Ret false
  else Ret false.

Fixpoint find_single (_uid _gid : Z) (who : bool) (s : security) (l : list Z) : outcome (option Z) :=
  match l with
  | [] => Ret None
  | q :: l =>
      b ← is_single _uid _gid who (deref s q);
      if (b : bool) then Ret (Some q) else find_single _uid _gid who s l
  end.

(** [for (auto s = lower; s <= upper; s++)], with a 16-bit counter. *)
Fixpoint each_service {A} (fuel : nat) (f : Z → A → A) (s its_upper : Z) (acc : A) : outcome A :=
  match fuel with
  | O => NoFuel
  | S fuel =>
      if bool_decide (s ≤ its_upper) then each_service fuel f (u16 (s + 1)) its_upper (f s acc)
      else Ret acc
  end.

Fixpoint merge_segments {V A} (fuel : nat) (add : interval → V → A → A) (l : list (interval * V)) (acc : A) :
    outcome A :=
  match l with
  | [] => Ret acc
  | (i, v) :: l =>
      let '(its_lower, its_upper) := get_bounds u16 i in
      acc ← each_service fuel (λ s, add (closed s s) v) its_lower its_upper acc;
      merge_segments fuel add l acc
  end.

(** The policy [_policy] is added, or its requests and offers are added to the policy of
    the same user.  If that is the same object, its containers change while they are
    iterated. *)
Definition update_security_policy (fuel : nat) (_uid _gid _policy : Z) (s : security) : outcome security :=
  let p := deref s _policy in
  m ← find_single _uid _gid (allow_who_ p) s (any_client_policies_ s);
  match m with
  | Some q =>
      if bool_decide (q = _policy) then Undef
      else
        let t := deref s q in
        rs ← merge_segments fuel rmap_add (rmap_segments (requests_ p)) (requests_ t);
        os ← merge_segments fuel imap_add (imap_segments (offers_ p)) (offers_ t);
        Ret (set_policies
          (<[q := Policy (credentials_ t) (allow_who_ t) rs os (allow_what_ t)]> (policies s))
          (any_client_policies_ s) s)
  | None => Ret (set_policies (policies s) (any_client_policies_ s ++ [_policy]) s)
  end.

Definition add_security_credentials (_uid _gid _policy : Z) (s : security) : security :=
  if existsb (is_removed _uid _gid) (its_policies s) then s
  else set_policies (policies s) (any_client_policies_ s ++ [_policy]) s.

(** ** Updates at run time *)

(** The inner loop of [is_policy_update_allowed]: [has_service] at its end. *)
Fixpoint all_whitelisted (fuel : nat) (its_service its_upper : Z) (has_service : bool) (w : iset) : outcome bool :=
  match fuel with
  | O => NoFuel
  | S fuel =>
      if bool_decide (its_service ≤ its_upper) then
        if iset_find its_service w then all_whitelisted fuel (u16 (its_service + 1)) its_upper true w
        else Ret false
      else Ret has_service
  end.

Fixpoint requests_whitelisted (fuel : nat) (l : list (interval * imap)) (w : iset) : outcome bool :=
  match l with
  | [] => Ret true
  | (i, _) :: l =>
      ok ← all_whitelisted fuel (lower i) (upper i) false w;
      if (ok : bool) then requests_whitelisted fuel l w else Ret false
  end.

Definition is_policy_update_allowed (fuel : nat) (_uid : Z) (p : policy) (s : security) : outcome bool :=
  if iset_find _uid (uid_whitelist_ s) then
    ok ← requests_whitelisted fuel (rmap_segments (requests_ p)) (service_interface_whitelist_ s);
    Ret (if (ok : bool) then true else negb (check_whitelist_ s))
  else Ret (negb (check_whitelist_ s)).

Definition is_policy_removal_allowed (_uid : Z) (s : security) : bool :=
  if existsb (λ i, bool_decide (lower i ≤ _uid) && bool_decide (_uid ≤ upper i))
       (iset_intervals (uid_whitelist_ s))
  then true else negb (check_whitelist_ s).

Definition parse_policy (uninit : Z → Z * Z) (p : policy) :
    ST reader (option (Z * Z) * policy) :=
  '(ok, p) ← deserialize uninit p;
  if (ok : bool) then c ← st_lift (get_uid_gid p); mret (c, p) else mret (None, p).

(** ** Requesters of the services a policy offers *)

(** The body of the loop over the requests [r] of a policy, for an offer [o]. *)
Definition overlap (l1 u1 l2 u2 : Z) : bool := bool_decide (l1 ≤ u2) && bool_decide (l2 ≤ u1).

Definition requester_requests (o : interval * iset) (r : interval * imap) (acc : rmap) : rmap :=
  let '(its_o_lower, its_o_upper) := get_bounds u16 o.1 in
  let '(its_r_lower, its_r_upper) := get_bounds u16 r.1 in
  if overlap its_o_lower its_o_upper its_r_lower its_r_upper then
    let its_service_min := Z.max its_o_lower its_r_lower in
    let its_service_max := Z.min its_r_upper its_o_upper in
    foldl (λ acc i, foldl (λ acc j, foldl (λ acc k,
      let '(its_i_lower, its_i_upper) := get_bounds u16 i in
      let '(its_k_lower, its_k_upper) := get_bounds u16 k in
      if overlap its_i_lower its_i_upper its_k_lower its_k_upper then
        rmap_add (closed its_service_min its_service_max)
          (imap_add (closed (Z.max its_i_lower its_k_lower) (Z.min its_i_upper its_k_upper)) j.2 imap_empty)
          acc
      else acc)
      acc (iset_intervals j.2)) acc (imap_segments r.2)) acc (iset_intervals o.2)
  else acc.

(** The loop over all requests of a policy. *)
Definition all_requester_requests (o : interval * iset) (p : policy) : rmap :=
  foldl (λ acc r, requester_requests o r acc) rmap_empty (rmap_segments (requests_ p)).

(** The policies that are created, in this order. *)
Definition get_requester_policies (_policy : Z) (s : security) : list policy :=
  o ← imap_segments (offers_ (deref s _policy));
  q ← any_client_policies_ s;
  if bool_decide (q = _policy) then []
  else
    let p := deref s q in
    let rs := all_requester_requests o p in
    if rmap_is_empty rs then [] else [Policy (credentials_ p) false rs imap_empty false].
End security.

(** ** The meaning of the containers

    A set has the elements of its intervals.  A map relates the elements of its segments
    to those of their values; adding a segment adds these pairs.  No key has an empty
    value and no segment is empty: neutral elements are absorbed.  A container that covers
    one element has one segment.  The bounds of the segments are of the type of the
    keys. *)
Definition typed16 (i : interval) : Prop := is_u16 (lower i) ∧ is_u16 (upper i).

Class IclFindLaws `{IclFind} : Prop := {
  iset_find_empty x : iset_find x iset_empty = false;
  iset_find_insert x i s : iset_find x (iset_insert i s) = bool_decide (x ∈ i) || iset_find x s;
  iset_find_intervals x s : iset_find x s = true ↔ ∃ i, i ∈ iset_intervals s ∧ x ∈ i;
  iset_interval_inhabited i s : i ∈ iset_intervals s → ∃ x, x ∈ i;
  iset_size_one s : iset_size s = 1 → ∃ i, iset_intervals s = [i];
  imap_has_empty k v : imap_has k v imap_empty = false;
  imap_has_add k v i s m :
    imap_has k v (imap_add i s m) = (bool_decide (k ∈ i) && iset_find v s) || imap_has k v m;
  imap_has_segments k v m :
    imap_has k v m = true ↔ ∃ i s, (i, s) ∈ imap_segments m ∧ k ∈ i ∧ iset_find v s = true;
  imap_find_inhabited k m s : imap_find k m = Some s → ∃ v, iset_find v s = true;
  imap_segment_inhabited i s m : (i, s) ∈ imap_segments m → ∃ k v, k ∈ i ∧ iset_find v s = true;
  imap_size_one m : imap_size m = 1 → ∃ x, imap_segments m = [x];
  imap_typed i s m : typed16 i → Forall (λ x, typed16 x.1) (imap_segments m) →
    Forall (λ x, typed16 x.1) (imap_segments (imap_add i s m));
  imap_no_segments : imap_segments imap_empty = [];
  rmap_has_empty k i v : rmap_has k i v rmap_empty = false;
  rmap_has_add k i v j m r :
    rmap_has k i v (rmap_add j m r) = (bool_decide (k ∈ j) && imap_has i v m) || rmap_has k i v r;
  rmap_has_segments k i v r :
    rmap_has k i v r = true ↔ ∃ j m, (j, m) ∈ rmap_segments r ∧ k ∈ j ∧ imap_has i v m = true;
  rmap_segment_inhabited j m r :
    (j, m) ∈ rmap_segments r → ∃ k i v, k ∈ j ∧ imap_has i v m = true;
  rmap_is_empty_spec r : rmap_is_empty r = true ↔ ∀ k i v, rmap_has k i v r = false;
  rmap_typed j m r : typed16 j → Forall (λ x, typed16 x.1) (rmap_segments r) →
    Forall (λ x, typed16 x.1) (rmap_segments (rmap_add j m r));
  rmap_no_segments : rmap_segments rmap_empty = []
}.

Section decisions.
  Context `{IclFindLaws}.

(** ** The decisions as statements about the policies *)

Definition applies (_uid _gid : Z) (p : policy) : Prop := has_id _uid _gid p = allow_who_ p.

(** A method of a service instance is among the requests; if just the service is
    requested, some method is. *)
Definition requested (svc inst m : Z) (just_service : bool) (r : rmap) : Prop :=
  ∃ v, (just_service = true ∨ v = m) ∧ rmap_has svc inst v r = true.

Definition grants (svc inst m : Z) (just_service : bool) (p : policy) : Prop :=
  if allow_what_ p then requested svc inst m just_service (requests_ p)
  else ¬ requested svc inst m just_service (requests_ p) ∧
       (m = ANY_METHOD → ∀ k i v, rmap_has k i v (requests_ p) = false).

Lemma is_who_applies u g p : is_who u g p = true ↔ applies u g p.
Proof. unfold is_who, applies. by destruct (has_id u g p), (allow_who_ p). Qed.

Lemma is_matching_requested svc inst m js p :
  is_matching svc inst m js p = true ↔ requested svc inst m js (requests_ p).
Proof.
  unfold is_matching, requested, rmap_has, imap_has. destruct (rmap_find svc _) as [x|]; [|naive_solver].
  destruct (imap_find inst x) as [s|] eqn:E; [|naive_solver].
  destruct js; cbn [negb]; [|naive_solver].
  split; [|done]. intros _. destruct (imap_find_inhabited _ _ _ E) as [v Hv]. exists v. auto.
Qed.

Lemma grants_spec svc inst m js p :
  (if allow_what_ p then is_matching svc inst m js p
   else (negb (is_matching svc inst m js p) && bool_decide (m ≠ ANY_METHOD)) ||
        (negb (is_matching svc inst m js p) && bool_decide (m = ANY_METHOD) && rmap_is_empty (requests_ p)))
    = true ↔ grants svc inst m js p.
Proof.
  unfold grants. destruct (allow_what_ p); [apply is_matching_requested|].
  rewrite <- is_matching_requested, <- rmap_is_empty_spec.
  destruct (is_matching svc inst m js p), (rmap_is_empty (requests_ p)), (decide (m = ANY_METHOD));
    rewrite ?bool_decide_true, ?bool_decide_false by tauto; cbn; naive_solver.
Qed.

(** A loop over policies that returns [true] at the first one with a property. *)
Lemma policy_loop_cons {A} (P : A → Prop) (b : bool) p ps (rest : bool) :
  (b = true ↔ P p) → (rest = true ↔ ∃ p, p ∈ ps ∧ P p) →
  (if b then true else rest) = true ↔ ∃ p', p' ∈ p :: ps ∧ P p'.
Proof.
  intros Hb Hr. setoid_rewrite elem_of_cons. destruct b; [|rewrite Hr]; split.
  - intros _. exists p. split; [by left|by apply Hb].
  - done.
  - intros (p'&?&?). exists p'. auto.
  - intros (p'&[->|?]&HP); [by apply Hb in HP|by exists p'].
Qed.

Lemma client_allowed_by_spec ps u g svc inst m js :
  client_allowed_by ps u g svc inst m js = true ↔
  ∃ p, p ∈ ps ∧ (applies u g p ∧ grants svc inst m js p).
Proof.
  induction ps as [|p ps IH]; cbn [client_allowed_by]; [set_solver|].
  apply (policy_loop_cons (λ p, applies u g p ∧ grants svc inst m js p)); [|done].
  by rewrite andb_true_iff, is_who_applies, grants_spec.
Qed.

Lemma offer_allowed_by_spec ps u g svc inst :
  offer_allowed_by ps u g svc inst = true ↔
  ∃ p, p ∈ ps ∧ (applies u g p ∧ allow_what_ p = imap_has svc inst (offers_ p)).
Proof.
  induction ps as [|p ps IH]; cbn [offer_allowed_by]; [set_solver|].
  apply (policy_loop_cons (λ p, applies u g p ∧ allow_what_ p = imap_has svc inst (offers_ p))); [|done].
  by rewrite andb_true_iff, is_who_applies, bool_decide_eq_true.
Qed.

(** Whether decisions are enforced for a user: otherwise everything is allowed, or
    nothing. *)
Definition known (u g : Z) : Prop := u ≠ ANY_UID ∧ g ≠ ANY_GID.
Definition lenient (s : security) : Prop := policy_enabled_ s = false ∨ check_credentials_ s = false.

Lemma decision_spec (s : security) u g (b : bool) (P : Prop) : (b = true ↔ P) →
  (if negb (policy_enabled_ s) then true
   else if bool_decide (u ≠ ANY_UID) && bool_decide (g ≠ ANY_GID) then
     if b then true else negb (check_credentials_ s)
   else negb (check_credentials_ s)) = true ↔ lenient s ∨ (known u g ∧ P).
Proof.
  intros Hb. unfold lenient, known. destruct (policy_enabled_ s); cbn [negb]; [|naive_solver].
  destruct (decide (u = ANY_UID)), (decide (g = ANY_GID));
    rewrite ?bool_decide_true, ?bool_decide_false by tauto; cbn [andb];
    destruct (check_credentials_ s), b; naive_solver.
Qed.

Lemma is_client_allowed_spec s u g svc inst m js :
  is_client_allowed u g svc inst m js s = true ↔
  lenient s ∨ (known u g ∧ ∃ p, p ∈ its_policies s ∧ (applies u g p ∧ grants svc inst m js p)).
Proof. apply decision_spec, client_allowed_by_spec. Qed.

Lemma is_offer_allowed_spec s u g svc inst :
  is_offer_allowed u g svc inst s = true ↔
  lenient s ∨ (known u g ∧ ∃ p, p ∈ its_policies s ∧
    (applies u g p ∧ allow_what_ p = imap_has svc inst (offers_ p))).
Proof. apply decision_spec, offer_allowed_by_spec. Qed.

(** ** Policies for a single user *)

Definition just_user (_uid _gid : Z) (p : policy) : Prop :=
  ∀ u g, has_id u g p = true ↔ u = _uid ∧ g = _gid.

(** An interval with equal bounds that has an element is that element. *)
Lemma point_interval (i : interval) x k : (∃ y : Z, y ∈ i) → lower i = x → upper i = x → k ∈ i ↔ k = x.
Proof.
  unfold elem_of, in_interval. intros [y Hy] <- E. rewrite <- E in Hy.
  destruct (left_open i), (right_open i); lia.
Qed.

Lemma segment_point m i s x : imap_segments m = [(i, s)] → lower i = x → upper i = x →
  ∀ k v, imap_has k v m = true ↔ k = x ∧ iset_find v s = true.
Proof.
  intros E Hl Hu k v. rewrite imap_has_segments, E.
  assert (∃ y : Z, y ∈ i) as Hi.
  { destruct (imap_segment_inhabited i s m) as (y&_&?&_); [rewrite E; by left|by exists y]. }
  setoid_rewrite list_elem_of_singleton. split.
  - intros (?&?&[= -> ->]&Hk&?). by rewrite point_interval in Hk.
  - intros [Hk ?]. exists i, s. by rewrite point_interval.
Qed.

Lemma set_point s i x v : iset_intervals s = [i] → lower i = x → upper i = x →
  iset_find v s = true ↔ v = x.
Proof.
  intros E Hl Hu. rewrite iset_find_intervals, E. setoid_rewrite list_elem_of_singleton.
  assert (∃ y : Z, y ∈ i) as Hi by (apply (iset_interval_inhabited i s); rewrite E; by left).
  split; [intros (?&->&Hv); by apply (point_interval i)|].
  intros Hv. exists i. split; [done|]. by rewrite (point_interval i x).
Qed.

Lemma is_single_spec u g who p : ∃ b, is_single u g who p = Ret b ∧
  (b = true → just_user u g p ∧ allow_who_ p = who).
Proof.
  unfold is_single. case_bool_decide as Hs; [|by exists false].
  destruct (imap_size_one _ Hs) as [[i s] E]. rewrite E. cbn [first_of]. rewrite outcome_bind_Ret. cbn [fst snd].
  destruct (bool_decide (lower i = u) && _ && _) eqn:Hi; [|by exists false].
  rewrite !andb_true_iff, !bool_decide_eq_true in Hi. destruct Hi as [[Hl Hu] Hz].
  destruct (iset_size_one _ Hz) as [j Ej]. rewrite Ej. cbn [first_of]. rewrite outcome_bind_Ret.
  eexists. split; [done|]. rewrite !andb_true_iff, !bool_decide_eq_true. intros [[Hl' Hu'] Hw].
  split; [|done]. intros k v. unfold has_id. rewrite (segment_point _ _ _ _ E Hl Hu).
  by rewrite (set_point _ _ _ _ Ej Hl' Hu').
Qed.

Lemma single_credential_user p u g : single_credential p = Ret (Some (u, g)) → just_user u g p.
Proof.
  unfold single_credential. case_bool_decide as Hs; [done|].
  destruct (imap_size_one _ Hs) as [[i s] E]. rewrite E. cbn [first_of]. rewrite outcome_bind_Ret. cbn [fst snd].
  case_bool_decide as Hz; [done|].
  destruct (iset_size_one _ Hz) as [j Ej]. rewrite Ej. cbn [first_of]. rewrite outcome_bind_Ret.
  case_bool_decide as Hi; [done|].
  case_bool_decide as Hj; [done|]. intros [= <- <-].
  intros k v. unfold has_id. rewrite (segment_point _ _ _ _ E eq_refl (eq_sym Hi)).
  by rewrite (set_point _ _ _ _ Ej eq_refl (eq_sym Hj)).
Qed.

Lemma just_user_applies u g p u' g' : just_user u g p → allow_who_ p = true →
  applies u' g' p ↔ u' = u ∧ g' = g.
Proof. intros Hp Hw. unfold applies. rewrite Hw. apply Hp. Qed.

Lemma find_single_spec u g who s l : ∃ m, find_single u g who s l = Ret m ∧
  match m with
  | Some q => q ∈ l ∧ is_single u g who (deref s q) = Ret true
  | None => True
  end.
Proof.
  induction l as [|q l IH]; cbn [find_single]; [by exists None|].
  destruct (is_single_spec u g who (deref s q)) as (b&E&_). rewrite E, outcome_bind_Ret.
  destruct b; [exists (Some q); split; [done|]; split; [by left|done]|].
  destruct IH as (m&Em&Hm). exists m. split; [done|]. destruct m; [|done]. destruct Hm. split; [by right|done].
Qed.

(** ** Merging the contents of policies *)

(** The elements of a segment, in the order of the loop. *)
Definition elems (i : interval) : list Z :=
  let '(l, u) := get_bounds u16 i in seqZ l (u - l + 1).
Definition merged {V A} (add : interval → V → A → A) (l : list (interval * V)) (acc : A) : A :=
  foldl (λ acc x, foldl (λ acc s, add (closed s s) x.2 acc) acc (elems x.1)) acc l.

Definition good_segment (i : interval) : Prop :=
  typed16 i ∧ (∃ y : Z, y ∈ i) ∧ (∀ y : Z, y ∈ i → y < 0xFFFF).

Lemma get_bounds_typed i l u : typed16 i → (∃ y : Z, y ∈ i) → get_bounds u16 i = (l, u) →
  is_u16 l ∧ is_u16 u ∧ ∀ k : Z, k ∈ i ↔ l ≤ k ≤ u.
Proof.
  unfold typed16, get_bounds, elem_of, in_interval. intros (Hl&Hu) [y Hy] [= <- <-].
  assert (∀ z, 0 ≤ z < 2 ^ 16 → u16 z = z) as Hid by (intros; by apply u16_id).
  unfold is_u16 in *.
  destruct (left_open i), (right_open i); rewrite ?Hid by lia; (split_and!; [lia..|intros; lia]).
Qed.

Lemma get_bounds_elems i l u : good_segment i → get_bounds u16 i = (l, u) →
  0 ≤ l ∧ u < 0xFFFF ∧ ∀ k : Z, k ∈ i ↔ l ≤ k ≤ u.
Proof.
  intros (Ht&[y Hy]&Hmax) E. destruct (get_bounds_typed _ _ _ Ht ltac:(by exists y) E) as ([? _]&_&Hk).
  split; [done|]. split; [|done]. apply Hmax, Hk. apply Hk in Hy. lia.
Qed.

Lemma elem_of_elems i (k : Z) : good_segment i → k ∈ elems i ↔ k ∈ i.
Proof.
  intros Hi. unfold elems. destruct (get_bounds u16 i) as [l u] eqn:E.
  destruct (get_bounds_elems _ _ _ Hi E) as (_&_&Hk). rewrite Hk, elem_of_seqZ. lia.
Qed.

Lemma each_service_all {A} fuel (f : Z → A → A) l u acc : 0 ≤ l → u < 0xFFFF → u - l + 1 < Z.of_nat fuel →
  (0 < fuel)%nat → each_service fuel f l u acc = Ret (foldl (λ acc s, f s acc) acc (seqZ l (u - l + 1))).
Proof.
  revert l acc. induction fuel as [|fuel IH]; intros l acc Hl Hu Hf Hf0; [lia|].
  cbn [each_service]. case_bool_decide.
  - rewrite u16_id by (unfold is_u16; lia). rewrite IH by lia.
    rewrite (seqZ_cons l) by lia. cbn [foldl]. do 2 f_equal. f_equal; lia.
  - by replace (seqZ l (u - l + 1)) with (@nil Z) by (rewrite seqZ_nil; [done|lia]).
Qed.

Lemma merge_segments_merged {V A} fuel (add : interval → V → A → A) l acc :
  Forall (λ x, good_segment x.1) l → (Z.to_nat 0x10000 ≤ fuel)%nat →
  merge_segments fuel add l acc = Ret (merged add l acc).
Proof.
  intros Hl Hf. revert acc. induction Hl as [|[i v] l Hi Hl IH]; intros acc; [done|].
  cbn [merge_segments]. destruct (get_bounds u16 i) as [lo up] eqn:E.
  destruct (get_bounds_elems _ _ _ Hi E) as (?&?&_).
  rewrite each_service_all by lia. rewrite outcome_bind_Ret, IH.
  unfold merged at 2. cbn [foldl fst snd]. unfold elems at 2. by rewrite E.
Qed.

(** What adding single elements does to a look-up of the key [k]. *)
Lemma merged_has {V A} (add : interval → V → A → A) (has : A → bool) (hasv : V → bool) (k : Z) l acc :
  (∀ j v acc, has (add j v acc) = (bool_decide (k ∈ j) && hasv v) || has acc) →
  Forall (λ x, good_segment x.1) l →
  has (merged add l acc) = true ↔ has acc = true ∨ ∃ i v, (i, v) ∈ l ∧ k ∈ i ∧ hasv v = true.
Proof.
  intros Hadd Hl. revert acc. induction Hl as [|[i v] l Hi Hl IH]; intros acc.
  { cbn. set_solver. }
  unfold merged in *. cbn [foldl fst snd]. rewrite IH.
  assert (∀ ks acc, has (foldl (λ acc s, add (closed s s) v acc) acc ks) = true ↔
    has acc = true ∨ (k ∈ ks ∧ hasv v = true)) as Hks.
  { clear -Hadd. intros ks. induction ks as [|s ks IHk]; intros acc; cbn [foldl]; [set_solver|].
    rewrite IHk, Hadd, orb_true_iff, andb_true_iff, bool_decide_eq_true, elem_of_cons.
    assert (k ∈ closed s s ↔ k = s) as -> by (unfold elem_of, in_interval, closed; cbn; lia). tauto. }
  rewrite Hks, elem_of_elems by done. setoid_rewrite elem_of_cons. split.
  - intros [[?|[? ?]]|(i'&v'&?&?&?)]; [by left|right..]; eauto 10.
  - intros [?|(i'&v'&[[= -> ->]|?]&?&?)]; [by left; left|by left; right|right; eauto 10].
Qed.

(** The services of a policy are below 0xFFFF. *)
Definition updatable (p : policy) : Prop :=
  Forall (λ x, typed16 x.1) (rmap_segments (requests_ p)) ∧
  Forall (λ x, typed16 x.1) (imap_segments (offers_ p)) ∧
  (∀ k i v, rmap_has k i v (requests_ p) = true → k < 0xFFFF) ∧
  (∀ k v, imap_has k v (offers_ p) = true → k < 0xFFFF).

Lemma updatable_segments p : updatable p →
  Forall (λ x, good_segment x.1) (rmap_segments (requests_ p)) ∧
  Forall (λ x, good_segment x.1) (imap_segments (offers_ p)).
Proof.
  intros (Hr&Ho&Hrm&Hom). split; apply Forall_forall; intros [i v] Hx.
  - destruct (rmap_segment_inhabited _ _ _ Hx) as (k&j&w&Hk&Hv).
    split; [by apply (proj1 (Forall_forall _ _) Hr _ Hx)|]. split; [by exists k|].
    intros y Hy. apply (Hrm y j w), rmap_has_segments. eauto.
  - destruct (imap_segment_inhabited _ _ _ Hx) as (k&w&Hk&Hv).
    split; [by apply (proj1 (Forall_forall _ _) Ho _ Hx)|]. split; [by exists k|].
    intros y Hy. apply (Hom y w), imap_has_segments. eauto.
Qed.

(** The requests and offers of [p] added to those of [t]. *)
Definition merge_policy (p t : policy) : policy :=
  Policy (credentials_ t) (allow_who_ t) (merged rmap_add (rmap_segments (requests_ p)) (requests_ t))
    (merged imap_add (imap_segments (offers_ p)) (offers_ t)) (allow_what_ t).

Lemma merge_policy_requests p t k i v : updatable p →
  rmap_has k i v (requests_ (merge_policy p t)) = true ↔
  rmap_has k i v (requests_ t) = true ∨ rmap_has k i v (requests_ p) = true.
Proof.
  intros Hp. destruct (updatable_segments _ Hp) as [Hr _]. cbn [merge_policy requests_].
  rewrite (merged_has rmap_add (rmap_has k i v) (imap_has i v) k) by (done || (intros; apply rmap_has_add)).
  by rewrite (rmap_has_segments k i v (requests_ p)).
Qed.

Lemma merge_policy_offers p t k v : updatable p →
  imap_has k v (offers_ (merge_policy p t)) = true ↔
  imap_has k v (offers_ t) = true ∨ imap_has k v (offers_ p) = true.
Proof.
  intros Hp. destruct (updatable_segments _ Hp) as [_ Ho]. cbn [merge_policy offers_].
  rewrite (merged_has imap_add (imap_has k v) (iset_find v) k) by (done || (intros; apply imap_has_add)).
  by rewrite (imap_has_segments k v (offers_ p)).
Qed.

(** ** Updates *)

(** A policy that may be given to [update_security_policy] for a user: it lists just this
    user, allows, and is not in use yet. *)
Definition update_for (_uid _gid q : Z) (s : security) : Prop :=
  just_user _uid _gid (deref s q) ∧ allow_who_ (deref s q) = true ∧ allow_what_ (deref s q) = true ∧
  updatable (deref s q) ∧ q ∉ any_client_policies_ s.

(** The policies of just this user, if any, list what is allowed. *)
Definition no_denials (_uid _gid : Z) (s : security) : Prop :=
  ∀ t, t ∈ its_policies s → just_user _uid _gid t → allow_who_ t = true → allow_what_ t = true.

Lemma its_policies_insert s q t : q ∈ any_client_policies_ s →
  its_policies (set_policies (<[q := t]> (policies s)) (any_client_policies_ s) s) =
  (λ x, if decide (x = q) then t else deref s x) <$> any_client_policies_ s.
Proof.
  intros _. unfold its_policies. apply list_fmap_ext. intros _ x _. unfold deref. cbn [policies set_policies].
  destruct (decide (x = q)) as [->|]; [by rewrite lookup_insert_eq|by rewrite lookup_insert_ne].
Qed.

(** What an update does to the existence of a policy with a property. *)
Lemma update_effect fuel _uid _gid q s : update_for _uid _gid q s → no_denials _uid _gid s →
  (Z.to_nat 0x10000 ≤ fuel)%nat →
  ∃ s', update_security_policy fuel _uid _gid q s = Ret s' ∧ (lenient s' ↔ lenient s) ∧
    ∀ (W : policy → Prop) (N : Prop), (W (deref s q) ↔ N) →
      (∀ t, just_user _uid _gid t → allow_who_ t = true → allow_what_ t = true →
        W (merge_policy (deref s q) t) ↔ W t ∨ N) →
      (∃ x, x ∈ its_policies s' ∧ W x) ↔ (∃ x, x ∈ its_policies s ∧ W x) ∨ N.
Proof.
  intros (Hj&Hwho&Hwhat&Hup&Hq) Hd Hf. unfold update_security_policy. rewrite Hwho.
  destruct (find_single_spec _uid _gid true s (any_client_policies_ s)) as (m&->&Hm).
  rewrite outcome_bind_Ret. destruct m as [q'|].
  - destruct Hm as [Hin Hs]. rewrite bool_decide_false by (by intros ->).
    destruct (is_single_spec _uid _gid true (deref s q')) as (b&Eb&Hb). rewrite Eb in Hs. injection Hs as ->.
    destruct (Hb eq_refl) as [Hj' Hwho']. destruct (updatable_segments _ Hup) as [Hr Ho].
    rewrite !merge_segments_merged by done. rewrite !outcome_bind_Ret.
    eexists. split; [done|]. split; [done|]. intros W N _ HW.
    assert (allow_what_ (deref s q') = true) as Hwhat'.
    { apply Hd; [|done..]. by apply list_elem_of_fmap_2. }
    specialize (HW _ Hj' Hwho' Hwhat'). rewrite its_policies_insert by done. unfold its_policies.
    setoid_rewrite list_elem_of_fmap. split.
    + intros (x&(y&->&Hy)&Hx). destruct (decide (y = q')) as [->|]; [|left; by eauto].
      apply HW in Hx. destruct Hx; [left; by eauto|by right].
    + intros [(x&(y&->&Hy)&Hx)|HN].
      * destruct (decide (y = q')) as [->|Hne].
        -- eexists. split; [exists q'; split; [done|done]|]. rewrite decide_True by done. apply HW. by left.
        -- eexists. split; [exists y; split; [done|done]|]. by rewrite decide_False.
      * eexists. split; [exists q'; split; [done|done]|]. rewrite decide_True by done. apply HW. by right.
  - eexists. split; [done|]. split; [done|]. intros W N HW _.
    assert (its_policies (set_policies (policies s) (any_client_policies_ s ++ [q]) s) =
      its_policies s ++ [deref s q]) as -> 
        by (unfold its_policies; cbn [any_client_policies_ set_policies]; by rewrite fmap_app).
    setoid_rewrite elem_of_app. setoid_rewrite list_elem_of_singleton. split.
    + intros (x&[Hx| ->]&?); [left; by eauto|right; by apply HW].
    + intros [(x&Hx&?)|HN]; [by eauto|]. exists (deref s q). split; [by right|by apply HW].
Qed.

Lemma update_grants fuel _uid _gid q s : update_for _uid _gid q s → no_denials _uid _gid s →
  (Z.to_nat 0x10000 ≤ fuel)%nat →
  ∃ s', update_security_policy fuel _uid _gid q s = Ret s' ∧
    (∀ u g svc inst m js, is_client_allowed u g svc inst m js s' = true ↔
      is_client_allowed u g svc inst m js s = true ∨
      (known u g ∧ (u = _uid ∧ g = _gid) ∧ requested svc inst m js (requests_ (deref s q)))) ∧
    (∀ u g svc inst, is_offer_allowed u g svc inst s' = true ↔
      is_offer_allowed u g svc inst s = true ∨
      (known u g ∧ (u = _uid ∧ g = _gid) ∧ imap_has svc inst (offers_ (deref s q)) = true)).
Proof.
  intros Hq Hd Hf. destruct (update_effect fuel _uid _gid q s Hq Hd Hf) as (s'&E&Hl&HW).
  destruct Hq as (Hj&Hwho&Hwhat&Hup&_). exists s'. split; [done|]. split.
  - intros u g svc inst m js. rewrite !is_client_allowed_spec, Hl.
    rewrite (HW _ ((u = _uid ∧ g = _gid) ∧ requested svc inst m js (requests_ (deref s q)))); [tauto|..].
    + by rewrite (just_user_applies _ _ _ _ _ Hj Hwho); unfold grants; rewrite Hwhat.
    + intros t Ht Hwt Hat. rewrite (just_user_applies _uid _gid (merge_policy _ _)), (just_user_applies _ _ t _ _ Ht Hwt) by done.
      unfold grants, requested. cbn [merge_policy allow_what_]. rewrite Hat.
      setoid_rewrite (merge_policy_requests _ t svc inst _ Hup). split.
      * intros [? (v&?&[?|?])]; [left|right]; by eauto.
      * intros [[? (v&?&?)]|[? (v&?&?)]]; (split; [done|]); exists v; by auto.
  - intros u g svc inst. rewrite !is_offer_allowed_spec, Hl.
    rewrite (HW _ ((u = _uid ∧ g = _gid) ∧ imap_has svc inst (offers_ (deref s q)) = true)); [tauto|..].
    + rewrite (just_user_applies _ _ _ _ _ Hj Hwho), Hwhat. naive_solver.
    + intros t Ht Hwt Hat. rewrite (just_user_applies _uid _gid (merge_policy _ _)), (just_user_applies _ _ t _ _ Ht Hwt) by done.
      pose proof (merge_policy_offers _ t svc inst Hup) as Ho. cbn [allow_what_ merge_policy offers_] in *.
      rewrite Hat. split; [intros (?&Hx%eq_sym); apply Ho in Hx; naive_solver|].
      intros [(?&?)|(?&Hx)]; (split; [done|]); symmetry; apply Ho; auto.
Qed.

(** C8: An update of the policy of a user, with at most 0xFFFE as its greatest service,
    returns and allows exactly what the policy lists, in addition to what was allowed
    before: a call or request of a user is allowed afterwards if and only if it was allowed
    before or it is of the user of the policy and among its requests, and the same for
    offers.  This needs that no policy of just this user that lists what is denied is
    installed. *)
Theorem policy_update_grants fuel _uid _gid q s : update_for _uid _gid q s → no_denials _uid _gid s →
  (Z.to_nat 0x10000 ≤ fuel)%nat →
  ∃ s', update_security_policy fuel _uid _gid q s = Ret s' ∧
    (∀ u g svc inst m js, is_client_allowed u g svc inst m js s' = true ↔
      is_client_allowed u g svc inst m js s = true ∨
      (known u g ∧ (u = _uid ∧ g = _gid) ∧ requested svc inst m js (requests_ (deref s q)))) ∧
    (∀ u g svc inst, is_offer_allowed u g svc inst s' = true ↔
      is_offer_allowed u g svc inst s = true ∨
      (known u g ∧ (u = _uid ∧ g = _gid) ∧ imap_has svc inst (offers_ (deref s q)) = true)).
Proof. apply update_grants. Qed.

(** ** Policies that are read from a message *)

Lemma or_fail_inv {A B} (m : ST reader (option A)) (k : A → ST reader (option B)) r b r' :
  or_fail m k r = Ret (Some b, r') → ∃ a r1, m r = Ret (Some a, r1) ∧ k a r1 = Ret (Some b, r').
Proof.
  unfold or_fail. intros E. apply st_bind_inv in E. destruct E as ([a|]&r1&E1&E2); [by eauto|done].
Qed.

Lemma u16_read r v r' : deserialize_u16 r = Ret (Some v, r') → is_u16 v.
Proof.
  unfold deserialize_u16. st_run. case_bool_decide; [done|].
  destruct (data r) as [|x0 [|x1 rest]]; [done..|]. intros [= <- _].
  unfold VSOMEIP_BYTES_TO_WORD. apply is_u16_u16.
Qed.

(** A service that is read is below 0xFFFF. *)
Lemma service_read r v r' : deserialize_service r = Ret (Some v, r') → is_u16 v ∧ v < 0xFFFF.
Proof.
  intros E. apply or_fail_inv in E. destruct E as (x&r1&E1&E2). apply u16_read in E1.
  case_match eqn:Hx; [done|]. injection E2 as <- <-. apply orb_false_iff in Hx. destruct Hx as [_ Hx].
  apply bool_decide_eq_false in Hx. unfold is_u16 in *. lia.
Qed.

(** The invariant of the two loops of [deserialize]. *)
Lemma member_loop_keeps {A} (Q : policy → Prop) fuel (body : ST reader (option A)) add n p r ok p' r' :
  (∀ r a r' p, body r = Ret (Some a, r') → Q p → Q (add a p)) →
  member_loop fuel body add n p r = Ret ((ok, p'), r') → Q p → Q p'.
Proof.
  intros Hb. revert n p r. induction fuel as [|fuel IH]; intros n p r; cbn [member_loop]; [done|].
  case_bool_decide; [|intros [= <- <- <-]; done].
  rewrite (st_bind_Ret _ _ _ _ _ (eq_refl : st_get r = Ret (r, r))). intros E HQ.
  apply st_bind_inv in E. destruct E as ([a|]&r1&E1&E2); [|by injection E2 as <- <- <-].
  rewrite (st_bind_Ret _ _ _ _ _ (eq_refl : st_get r1 = Ret (r1, r1))) in E2.
  eapply IH; [done|]. by eapply Hb.
Qed.

Lemma point_closed (s k : Z) : k ∈ closed s s ↔ k = s.
Proof. unfold elem_of, in_interval, closed. cbn. lia. Qed.

Lemma add_request_updatable x p : is_u16 x.1 → x.1 < 0xFFFF → updatable p → updatable (add_request x p).
Proof.
  intros Hx Hlt (Hr&Ho&Hrm&Hom). split_and!; cbn [add_request requests_ offers_]; [|done| |done].
  - by apply rmap_typed.
  - intros k i v. rewrite rmap_has_add, orb_true_iff, andb_true_iff, bool_decide_eq_true, point_closed.
    intros [[-> _]|?]; [done|by eapply Hrm].
Qed.

Lemma add_offer_updatable x p : is_u16 x.1 → x.1 < 0xFFFF → updatable p → updatable (add_offer x p).
Proof.
  intros Hx Hlt (Hr&Ho&Hrm&Hom). split_and!; cbn [add_offer requests_ offers_]; [done| |done|].
  - by apply imap_typed.
  - intros k v. rewrite imap_has_add, orb_true_iff, andb_true_iff, bool_decide_eq_true, point_closed.
    intros [[-> _]|?]; [done|by eapply Hom].
Qed.

Definition parsed_ok (p : policy) : Prop :=
  allow_who_ p = true ∧ allow_what_ p = true ∧ updatable p.

Lemma policy_new_updatable : updatable policy_new.
Proof.
  split_and!; cbn [policy_new requests_ offers_].
  - by rewrite rmap_no_segments.
  - by rewrite imap_no_segments.
  - intros k i v. by rewrite rmap_has_empty.
  - intros k v. by rewrite imap_has_empty.
Qed.

Lemma deserialize_parsed_ok uninit p' r r' :
  deserialize uninit policy_new r = Ret ((true, p'), r') → parsed_ok p'.
Proof.
  unfold deserialize. intros E. apply st_bind_inv in E. destruct E as ([[uid gid]|]&r1&_&E); [|done].
  assert (parsed_ok (add_credentials uid gid policy_new)) as Hnew by (split_and!; [done|done|apply policy_new_updatable]).
  apply st_bind_inv in E. destruct E as ([n|]&r2&_&E); [|done].
  apply st_bind_inv in E. destruct E as (r2'&r2''&[= <- <-]&E).
  apply st_bind_inv in E. destruct E as ([ok p1]&r3&E1&E).
  eapply (member_loop_keeps parsed_ok) in E1; [| |done]; cycle 1.
  { intros ? [k ids] ? ? Hb (?&?&Hu). split_and!; [done|done|]. apply or_fail_inv in Hb.
    destruct Hb as (?&?&Hs&Hi). apply service_read in Hs. apply or_fail_inv in Hi. destruct Hi as (?&?&_&[= <- _ _]).
    destruct Hs. by apply (add_request_updatable (_, ids)). }
  destruct ok; [|done]. cbn [negb] in E.
  apply st_bind_inv in E. destruct E as ([m|]&r4&_&E); [|done].
  apply st_bind_inv in E. destruct E as (r5&r5'&[= <- <-]&E).
  eapply (member_loop_keeps parsed_ok) in E; [done| |done].
  intros ? [k ids] ? ? Hb (?&?&Hu). split_and!; [done|done|]. apply or_fail_inv in Hb.
  destruct Hb as (?&?&Hs&Hi). apply service_read in Hs. apply or_fail_inv in Hi. destruct Hi as (?&?&_&[= <- _ _]).
  destruct Hs. by apply (add_offer_updatable (_, ids)).
Qed.

(** A policy that was read for a user may be given to [update_security_policy]. *)
Lemma parsed_update_for uninit p r r' uid gid q s : parse_policy uninit policy_new r = Ret ((Some (uid, gid), p), r') →
  deref s q = p → q ∉ any_client_policies_ s → update_for uid gid q s.
Proof.
  unfold parse_policy. intros E <- Hq. apply st_bind_inv in E. destruct E as ([ok p1]&r1&E1&E).
  destruct ok; [|done]. apply deserialize_parsed_ok in E1. destruct E1 as (?&?&?).
  apply st_bind_inv in E. destruct E as (c&r2&Ec&[= -> Hp _]). unfold st_lift in Ec.
  apply outcome_bind_inv in Ec. destruct Ec as (c'&Ec&[= -> ->]).
  apply single_credential_user in Ec. rewrite Hp in *. by split_and!.
Qed.

(** ** Removal *)

Lemma elem_of_kept u g s p :
  p ∈ its_policies (remove_security_policy u g s).2 ↔ p ∈ its_policies s ∧ is_removed u g p = false.
Proof.
  unfold its_policies, remove_security_policy. cbn [snd any_client_policies_ set_policies].
  rewrite !list_elem_of_fmap. setoid_rewrite list_elem_of_filter. naive_solver.
Qed.

Lemma remove_lenient u g s : lenient (remove_security_policy u g s).2 ↔ lenient s.
Proof. done. Qed.

(** A policy at the end that is the only one to be removed. *)
Lemma remove_last u g q s : is_removed u g (deref s q) = true →
  (∀ p, p ∈ its_policies s → is_removed u g p = false) →
  remove_security_policy u g (set_policies (policies s) (any_client_policies_ s ++ [q]) s) = (true, s).
Proof.
  intros Hq Hno. unfold remove_security_policy. cbn [any_client_policies_ policies set_policies].
  rewrite existsb_app. cbn [existsb]. change (deref (set_policies _ _ s)) with (deref s).
  rewrite Hq, orb_true_r. f_equal.
  assert (filter (λ q, is_removed u g (deref s q) = false) (any_client_policies_ s ++ [q]) =
    any_client_policies_ s) as ->.
  { rewrite filter_app, filter_cons_False by (by rewrite Hq). rewrite filter_nil, app_nil_r.
    assert (Forall (λ q, is_removed u g (deref s q) = false) (any_client_policies_ s)) as Hall.
    { apply Forall_forall. intros x Hx. apply Hno. by apply list_elem_of_fmap_2. }
    clear -Hall. induction Hall as [|x l Hx _ IH]; [done|]. by rewrite filter_cons_True, IH. }
  by destruct s.
Qed.

(** C30: The removal of the policies of a user reports whether a policy that allows this user
    was installed.  Afterwards a decision about any user is positive if and only if it is
    made by a policy that does not list the removed user among those it allows; so the
    removed user is left with what policies allow that list whom they do not apply to, and
    a policy for several users is lost for all of them.  A removal after an update takes it
    back: if no policy allows the user, the list of policies is the one before the update. *)
Theorem policy_removal_revokes fuel u g q s :
  ((remove_security_policy u g s).1 = true ↔
     ∃ p, p ∈ its_policies s ∧ allow_who_ p = true ∧ has_id u g p = true) ∧
  (∀ u' g' svc inst m js, is_client_allowed u' g' svc inst m js (remove_security_policy u g s).2 = true ↔
     lenient s ∨ (known u' g' ∧ ∃ p, p ∈ its_policies s ∧ ¬ (allow_who_ p = true ∧ has_id u g p = true) ∧
       applies u' g' p ∧ grants svc inst m js p)) ∧
  (update_for u g q s → (∀ p, p ∈ its_policies s → allow_who_ p = true → has_id u g p = false) →
     ∃ s', update_security_policy fuel u g q s = Ret s' ∧ remove_security_policy u g s' = (true, s)).
Proof.
  assert (∀ p, is_removed u g p = true ↔ allow_who_ p = true ∧ has_id u g p = true) as Hrem.
  { intros p. unfold is_removed. rewrite andb_true_iff. tauto. }
  split_and!.
  - cbn [remove_security_policy fst]. rewrite existsb_exists. unfold its_policies.
    setoid_rewrite list_elem_of_fmap. setoid_rewrite <- Hrem. setoid_rewrite <- list_elem_of_In. naive_solver.
  - intros u' g' svc inst m js. rewrite is_client_allowed_spec, remove_lenient.
    setoid_rewrite elem_of_kept. setoid_rewrite <- Hrem. setoid_rewrite not_true_iff_false.
    split; (intros [?|(?&p&Hp)]; [by left|right; split; [done|]; exists p; tauto]).
  - intros (Hj&Hwho&_&_&Hq) Hno. unfold update_security_policy. rewrite Hwho.
    destruct (find_single_spec u g true s (any_client_policies_ s)) as (m&->&Hm). rewrite outcome_bind_Ret.
    destruct m as [q'|].
    { destruct Hm as [Hin Hs]. destruct (is_single_spec u g true (deref s q')) as (b&Eb&Hb).
      rewrite Eb in Hs. injection Hs as ->. destruct (Hb eq_refl) as [Hj' Hw'].
      assert (has_id u g (deref s q') = true) as Hid by (by apply Hj').
      rewrite Hno in Hid; [done| |done]. by apply list_elem_of_fmap_2. }
    eexists. split; [done|]. apply remove_last.
    + apply Hrem. split; [done|]. by apply Hj.
    + intros p Hp. apply not_true_iff_false. rewrite Hrem. intros [Hw Hid]. by rewrite Hno in Hid.
Qed.

(** ** Clients and users *)

(** A client that has a user is among the clients of this user, and no user is kept
    without clients. *)
Definition mapped (s : security) : Prop :=
  (∀ c x, ids_ s !! c = Some x → ∃ cs, uid_to_clients_ s !! x = Some cs ∧ c ∈ cs) ∧
  (∀ x cs, uid_to_clients_ s !! x = Some cs → cs ≠ ∅).

(** The calls that change the mappings: the check of credentials, the pair of calls by
    which an endpoint or a proxy registers a client without a check, and the removal. *)
Inductive mapping_op : Type :=
  | CheckCredentials (c u g : Z)
  | StoreMapping (c u g : Z)
  | RemoveMapping (c : Z).

Definition store_mapping (c u g : Z) (s : security) : security :=
  store_uid_gid_to_client_mapping u g c (store_client_to_uid_gid_mapping c u g s).2.

Definition run_mapping (s : security) (o : mapping_op) : security :=
  match o with
  | CheckCredentials c u g => (check_credentials c u g s).2
  | StoreMapping c u g => store_mapping c u g s
  | RemoveMapping c => (remove_client_to_uid_gid_mapping c s).2
  end.

Lemma store_mapping_ids c u g s : ids_ (store_mapping c u g s) = <[c := (u, g)]> (ids_ s).
Proof.
  unfold store_mapping, store_client_to_uid_gid_mapping. cbn.
  destruct (ids_ s !! c) as [x|] eqn:E; [|done]. case_bool_decide as Hx; [done|].
  rewrite insert_id; [done|]. by rewrite E, Hx.
Qed.

Lemma store_mapping_clients c u g s :
  uid_to_clients_ (store_mapping c u g s) =
  <[(u, g) := {[c]} ∪ default ∅ (uid_to_clients_ s !! (u, g))]> (uid_to_clients_ s).
Proof.
  unfold store_mapping, store_uid_gid_to_client_mapping.
  assert (uid_to_clients_ (store_client_to_uid_gid_mapping c u g s).2 = uid_to_clients_ s) as ->.
  { unfold store_client_to_uid_gid_mapping. cbn. destruct (ids_ s !! c); [by case_bool_decide|done]. }
  cbn. by destruct (uid_to_clients_ s !! (u, g)); cbn [default]; rewrite ?union_empty_r_L.
Qed.

Lemma store_mapping_mapped c u g s : mapped s → mapped (store_mapping c u g s).
Proof.
  intros [Hm He]. split; rewrite ?store_mapping_ids, store_mapping_clients.
  - intros c' x Hx. destruct (decide (c' = c)) as [->|Hc].
    + rewrite lookup_insert_eq in Hx. injection Hx as <-. rewrite lookup_insert_eq. eexists. split; [done|set_solver].
    + rewrite lookup_insert_ne in Hx by done. destruct (Hm _ _ Hx) as (cs&Hcs&?).
      destruct (decide (x = (u, g))) as [->|]; [|rewrite lookup_insert_ne by done; by eauto].
      rewrite lookup_insert_eq, Hcs. eexists. split; [done|]. cbn. set_solver.
  - intros x cs. destruct (decide (x = (u, g))) as [->|].
    + rewrite lookup_insert_eq. intros [= <-]. set_solver.
    + rewrite lookup_insert_ne by done. apply He.
Qed.

Lemma check_policies_state ps c u g s :
  (check_policies ps c u g s).2 = s ∨ (check_policies ps c u g s) = (true, store_mapping c u g s).
Proof.
  induction ps as [|p ps IH]; cbn [check_policies]; [by left|].
  destruct (is_who u g p); [by right|done].
Qed.

(** The clients of every user after one client was taken from one user. *)
Lemma erase_client_lookup (c : Z) (k : Z * Z) (us us' : gmap (Z * Z) (gset Z)) (x : Z * Z) : erase_client c k us = Some us' →
  us' !! x = if decide (x = k) then
    (cs ← us !! k; if decide (cs ∖ {[c]} = ∅) then None else Some (cs ∖ {[c]})) else us !! x.
Proof.
  unfold erase_client. destruct (us !! k) as [cs|] eqn:E; [|done]. case_bool_decide; [|done].
  intros [= <-]. cbn. case_bool_decide as Hc; destruct (decide (x = k)) as [->|].
  - by rewrite lookup_delete_eq, decide_True.
  - by rewrite lookup_delete_ne.
  - by rewrite lookup_insert_eq, decide_False.
  - by rewrite lookup_insert_ne.
Qed.

Lemma erase_client_mapped (c : Z) (k : Z * Z) (us us' : gmap (Z * Z) (gset Z)) (ids : gmap Z (Z * Z)) :
  erase_client c k us = Some us' → ids !! c = None →
  (∀ c x, ids !! c = Some x → ∃ cs, us !! x = Some cs ∧ c ∈ cs) → (∀ x cs, us !! x = Some cs → cs ≠ ∅) →
  (∀ c x, ids !! c = Some x → ∃ cs, us' !! x = Some cs ∧ c ∈ cs) ∧ (∀ x cs, us' !! x = Some cs → cs ≠ ∅).
Proof.
  intros E Hc Hm He. split.
  - intros c' x Hx. rewrite (erase_client_lookup _ _ _ _ _ E). destruct (Hm _ _ Hx) as (cs&Hcs&Hin).
    destruct (decide (x = k)) as [->|]; [|by eauto]. rewrite Hcs. cbn.
    assert (c' ∈ cs ∖ {[c]}) by (assert (c' ≠ c) by congruence; set_solver).
    rewrite decide_False by set_solver. by eauto.
  - intros x cs. rewrite (erase_client_lookup _ _ _ _ _ E). destruct (decide (x = k)) as [->|]; [|by apply He].
    destruct (us !! k); [|done]. cbn. destruct (decide _); [done|]. by intros [= <-].
Qed.

Lemma erase_first_client c ks us us' : erase_first c ks us = Some us' → ∃ k, erase_client c k us = Some us'.
Proof.
  induction ks as [|k ks IH]; cbn [erase_first]; [done|].
  destruct (erase_client c k us) eqn:E; [intros [= ->]; by eauto|done].
Qed.

Lemma remove_mapping_mapped c s : mapped s → mapped (remove_client_to_uid_gid_mapping c s).2.
Proof.
  intros [Hm He]. unfold remove_client_to_uid_gid_mapping. destruct (ids_ s !! c) as [x|] eqn:Ex.
  - assert (∀ c' y, delete c (ids_ s) !! c' = Some y → ∃ cs, uid_to_clients_ s !! y = Some cs ∧ c' ∈ cs) as Hm'.
    { intros c' y Hy. apply lookup_delete_Some in Hy. apply Hm, (proj2 Hy). }
    destruct (erase_client c x (uid_to_clients_ s)) as [us'|] eqn:E; [|done].
    apply (erase_client_mapped _ _ _ _ (delete c (ids_ s)) E); [by rewrite lookup_delete_eq|done|done].
  - destruct (erase_first _ _ _) as [us'|] eqn:E; [|done].
    destruct (erase_first_client _ _ _ _ E) as [k Ek]. by apply (erase_client_mapped _ _ _ _ _ Ek).
Qed.

(** After any sequence of credential checks, registrations and removals of clients, every
    client that is known with a user and a group is found among the clients of these, so
    that what [get_clients] returns is contained in the stored clients; no empty set of
    clients is stored; and a removed client is not known any more. *)
Theorem client_mappings_consistent s ops c u g : mapped s →
  mapped (foldl run_mapping s ops) ∧
  (∀ x, x ∈ get_clients u g (foldl run_mapping s ops) →
    ∃ cs, get_uid_gid_to_client_mapping (u, g) (foldl run_mapping s ops) = Some cs ∧ x ∈ cs) ∧
  get_client_to_uid_gid_mapping c (foldl run_mapping s (ops ++ [RemoveMapping c])) = None.
Proof.
  intros Hs. assert (mapped (foldl run_mapping s ops)) as Hm.
  { revert s Hs. induction ops as [|o ops IH]; intros s Hs; [done|]. cbn [foldl]. apply IH.
    destruct o as [c' u' g'|c' u' g'|c']; cbn [run_mapping].
    - unfold check_credentials. destruct (negb _); [done|].
      destruct (check_policies_state (its_policies s) c' u' g' s) as [->| ->]; [done|by apply store_mapping_mapped].
    - by apply store_mapping_mapped.
    - by apply remove_mapping_mapped. }
  split; [done|]. split.
  - intros x Hx. unfold get_clients in Hx. apply elem_of_dom in Hx. destruct Hx as [y Hy]. apply map_lookup_filter_Some in Hy.
    destruct Hy as [Hy Hy2]. cbn in Hy2. subst y. by apply Hm.
  - rewrite foldl_app. cbn [foldl run_mapping]. set (t := foldl run_mapping s ops).
    unfold get_client_to_uid_gid_mapping, remove_client_to_uid_gid_mapping.
    destruct (ids_ t !! c) as [y|] eqn:E.
    + by destruct (erase_client _ _ _); cbn; rewrite lookup_delete_eq.
    + by destruct (erase_first _ _ _).
Qed.

(** ** Updates are checked against the lists of users and services *)

Lemma all_whitelisted_spec fuel l u b w : 0 ≤ l → u < 0xFFFF → u - l + 1 < Z.of_nat fuel → (0 < fuel)%nat →
  ∃ ok, all_whitelisted fuel l u b w = Ret ok ∧
    (ok = true ↔ (∀ k, l ≤ k ≤ u → iset_find k w = true) ∧ (u < l → b = true)).
Proof.
  revert l b. induction fuel as [|fuel IH]; intros l b Hl Hu Hf Hf0; [lia|].
  cbn [all_whitelisted]. case_bool_decide.
  - destruct (iset_find l w) eqn:E.
    + rewrite u16_id by (unfold is_u16; lia). destruct (IH (l + 1) true) as (ok&Eok&Hok); [lia..|].
      exists ok. split; [done|]. rewrite Hok. split.
      * intros [Hk _]. split; [|lia]. intros k Hk'. destruct (decide (k = l)) as [->|]; [done|apply Hk; lia].
      * intros [Hk _]. split; [|done]. intros k Hk'. apply Hk. lia.
    + exists false. split; [done|]. split; [done|]. intros [Hk _]. rewrite Hk in E by lia. done.
  - exists b. split; [done|]. split; [intros ->; split; [lia|done]|]. intros [_ Hb]. apply Hb. lia.
Qed.

(** Every service between the bounds of a segment is requested. *)
Definition bounds_requested (r : rmap) : Prop :=
  ∀ j m k, (j, m) ∈ rmap_segments r → lower j ≤ k ≤ upper j → ∃ i v, rmap_has k i v r = true.

Lemma segment_bounds (j : interval) (k : Z) : k ∈ j → lower j ≤ k ≤ upper j.
Proof. unfold elem_of, in_interval. destruct (left_open j), (right_open j); lia. Qed.

Lemma requests_whitelisted_spec fuel l w : (Z.to_nat 0x10000 ≤ fuel)%nat →
  Forall (λ x, good_segment x.1 ∧ upper x.1 < 0xFFFF) l →
  ∃ ok, requests_whitelisted fuel l w = Ret ok ∧
    (ok = true ↔ ∀ j m k, (j, m) ∈ l → lower j ≤ k ≤ upper j → iset_find k w = true).
Proof.
  intros Hf Hl. induction Hl as [|[j m] l [(Ht&[y Hy]&_) Hu] _ IH]; cbn [requests_whitelisted fst] in *.
  { exists true. split; [done|]. set_solver. }
  apply segment_bounds in Hy. destruct Ht as [Hj1 Hj2]. unfold is_u16 in *.
  destruct (all_whitelisted_spec fuel (lower j) (upper j) false w) as (ok&->&Hok); [lia..|].
  rewrite outcome_bind_Ret. destruct IH as (ok'&->&Hok'). setoid_rewrite elem_of_cons. destruct ok.
  - exists ok'. split; [done|]. rewrite Hok'. destruct (proj1 Hok eq_refl) as [Hk _]. split.
    + intros Hr j' m' k [[= -> ->]|Hx] Hk'; [by apply Hk|by eapply Hr].
    + intros Hr j' m' k Hx. apply (Hr j' m' k). by right.
  - exists false. split; [done|]. split; [done|]. intros Hr. apply Hok. split; [|lia].
    intros k Hk. apply (Hr j m k); [by left|done].
Qed.

(** Whether a policy update is allowed is decided for every policy whose services are
    below 0xFFFF: it is if the user and all requested services are on the lists for
    updates, or if the lists are not enforced. *)
Theorem policy_update_allowed_spec fuel u p s : updatable p → bounds_requested (requests_ p) →
  (Z.to_nat 0x10000 ≤ fuel)%nat →
  ∃ b, is_policy_update_allowed fuel u p s = Ret b ∧
    (b = true ↔ check_whitelist_ s = false ∨
      (iset_find u (uid_whitelist_ s) = true ∧
       ∀ k i v, rmap_has k i v (requests_ p) = true → iset_find k (service_interface_whitelist_ s) = true)).
Proof.
  intros Hp Hb Hf. unfold is_policy_update_allowed. set (w := service_interface_whitelist_ s).
  destruct (iset_find u (uid_whitelist_ s)).
  2: { eexists. split; [done|]. rewrite negb_true_iff. naive_solver. }
  destruct (updatable_segments p Hp) as [Hseg _].
  destruct (requests_whitelisted_spec fuel (rmap_segments (requests_ p)) w Hf) as (ok&->&Hok).
  { apply Forall_forall. intros [j m] Hin. pose proof (proj1 (Forall_forall _ _) Hseg _ Hin) as Hg.
    split; [done|]. destruct Hg as (_&[y Hy%segment_bounds]&_). cbn [fst] in *.
    destruct (Hb j m (upper j) Hin) as (i&v&Hup); [lia|]. by apply Hp in Hup. }
  rewrite outcome_bind_Ret. eexists. split; [done|].
  assert (ok = true ↔ ∀ k i v, rmap_has k i v (requests_ p) = true → iset_find k w = true) as <-.
  { rewrite Hok. split.
    - intros Hr k i v (j&m&Hin&Hk%segment_bounds&_)%rmap_has_segments. by apply (Hr j m k Hin).
    - intros Hr j m k Hin Hk. destruct (Hb _ _ _ Hin Hk) as (i&v&Hkiv). by eapply Hr. }
  destruct ok; [naive_solver|]. rewrite negb_true_iff. naive_solver.
Qed.

(** ** Requesters *)

Lemma foldl_has {A B} (P : A → Prop) (Q : B → Prop) (f : A → B → A) l acc :
  (∀ acc x, x ∈ l → P (f acc x) ↔ P acc ∨ Q x) → P (foldl f acc l) ↔ P acc ∨ ∃ x, x ∈ l ∧ Q x.
Proof.
  revert acc. induction l as [|x l IH]; intros acc Hf; cbn [foldl]; [set_solver|].
  rewrite IH, Hf by set_solver. setoid_rewrite elem_of_cons. naive_solver.
Qed.

Definition proper (i : interval) : Prop := typed16 i ∧ ∃ y : Z, y ∈ i.

Lemma overlap_elem (i j : interval) l1 u1 l2 u2 (k : Z) : proper i → proper j →
  get_bounds u16 i = (l1, u1) → get_bounds u16 j = (l2, u2) →
  overlap l1 u1 l2 u2 = true ∧ k ∈ closed (Z.max l1 l2) (Z.min u1 u2) ↔ k ∈ i ∧ k ∈ j.
Proof.
  intros [] [] Ei Ej. edestruct (get_bounds_typed i) as (_&_&->); [done..|].
  edestruct (get_bounds_typed j) as (_&_&->); [done..|]. unfold overlap, closed, elem_of, in_interval. cbn.
  rewrite andb_true_iff, !bool_decide_eq_true. lia.
Qed.

(** All bounds of the containers are of their 16-bit types. *)
Definition set16 (s : iset) : Prop := Forall typed16 (iset_intervals s).
Definition map16 (m : imap) : Prop := Forall (λ x, typed16 x.1 ∧ set16 x.2) (imap_segments m).
Definition requests16 (r : rmap) : Prop := Forall (λ x, typed16 x.1 ∧ map16 x.2) (rmap_segments r).

Lemma set16_proper s i : set16 s → i ∈ iset_intervals s → proper i.
Proof.
  intros Hs Hi. split; [by apply (proj1 (Forall_forall _ _) Hs)|]. by apply (iset_interval_inhabited i s).
Qed.

(** The instances of the offer that are methods of some instance of the request. *)
Definition confused (i v : Z) (o : iset) (r : imap) : Prop :=
  iset_find i o = true ∧ ∃ j ms, (j, ms) ∈ imap_segments r ∧ iset_find i ms = true ∧ iset_find v ms = true.

Lemma requester_requests_has o r acc k i v : proper o.1 → set16 o.2 → proper r.1 → map16 r.2 →
  rmap_has k i v (requester_requests o r acc) = true ↔
  rmap_has k i v acc = true ∨ ((k ∈ o.1 ∧ k ∈ r.1) ∧ confused i v o.2 r.2).
Proof.
  intros Ho Ho2 Hr Hr2. unfold requester_requests.
  destruct (get_bounds u16 o.1) as [l1 u1] eqn:E1. destruct (get_bounds u16 r.1) as [l2 u2] eqn:E2.
  rewrite <- (overlap_elem o.1 r.1 l1 u1 l2 u2 k) by done. rewrite (Z.min_comm u2 u1).
  destruct (overlap l1 u1 l2 u2); [|naive_solver]. set (sv := closed (Z.max l1 l2) (Z.min u1 u2)).
  rewrite (foldl_has (λ acc, rmap_has k i v acc = true) (λ x : interval, k ∈ sv ∧ i ∈ x ∧
    ∃ y, y ∈ imap_segments r.2 ∧ iset_find i y.2 = true ∧ iset_find v y.2 = true)).
  - unfold confused. rewrite iset_find_intervals. split; [|intros [?|[[_ ?] [(x&?&?) (j&ms&?&?&?)]]]].
    + intros [?|(x&?&?&?&[j ms]&?&?&?)]; [by left|]. right. split; [done|]. split; by eauto.
    + by left.
    + right. exists x. split; [done|]. split; [done|]. split; [done|]. by exists (j, ms).
  - intros acc1 x Hx. pose proof (set16_proper _ _ Ho2 Hx) as Hpx.
    rewrite (foldl_has (λ acc, rmap_has k i v acc = true) (λ y : interval * iset, k ∈ sv ∧ i ∈ x ∧
      iset_find i y.2 = true ∧ iset_find v y.2 = true)); [naive_solver|].
    intros acc2 y Hy. destruct (proj1 (Forall_forall _ _) Hr2 _ Hy) as [_ Hy2].
    rewrite (foldl_has (λ acc, rmap_has k i v acc = true) (λ z : interval, k ∈ sv ∧ (i ∈ x ∧ i ∈ z) ∧
      iset_find v y.2 = true)); [rewrite (iset_find_intervals i y.2); naive_solver|].
    intros acc3 z Hz. pose proof (set16_proper _ _ Hy2 Hz) as Hpz.
    destruct (get_bounds u16 x) as [l3 u3] eqn:E3. destruct (get_bounds u16 z) as [l4 u4] eqn:E4.
    rewrite <- (overlap_elem x z l3 u3 l4 u4 i) by done.
    destruct (overlap l3 u3 l4 u4); [|naive_solver].
    rewrite rmap_has_add, imap_has_add, imap_has_empty, orb_false_r, orb_true_iff, !andb_true_iff, !bool_decide_eq_true.
    naive_solver.
Qed.

Lemma all_requester_requests_has m o p k i v : map16 m → o ∈ imap_segments m → requests16 (requests_ p) →
  rmap_has k i v (all_requester_requests o p) = true ↔
  ∃ r, r ∈ rmap_segments (requests_ p) ∧ (k ∈ o.1 ∧ k ∈ r.1) ∧ confused i v o.2 r.2.
Proof.
  intros Ho Hin Hr. unfold all_requester_requests. rewrite (foldl_has (λ acc, rmap_has k i v acc = true)
    (λ r, (k ∈ o.1 ∧ k ∈ r.1) ∧ confused i v o.2 r.2)); [rewrite rmap_has_empty; naive_solver|].
  intros acc r Hrin. destruct (proj1 (Forall_forall _ _) Ho _ Hin). destruct (proj1 (Forall_forall _ _) Hr _ Hrin).
  apply requester_requests_has; [|done| |done].
  - destruct o as [oi os]. split; [done|]. destruct (imap_segment_inhabited _ _ _ Hin) as (y&_&?&_). by exists y.
  - destruct r as [rj rm]. split; [done|]. destruct (rmap_segment_inhabited _ _ _ Hrin) as (y&_&_&?&_). by exists y.
Qed.

Lemma elem_of_requester_policies q s p : p ∈ get_requester_policies q s ↔
  ∃ o q', o ∈ imap_segments (offers_ (deref s q)) ∧ q' ∈ any_client_policies_ s ∧ q' ≠ q ∧
    rmap_is_empty (all_requester_requests o (deref s q')) = false ∧
    p = Policy (credentials_ (deref s q')) false (all_requester_requests o (deref s q')) imap_empty false.
Proof.
  unfold get_requester_policies. rewrite list_elem_of_bind. setoid_rewrite list_elem_of_bind. split.
  - intros (o&(q'&Hp&Hq')&Ho). exists o, q'. case_bool_decide; [by apply not_elem_of_nil in Hp|].
    destruct (rmap_is_empty _); [by apply not_elem_of_nil in Hp|]. by apply list_elem_of_singleton in Hp as ->.
  - intros (o&q'&Ho&Hq'&Hne&He&->). exists o. split; [|done]. exists q'. split; [|done].
    rewrite bool_decide_false by done. rewrite He. by apply list_elem_of_singleton.
Qed.

(** The policies that tell a service which clients may request it.  They list a service
    [k], instance [i] and method [v] if and only if the given policy offers instance [i] of
    [k] and another policy requests methods of some instance of [k] among which are both
    [v] and the number [i]: the identifiers of methods are compared with those of
    instances, and the instances that are requested are not looked at. *)
Theorem requester_policies_confuse_methods q s k i v :
  map16 (offers_ (deref s q)) →
  (∀ q', q' ∈ any_client_policies_ s → requests16 (requests_ (deref s q'))) →
  (∃ p, p ∈ get_requester_policies q s ∧ rmap_has k i v (requests_ p) = true) ↔
  imap_has k i (offers_ (deref s q)) = true ∧
  ∃ q' j m inst ms, q' ∈ any_client_policies_ s ∧ q' ≠ q ∧ (j, m) ∈ rmap_segments (requests_ (deref s q')) ∧
    k ∈ j ∧ (inst, ms) ∈ imap_segments m ∧ iset_find i ms = true ∧ iset_find v ms = true.
Proof.
  intros Ho Hr. setoid_rewrite elem_of_requester_policies. rewrite imap_has_segments. split.
  - intros (p&([oi os]&q'&Hin&Hq'&Hne&_&->)&Hhas). cbn [requests_] in Hhas.
    rewrite all_requester_requests_has in Hhas by (done || by apply Hr).
    destruct Hhas as ([j m]&Hj&[Hk1 Hk2]&Hc&inst&ms&Hms&?&?).
    split; [by eauto|]. exists q', j, m, inst, ms. by split_and!.
  - intros [(oi&os&Hin&Hk1&Hc) (q'&j&m&inst&ms&Hq'&Hne&Hj&Hk2&Hms&?&?)].
    assert (rmap_has k i v (all_requester_requests (oi, os) (deref s q')) = true) as Hhas.
    { rewrite all_requester_requests_has by (done || by apply Hr). exists (j, m).
      split; [done|]. split; [done|]. split; [done|]. by eauto. }
    exists (Policy (credentials_ (deref s q')) false (all_requester_requests (oi, os) (deref s q')) imap_empty false).
    split; [|done]. exists (oi, os), q'. split_and!; [done..| |done].
    apply not_true_iff_false. rewrite rmap_is_empty_spec. intros He. by rewrite He in Hhas.
Qed.
End decisions.

(** ** Containers with this meaning

    Sets of elements, of pairs and of triples; every element is an interval. *)
Definition range (i : interval) : list Z :=
  let l := if left_open i then lower i + 1 else lower i in
  let u := if right_open i then upper i - 1 else upper i in
  seqZ l (u - l + 1).

Section images.
  Context {V : Type} `{Countable V}.

Definition image (k : Z) (m : gset (Z * V)) : gset V := set_map snd (filter (λ x, x.1 = k) m).
Definition keys (m : gset (Z * V)) : gset Z := set_map fst m.
Definition found (k : Z) (m : gset (Z * V)) : option (gset V) :=
  if decide (image k m = ∅) then None else Some (image k m).
Definition add_image (i : interval) (vs : gset V) (m : gset (Z * V)) : gset (Z * V) :=
  list_to_set (k ← range i; v ← elements vs; [(k, v)]) ∪ m.
Definition images (m : gset (Z * V)) : list (interval * gset V) :=
  (λ k, (closed k k, image k m)) <$> elements (keys m).

Lemma elem_of_image k v m : v ∈ image k m ↔ (k, v) ∈ m.
Proof.
  unfold image. rewrite elem_of_map. setoid_rewrite elem_of_filter. split.
  - by intros ([? ?]&->&<-&?).
  - intros ?. by exists (k, v).
Qed.

Lemma elem_of_range i (k : Z) : k ∈ range i ↔ k ∈ i.
Proof.
  unfold range. rewrite elem_of_seqZ. unfold elem_of, in_interval.
  destruct (left_open i), (right_open i); lia.
Qed.

Lemma elem_of_add_image k v i vs m : (k, v) ∈ add_image i vs m ↔ (k ∈ i ∧ v ∈ vs) ∨ (k, v) ∈ m.
Proof.
  unfold add_image. rewrite elem_of_union, elem_of_list_to_set, list_elem_of_bind.
  setoid_rewrite list_elem_of_bind. setoid_rewrite elem_of_elements. setoid_rewrite list_elem_of_singleton.
  setoid_rewrite elem_of_range. naive_solver.
Qed.

Lemma elem_of_images i vs m : (i, vs) ∈ images m ↔ ∃ k v, i = closed k k ∧ vs = image k m ∧ (k, v) ∈ m.
Proof.
  unfold images, keys. rewrite list_elem_of_fmap. setoid_rewrite elem_of_elements. setoid_rewrite elem_of_map. split.
  - intros (k&[= -> ->]&[k' v]&->&?). by exists k', v.
  - intros (k&v&->&->&?). exists k. split; [done|]. by exists (k, v).
Qed.

Lemma found_Some k m vs : found k m = Some vs → vs = image k m ∧ ∃ v, v ∈ vs.
Proof.
  unfold found. destruct (decide _) as [|Hne]; [done|]. intros [= <-]. split; [done|].
  by apply set_choose_L in Hne.
Qed.

Lemma elem_of_found k v m : (∃ vs, found k m = Some vs ∧ v ∈ vs) ↔ (k, v) ∈ m.
Proof.
  rewrite <- elem_of_image. unfold found. destruct (decide _) as [Hn|]; [rewrite Hn|naive_solver].
  split; [by intros (?&?&_)|by intros ?%not_elem_of_empty].
Qed.

Lemma images_one m : Z.of_nat (base.size (keys m)) = 1 → ∃ x, images m = [x].
Proof.
  unfold images. intros Hs. change (Z.of_nat (length (elements (keys m))) = 1) in Hs. destruct (elements (keys m)) as [|k [|? ?]] eqn:E; cbn in *; [lia|by eauto|lia].
Qed.

Lemma images_typed i vs m : typed16 i → Forall (λ x, typed16 x.1) (images m) →
  Forall (λ x, typed16 x.1) (images (add_image i vs m)).
Proof.
  intros [Hl Hu]. rewrite !Forall_forall. intros Hm [j ws] Hj. apply elem_of_images in Hj.
  destruct Hj as (k&v&->&_&Hk). apply elem_of_add_image in Hk. destruct Hk as [[Hk%segment_bounds _]|Hk].
  - unfold typed16, is_u16 in *. cbn. lia.
  - apply (Hm (closed k k, image k m)). apply elem_of_images. by eauto.
Qed.
End images.

Definition set_icl : Icl := {|
  iset := gset Z;
  iset_empty := ∅;
  iset_insert i s := list_to_set (range i) ∪ s;
  iset_intervals s := (λ x, closed x x) <$> elements s;
  iset_size s := Z.of_nat (base.size s);
  imap := gset (Z * Z);
  imap_empty := ∅;
  imap_add := add_image;
  imap_segments := images;
  imap_size m := Z.of_nat (base.size (keys m));
  rmap := gset (Z * (Z * Z));
  rmap_empty := ∅;
  rmap_add := add_image;
  rmap_segments := images
|}.

Definition set_icl_find : @IclFind set_icl := {|
  iset_find x (s : @iset set_icl) := bool_decide (x ∈ (s : gset Z));
  imap_find := found : Z → @imap set_icl → option (@iset set_icl);
  rmap_find := found : Z → @rmap set_icl → option (@imap set_icl);
  rmap_is_empty (r : @rmap set_icl) := bool_decide ((r : gset (Z * (Z * Z))) = ∅)
|}.

Lemma set_imap_has k v m : @imap_has set_icl set_icl_find k v m = bool_decide ((k, v) ∈ m).
Proof.
  unfold imap_has. cbn. apply eq_true_iff_eq. rewrite bool_decide_eq_true, <- elem_of_found.
  destruct (found k m) as [vs|]; [|naive_solver]. rewrite bool_decide_eq_true. naive_solver.
Qed.

Lemma set_rmap_has k i v r : @rmap_has set_icl set_icl_find k i v r = bool_decide ((k, (i, v)) ∈ r).
Proof.
  unfold rmap_has. cbn. apply eq_true_iff_eq. rewrite bool_decide_eq_true, <- elem_of_found.
  destruct (found k r) as [m|]; [|naive_solver]. rewrite set_imap_has, bool_decide_eq_true. naive_solver.
Qed.

#[local] Instance set_icl_laws : @IclFindLaws set_icl set_icl_find.
Proof.
  split; intros; rewrite ?set_imap_has, ?set_rmap_has in *; cbn in *.
  - done.
  - apply eq_true_iff_eq. rewrite orb_true_iff, !bool_decide_eq_true. rewrite elem_of_union, elem_of_list_to_set. by rewrite elem_of_range.
  - rewrite bool_decide_eq_true. setoid_rewrite list_elem_of_fmap. setoid_rewrite elem_of_elements. split.
    + intros ?. exists (closed x x). rewrite point_closed. by eauto.
    + intros (i&(y&->&?)&Hx). by apply point_closed in Hx as ->.
  - apply list_elem_of_fmap in H. destruct H as (y&->&_). exists y. by apply point_closed.
  - change (Z.of_nat (length (elements s)) = 1) in H. destruct (elements s) as [|x [|? ?]]; cbn in *; [lia|by eauto|lia].
  - done.
  - apply eq_true_iff_eq. rewrite orb_true_iff, andb_true_iff, !bool_decide_eq_true. apply elem_of_add_image.
  - rewrite bool_decide_eq_true. setoid_rewrite elem_of_images. setoid_rewrite bool_decide_eq_true. split.
    + intros ?. exists (closed k k), (image k m). rewrite point_closed, elem_of_image. split; [by eauto|done].
    + intros (i&vs&(k'&v'&->&->&_)&Hk&Hv). apply point_closed in Hk as ->. by apply elem_of_image.
  - apply found_Some in H. setoid_rewrite bool_decide_eq_true. apply H.
  - apply elem_of_images in H. destruct H as (k&v&->&->&?). exists k, v. rewrite point_closed, bool_decide_eq_true, elem_of_image. done.
  - by apply images_one.
  - by apply images_typed.
  - done.
  - done.
  - apply eq_true_iff_eq. rewrite orb_true_iff, andb_true_iff, !bool_decide_eq_true. apply elem_of_add_image.
  - rewrite bool_decide_eq_true. setoid_rewrite elem_of_images. setoid_rewrite set_imap_has. setoid_rewrite bool_decide_eq_true. split.
    + intros ?. exists (closed k k), (image k r). split_and!; [by eauto|by apply point_closed|by apply elem_of_image].
    + intros (j&vs&(k'&v'&->&->&_)&Hk&Hv). apply point_closed in Hk as ->. by apply elem_of_image.
  - apply elem_of_images in H. destruct H as (k&[i v]&->&->&?). exists k, i, v. split; [by apply point_closed|].
    rewrite set_imap_has, bool_decide_eq_true. by apply elem_of_image.
  - rewrite bool_decide_eq_true. setoid_rewrite set_rmap_has. setoid_rewrite bool_decide_eq_false. split.
    + intros ->. set_solver.
    + intros Hr. apply set_eq. intros [k [i v]]. set_solver.
  - by apply images_typed.
  - done.
Qed.

(** ** Concrete policies

    User 1000 of group 100; a policy that is read from a message and lists method 7 of
    instance 1 of service 0x2222 as request and instance 1 of service 0x3333 as offer. *)
Definition item_wire (x : Z) : list Z := [0;0;0;10; 0;0;0;2; 0;0;0;1; 0;x].
Definition update_wire : list Z :=
  [0;0;3;0xE8; 0;0;0;100; 0;0;0;34; 0x22;0x22; 0;0;0;28] ++ item_wire 1 ++ item_wire 7 ++
  [0;0;0;16; 0x33;0x33] ++ item_wire 1.
Definition read_update : option (Z * Z) * @policy set_icl :=
  match @parse_policy set_icl (λ _, (0, 0)) (@policy_new set_icl) (Reader update_wire (Z.of_nat (length update_wire))) with
  | Ret (x, _) => x
  | _ => (None, @policy_new set_icl)
  end.
Definition user_policy (what : bool) : @policy set_icl :=
  @Policy set_icl {[(1000, 100)]} true {[(0x1111, (1, 5))]} ∅ what.
(** The policy [p] is installed, the one that was read has the key 2. *)
Definition installed (p : @policy set_icl) : @security set_icl :=
  @Security set_icl {[1 := p; 2 := read_update.2]} [1] ∅ ∅ true true true true true {[0x2222]} {[1000]} (0, 0) true.

Lemma read_update_parsed :
  @parse_policy set_icl (λ _, (0, 0)) (@policy_new set_icl) (Reader update_wire (Z.of_nat (length update_wire))) =
  Ret ((Some (1000, 100), read_update.2), Reader [] 0).
Proof.
  unfold read_update.
  assert (match @parse_policy set_icl (λ _, (0, 0)) (@policy_new set_icl)
      (Reader update_wire (Z.of_nat (length update_wire))) with
    | Ret ((c, _), r) => Some (c, r) | _ => None end = Some (Some (1000, 100), Reader [] 0)) as E by (vm_compute; reflexivity).
  destruct (parse_policy _ _ _) as [[[c p] r]| | |]; [|discriminate..]. by injection E as -> ->.
Qed.

Lemma installed_update p : @update_for set_icl set_icl_find 1000 100 2 (installed p).
Proof. apply (parsed_update_for _ _ _ _ _ _ _ _ read_update_parsed); [reflexivity|set_solver]. Qed.

Lemma policy_update_grants_witness :
  ∃ s', @update_security_policy set_icl (Z.to_nat 0x10000) 1000 100 2 (installed (user_policy true)) = Ret s' ∧
    @is_client_allowed set_icl set_icl_find 1000 100 0x2222 1 7 false (installed (user_policy true)) = false ∧
    @is_client_allowed set_icl set_icl_find 1000 100 0x2222 1 7 false s' = true ∧
    @is_offer_allowed set_icl set_icl_find 1000 100 0x3333 1 s' = true ∧
    @is_client_allowed set_icl set_icl_find 1001 100 0x2222 1 7 false s' = false.
Proof.
  destruct (@policy_update_grants set_icl set_icl_find set_icl_laws (Z.to_nat 0x10000) 1000 100 2
    (installed (user_policy true)) (installed_update _)) as (s'&E&Hc&Ho).
  - intros t Ht _ _. apply list_elem_of_singleton in Ht as ->. done.
  - done.
  - exists s'. split; [exact E|]. clear E. split; [by vm_compute|]. split; [|split].
    + apply Hc. right. split; [by split|]. split; [done|]. exists 7. split; [by right|by vm_compute].
    + apply Ho. right. split; [by split|]. split; [done|by vm_compute].
    + apply not_true_iff_false. intros Ha. apply Hc in Ha. destruct Ha as [Ha|(_&[Hu _]&_)]; [by vm_compute in Ha|done].
Defined.

(** An update for a user whose installed policy lists denials adds to the denials: what
    the update means to allow is denied from then on. *)
Example update_extends_denials :
  @is_client_allowed set_icl set_icl_find 1000 100 0x2222 1 7 false (installed (user_policy false)) = true ∧
  (λ o, match o with Ret s' => Some (@is_client_allowed set_icl set_icl_find 1000 100 0x2222 1 7 false s') | _ => None end)
    (@update_security_policy set_icl (Z.to_nat 0x10000) 1000 100 2 (installed (user_policy false))) = Some false.
Proof. by vm_compute. Qed.

Lemma policy_removal_revokes_witness :
  (@remove_security_policy set_icl set_icl_find 1000 100 (installed (user_policy true))).1 = true ∧
  @is_client_allowed set_icl set_icl_find 1000 100 0x1111 1 5 false
    (@remove_security_policy set_icl set_icl_find 1000 100 (installed (user_policy true))).2 = false ∧
  ∃ s', @update_security_policy set_icl (Z.to_nat 0x10000) 1000 100 2 (installed (@policy_new set_icl)) = Ret s' ∧
    @remove_security_policy set_icl set_icl_find 1000 100 s' = (true, installed (@policy_new set_icl)).
Proof.
  destruct (@policy_removal_revokes set_icl set_icl_find set_icl_laws (Z.to_nat 0x10000) 1000 100 2
    (installed (user_policy true))) as (Hr&Hc&_).
  split; [|split].
  - apply Hr. exists (user_policy true). split; [by left|]. by vm_compute.
  - apply not_true_iff_false. rewrite Hc. intros [[Hl|Hl]|(_&p&Hp&Hn&_)]; [by vm_compute in Hl..|].
    apply list_elem_of_singleton in Hp as ->. apply Hn. by vm_compute.
  - apply (@policy_removal_revokes set_icl set_icl_find set_icl_laws (Z.to_nat 0x10000) 1000 100 2
      (installed (@policy_new set_icl))); [apply installed_update|].
    intros p Hp Hw. apply list_elem_of_singleton in Hp as ->. by vm_compute in Hw.
Defined.

Lemma client_mappings_consistent_witness :
  @mapped set_icl (foldl (@run_mapping set_icl set_icl_find) (installed (user_policy true))
    [CheckCredentials 0x10 1000 100; StoreMapping 0x10 1001 100; RemoveMapping 0x11]) ∧
  @get_clients set_icl 1001 100 (foldl (@run_mapping set_icl set_icl_find) (installed (user_policy true))
    [CheckCredentials 0x10 1000 100; StoreMapping 0x10 1001 100; RemoveMapping 0x11]) = {[0x10]}.
Proof.
  split; [|by vm_compute].
  apply (@client_mappings_consistent set_icl set_icl_find set_icl_laws (installed (user_policy true))
    [CheckCredentials 0x10 1000 100; StoreMapping 0x10 1001 100; RemoveMapping 0x11] 0x10 1001 100).
  split; by intros.
Defined.

(** A client that changes its user stays among the clients of the first one, also after
    it was removed. *)
Example changed_user_stays :
  @get_uid_gid_to_client_mapping set_icl (1000, 100)
    (foldl (@run_mapping set_icl set_icl_find) (installed (user_policy true))
      [CheckCredentials 0x10 1000 100; StoreMapping 0x10 1001 100; RemoveMapping 0x10]) = Some {[0x10]}.
Proof. by vm_compute. Qed.

Lemma policy_update_allowed_spec_witness :
  @is_policy_update_allowed set_icl set_icl_find (Z.to_nat 0x10000) 1000 read_update.2
    (installed (user_policy true)) = Ret true.
Proof.
  destruct (@policy_update_allowed_spec set_icl set_icl_find set_icl_laws (Z.to_nat 0x10000) 1000 read_update.2
    (installed (user_policy true))) as (b&E&Hb).
  - apply (installed_update (user_policy true)).
  - intros j m k Hj Hk. assert ((j, m) = (closed 0x2222 0x2222, {[(1, 7)]})) as [= -> ->].
    { apply list_elem_of_singleton. exact Hj. }
    cbn in Hk. assert (k = 0x2222) as -> by lia. exists 1, 7. by vm_compute.
  - done.
  - rewrite E. f_equal. apply Hb. right. split; [by vm_compute|].
    intros k i v Hk. rewrite set_rmap_has, bool_decide_eq_true in Hk.
    assert ((requests_ read_update.2 : gset (Z * (Z * Z))) = {[(0x2222, (1, 7))]}) as Er by (vm_compute; reflexivity).
    rewrite Er in Hk. apply elem_of_singleton in Hk as [= -> -> ->]. by vm_compute.
Defined.

(** Policy 2 offers instance 5 of service 0x3333, policy 1 requests one method of one
    instance of it. *)
Definition offering (inst m : Z) : @security set_icl :=
  @Security set_icl
    {[1 := @Policy set_icl {[(1000, 100)]} true {[(0x3333, (inst, m))]} ∅ true;
      2 := @Policy set_icl {[(1001, 100)]} true ∅ {[(0x3333, 5)]} true]}
    [1; 2] ∅ ∅ true true true true true ∅ ∅ (0, 0) true.

Lemma requester_policies_confuse_methods_witness :
  ∃ p, p ∈ @get_requester_policies set_icl set_icl_find 2 (offering 7 5) ∧
    @rmap_has set_icl set_icl_find 0x3333 5 5 (requests_ p) = true.
Proof.
  apply (@requester_policies_confuse_methods set_icl set_icl_find set_icl_laws 2 (offering 7 5) 0x3333 5 5).
  - unfold map16, set16, typed16. refine (proj1 (bool_decide_eq_true _) _). by vm_compute.
  - intros q' Hq'. unfold requests16, map16, set16, typed16.
    apply elem_of_cons in Hq' as [->|Hq']; [|apply list_elem_of_singleton in Hq' as ->];
      refine (proj1 (bool_decide_eq_true _) _); by vm_compute.
  - split; [by vm_compute|]. exists 1, (closed 0x3333 0x3333), {[(7, 5)]}, (closed 7 7), {[5]}.
    split; [by left|]. split; [done|]. split; [by vm_compute; left|]. split; [by apply point_closed|].
    split; [by vm_compute; left|]. by vm_compute.
Defined.

(** A client that requests what is offered is not listed, unless the number of the method
    is the one of the instance. *)
Example requested_instance_not_listed :
  @rmap_has set_icl set_icl_find 0x3333 5 0x20
    (requests_ (deref (offering 5 0x20) 1)) = true ∧
  @get_requester_policies set_icl set_icl_find 2 (offering 5 0x20) = [].
Proof. by vm_compute. Qed.
