(* ===== verification/SecurityConfig.v ===== *)
(** The configuration of security: [load] of [security/src/security_impl.cpp].

    The configuration file is a tree of Boost.PropertyTree, which is not part of the
    sources: the class [PTree] has what the code uses of it, the text of a node, its
    children in order and the look-up of a child.  A variable is an [outcome]: [Undef] while
    it is uninitialised. *)
From Stdlib Require Import Ascii.
From stdpp Require Import strings pretty.
From S2P Require Import Prelude ByteOrder ConfigValues Policy Security.
#[local] Open Scope Z_scope.

(** [data()], the children, and [get_child_optional] for a key without a dot. *)
Class PTree : Type := {
  ptree : Type;
  pt_data : ptree → string;
  pt_children : ptree → list (string * ptree);
  get_child : string → ptree → option ptree
}.

(** [read_data]: blank text leaves the variable as it is. *)
Definition is_hex (s : string) : bool :=
  match s with
  | String "0"%char (String c (String _ _)) => bool_decide (c = "x"%char) || bool_decide (c = "X"%char)
  | _ => false
  end.
Definition read_data (w : Z) (_in : string) (_out : outcome Z) : outcome Z :=
  match skip_space _in with
  | EmptyString => _out
  | _ => extract_unsigned w (is_hex _in) _in
  end.

Definition is_text (s1 s2 : string) : bool := bool_decide (s1 = s2).

(** A loop over the children of a node. *)
Fixpoint for_children {T A} (f : string → T → A → outcome A) (l : list (string * T)) (acc : A) : outcome A :=
  match l with
  | [] => Ret acc
  | (k, t) :: l => acc ← f k t acc; for_children f l acc
  end.

Section config.
  Context `{IclFind} `{PTree}.

(** ** Sets of identifiers *)

(** A range: [its_first] and [its_last], [None] if there is no such key. *)
Definition read_range (w : Z) (its_min its_max : Z) (t : ptree) :
    outcome (option (outcome Z) * option (outcome Z)) :=
  for_children (λ its_key j '(its_first, its_last),
    if is_text its_key "first" then
      Ret (Some (if is_text (pt_data j) "min" then Ret its_min
                 else read_data w (pt_data j) (default Undef its_first)), its_last)
    else if is_text its_key "last" then
      Ret (its_first, Some (if is_text (pt_data j) "max" then Ret its_max
                 else read_data w (pt_data j) (default Undef its_last)))
    else Ret (its_first, its_last)) (pt_children t) (None, None).

Definition load_interval_item (w its_min its_max : Z) (its_data : ptree) (its_intervals : iset) : outcome iset :=
  if negb (is_text (pt_data its_data) "") then
    its_id ← read_data w (pt_data its_data) Undef;
    Ret (if bool_decide (its_min ≤ its_id) && bool_decide (its_id ≤ its_max)
         then iset_insert (closed its_id its_id) its_intervals else its_intervals)
  else
    r ← read_range w its_min its_max its_data;
    match r with
    | (Some its_first, Some its_last) =>
        f ← its_first; l ← its_last;
        Ret (if bool_decide (f ≤ l) then iset_insert (closed f l) its_intervals else its_intervals)
    | _ => Ret its_intervals
    end.

(** [w] is the width of the element type.  No caller excludes the margins. *)
Definition load_interval_set (w : Z) (_tree : ptree) : outcome iset :=
  let its_min := 0 in
  let its_max := 2 ^ w - 1 in
  if is_text (pt_data _tree) "any" then Ret (iset_insert (closed its_min its_max) iset_empty)
  else for_children (λ _ i its_intervals, load_interval_item w its_min its_max i its_intervals)
         (pt_children _tree) iset_empty.

(** ** Credentials *)

(** [for (const auto i : set) map += std::make_pair(i, values)]. *)
Definition add_all (s : iset) (vs : iset) (m : imap) : imap :=
  foldl (λ m i, imap_add i vs m) m (iset_intervals s).

Definition load_credential (_tree : ptree) (_credentials : imap) : outcome imap :=
  for_children (λ _ i creds,
    '(us, gs) ← for_children (λ its_key j '(us, gs),
      if is_text its_key "uid" then us ← load_interval_set 32 j; Ret (us, gs)
      else if is_text its_key "gid" then gs ← load_interval_set 32 j; Ret (us, gs)
      else Ret (us, gs)) (pt_children i) (iset_empty, iset_empty);
    Ret (add_all us gs creds)) (pt_children _tree) _credentials.

(** The local variables of the credentials of a policy; an interval is [Some] if
    [has_uid] or [has_gid]. *)
Record credential_vars : Type := CredentialVars {
  its_uid_interval_set : iset;
  its_gid_interval_set : iset;
  its_uid_interval : option interval;
  its_gid_interval : option interval;
  has_uid_range : bool;
  has_gid_range : bool
}.

Definition read_id_interval (its_value : string) : outcome interval :=
  if negb (is_text its_value "any") then
    v ← read_data 32 its_value Undef; Ret (closed v v)
  else Ret (closed 0 (2 ^ 32 - 1)).

Definition with_credentials (m : imap) (who : bool) (p : policy) : policy :=
  Policy m who (requests_ p) (offers_ p) (allow_what_ p).

Definition load_credential_key (its_key : string) (n : ptree) (x : credential_vars * policy) :
    outcome (credential_vars * policy) :=
  let '(v, p) := x in
  if is_text its_key "uid" then
    if is_text (pt_data n) "" then
      us ← load_interval_set 32 n;
      Ret (CredentialVars us (its_gid_interval_set v) (its_uid_interval v) (its_gid_interval v) true (has_gid_range v), p)
    else
      i ← read_id_interval (pt_data n);
      Ret (CredentialVars (its_uid_interval_set v) (its_gid_interval_set v) (Some i) (its_gid_interval v)
             (has_uid_range v) (has_gid_range v), p)
  else if is_text its_key "gid" then
    if is_text (pt_data n) "" then
      gs ← load_interval_set 32 n;
      Ret (CredentialVars (its_uid_interval_set v) gs (its_uid_interval v) (its_gid_interval v) (has_uid_range v) true, p)
    else
      i ← read_id_interval (pt_data n);
      Ret (CredentialVars (its_uid_interval_set v) (its_gid_interval_set v) (its_uid_interval v) (Some i)
             (has_uid_range v) (has_gid_range v), p)
  else if is_text its_key "allow" || is_text its_key "deny" then
    creds ← load_credential n (credentials_ p);
    Ret (v, with_credentials creds (is_text its_key "allow") p)
  else Ret (v, p).

Definition load_credentials (_tree : ptree) (p : policy) : outcome policy :=
  '(v, p) ← for_children load_credential_key (pt_children _tree)
    (CredentialVars iset_empty iset_empty None None false false, p);
  let '(gs, p) :=
    match its_uid_interval v, its_gid_interval v with
    | Some u, Some g =>
        let gs := iset_insert g (its_gid_interval_set v) in
        (gs, with_credentials (imap_add u gs (credentials_ p)) true p)
    | _, _ => (its_gid_interval_set v, p)
    end in
  Ret (if has_uid_range v && has_gid_range v
       then with_credentials (add_all (its_uid_interval_set v) gs (credentials_ p)) true p
       else p).

(** ** Requests and offers *)

Definition is_nil {A} (l : list A) : bool := match l with [] => true | _ => false end.

Definition all_ids : interval := closed 0x01 0xFFFF.
Definition all_methods : iset := iset_insert all_ids iset_empty.

(** The legacy definition of one instance: the variable [its_instance] and the set of
    instances. *)
Definition load_instance (its_value : string) (any : interval) (its_instance : Z) (s : iset) : outcome (Z * iset) :=
  if negb (is_text its_value "any") then
    its_instance ← read_data 16 its_value (Ret its_instance);
    Ret (its_instance,
         if bool_decide (its_instance ≠ 0) then iset_insert (closed its_instance its_instance) s else s)
  else Ret (its_instance, iset_insert any s).

(** One item of the new definition of instances. *)
Definition load_instances_item (p : ptree) (m : imap) : outcome imap :=
  '(ids, ms) ← for_children (λ its_key t '(ids, ms),
    if is_text its_key "ids" then ids ← load_interval_set 16 t; Ret (ids, ms)
    else if is_text its_key "methods" then ms ← load_interval_set 16 t; Ret (ids, ms)
    else Ret (ids, ms)) (pt_children p) (iset_empty, iset_empty);
  let ms := if is_nil (iset_intervals ms) then iset_insert all_ids ms else ms in
  Ret (add_all ids ms m).

Definition load_request_key (its_key : string) (k : ptree) (x : Z * Z * imap) : outcome (Z * Z * imap) :=
  let '(its_service, its_instance, m) := x in
  if is_text its_key "service" then
    its_service ← read_data 16 (pt_data k) (Ret its_service); Ret (its_service, its_instance, m)
  else if is_text its_key "instance" then
    '(its_instance, s) ← load_instance (pt_data k) all_ids its_instance iset_empty;
    Ret (its_service, its_instance, add_all s all_methods m)
  else if is_text its_key "instances" then
    m ← for_children (λ _ p m, load_instances_item p m) (pt_children k) m;
    if is_nil (imap_segments m) then
      s ← load_interval_set 16 k;
      Ret (its_service, its_instance, add_all s all_methods m)
    else Ret (its_service, its_instance, m)
  else Ret (its_service, its_instance, m).

Definition load_request (n : ptree) (p : policy) : outcome policy :=
  '(its_service, _, m) ← for_children load_request_key (pt_children n) (0, 0, imap_empty);
  Ret (if bool_decide (its_service ≠ 0) && negb (is_nil (imap_segments m)) then add_request (its_service, m) p else p).

Definition load_offer_key (its_key : string) (k : ptree) (x : Z * Z * iset) : outcome (Z * Z * iset) :=
  let '(its_service, its_instance, s) := x in
  if is_text its_key "service" then
    its_service ← read_data 16 (pt_data k) (Ret its_service); Ret (its_service, its_instance, s)
  else if is_text its_key "instance" then
    '(its_instance, s) ← load_instance (pt_data k) (Interval 0x0001 0xFFFF false true) its_instance s;
    Ret (its_service, its_instance, s)
  else if is_text its_key "instances" then
    s ← load_interval_set 16 k; Ret (its_service, its_instance, s)
  else Ret (its_service, its_instance, s).

Definition load_offer (n : ptree) (p : policy) : outcome policy :=
  '(its_service, _, s) ← for_children load_offer_key (pt_children n) (0, 0, iset_empty);
  Ret (if bool_decide (its_service ≠ 0) && negb (is_nil (iset_intervals s)) then add_offer (its_service, s) p else p).

Definition load_policy_body (_tree : ptree) (p : policy) : outcome policy :=
  for_children (λ its_key l p,
    if is_text its_key "requests" then for_children (λ _ n p, load_request n p) (pt_children l) p
    else if is_text its_key "offers" then for_children (λ _ n p, load_offer n p) (pt_children l) p
    else Ret p) (pt_children _tree) p.

(** ** Policies *)

Definition set_what (b : bool) (p : policy) : policy :=
  Policy (credentials_ p) (allow_who_ p) (requests_ p) (offers_ p) b.

Definition load_policy_key (its_key : string) (i : ptree) (p : policy) : outcome policy :=
  if is_text its_key "credentials" then load_credentials i p
  else if is_text its_key "allow" then load_policy_body i (set_what true p)
  else if is_text its_key "deny" then load_policy_body i (set_what false p)
  else Ret p.

Definition read_policy (_tree : ptree) : outcome policy :=
  for_children load_policy_key (pt_children _tree) policy_new.

(** The key of a new object. *)
Definition new_key (s : security) : Z := fresh (dom (policies s) ∪ list_to_set (any_client_policies_ s)).

Definition load_policy (_tree : ptree) (s : security) : outcome security :=
  p ← read_policy _tree;
  let q := new_key s in
  Ret (set_policies (<[q := p]> (policies s)) (any_client_policies_ s ++ [q]) s).

Definition set_flags (enabled check remote : bool) (s : security) : security :=
  Security (policies s) (any_client_policies_ s) (ids_ s) (uid_to_clients_ s) enabled check
    (check_routing_credentials_ s) remote (check_whitelist_ s)
    (service_interface_whitelist_ s) (uid_whitelist_ s) (routing_credentials_ s) (is_configured_ s).
Definition set_whitelists (check : bool) (services uids : iset) (s : security) : security :=
  Security (policies s) (any_client_policies_ s) (ids_ s) (uid_to_clients_ s) (policy_enabled_ s) (check_credentials_ s)
    (check_routing_credentials_ s) (allow_remote_clients_ s) check services uids (routing_credentials_ s) (is_configured_ s).
Definition set_routing (check : bool) (x : Z * Z) (configured : bool) (s : security) : security :=
  Security (policies s) (any_client_policies_ s) (ids_ s) (uid_to_clients_ s) (policy_enabled_ s) (check_credentials_ s)
    check (allow_remote_clients_ s) (check_whitelist_ s)
    (service_interface_whitelist_ s) (uid_whitelist_ s) x configured.

Definition load_security_key (its_key : string) (t : ptree) (s : security) : outcome security :=
  if is_text its_key "check_credentials" then
    Ret (set_flags (policy_enabled_ s) (is_text (pt_data t) "true") (allow_remote_clients_ s) s)
  else if is_text its_key "allow_remote_clients" then
    Ret (set_flags (policy_enabled_ s) (check_credentials_ s) (is_text (pt_data t) "true") s)
  else if is_text its_key "policies" then
    for_children (λ _ its_policy s, load_policy its_policy s) (pt_children t) s
  else Ret s.

Definition load_policies (_element : ptree) (s : security) : outcome security :=
  match get_child "security" _element with
  | Some found_policy =>
      for_children load_security_key (pt_children found_policy)
        (set_flags true (check_credentials_ s) (allow_remote_clients_ s) s)
  | None => Ret s
  end.

Definition load_whitelist_key (its_key : string) (t : ptree) (s : security) : outcome security :=
  if is_text its_key "uids" then
    us ← load_interval_set 32 t;
    Ret (set_whitelists (check_whitelist_ s) (service_interface_whitelist_ s) us s)
  else if is_text its_key "services" then
    ss ← load_interval_set 16 t; Ret (set_whitelists (check_whitelist_ s) ss (uid_whitelist_ s) s)
  else if is_text its_key "check-whitelist" then
    Ret (set_whitelists (is_text (pt_data t) "true") (service_interface_whitelist_ s) (uid_whitelist_ s) s)
  else Ret s.

Definition load_security_update_whitelist (_element : ptree) (s : security) : outcome security :=
  match get_child "security-update-whitelist" _element with
  | Some found_whitelist => for_children load_whitelist_key (pt_children found_whitelist) s
  | None => Ret s
  end.

Definition load_routing_key (its_key : string) (t : ptree) (s : security) : outcome security :=
  if is_text its_key "uid" then
    u ← read_data 32 (pt_data t) (Ret 0);
    Ret (set_routing (check_routing_credentials_ s) (u, (routing_credentials_ s).2) (is_configured_ s) s)
  else if is_text its_key "gid" then
    g ← read_data 32 (pt_data t) (Ret 0);
    Ret (set_routing (check_routing_credentials_ s) ((routing_credentials_ s).1, g) (is_configured_ s) s)
  else Ret s.

(** A missing node raises an exception that is caught. *)
Definition load_routing_credentials (_element : ptree) (s : security) : outcome (bool * security) :=
  match get_child "routing-credentials" _element with
  | None => Ret (false, s)
  | Some its_routing_cred =>
      if is_configured_ s then Ret (true, s)
      else
        s ← for_children load_routing_key (pt_children its_routing_cred) s;
        Ret (true, set_routing true (routing_credentials_ s) true s)
  end.

Definition load (_element : ptree) (s : security) : outcome security :=
  s ← load_policies _element s;
  s ← load_security_update_whitelist _element s;
  '(_, s) ← load_routing_credentials _element s;
  Ret s.
End config.

(** ** What a configuration means

    Descriptions of sets of identifiers and of policies, and which trees spell them. *)
Inductive item : Type := Id (n : Z) | Range (a b : Z).
Inductive id_set : Type := Any | Items (l : list item).

Definition covers (x : Z) (i : item) : Prop :=
  match i with Id n => x = n | Range a b => a ≤ x ≤ b end.
Definition in_set (w : Z) (d : id_set) (x : Z) : Prop :=
  match d with Any => 0 ≤ x < 2 ^ w | Items l => ∃ i, i ∈ l ∧ covers x i end.

(** [s] is the text of the number [n]. *)
Definition number (w : Z) (s : string) (n : Z) : Prop :=
  s ≠ "" ∧ 0 ≤ n < 2 ^ w ∧ ∀ out, read_data w s out = Ret n.

Lemma number_pretty w (n : N) : 0 ≤ w → Z.of_N n < 2 ^ w → number w (pretty n) (Z.of_N n).
Proof.
  intros Hw Hn. pose proof (extract_pretty w n Hw Hn) as He. destruct (pretty_shape n) as (c&s&Es&Hc&Hz).
  rewrite Es in *. split; [done|]. split; [lia|]. intros out. unfold read_data. cbn [skip_space]. rewrite Hc.
  assert (is_hex (String c s) = false) as Hh; [|by rewrite Hh].
  clear -Hz. unfold is_hex. destruct c as [[] [] [] [] [] [] [] []]; try done. by rewrite Hz.
Qed.

Section meaning.
  Context `{IclFindLaws} `{PTree}.

Definition spells_item (w : Z) (t : ptree) (i : item) : Prop :=
  match i with
  | Id n => number w (pt_data t) n
  | Range a b => pt_data t = "" ∧ ∃ f l, pt_children t = [("first", f); ("last", l)] ∧
      ((pt_data f = "min" ∧ a = 0) ∨ (pt_data f ≠ "min" ∧ number w (pt_data f) a)) ∧
      ((pt_data l = "max" ∧ b = 2 ^ w - 1) ∨ (pt_data l ≠ "max" ∧ number w (pt_data l) b))
  end.

Definition spells_set (w : Z) (t : ptree) (d : id_set) : Prop :=
  match d with
  | Any => pt_data t = "any"
  | Items l => pt_data t ≠ "any" ∧ Forall2 (λ x i, spells_item w x.2 i) (pt_children t) l
  end.

Lemma is_text_spec s1 s2 : is_text s1 s2 = true ↔ s1 = s2.
Proof. apply bool_decide_eq_true. Qed.
Lemma is_text_refl s : is_text s s = true.
Proof. by apply is_text_spec. Qed.
Lemma is_text_ne s1 s2 : s1 ≠ s2 → is_text s1 s2 = false.
Proof. apply bool_decide_eq_false. Qed.

Lemma elem_closed (a b x : Z) : x ∈ closed a b ↔ a ≤ x ≤ b.
Proof. done. Qed.

Lemma read_range_spec w mn mx t f l : pt_children t = [("first", f); ("last", l)] →
  read_range w mn mx t = Ret (Some (if is_text (pt_data f) "min" then Ret mn else read_data w (pt_data f) Undef),
                              Some (if is_text (pt_data l) "max" then Ret mx else read_data w (pt_data l) Undef)).
Proof. intros E. unfold read_range. by rewrite E. Qed.

Lemma load_interval_item_spec w t i s : spells_item w t i →
  ∃ s', load_interval_item w 0 (2 ^ w - 1) t s = Ret s' ∧
    ∀ x, iset_find x s' = true ↔ iset_find x s = true ∨ covers x i.
Proof.
  unfold load_interval_item. destruct i as [n|a b]; cbn [spells_item covers].
  - intros (Hne&Hn&Hr). rewrite (is_text_ne _ _ Hne), Hr. cbn [negb]. rewrite outcome_bind_Ret.
    rewrite !bool_decide_true by lia. cbn [andb]. eexists. split; [done|]. intros x.
    rewrite iset_find_insert, orb_true_iff, bool_decide_eq_true, elem_closed. split; intros []; [right|by left|by right|left]; lia.
  - intros (->&f&l&Ec&Hf&Hl). rewrite is_text_refl. cbn [negb].
    rewrite (read_range_spec _ _ _ _ _ _ Ec), outcome_bind_Ret.
    assert ((if is_text (pt_data f) "min" then Ret 0 else read_data w (pt_data f) Undef) = Ret a) as ->.
    { destruct Hf as [[-> ->]|[Hne (_&_&Hr)]]; [done|]. by rewrite (is_text_ne _ _ Hne), Hr. }
    assert ((if is_text (pt_data l) "max" then Ret (2 ^ w - 1) else read_data w (pt_data l) Undef) = Ret b) as ->.
    { destruct Hl as [[-> ->]|[Hne (_&_&Hr)]]; [done|]. by rewrite (is_text_ne _ _ Hne), Hr. }
    rewrite !outcome_bind_Ret. eexists. split; [done|]. intros x. case_bool_decide.
    + rewrite iset_find_insert, orb_true_iff, bool_decide_eq_true, elem_closed. tauto.
    + split; [by left|]. intros [?|?]; [done|lia].
Qed.

(** A loop over children that spell the elements of a list, each of which adds what it
    means, and leaves something the same. *)
Lemma for_children_spec {A D X} (f : string → ptree → A → outcome A) (spells : string * ptree → D → Prop)
    (has : X → A → Prop) (means : X → D → Prop) (same : relation A) `{!PreOrder same} l ds acc :
  (∀ k t d acc, spells (k, t) d → ∃ acc', f k t acc = Ret acc' ∧ same acc acc' ∧
     ∀ x, has x acc' ↔ has x acc ∨ means x d) →
  Forall2 spells l ds →
  ∃ acc', for_children f l acc = Ret acc' ∧ same acc acc' ∧
    ∀ x, has x acc' ↔ has x acc ∨ ∃ d, d ∈ ds ∧ means x d.
Proof.
  intros Hf Hl. revert acc. induction Hl as [|[k t] d l ds Hd _ IH]; intros acc; cbn [for_children].
  { exists acc. split_and!; [done|reflexivity|]. set_solver. }
  destruct (Hf k t d acc Hd) as (acc1&->&Hs1&H1'). rewrite outcome_bind_Ret.
  destruct (IH acc1) as (acc2&->&Hs2&H2'). exists acc2. split; [done|]. split; [by etrans|].
  intros x. rewrite H2', H1'. setoid_rewrite elem_of_cons. naive_solver.
Qed.

#[local] Instance anything_preorder {A} : PreOrder (λ _ _ : A, True).
Proof. by split. Qed.

Lemma load_interval_set_spec w t d : spells_set w t d →
  ∃ s, load_interval_set w t = Ret s ∧ ∀ x, iset_find x s = true ↔ in_set w d x.
Proof.
  unfold load_interval_set. destruct d as [|l]; cbn [spells_set in_set].
  - intros ->. rewrite is_text_refl. eexists. split; [done|]. intros x.
    rewrite iset_find_insert, iset_find_empty, orb_false_r, bool_decide_eq_true, elem_closed. lia.
  - intros [Hne Hl]. rewrite (is_text_ne _ _ Hne).
    destruct (for_children_spec (λ _ i, load_interval_item w 0 (2 ^ w - 1) i) (λ x i, spells_item w x.2 i)
      (λ x s, iset_find x s = true) covers (λ _ _, True) (pt_children t) l iset_empty) as (s&Es&_&Hs); [|done|].
    + intros k i d s Hi. destruct (load_interval_item_spec w i d s Hi) as (s'&?&?). by exists s'.
    + exists s. split; [done|]. intros x. rewrite Hs, iset_find_empty. naive_solver.
Qed.

(** ** Credentials *)

Lemma add_all_has s vs m k v : imap_has k v (add_all s vs m) = true ↔
  imap_has k v m = true ∨ (iset_find k s = true ∧ iset_find v vs = true).
Proof.
  unfold add_all. rewrite (foldl_has (λ m, imap_has k v m = true) (λ i : interval, k ∈ i ∧ iset_find v vs = true)).
  - rewrite (iset_find_intervals k s). split; (intros [?|Hx]; [by left|right]).
    + destruct Hx as (i&?&?&?). by eauto.
    + destruct Hx as ((i&?&?)&?). by eauto.
  - intros acc i _. rewrite imap_has_add, orb_true_iff, andb_true_iff, bool_decide_eq_true. tauto.
Qed.

Definition spells_credential (x : string * ptree) (d : id_set * id_set) : Prop :=
  ∃ u g, pt_children x.2 = [("uid", u); ("gid", g)] ∧ spells_set 32 u d.1 ∧ spells_set 32 g d.2.
Definition pair_in (w : Z) (x : Z * Z) (d : id_set * id_set) : Prop := in_set w d.1 x.1 ∧ in_set w d.2 x.2.

Lemma load_credential_spec t ds m : Forall2 spells_credential (pt_children t) ds →
  ∃ m', load_credential t m = Ret m' ∧
    ∀ k v, imap_has k v m' = true ↔ imap_has k v m = true ∨ ∃ d, d ∈ ds ∧ pair_in 32 (k, v) d.
Proof.
  intros Hl. unfold load_credential.
  match goal with |- context [for_children ?f _ _] => destruct (for_children_spec f spells_credential
    (λ x m, imap_has x.1 x.2 m = true) (pair_in 32) (λ _ _, True) (pt_children t) ds m) as (m'&E&_&Hm'); [|done|] end.
  - intros k i [us gs] acc (u&g&Ec&Hu&Hg). cbn [snd] in Ec. rewrite Ec. cbn [for_children].
    rewrite is_text_refl. destruct (load_interval_set_spec _ _ _ Hu) as (s1&E1&H1').
    destruct (load_interval_set_spec _ _ _ Hg) as (s2&E2&H2').
    rewrite (is_text_ne "gid" "uid"), (is_text_ne "uid" "gid"), is_text_refl by done.
    rewrite E1, !outcome_bind_Ret, E2, !outcome_bind_Ret. eexists. split; [done|]. split; [done|].
    intros [k' v]. cbn [fst snd]. unfold pair_in. cbn [fst snd]. by rewrite add_all_has, H1', H2'.
  - exists m'. split; [done|]. intros k v. apply (Hm' (k, v)).
Qed.

(** ** Requests and offers *)

Definition spells_instances (x : string * ptree) (d : id_set * id_set) : Prop :=
  (∃ a b, pt_children x.2 = [("ids", a); ("methods", b)] ∧ spells_set 16 a d.1 ∧ spells_set 16 b d.2) ∧
  (∃ i, in_set 16 d.1 i) ∧ (∃ m, in_set 16 d.2 m).

Lemma not_nil_find s x : iset_find x s = true → is_nil (iset_intervals s) = false.
Proof.
  rewrite iset_find_intervals. intros (i&Hi&_). destruct (iset_intervals s); [by apply not_elem_of_nil in Hi|done].
Qed.

Lemma not_nil_has m k v : imap_has k v m = true → is_nil (imap_segments m) = false.
Proof.
  rewrite imap_has_segments. intros (i&s&Hi&_). destruct (imap_segments m); [by apply not_elem_of_nil in Hi|done].
Qed.

Lemma load_instances_item_spec k t d m : spells_instances (k, t) d →
  ∃ m', load_instances_item t m = Ret m' ∧ True ∧
    ∀ x : Z * Z, imap_has x.1 x.2 m' = true ↔ imap_has x.1 x.2 m = true ∨ pair_in 16 x d.
Proof.
  intros ((a&b&Ec&Ha&Hb)&_&[mth Hmth]). cbn [snd] in Ec. unfold load_instances_item. rewrite Ec. cbn [for_children].
  destruct (load_interval_set_spec _ _ _ Ha) as (s1&E1&H1'). destruct (load_interval_set_spec _ _ _ Hb) as (s2&E2&H2').
  rewrite (is_text_ne "methods" "ids"), !is_text_refl by done.
  rewrite E1, !outcome_bind_Ret, E2, !outcome_bind_Ret. rewrite (not_nil_find s2 mth) by (by apply H2').
  eexists. split; [done|]. split; [done|]. intros [i v]. cbn [fst snd]. unfold pair_in. cbn [fst snd].
  by rewrite add_all_has, H1', H2'.
Qed.

Definition spells_request (x : string * ptree) (d : Z * list (id_set * id_set)) : Prop :=
  ∃ st it, pt_children x.2 = [("service", st); ("instances", it)] ∧ number 16 (pt_data st) d.1 ∧ d.1 ≠ 0 ∧
    d.2 ≠ [] ∧ Forall2 spells_instances (pt_children it) d.2.

(** A service, instance and method among the requests. *)
Definition in_request (x : Z * (Z * Z)) (d : Z * list (id_set * id_set)) : Prop :=
  x.1 = d.1 ∧ ∃ e, e ∈ d.2 ∧ pair_in 16 x.2 e.

Definition same_by {A B} (f : A → B) : relation A := λ x y, f x = f y.
#[local] Instance same_by_preorder {A B} (f : A → B) : PreOrder (same_by f).
Proof. split; [by intros ?|]. intros ? ? ? E1 E2. unfold same_by in *. by rewrite E1. Qed.
Definition but_requests (p : policy) := (credentials_ p, allow_who_ p, offers_ p, allow_what_ p).
Definition but_offers (p : policy) := (credentials_ p, allow_who_ p, requests_ p, allow_what_ p).

Lemma load_request_service st v i m n : number 16 (pt_data st) n →
  load_request_key "service" st (v, i, m) = Ret (n, i, m).
Proof. intros (_&_&Hn). unfold load_request_key. by rewrite is_text_refl, Hn. Qed.

Lemma load_request_instances t v i m : load_request_key "instances" t (v, i, m) =
  (m ← for_children (λ _ p m, load_instances_item p m) (pt_children t) m;
   if is_nil (imap_segments m) then s ← load_interval_set 16 t; Ret (v, i, add_all s all_methods m)
   else Ret (v, i, m)).
Proof. done. Qed.

Lemma load_request_spec k t d p : spells_request (k, t) d →
  ∃ p', load_request t p = Ret p' ∧ same_by but_requests p p' ∧
    ∀ x : Z * (Z * Z), rmap_has x.1 x.2.1 x.2.2 (requests_ p') = true ↔
      rmap_has x.1 x.2.1 x.2.2 (requests_ p) = true ∨ in_request x d.
Proof.
  intros (st&it&Ec&Hn&Hs0&Hne&Hl). cbn [snd] in Ec. unfold load_request. rewrite Ec. cbn [for_children].
  rewrite (load_request_service _ _ _ _ _ Hn), outcome_bind_Ret, load_request_instances.
  destruct (for_children_spec (λ _ p m, load_instances_item p m) spells_instances
    (λ x m, imap_has x.1 x.2 m = true) (pair_in 16) (λ _ _, True) (pt_children it) d.2 imap_empty) as (m&->&_&Hm); [|done|].
  { intros. by eapply load_instances_item_spec. }
  rewrite outcome_bind_Ret. destruct (d.2) as [|e es] eqn:Ed; [done|]. apply Forall2_cons_inv_r in Hl as (y&ys&Hy&_&_).
  destruct Hy as (_&[i Hi]&[v Hv]).
  assert (imap_has i v m = true) as Hiv by (apply (Hm (i, v)); right; exists e; split; [by left|done]).
  rewrite (not_nil_has _ _ _ Hiv), !outcome_bind_Ret. cbn [negb andb].
  rewrite (bool_decide_true (d.1 ≠ 0)), (not_nil_has _ _ _ Hiv) by done. cbn [negb andb].
  eexists. split; [done|]. split; [done|]. intros [svc [i' v']]. unfold in_request. rewrite Ed. cbn [fst snd add_request requests_].
  rewrite rmap_has_add, orb_true_iff, andb_true_iff, bool_decide_eq_true, point_closed.
  pose proof (Hm (i', v')) as Hm'. cbn [fst snd] in Hm'. rewrite imap_has_empty in Hm'. rewrite Hm'. naive_solver.
Qed.

Definition spells_offer (x : string * ptree) (d : Z * id_set) : Prop :=
  ∃ st it, pt_children x.2 = [("service", st); ("instances", it)] ∧ number 16 (pt_data st) d.1 ∧ d.1 ≠ 0 ∧
    spells_set 16 it d.2 ∧ ∃ i, in_set 16 d.2 i.
Definition in_offer (x : Z * Z) (d : Z * id_set) : Prop := x.1 = d.1 ∧ in_set 16 d.2 x.2.

Lemma load_offer_spec k t d p : spells_offer (k, t) d →
  ∃ p', load_offer t p = Ret p' ∧ same_by but_offers p p' ∧
    ∀ x : Z * Z, imap_has x.1 x.2 (offers_ p') = true ↔ imap_has x.1 x.2 (offers_ p) = true ∨ in_offer x d.
Proof.
  intros (st&it&Ec&(_&_&Hn)&Hs0&Hl&[i Hi]). cbn [snd] in Ec. unfold load_offer. rewrite Ec. cbn [for_children].
  assert (load_offer_key "service" st (0, 0, iset_empty) = Ret (d.1, 0, iset_empty)) as ->
    by (unfold load_offer_key; by rewrite is_text_refl, Hn).
  destruct (load_interval_set_spec _ _ _ Hl) as (s&Es&Hs). rewrite outcome_bind_Ret.
  assert (load_offer_key "instances" it (d.1, 0, iset_empty) = Ret (d.1, 0, s)) as ->
    by (unfold load_offer_key; by rewrite Es).
  rewrite !outcome_bind_Ret.
  rewrite (bool_decide_true (d.1 ≠ 0)), (not_nil_find s i) by (done || by apply Hs). cbn [negb andb].
  eexists. split; [done|]. split; [done|]. intros [svc inst]. unfold in_offer. cbn [fst snd add_offer offers_].
  rewrite imap_has_add, orb_true_iff, andb_true_iff, bool_decide_eq_true, point_closed, Hs. tauto.
Qed.

(** ** Policies *)

Record policy_text : Type := PolicyText {
  who_allow : bool;
  who : list (id_set * id_set);
  what_allow : bool;
  text_requests : list (Z * list (id_set * id_set));
  text_offers : list (Z * id_set)
}.

Definition allow_key (b : bool) : string := if b then "allow" else "deny".

Definition spells_policy (t : ptree) (d : policy_text) : Prop :=
  ∃ c w b r o, pt_children t = [("credentials", c); (allow_key (what_allow d), b)] ∧
    pt_children c = [(allow_key (who_allow d), w)] ∧ Forall2 spells_credential (pt_children w) (who d) ∧
    pt_children b = [("requests", r); ("offers", o)] ∧
    Forall2 spells_request (pt_children r) (text_requests d) ∧ Forall2 spells_offer (pt_children o) (text_offers d).

(** What the text means: who it is about, what it lists. *)
Definition text_user (u g : Z) (d : policy_text) : Prop := ∃ e, e ∈ who d ∧ pair_in 32 (u, g) e.
Definition text_request (svc inst m : Z) (d : policy_text) : Prop :=
  ∃ e, e ∈ text_requests d ∧ in_request (svc, (inst, m)) e.
Definition text_offer (svc inst : Z) (d : policy_text) : Prop := ∃ e, e ∈ text_offers d ∧ in_offer (svc, inst) e.

Lemma load_credentials_spec c w b ds p : pt_children c = [(allow_key b, w)] →
  Forall2 spells_credential (pt_children w) ds → credentials_ p = imap_empty →
  ∃ m, load_credentials c p = Ret (with_credentials m b p) ∧
    ∀ u g, imap_has u g m = true ↔ ∃ e, e ∈ ds ∧ pair_in 32 (u, g) e.
Proof.
  intros Ec Hl Hp. unfold load_credentials. rewrite Ec. cbn [for_children].
  destruct (load_credential_spec w ds (credentials_ p) Hl) as (m&Em&Hm).
  assert (load_credential_key (allow_key b) w (CredentialVars iset_empty iset_empty None None false false, p) =
    Ret (CredentialVars iset_empty iset_empty None None false false, with_credentials m b p)) as ->.
  { unfold load_credential_key. destruct b; cbn [allow_key];
      rewrite ?is_text_refl, ?(is_text_ne "allow" "uid"), ?(is_text_ne "allow" "gid"), ?(is_text_ne "deny" "uid"),
        ?(is_text_ne "deny" "gid"), ?(is_text_ne "deny" "allow") by done; cbn [orb]; by rewrite Em. }
  rewrite !outcome_bind_Ret. cbn [its_uid_interval has_uid_range andb].
  exists m. split; [done|]. intros u g. rewrite Hm, Hp, imap_has_empty. naive_solver.
Qed.

Lemma load_policy_body_spec b r o rs os p : pt_children b = [("requests", r); ("offers", o)] →
  Forall2 spells_request (pt_children r) rs → Forall2 spells_offer (pt_children o) os →
  ∃ p', load_policy_body b p = Ret p' ∧
    (credentials_ p', allow_who_ p', allow_what_ p') = (credentials_ p, allow_who_ p, allow_what_ p) ∧
    (∀ svc inst m, rmap_has svc inst m (requests_ p') = true ↔
       rmap_has svc inst m (requests_ p) = true ∨ ∃ e, e ∈ rs ∧ in_request (svc, (inst, m)) e) ∧
    (∀ svc inst, imap_has svc inst (offers_ p') = true ↔
       imap_has svc inst (offers_ p) = true ∨ ∃ e, e ∈ os ∧ in_offer (svc, inst) e).
Proof.
  intros Eb Hr Ho. unfold load_policy_body. rewrite Eb. cbn [for_children].
  rewrite is_text_refl, (is_text_ne "offers" "requests"), is_text_refl by done.
  destruct (for_children_spec (λ _ n p, load_request n p) spells_request
    (λ x p, rmap_has x.1 x.2.1 x.2.2 (requests_ p) = true) in_request (same_by but_requests) (pt_children r) rs p)
    as (p1&->&S1&H1'); [intros; by eapply load_request_spec|done|].
  rewrite outcome_bind_Ret.
  destruct (for_children_spec (λ _ n p, load_offer n p) spells_offer
    (λ x p, imap_has x.1 x.2 (offers_ p) = true) in_offer (same_by but_offers) (pt_children o) os p1)
    as (p2&->&S2&H2'); [intros; by eapply load_offer_spec|done|].
  exists p2. split; [done|]. unfold same_by, but_requests, but_offers in *. injection S1 as -> -> Eo ->.
  injection S2 as -> -> Er ->. split; [done|]. split.
  - intros svc inst m. rewrite <- Er. apply (H1' (svc, (inst, m))).
  - intros svc inst. rewrite Eo. apply (H2' (svc, inst)).
Qed.

Lemma read_policy_spec t d : spells_policy t d →
  ∃ p, read_policy t = Ret p ∧ allow_who_ p = who_allow d ∧ allow_what_ p = what_allow d ∧
    (∀ u g, has_id u g p = true ↔ text_user u g d) ∧
    (∀ svc inst m, rmap_has svc inst m (requests_ p) = true ↔ text_request svc inst m d) ∧
    (∀ svc inst, imap_has svc inst (offers_ p) = true ↔ text_offer svc inst d).
Proof.
  intros (c&w&b&r&o&Et&Ec&Hw&Eb&Hr&Ho). unfold read_policy. rewrite Et. cbn [for_children].
  destruct (load_credentials_spec c w _ _ policy_new Ec Hw eq_refl) as (m&Em&Hm).
  assert (load_policy_key "credentials" c policy_new = Ret (with_credentials m (who_allow d) policy_new)) as ->
    by (unfold load_policy_key; by rewrite is_text_refl).
  rewrite outcome_bind_Ret.
  assert (∀ p, load_policy_key (allow_key (what_allow d)) b p = load_policy_body b (set_what (what_allow d) p)) as ->
    by (intros p; by destruct (what_allow d)).
  destruct (load_policy_body_spec b r o _ _ (set_what (what_allow d) (with_credentials m (who_allow d) policy_new)) Eb Hr Ho)
    as (p&->&Ep&Hreq&Hoff).
  injection Ep as Ec' Ew Ea. exists p. split; [done|]. split; [done|]. split; [done|]. split; [|split].
  - intros u g. unfold has_id. rewrite Ec'. apply Hm.
  - intros svc inst mth. rewrite Hreq. cbn [requests_ set_what with_credentials policy_new].
    rewrite rmap_has_empty. unfold text_request. naive_solver.
  - intros svc inst. rewrite Hoff. cbn [offers_ set_what with_credentials policy_new].
    rewrite imap_has_empty. unfold text_offer. naive_solver.
Qed.

(** A loaded policy is the last one. *)
Lemma load_policy_adds t s p : read_policy t = Ret p →
  ∃ s', load_policy t s = Ret s' ∧ its_policies s' = its_policies s ++ [p] ∧ (lenient s' ↔ lenient s).
Proof.
  intros Ep. unfold load_policy. rewrite Ep, outcome_bind_Ret. eexists. split; [done|]. split; [|done].
  assert (new_key s ∉ dom (policies s) ∪ list_to_set (any_client_policies_ s)) as Hf by apply is_fresh.
  unfold its_policies. cbn [any_client_policies_ set_policies]. rewrite fmap_app. f_equal.
  - apply list_fmap_ext. intros i q Hq. unfold deref. cbn [policies set_policies].
    rewrite lookup_insert_ne; [done|]. intros <-. apply list_elem_of_lookup_2 in Hq. set_solver.
  - cbn. unfold deref. cbn. by rewrite lookup_insert_eq.
Qed.

(** C9: A policy of the configuration is loaded with the meaning of its text, for texts of
    one form: first the credentials, with one list of pairs of users and groups, allowed or
    denied; then one list of requests and one of offers, allowed or denied. A request names
    a service other than 0 and a non-empty list of pairs of instances and methods, an offer
    such a service and instances, none of these sets being empty; a set is a list of
    numbers and ranges, or [any]. As in the code, [any] stands for all numbers from 0 on
    (the user guide says from 1 on). Afterwards a call is allowed if and only if it was
    before, or the policy is about the user and allows what is listed or lists denials and
    does not list the call (for any method, lists nothing); the same holds for offers. *)
Theorem configured_policy_decides t d s : spells_policy t d →
  ∃ s', load_policy t s = Ret s' ∧
    (∀ u g svc inst m, is_client_allowed u g svc inst m false s' = true ↔
      is_client_allowed u g svc inst m false s = true ∨
      (known u g ∧ (text_user u g d ↔ who_allow d = true) ∧
       if what_allow d then text_request svc inst m d
       else ¬ text_request svc inst m d ∧ (m = ANY_METHOD → ∀ k i v, ¬ text_request k i v d))) ∧
    (∀ u g svc inst, is_offer_allowed u g svc inst s' = true ↔
      is_offer_allowed u g svc inst s = true ∨
      (known u g ∧ (text_user u g d ↔ who_allow d = true) ∧ (text_offer svc inst d ↔ what_allow d = true))).
Proof.
  intros Hd. destruct (read_policy_spec t d Hd) as (p&Ep&Ew&Ea&Hid&Hreq&Hoff).
  destruct (load_policy_adds t s p Ep) as (s'&Es&Hps&Hl). exists s'. split; [done|].
  assert (∀ u g, applies u g p ↔ (text_user u g d ↔ who_allow d = true)) as Happ.
  { intros u g. unfold applies. rewrite <- Hid, Ew. destruct (has_id u g p), (who_allow d); naive_solver. }
  split.
  - intros u g svc inst m. rewrite !is_client_allowed_spec, Hps, Hl.
    setoid_rewrite elem_of_app. setoid_rewrite list_elem_of_singleton.
    assert (grants svc inst m false p ↔ if what_allow d then text_request svc inst m d
       else ¬ text_request svc inst m d ∧ (m = ANY_METHOD → ∀ k i v, ¬ text_request k i v d)) as <-.
    { unfold grants. rewrite Ea. assert (requested svc inst m false (requests_ p) ↔ text_request svc inst m d) as Hq.
      { unfold requested. rewrite <- Hreq. naive_solver. }
      destruct (what_allow d); [done|]. rewrite Hq. setoid_rewrite <- Hreq. setoid_rewrite not_true_iff_false. done. }
    rewrite <- Happ. split.
    + intros [?|(?&x&[Hx| ->]&?&?)]; [by left; left|left; right; split; [done|]; by exists x|by right].
    + intros [[?|(?&x&?&?)]|(?&?&?)]; [by left|right; split; [done|]; exists x; by auto|].
      right. split; [done|]. exists p. by auto.
  - intros u g svc inst. rewrite !is_offer_allowed_spec, Hps, Hl.
    setoid_rewrite elem_of_app. setoid_rewrite list_elem_of_singleton.
    assert (allow_what_ p = imap_has svc inst (offers_ p) ↔ (text_offer svc inst d ↔ what_allow d = true)) as <-.
    { rewrite <- Hoff, Ea. destruct (imap_has svc inst (offers_ p)), (what_allow d); naive_solver. }
    rewrite <- Happ. split.
    + intros [?|(?&x&[Hx| ->]&?&?)]; [by left; left|left; right; split; [done|]; by exists x|by right].
    + intros [[?|(?&x&?&?)]|(?&?&?)]; [by left|right; split; [done|]; exists x; by auto|].
      right. split; [done|]. exists p. by auto.
Qed.

(** A policy whose credentials are a single user and a list of groups is loaded without
    credentials, and applies to everyone: after it was loaded every user may make the calls
    that it lists, whatever user and groups it names. *)
Theorem mixed_credentials_apply_to_all t c u n g ds b r o rs os s :
  pt_children t = [("credentials", c); ("allow", b)] → pt_children c = [("uid", u); ("gid", g)] →
  number 32 (pt_data u) n → pt_data u ≠ "any" → pt_data g = "" → spells_set 32 g ds →
  pt_children b = [("requests", r); ("offers", o)] →
  Forall2 spells_request (pt_children r) rs → Forall2 spells_offer (pt_children o) os →
  ∃ s', load_policy t s = Ret s' ∧ ∀ u' g' svc inst m, known u' g' →
    (∃ e, e ∈ rs ∧ in_request (svc, (inst, m)) e) → is_client_allowed u' g' svc inst m false s' = true.
Proof.
  intros Et Ec (Hu0&_&Hu) Hany Hg Hgs Eb Hr Ho.
  assert (load_credentials c policy_new = Ret policy_new) as Ecr.
  { unfold load_credentials. rewrite Ec. cbn [for_children]. destruct (load_interval_set_spec _ _ _ Hgs) as (gs&Egs&_).
    assert (∀ v, load_credential_key "uid" u (v, policy_new) = Ret (CredentialVars (its_uid_interval_set v)
      (its_gid_interval_set v) (Some (closed n n)) (its_gid_interval v) (has_uid_range v) (has_gid_range v), policy_new)) as ->.
    { intros v. unfold load_credential_key, read_id_interval.
      by rewrite is_text_refl, (is_text_ne _ _ Hu0), (is_text_ne _ _ Hany), Hu. }
    assert (∀ v, load_credential_key "gid" g (v, policy_new) = Ret (CredentialVars (its_uid_interval_set v) gs
      (its_uid_interval v) (its_gid_interval v) (has_uid_range v) true, policy_new)) as Hgid.
    { intros v. unfold load_credential_key. by rewrite (is_text_ne "gid" "uid"), is_text_refl, Hg, is_text_refl, Egs by done. }
    rewrite outcome_bind_Ret, Hgid, !outcome_bind_Ret. done. }
  destruct (load_policy_body_spec b r o rs os (set_what true policy_new) Eb Hr Ho) as (p&Ep&Ef&Hreq&_).
  assert (read_policy t = Ret p) as Erp.
  { unfold read_policy. rewrite Et. cbn [for_children].
    assert (load_policy_key "credentials" c policy_new = Ret policy_new) as -> by (unfold load_policy_key; by rewrite is_text_refl).
    rewrite outcome_bind_Ret.
    assert (load_policy_key "allow" b policy_new = Ret p) as -> by (unfold load_policy_key; by rewrite <- Ep).
    by rewrite outcome_bind_Ret. }
  destruct (load_policy_adds t s p Erp) as (s'&Es&Hps&_). exists s'. split; [done|].
  intros u' g' svc inst m Hk He. apply is_client_allowed_spec. right. split; [done|]. exists p.
  injection Ef as Ec' Ew Ea. split; [rewrite Hps; set_solver|]. split.
  - unfold applies, has_id. rewrite Ec', Ew. cbn. apply imap_has_empty.
  - unfold grants. rewrite Ea. cbn. exists m. split; [by right|]. apply Hreq. by right.
Qed.
End meaning.

(** ** Trees and an example *)

Inductive tree : Type := Node (text : string) (children : list (string * tree)).
Fixpoint find_child (k : string) (l : list (string * tree)) : option tree :=
  match l with
  | [] => None
  | (k', t) :: l => if is_text k' k then Some t else find_child k l
  end.
#[local] Instance tree_ptree : PTree := {|
  ptree := tree;
  pt_data t := let '(Node s _) := t in s;
  pt_children t := let '(Node _ l) := t in l;
  get_child k t := let '(Node _ l) := t in find_child k l
|}.

Definition leaf (s : string) : tree := Node s [].
Definition node (l : list (string * tree)) : tree := Node "" l.
Definition array (l : list tree) : tree := Node "" ((λ t, ("", t)) <$> l).
Definition range_tree (a b : string) : tree := node [("first", leaf a); ("last", leaf b)].

(** The users 1000 to 1002 in all groups may call the methods up to 0x7FFF of instance 1
    of service 0x1111 and offer all instances of service 0x3333. *)
Definition requests_tree : tree := array [node [("service", leaf "0x1111");
  ("instances", array [node [("ids", array [leaf "1"]); ("methods", array [range_tree "min" "32767"])]])]].
Definition offers_tree : tree := array [node [("service", leaf "13107"); ("instances", leaf "any")]].
Definition body_tree : tree := node [("requests", requests_tree); ("offers", offers_tree)].
Definition policy_tree : tree := node
  [("credentials", node [("allow", array [node [("uid", array [range_tree "1000" "1002"]); ("gid", leaf "any")]])]);
   ("allow", body_tree)].
Definition policy_description : policy_text :=
  PolicyText true [(Items [Range 1000 1002], Any)] true
    [(0x1111, [(Items [Id 1], Items [Range 0 32767])])] [(0x3333, Any)].

Ltac solve_number := split; [done|split; [cbn; lia|intros out; vm_compute; reflexivity]].

Lemma body_requests : Forall2 spells_request (pt_children requests_tree) (text_requests policy_description).
Proof.
  constructor; [|constructor]. eexists _, _. split; [reflexivity|]. split; [solve_number|]. split; [done|]. split; [done|].
  constructor; [|constructor]. split; [|split].
  - eexists _, _. split; [reflexivity|]. split; (split; [done|]).
    + constructor; [|constructor]. solve_number.
    + constructor; [|constructor]. split; [done|]. eexists _, _. split; [reflexivity|].
      split; [by left|]. right. split; [done|solve_number].
  - exists 1, (Id 1). split; [by left|done].
  - exists 5, (Range 0 32767). split; [by left|cbn; lia].
Qed.

Lemma body_offers : Forall2 spells_offer (pt_children offers_tree) (text_offers policy_description).
Proof.
  constructor; [|constructor]. eexists _, _. split; [reflexivity|]. split; [solve_number|]. split; [done|].
  split; [done|]. exists 1. cbn. lia.
Qed.

Lemma policy_tree_spells : spells_policy policy_tree policy_description.
Proof.
  eexists _, _, _, _, _. split; [reflexivity|]. split; [reflexivity|]. split.
  - constructor; [|constructor]. eexists _, _. split; [reflexivity|]. split; [|done].
    split; [done|]. constructor; [|constructor]. split; [done|]. eexists _, _. split; [reflexivity|].
    split; right; (split; [done|solve_number]).
  - split; [reflexivity|]. split; [apply body_requests|apply body_offers].
Qed.

Definition enforcing : @security set_icl := @set_flags set_icl true true true (@security_new set_icl).

Lemma configured_policy_decides_witness :
  ∃ s', @load_policy set_icl tree_ptree policy_tree enforcing = Ret s' ∧
    @is_client_allowed set_icl set_icl_find 1001 7 0x1111 1 0x20 false s' = true ∧
    @is_client_allowed set_icl set_icl_find 1003 7 0x1111 1 0x20 false s' = false ∧
    @is_offer_allowed set_icl set_icl_find 1001 7 0x3333 9 s' = true.
Proof.
  destruct (@configured_policy_decides set_icl set_icl_find set_icl_laws tree_ptree policy_tree policy_description enforcing
    policy_tree_spells) as (s'&E&Hc&Ho).
  exists s'. split; [exact E|]. clear E.
  assert (∀ u, text_user u 7 policy_description ↔ 1000 ≤ u ≤ 1002) as Hu.
  { intros u. unfold text_user, policy_description. cbn [who]. setoid_rewrite list_elem_of_singleton. split.
    - intros (e&->&(i&Hi&Hcov)&_). apply list_elem_of_singleton in Hi as ->. done.
    - intros Hr. eexists. split; [done|]. split; [|cbn; lia]. exists (Range 1000 1002). split; [by left|done]. }
  split; [|split].
  - apply Hc. right. split; [by split|]. split; [rewrite Hu; cbn; lia|].
    eexists. split; [by left|]. split; [done|]. eexists. split; [by left|]. split.
    + exists (Id 1). split; [by left|done].
    + exists (Range 0 32767). split; [by left|cbn; lia].
  - apply not_true_iff_false. rewrite Hc. intros [Hl|(_&Hw&_)]; [by vm_compute in Hl|].
    rewrite Hu in Hw. destruct Hw as [_ Hw]. specialize (Hw eq_refl). lia.
  - apply Ho. right. split; [by split|]. split; [rewrite Hu; cbn; lia|].
    split; [done|]. intros _. eexists. split; [by left|]. split; [done|]. cbn. lia.
Defined.

Lemma mixed_credentials_apply_to_all_witness :
  ∃ s', @load_policy set_icl tree_ptree (node [("credentials", node [("uid", leaf "1000"); ("gid", array [leaf "100"])]);
      ("allow", body_tree)]) enforcing = Ret s' ∧
    @is_client_allowed set_icl set_icl_find 4711 42 0x1111 1 0x20 false s' = true.
Proof.
  destruct (@mixed_credentials_apply_to_all set_icl set_icl_find set_icl_laws tree_ptree
    (node [("credentials", node [("uid", leaf "1000"); ("gid", array [leaf "100"])]); ("allow", body_tree)])
    (node [("uid", leaf "1000"); ("gid", array [leaf "100"])]) (leaf "1000") 1000 (array [leaf "100"]) (Items [Id 100])
    body_tree requests_tree offers_tree (text_requests policy_description) (text_offers policy_description) enforcing
    eq_refl eq_refl ltac:(solve_number) ltac:(done) eq_refl) as (s'&E&Hc).
  - split; [done|]. constructor; [solve_number|constructor].
  - reflexivity.
  - apply body_requests.
  - apply body_offers.
  - exists s'. split; [exact E|]. clear E. apply Hc; [by split|].
    eexists. split; [by left|]. split; [done|]. eexists. split; [by left|]. split.
    + exists (Id 1). split; [by left|done].
    + exists (Range 0 32767). split; [by left|cbn; lia].
Defined.
