(* ===== verification/SecurityUpdates.v ===== *)
(** Security updates at run time: the stub of the routing manager distributes policies to
    the clients and waits for their answers ([routing/src/routing_manager_stub.cpp]), the
    proxy of a client installs them ([routing/src/routing_manager_proxy.cpp]).

    The stub and every proxy have a [security] object of their own.  An update is given an
    identifier; the clients that have to answer are kept under it, together with the
    callback of the caller and a timer.  Sending, timers, callbacks and the assignment of
    identifiers are recorded in [trace] in the order in which they happen.  What the host
    answers (the connected clients, whether an endpoint exists and accepts a message) is an
    argument, [env].  Sets without order are iterated in the order of [elements].  Values
    are copied to and from memory with the least byte first.

    The loop that informs the clients holds no lock and pauses between them; [step] has its
    iterations as steps of their own, between which answers, timers and other updates are
    handled.  The other operations are single steps. *)
From S2P Require Import Prelude ByteOrder Policy Security.

Definition VSOMEIP_COMMAND_HEADER_SIZE : Z := 7.
Definition VSOMEIP_COMMAND_TYPE_POS : Z := 0.
Definition VSOMEIP_COMMAND_CLIENT_POS : Z := 1.
Definition VSOMEIP_COMMAND_SIZE_POS_MIN : Z := 3.
Definition VSOMEIP_COMMAND_SIZE_POS_MAX : Z := 6.
Definition VSOMEIP_COMMAND_PAYLOAD_POS : Z := 7.
Definition VSOMEIP_UPDATE_SECURITY_POLICY : Z := 0x23.
Definition VSOMEIP_UPDATE_SECURITY_POLICY_RESPONSE : Z := 0x24.
Definition VSOMEIP_REMOVE_SECURITY_POLICY : Z := 0x25.
Definition VSOMEIP_REMOVE_SECURITY_POLICY_RESPONSE : Z := 0x26.
Definition VSOMEIP_UPDATE_SECURITY_CREDENTIALS : Z := 0x27.
Definition VSOMEIP_DISTRIBUTE_SECURITY_POLICIES : Z := 0x28.
Definition VSOMEIP_UPDATE_SECURITY_POLICY_INT : Z := 0x29.
Definition VSOMEIP_REMOVE_SECURITY_POLICY_COMMAND_SIZE : Z := 19.
Definition VSOMEIP_UPDATE_SECURITY_POLICY_RESPONSE_COMMAND_SIZE : Z := 11.
Definition VSOMEIP_REMOVE_SECURITY_POLICY_RESPONSE_COMMAND_SIZE : Z := 11.

(** ** Values in memory *)

Definition mem16 (v : Z) : list Z := [VSOMEIP_WORD_BYTE0 v; VSOMEIP_WORD_BYTE1 v].
Definition mem32 (v : Z) : list Z :=
  [VSOMEIP_LONG_BYTE0 v; VSOMEIP_LONG_BYTE1 v; VSOMEIP_LONG_BYTE2 v; VSOMEIP_LONG_BYTE3 v].

Definition load16 (d : list Z) (pos : Z) : outcome Z :=
  b0 ← vget d pos; b1 ← vget d (pos + 1); Ret (VSOMEIP_BYTES_TO_WORD b1 b0).
Definition load32 (d : list Z) (pos : Z) : outcome Z :=
  b0 ← vget d pos; b1 ← vget d (pos + 1); b2 ← vget d (pos + 2); b3 ← vget d (pos + 3);
  Ret (VSOMEIP_BYTES_TO_LONG b3 b2 b1 b0).

(** A command: its type, a client, the size of the contents and the contents. *)
Definition command (type client size : Z) (contents : list Z) : list Z :=
  type :: mem16 client ++ mem32 size ++ contents.

Inductive security_update_state_e : Type :=
  | SU_SUCCESS | SU_NOT_ALLOWED | SU_UNKNOWN_USER_ID | SU_INVALID_FORMAT.

(** ** Pending updates *)

Inductive effect : Type :=
  | Added (id : Z)                                  (* an identifier is handed out *)
  | Sent (client : Z) (message : list Z)
  | TimerStarted (id : Z)
  | TimerCancelled (id : Z)
  | Handled (id : option Z) (handler : Z) (result : security_update_state_e).

Record pending : Type := Pending {
  pending_security_update_id_ : Z;
  pending_security_updates_ : gmap Z (gset Z);
  security_update_handlers_ : gmap Z Z;
  security_update_timers_ : gset Z;
  trace : list effect
}.

Record env : Type := Env {
  connected_clients : gset Z;
  find_local : Z → bool;
  send_result : Z → bool
}.

Definition record (x : effect) (p : pending) : pending :=
  Pending (pending_security_update_id_ p) (pending_security_updates_ p) (security_update_handlers_ p)
    (security_update_timers_ p) (trace p ++ [x]).
Definition set_updates (us : gmap Z (gset Z)) (p : pending) : pending :=
  Pending (pending_security_update_id_ p) us (security_update_handlers_ p)
    (security_update_timers_ p) (trace p).

(** [endpoint->send] on the endpoint of a client, [false] without an endpoint. *)
Definition send_to (e : env) (_client : Z) (message : list Z) (p : pending) : bool * pending :=
  if find_local e _client then (send_result e _client, record (Sent _client message) p) else (false, p).

Definition pending_security_update_add (_clients : gset Z) (p : pending) : Z * pending :=
  let n := u32 (pending_security_update_id_ p + 1) in
  let id := if bool_decide (n = 0) then u32 (n + 1) else n in
  (id, record (Added id)
    (Pending id (<[id := _clients]> (pending_security_updates_ p)) (security_update_handlers_ p)
      (security_update_timers_ p) (trace p))).

Definition pending_security_update_get (_id : Z) (p : pending) : gset Z :=
  default ∅ (pending_security_updates_ p !! _id).

Definition pending_security_update_remove (_id _client : Z) (p : pending) : bool * pending :=
  match pending_security_updates_ p !! _id with
  | Some cs =>
      if bool_decide (_client ∈ cs)
      then (true, set_updates (<[_id := cs ∖ {[_client]}]> (pending_security_updates_ p)) p)
      else (false, p)
  | None => (false, p)
  end.

Definition is_pending_security_update_finished (_id : Z) (p : pending) : bool * pending :=
  match pending_security_updates_ p !! _id with
  | Some cs =>
      if bool_decide (cs = ∅) then (true, set_updates (delete _id (pending_security_updates_ p)) p)
      else (false, p)
  | None => (false, p)
  end.

Definition add_pending_security_update_handler (_id _handler : Z) (p : pending) : pending :=
  Pending (pending_security_update_id_ p) (pending_security_updates_ p)
    (<[_id := _handler]> (security_update_handlers_ p)) (security_update_timers_ p) (trace p).

(** 3 seconds; [expires_from_now] on a new timer does not fail. *)
Definition add_pending_security_update_timer (_id : Z) (p : pending) : pending :=
  record (TimerStarted _id)
    (Pending (pending_security_update_id_ p) (pending_security_updates_ p) (security_update_handlers_ p)
      ({[_id]} ∪ security_update_timers_ p) (trace p)).

Definition erase_timer (_id : Z) (p : pending) : pending :=
  Pending (pending_security_update_id_ p) (pending_security_updates_ p) (security_update_handlers_ p)
    (security_update_timers_ p ∖ {[_id]}) (trace p).

(** Call the callback of an update and forget it. *)
Definition call_handler (_id : Z) (r : security_update_state_e) (p : pending) : pending :=
  match security_update_handlers_ p !! _id with
  | Some h =>
      record (Handled (Some _id) h r)
        (Pending (pending_security_update_id_ p) (pending_security_updates_ p)
          (delete _id (security_update_handlers_ p)) (security_update_timers_ p) (trace p))
  | None => p
  end.

Definition on_security_update_response (_id _client : Z) (p : pending) : pending :=
  let '(removed, p) := pending_security_update_remove _id _client p in
  if negb removed then p
  else
    let '(finished, p) := is_pending_security_update_finished _id p in
    if negb finished then p
    else
      let p := if bool_decide (_id ∈ security_update_timers_ p)
               then erase_timer _id (record (TimerCancelled _id) p) else p in
      call_handler _id SU_SUCCESS p.

Definition on_security_update_timeout (e : env) (_error : bool) (_id : Z) (p : pending) : pending :=
  if _error then p
  else
    let its_missing_clients := pending_security_update_get _id p in
    let p := erase_timer _id p in
    let p := foldl (λ p its_client,
      if negb (find_local e its_client) then (pending_security_update_remove _id its_client p).2 else p)
      p (elements its_missing_clients) in
    let its_state := if bool_decide (pending_security_update_get _id p = ∅) then SU_SUCCESS
                     else SU_UNKNOWN_USER_ID in
    let p := set_updates (delete _id (pending_security_updates_ p)) p in
    call_handler _id its_state p.

(** ** Requests to the clients *)

(** Inform clients and wait for their answers: the common end of
    [update_security_policy_configuration] and [remove_security_policy_configuration].
    [send_request] has the message for a client and an identifier.  A loop over the clients
    is an object of its own: no lock is held, and it pauses between the clients. *)
Record sending : Type := Sending {
  its_id : Z;
  send_request : Z → Z → list Z;
  its_clients_to_inform : list Z
}.

(** What comes before the loop; without clients the callback is called. *)
Definition inform_start (e : env) (request : Z → Z → list Z) (_handler : Z) (p : pending) : option sending * pending :=
  if bool_decide (connected_clients e = ∅) then (None, record (Handled None _handler SU_SUCCESS) p)
  else
    let '(id, p) := pending_security_update_add (connected_clients e) p in
    let p := add_pending_security_update_handler id _handler p in
    let p := add_pending_security_update_timer id p in
    (Some (Sending id request (elements (connected_clients e))), p).

(** The body of the loop. *)
Definition inform_client (e : env) (request : Z → Z → list Z) (id : Z) (p : pending) (its_client : Z) : pending :=
  let '(ok, p) := send_to e its_client (request its_client id) p in
  if negb ok then (pending_security_update_remove id its_client p).2 else p.

(** All of it, when nothing comes in between; [step] below has the interleavings. *)
Definition inform_clients (e : env) (request : Z → Z → list Z) (_handler : Z) (p : pending) : pending :=
  match inform_start e request _handler p with
  | (None, p) => p
  | (Some l, p) => foldl (inform_client e (send_request l) (its_id l)) p (its_clients_to_inform l)
  end.

Definition update_security_policy_request (_client _update_id : Z) (_payload : list Z) : list Z :=
  command VSOMEIP_UPDATE_SECURITY_POLICY _client (u32 (4 + Z.of_nat (length _payload)))
    (mem32 _update_id ++ _payload).

Definition remove_security_policy_request (_uid _gid _client _update_id : Z) : list Z :=
  command VSOMEIP_REMOVE_SECURITY_POLICY _client 12 (mem32 _update_id ++ mem32 _uid ++ mem32 _gid).

Section stub.
  Context `{IclFind}.

(** ** The stub *)

Record stub : Type := Stub {
  stub_security : security;
  updated_security_policies_ : gmap Z (list Z);
  requester_policies_ : gmap Z (gmap Z (list policy));
  updates : pending
}.

Definition with_updates (f : pending → pending) : ST stub () :=
  st_modify (λ w, Stub (stub_security w) (updated_security_policies_ w) (requester_policies_ w) (f (updates w))).

Definition is_policy_cached (_uid : Z) (w : stub) : bool :=
  bool_decide (is_Some (updated_security_policies_ w !! _uid)).
Definition policy_cache_add (_uid : Z) (_payload : list Z) : ST stub () :=
  st_modify (λ w, Stub (stub_security w) (<[_uid := _payload]> (updated_security_policies_ w))
    (requester_policies_ w) (updates w)).
Definition policy_cache_remove (_uid : Z) : ST stub () :=
  st_modify (λ w, Stub (stub_security w) (delete _uid (updated_security_policies_ w))
    (requester_policies_ w) (updates w)).

(** One policy for some clients, as an update without callback and timer. *)
Definition requester_policy_message (_update_id : Z) (its_policy_data : list Z) : list Z :=
  [VSOMEIP_UPDATE_SECURITY_POLICY_INT; 0; 0] ++ mem32 (u32 (Z.of_nat (length its_policy_data) + 4)) ++
  mem32 _update_id ++ its_policy_data.

Definition send_requester_policy (e : env) (_clients : gset Z) (its_policy_data : list Z) (p : pending) : pending :=
  let '(its_policy_id, p) := pending_security_update_add _clients p in
  foldl (λ p c, (send_to e c (requester_policy_message its_policy_id its_policy_data) p).2)
    p (elements _clients).

Fixpoint send_requester_policies (fuel : nat) (e : env) (_clients : gset Z) (_policies : list policy) : ST stub () :=
  match _policies with
  | [] => mret ()
  | p :: ps =>
      x ← st_lift (serialize fuel p []);
      match x with
      | Some its_policy_data => with_updates (send_requester_policy e _clients its_policy_data)
      | None => mret ()
      end;;
      send_requester_policies fuel e _clients ps
  end.

Definition add_requester_policies (fuel : nat) (e : env) (_uid _gid : Z) (_policies : list policy) : ST stub () :=
  st_modify (λ w, Stub (stub_security w) (updated_security_policies_ w)
    (match requester_policies_ w !! _uid with
     | Some gs =>
         match gs !! _gid with
         | Some ps => <[_uid := <[_gid := ps ++ _policies]> gs]> (requester_policies_ w)
         | None => <[_uid := <[_gid := _policies]> gs]> (requester_policies_ w)
         end
     | None => <[_uid := {[_gid := _policies]}]> (requester_policies_ w)
     end) (updates w));;
  w ← st_get;
  let its_clients := get_clients _uid _gid (stub_security w) in
  if bool_decide (its_clients = ∅) then mret ()
  else send_requester_policies fuel e its_clients _policies.

Definition remove_requester_policies (_uid _gid : Z) : ST stub () :=
  st_modify (λ w, Stub (stub_security w) (updated_security_policies_ w)
    (match requester_policies_ w !! _uid with
     | Some gs =>
         let gs := delete _gid gs in
         if bool_decide (gs = ∅) then delete _uid (requester_policies_ w)
         else <[_uid := gs]> (requester_policies_ w)
     | None => requester_policies_ w
     end) (updates w)).

Definition requester_policies_of (_uid _gid : Z) (w : stub) : list policy :=
  match requester_policies_ w !! _uid with
  | Some gs => default [] (gs !! _gid)
  | None => []
  end.

Definition update_security_policy_configuration (fuel : nat) (e : env) (_uid _gid _policy : Z)
    (_payload : list Z) (_handler : Z) : ST stub bool :=
  policy_cache_add _uid _payload;;
  w ← st_get;
  s ← st_lift (update_security_policy fuel _uid _gid _policy (stub_security w));
  st_modify (λ w, Stub s (updated_security_policies_ w) (requester_policies_ w) (updates w));;
  add_requester_policies fuel e _uid _gid (get_requester_policies _policy s);;
  with_updates (inform_clients e (λ c id, update_security_policy_request c id _payload) _handler);;
  mret true.

Definition remove_security_policy_configuration (e : env) (_uid _gid _handler : Z) : ST stub bool :=
  w ← st_get;
  if is_policy_cached _uid w then
    let '(ok, s) := remove_security_policy _uid _gid (stub_security w) in
    st_modify (λ w, Stub s (updated_security_policies_ w) (requester_policies_ w) (updates w));;
    if negb ok then
      with_updates (record (Handled None _handler SU_UNKNOWN_USER_ID));; mret false
    else
      policy_cache_remove _uid;;
      with_updates (inform_clients e (remove_security_policy_request _uid _gid) _handler);; mret true
  else with_updates (record (Handled None _handler SU_UNKNOWN_USER_ID));; mret false.

(** The part of [on_register_application] about policies; without an entry for the client
    the user and group are 0. *)
Definition register_policies (fuel : nat) (e : env) (_client : Z) : ST stub () :=
  w ← st_get;
  let '(u, g) := default (0, 0) (get_client_to_uid_gid_mapping _client (stub_security w)) in
  match requester_policies_of u g w with
  | [] => mret ()
  | its_policies => send_requester_policies fuel e {[_client]} its_policies
  end.

(** All cached policies for a client that registers, in the order of the users; [client]
    is the routing manager. *)
Definition cached_policies (w : stub) : list (list Z) :=
  (λ u, default [] (updated_security_policies_ w !! u)) <$>
    merge_sort Z.le (elements (dom (updated_security_policies_ w))).

Definition cached_policies_message (client : Z) (payloads : list (list Z)) : list Z :=
  let contents := mem32 (u32 (Z.of_nat (length payloads))) ++
    mjoin ((λ x, mem32 (u32 (Z.of_nat (length x))) ++ x) <$> payloads) in
  command VSOMEIP_DISTRIBUTE_SECURITY_POLICIES client (u32 (Z.of_nat (length contents))) contents.

Definition send_cached_security_policies (e : env) (client _client : Z) : ST stub bool :=
  w ← st_get;
  if bool_decide (cached_policies w = []) then mret true
  else
    let '(ok, p) := send_to e _client (cached_policies_message client (cached_policies w)) (updates w) in
    with_updates (λ _, p);; mret ok.

(** The beginning of [on_message] and its cases for the answers to updates. *)
Definition stub_on_message (_data : list Z) (_bound_client : Z) : ST stub () :=
  let _size := Z.of_nat (length _data) in
  if bool_decide (VSOMEIP_COMMAND_SIZE_POS_MAX < _size) then
    its_command ← st_lift (vget _data VSOMEIP_COMMAND_TYPE_POS);
    its_client ← st_lift (load16 _data VSOMEIP_COMMAND_CLIENT_POS);
    w ← st_get;
    if is_enabled (stub_security w) && bool_decide (_bound_client ≠ its_client) then mret ()
    else
      its_size ← st_lift (load32 _data VSOMEIP_COMMAND_SIZE_POS_MIN);
      if bool_decide (its_size ≤ _size - VSOMEIP_COMMAND_HEADER_SIZE) then
        if (bool_decide (its_command = VSOMEIP_UPDATE_SECURITY_POLICY_RESPONSE)
             && bool_decide (_size = VSOMEIP_UPDATE_SECURITY_POLICY_RESPONSE_COMMAND_SIZE))
           || (bool_decide (its_command = VSOMEIP_REMOVE_SECURITY_POLICY_RESPONSE)
             && bool_decide (_size = VSOMEIP_REMOVE_SECURITY_POLICY_RESPONSE_COMMAND_SIZE)) then
          its_pending_security_update_id ← st_lift (load32 _data VSOMEIP_COMMAND_PAYLOAD_POS);
          with_updates (on_security_update_response its_pending_security_update_id its_client)
        else mret ()
      else mret ()
  else mret ().

(** ** The proxy *)

(** [own_policies] is the key of the next policy object; [sent] are the messages to the
    routing manager. *)
Record proxy : Type := Proxy {
  client : Z;
  routing_host_id : Z;
  proxy_security : security;
  next_policy : Z;
  sent : list (list Z)
}.

Definition set_security (s : security) : ST proxy () :=
  st_modify (λ x, Proxy (client x) (routing_host_id x) s (next_policy x) (sent x)).

(** [std::make_shared<policy>()] with the contents it has when it is used. *)
Definition make_policy (p : policy) : ST proxy Z :=
  x ← st_get;
  let s := proxy_security x in
  st_modify (λ x, Proxy (client x) (routing_host_id x)
    (set_policies (<[next_policy x := p]> (policies s)) (any_client_policies_ s) s) (next_policy x + 1) (sent x));;
  mret (next_policy x).

(** [send_update_security_policy_response] and [send_remove_security_policy_response]. *)
Definition send_response (type _update_id : Z) : ST proxy () :=
  st_modify (λ x, Proxy (client x) (routing_host_id x) (proxy_security x) (next_policy x)
    (sent x ++ [command type (client x) 4 (mem32 _update_id)])).

Definition install_policy (fuel : nat) (uid gid : Z) (p : policy) : ST proxy () :=
  q ← make_policy p;
  x ← st_get;
  s ← st_lift (update_security_policy fuel uid gid q (proxy_security x));
  set_security s.

(** [VSOMEIP_UPDATE_SECURITY_POLICY] and [VSOMEIP_UPDATE_SECURITY_POLICY_INT]. *)
Definition on_update_policy (fuel : nat) (uninit : Z → Z * Z) (is_internal_policy_update : bool)
    (_data : list Z) : ST proxy () :=
  its_update_id ← st_lift (load32 _data VSOMEIP_COMMAND_PAYLOAD_POS);
  let its_policy_data := drop (Z.to_nat (VSOMEIP_COMMAND_PAYLOAD_POS + 4)) _data in
  let its_policy_size := u32 (Z.of_nat (length _data) - (VSOMEIP_COMMAND_PAYLOAD_POS + 4)) in
  '((c, its_policy), _) ← st_lift (parse_policy uninit policy_new (Reader its_policy_data its_policy_size));
  match c with
  | Some (its_uid, its_gid) =>
      x ← st_get;
      allowed ← (if is_internal_policy_update then mret true
                 else st_lift (is_policy_update_allowed fuel its_uid its_policy (proxy_security x)));
      if (allowed : bool) then
        install_policy fuel its_uid its_gid its_policy;;
        send_response VSOMEIP_UPDATE_SECURITY_POLICY_RESPONSE its_update_id
      else mret ()
  | None => mret ()
  end.

Definition on_remove_policy (_data : list Z) : ST proxy () :=
  its_update_id ← st_lift (load32 _data VSOMEIP_COMMAND_PAYLOAD_POS);
  its_uid ← st_lift (load32 _data (VSOMEIP_COMMAND_PAYLOAD_POS + 4));
  its_gid ← st_lift (load32 _data (VSOMEIP_COMMAND_PAYLOAD_POS + 8));
  x ← st_get;
  if is_policy_removal_allowed its_uid (proxy_security x) then
    set_security (remove_security_policy its_uid its_gid (proxy_security x)).2;;
    send_response VSOMEIP_REMOVE_SECURITY_POLICY_RESPONSE its_update_id
  else mret ().

(** The loop over the policies of [VSOMEIP_DISTRIBUTE_SECURITY_POLICIES]; [buffer] is what
    follows [buffer_ptr].  A policy that cannot be read leaves the pointer where reading
    stopped. *)
Fixpoint distribute_loop (fuel : nat) (uninit : Z → Z * Z) (count : nat) (buffer : list Z) : ST proxy () :=
  match count with
  | O => mret ()
  | S count =>
      if bool_decide (4 ≤ Z.of_nat (length buffer)) then
        its_policy_size ← st_lift (load32 buffer 0);
        let buffer := drop 4 buffer in
        if bool_decide (its_policy_size ≤ Z.of_nat (length buffer)) then
          '((c, its_policy), r) ← st_lift (parse_policy uninit policy_new (Reader buffer its_policy_size));
          match c with
          | Some (its_uid, its_gid) =>
              x ← st_get;
              allowed ← st_lift (is_policy_update_allowed fuel its_uid its_policy (proxy_security x));
              if (allowed : bool) then install_policy fuel its_uid its_gid its_policy else mret ()
          | None => mret ()
          end;;
          distribute_loop fuel uninit count (data r)
        else distribute_loop fuel uninit count buffer
      else distribute_loop fuel uninit count buffer
  end.

Definition on_distribute_policies (fuel : nat) (uninit : Z → Z * Z) (_data : list Z) : ST proxy () :=
  if bool_decide (VSOMEIP_COMMAND_PAYLOAD_POS + 8 ≤ Z.of_nat (length _data)) then
    its_policy_count ← st_lift (load32 _data VSOMEIP_COMMAND_PAYLOAD_POS);
    distribute_loop fuel uninit (Z.to_nat its_policy_count)
      (drop (Z.to_nat (VSOMEIP_COMMAND_PAYLOAD_POS + 4)) _data)
  else mret ().

(** [while (i + 8 <= _size)]: a policy without requests and offers for every user. *)
Fixpoint on_update_security_credentials (_data : list Z) : ST proxy () :=
  match _data with
  | b0 :: b1 :: b2 :: b3 :: c0 :: c1 :: c2 :: c3 :: rest =>
      let its_uid := VSOMEIP_BYTES_TO_LONG b3 b2 b1 b0 in
      let its_gid := VSOMEIP_BYTES_TO_LONG c3 c2 c1 c0 in
      q ← make_policy (Policy (imap_add (closed its_uid its_uid)
             (iset_insert (closed its_gid its_gid) iset_empty) imap_empty) true rmap_empty imap_empty true);
      x ← st_get;
      set_security (add_security_credentials its_uid its_gid q (proxy_security x));;
      on_update_security_credentials rest
  | _ => mret ()
  end.

(** The beginning of [on_message] and its cases for security. *)
Definition proxy_on_message (fuel : nat) (uninit : Z → Z * Z) (_data : list Z) (_bound_client : Z) : ST proxy () :=
  let _size := Z.of_nat (length _data) in
  if bool_decide (_size > VSOMEIP_COMMAND_SIZE_POS_MAX) then
    its_command ← st_lift (vget _data VSOMEIP_COMMAND_TYPE_POS);
    its_client ← st_lift (load16 _data VSOMEIP_COMMAND_CLIENT_POS);
    its_length ← st_lift (load32 _data VSOMEIP_COMMAND_SIZE_POS_MIN);
    x ← st_get;
    let enabled := is_enabled (proxy_security x) in
    let message_from_routing :=
      if enabled then bool_decide (_bound_client = routing_host_id x)
      else bool_decide (its_client = routing_host_id x) in
    let right_length := bool_decide (_size - VSOMEIP_COMMAND_HEADER_SIZE = its_length) in
    if enabled && negb message_from_routing && bool_decide (_bound_client ≠ its_client) then mret ()
    else if bool_decide (its_command = VSOMEIP_UPDATE_SECURITY_POLICY_INT)
            || bool_decide (its_command = VSOMEIP_UPDATE_SECURITY_POLICY) then
      if bool_decide (_size < VSOMEIP_COMMAND_HEADER_SIZE + 4) || negb right_length then mret ()
      else if negb enabled || message_from_routing then
        on_update_policy fuel uninit (bool_decide (its_command = VSOMEIP_UPDATE_SECURITY_POLICY_INT)) _data
      else mret ()
    else if bool_decide (its_command = VSOMEIP_REMOVE_SECURITY_POLICY) then
      if bool_decide (_size ≠ VSOMEIP_REMOVE_SECURITY_POLICY_COMMAND_SIZE) then mret ()
      else if negb enabled || message_from_routing then on_remove_policy _data else mret ()
    else if bool_decide (its_command = VSOMEIP_DISTRIBUTE_SECURITY_POLICIES) then
      if negb right_length then mret ()
      else if negb enabled || message_from_routing then on_distribute_policies fuel uninit _data else mret ()
    else if bool_decide (its_command = VSOMEIP_UPDATE_SECURITY_CREDENTIALS) then
      if negb right_length then mret ()
      else if negb enabled || message_from_routing
      then on_update_security_credentials (drop (Z.to_nat VSOMEIP_COMMAND_PAYLOAD_POS) _data) else mret ()
    else mret ()
  else mret ().
End stub.

(** ** One update, seen on its own

    The abstract state of an update are the clients whose answer is missing, [None] when
    the caller has been told.  An answer of the last one tells it success; the timer tells
    it success if all missing clients are gone. *)
Definition spec_response (c : Z) (cs : gset Z) : option (gset Z) * list security_update_state_e :=
  if decide (c ∈ cs) then
    if decide (cs ∖ {[c]} = ∅) then (None, [SU_SUCCESS]) else (Some (cs ∖ {[c]}), [])
  else (Some cs, []).

Definition spec_timeout (e : env) (cs : gset Z) : option (gset Z) * list security_update_state_e :=
  (None, [if decide (filter (λ c, find_local e c = true) cs = ∅) then SU_SUCCESS else SU_UNKNOWN_USER_ID]).

(** The calls of the callback of an update in a trace. *)
Definition call_of (id : Z) (x : effect) : option (Z * security_update_state_e) :=
  match x with
  | Handled (Some i) h r => if decide (i = id) then Some (h, r) else None
  | _ => None
  end.
Definition calls (id : Z) (tr : list effect) : list (Z * security_update_state_e) := omap (call_of id) tr.

Lemma calls_app id tr1 tr2 : calls id (tr1 ++ tr2) = calls id tr1 ++ calls id tr2.
Proof. apply omap_app. Qed.

(** The concrete state of an update. *)
Definition tracks (id h : Z) (cs : option (gset Z)) (p : pending) : Prop :=
  pending_security_updates_ p !! id = cs ∧ security_update_handlers_ p !! id = (λ _, h) <$> cs.

(** An operation goes on with the trace; unless the identifier is handed out again, the
    update has the state [cs'] afterwards and its callback was called with [rs]. *)
Definition moves (id h : Z) (p p' : pending) (cs : option (gset Z)) (rs : list security_update_state_e) : Prop :=
  ∃ tr, trace p' = trace p ++ tr ∧ (Added id ∉ tr → tracks id h cs p' ∧ calls id tr = (λ r, (h, r)) <$> rs).

Lemma moves_refl id h p cs : tracks id h cs p → moves id h p p cs [].
Proof. intros Hp. exists []. by rewrite app_nil_r. Qed.

Lemma moves_trans id h p1 p2 p3 cs2 cs3 rs1 rs2 : moves id h p1 p2 cs2 rs1 →
  (tracks id h cs2 p2 → moves id h p2 p3 cs3 rs2) → (∃ tr, trace p3 = trace p2 ++ tr) →
  moves id h p1 p3 cs3 (rs1 ++ rs2).
Proof.
  intros (tr1&E1&H1) H23 (tr2&E2). exists (tr1 ++ tr2). rewrite E2, E1, app_assoc. split; [done|].
  rewrite elem_of_app. intros Hn. destruct H1 as [Ht C1]; [tauto|]. destruct (H23 Ht) as (tr2'&E2'&H2).
  assert (tr2' = tr2) as -> by (apply (app_inv_head (trace p2)); by rewrite <- E2, <- E2').
  destruct H2 as [Ht3 C2]; [tauto|]. split; [done|]. by rewrite calls_app, C1, C2, fmap_app.
Qed.

(** What changes neither the updates with other identifiers nor calls their callbacks. *)
Definition quiet (x : effect) : Prop :=
  match x with Added _ => False | Handled (Some _) _ _ => False | _ => True end.

Definition only (id : Z) (f : gset Z → gset Z) (p p' : pending) : Prop :=
  (∃ tr, trace p' = trace p ++ tr ∧ Forall quiet tr) ∧
  security_update_handlers_ p' = security_update_handlers_ p ∧
  pending_security_update_id_ p' = pending_security_update_id_ p ∧
  pending_security_updates_ p' !! id = f <$> pending_security_updates_ p !! id ∧
  ∀ id', id' ≠ id → pending_security_updates_ p' !! id' = pending_security_updates_ p !! id'.

Lemma quiet_calls id tr : Forall quiet tr → calls id tr = [] ∧ Added id ∉ tr.
Proof.
  induction 1 as [|x tr Hx _ [IH1 IH2]]; [split; [done|by apply not_elem_of_nil]|].
  split; [|rewrite elem_of_cons; intros [<-|?]; tauto].
  unfold calls in *. cbn. destruct x as [| | | |[] ? ?]; cbn; done.
Qed.

Lemma only_refl id p : only id (λ cs, cs) p p.
Proof.
  split; [exists []; by rewrite app_nil_r|]. split_and!; [done|done| |done].
  by destruct (pending_security_updates_ p !! id).
Qed.

Lemma only_trans id f g p1 p2 p3 : only id f p1 p2 → only id g p2 p3 → only id (λ cs, g (f cs)) p1 p3.
Proof.
  intros ((tr1&E1&Q1)&H1&I1&U1&O1) ((tr2&E2&Q2)&H2&I2&U2&O2). split.
  { exists (tr1 ++ tr2). rewrite E2, E1, app_assoc. split; [done|]. by apply Forall_app. }
  split_and!; [congruence|congruence| |].
  - rewrite U2, U1. by destruct (pending_security_updates_ p1 !! id).
  - intros id' Hne. by rewrite O2, O1.
Qed.

Lemma only_ext id f g p p' : (∀ cs, pending_security_updates_ p !! id = Some cs → f cs = g cs) →
  only id f p p' → only id g p p'.
Proof.
  intros Hfg (?&?&?&U&?). split_and!; [done..| |done]. rewrite U.
  destruct (pending_security_updates_ p !! id) as [cs|]; [|done]. cbn. by rewrite Hfg.
Qed.

Lemma only_record id x p : quiet x → only id (λ cs, cs) p (record x p).
Proof.
  intros Hx. split; [exists [x]; split; [done|by constructor]|]. split_and!; [done|done| |done].
  cbn. by destruct (pending_security_updates_ p !! id).
Qed.

Lemma only_remove id c p : only id (λ cs, cs ∖ {[c]}) p (pending_security_update_remove id c p).2.
Proof.
  unfold pending_security_update_remove. destruct (pending_security_updates_ p !! id) as [cs|] eqn:E.
  - case_bool_decide as Hc.
    + split; [exists []; by rewrite app_nil_r|]. cbn. split_and!; [done|done| |].
      * by rewrite lookup_insert_eq, E.
      * intros id' Hne. by rewrite lookup_insert_ne.
    + apply (only_ext _ (λ cs, cs)); [|apply only_refl]. intros cs' Hcs'. rewrite E in Hcs'.
      injection Hcs' as <-. set_solver.
  - apply (only_ext _ (λ cs, cs)); [by rewrite E|apply only_refl].
Qed.

Lemma only_send id e c m p : only id (λ cs, cs) p (send_to e c m p).2.
Proof. unfold send_to. destruct (find_local e c); [by apply only_record|apply only_refl]. Qed.

(** A loop that removes the clients for which [bad] holds. *)
Lemma only_loop id (step : pending → Z → pending) (bad : Z → bool) l p :
  (∀ p c, only id (λ cs, if bad c then cs ∖ {[c]} else cs) p (step p c)) →
  only id (λ cs, filter (λ c, ¬ (c ∈ l ∧ bad c = true)) cs) p (foldl step p l).
Proof.
  intros Hs. revert p. induction l as [|c l IH]; intros p; cbn [foldl].
  - apply (only_ext _ (λ cs, cs)); [|apply only_refl]. intros cs _. apply set_eq. intros x.
    rewrite elem_of_filter. set_solver.
  - eapply only_ext; [|eapply only_trans; [apply Hs|apply IH]]. intros cs _. cbn. apply set_eq. intros x.
    rewrite !elem_of_filter, elem_of_cons. destruct (bad c) eqn:Eb.
    + rewrite elem_of_difference, elem_of_singleton. split; [|naive_solver].
      intros (?&?&?). split; [|done]. intros [[->|?] ?]; tauto.
    + split; [|naive_solver]. intros (?&?). split; [|done]. intros [[->|?] ?]; [congruence|tauto].
Qed.

(** What only concerns [id'] keeps another update, and narrows this one. *)
Lemma only_moves id h id' f p p' cs : only id' f p p' → tracks id h cs p →
  moves id h p p' (if decide (id' = id) then f <$> cs else cs) [].
Proof.
  intros ((tr&E&Q)&Hh&_&U&O) [Hu Hhd]. exists tr. split; [done|]. intros _.
  destruct (quiet_calls id tr Q) as [-> _]. split; [|done]. unfold tracks. rewrite Hh, Hhd.
  destruct (decide (id' = id)) as [->|Hne].
  - rewrite U, Hu. by destruct cs.
  - by rewrite O, Hu.
Qed.

Definition grows (p p' : pending) : Prop := ∃ tr, trace p' = trace p ++ tr.
Lemma grows_refl p : grows p p.
Proof. exists []. by rewrite app_nil_r. Qed.
Lemma grows_trans p1 p2 p3 : grows p1 p2 → grows p2 p3 → grows p1 p3.
Proof. intros [tr1 E1] [tr2 E2]. exists (tr1 ++ tr2). by rewrite E2, E1, app_assoc. Qed.
Lemma only_grows id f p p' : only id f p p' → grows p p'.
Proof. intros ((tr&E&_)&_). by exists tr. Qed.

Lemma call_handler_grows id r p : grows p (call_handler id r p).
Proof. unfold call_handler. destruct (security_update_handlers_ p !! id); [by eexists [_]|apply grows_refl]. Qed.

Lemma call_handler_other id h id' r p cs : id' ≠ id → tracks id h cs p →
  moves id h p (call_handler id' r p) cs [].
Proof.
  intros Hne [Hu Hh]. unfold call_handler. destruct (security_update_handlers_ p !! id') as [h'|]; [|by apply moves_refl].
  exists [Handled (Some id') h' r]. split; [done|]. intros _. split.
  - split; [done|]. cbn. by rewrite lookup_delete_ne.
  - unfold calls. cbn. by rewrite decide_False.
Qed.

Lemma call_handler_own id h r p : security_update_handlers_ p !! id = Some h →
  pending_security_updates_ p !! id = None → moves id h p (call_handler id r p) None [r].
Proof.
  intros Hh Hu. unfold call_handler. rewrite Hh. exists [Handled (Some id) h r]. split; [done|]. intros _. split.
  - split; [done|]. cbn. by rewrite lookup_delete_eq.
  - unfold calls. cbn. by rewrite decide_True.
Qed.

Lemma call_handler_none id h r p : tracks id h None p → moves id h p (call_handler id r p) None [].
Proof.
  intros [Hu Hh]. unfold call_handler. rewrite Hh. by apply moves_refl.
Qed.

(** Only the timers and the trace differ. *)
Lemma moves_timers id h p p' p'' cs rs : moves id h p' p'' cs rs →
  (∃ tr, trace p' = trace p ++ tr ∧ Forall quiet tr) → moves id h p p'' cs rs.
Proof.
  intros (tr2&E2&H2) (tr1&E1&Q). exists (tr1 ++ tr2). rewrite E2, E1, app_assoc. split; [done|].
  rewrite elem_of_app. intros Hn. destruct H2 as [Ht Hc]; [tauto|]. split; [done|].
  destruct (quiet_calls id tr1 Q) as [Hq _]. by rewrite calls_app, Hq, Hc.
Qed.

(** The end of [on_security_update_response], when no answer is missing. *)
Definition finish (id : Z) (p : pending) : pending :=
  call_handler id SU_SUCCESS
    (if bool_decide (id ∈ security_update_timers_ p) then erase_timer id (record (TimerCancelled id) p) else p).

Lemma finish_view id p : ∃ p', finish id p = call_handler id SU_SUCCESS p' ∧
  (∃ tr, trace p' = trace p ++ tr ∧ Forall quiet tr) ∧
  pending_security_updates_ p' = pending_security_updates_ p ∧
  security_update_handlers_ p' = security_update_handlers_ p.
Proof.
  unfold finish. case_bool_decide; eexists; (split; [done|]).
  - split; [|done]. exists [TimerCancelled id]. split; [done|by repeat constructor].
  - split; [|done]. exists []. by rewrite app_nil_r.
Qed.

Lemma response_view id c p : on_security_update_response id c p =
  match pending_security_updates_ p !! id with
  | Some cs =>
      if decide (c ∈ cs) then
        if decide (cs ∖ {[c]} = ∅)
        then finish id (set_updates (delete id (pending_security_updates_ p)) p)
        else set_updates (<[id := cs ∖ {[c]}]> (pending_security_updates_ p)) p
      else p
  | None => p
  end.
Proof.
  unfold on_security_update_response, pending_security_update_remove.
  destruct (pending_security_updates_ p !! id) as [cs|] eqn:E; [|done].
  case_bool_decide; [rewrite decide_True by done|by rewrite decide_False].
  unfold is_pending_security_update_finished. cbn. rewrite lookup_insert_eq.
  case_bool_decide; [rewrite decide_True by done|by rewrite decide_False].
  cbn. unfold finish, set_updates, erase_timer, record. cbn. by rewrite delete_insert_eq.
Qed.

Lemma response_own id h c p cs : tracks id h (Some cs) p →
  moves id h p (on_security_update_response id c p) (spec_response c cs).1 (spec_response c cs).2.
Proof.
  intros Ht. pose proof Ht as [Hu Hh]. rewrite response_view, Hu. unfold spec_response.
  destruct (decide (c ∈ cs)); [|by apply moves_refl]. destruct (decide (cs ∖ {[c]} = ∅)).
  - destruct (finish_view id (set_updates (delete id (pending_security_updates_ p)) p)) as (p'&->&Hq&Hu'&Hh').
    eapply moves_timers; [|exact Hq]. apply call_handler_own; [by rewrite Hh'|].
    rewrite Hu'. apply lookup_delete_eq.
  - exists []. rewrite app_nil_r. split; [done|]. intros _. split; [|done]. split; [|done]. cbn. apply lookup_insert_eq.
Qed.

Lemma response_none id h c p : tracks id h None p →
  moves id h p (on_security_update_response id c p) None [].
Proof. intros Ht. rewrite response_view. destruct Ht as [Hu Hh]. rewrite Hu. by apply moves_refl. Qed.

Lemma response_other id h id' c p cs : id' ≠ id → tracks id h cs p →
  moves id h p (on_security_update_response id' c p) cs [].
Proof.
  intros Hne Ht. rewrite response_view. destruct Ht as [Hu Hh].
  destruct (pending_security_updates_ p !! id') as [cs'|]; [|by apply moves_refl].
  destruct (decide (c ∈ cs')); [|by apply moves_refl]. destruct (decide (cs' ∖ {[c]} = ∅)).
  - destruct (finish_view id' (set_updates (delete id' (pending_security_updates_ p)) p)) as (p'&->&Hq&Hu'&Hh').
    eapply moves_timers; [|exact Hq]. apply call_handler_other; [done|]. split; [|by rewrite Hh'].
    rewrite Hu'. cbn. by rewrite lookup_delete_ne.
  - exists []. rewrite app_nil_r. split; [done|]. intros _. split; [|done]. split; [|done]. cbn. by rewrite lookup_insert_ne.
Qed.

(** ** The timer *)

Lemma timeout_view e id p : ∃ p', on_security_update_timeout e false id p =
    call_handler id (if decide (pending_security_update_get id p' = ∅) then SU_SUCCESS else SU_UNKNOWN_USER_ID)
      (set_updates (delete id (pending_security_updates_ p')) p') ∧
  only id (λ cs, filter (λ c, find_local e c = true) cs) p p'.
Proof.
  unfold on_security_update_timeout. eexists. split.
  { match goal with |- call_handler _ (if bool_decide ?P then _ else _) _ = _ =>
      instantiate (1 := foldl (λ p c, if negb (find_local e c) then (pending_security_update_remove id c p).2 else p)
        (erase_timer id p) (elements (pending_security_update_get id p))) end.
    f_equal. case_bool_decide; [by rewrite decide_True|by rewrite decide_False]. }
  eapply only_ext; [|apply (only_trans _ (λ cs, cs)) with (p2 := erase_timer id p);
    [|apply (only_loop _ _ (λ c, negb (find_local e c)))]].
  - intros cs Hcs. apply set_eq. intros x. unfold pending_security_update_get. rewrite Hcs. cbn.
    rewrite !elem_of_filter, elem_of_elements. destruct (find_local e x); cbn; naive_solver.
  - split; [exists []; by rewrite app_nil_r|]. split_and!; [done|done| |done]. cbn.
    by destruct (pending_security_updates_ p !! id).
  - intros p' c. destruct (find_local e c); cbn [negb]; [apply only_refl|apply only_remove].
Qed.

Lemma timeout_own e id h p cs : tracks id h (Some cs) p →
  moves id h p (on_security_update_timeout e false id p) (spec_timeout e cs).1 (spec_timeout e cs).2.
Proof.
  intros [Hu Hh]. destruct (timeout_view e id p) as (p'&->&Ho). destruct Ho as (Hq&Hh'&_&Hu'&_).
  eapply moves_timers; [|exact Hq]. unfold spec_timeout. cbn [fst snd].
  unfold pending_security_update_get. rewrite Hu', Hu. cbn [fmap option_fmap option_map default].
  refine (call_handler_own id h _ (set_updates _ p') _ _); [by cbn; rewrite Hh'|apply lookup_delete_eq].
Qed.

Lemma timeout_none e id h p : tracks id h None p →
  moves id h p (on_security_update_timeout e false id p) None [].
Proof.
  intros [Hu Hh]. destruct (timeout_view e id p) as (p'&->&(Hq&Hh'&_&Hu'&_)).
  eapply moves_timers; [|exact Hq]. refine (call_handler_none id h _ (set_updates _ p') _).
  split; [apply lookup_delete_eq|]. cbn. by rewrite Hh'.
Qed.

Lemma timeout_other e id h id' p cs : id' ≠ id → tracks id h cs p →
  moves id h p (on_security_update_timeout e false id' p) cs [].
Proof.
  intros Hne [Hu Hh]. destruct (timeout_view e id' p) as (p'&->&(Hq&Hh'&_&_&Hu')).
  eapply moves_timers; [|exact Hq]. refine (call_handler_other id h id' _ (set_updates _ p') cs Hne _).
  split; cbn; [rewrite lookup_delete_ne by done; by rewrite Hu'|by rewrite Hh'].
Qed.

(** ** New updates *)

(** The request can be sent to the client. *)
Definition reached (e : env) (c : Z) : bool := find_local e c && send_result e c.

(** The state after an identifier was handed out for the clients [cs]. *)
Definition next_id (p : pending) : Z := (pending_security_update_add ∅ p).1.

Lemma add_view cs p : pending_security_update_add cs p =
  (next_id p, Pending (next_id p) (<[next_id p := cs]> (pending_security_updates_ p)) (security_update_handlers_ p)
    (security_update_timers_ p) (trace p ++ [Added (next_id p)])).
Proof. done. Qed.

Lemma inform_client_only e request id c p :
  only id (λ cs, if reached e c then cs else cs ∖ {[c]}) p (inform_client e request id p c).
Proof.
  unfold inform_client, reached. pose proof (only_send id e c (request c id) p) as Hs.
  unfold send_to in *. destruct (find_local e c); cbn [andb negb]; [|apply only_remove].
  destruct (send_result e c); cbn [negb]; [done|].
  eapply only_ext; [|eapply only_trans; [exact Hs|apply only_remove]]. done.
Qed.

(** Another identifier is handed out, with or without a callback. *)
Lemma moves_added id h p p1 n cs tr : tracks id h cs p → trace p1 = trace p ++ Added n :: tr → Forall quiet tr →
  (n ≠ id → tracks id h cs p1) → moves id h p p1 cs [].
Proof.
  intros Ht E Q H1. exists (Added n :: tr). split; [done|]. rewrite not_elem_of_cons. intros [Hn _].
  destruct (quiet_calls id tr Q) as [Hc _]. split; [apply H1; congruence|].
  unfold calls in *. cbn. by rewrite Hc.
Qed.

Lemma inform_start_view e request h p : connected_clients e ≠ ∅ → ∃ p1,
  inform_start e request h p = (Some (Sending (next_id p) request (elements (connected_clients e))), p1) ∧
  trace p1 = trace p ++ [Added (next_id p); TimerStarted (next_id p)] ∧
  pending_security_updates_ p1 = <[next_id p := connected_clients e]> (pending_security_updates_ p) ∧
  security_update_handlers_ p1 = <[next_id p := h]> (security_update_handlers_ p).
Proof.
  intros Hne. unfold inform_start. rewrite bool_decide_false by done. rewrite add_view.
  eexists. split; [done|]. cbn. by rewrite <- app_assoc.
Qed.

Lemma inform_start_other e request h' id h p cs : tracks id h cs p →
  moves id h p (inform_start e request h' p).2 cs [].
Proof.
  intros Ht. destruct (decide (connected_clients e = ∅)) as [Hc|Hc].
  - unfold inform_start. rewrite bool_decide_true by done.
    exists [Handled None h' SU_SUCCESS]. split; [done|]. intros _. by destruct Ht.
  - destruct (inform_start_view e request h' p Hc) as (p1&->&E&Hu&Hh).
    eapply moves_added; [done|exact E|by repeat constructor|].
    intros Hne. destruct Ht. split; cbn; [by rewrite Hu, lookup_insert_ne|by rewrite Hh, lookup_insert_ne].
Qed.

Lemma inform_start_grows e request h p : grows p (inform_start e request h p).2.
Proof.
  destruct (decide (connected_clients e = ∅)) as [Hc|Hc].
  - unfold inform_start. rewrite bool_decide_true by done. by eexists [_].
  - destruct (inform_start_view e request h p Hc) as (p1&->&E&_). by eexists.
Qed.

Lemma send_requester_policy_view e cl d p : only (next_id p)
  (λ cs, filter (λ c, ¬ (c ∈ elements cl ∧ false = true)) cs)
  (pending_security_update_add cl p).2 (send_requester_policy e cl d p).
Proof.
  unfold send_requester_policy. rewrite add_view. apply (only_loop _ _ (λ _, false)).
  intros p' c. apply only_send.
Qed.

Lemma send_requester_policy_grows e cl d p : grows p (send_requester_policy e cl d p).
Proof. eapply grows_trans; [|eapply only_grows, send_requester_policy_view]. by eexists. Qed.

Lemma send_requester_policy_moves e cl d id h p cs : tracks id h cs p →
  moves id h p (send_requester_policy e cl d p) cs [].
Proof.
  intros Ht. pose proof (send_requester_policy_view e cl d p) as Ho.
  assert (moves id h p (pending_security_update_add cl p).2 cs []) as Hm.
  { apply (moves_added id h p _ (next_id p) cs []); [done|done|constructor|].
    intros Hne. destruct Ht. split; [cbn; by rewrite lookup_insert_ne|done]. }
  destruct (decide (next_id p = id)) as [<-|Hne].
  - destruct (only_grows _ _ _ _ Ho) as [tr E]. exists (Added (next_id p) :: tr).
    split; [rewrite E; cbn; by rewrite <- app_assoc|]. rewrite not_elem_of_cons. by intros [? _].
  - apply (moves_trans id h _ _ _ cs cs [] [] Hm); [|by eapply only_grows]. intros Ht1.
    pose proof (only_moves id h _ _ _ _ cs Ho Ht1) as Hm1. by rewrite decide_False in Hm1.
Qed.

Lemma response_grows id c p : grows p (on_security_update_response id c p).
Proof.
  rewrite response_view. destruct (pending_security_updates_ p !! id) as [cs|]; [|apply grows_refl].
  destruct (decide _); [|apply grows_refl]. destruct (decide _); [|by exists []; rewrite app_nil_r].
  match goal with |- grows _ (finish _ ?q) => destruct (finish_view id q) as (p'&->&(tr&E&_)&_) end.
  eapply grows_trans; [|apply call_handler_grows]. by exists tr.
Qed.

Lemma timeout_grows e err id p : grows p (on_security_update_timeout e err id p).
Proof.
  destruct err; [apply grows_refl|]. destruct (timeout_view e id p) as (p'&->&Ho%only_grows).
  eapply grows_trans; [exact Ho|]. apply (call_handler_grows id _ (set_updates _ p')).
Qed.

(** ** Everything that happens to the pending updates

    The loop over the clients runs without a lock and pauses between the clients, so that
    answers, timers and other updates come in between: [loops] has the loops of all updates
    and removals, in the order in which they started, with the clients still to inform. *)
Record distribution : Type := Distribution { pend : pending; loops : list sending }.

Inductive event : Type :=
  | Inform (e : env) (request : Z → Z → list Z) (handler : Z)
  | SendNext (n : nat) (e : env)
  | SendPolicy (e : env) (clients : gset Z) (policy_data : list Z)
  | Refuse (handler : Z)                            (* a removal without an update before *)
  | Response (id client : Z)
  | Timeout (e : env) (error : bool) (id : Z).

Definition step (v : event) (d : distribution) : distribution :=
  match v with
  | Inform e request h =>
      let '(l, p) := inform_start e request h (pend d) in Distribution p (loops d ++ option_list l)
  | SendNext n e =>
      match loops d !! n with
      | Some (Sending id request (c :: cs)) =>
          Distribution (inform_client e request id (pend d) c) (<[n := Sending id request cs]> (loops d))
      | _ => d
      end
  | SendPolicy e cl data => Distribution (send_requester_policy e cl data (pend d)) (loops d)
  | Refuse h => Distribution (record (Handled None h SU_UNKNOWN_USER_ID) (pend d)) (loops d)
  | Response id c => Distribution (on_security_update_response id c (pend d)) (loops d)
  | Timeout e err id => Distribution (on_security_update_timeout e err id (pend d)) (loops d)
  end.

Fixpoint run (vs : list event) (d : distribution) : distribution :=
  match vs with [] => d | v :: vs => run vs (step v d) end.

Lemma run_app vs1 vs2 d : run (vs1 ++ vs2) d = run vs2 (run vs1 d).
Proof. revert d. induction vs1 as [|v vs1 IH]; intros d; cbn [app run]; [done|apply IH]. Qed.

(** A loop that runs on its own informs all clients one after the other. *)
Lemma run_loop e n id request l d : loops d !! n = Some (Sending id request l) →
  pend (run (replicate (length l) (SendNext n e)) d) = foldl (inform_client e request id) (pend d) l.
Proof.
  revert d. induction l as [|c l IH]; intros d Hl; cbn [length replicate run foldl]; [done|].
  rewrite IH; cbn [step]; rewrite Hl; [done|]. apply list_lookup_insert_eq. by eapply lookup_lt_Some.
Qed.

Lemma run_inform e request h p : ∃ k,
  pend (run (Inform e request h :: replicate k (SendNext 0 e)) (Distribution p [])) = inform_clients e request h p.
Proof.
  unfold inform_clients. cbn [run step loops pend]. destruct (inform_start e request h p) as [[[id req l]|] p1] eqn:E; cbn.
  - exists (length l). by rewrite (run_loop e 0 id req l).
  - by exists O.
Qed.

(** The same for a single update, whose loop is the [n]th: the clients whose answer is
    missing, [None] when the caller has been told, and the clients still to inform. *)
Record round : Type := Round { missing : option (gset Z); uninformed : list Z }.

Definition spec_step (id : Z) (n : nat) (v : event) (r : round) : round * list security_update_state_e :=
  match v, missing r with
  | SendNext n' e, m =>
      if decide (n' = n) then
        match uninformed r with
        | c :: cs => (Round ((λ m, if reached e c then m else m ∖ {[c]}) <$> m) cs, [])
        | [] => (r, [])
        end
      else (r, [])
  | Response id' c, Some m =>
      if decide (id' = id) then ((λ m, Round m (uninformed r)) (spec_response c m).1, (spec_response c m).2)
      else (r, [])
  | Timeout e false id', Some m =>
      if decide (id' = id) then (Round (spec_timeout e m).1 (uninformed r), (spec_timeout e m).2) else (r, [])
  | _, _ => (r, [])
  end.

Fixpoint spec_run (id : Z) (n : nat) (vs : list event) (r : round) : round * list security_update_state_e :=
  match vs with
  | [] => (r, [])
  | v :: vs =>
      let '(r, rs) := spec_step id n v r in
      let '(r', rs') := spec_run id n vs r in (r', rs ++ rs')
  end.

(** No loop but the [n]th informs clients about the update. *)
Definition sole (id : Z) (n : nat) (ls : list sending) : Prop :=
  ∀ n' l, n' ≠ n → ls !! n' = Some l → its_id l = id → its_clients_to_inform l = [].

Definition follows (id h : Z) (n : nat) (r : round) (d : distribution) : Prop :=
  tracks id h (missing r) (pend d) ∧
  (∃ request, loops d !! n = Some (Sending id request (uninformed r))) ∧ sole id n (loops d).

(** As [moves], with the loops. *)
Definition advances (id h : Z) (n : nat) (d d' : distribution) (r : round) (rs : list security_update_state_e) : Prop :=
  ∃ tr, trace (pend d') = trace (pend d) ++ tr ∧
    (Added id ∉ tr → follows id h n r d' ∧ calls id tr = (λ x, (h, x)) <$> rs).

Lemma advances_moves id h n d p' u m0 m rs : follows id h n (Round m0 u) d → moves id h (pend d) p' m rs →
  advances id h n d (Distribution p' (loops d)) (Round m u) rs.
Proof.
  intros (_&Hl&Hs) (tr&E&Hm). exists tr. split; [done|]. intros Hn. destruct (Hm Hn) as [Ht Hc].
  split; [|done]. by split_and!.
Qed.

Lemma step_grows v d : grows (pend d) (pend (step v d)).
Proof.
  destruct v as [e request h|n e|e cl data|h|id c|e err id]; cbn [step].
  - pose proof (inform_start_grows e request h (pend d)). by destruct (inform_start e request h (pend d)).
  - destruct (loops d !! n) as [[id request [|c cs]]|]; [apply grows_refl| |apply grows_refl].
    eapply only_grows, inform_client_only.
  - apply send_requester_policy_grows.
  - by eexists [_].
  - apply response_grows.
  - apply timeout_grows.
Qed.

Lemma advances_inform id h n e request h' r d : follows id h n r d →
  advances id h n d (step (Inform e request h') d) r [].
Proof.
  intros (Ht&[rq Hl]&Hs). pose proof (inform_start_other e request h' id h (pend d) _ Ht) as (tr&E&Hm).
  cbn [step]. destruct (inform_start e request h' (pend d)) as [l p'] eqn:El. cbn [snd] in *.
  exists tr. split; [done|]. intros Hn. destruct (Hm Hn) as [Ht' Hc]. split; [|done]. split_and!; [done| |].
  - exists rq. by apply lookup_app_l_Some.
  - intros n' l' Hne Hl' Hid. apply lookup_app_Some in Hl' as [Hl'|[_ Hl']]; [by eapply Hs|].
    destruct l as [l|]; [|done]. cbn in Hl'. apply list_lookup_singleton_Some in Hl' as [_ <-].
    destruct (decide (connected_clients e = ∅)) as [Hce|Hce].
    { unfold inform_start in El. by rewrite bool_decide_true in El. }
    destruct (inform_start_view e request h' (pend d) Hce) as (p1&E1&Etr&_). rewrite El in E1.
    injection E1 as -> ->. cbn [its_id] in Hid. destruct Hn. rewrite Etr in E. apply app_inv_head in E as <-.
    rewrite <- Hid. by left.
Qed.

Lemma advances_send id h n n' e r d : follows id h n r d →
  advances id h n d (step (SendNext n' e) d) (spec_step id n (SendNext n' e) r).1 (spec_step id n (SendNext n' e) r).2.
Proof.
  intros Hf. pose proof Hf as (Ht&[rq Hl]&Hs). destruct r as [m u]. cbn [missing uninformed] in *.
  assert (advances id h n d d (Round m u) []) as Hidle by (exists []; by rewrite app_nil_r).
  cbn [step spec_step missing uninformed]. destruct (decide (n' = n)) as [->|Hne].
  - rewrite Hl. destruct u as [|c u]; [done|]. cbn [fst snd].
    pose proof (only_moves id h id _ _ _ m (inform_client_only e rq id c (pend d)) Ht) as (tr&E&Hm).
    exists tr. split; [done|]. intros Hn. destruct (Hm Hn) as [Ht' Hc]. split; [|done]. rewrite decide_True in Ht' by done.
    split_and!; cbn [pend loops missing uninformed]; [done| |].
    + exists rq. apply list_lookup_insert_eq. by eapply lookup_lt_Some.
    + intros i l Hi Hil. rewrite list_lookup_insert_ne in Hil by done. by apply (Hs i l).
  - cbn [fst snd]. destruct (loops d !! n') as [[j rq' [|c cs]]|] eqn:El; [done| |done].
    assert (j ≠ id) as Hj by (intros ->; by specialize (Hs n' _ Hne El eq_refl)).
    pose proof (only_moves id h j _ _ _ m (inform_client_only e rq' j c (pend d)) Ht) as (tr&E&Hm).
    exists tr. split; [done|]. intros Hn. destruct (Hm Hn) as [Ht' Hc]. split; [|done]. rewrite decide_False in Ht' by done.
    split_and!; cbn [pend loops missing uninformed]; [done| |].
    + exists rq. by rewrite list_lookup_insert_ne.
    + intros i l Hi Hil Hid. destruct (decide (i = n')) as [->|Hi'].
      * rewrite list_lookup_insert_eq in Hil by (by eapply lookup_lt_Some). by injection Hil as <-.
      * rewrite list_lookup_insert_ne in Hil by done. by apply (Hs i l).
Qed.

Lemma step_advances v id h n r d : follows id h n r d →
  advances id h n d (step v d) (spec_step id n v r).1 (spec_step id n v r).2.
Proof.
  intros Hf. pose proof Hf as (Ht&_&_). destruct r as [m u]. cbn [missing uninformed] in *.
  destruct v as [e request h'|n' e|e cl data|h'|id' c|e err id'].
  - destruct m; by apply advances_inform.
  - by apply advances_send.
  - pose proof (send_requester_policy_moves e cl data id h (pend d) m Ht) as Hm.
    destruct m; by eapply advances_moves.
  - assert (moves id h (pend d) (record (Handled None h' SU_UNKNOWN_USER_ID) (pend d)) m []) as Hm
      by (exists [Handled None h' SU_UNKNOWN_USER_ID]; split; [done|]; intros _; by destruct Ht).
    destruct m; by eapply advances_moves.
  - cbn [step spec_step missing uninformed]. destruct m as [m|].
    + destruct (decide (id' = id)) as [->|Hne]; (eapply advances_moves; [exact Hf|]);
        [by apply response_own|by apply response_other].
    + eapply advances_moves; [exact Hf|].
      destruct (decide (id' = id)) as [->|Hne]; [by apply response_none|by apply response_other].
  - cbn [step spec_step missing uninformed]. destruct err.
    { destruct m; (eapply advances_moves; [exact Hf|]); by apply moves_refl. }
    destruct m as [m|].
    + destruct (decide (id' = id)) as [->|Hne]; (eapply advances_moves; [exact Hf|]);
        [by apply timeout_own|by apply timeout_other].
    + eapply advances_moves; [exact Hf|].
      destruct (decide (id' = id)) as [->|Hne]; [by apply timeout_none|by apply timeout_other].
Qed.

Lemma run_grows vs d : grows (pend d) (pend (run vs d)).
Proof.
  revert d. induction vs as [|v vs IH]; intros d; [apply grows_refl|].
  eapply grows_trans; [apply step_grows|apply IH].
Qed.

Lemma run_advances vs id h n r d : follows id h n r d →
  advances id h n d (run vs d) (spec_run id n vs r).1 (spec_run id n vs r).2.
Proof.
  revert r d. induction vs as [|v vs IH]; intros r d Hf; cbn [run spec_run].
  { exists []. rewrite app_nil_r. by split. }
  destruct (step_advances v id h n r d Hf) as (tr1&E1&H1). destruct (run_grows vs (step v d)) as [tr2 E2].
  exists (tr1 ++ tr2). rewrite E2, E1, app_assoc. split; [done|]. rewrite elem_of_app. intros Hn.
  destruct H1 as [Hf1 C1]; [tauto|]. destruct (spec_step id n v r) as [r1 rs1]. cbn [fst snd] in *.
  destruct (IH r1 _ Hf1) as (tr2'&E2'&H2).
  assert (tr2' = tr2) as -> by (apply (app_inv_head (trace (pend (step v d)))); by rewrite <- E2, <- E2').
  destruct (spec_run id n vs r1) as [r2 rs2]. cbn [fst snd] in *.
  destruct H2 as [Hf2 C2]; [tauto|]. split; [done|]. by rewrite calls_app, C1, C2, fmap_app.
Qed.

(** ** What a caller is told *)

Lemma spec_run_app id n vs1 vs2 r : spec_run id n (vs1 ++ vs2) r =
  let '(r1, rs1) := spec_run id n vs1 r in let '(r2, rs2) := spec_run id n vs2 r1 in (r2, rs1 ++ rs2).
Proof.
  revert r. induction vs1 as [|v vs1 IH]; intros r; cbn [app spec_run]; [by destruct (spec_run id n vs2 r)|].
  destruct (spec_step id n v r) as [r1 rs1]. rewrite IH. destruct (spec_run id n vs1 r1) as [r2 rs2].
  destruct (spec_run id n vs2 r2) as [r3 rs3]. by rewrite app_assoc.
Qed.

(** A step of a round that is over says nothing; one of an open round leaves it open, with
    the same clients missing or fewer, or tells the caller something. *)
Lemma spec_step_over id n v u : ∃ u', spec_step id n v (Round None u) = (Round None u', []).
Proof.
  destruct v as [| | | | |e []]; cbn; try (by eexists).
  destruct (decide _); [destruct u|]; by eexists.
Qed.

Lemma spec_step_open id n v m u :
  (∃ m' u', spec_step id n v (Round (Some m) u) = (Round (Some m') u', []) ∧ m' ⊆ m ∧ (∀ c, c ∈ u' → c ∈ u) ∧
     (∀ e, v ≠ Timeout e false id) ∧ (∀ c, v = Response id c → c ∉ m') ∧
     (m ≠ ∅ → m' ≠ ∅ ∨ ∃ e c, v = SendNext n e ∧ c ∈ u ∧ reached e c = false)) ∨
  (∃ r, spec_step id n v (Round (Some m) u) = (Round None u, [r]) ∧
     ((∃ e, v = Timeout e false id) ∨ r = SU_SUCCESS)).
Proof.
  destruct v as [e rq h|n' e|e cl dt|h|id' c|e [] id']; cbn [spec_step missing uninformed].
  - left. exists m, u. split_and!; try done. by left.
  - left. destruct (decide (n' = n)) as [->|]; [|exists m, u; split_and!; try done; by left].
    destruct u as [|c u]; [exists m, []; split_and!; try done; by left|].
    eexists _, u. split; [reflexivity|]. destruct (reached e c) eqn:Er.
    + split_and!; try done; [intros; by right|by left].
    + split_and!; try done; [set_solver|intros; by right|]. intros _. right. exists e, c. by split_and!; [|left|].
  - left. exists m, u. split_and!; try done. by left.
  - left. exists m, u. split_and!; try done. by left.
  - destruct (decide (id' = id)) as [->|Hne]; cycle 1.
    { left. exists m, u. split_and!; try done; [congruence|by left]. }
    unfold spec_response. destruct (decide (c ∈ m)); [destruct (decide _)|]; cbn [fst snd].
    + right. exists SU_SUCCESS. by split; [|right].
    + left. eexists _, u. split; [reflexivity|]. split_and!; try done; [set_solver|intros ? [= ->]; set_solver|by left].
    + left. exists m, u. split_and!; try done; [by intros ? [= ->]|by left].
  - left. exists m, u. split_and!; try done. by left.
  - destruct (decide (id' = id)) as [->|Hne]; cycle 1.
    { left. exists m, u. split_and!; try done; [congruence|by left]. }
    right. eexists. split; [done|]. left. by exists e.
Qed.

Lemma spec_run_over id n vs u : ∃ u', spec_run id n vs (Round None u) = (Round None u', []).
Proof.
  revert u. induction vs as [|v vs IH]; intros u; cbn [spec_run]; [by eexists|].
  destruct (spec_step_over id n v u) as [u1 ->]. destruct (IH u1) as [u2 ->]. by exists u2.
Qed.

(** The caller is told once, when the round is over, and not before.  If the answers of all
    clients are dispensed with and the caller has not been told, some request could not be
    sent. *)
Lemma spec_run_told id n vs m u r' rs : spec_run id n vs (Round (Some m) u) = (r', rs) →
  (∃ r, rs = [r] ∧ missing r' = None) ∨
  (rs = [] ∧ ∃ m', missing r' = Some m' ∧ (m ≠ ∅ → m' = ∅ →
     ∃ e c, SendNext n e ∈ vs ∧ c ∈ u ∧ reached e c = false)).
Proof.
  revert m u. induction vs as [|v vs IH]; intros m u; cbn [spec_run].
  { intros [= <- <-]. right. split; [done|]. by exists m. }
  destruct (spec_step_open id n v m u) as [(m1&u1&->&_&Hu&_&_&Hne)|(r&->&_)].
  - destruct (spec_run id n vs (Round (Some m1) u1)) as [r1 rs1] eqn:E. intros [= <- <-].
    destruct (IH _ _ E) as [(r&->&?)|(->&m'&?&Hm')]; [left; by exists r|]. right. split; [done|]. exists m'.
    split; [done|]. intros H1 H2. destruct (Hne H1) as [Hne1|(e&c&->&?&?)].
    + destruct (Hm' Hne1 H2) as (e&c&?&?&?). exists e, c. split_and!; [by right|by apply Hu|done].
    + exists e, c. by split_and!; [left|..].
  - destruct (spec_run_over id n vs u) as [u' ->]. intros [= <- <-]. left. by exists r.
Qed.

Lemma spec_run_timeout id n vs r e : Timeout e false id ∈ vs → missing (spec_run id n vs r).1 = None.
Proof.
  revert r. induction vs as [|v vs IH]; intros [[m|] u]; [by intros ?%not_elem_of_nil..| |].
  - rewrite elem_of_cons. cbn [spec_run].
    destruct (spec_step_open id n v m u) as [(m1&u1&->&_&_&Ht&_)|(x&->&_)].
    + intros [<-|Hv]; [by destruct (Ht e)|]. specialize (IH (Round (Some m1) u1) Hv). by destruct (spec_run id n vs _).
    + intros _. by destruct (spec_run_over id n vs u) as [u' ->].
  - intros _. by destruct (spec_run_over id n (v :: vs) u) as [u' ->].
Qed.

Lemma spec_run_answered id n vs m u : m ≠ ∅ → (∀ c, c ∈ m → Response id c ∈ vs) →
  (∀ e, Timeout e false id ∉ vs) → (∀ e c, SendNext n e ∈ vs → c ∈ u → reached e c = true) →
  (spec_run id n vs (Round (Some m) u)).2 = [SU_SUCCESS].
Proof.
  revert m u. induction vs as [|v vs IH]; intros m u Hne Hc Ht Hs.
  { destruct (set_choose_L m Hne) as [c Hin]. by apply Hc, not_elem_of_nil in Hin. }
  cbn [spec_run]. destruct (spec_step_open id n v m u) as [(m1&u1&->&Hsub&Hu&_&Hr&Hne')|(r&->&Hr)].
  - assert (m1 ≠ ∅) as Hm1.
    { destruct (Hne' Hne) as [|(e&c&->&Hin&Hf)]; [done|]. rewrite (Hs e c) in Hf; [done|by left|done]. }
    specialize (IH m1 u1 Hm1). destruct (spec_run id n vs (Round (Some m1) u1)). apply IH.
    + intros c Hin. destruct (proj1 (elem_of_cons _ _ _) (Hc c ltac:(set_solver))) as [<-|]; [|done]. by apply Hr in Hin.
    + intros e. specialize (Ht e). rewrite elem_of_cons in Ht. tauto.
    + intros e c Hv Hin. apply Hs; [by right|by apply Hu].
  - destruct (spec_run_over id n vs u) as [u' ->]. destruct Hr as [[e ->]| ->]; [|done]. destruct (Ht e). by left.
Qed.

(** The beginning of an update: all connected clients are missing and not informed. *)
Definition first_round (e : env) : round := Round (Some (connected_clients e)) (elements (connected_clients e)).

Lemma inform_follows e request h d : connected_clients e ≠ ∅ →
  (∀ l, l ∈ loops d → its_id l = next_id (pend d) → its_clients_to_inform l = []) →
  follows (next_id (pend d)) h (length (loops d)) (first_round e) (step (Inform e request h) d).
Proof.
  intros Hne Hl. destruct (inform_start_view e request h (pend d) Hne) as (p1&E&_&Hu&Hh). cbn [step]. rewrite E.
  split_and!; cbn.
  - split; [by rewrite Hu, lookup_insert_eq|by rewrite Hh, lookup_insert_eq].
  - exists request. by rewrite list_lookup_middle.
  - intros n' l Hn' Hin Hid. apply lookup_app_Some in Hin as [Hin|[Hge Hin]].
    + by eapply Hl; [eapply list_elem_of_lookup_2|].
    + apply list_lookup_singleton_Some in Hin as [Hz _]. lia.
Qed.

(** C6: The caller of a policy update or removal is told the result once.  Let the
    distribution start with connected clients and an identifier that no running loop uses
    (an update that never gets this far, as one for the service 0xFFFF, tells nobody), and
    let any interleaving follow of sends of this and other loops, answers, timers and new
    updates that does not hand out the identifier again.  The callback is called as for an
    abstract round: at most once; once when the timer has expired; and not at all exactly
    as long as the update is pending.  From any point at which answers are missing: if all
    these clients answer, no further send of the loop fails and the timer does not expire,
    the caller is told success.  If no answer is missing and the caller has not been told, a
    send of the loop has failed; then only the timer tells it. *)
Theorem security_update_answered e request h vs d :
  connected_clients e ≠ ∅ →
  (∀ l, l ∈ loops d → its_id l = next_id (pend d) → its_clients_to_inform l = []) →
  let id := next_id (pend d) in let n := length (loops d) in
  let d1 := step (Inform e request h) d in let d2 := run vs d1 in
  ∃ tr, trace (pend d2) = trace (pend d1) ++ tr ∧ (Added id ∉ tr →
    calls id tr = (λ r, (h, r)) <$> (spec_run id n vs (first_round e)).2 ∧
    (length (calls id tr) ≤ 1)%nat ∧
    (∀ e', Timeout e' false id ∈ vs → ∃ r, calls id tr = [(h, r)]) ∧
    (calls id tr = [] ↔ is_Some (pending_security_updates_ (pend d2) !! id)) ∧
    (∀ vs1 vs2 m u, vs = vs1 ++ vs2 → (spec_run id n vs1 (first_round e)).1 = Round (Some m) u → m ≠ ∅ →
      (∀ c, c ∈ m → Response id c ∈ vs2) → (∀ e', Timeout e' false id ∉ vs2) →
      (∀ e' c, SendNext n e' ∈ vs2 → c ∈ u → reached e' c = true) → calls id tr = [(h, SU_SUCCESS)]) ∧
    (pending_security_updates_ (pend d2) !! id = Some ∅ →
      ∃ e' c, SendNext n e' ∈ vs ∧ c ∈ connected_clients e ∧ reached e' c = false)).
Proof.
  intros Hne Hl id n d1 d2. pose proof (inform_follows e request h d Hne Hl) as Hf.
  destruct (run_advances vs id h n _ _ Hf) as (tr&E&Hc). exists tr. split; [exact E|]. intros Hn.
  destruct (Hc Hn) as [[[Hu _] _] ->]. fold d1 d2 in Hu. rewrite Hu.
  destruct (spec_run id n vs (first_round e)) as [r' rs] eqn:Er. cbn [fst snd].
  pose proof (spec_run_told _ _ _ _ _ _ _ Er) as Htold. split_and!.
  - done.
  - destruct Htold as [(r&->&_)|(->&_)]; cbn; lia.
  - intros e' Ht%(spec_run_timeout id n vs (first_round e)). rewrite Er in Ht. cbn in Ht.
    destruct Htold as [(r&->&_)|(_&m'&Hm&_)]; [by exists r|congruence].
  - destruct Htold as [(r&->&->)|(->&m'&->&_)]; [|by split]. split; [done|by intros []].
  - intros vs1 vs2 m u -> Er1 Hm Ha Ht Hs. rewrite spec_run_app in Er.
    destruct (spec_run id n vs1 (first_round e)) as [r1 rs1] eqn:E1. cbn [fst] in Er1. subst r1.
    pose proof (spec_run_answered id n vs2 m u Hm Ha Ht Hs) as Hans.
    destruct (spec_run_told _ _ _ _ _ _ _ E1) as [(?&_&[=])|(->&_)].
    destruct (spec_run id n vs2 (Round (Some m) u)) as [r2 rs2]. injection Er as <- <-. cbn [snd] in Hans. by rewrite Hans.
  - intros Hm. destruct Htold as [(r&_&?)|(_&m'&Hm'&Hs)]; [congruence|].
    assert (m' = ∅) as -> by congruence. destruct (Hs Hne eq_refl) as (e'&c&?&?%elem_of_elements&?). by exists e', c.
Qed.

Section stub_updates.
  Context `{IclFind}.

(** ** The operations of the stub

    Whatever the stub does to its pending updates are such events. *)
Definition by_events (w w' : stub) : Prop :=
  ∀ ls, ∃ vs, updates w' = pend (run vs (Distribution (updates w) ls)).

Lemma by_events_refl w w' : updates w' = updates w → by_events w w'.
Proof. intros E ls. by exists []. Qed.

Lemma by_events_trans w1 w2 w3 : by_events w1 w2 → by_events w2 w3 → by_events w1 w3.
Proof.
  intros H1 H2 ls. destruct (H1 ls) as [vs1 E1]. set (d := run vs1 (Distribution (updates w1) ls)) in *.
  destruct (H2 (loops d)) as [vs2 E2]. exists (vs1 ++ vs2). rewrite run_app, E2, E1. fold d. by destruct d.
Qed.

Lemma by_events_inform w w' e request h : updates w' = inform_clients e request h (updates w) → by_events w w'.
Proof.
  intros Eu ls. setoid_rewrite Eu. unfold inform_clients.
  destruct (inform_start e request h (updates w)) as [[[id req l]|] p1] eqn:E; cycle 1.
  { exists [Inform e request h]. cbn. by rewrite E. }
  exists (Inform e request h :: replicate (length l) (SendNext (length ls) e)).
  cbn [run step pend loops]. rewrite E. rewrite (run_loop e _ id req l); [done|]. cbn. by rewrite list_lookup_middle.
Qed.

Lemma st_lift_inv {S A} (m : outcome A) (s s' : S) a : st_lift m s = Ret (a, s') → m = Ret a ∧ s' = s.
Proof. unfold st_lift. intros E. by apply outcome_bind_inv in E as (?&?&[= -> ->]). Qed.

Lemma with_updates_inv f w w' : with_updates f w = Ret ((), w') → updates w' = f (updates w).
Proof. by intros [= <-]. Qed.

Lemma send_requester_policies_events fuel e cl ps w w' :
  send_requester_policies fuel e cl ps w = Ret ((), w') → by_events w w'.
Proof.
  revert w. induction ps as [|p ps IH]; intros w; cbn [send_requester_policies].
  { intros [= <-]. by apply by_events_refl. }
  intros E. apply st_bind_inv in E. destruct E as (x&w1&Ex&E). apply st_lift_inv in Ex as [_ ->].
  apply st_bind_inv in E. destruct E as ([]&w1&E1&E). apply (by_events_trans _ w1); [|by apply IH].
  destruct x as [d|]; [|injection E1 as <-; by apply by_events_refl].
  apply with_updates_inv in E1. intros ls. by exists [SendPolicy e cl d].
Qed.

Lemma add_requester_policies_events fuel e uid gid ps w w' :
  add_requester_policies fuel e uid gid ps w = Ret ((), w') → by_events w w'.
Proof.
  unfold add_requester_policies. intros E. apply st_bind_inv in E. destruct E as ([]&w1&[= <-]&E).
  apply st_bind_inv in E. destruct E as (w2&w3&[= <- <-]&E).
  case_bool_decide; [injection E as <-; by apply by_events_refl|].
  eapply by_events_trans; [|by eapply send_requester_policies_events]. by apply by_events_refl.
Qed.

Lemma update_configuration_events fuel e uid gid q payload h b w w' :
  update_security_policy_configuration fuel e uid gid q payload h w = Ret (b, w') → by_events w w'.
Proof.
  unfold update_security_policy_configuration. intros E. apply st_bind_inv in E. destruct E as ([]&w1&[= <-]&E).
  apply st_bind_inv in E. destruct E as (w2&w3&[= <- <-]&E).
  apply st_bind_inv in E. destruct E as (s&w4&Es&E). apply st_lift_inv in Es as [_ ->].
  apply st_bind_inv in E. destruct E as ([]&w5&[= <-]&E).
  apply st_bind_inv in E. destruct E as ([]&w6&E6%add_requester_policies_events&E).
  apply st_bind_inv in E. destruct E as ([]&w7&E7%with_updates_inv&[= <- <-]).
  eapply by_events_trans; [|by eapply by_events_inform]. eapply by_events_trans; [|exact E6]. by apply by_events_refl.
Qed.

Lemma remove_configuration_events e uid gid h b w w' :
  remove_security_policy_configuration e uid gid h w = Ret (b, w') → by_events w w'.
Proof.
  assert (∀ w w' : stub, updates w' = record (Handled None h SU_UNKNOWN_USER_ID) (updates w) → by_events w w') as Hrec.
  { intros v v' E ls. by exists [Refuse h]. }
  unfold remove_security_policy_configuration. intros E. apply st_bind_inv in E. destruct E as (w1&w2&[= <- <-]&E).
  destruct (is_policy_cached uid w).
  - destruct (remove_security_policy uid gid (stub_security w)) as [ok s].
    apply st_bind_inv in E. destruct E as ([]&w3&[= <-]&E). destruct ok; cbn [negb] in E.
    + apply st_bind_inv in E. destruct E as ([]&w4&[= <-]&E).
      apply st_bind_inv in E. destruct E as ([]&w5&E5%with_updates_inv&[= _ <-]). by eapply by_events_inform.
    + apply st_bind_inv in E. destruct E as ([]&w4&E4%with_updates_inv&[= _ <-]). by apply Hrec.
  - apply st_bind_inv in E. destruct E as ([]&w3&E3%with_updates_inv&[= _ <-]). by apply Hrec.
Qed.

Lemma register_policies_events fuel e c w w' : register_policies fuel e c w = Ret ((), w') → by_events w w'.
Proof.
  unfold register_policies. intros E. apply st_bind_inv in E. destruct E as (w1&w2&[= <- <-]&E).
  destruct (default _ _) as [u g].
  destruct (requester_policies_of u g w); [injection E as <-; by apply by_events_refl|].
  by eapply send_requester_policies_events.
Qed.
End stub_updates.

(** ** From the stub to a client and back *)

Lemma command_type t c n l : vget (command t c n l) VSOMEIP_COMMAND_TYPE_POS = Ret t.
Proof. done. Qed.

Lemma command_client t c n l : is_u16 c → load16 (command t c n l) VSOMEIP_COMMAND_CLIENT_POS = Ret c.
Proof. intros Hc. transitivity (Ret (VSOMEIP_BYTES_TO_WORD (VSOMEIP_WORD_BYTE1 c) (VSOMEIP_WORD_BYTE0 c))); [done|by rewrite word_of_be16]. Qed.

(** A double word in a list that begins with [mem32 v]. *)
Lemma load32_mem32 d v l : is_u32 v → d = mem32 v ++ l → load32 d 0 = Ret v.
Proof.
  intros Hv ->. transitivity (Ret (VSOMEIP_BYTES_TO_LONG (VSOMEIP_LONG_BYTE3 v) (VSOMEIP_LONG_BYTE2 v)
    (VSOMEIP_LONG_BYTE1 v) (VSOMEIP_LONG_BYTE0 v))); [done|by rewrite long_of_be32].
Qed.

Lemma vget_drop d i k : 0 ≤ i → 0 ≤ k → vget d (i + k) = vget (drop (Z.to_nat i) d) k.
Proof.
  intros Hi Hk. unfold vget. rewrite !bool_decide_true by lia. rewrite lookup_drop.
  by replace (Z.to_nat (i + k)) with (Z.to_nat i + Z.to_nat k)%nat by lia.
Qed.

Lemma load32_at d i v l : 0 ≤ i → is_u32 v → drop (Z.to_nat i) d = mem32 v ++ l → load32 d i = Ret v.
Proof.
  intros Hi Hv E. rewrite <- (load32_mem32 _ v l Hv E). unfold load32.
  rewrite <- !(vget_drop d i) by lia. by rewrite Z.add_0_r.
Qed.

Lemma command_size t c n l : is_u32 n → load32 (command t c n l) VSOMEIP_COMMAND_SIZE_POS_MIN = Ret n.
Proof. intros Hn. by apply (load32_at _ 3 n l). Qed.

Lemma command_contents t c n l : drop (Z.to_nat VSOMEIP_COMMAND_PAYLOAD_POS) (command t c n l) = l.
Proof. done. Qed.

Lemma length_command t c n l : Z.of_nat (length (command t c n l)) = VSOMEIP_COMMAND_HEADER_SIZE + Z.of_nat (length l).
Proof. unfold command, VSOMEIP_COMMAND_HEADER_SIZE. cbn [length app mem16 mem32]. lia. Qed.

Lemma st_lift_Ret {S A} (a : A) (s : S) : st_lift (Ret a) s = Ret (a, s).
Proof. done. Qed.

Section end_to_end.
  Context `{IclFindLaws}.

(** The answer of a client is handled by the stub. *)
Lemma stub_on_response t id c (w : stub) : is_u16 c → is_u32 id →
  t = VSOMEIP_UPDATE_SECURITY_POLICY_RESPONSE ∨ t = VSOMEIP_REMOVE_SECURITY_POLICY_RESPONSE →
  stub_on_message (command t c 4 (mem32 id)) c w = with_updates (on_security_update_response id c) w.
Proof.
  intros Hc Hid Ht. unfold stub_on_message. rewrite length_command.
  replace (VSOMEIP_COMMAND_HEADER_SIZE + Z.of_nat (length (mem32 id))) with 11 by done.
  rewrite (bool_decide_true (VSOMEIP_COMMAND_SIZE_POS_MAX < 11)) by done.
  rewrite (command_type _ _ _ _), (st_bind_Ret _ _ _ _ _ (st_lift_Ret t w)).
  rewrite command_client by done. rewrite (st_bind_Ret _ _ _ _ _ (st_lift_Ret c w)).
  rewrite (st_bind_Ret _ _ _ _ _ (eq_refl : st_get w = Ret (w, w))).
  rewrite (bool_decide_false (c ≠ c)) by tauto. rewrite andb_false_r.
  rewrite command_size by done. rewrite (st_bind_Ret _ _ _ _ _ (st_lift_Ret 4 w)).
  rewrite (bool_decide_true (4 ≤ _)) by done.
  assert (load32 (command t c 4 (mem32 id)) VSOMEIP_COMMAND_PAYLOAD_POS = Ret id) as ->
    by (by apply (load32_at _ 7 id [])).
  destruct Ht as [-> | ->]; match goal with |- (if ?b then _ else _) _ = _ => replace b with true by done end;
    by rewrite (st_bind_Ret _ _ _ _ _ (st_lift_Ret id w)).
Qed.

(** A new policy object changes no decision. *)
Lemma its_policies_new s q p : q ∉ any_client_policies_ s →
  its_policies (set_policies (<[q := p]> (policies s)) (any_client_policies_ s) s) = its_policies s.
Proof.
  intros Hq. apply list_fmap_ext. intros i x Hx. unfold deref. cbn. rewrite lookup_insert_ne; [done|].
  intros ->. apply list_elem_of_lookup_2 in Hx. done.
Qed.

(** What a proxy may be asked: by the routing manager, and its next policy object is not
    in use. *)
Definition trusts (x : proxy) (_bound_client : Z) : Prop :=
  policy_enabled_ (proxy_security x) = false ∨ _bound_client = routing_host_id x.

Lemma install_policy_spec fuel uninit p r r' uid gid x :
  parse_policy uninit policy_new r = Ret ((Some (uid, gid), p), r') →
  next_policy x ∉ any_client_policies_ (proxy_security x) → no_denials uid gid (proxy_security x) →
  (Z.to_nat 0x10000 ≤ fuel)%nat →
  ∃ s', install_policy fuel uid gid p x =
      Ret ((), Proxy (client x) (routing_host_id x) s' (next_policy x + 1) (sent x)) ∧
    ∀ u g svc inst m js, is_client_allowed u g svc inst m js s' = true ↔
      is_client_allowed u g svc inst m js (proxy_security x) = true ∨
      (known u g ∧ (u = uid ∧ g = gid) ∧ requested svc inst m js (requests_ p)).
Proof.
  intros Hp Hq Hd Hf. set (s := proxy_security x) in *.
  set (s1 := set_policies (<[next_policy x := p]> (policies s)) (any_client_policies_ s) s).
  assert (deref s1 (next_policy x) = p) as Ep by (unfold deref; cbn; by rewrite lookup_insert_eq).
  assert (its_policies s1 = its_policies s) as Es by (by apply its_policies_new).
  destruct (update_grants fuel uid gid (next_policy x) s1) as (s'&Eu&Hc&_); [by eapply parsed_update_for| |done|].
  { unfold no_denials in *. by rewrite Es. }
  exists s'. split.
  - unfold install_policy, make_policy. st_run. cbn [proxy_security next_policy client routing_host_id sent].
    fold s s1. by rewrite Eu.
  - intros u g svc inst m js. rewrite Hc, Ep. unfold is_client_allowed. by rewrite Es.
Qed.

(** The contents of a request are given to the handler. *)
Lemma proxy_dispatch_update fuel uninit t l _bound_client x :
  t = VSOMEIP_UPDATE_SECURITY_POLICY ∨ t = VSOMEIP_UPDATE_SECURITY_POLICY_INT → trusts x _bound_client →
  is_u16 (client x) → 4 ≤ Z.of_nat (length l) < 2 ^ 32 →
  proxy_on_message fuel uninit (command t (client x) (Z.of_nat (length l)) l) _bound_client x =
  on_update_policy fuel uninit (bool_decide (t = VSOMEIP_UPDATE_SECURITY_POLICY_INT))
    (command t (client x) (Z.of_nat (length l)) l) x.
Proof.
  intros Ht Htr Hc Hl. unfold proxy_on_message. rewrite length_command.
  set (n := Z.of_nat (length l)) in *. unfold VSOMEIP_COMMAND_HEADER_SIZE.
  rewrite (bool_decide_true (7 + n > VSOMEIP_COMMAND_SIZE_POS_MAX)) by (unfold VSOMEIP_COMMAND_SIZE_POS_MAX; lia).
  rewrite (command_type _ _ _ _), (st_bind_Ret _ _ _ _ _ (st_lift_Ret t x)).
  rewrite command_client by done. rewrite (st_bind_Ret _ _ _ _ _ (st_lift_Ret (client x) x)).
  rewrite command_size by (unfold is_u32; lia). rewrite (st_bind_Ret _ _ _ _ _ (st_lift_Ret n x)).
  rewrite (st_bind_Ret _ _ _ _ _ (eq_refl : st_get x = Ret (x, x))). unfold is_enabled.
  rewrite (bool_decide_true (7 + n - 7 = n)) by lia. rewrite (bool_decide_false (7 + n < 7 + 4)) by lia.
  assert (bool_decide (t = VSOMEIP_UPDATE_SECURITY_POLICY_INT) || bool_decide (t = VSOMEIP_UPDATE_SECURITY_POLICY) = true)
    as -> by (by destruct Ht as [-> | ->]).
  destruct Htr as [-> | ->]; [done|]. rewrite (bool_decide_true (routing_host_id x = routing_host_id x)) by done.
  by destruct (policy_enabled_ (proxy_security x)).
Qed.

Lemma on_update_policy_spec fuel uninit internal t id payload p r' uid gid x :
  parse_policy uninit policy_new (Reader payload (Z.of_nat (length payload))) = Ret ((Some (uid, gid), p), r') →
  internal = true ∨ is_policy_update_allowed fuel uid p (proxy_security x) = Ret true →
  is_u32 id → Z.of_nat (length payload) + 4 < 2 ^ 32 →
  on_update_policy fuel uninit internal
    (command t (client x) (Z.of_nat (length (mem32 id ++ payload))) (mem32 id ++ payload)) x =
  (install_policy fuel uid gid p;; send_response VSOMEIP_UPDATE_SECURITY_POLICY_RESPONSE id) x.
Proof.
  intros Hp Hal Hid Hlen. unfold on_update_policy. set (d := command _ _ _ _).
  assert (load32 d VSOMEIP_COMMAND_PAYLOAD_POS = Ret id) as -> by (by apply (load32_at _ 7 id payload)).
  rewrite (st_bind_Ret _ _ _ _ _ (st_lift_Ret id x)).
  assert (drop (Z.to_nat (VSOMEIP_COMMAND_PAYLOAD_POS + 4)) d = payload) as -> by done.
  assert (u32 (Z.of_nat (length d) - (VSOMEIP_COMMAND_PAYLOAD_POS + 4)) = Z.of_nat (length payload)) as ->.
  { unfold d. rewrite length_command, length_app. cbn [length mem32].
    unfold VSOMEIP_COMMAND_HEADER_SIZE, VSOMEIP_COMMAND_PAYLOAD_POS. rewrite u32_id; unfold is_u32; lia. }
  rewrite Hp, (st_bind_Ret _ _ _ _ _ (st_lift_Ret _ x)).
  rewrite (st_bind_Ret _ _ _ _ _ (eq_refl : st_get x = Ret (x, x))).
  destruct internal; [by rewrite (st_bind_Ret _ _ x true x eq_refl)|].
  destruct Hal as [|Hal]; [done|]. by rewrite Hal, (st_bind_Ret _ _ _ _ _ (st_lift_Ret true x)).
Qed.

(** C29: A policy update reaches a client and its answer comes back.  Let the payload of an
    update be a policy for a user, and let the client accept it: the request comes from the
    routing manager, the user and services are on the lists for updates, and no policy of
    just this user lists denials.  Then handling the request that the stub sends makes the
    client allow exactly what it allowed before and what the policy lists, and sends one
    answer, which the stub takes as the answer of this client to this update. *)
Theorem policy_update_reaches_client fuel uninit id payload p r' uid gid _bound_client x :
  parse_policy uninit policy_new (Reader payload (Z.of_nat (length payload))) = Ret ((Some (uid, gid), p), r') →
  trusts x _bound_client → is_policy_update_allowed fuel uid p (proxy_security x) = Ret true →
  no_denials uid gid (proxy_security x) → next_policy x ∉ any_client_policies_ (proxy_security x) →
  (Z.to_nat 0x10000 ≤ fuel)%nat → is_u16 (client x) → is_u32 id → Z.of_nat (length payload) + 4 < 2 ^ 32 →
  ∃ s' answer, proxy_on_message fuel uninit (update_security_policy_request (client x) id payload) _bound_client x =
      Ret ((), Proxy (client x) (routing_host_id x) s' (next_policy x + 1) (sent x ++ [answer])) ∧
    (∀ u g svc inst m js, is_client_allowed u g svc inst m js s' = true ↔
      is_client_allowed u g svc inst m js (proxy_security x) = true ∨
      (known u g ∧ (u = uid ∧ g = gid) ∧ requested svc inst m js (requests_ p))) ∧
    ∀ w : stub, stub_on_message answer (client x) w = with_updates (on_security_update_response id (client x)) w.
Proof.
  intros Hp Htr Hal Hd Hq Hf Hc Hid Hlen.
  destruct (install_policy_spec fuel uninit p _ _ uid gid x Hp Hq Hd Hf) as (s'&Ei&Hs').
  exists s', (command VSOMEIP_UPDATE_SECURITY_POLICY_RESPONSE (client x) 4 (mem32 id)).
  split; [|split; [done|]]; cycle 1.
  { intros w. apply stub_on_response; [done|done|by left]. }
  unfold update_security_policy_request.
  assert (Z.of_nat (length (mem32 id ++ payload)) = 4 + Z.of_nat (length payload)) as El
    by (rewrite length_app; cbn [length mem32]; lia).
  replace (u32 (4 + Z.of_nat (length payload))) with (Z.of_nat (length (mem32 id ++ payload)))
    by (rewrite El, u32_id; unfold is_u32; lia).
  rewrite proxy_dispatch_update by (done || (by left) || lia).
  rewrite (on_update_policy_spec _ _ _ _ _ _ _ _ _ _ _ Hp) by (done || by right).
  by rewrite (st_bind_Ret _ _ _ _ _ Ei).
Qed.
End end_to_end.

(** ** Concrete updates

    Two clients are connected; the policy of [Security.read_update] is distributed. *)
Definition both_clients : env := Env {[0x10; 0x11]} (λ _, true) (λ _, true).
Definition nobody : env := Env ∅ (λ _, false) (λ _, false).
Definition fresh_stub (s : @security set_icl) : @stub set_icl := @Stub set_icl s ∅ ∅ (Pending 0 ∅ ∅ ∅ []).

Definition ret_state {A} (o : outcome (A * @stub set_icl)) : @stub set_icl :=
  match o with Ret (_, w) => w | _ => fresh_stub (@security_new set_icl) end.
Definition ret_value {A} (o : outcome (A * @stub set_icl)) : option A :=
  match o with Ret (a, _) => Some a | _ => None end.
Lemma ret_view {A} (o : outcome (A * @stub set_icl)) a : ret_value o = Some a → o = Ret (a, ret_state o).
Proof. by destruct o as [[? ?]| | |]; [intros [= ->]|..]. Qed.

(** Two clients are informed.  The first answers while the loop still runs, and the request
    cannot be sent to the second: no answer is missing, but only the timer tells the
    caller. *)
Definition loses_second : env := Env {[0x10; 0x11]} (λ c, bool_decide (c = 0x11)) (λ _, true).
Definition new_update : event := Inform both_clients (λ c id, update_security_policy_request c id update_wire) 77.
Definition no_updates : distribution := Distribution (Pending 0 ∅ ∅ ∅ []) [].

Example failed_send_leaves_update_open :
  let d := run [new_update; SendNext 0 both_clients; Response 1 0x11; SendNext 0 loses_second] no_updates in
  pending_security_updates_ (pend d) !! 1 = Some ∅ ∧ calls 1 (trace (pend d)) = [] ∧
  calls 1 (trace (pend (run [Timeout loses_second false 1] d))) = [(77, SU_SUCCESS)].
Proof. vm_compute. by split_and!. Qed.

(** Both clients answer, the first one while the loop runs, the second one after an answer to
    another update. *)
Definition answers : list event :=
  [SendNext 0 both_clients; Response 1 0x11; SendNext 0 both_clients; Response 7 0x10; Response 1 0x10].

Lemma security_update_answered_witness :
  ∃ tr, trace (pend (run (new_update :: answers) no_updates)) = trace (pend (step new_update no_updates)) ++ tr ∧
    calls 1 tr = [(77, SU_SUCCESS)].
Proof.
  destruct (security_update_answered both_clients (λ c id, update_security_policy_request c id update_wire) 77
    answers no_updates) as (tr&Etr&Hc); [set_solver|by intros l ?%not_elem_of_nil|].
  exists tr. split; [exact Etr|].
  change (trace (pend (run answers (step new_update no_updates))) =
    trace (pend (step new_update no_updates)) ++ tr) in Etr.
  assert (tr = drop (length (trace (pend (step new_update no_updates)))) (trace (pend (run answers (step new_update no_updates)))))
    as Ed by (rewrite Etr, drop_app_length; reflexivity).
  destruct Hc as (_&_&_&_&Hok&_).
  - assert (Forall (λ x, match x with Added _ => False | _ => True end) tr) as Hf
      by (rewrite Ed; vm_compute; repeat constructor).
    intros Hin. rewrite Forall_forall in Hf. apply (Hf _ Hin).
  - apply (Hok [] answers {[0x10; 0x11]} (elements (connected_clients both_clients)) eq_refl eq_refl).
    + by apply (non_empty_inhabited_L 0x10), elem_of_union_l, elem_of_singleton.
    + intros c. rewrite elem_of_union, !elem_of_singleton. unfold answers. rewrite !elem_of_cons. naive_solver.
    + intros e'. unfold answers. rewrite !elem_of_cons, elem_of_nil. naive_solver.
    + intros e' c. unfold answers. rewrite !elem_of_cons, elem_of_nil. naive_solver.
Defined.

Definition client_proxy : @proxy set_icl :=
  @Proxy set_icl 0x10 0 (@Security set_icl ∅ [] ∅ ∅ true true true true true {[0x2222]} {[1000]} (0, 0) true) 2 [].

Lemma policy_update_reaches_client_witness :
  @is_client_allowed set_icl set_icl_find 1000 100 0x2222 1 7 false (proxy_security client_proxy) = false ∧
  ∃ s' answer, @proxy_on_message set_icl set_icl_find (Z.to_nat 0x10000) (λ _, (0, 0))
      (update_security_policy_request 0x10 5 update_wire) 0 client_proxy =
      Ret ((), @Proxy set_icl 0x10 0 s' 3 [answer]) ∧
    @is_client_allowed set_icl set_icl_find 1000 100 0x2222 1 7 false s' = true ∧
    ∀ w, @stub_on_message set_icl answer 0x10 w = with_updates (on_security_update_response 5 0x10) w.
Proof.
  split; [by vm_compute|].
  destruct (@policy_update_reaches_client set_icl set_icl_find set_icl_laws (Z.to_nat 0x10000) (λ _, (0, 0)) 5 update_wire
    read_update.2 (Reader [] 0) 1000 100 0 client_proxy read_update_parsed) as (s'&answer&E&Hc&Hw).
  - by right.
  - by vm_compute.
  - intros t Ht. by apply not_elem_of_nil in Ht.
  - by apply not_elem_of_nil.
  - done.
  - by vm_compute.
  - by vm_compute.
  - by vm_compute.
  - exists s', answer. split; [exact E|]. clear E. split; [|exact Hw].
    apply Hc. right. split; [by split|]. split; [done|]. exists 7. split; [by right|by vm_compute].
Defined.

#[local] Existing Instance set_icl_find.

(** Policies are cached by user, without the group: after updates for two groups of a user
    and the removal of one, the other one cannot be removed any more, and stays. *)
Example removal_for_second_group :
  ret_value ((update_security_policy_configuration (Z.to_nat 0x10000) nobody 1000 100 2 update_wire 7;;
    update_security_policy_configuration (Z.to_nat 0x10000) nobody 1000 101 3 [] 8;;
    r1 ← remove_security_policy_configuration nobody 1000 100 9;
    r2 ← remove_security_policy_configuration nobody 1000 101 10;
    w ← st_get;
    mret (r1, r2, is_client_allowed 1000 101 0x1111 1 5 false (stub_security w)))
    (fresh_stub (@set_policies set_icl {[2 := read_update.2;
       3 := @Policy set_icl {[(1000, 101)]} true {[(0x1111, (1, 5))]} ∅ true]} [] (installed (user_policy true))))) =
  Some (true, false, true).
Proof. vm_compute. reflexivity. Qed.

(** Cached policies are read one after the other: one that cannot be read (here because of
    the service 0xFFFF) takes with it the one that follows. *)
Definition unreadable : list Z := [0;0;3;0xE9; 0;0;0;100; 0;0;0;34; 0xFF;0xFF; 0;0;0;0].
Definition allowed_after (payloads : list (list Z)) : option bool :=
  match @proxy_on_message set_icl set_icl_find (Z.to_nat 0x10000) (λ _, (0, 0))
      (cached_policies_message 0 payloads) 0 client_proxy with
  | Ret (_, x) => Some (@is_client_allowed set_icl set_icl_find 1000 100 0x2222 1 7 false (proxy_security x))
  | _ => None
  end.
Example unreadable_policy_hides_next :
  allowed_after [update_wire] = Some true ∧ allowed_after [unreadable; update_wire] = Some false.
Proof. vm_compute. by split. Qed.
