(* ===== verification/ServiceInfo.v ===== *)
(** Offered and requested service instances: [routing/src/serviceinfo.cpp].

    An endpoint is its identity, an integer; [None] is the null pointer.  Times to live are
    kept in milliseconds and set and read in seconds. *)
From S2P Require Import Prelude.

Record serviceinfo : Type := ServiceInfo {
  si_group_ : option Z;
  si_service_ : Z;
  si_instance_ : Z;
  si_major_ : Z;
  si_minor_ : Z;
  si_ttl_ : Z;
  si_reliable_ : option Z;
  si_unreliable_ : option Z;
  si_requesters_ : gset Z;
  si_is_local_ : bool;
  si_is_in_mainphase_ : bool
}.

Definition serviceinfo_new (service instance major minor ttl : Z) (is_local : bool) : serviceinfo :=
  ServiceInfo None service instance major minor (ttl * 1000) None None ∅ is_local false.

Definition si_set_group (v : option Z) (i : serviceinfo) : serviceinfo :=
  ServiceInfo v (si_service_ i) (si_instance_ i) (si_major_ i) (si_minor_ i) (si_ttl_ i)
    (si_reliable_ i) (si_unreliable_ i) (si_requesters_ i) (si_is_local_ i) (si_is_in_mainphase_ i).

(** [duration_cast] truncates towards zero. *)
Definition si_get_ttl (i : serviceinfo) : Z := u32 (si_ttl_ i `quot` 1000).
Definition si_set_precise_ttl (v : Z) (i : serviceinfo) : serviceinfo :=
  ServiceInfo (si_group_ i) (si_service_ i) (si_instance_ i) (si_major_ i) (si_minor_ i) v
    (si_reliable_ i) (si_unreliable_ i) (si_requesters_ i) (si_is_local_ i) (si_is_in_mainphase_ i).
Definition si_set_ttl (ttl : Z) (i : serviceinfo) : serviceinfo := si_set_precise_ttl (ttl * 1000) i.

Definition si_get_endpoint (reliable : bool) (i : serviceinfo) : option Z :=
  if reliable then si_reliable_ i else si_unreliable_ i.
Definition si_set_endpoint (endpoint : option Z) (reliable : bool) (i : serviceinfo) : serviceinfo :=
  ServiceInfo (si_group_ i) (si_service_ i) (si_instance_ i) (si_major_ i) (si_minor_ i) (si_ttl_ i)
    (if reliable then endpoint else si_reliable_ i) (if reliable then si_unreliable_ i else endpoint)
    (si_requesters_ i) (si_is_local_ i) (si_is_in_mainphase_ i).

Definition si_with_requesters (v : gset Z) (i : serviceinfo) : serviceinfo :=
  ServiceInfo (si_group_ i) (si_service_ i) (si_instance_ i) (si_major_ i) (si_minor_ i) (si_ttl_ i)
    (si_reliable_ i) (si_unreliable_ i) v (si_is_local_ i) (si_is_in_mainphase_ i).
Definition si_add_client (client : Z) (i : serviceinfo) : serviceinfo :=
  si_with_requesters (si_requesters_ i ∪ {[client]}) i.
Definition si_remove_client (client : Z) (i : serviceinfo) : serviceinfo :=
  si_with_requesters (si_requesters_ i ∖ {[client]}) i.
Definition get_requesters_size (i : serviceinfo) : Z := u32 (Z.of_nat (size (si_requesters_ i))).

Definition set_is_in_mainphase (v : bool) (i : serviceinfo) : serviceinfo :=
  ServiceInfo (si_group_ i) (si_service_ i) (si_instance_ i) (si_major_ i) (si_minor_ i) (si_ttl_ i)
    (si_reliable_ i) (si_unreliable_ i) (si_requesters_ i) (si_is_local_ i) v.

(** A time to live of up to 32 bits is read as it was set. *)
Lemma get_set_ttl ttl i : is_u32 ttl → si_get_ttl (si_set_ttl ttl i) = ttl.
Proof. intros Ht. unfold si_get_ttl. cbn. rewrite Z.quot_mul by lia. by apply u32_id. Qed.
