(* ===== verification/SdSessions.v ===== *)
(** Sessions of service discovery: the session numbers and the reboot flag that
    [service_discovery/src/service_discovery_impl.cpp] puts into the messages it sends
    ([get_session], [increment_session], [send], [serialize_and_send]), and the detection
    of reboots of other devices from what is received ([is_reboot]).

    An address of [boost::asio::ip] is an opaque value, an integer; whether it is a
    multicast or the unspecified address are parameters.  What is given to the routing host
    is kept in a list together with the answer of the host. *)
From S2P Require Import Prelude ByteOrder Streams Message SdOptions SdEntries SdMessage.

Record sd_sessions : Type := Sessions {
  sessions_sent_ : gmap Z (Z * bool);
  sessions_received_ : gmap Z (Z * Z * bool * bool)
}.

Definition put_sent (f : gmap Z (Z * bool) → gmap Z (Z * bool)) (s : sd_sessions) : sd_sessions :=
  Sessions (f (sessions_sent_ s)) (sessions_received_ s).
Definition put_received (f : gmap Z (Z * Z * bool * bool) → gmap Z (Z * Z * bool * bool))
    (s : sd_sessions) : sd_sessions :=
  Sessions (sessions_sent_ s) (f (sessions_received_ s)).

(** What [start] does to the sessions. *)
Definition start_sessions : ST sd_sessions () :=
  st_modify (put_received (λ _, ∅));; st_modify (put_sent (λ _, ∅)).

Definition get_session (address : Z) : ST sd_sessions (Z * bool) :=
  s ← st_get;
  match sessions_sent_ s !! address with
  | None => st_modify (put_sent <[address := (1, true)]>);; mret (1, true)
  | Some its_session => mret its_session
  end.

Definition increment_session (address : Z) : ST sd_sessions () :=
  s ← st_get;
  match sessions_sent_ s !! address with
  | Some (session, flag) =>
      let session := u16 (session + 1) in
      st_modify (put_sent <[address := if bool_decide (session = 0) then (1, false) else (session, flag)]>)
  | None => mret ()
  end.

(** ** Sending *)

Definition sd_set_session (v : Z) (m : sd_message) : sd_message :=
  let h := sd_header_ m in
  SdMessage (Header (service_ h) (method_ h) (length_ h) (client_ h) v (protocol_version_ h)
      (interface_version_ h) (type_ h) (code_ h) (instance_ h))
    (flags_ m) (options_length_ m) (entries_ m) (options_ m) (current_message_size_ m).

Definition stamp (x : Z * bool) (m : sd_message) : sd_message :=
  set_reboot_flag x.2 (sd_set_session x.1 m).

(** What the routing host is given: a message to be multicast, or the bytes of a message
    for an address. *)
Inductive sd_output : Type :=
| HostSend (m : sd_message)
| SendViaSd (address : Z) (bs : list Z).

Record sd_net : Type := Net {
  net_sessions : sd_sessions;
  serializer_ : serializer;
  net_out : list (sd_output * bool)
}.

Section sending.
  (** The address of this device, the answer of the host to an output (which may depend on
      all that it was given before), the capacity of the serializer's buffer. *)
  Context (unicast_ : Z) (is_unspecified : Z → bool).
  Context (host : list (sd_output * bool) → sd_output → bool) (capacity : Z).

Definition in_sessions {A} (m : ST sd_sessions A) : ST sd_net A :=
  w ← st_get;
  '(a, s) ← st_lift (m (net_sessions w));
  st_modify (λ w, Net s (serializer_ w) (net_out w));;
  mret a.

Definition in_serializer {A} (m : ST serializer A) : ST sd_net A :=
  w ← st_get;
  '(a, s) ← st_lift (m (serializer_ w));
  st_modify (λ w, Net (net_sessions w) s (net_out w));;
  mret a.

Definition host_call (o : sd_output) : ST sd_net bool :=
  w ← st_get;
  let ok := host (net_out w) o in
  st_modify (λ w, Net (net_sessions w) (serializer_ w) (net_out w ++ [(o, ok)]));;
  mret ok.

Definition send_message (m : sd_message) : ST sd_net bool :=
  if has_entry m then
    its_session ← in_sessions (get_session unicast_);
    ok ← host_call (HostSend (stamp its_session m));
    (if (ok : bool) then in_sessions (increment_session unicast_) else mret ());;
    mret true
  else mret false.

Definition send_message_to (address : Z) (m : sd_message) : ST sd_net bool :=
  if has_entry m then
    its_session ← in_sessions (get_session address);
    is_serialized ← in_serializer (sd_serialize (stamp its_session m));
    (if (is_serialized : bool) then
       w ← st_get;
       ok ← host_call (SendViaSd address
              (take (Z.to_nat (serializer_get_size (serializer_ w))) (ser_data_ (serializer_ w))));
       (if (ok : bool) then in_sessions (increment_session address) else mret ())
     else mret ());;
    in_serializer (st_modify (serializer_reset capacity));;
    mret is_serialized
  else mret false.

(** The loop over the messages; the result is [false] once a message was not sent. *)
Fixpoint for_messages (f : sd_message → ST sd_net bool) (its_result : bool) (messages : list sd_message) :
    ST sd_net bool :=
  match messages with
  | [] => mret its_result
  | m :: messages => ok ← f m; for_messages f (its_result && ok) messages
  end.

Definition send (messages : list sd_message) : ST sd_net bool := for_messages send_message true messages.

Definition serialize_and_send (messages : list sd_message) (address : Z) : ST sd_net bool :=
  if negb (is_unspecified address) then for_messages (send_message_to address) true messages
  else mret true.
End sending.

(** ** Receiving *)

Section receiving.
  Context (is_multicast : Z → bool).

Definition is_reboot (sender destination : Z) (reboot_flag : bool) (session : Z) : ST sd_sessions bool :=
  s ← st_get;
  let is_mc := is_multicast destination in
  let its_multicast_session := if is_mc then session else 0 in
  let its_unicast_session := if is_mc then 0 else session in
  let its_multicast_reboot_flag := if is_mc then reboot_flag else true in
  let its_unicast_reboot_flag := if is_mc then true else reboot_flag in
  match sessions_received_ s !! sender with
  | None =>
      st_modify (put_received <[sender := (its_multicast_session, its_unicast_session,
                                           its_multicast_reboot_flag, its_unicast_reboot_flag)]>);;
      mret false
  | Some (multicast, unicast, multicast_flag, unicast_flag) =>
      let result :=
        if reboot_flag && ((is_mc && negb multicast_flag) || (negb is_mc && negb unicast_flag)) then true
        else
          let its_old_session := if is_mc then multicast else unicast in
          let its_old_reboot_flag := if is_mc then multicast_flag else unicast_flag in
          its_old_reboot_flag && reboot_flag && bool_decide (its_old_session >= session) in
      (if negb result then
         if is_mc then
           st_modify (put_received <[sender := (its_multicast_session, unicast,
                                                its_multicast_reboot_flag, unicast_flag)]>)
         else
           st_modify (put_received <[sender := (multicast, its_unicast_session,
                                                multicast_flag, its_unicast_reboot_flag)]>)
       else st_modify (put_received (delete sender)));;
      mret result
  end.
End receiving.

(** ** The sessions of the messages to an address *)

(** The session and the reboot flag of the [n]-th message: the sessions count from 1 to
    0xFFFF and start again at 1, the flag is set until the first time this happens. *)
Definition session_at (n : nat) : Z * bool :=
  let k := Z.of_nat n in
  if bool_decide (k < 0xFFFF) then (k + 1, true) else (k mod 0xFFFF + 1, false).

Definition next_session (x : Z * bool) : Z * bool :=
  let session := u16 (x.1 + 1) in if bool_decide (session = 0) then (1, false) else (session, x.2).

Lemma next_session_at n : next_session (session_at n) = session_at (S n).
Proof.
  unfold next_session, session_at. rewrite Nat2Z.inj_succ. set (k := Z.of_nat n).
  assert (0 ≤ k) by (subst k; lia). unfold u16.
  destruct (decide (k < 0xFFFF)) as [Hk|Hk].
  - rewrite (bool_decide_true (k < _)) by done. cbn [fst snd]. destruct (decide (k = 0xFFFE)) as [->|Hne]; [done|].
    rewrite Z.mod_small by lia. rewrite bool_decide_false by lia. by rewrite bool_decide_true by lia.
  - rewrite (bool_decide_false (k < _)), (bool_decide_false (Z.succ k < _)) by lia. cbn [fst snd].
    pose proof (Z.mod_pos_bound k 0xFFFF ltac:(lia)). destruct (decide (k mod 0xFFFF = 0xFFFE)) as [E|Hne].
    + rewrite E. replace (Z.succ k mod 0xFFFF) with 0; [done|].
      rewrite <- (Z.add_1_r k), Z.add_mod, E by lia. done.
    + rewrite Z.mod_small by lia. rewrite bool_decide_false by lia.
      rewrite <- (Z.add_1_r k), Z.add_mod, (Z.mod_small 1) by lia. rewrite (Z.mod_small (_ + 1)) by lia. done.
Qed.

Lemma session_at_pos n : 1 ≤ (session_at n).1.
Proof.
  unfold session_at. case_bool_decide; cbn [fst]; [lia|].
  pose proof (Z.mod_pos_bound (Z.of_nat n) 0xFFFF ltac:(lia)). lia.
Qed.

Lemma get_reboot_flag_stamp x m : get_reboot_flag (stamp x m) = x.2.
Proof.
  unfold get_reboot_flag, stamp, set_reboot_flag. destruct (x.2); cbn [set_flags flags_ sd_set_session].
  - apply bool_decide_eq_true. rewrite Z.land_lor_distr_l. intros [_ H]%Z.lor_eq_0_iff. by vm_compute in H.
  - apply bool_decide_eq_false. rewrite <- Z.land_assoc. change (Z.land (u8 _) _) with 0.
    rewrite Z.land_0_r. by intros [].
Qed.

Lemma session_stamp x m : session_ (sd_header_ (stamp x m)) = x.1.
Proof. unfold stamp, set_reboot_flag. by destruct (x.2). Qed.

Lemma entries_stamp x m : entries_ (stamp x m) = entries_ m ∧ options_ (stamp x m) = options_ m.
Proof. unfold stamp, set_reboot_flag. by destruct (x.2). Qed.

Section sending_spec.
  Context (unicast_ : Z) (is_unspecified : Z → bool).
  Context (host : list (sd_output * bool) → sd_output → bool) (capacity : Z).

Inductive sd_call : Type :=
| CallSend (messages : list sd_message)
| CallSendTo (messages : list sd_message) (address : Z).

Definition call (c : sd_call) : ST sd_net bool :=
  match c with
  | CallSend messages => send unicast_ host messages
  | CallSendTo messages address => serialize_and_send is_unspecified host capacity messages address
  end.
Definition messages_of (c : sd_call) : list sd_message :=
  match c with CallSend messages | CallSendTo messages _ => messages end.

Fixpoint calls (cs : list sd_call) : ST sd_net () :=
  match cs with [] => mret () | c :: cs => call c;; calls cs end.

(** The address under which the sessions of an output are counted. *)
Definition session_address (o : sd_output) : Z :=
  match o with HostSend _ => unicast_ | SendViaSd address _ => address end.

(** The outputs for an address that the host has accepted. *)
Definition accepted (a : Z) (out : list (sd_output * bool)) : list sd_output :=
  omap (λ x, if x.2 && bool_decide (session_address x.1 = a) then Some x.1 else None) out.

(** [o] is a message with an entry, stamped with the session and flag [x]. *)
Definition carries (x : Z * bool) (o : sd_output) : Prop :=
  ∃ m, has_entry m = true ∧
    match o with HostSend m' => m' = stamp x m | SendViaSd _ bs => bs = sd_wire (stamp x m) end.

Definition sendable (m : sd_message) : Prop := Z.of_nat (length (sd_wire m)) < 2 ^ 32.

Definition sent_ok (w : sd_net) : Prop :=
  ∀ a, (sessions_sent_ (net_sessions w) !! a = Some (session_at (length (accepted a (net_out w)))) ∨
        sessions_sent_ (net_sessions w) !! a = None ∧ accepted a (net_out w) = []) ∧
       ∀ k o, accepted a (net_out w) !! k = Some o → carries (session_at k) o.

Lemma accepted_snoc a out o ok : accepted a (out ++ [(o, ok)]) =
  accepted a out ++ (if ok && bool_decide (session_address o = a) then [o] else []).
Proof. unfold accepted. rewrite omap_app. cbn. by destruct (ok && _). Qed.

(** [get_session] finds or creates the session that is due. *)
Lemma get_session_due a w : sent_ok w → ∃ w',
  in_sessions (get_session a) w = Ret (session_at (length (accepted a (net_out w))), w') ∧ sent_ok w' ∧
  net_out w' = net_out w ∧ serializer_ w' = serializer_ w ∧
  sessions_sent_ (net_sessions w') !! a = Some (session_at (length (accepted a (net_out w)))).
Proof.
  intros Hw. destruct (Hw a) as [Ha Hc]. unfold in_sessions, get_session. st_run.
  destruct w as [s ser out]. cbn [net_sessions serializer_ net_out] in *. destruct Ha as [Ha|[Ha He]]; rewrite Ha.
  - eexists. split; [done|]. by split.
  - rewrite He. eexists. split; [done|]. cbn [net_sessions serializer_ net_out put_sent sessions_sent_].
    split; [|split_and!; [done|done|by rewrite lookup_insert_eq]].
    intros b. split; [|apply Hw]. cbn [net_sessions net_out put_sent sessions_sent_].
    destruct (decide (a = b)) as [<-|Hne].
    + left. by rewrite lookup_insert_eq, He.
    + rewrite lookup_insert_ne by done. apply Hw.
Qed.

(** An output that carries the session that is due, and the increment behind it. *)
Lemma host_call_due o w : sent_ok w → let n := length (accepted (session_address o) (net_out w)) in
  sessions_sent_ (net_sessions w) !! session_address o = Some (session_at n) → carries (session_at n) o →
  ∃ ok w1 w', host_call host o w = Ret (ok, w1) ∧
    (if (ok : bool) then in_sessions (increment_session (session_address o)) else mret ()) w1 = Ret ((), w') ∧
    sent_ok w' ∧ serializer_ w' = serializer_ w.
Proof.
  intros Hw n Hn Ho. unfold host_call. st_run. do 2 eexists.
  enough (∃ w', (if host (net_out w) o then in_sessions (increment_session (session_address o)) else mret ())
      (Net (net_sessions w) (serializer_ w) (net_out w ++ [(o, host (net_out w) o)])) = Ret ((), w') ∧
    sent_ok w' ∧ serializer_ w' = serializer_ w) as [w' Hw'] by (by exists w').
  unfold in_sessions, increment_session. st_run.
  destruct w as [s ser out]. cbn [net_sessions serializer_ net_out] in *. destruct (host out o) eqn:E.
  - cbn [net_sessions]. rewrite Hn. destruct (session_at n) as [session flag] eqn:En. cbn [fst snd]. eexists. split; [done|].
    split; [|done]. intros a. cbn [net_sessions net_out put_sent sessions_sent_].
    rewrite accepted_snoc. cbn [andb]. destruct (Hw a) as [Ha Hc].
    change (if bool_decide (u16 (session + 1) = 0) then (1, false) else (u16 (session + 1), flag))
      with (next_session (session, flag)).
    destruct (decide (session_address o = a)) as [Hd|Hd].
    + rewrite bool_decide_true by done. subst a. fold n in Hc, Ha |- *. rewrite length_app. cbn [length]. fold n.
      rewrite Nat.add_1_r, <- next_session_at, En, lookup_insert_eq. split; [by left|].
      intros k o' [Hk|[Hk Ho']]%lookup_app_Some; [by apply Hc|].
      apply list_lookup_singleton_Some in Ho' as [Hz <-]. replace k with n by (unfold n in *; lia). by rewrite En.
    + rewrite bool_decide_false, app_nil_r by done. by rewrite lookup_insert_ne.
  - eexists. split; [done|]. split; [|done]. intros a. cbn [net_sessions net_out].
    rewrite accepted_snoc. cbn [andb]. rewrite app_nil_r. apply Hw.
Qed.

Definition idle (w : sd_net) : Prop := sent_ok w ∧ ser_data_ (serializer_ w) = [].

Lemma send_message_ok m w : idle w → ∃ b w', send_message unicast_ host m w = Ret (b, w') ∧ idle w'.
Proof.
  intros [Hw Hs]. unfold send_message. destruct (has_entry m) eqn:Hm; [|by exists false, w].
  destruct (get_session_due unicast_ w Hw) as (w1&E1&Hw1&Hout&Hser&Hses). rewrite (st_bind_Ret _ _ _ _ _ E1).
  destruct (host_call_due (HostSend (stamp (session_at (length (accepted unicast_ (net_out w)))) m)) w1 Hw1)
    as (ok&w2&w3&E2&E3&Hw3&Hser3); cbn [session_address]; rewrite ?Hout; [done|by exists m|].
  cbn [session_address] in E3. rewrite (st_bind_Ret _ _ _ _ _ E2), (st_bind_Ret _ _ _ _ _ E3).
  exists true, w3. split; [done|]. split; [done|]. by rewrite Hser3, Hser.
Qed.

Lemma sendable_stamp x m : sendable m → sendable (stamp x m).
Proof.
  unfold sendable. rewrite !length_sd_wire. by destruct (entries_stamp x m) as [-> ->].
Qed.

Lemma send_message_to_ok a m w : idle w → sendable m →
  ∃ b w', send_message_to host capacity a m w = Ret (b, w') ∧ idle w'.
Proof.
  intros [Hw Hs] Hsm. unfold send_message_to. destruct (has_entry m) eqn:Hm; [|by exists false, w].
  destruct (get_session_due a w Hw) as (w1&E1&Hw1&Hout&Hser&Hses). rewrite (st_bind_Ret _ _ _ _ _ E1).
  set (x := session_at (length (accepted a (net_out w)))) in *.
  set (w2 := Net (net_sessions w1) (ser_append (sd_wire (stamp x m)) (serializer_ w1)) (net_out w1)).
  assert (E2 : in_serializer (sd_serialize (stamp x m)) w1 = Ret (true, w2)).
  { unfold in_serializer. st_run. by rewrite (writes_sd_message (stamp x m) (serializer_ w1)). }
  rewrite (st_bind_Ret _ _ _ _ _ E2).
  assert (Hbs : take (Z.to_nat (serializer_get_size (serializer_ w2))) (ser_data_ (serializer_ w2)) =
    sd_wire (stamp x m)).
  { pose proof (sendable_stamp x m Hsm) as Hx. unfold sendable in Hx.
    unfold serializer_get_size. cbn [w2 serializer_ ser_append ser_data_]. rewrite Hser, Hs. cbn [app].
    rewrite u32_id by (unfold is_u32; lia). by rewrite Nat2Z.id, take_ge. }
  destruct (host_call_due (SendViaSd a (sd_wire (stamp x m))) w2 Hw1) as (ok&w3&w4&E3&E4&Hw4&_);
    cbn [session_address w2 net_sessions net_out]; rewrite ?Hout; [done|by exists m|].
  assert (E5 : (w ← st_get;
     ok ← host_call host (SendViaSd a
            (take (Z.to_nat (serializer_get_size (serializer_ w))) (ser_data_ (serializer_ w))));
     if (ok : bool) then in_sessions (increment_session a) else mret ()) w2 = Ret ((), w4)).
  { rewrite (st_bind_Ret _ _ _ _ _ (eq_refl : st_get w2 = Ret (w2, w2))), Hbs.
    by rewrite (st_bind_Ret _ _ _ _ _ E3). }
  rewrite (st_bind_Ret _ _ _ _ _ E5). eexists true, _. by split.
Qed.

Lemma for_messages_ok f ms b w : (∀ m w, m ∈ ms → idle w → ∃ b w', f m w = Ret (b, w') ∧ idle w') →
  idle w → ∃ b' w', for_messages f b ms w = Ret (b', w') ∧ idle w'.
Proof.
  intros Hf. revert b w. induction ms as [|m ms IH]; intros b w Hw; cbn [for_messages]; [by exists b, w|].
  destruct (Hf m w ltac:(by left) Hw) as (b1&w1&E1&Hw1). rewrite (st_bind_Ret _ _ _ _ _ E1).
  apply IH; [|done]. intros m' w' Hm'. apply Hf. by right.
Qed.

Lemma calls_ok cs w : Forall (Forall sendable ∘ messages_of) cs → idle w →
  ∃ w', calls cs w = Ret ((), w') ∧ idle w'.
Proof.
  intros Hcs. revert w. induction Hcs as [|c cs Hc _ IH]; intros w Hw; cbn [calls]; [by exists w|].
  assert (∃ b w1, call c w = Ret (b, w1) ∧ idle w1) as (b&w1&E1&Hw1).
  { destruct c as [ms|ms a]; cbn [compose messages_of call] in *.
    - apply for_messages_ok; [|done]. intros. by apply send_message_ok.
    - unfold serialize_and_send. destruct (is_unspecified a); cbn [negb]; [by exists true, w|].
      apply for_messages_ok; [|done]. intros m w' Hm Hw'. apply send_message_to_ok; [done|].
      by eapply Forall_forall in Hc. }
  rewrite (st_bind_Ret _ _ _ _ _ E1). by apply IH.
Qed.

(** C24: Whatever messages are sent and whatever the host answers, after a start the
    messages to an address that the host accepts carry the sessions 1, 2, ... up to
    0xFFFF and from 1 again, with the reboot flag until the first time the sessions start
    again; messages that the host refuses use up no session.  What is sent to an address
    is the wire image of the stamped message. *)
Theorem sent_sessions cs w : Forall (Forall sendable ∘ messages_of) cs →
  net_out w = [] → ser_data_ (serializer_ w) = [] →
  ∃ w', (in_sessions start_sessions;; calls cs) w = Ret ((), w') ∧
    ∀ a k o, accepted a (net_out w') !! k = Some o → carries (session_at k) o.
Proof.
  intros Hcs Hout Hser.
  rewrite (st_bind_Ret _ _ _ _ _ (eq_refl : in_sessions start_sessions w = Ret ((), _))).
  match goal with |- context [calls cs ?w0] => destruct (calls_ok cs w0 Hcs) as (w'&E&Hw'&_) end.
  { split; [|done]. intros a. cbn [net_sessions net_out sessions_sent_ put_sent put_received].
    rewrite Hout, lookup_empty. split; [by right|]. intros k o Hk. done. }
  exists w'. split; [done|]. intros a. apply Hw'.
Qed.
End sending_spec.

(** What [send] gives to the host: the messages with an entry, stamped, in order. *)
Lemma send_outputs unicast host ms w : ∃ b w' out, send unicast host ms w = Ret (b, w') ∧
  net_out w' = net_out w ++ out ∧
  Forall2 (λ m o, ∃ x, o.1 = HostSend (stamp x m)) (filter (λ m, has_entry m = true) ms) out.
Proof.
  unfold send. cut (∀ b0 w, ∃ b w' out, for_messages (send_message unicast host) b0 ms w = Ret (b, w') ∧
    net_out w' = net_out w ++ out ∧
    Forall2 (λ m o, ∃ x, o.1 = HostSend (stamp x m)) (filter (λ m, has_entry m = true) ms) out); [auto|].
  clear w. induction ms as [|m ms IH]; intros b w; cbn [for_messages].
  { exists b, w, []. by rewrite app_nil_r. }
  assert (∃ b1 w1 o, send_message unicast host m w = Ret (b1, w1) ∧ net_out w1 = net_out w ++ o ∧
    if has_entry m then ∃ x ok, o = [(HostSend (stamp x m), ok)] else o = []) as (b1&w1&o&E1&Hw1&Ho).
  { unfold send_message. destruct (has_entry m); [|exists false, w, []; by rewrite app_nil_r].
    unfold in_sessions, host_call, get_session, increment_session. st_run. destruct w as [[ss sr] ser out].
    cbn [net_sessions sessions_sent_ net_out].
    destruct (ss !! unicast) as [x|] eqn:Ess; cbn [net_sessions put_sent sessions_sent_ net_out serializer_];
      destruct (host out _); cbn [net_sessions sessions_sent_ put_sent]; rewrite ?Ess, ?lookup_insert_eq;
      try (destruct x as [n fl]); do 3 eexists; (split; [done|]); (split; [done|]); by do 2 eexists. }
  rewrite (st_bind_Ret _ _ _ _ _ E1). destruct (IH (b && b1) w1) as (b2&w2&out&E2&Hw2&Hout).
  exists b2, w2, (o ++ out). split; [done|]. split; [by rewrite Hw2, Hw1, app_assoc|].
  rewrite filter_cons. destruct (has_entry m) eqn:Hm.
  - destruct Ho as (x&ok&->). rewrite decide_True by done. constructor; [by exists x|done].
  - subst o. by rewrite decide_False by done.
Qed.

(** ** Reboots

    What arrives from a device: the [a_n]-th message to one of the two kinds of address
    since its [a_life]-th start. *)
Record arrival : Type := Arrival {
  a_sender : Z;
  a_destination : Z;
  a_life : nat;
  a_n : nat
}.

Section reboots.
  Context (is_multicast : Z → bool).

Definition channel (a : arrival) : bool := is_multicast (a_destination a).

(** Messages may get lost, but not overtake each other: what arrives later is of the same
    life or a later one, and of messages to the same kind of address in one life the later
    one was sent later. *)
Definition precedes (a b : arrival) : Prop :=
  a_sender a = a_sender b → (a_life a ≤ a_life b)%nat ∧
    (channel a = channel b → a_life a = a_life b → (a_n a < a_n b)%nat).

Definition receive (a : arrival) : ST sd_sessions bool :=
  is_reboot is_multicast (a_sender a) (a_destination a) (session_at (a_n a)).2 (session_at (a_n a)).1.

Fixpoint receive_all (l : list arrival) : ST sd_sessions (list bool) :=
  match l with
  | [] => mret []
  | a :: l => b ← receive a; bs ← receive_all l; mret (b :: bs)
  end.

(** The specification keeps the last arrival of every sender and kind of address since the
    last report.  A message of a later life is reported if the sessions show it: its flag
    is set and the session does not continue the old ones. *)
#[local] Abbreviation heard := (gmap (Z * bool) (nat * nat)).

Definition report (a : arrival) (h : heard) : bool :=
  match h !! (a_sender a, channel a) with
  | Some (life, n) => bool_decide (life < a_life a ∧ a_n a ≤ n)%nat && bool_decide (Z.of_nat (a_n a) < 0xFFFF)
  | None => false
  end.
Definition hear (a : arrival) (h : heard) : heard :=
  if report a h then delete (a_sender a, true) (delete (a_sender a, false) h)
  else <[(a_sender a, channel a) := (a_life a, a_n a)]> h.

Fixpoint reports (l : list arrival) (h : heard) : list bool :=
  match l with [] => [] | a :: l => report a h :: reports l (hear a h) end.

(** What [sessions_received_] holds for a sender. *)
Definition record_of (x : option (nat * nat)) : Z * bool :=
  match x with Some (_, n) => session_at n | None => (0, true) end.
Definition represents (s : gmap Z (Z * Z * bool * bool)) (h : heard) : Prop :=
  ∀ sender, s !! sender =
    match h !! (sender, true), h !! (sender, false) with
    | None, None => None
    | m, u => Some ((record_of m).1, (record_of u).1, (record_of m).2, (record_of u).2)
    end.

(** All that was heard precedes the arrivals to come. *)
Definition heard_before (h : heard) (l : list arrival) : Prop :=
  ∀ sender c life n, h !! (sender, c) = Some (life, n) →
    Forall (λ a, a_sender a = sender → (life ≤ a_life a)%nat ∧
      (c = channel a → life = a_life a → (n < a_n a)%nat)) l.

(** The tests of [is_reboot] on the sessions of two messages to the same kind of address. *)
Definition restarted (old new : Z * bool) : bool :=
  if new.2 && negb old.2 then true else old.2 && new.2 && bool_decide (old.1 >= new.1).

Lemma restarted_first n : restarted (0, true) (session_at n) = false.
Proof.
  unfold restarted. cbn [fst snd]. rewrite andb_false_r. pose proof (session_at_pos n).
  rewrite bool_decide_false by lia. by rewrite andb_false_r.
Qed.

Lemma restarted_at n k : restarted (session_at n) (session_at k) =
  bool_decide (k ≤ n)%nat && bool_decide (Z.of_nat k < 0xFFFF).
Proof.
  unfold restarted, session_at. destruct (decide (Z.of_nat k < 0xFFFF)) as [Hk|Hk].
  - rewrite (bool_decide_true (Z.of_nat k < _)), andb_true_r by done. cbn [fst snd andb].
    destruct (decide (Z.of_nat n < 0xFFFF)) as [Hn|Hn].
    + rewrite (bool_decide_true (Z.of_nat n < _)) by done. cbn [fst snd negb andb]. rewrite ?andb_true_r. apply bool_decide_ext. lia.
    + rewrite (bool_decide_false (Z.of_nat n < _)) by done. cbn [fst snd negb]. rewrite bool_decide_true by lia. done.
  - rewrite (bool_decide_false (Z.of_nat k < _)) by done. cbn [fst snd andb]. by rewrite !andb_false_r.
Qed.

Lemma receive_spec a s : receive a s =
  let x := session_at (a_n a) in
  Ret (match sessions_received_ s !! a_sender a with
       | None => (false, put_received <[a_sender a := if channel a then (x.1, 0, x.2, true) else (0, x.1, true, x.2)]> s)
       | Some (m, u, mf, uf) =>
           let b := restarted (if channel a then (m, mf) else (u, uf)) x in
           (b, if b then put_received (delete (a_sender a)) s
               else put_received <[a_sender a := if channel a then (x.1, u, x.2, uf) else (m, x.1, mf, x.2)]> s)
       end).
Proof.
  unfold receive, is_reboot, channel, restarted. st_run. cbn [fst snd].
  destruct (sessions_received_ s !! a_sender a) as [[[[m u] mf] uf]|];
    destruct (is_multicast (a_destination a)); cbn [fst snd andb orb negb]; rewrite ?orb_false_r; try done.
  all: by destruct (if _ && _ then _ else _); cbn [negb].
Qed.

Lemma report_restarted a l h : heard_before h (a :: l) →
  report a h = restarted (record_of (h !! (a_sender a, channel a))) (session_at (a_n a)).
Proof.
  intros Hb. unfold report. destruct (h !! (a_sender a, channel a)) as [[life n]|] eqn:E; cbn [record_of].
  - rewrite restarted_at. f_equal. apply bool_decide_ext.
    specialize (Hb _ _ _ _ E). apply Forall_cons_1 in Hb as [Ha _]. specialize (Ha eq_refl) as [Hl Hn].
    specialize (Hn eq_refl). split; [lia|]. intros Hle. split; [|done].
    destruct (decide (life = a_life a)); [specialize (Hn ltac:(done)); lia|lia].
  - by rewrite restarted_first.
Qed.

Lemma represents_insert s h sender c life n : represents s h →
  represents (<[sender :=
      let x := session_at n in
      let m := record_of (h !! (sender, true)) in let u := record_of (h !! (sender, false)) in
      if (c : bool) then (x.1, u.1, x.2, u.2) else (m.1, x.1, m.2, x.2)]> s)
    (<[(sender, c) := (life, n)]> h).
Proof.
  intros Hr t. cbv zeta. destruct (decide (sender = t)) as [<-|Hne].
  - rewrite lookup_insert_eq. destruct c.
    + rewrite lookup_insert_eq, lookup_insert_ne by done. cbn [record_of]. by destruct (h !! (sender, false)).
    + rewrite lookup_insert_eq, lookup_insert_ne by done. cbn [record_of]. by destruct (h !! (sender, true)) as [[]|].
  - rewrite !lookup_insert_ne by congruence. apply Hr.
Qed.

Lemma represents_delete s h sender : represents s h →
  represents (delete sender s) (delete (sender, true) (delete (sender, false) h)).
Proof.
  intros Hr t. destruct (decide (sender = t)) as [<-|Hne].
  - rewrite lookup_delete_eq, lookup_delete_eq, lookup_delete_ne, lookup_delete_eq by congruence. done.
  - rewrite !lookup_delete_ne by congruence. apply Hr.
Qed.

(** One arrival that is preceded by what was heard. *)
Lemma receive_represents a l s h : heard_before h (a :: l) → represents (sessions_received_ s) h →
  ∃ s', receive a s = Ret (report a h, s') ∧ represents (sessions_received_ s') (hear a h).
Proof.
  intros Hb Hr. rewrite receive_spec. cbv zeta. rewrite (Hr (a_sender a)).
  pose proof (report_restarted a l h Hb) as Hrep. unfold hear.
  pose proof (represents_insert _ _ (a_sender a) (channel a) (a_life a) (a_n a) Hr) as Hins. cbv zeta in Hins.
  pose proof (represents_delete _ _ (a_sender a) Hr) as Hdel.
  destruct (h !! (a_sender a, true)) as [x|] eqn:Em, (h !! (a_sender a, false)) as [y|] eqn:Eu.
  4:{ assert (report a h = false) as ->.
      { unfold report. by destruct (channel a); rewrite ?Em, ?Eu. }
      eexists. split; [done|]. cbn [put_received sessions_received_ record_of fst snd] in *.
      by destruct (channel a). }
  all: cbv beta iota; rewrite <- Em, <- Eu in *; destruct (channel a); rewrite <- !surjective_pairing in *;
    rewrite <- Hrep; eexists; (split; [done|]); by destruct (report a h).
Qed.

Lemma heard_before_hear a l h : heard_before h (a :: l) → Forall (precedes a) l → heard_before (hear a h) l.
Proof.
  intros Hb Hp sender c life n. unfold hear. destruct (report a h).
  - intros [_ [_ Hh]%lookup_delete_Some]%lookup_delete_Some. by eapply Hb in Hh as [_ ?]%Forall_cons_1.
  - intros [[[= <- <-] [= <- <-]]|[_ Hh]]%lookup_insert_Some.
    { eapply Forall_impl; [exact Hp|]. intros b Hab Hs. by apply Hab. }
    by eapply Hb in Hh as [_ ?]%Forall_cons_1.
Qed.

Lemma receive_all_reports l s h : StronglySorted precedes l → heard_before h l →
  represents (sessions_received_ s) h → ∃ s', receive_all l s = Ret (reports l h, s').
Proof.
  intros Hl. revert s h. induction Hl as [|a l Hl IH Ha]; intros s h Hb Hr; cbn [receive_all reports]; [by eexists|].
  destruct (receive_represents a l s h Hb Hr) as (s1&E1&Hr1). rewrite (st_bind_Ret _ _ _ _ _ E1).
  destruct (IH s1 (hear a h) (heard_before_hear a l h Hb Ha) Hr1) as [s2 E2].
  rewrite (st_bind_Ret _ _ _ _ _ E2). by eexists.
Qed.

(** ** When a reboot is reported *)

Definition hears (l : list arrival) (h : heard) : heard := foldl (λ h a, hear a h) h l.

Lemma reports_app l1 l2 h : reports (l1 ++ l2) h = reports l1 h ++ reports l2 (hears l1 h).
Proof. revert h. induction l1 as [|a l1 IH]; intros h; cbn [app reports]; [done|]. by rewrite IH. Qed.
Lemma length_reports l h : length (reports l h) = length l.
Proof. revert h. induction l as [|a l IH]; intros h; cbn [reports length]; by rewrite ?IH. Qed.

(** The [k]-th arrival [b] is the last one from its sender to its kind of address among the
    first [i], and nothing was reported of the sender from there on. *)
Definition last_heard (l : list arrival) (bs : list bool) (i k : nat) (b : arrival) : Prop :=
  (k < i)%nat ∧ l !! k = Some b ∧
  ∀ j c, (k ≤ j < i)%nat → l !! j = Some c → a_sender c = a_sender b →
    bs !! j = Some false ∧ (channel c = channel b → j = k).

Lemma last_heard_snoc l bs a r k b : length bs = length l →
  last_heard (l ++ [a]) (bs ++ [r]) (S (length l)) k b ↔
    k = length l ∧ b = a ∧ r = false ∨
    last_heard l bs (length l) k b ∧ (a_sender a = a_sender b → r = false ∧ channel a ≠ channel b).
Proof.
  intros Hlen. unfold last_heard. split.
  - intros (Hk&Hb&Hj). apply lookup_app_Some in Hb as [Hb|[Hge Hb]].
    + pose proof (lookup_lt_Some _ _ _ Hb) as Hkl. right. split; [split; [done|split; [done|]]|].
      * intros j c Hjk Hc Hs. destruct (Hj j c ltac:(lia) (lookup_app_l_Some _ _ _ _ Hc) Hs) as [H1 H2].
        split; [|done]. by rewrite lookup_app_l in H1 by lia.
      * intros Hs. destruct (Hj (length l) a) as [H1 H2]; [lia|by apply list_lookup_middle|done|].
        rewrite <- Hlen, list_lookup_middle in H1 by done. split; [congruence|]. intros Hc. specialize (H2 Hc). lia.
    + apply list_lookup_singleton_Some in Hb as [Hz ->]. left. assert (k = length l) as -> by lia. split_and!; [done..|].
      destruct (Hj (length l) b) as [H1 _]; [lia|by apply list_lookup_middle|done|].
      rewrite <- Hlen, list_lookup_middle in H1 by done. congruence.
  - intros [(->&->&->)|[(Hk&Hb&Hj) Hlast]].
    + split; [lia|]. split; [by apply list_lookup_middle|]. intros j c Hjk _ _. assert (j = length l) as -> by lia.
      rewrite <- Hlen. split; [by apply list_lookup_middle|done].
    + split; [lia|]. split; [by apply lookup_app_l_Some|]. intros j c Hjk Hc Hs.
      apply lookup_app_Some in Hc as [Hc|[Hge Hc]].
      * pose proof (lookup_lt_Some _ _ _ Hc). rewrite lookup_app_l by lia. apply (Hj j c); [lia|done|done].
      * apply list_lookup_singleton_Some in Hc as [Hz <-]. destruct (Hlast Hs) as [-> Hne].
        assert (j = length bs) as -> by lia. by split; [apply list_lookup_middle|].
Qed.

Lemma hears_last_heard l s c life n : hears l ∅ !! (s, c) = Some (life, n) ↔
  ∃ k b, last_heard l (reports l ∅) (length l) k b ∧ a_sender b = s ∧ channel b = c ∧
    a_life b = life ∧ a_n b = n.
Proof.
  revert s c life n. induction l as [|a l IH] using rev_ind; intros s c life n.
  { cbn. rewrite lookup_empty. split; [done|]. intros (k&b&(Hk&_)&_). cbn in Hk. lia. }
  unfold hears. rewrite foldl_snoc. fold (hears l ∅). rewrite reports_app, length_app, Nat.add_1_r. cbn [reports].
  setoid_rewrite (last_heard_snoc l _ a _ _ _ (length_reports l ∅)).
  unfold hear. destruct (report a (hears l ∅)).
  - rewrite !lookup_delete_Some, IH. split.
    + intros (H1&H2&k&b&Hk&<-&<-&<-&<-). exists k, b. split; [|done]. right. split; [done|].
      intros Hs. destruct (channel b); rewrite Hs in *; done.
    + intros (k&b&[(_&_&[=])|[Hk Hne]]&<-&<-&<-&<-). split_and!; [| |by exists k, b];
        intros [= Hs _]; by destruct (Hne Hs).
  - rewrite lookup_insert_Some, IH. split.
    + intros [[[= <- <-] [= <- <-]]|[Hne (k&b&Hk&<-&<-&<-&<-)]].
      * exists (length l), a. split; [by left|done].
      * exists k, b. split; [|done]. right. split; [done|]. intros Hs. split; [done|]. intros Hc. apply Hne. by rewrite Hs, Hc.
    + intros (k&b&[(->&->&_)|[Hk Hne]]&<-&<-&<-&<-); [by left|]. right. split; [|by exists k, b].
      intros [= Hs Hc]. by destruct (Hne Hs).
Qed.

(** The reports of a prefix do not depend on what follows. *)
Lemma last_heard_take l bs i k b : (i ≤ length l)%nat →
  last_heard (take i l) (take i bs) i k b ↔ last_heard l bs i k b.
Proof.
  intros Hi. unfold last_heard. split; intros (Hk&Hb&Hj).
  - rewrite lookup_take_lt in Hb by lia. split_and!; [done..|]. intros j c Hjk Hc Hs.
    destruct (Hj j c Hjk) as [H1 H2]; [by rewrite lookup_take_lt by lia|done|].
    by rewrite lookup_take_lt in H1 by lia.
  - split; [done|]. rewrite !lookup_take_lt by lia. split; [done|]. intros j c Hjk Hc Hs.
    rewrite lookup_take_lt in Hc by lia. rewrite lookup_take_lt by lia. by apply Hj.
Qed.

Lemma reported_iff l i a : l !! i = Some a → reports l ∅ !! i = Some true ↔
  ∃ k b, last_heard l (reports l ∅) i k b ∧ a_sender b = a_sender a ∧ channel b = channel a ∧
    (a_life b < a_life a)%nat ∧ (a_n a ≤ a_n b)%nat ∧ Z.of_nat (a_n a) < 0xFFFF.
Proof.
  intros Ha. pose proof (lookup_lt_Some _ _ _ Ha) as Hi.
  assert (Htake : take i (reports l ∅) = reports (take i l) ∅).
  { rewrite <- (take_drop i l) at 1. rewrite reports_app. apply take_app_length'.
    rewrite length_reports, length_take. lia. }
  assert (Hrep : reports l ∅ !! i = Some (report a (hears (take i l) ∅))).
  { rewrite <- (take_drop_middle l i a Ha) at 1. rewrite reports_app. cbn [reports].
    apply list_lookup_middle. rewrite length_reports, length_take. lia. }
  setoid_rewrite <- (last_heard_take l (reports l ∅) i _ _ ltac:(lia)). rewrite Htake, Hrep.
  assert (Hl : i = length (take i l)) by (rewrite length_take; lia).
  trans (∃ life n, hears (take i l) ∅ !! (a_sender a, channel a) = Some (life, n) ∧
    (life < a_life a ∧ a_n a ≤ n)%nat ∧ Z.of_nat (a_n a) < 0xFFFF).
  - unfold report. destruct (hears (take i l) ∅ !! (a_sender a, channel a)) as [[life n]|]; [|naive_solver].
    rewrite <- bool_decide_and. split.
    + intros [= ?%bool_decide_eq_true]. naive_solver.
    + intros (?&?&[= <- <-]&?). by rewrite bool_decide_true.
  - setoid_rewrite hears_last_heard. rewrite <- Hl. split.
    + intros (life&n&(k&b&Hk&?&?&<-&<-)&(?&?)&?). by exists k, b.
    + intros (k&b&Hk&?&?&?&?&?). exists (a_life b), (a_n b). split; [by exists k, b|done].
Qed.

(** C22: The detection of reboots.  However messages of other devices arrive, with losses
    but in order, [is_reboot] reports an arrival exactly if an earlier message from the
    same sender to the same kind of address, the last one heard since the last report,
    is of an earlier life of the sender, was sent in it at least as late as the arrival in
    its own life, and the arrival still has the reboot flag.  So without a restart there is
    no report. *)
Theorem reboot_detection l sent : StronglySorted precedes l →
  ∃ bs s, receive_all l (Sessions sent ∅) = Ret (bs, s) ∧ length bs = length l ∧
    ∀ i a, l !! i = Some a → bs !! i = Some true ↔
      ∃ k b, last_heard l bs i k b ∧ a_sender b = a_sender a ∧ channel b = channel a ∧
        (a_life b < a_life a)%nat ∧ (a_n a ≤ a_n b)%nat ∧ Z.of_nat (a_n a) < 0xFFFF.
Proof.
  intros Hl. destruct (receive_all_reports l (Sessions sent ∅) ∅ Hl) as [s E].
  { intros ? ? ? ? ?. done. }
  { intros t. cbn [sessions_received_]. by rewrite !lookup_empty. }
  exists (reports l ∅), s. split; [done|]. split; [apply length_reports|]. intros i a Ha.
  apply (reported_iff l i a Ha).
Qed.

Lemma precedes_lookup l i j a b : StronglySorted precedes l → (i < j)%nat →
  l !! i = Some a → l !! j = Some b → precedes a b.
Proof.
  intros Hl. revert i j. induction Hl as [|c l Hl IH Hc]; intros i j Hij Hi Hj; [done|].
  destruct i as [|i], j as [|j]; cbn in Hi, Hj; try lia.
  - injection Hi as ->. eapply Forall_forall; [done|]. by eapply list_elem_of_lookup_2.
  - eapply (IH i j); [lia|done|done].
Qed.

(** A restart is reported at most once: of two arrivals from one sender that are both
    reported, the later one is of a later life. *)
Theorem reboot_reported_once l sent bs s i j a b : StronglySorted precedes l →
  receive_all l (Sessions sent ∅) = Ret (bs, s) → (i < j)%nat →
  l !! i = Some a → l !! j = Some b → a_sender a = a_sender b →
  bs !! i = Some true → bs !! j = Some true → (a_life a < a_life b)%nat.
Proof.
  intros Hl E Hij Ha Hb Hs Hi Hj. destruct (receive_all_reports l (Sessions sent ∅) ∅ Hl) as [s' E'].
  { intros ? ? ? ? ?. done. }
  { intros t. cbn [sessions_received_]. by rewrite !lookup_empty. }
  rewrite E in E'. injection E' as -> _.
  apply (reported_iff l j b Hb) in Hj as (k&c&(Hkj&Hk&Hno)&Hcs&_&Hlife&_).
  destruct (decide (k ≤ i)%nat) as [Hki|Hki].
  - destruct (Hno i a ltac:(lia) Ha) as [Hf _]; congruence.
  - destruct (precedes_lookup l i k a c Hl ltac:(lia) Ha Hk) as [Hle _]; [congruence|lia].
Qed.
End reboots.

(** ** Instances *)

Definition sample_arrivals : list arrival :=
  [Arrival 1 10 0 0; Arrival 1 10 0 4; Arrival 2 10 0 7; Arrival 1 20 0 0; Arrival 1 20 1 0;
   Arrival 1 10 1 1; Arrival 2 10 0 8].

#[local] Ltac ordered :=
  repeat (apply SSorted_cons || apply SSorted_nil || apply Forall_cons_2 || apply Forall_nil_2);
  intros Hs; cbn [a_sender a_life a_n] in *; try done;
  (split; [lia|]); intros Hc Hl; solve [lia|by vm_compute in Hc].

Lemma sample_arrivals_ordered : StronglySorted (precedes (λ d, bool_decide (d = 10))) sample_arrivals.
Proof. unfold sample_arrivals. ordered. Qed.

Lemma reboot_detection_witness :
  ∃ bs s, receive_all (λ d, bool_decide (d = 10)) sample_arrivals (Sessions ∅ ∅) = Ret (bs, s) ∧
    bs = [false; false; false; false; true; false; false].
Proof.
  destruct (reboot_detection (λ d, bool_decide (d = 10)) sample_arrivals ∅ sample_arrivals_ordered)
    as (bs&s&E&_). exists bs, s. split; [done|]. vm_compute in E. by injection E as <- _.
Defined.

Lemma reboot_reported_once_witness : (1 < 2)%nat.
Proof.
  exact (reboot_reported_once (λ d, bool_decide (d = 10))
    [Arrival 1 10 0 0; Arrival 1 10 1 0; Arrival 1 10 1 1; Arrival 1 20 1 0; Arrival 1 20 2 0] ∅
    [false; true; false; false; true] _ 1 4 (Arrival 1 10 1 0) (Arrival 1 20 2 0)
    ltac:(ordered) eq_refl ltac:(lia)
    eq_refl eq_refl eq_refl eq_refl eq_refl).
Defined.

(** A host that refuses the second output. *)
Definition sample_host (out : list (sd_output * bool)) (o : sd_output) : bool :=
  bool_decide (length out ≠ 1%nat).
Definition sample_calls : list sd_call :=
  [CallSend [sample_sd_message; sd_message_new]; CallSendTo [sample_sd_message; sample_sd_message] 7;
   CallSendTo [sample_sd_message] 0; CallSend [sample_sd_message]].
Definition sample_net : sd_net := Net (Sessions ∅ ∅) (serializer_new 0) [].

Lemma sent_sessions_witness :
  ∃ w', (in_sessions start_sessions;;
         calls 5 (λ a, bool_decide (a = 0)) sample_host 2000 sample_calls) sample_net = Ret ((), w') ∧
    (length (accepted 5 5 (net_out w')), length (accepted 5 7 (net_out w'))) = (2%nat, 1%nat) ∧
    ∀ a k o, accepted 5 a (net_out w') !! k = Some o → carries (session_at k) o.
Proof.
  destruct (sent_sessions 5 (λ a, bool_decide (a = 0)) sample_host 2000 sample_calls sample_net) as (w'&E&H).
  - repeat constructor.
  - done.
  - done.
  - exists w'. split; [done|]. split; [|done]. vm_compute in E. injection E as <-. by vm_compute.
Defined.
