(* ===== verification/SdAssembly.v ===== *)
(** Assembling service discovery messages: [add_entry_data] of
    [service_discovery/src/service_discovery_impl.cpp], which starts a new message when an
    entry does not fit, and what the messages contain when they are sent.

    An option is created by [std::make_shared]: the [k]-th one is at the address
    [alloc k]. *)
From S2P Require Import Prelude ByteOrder Streams Message SdOptions SdEntries SdMessage SdSessions.

(** [service_discovery_impl::add_entry_data]: into the last message, or into a new one. *)
Definition sd_add_entry_data (messages : list sd_message) (entry : entry_impl) (opts : list option_ptr)
    (other : option entry_impl) : outcome (list sd_message) :=
  match last messages with
  | None => Undef
  | Some its_current_message =>
      '(is_fitting, m) ← add_entry_data entry opts other its_current_message;
      if (is_fitting : bool) then Ret (removelast messages ++ [m])
      else
        '(_, m) ← add_entry_data entry opts other sd_message_new;
        Ret (messages ++ [m])
  end.

(** ** What the messages contain *)

(** Type, service, instance, major version, time to live, and minor version or eventgroup
    of an entry. *)
Definition entry_body (x : entry_impl) : Z * Z * Z * Z * Z * Z :=
  let e := entry_common x in
  (e_type_ e, e_service_ e, e_instance_ e, e_major_version_ e, e_ttl_ e,
   match x with ServiceEntry _ minor => minor | EventgroupEntry _ g _ _ _ _ => g end).
Definition bodies (ms : list sd_message) : list (Z * Z * Z * Z * Z * Z) :=
  mjoin ((λ m, entry_body <$> entries_ m) <$> ms).

Lemma bodies_snoc ms m : bodies (ms ++ [m]) = bodies ms ++ (entry_body <$> entries_ m).
Proof. unfold bodies. rewrite fmap_app, join_app. cbn. by rewrite app_nil_r. Qed.

Lemma entry_body_with e x : same_contents e (entry_common x) → entry_body (with_common (λ _, e) x) = entry_body x.
Proof. intros (H1&H2&H3&H4&H5). unfold entry_body. destruct x; cbn in *; by rewrite H1, H2, H3, H4, H5. Qed.

(** An entry that refers to no options yet. *)
Definition new_entry (x : entry_impl) : Prop := refs_ok 0 (entry_common x).

Definition opt_good (p : option_ptr) : Prop := opt_wf p.2 ∧ opt_length_ok p.2.

(** The options of [create_ip_option]. *)
Lemma ip_option_good (v4 mc r : bool) bs port p : bytes bs → length bs = (if v4 then 4 else 16)%nat → is_u16 port →
  opt_good (p, if v4 then ipv4_option_of bs mc port r else ipv6_option_of bs mc port r).
Proof.
  intros Hb Hl Hp. split; [|by destruct v4].
  destruct v4, mc, r; (split; [vm_compute; done|]); cbn [snd ipv4_option_of ipv6_option_of o_type_ o_length_];
    (split_and!; [set_solver|done| |done|done]); (split; [cbn; set_solver|done]).
Qed.
Lemma ip_option_size (v4 mc r : bool) bs port p :
  option_size (p, if v4 then ipv4_option_of bs mc port r else ipv6_option_of bs mc port r) ≤ 24.
Proof. by destruct v4. Qed.

(** The option of selected clients. *)
Lemma selective_option_good (cs : gset Z) p : set_Forall is_u16 cs → (size cs ≤ 600)%nat →
  opt_good (p, SelectiveOption (set_clients cs (OptionBase 1 SELECTIVE)).1 cs) ∧
  option_size (p, SelectiveOption (set_clients cs (OptionBase 1 SELECTIVE)).1 cs) ≤ 1204.
Proof.
  intros Hc Hn. assert (selective_length cs = 1 + 2 * Z.of_nat (size cs)) as El.
  { unfold selective_length. rewrite u16_id by (unfold is_u16; lia). lia. }
  unfold opt_good, option_size, option_get_size, option_get_length, opt_wf, opt_length_ok, VSOMEIP_SOMEIP_SD_OPTION_HEADER_SIZE.
  cbn [snd opt_base set_clients fst o_length_ o_type_ option_get_length]. unfold option_get_length. cbn [opt_base o_length_]. rewrite El.
  assert (600 < 2 ^ 15)%nat by (apply Nat.ltb_lt; vm_compute; reflexivity).
  split; [split; [split; [unfold is_u16; lia|split_and!; [done..|by eapply Nat.le_lt_trans]]|done]|].
  rewrite u32_id by (unfold is_u32; lia). lia.
Qed.

Section contents.
  Context (alloc : nat → Z) (Halloc : Inj (=) (=) alloc).

(** Messages under construction whose options are at the first [n] addresses. *)
Definition msg_ok (n : nat) (m : sd_message) : Prop :=
  sd_inv m ∧ Forall opt_good (options_ m) ∧ one_object (options_ m) ∧
  ∀ p, p ∈ options_ m → ∃ k, (k < n)%nat ∧ p.1 = alloc k.

(** Options that were just created; they fit a message together with two entries. *)
Definition fresh_options (n n' : nat) (opts : list option_ptr) : Prop :=
  (n ≤ n')%nat ∧ (length opts ≤ 3)%nat ∧ options_size opts ≤ 1320 ∧ one_object opts ∧ Forall opt_good opts ∧
  ∀ p, p ∈ opts → ∃ k, (n ≤ k < n')%nat ∧ p.1 = alloc k.

Lemma msg_ok_mono n n' m : (n ≤ n')%nat → msg_ok n m → msg_ok n' m.
Proof. intros Hn (?&?&?&Hk). split_and!; try done. intros p (k&?&?)%Hk. exists k. split; [lia|done]. Qed.

Lemma msg_ok_new n : msg_ok n sd_message_new.
Proof.
  split; [apply sd_inv_new|]. split; [constructor|]. split; [intros p q Hp; by apply elem_of_nil in Hp|].
  intros p Hp. by apply elem_of_nil in Hp.
Qed.

Lemma one_object_fresh n n' opts m : msg_ok n m → fresh_options n n' opts → one_object (opts ++ options_ m).
Proof.
  intros (_&_&Hm&Hmk) (_&_&_&Ho&_&Hok) p q Hp Hq E. apply elem_of_app in Hp, Hq.
  destruct Hp as [Hp|Hp], Hq as [Hq|Hq]; [by apply Ho| | |by apply Hm].
  - destruct (Hok p Hp) as (k&?&Hk), (Hmk q Hq) as (l&?&Hl). rewrite Hk, Hl in E. apply Halloc in E. lia.
  - destruct (Hmk p Hp) as (k&?&Hk), (Hok q Hq) as (l&?&Hl). rewrite Hk, Hl in E. apply Halloc in E. lia.
Qed.

Lemma good_wf l : Forall opt_good l → Forall (λ p : option_ptr, opt_wf p.2) l.
Proof. intros H. eapply Forall_impl; [exact H|]. by intros p []. Qed.

(** Options at consecutive addresses. *)
Fixpoint allocated (n : nat) (l : list option_impl) : list option_ptr :=
  match l with [] => [] | o :: l => (alloc n, o) :: allocated (S n) l end.

Lemma allocated_elem n l p : p ∈ allocated n l → ∃ k, (n ≤ k < length l + n)%nat ∧ p.1 = alloc k ∧ l !! (k - n)%nat = Some p.2.
Proof.
  revert n. induction l as [|o l IH]; intros n Hp; cbn in Hp; [by apply elem_of_nil in Hp|].
  apply elem_of_cons in Hp as [->|Hp].
  - exists n. cbn. rewrite Nat.sub_diag. split_and!; [lia|lia|done|done].
  - destruct (IH _ Hp) as (k&?&?&Hk). exists k. cbn [length]. split; [lia|]. split; [done|].
    replace (k - n)%nat with (S (k - S n)) by lia. done.
Qed.

Lemma length_allocated n l : length (allocated n l) = length l.
Proof. revert n. induction l as [|o l IH]; intros n; cbn; [done|]. by rewrite IH. Qed.

Lemma allocated_fresh n l : (length l ≤ 3)%nat → (∀ p, Forall (λ o, opt_good (p, o)) l) →
  options_size (allocated n l) ≤ 1320 → fresh_options n (length l + n) (allocated n l).
Proof.
  intros Hl Hg Hs. split; [lia|]. split; [by rewrite length_allocated|].
  split; [done|]. split; [|split].
  - intros p q Hp Hq E. apply allocated_elem in Hp as (k&_&Hk&Hp). apply allocated_elem in Hq as (k'&_&Hk'&Hq).
    rewrite Hk, Hk' in E. apply Halloc in E as ->. rewrite Hp in Hq. injection Hq as Hq.
    destruct p, q. cbn in *. congruence.
  - apply Forall_forall. intros p Hp. apply allocated_elem in Hp as (k&_&_&Hp). specialize (Hg p.1).
    eapply Forall_lookup_1 in Hg; [|exact Hp]. by destruct p.
  - intros p Hp. apply allocated_elem in Hp as (k&?&?&_). by exists k.
Qed.

(** One or two entries into one message. *)
Lemma add_new_entry n n' entry opts other m : msg_ok n m → fresh_options n n' opts →
  new_entry entry → (∀ x, other = Some x → new_entry x) →
  ∃ b m', add_entry_data entry opts other m = Ret (b, m') ∧ msg_ok n' m' ∧
    entry_body <$> entries_ m' = (entry_body <$> entries_ m) ++
      (if (b : bool) then entry_body <$> entry :: option_list other else []).
Proof.
  intros Hm Hf He Ho. pose proof (one_object_fresh _ _ _ _ Hm Hf) as Hone.
  pose proof Hm as (Hinv&Hwf&_&Hmk). pose proof Hf as (Hnn&Hlen&_&_&Hopts&Hok).
  destruct (add_entry_data_keeps entry opts other m) as (b&m'&E&Hinv'&Hb); try done.
  - lia.
  - by apply good_wf.
  - by apply good_wf.
  - eapply refs_ok_mono; [|exact He]. lia.
  - intros x Hx. eapply refs_ok_mono; [|by apply Ho]. lia.
  - exists b, m'. split; [done|]. destruct b.
    + destruct (add_entry_data_adds _ _ _ _ _ E) as (Hel&e&e'&Hes&Hc&Hc'). split.
      * split; [done|]. split; [|split].
        -- apply Forall_forall. intros p [Hp|Hp]%Hel%elem_of_app; [by eapply Forall_forall in Hopts|by eapply Forall_forall in Hwf].
        -- intros p q Hp Hq. apply Hone; auto.
        -- intros p [Hp|Hp]%Hel%elem_of_app.
           ++ destruct (Hok p Hp) as (k&?&?). exists k. split; [lia|done].
           ++ destruct (Hmk p Hp) as (k&?&?). exists k. split; [lia|done].
      * rewrite Hes, fmap_app. f_equal. rewrite !fmap_cons, entry_body_with by done. f_equal.
        destruct other as [x|]; [|done]. cbn. by rewrite entry_body_with by by apply Hc'.
    + subst m'. rewrite app_nil_r. split; [by apply (msg_ok_mono n)|done].
Qed.

(** A message has options when it has entries. *)
Definition equipped (m : sd_message) : Prop := entries_ m = [] ∨ options_ m ≠ [].

Lemma add_new_entry_equips n n' entry opts other m m' : msg_ok n m → fresh_options n n' opts → opts ≠ [] →
  add_entry_data entry opts other m = Ret (true, m') → options_ m' ≠ [].
Proof.
  intros Hm Hf Hne E. pose proof (one_object_fresh _ _ _ _ Hm Hf) as Hone.
  destruct Hm as (_&Hwf&_), Hf as (_&Hlen&_&_&Hopts&_). unfold add_entry_data in E.
  set (sz := match other with Some _ => _ | None => _ end) in E.
  assert (0 ≤ sz ≤ 32) as Hsz by (subst sz; by destruct other).
  apply outcome_bind_inv in E as ([sz' l]&Hc&E). cbv beta iota in E. case_bool_decide; [done|].
  destruct (assign_options l (options_ m) (entry_common entry)) as [os e'] eqn:Ha. injection E as <-. cbn [options_].
  rewrite (assign_options_options _ _ _ _ _ Ha).
  apply (collect_options_spec (opts ++ options_ m)) in Hc as (Hok&_&_&_&_&_&Hst);
    [|done|set_solver|set_solver| |by intros ? ? []%not_elem_of_nil|lia|lia].
  2:{ eapply Forall_impl; [exact Hopts|]. by intros o [[Ho _] _]. }
  destruct opts as [|o opts]; [done|]. destruct (Hst o ltac:(by left)) as (q&c&Hq&_). destruct (Hok q c Hq) as [_ Hc].
  destruct c.
  - intros [_ En]%app_nil. assert (q ∈ new_options l) as H' by (unfold new_options; apply list_elem_of_omap; by exists (q, true)).
    rewrite En in H'. by apply elem_of_nil in H'.
  - intros [En _]%app_nil. specialize (Hc eq_refl). rewrite En in Hc. by apply elem_of_nil in Hc.
Qed.

Lemma collect_into_new opts : ∀ sz acc, 0 ≤ sz → sz + options_size opts < 2 ^ 32 →
  ∃ l, collect_options opts [] sz acc = Ret (sz + options_size opts, l).
Proof.
  induction opts as [|o opts IH]; intros sz acc Hsz Hmax; cbn [collect_options find_option options_size foldr] in *.
  - exists acc. by rewrite Z.add_0_r.
  - rewrite outcome_bind_Ret. fold (options_size opts) in *. pose proof (option_size_bounds o). pose proof (options_size_nonneg opts).
    change (option_get_size o.2) with (option_size o). rewrite u32_id by (unfold is_u32; lia).
    destruct (IH (sz + option_size o) (options_insert o true acc)) as [l ->]; [lia..|]. exists l. do 2 f_equal. lia.
Qed.

Lemma new_message_fits n n' entry opts other : fresh_options n n' opts →
  ∃ m', add_entry_data entry opts other sd_message_new = Ret (true, m').
Proof.
  intros (_&_&Hsz&_). unfold add_entry_data. set (sz := match other with Some _ => _ | None => _ end).
  assert (16 ≤ sz ≤ 32) as Hs by (subst sz; by destruct other).
  change (options_ sd_message_new) with (@nil option_ptr).
  pose proof (options_size_nonneg opts).
  destruct (collect_into_new opts sz []) as [l ->]; [lia..|]. rewrite outcome_bind_Ret.
  change (current_message_size_ sd_message_new) with 28.
  rewrite bool_decide_false by (rewrite u32_id by (unfold is_u32; lia); unfold VSOMEIP_MAX_UDP_SD_PAYLOAD; lia).
  destruct (assign_options l _ _). by eexists.
Qed.

(** Messages take new entries with their options, in order, and stay consistent. *)
Lemma sd_add_new_entry n n' entry opts other ms : ms ≠ [] → Forall (msg_ok n) ms → fresh_options n n' opts →
  new_entry entry → (∀ x, other = Some x → new_entry x) →
  ∃ ms', sd_add_entry_data ms entry opts other = Ret ms' ∧ ms' ≠ [] ∧ Forall (msg_ok n') ms' ∧
    bodies ms' = bodies ms ++ (entry_body <$> entry :: option_list other) ∧
    (opts ≠ [] → Forall equipped ms → Forall equipped ms').
Proof.
  intros Hne Hms Hf He Ho. destruct ms as [|m ms _] using rev_ind; [done|].
  apply Forall_app in Hms as [Hms Hm]. apply Forall_cons_1 in Hm as [Hm _].
  assert (Hms' : Forall (msg_ok n') ms).
  { destruct Hf as [Hn _]. eapply Forall_impl; [exact Hms|]. intros x. by apply msg_ok_mono. }
  unfold sd_add_entry_data. rewrite last_snoc.
  destruct (add_new_entry n n' entry opts other m Hm Hf He Ho) as (b&m'&E&Hm'&Hb). rewrite E, outcome_bind_Ret. destruct b.
  - rewrite removelast_last. eexists. split; [done|]. split; [by destruct ms|]. split; [by apply Forall_app; split; [|apply Forall_singleton]|].
    split; [by rewrite !bodies_snoc, Hb, app_assoc|].
    intros Hopts [? _]%Forall_app. apply Forall_app. split; [done|]. apply Forall_singleton. right.
    by apply (add_new_entry_equips n n' entry opts other m).
  - destruct (new_message_fits n n' entry opts other Hf) as [m2 E2]. rewrite E2, outcome_bind_Ret.
    destruct (add_new_entry n n' entry opts other sd_message_new (msg_ok_new n) Hf He Ho) as (b2&m3&E3&Hm3&Hb3).
    rewrite E2 in E3. injection E3 as <- <-. eexists. split; [done|]. split; [by destruct (ms ++ [m])|].
    split; [|split; [by rewrite bodies_snoc, Hb3|]].
    + apply Forall_app; split; [|by apply Forall_singleton]. apply Forall_app; split; [done|]. apply Forall_singleton.
      destruct Hf as [Hn _]. by apply (msg_ok_mono n).
    + intros Hopts Heq. apply Forall_app. split; [done|]. apply Forall_singleton. right.
      by apply (add_new_entry_equips n n' entry opts other sd_message_new); [apply msg_ok_new|..].
Qed.

Lemma options_total_good l : Forall opt_good l → options_total l = options_size l.
Proof.
  unfold options_total. induction 1 as [|o l [Ho Hl] _ IH]; [done|]. cbn [sum_list_with options_size foldr].
  rewrite Nat2Z.inj_add, IH, option_size_wire by done. done.
Qed.

Lemma msg_ok_sendable n m : msg_ok n m → sendable m.
Proof.
  intros ([Hsz _]&Hg&_). unfold sendable. rewrite length_sd_wire, options_total_good by done.
  unfold VSOMEIP_MAX_UDP_SD_PAYLOAD in Hsz. lia.
Qed.
End contents.

(** ** What is sent to an address *)

(** What [serialize_and_send] gives to the host: the messages with an entry, stamped, on the
    wire, in order. *)
Lemma send_to_outputs is_unspecified host capacity ms a w : is_unspecified a = false →
  ser_data_ (serializer_ w) = [] → Forall sendable ms →
  ∃ b w' out, serialize_and_send is_unspecified host capacity ms a w = Ret (b, w') ∧
    ser_data_ (serializer_ w') = [] ∧ net_out w' = net_out w ++ out ∧
    Forall2 (λ m o, ∃ x, o.1 = SendViaSd a (sd_wire (stamp x m))) (filter (λ m, has_entry m = true) ms) out.
Proof.
  intros Ha Hs Hms. unfold serialize_and_send. rewrite Ha. cbn [negb].
  cut (∀ b0 w, ser_data_ (serializer_ w) = [] → ∃ b w' out,
    for_messages (send_message_to host capacity a) b0 ms w = Ret (b, w') ∧
    ser_data_ (serializer_ w') = [] ∧ net_out w' = net_out w ++ out ∧
    Forall2 (λ m o, ∃ x, o.1 = SendViaSd a (sd_wire (stamp x m))) (filter (λ m, has_entry m = true) ms) out); [auto|].
  clear w Hs. induction Hms as [|m ms Hm Hms IH]; intros b w Hs; cbn [for_messages].
  { exists b, w, []. by rewrite app_nil_r. }
  assert (∃ b1 w1 o, send_message_to host capacity a m w = Ret (b1, w1) ∧ ser_data_ (serializer_ w1) = [] ∧
    net_out w1 = net_out w ++ o ∧
    if has_entry m then ∃ x ok, o = [(SendViaSd a (sd_wire (stamp x m)), ok)] else o = []) as (b1&w1&o&E1&Hs1&Hw1&Ho).
  { unfold send_message_to. destruct (has_entry m); [|exists false, w, []; by rewrite app_nil_r].
    assert (∃ x w1, in_sessions (get_session a) w = Ret (x, w1) ∧ net_out w1 = net_out w ∧ serializer_ w1 = serializer_ w)
      as (x&w1&E1&Hout&Hser).
    { unfold in_sessions, get_session. st_run. destruct (_ !! a); by do 2 eexists. }
    rewrite (st_bind_Ret _ _ _ _ _ E1).
    assert (E2 : in_serializer (sd_serialize (stamp x m)) w1 =
      Ret (true, Net (net_sessions w1) (ser_append (sd_wire (stamp x m)) (serializer_ w1)) (net_out w1))).
    { unfold in_serializer. st_run. by rewrite (writes_sd_message (stamp x m) (serializer_ w1)). }
    rewrite (st_bind_Ret _ _ _ _ _ E2).
    assert (Hbs : take (Z.to_nat (serializer_get_size (ser_append (sd_wire (stamp x m)) (serializer_ w1))))
      (ser_data_ (ser_append (sd_wire (stamp x m)) (serializer_ w1))) = sd_wire (stamp x m)).
    { pose proof (sendable_stamp x m Hm) as Hx. unfold sendable in Hx. unfold serializer_get_size. cbn [ser_append ser_data_].
      rewrite Hser, Hs. cbn [app]. rewrite u32_id by (unfold is_u32; lia). by rewrite Nat2Z.id, take_ge. }
    set (w2 := Net _ _ _).
    assert (∃ w3, (w ← st_get;
      ok ← host_call host (SendViaSd a (take (Z.to_nat (serializer_get_size (serializer_ w))) (ser_data_ (serializer_ w))));
      if (ok : bool) then in_sessions (increment_session a) else mret ()) w2 = Ret ((), w3) ∧
      net_out w3 = net_out w2 ++ [(SendViaSd a (sd_wire (stamp x m)), host (net_out w2) (SendViaSd a (sd_wire (stamp x m))))])
      as (w3&E3&Hw3).
    { unfold host_call, in_sessions, increment_session. st_run. cbn [w2 serializer_ net_out]. rewrite Hbs.
      destruct (host _ _); [|by eexists]. cbn [net_sessions].
      destruct (sessions_sent_ _ !! a) as [[? ?]|]; by eexists. }
    rewrite (st_bind_Ret _ _ _ _ _ E3). unfold in_serializer. st_run. do 3 eexists. split; [done|]. split; [done|].
    cbn [net_out]. rewrite Hw3. cbn [w2 net_out]. rewrite Hout. split; [done|]. by do 2 eexists. }
  rewrite (st_bind_Ret _ _ _ _ _ E1). destruct (IH (b && b1) w1 Hs1) as (b2&w2&out&E2&Hs2&Hw2&Hout).
  exists b2, w2, (o ++ out). split; [done|]. split; [done|]. split; [by rewrite Hw2, Hw1, app_assoc|].
  rewrite filter_cons. destruct (has_entry m) eqn:Hme.
  - destruct Ho as (x&ok&->). rewrite decide_True by done. constructor; [by exists x|done].
  - subst o. by rewrite decide_False by done.
Qed.
