(* ===== verification/SdOffers.v ===== *)
(** The phases of an offer: how [service_discovery/src/service_discovery_impl.cpp]
    announces the services of this device.

    A service that is offered is first collected; when the debounce timer expires, all that
    was collected is sent and gets a timer of its own, which repeats the offers with a
    doubled delay each time; at the end they enter the main phase, in which all offers are
    sent cyclically.  Stopping an offer removes it from wherever it is.

    Objects shared by pointer ([serviceinfo], timers, options) have an address, an
    integer.  Times are in nanoseconds, delays in milliseconds as in the code.  What the
    routing host offers, answers and knows of the configuration, and the ports of
    endpoints, are parameters or part of the state that its steps may change.  The runtime
    object is taken to exist, and a handler runs when its timer has expired. *)
From S2P Require Import Prelude ByteOrder Streams Message SdOptions SdEntries SdMessage.
From S2P Require Import ServiceInfo SdSessions SdAssembly.

(** ** Maps in the order of their keys *)

Definition key_le {A} (x y : Z * A) : Prop := x.1 ≤ y.1.
#[export] Instance key_le_dec {A} : RelDecision (@key_le A).
Proof. intros x y. unfold key_le. apply _. Defined.
Definition ordered {A} (m : gmap Z A) : list (Z * A) := merge_sort key_le (map_to_list m).

(** [std::map<service_t, std::map<instance_t, std::shared_ptr<serviceinfo>>>], as service,
    instance and object in this order. *)
Abbreviation services_t := (gmap Z (gmap Z Z)).
Definition items (s : services_t) : list (Z * Z * Z) :=
  mjoin ((λ x, (λ y, (x.1, y.1, y.2)) <$> ordered x.2) <$> ordered s).

(** ** The state *)

Record sd_config : Type := Config {
  cfg_unicast_ : Z;
  cfg_unicast_is_v4 : bool;
  cfg_unicast_is_multicast : bool;
  cfg_unicast_bytes : list Z;
  cfg_ttl_ : Z;
  initial_delay_ : Z;
  offer_debounce_time_ : Z;
  repetitions_base_delay_ : Z;
  repetitions_max_ : Z;
  cyclic_offer_delay_ : Z
}.

(** A wait on a timer of the repetition phase: when it expires and the arguments that are
    bound to its handler. *)
Record rep_wait : Type := RepWait { rw_expiry : Z; rw_repetition : Z; rw_last_delay : Z }.

Record sd_offers : Type := Offers {
  so_now : Z;
  so_infos : gmap Z serviceinfo;
  so_offered : services_t;
  collected_offers_ : services_t;
  repetition_phase_timers_ : gmap Z services_t;
  so_waits : gmap Z rep_wait;
  so_next_timer : Z;
  so_next_option : nat;
  offer_debounce_timer_ : Z;
  main_phase_timer_ : Z;
  is_suspended_ : bool;
  is_diagnosis_ : bool;
  so_net : sd_net
}.

Definition upd_infos (f : gmap Z serviceinfo → gmap Z serviceinfo) (s : sd_offers) : sd_offers :=
  Offers (so_now s) (f (so_infos s)) (so_offered s) (collected_offers_ s) (repetition_phase_timers_ s)
    (so_waits s) (so_next_timer s) (so_next_option s) (offer_debounce_timer_ s) (main_phase_timer_ s)
    (is_suspended_ s) (is_diagnosis_ s) (so_net s).
Definition upd_collected (f : services_t → services_t) (s : sd_offers) : sd_offers :=
  Offers (so_now s) (so_infos s) (so_offered s) (f (collected_offers_ s)) (repetition_phase_timers_ s)
    (so_waits s) (so_next_timer s) (so_next_option s) (offer_debounce_timer_ s) (main_phase_timer_ s)
    (is_suspended_ s) (is_diagnosis_ s) (so_net s).
Definition upd_timers (f : gmap Z services_t → gmap Z services_t) (s : sd_offers) : sd_offers :=
  Offers (so_now s) (so_infos s) (so_offered s) (collected_offers_ s) (f (repetition_phase_timers_ s))
    (so_waits s) (so_next_timer s) (so_next_option s) (offer_debounce_timer_ s) (main_phase_timer_ s)
    (is_suspended_ s) (is_diagnosis_ s) (so_net s).
Definition upd_waits (f : gmap Z rep_wait → gmap Z rep_wait) (s : sd_offers) : sd_offers :=
  Offers (so_now s) (so_infos s) (so_offered s) (collected_offers_ s) (repetition_phase_timers_ s)
    (f (so_waits s)) (so_next_timer s) (so_next_option s) (offer_debounce_timer_ s) (main_phase_timer_ s)
    (is_suspended_ s) (is_diagnosis_ s) (so_net s).
Definition take_timer (s : sd_offers) : sd_offers :=
  Offers (so_now s) (so_infos s) (so_offered s) (collected_offers_ s) (repetition_phase_timers_ s)
    (so_waits s) (so_next_timer s + 1) (so_next_option s) (offer_debounce_timer_ s) (main_phase_timer_ s)
    (is_suspended_ s) (is_diagnosis_ s) (so_net s).
Definition take_option (s : sd_offers) : sd_offers :=
  Offers (so_now s) (so_infos s) (so_offered s) (collected_offers_ s) (repetition_phase_timers_ s)
    (so_waits s) (so_next_timer s) (S (so_next_option s)) (offer_debounce_timer_ s) (main_phase_timer_ s)
    (is_suspended_ s) (is_diagnosis_ s) (so_net s).
Definition set_debounce (v : Z) (s : sd_offers) : sd_offers :=
  Offers (so_now s) (so_infos s) (so_offered s) (collected_offers_ s) (repetition_phase_timers_ s)
    (so_waits s) (so_next_timer s) (so_next_option s) v (main_phase_timer_ s)
    (is_suspended_ s) (is_diagnosis_ s) (so_net s).
Definition set_main (v : Z) (s : sd_offers) : sd_offers :=
  Offers (so_now s) (so_infos s) (so_offered s) (collected_offers_ s) (repetition_phase_timers_ s)
    (so_waits s) (so_next_timer s) (so_next_option s) (offer_debounce_timer_ s) v
    (is_suspended_ s) (is_diagnosis_ s) (so_net s).
Definition set_diagnosis_mode (v : bool) (s : sd_offers) : sd_offers :=
  Offers (so_now s) (so_infos s) (so_offered s) (collected_offers_ s) (repetition_phase_timers_ s)
    (so_waits s) (so_next_timer s) (so_next_option s) (offer_debounce_timer_ s) (main_phase_timer_ s)
    (is_suspended_ s) v (so_net s).
Definition set_net (v : sd_net) (s : sd_offers) : sd_offers :=
  Offers (so_now s) (so_infos s) (so_offered s) (collected_offers_ s) (repetition_phase_timers_ s)
    (so_waits s) (so_next_timer s) (so_next_option s) (offer_debounce_timer_ s) (main_phase_timer_ s)
    (is_suspended_ s) (is_diagnosis_ s) v.

(** [expires_from_now] with a delay in milliseconds. *)
Definition expires_in (s : sd_offers) (delay : Z) : Z := so_now s + delay * 1000000.

Section offers.
  Context (cfg : sd_config) (host : list (sd_output * bool) → sd_output → bool).
  Context (is_someip : Z → Z → bool) (get_local_port : Z → Z) (alloc : nat → Z).

(** ** Entries of offers *)

Definition create_ip_option (port : Z) (is_reliable : bool) : option_impl :=
  if cfg_unicast_is_v4 cfg
  then ipv4_option_of (cfg_unicast_bytes cfg) (cfg_unicast_is_multicast cfg) port is_reliable
  else ipv6_option_of (cfg_unicast_bytes cfg) (cfg_unicast_is_multicast cfg) port is_reliable.

(** [std::make_shared] of an option. *)
Definition new_option (o : option_impl) : ST sd_offers option_ptr :=
  s ← st_get; st_modify take_option;; mret (alloc (so_next_option s), o).

(** The options of the endpoint of one kind. *)
Definition endpoint_options (i : serviceinfo) (reliable : bool) : ST sd_offers (list option_ptr) :=
  match si_get_endpoint reliable i with
  | Some e => o ← new_option (create_ip_option (get_local_port e) reliable); mret [o]
  | None => mret []
  end.

Definition offer_entry (i : serviceinfo) : entry_impl :=
  let its_ttl := si_get_ttl i in
  let its_ttl := if bool_decide (its_ttl > 0) then cfg_ttl_ cfg else its_ttl in
  ServiceEntry (entry_set_ttl its_ttl (entry_set_major_version (si_major_ i)
    (entry_set_instance (si_instance_ i) (entry_set_service (si_service_ i)
      (entry_set_type OFFER_SERVICE entry_base_new))))) (si_minor_ i).

Definition insert_offer_service (messages : list sd_message) (i : serviceinfo) :
    ST sd_offers (list sd_message) :=
  its_reliable ← endpoint_options i true;
  its_unreliable ← endpoint_options i false;
  st_lift (sd_add_entry_data messages (offer_entry i) (its_reliable ++ its_unreliable) None).

Definition info (p : Z) : ST sd_offers serviceinfo :=
  s ← st_get; match so_infos s !! p with Some i => mret i | None => st_lift Undef end.

Definition insert_offer_entry (ignore_phase : bool) (messages : list sd_message) (x : Z * Z * Z) :
    ST sd_offers (list sd_message) :=
  let '(its_service, its_instance, p) := x in
  s ← st_get;
  if negb (is_suspended_ s)
     && (negb (is_diagnosis_ s) || (is_diagnosis_ s && negb (is_someip its_service its_instance)))
  then
    i ← info p;
    if (ignore_phase || si_is_in_mainphase_ i)
       && (bool_decide (is_Some (si_get_endpoint false i)) || bool_decide (is_Some (si_get_endpoint true i)))
    then insert_offer_service messages i
    else mret messages
  else mret messages.

Fixpoint insert_offer_items (ignore_phase : bool) (messages : list sd_message) (l : list (Z * Z * Z)) :
    ST sd_offers (list sd_message) :=
  match l with
  | [] => mret messages
  | x :: l => messages ← insert_offer_entry ignore_phase messages x; insert_offer_items ignore_phase messages l
  end.
Definition insert_offer_entries (messages : list sd_message) (services : services_t) (ignore_phase : bool) :
    ST sd_offers (list sd_message) :=
  insert_offer_items ignore_phase messages (items services).

Definition offers_send (messages : list sd_message) : ST sd_offers bool :=
  s ← st_get;
  '(ok, net) ← st_lift (send (cfg_unicast_ cfg) host messages (so_net s));
  st_modify (set_net net);;
  mret ok.

(** The pattern of all handlers: a new message, the entries, sending. *)
Definition send_offers (services : services_t) : ST sd_offers () :=
  its_messages ← insert_offer_entries [sd_message_new] services true;
  offers_send its_messages;;
  mret ().

(** ** The collection of offers *)

Definition offer_service (p : Z) : ST sd_offers () :=
  i ← info p;
  s ← st_get;
  let its_instances := default ∅ (collected_offers_ s !! si_service_ i) in
  if bool_decide (is_Some (its_instances !! si_instance_ i)) then mret ()
  else st_modify (upd_collected <[si_service_ i := <[si_instance_ i := p]> its_instances]>).

Definition start_offer_debounce_timer (first_start : bool) : ST sd_offers () :=
  s ← st_get;
  st_modify (set_debounce (expires_in s (if first_start then initial_delay_ cfg else offer_debounce_time_ cfg))).

(** In diagnosis mode the services with an instance that is no SOME/IP service are taken,
    once per such instance; the second time the iterator is invalid. *)
Definition non_someip_services (s : services_t) : list Z :=
  omap (λ x, if negb (is_someip x.1.1 x.1.2) then Some x.1.1 else None) (items s).
Definition take_non_someip (s : services_t) : outcome (services_t * services_t) :=
  let l := non_someip_services s in
  if decide (NoDup l) then
    Ret (filter (λ x, x.1 ∈ l) s, filter (λ x, x.1 ∉ l) s)
  else Undef.

Definition arm (t : Z) (delay repetition : Z) : ST sd_offers () :=
  s ← st_get;
  st_modify (upd_waits <[t := RepWait (expires_in s delay) repetition (u32 delay)]>).

Definition on_offer_debounce_timer_expired : ST sd_offers () :=
  s ← st_get;
  if decide (collected_offers_ s = ∅) then start_offer_debounce_timer false
  else
    '(repetition_phase_offers, rest) ←
      (if is_diagnosis_ s then st_lift (take_non_someip (collected_offers_ s))
       else mret (collected_offers_ s, ∅));
    st_modify (upd_collected (λ _, rest));;
    send_offers repetition_phase_offers;;
    let '(its_delay, its_repetitions) :=
      if bool_decide (repetitions_max_ cfg ≠ 0) then (repetitions_base_delay_ cfg, 1)
      else (cyclic_offer_delay_ cfg, 0) in
    s ← st_get;
    let its_timer := so_next_timer s in
    st_modify take_timer;;
    st_modify (upd_timers <[its_timer := repetition_phase_offers]>);;
    arm its_timer its_delay its_repetitions;;
    start_offer_debounce_timer false.

(** ** The repetition phase *)

Definition move_offers_into_main_phase (t : Z) : ST sd_offers () :=
  s ← st_get;
  match repetition_phase_timers_ s !! t with
  | Some services =>
      st_modify (upd_infos (λ m, foldl (λ m x, alter (set_is_in_mainphase true) x.2 m) m (items services)));;
      st_modify (upd_timers (delete t))
  | None => mret ()
  end.

Definition last_offer_shorter_half_offer_delay_ago (s : sd_offers) : bool :=
  let remaining := (main_phase_timer_ s - so_now s) `quot` 1000000 in
  let remaining := if bool_decide (0 > remaining) then cyclic_offer_delay_ cfg else remaining in
  bool_decide (remaining > cyclic_offer_delay_ cfg `quot` 2).

Definition on_repetition_phase_timer_expired (t repetition last_delay : Z) : ST sd_offers () :=
  if bool_decide (repetition = 0) then move_offers_into_main_phase t
  else
    s ← st_get;
    match repetition_phase_timers_ s !! t with
    | None => mret ()
    | Some services =>
        let '(new_delay, repetition, move_to_main) :=
          if bool_decide (repetition ≤ repetitions_max_ cfg) then
            (u32 (last_delay * 2), u8 (repetition + 1), false)
          else if last_offer_shorter_half_offer_delay_ago s then (0, 0, true)
          else (cyclic_offer_delay_ cfg, 0, false) in
        send_offers services;;
        if (move_to_main : bool) then move_offers_into_main_phase t
        else arm t new_delay repetition
    end.

(** ** The main phase *)

Definition start_main_phase_timer : ST sd_offers () :=
  s ← st_get; st_modify (set_main (expires_in s (cyclic_offer_delay_ cfg))).

Definition on_main_phase_timer_expired : ST sd_offers () :=
  s ← st_get;
  send_offers (so_offered s);;
  start_main_phase_timer.

(** ** Stopping an offer *)

(** Take the object [p] out of a map of services, if it is the one at its place. *)
Definition remove_offer (service instance p : Z) (s : services_t) : services_t :=
  match s !! service with
  | Some its_instances =>
      if bool_decide (its_instances !! instance = Some p) then
        let its_instances := delete instance its_instances in
        if decide (its_instances = ∅) then delete service s else <[service := its_instances]> s
      else s
  | None => s
  end.
Definition has_offer (service instance p : Z) (s : services_t) : bool :=
  bool_decide (s !! service ≫= (.!! instance) = Some p).

Definition send_stop_offer (i : serviceinfo) : ST sd_offers bool :=
  if bool_decide (is_Some (si_get_endpoint false i)) || bool_decide (is_Some (si_get_endpoint true i)) then
    its_messages ← insert_offer_service [sd_message_new] i;
    offers_send its_messages
  else mret false.

Definition stop_offer_service (p : Z) : ST sd_offers () :=
  st_modify (upd_infos (alter (si_set_ttl 0) p));;
  i ← info p;
  let service := si_service_ i in let instance := si_instance_ i in
  st_modify (upd_collected (remove_offer service instance p));;
  s ← st_get;
  let stop_offer_required :=
    bool_decide (map_Exists (λ _ x, has_offer service instance p x = true) (repetition_phase_timers_ s)) in
  st_modify (upd_timers (λ m, filter (λ x, x.2 ≠ ∅) (remove_offer service instance p <$> m)));;
  (if si_is_in_mainphase_ i || stop_offer_required then send_stop_offer i;; mret () else mret ()).
End offers.

(** ** What sending leaves alone *)

(** The states differ at most in the network and in the options that were allocated. *)
Definition same_offers (s s' : sd_offers) : Prop :=
  set_net (so_net s') s = Offers (so_now s') (so_infos s') (so_offered s') (collected_offers_ s')
    (repetition_phase_timers_ s') (so_waits s') (so_next_timer s') (so_next_option s)
    (offer_debounce_timer_ s') (main_phase_timer_ s') (is_suspended_ s') (is_diagnosis_ s') (so_net s').

Definition sends_only {A} (m : ST sd_offers A) : Prop := ∀ s a s', m s = Ret (a, s') → same_offers s s'.

Lemma same_offers_refl s : same_offers s s.
Proof. by destruct s. Qed.
Lemma same_offers_trans s1 s2 s3 : same_offers s1 s2 → same_offers s2 s3 → same_offers s1 s3.
Proof. destruct s1, s2, s3. unfold same_offers. cbn. by intros [= -> -> -> -> -> -> -> -> -> -> ->] [= -> -> -> -> -> -> -> -> -> -> ->]. Qed.

Lemma sends_only_bind {A B} (m : ST sd_offers A) (k : A → ST sd_offers B) :
  sends_only m → (∀ a, sends_only (k a)) → sends_only (m ≫= k).
Proof.
  intros Hm Hk s b s' (a&s1&E1&E2)%st_bind_inv. eapply same_offers_trans; [by eapply Hm|by eapply Hk].
Qed.
Lemma sends_only_ret {A} (a : A) : sends_only (mret a).
Proof. intros s b s' [= _ <-]. apply same_offers_refl. Qed.
Lemma sends_only_get : sends_only st_get.
Proof. intros s b s' [= _ <-]. apply same_offers_refl. Qed.
Lemma sends_only_lift {A} (o : outcome A) : sends_only (st_lift o).
Proof. intros s a s'. unfold st_lift. destruct o; try done. intros [= _ <-]. apply same_offers_refl. Qed.
Lemma sends_only_if {A} (b : bool) (m k : ST sd_offers A) :
  sends_only m → sends_only k → sends_only (if b then m else k).
Proof. by destruct b. Qed.
Create HintDb frame.
#[local] Hint Resolve sends_only_bind sends_only_ret sends_only_get sends_only_lift sends_only_if : frame.

Section frame.
  Context (cfg : sd_config) (host : list (sd_output * bool) → sd_output → bool).
  Context (is_someip : Z → Z → bool) (get_local_port : Z → Z) (alloc : nat → Z).

Lemma sends_only_option o : sends_only (new_option alloc o).
Proof. intros s a s' [= _ <-]. by destruct s. Qed.
Lemma sends_only_endpoint i r : sends_only (endpoint_options cfg get_local_port alloc i r).
Proof. unfold endpoint_options. destruct (si_get_endpoint r i); eauto using sends_only_option with frame. Qed.
Lemma sends_only_service ms i : sends_only (insert_offer_service cfg get_local_port alloc ms i).
Proof. unfold insert_offer_service. eauto 6 using sends_only_endpoint with frame. Qed.
Lemma sends_only_info p : sends_only (info p).
Proof. apply sends_only_bind; [apply sends_only_get|]. intros s. destruct (so_infos s !! p); eauto with frame. Qed.
Lemma sends_only_entry b ms x : sends_only (insert_offer_entry cfg is_someip get_local_port alloc b ms x).
Proof.
  destruct x as [[service instance] p]. unfold insert_offer_entry.
  eauto 8 using sends_only_info, sends_only_service with frame.
Qed.
Lemma sends_only_items b l ms : sends_only (insert_offer_items cfg is_someip get_local_port alloc b ms l).
Proof.
  revert ms. induction l as [|x l IH]; intros ms; cbn [insert_offer_items]; eauto using sends_only_entry with frame.
Qed.
Lemma sends_only_send ms : sends_only (offers_send cfg host ms).
Proof.
  intros s b s'. unfold offers_send. st_run. destruct (send _ _ _ _) as [[ok net]| | |]; try done.
  intros [= _ <-]. by destruct s.
Qed.
Lemma sends_only_offers x : sends_only (send_offers cfg host is_someip get_local_port alloc x).
Proof. unfold send_offers, insert_offer_entries. eauto 6 using sends_only_items, sends_only_send with frame. Qed.
Lemma sends_only_stop i : sends_only (send_stop_offer cfg host get_local_port alloc i).
Proof. unfold send_stop_offer. eauto 6 using sends_only_service, sends_only_send with frame. Qed.
End frame.

(** ** The life of an offer *)

(** What happens: calls of the routing manager, timers that expire, time that passes and
    changes of the offered services by the host. *)
Inductive offer_event : Type :=
| EvOffer (p : Z)
| EvStop (p : Z)
| EvDebounce
| EvRepetition (t : Z)
| EvMain
| EvTick (d : Z)
| EvDiagnosis (b : bool)
| EvOffered (x : services_t)
| EvInfo (p : Z) (i : serviceinfo).

Definition is_stop (p : Z) (e : offer_event) : bool :=
  match e with EvStop q => bool_decide (p = q) | _ => false end.
Definition is_repetition (t : Z) (e : offer_event) : bool :=
  match e with EvRepetition u => bool_decide (t = u) | _ => false end.
Definition is_debounce (e : offer_event) : bool := match e with EvDebounce => true | _ => false end.
Definition is_diagnosis (e : offer_event) : bool := match e with EvDiagnosis b => b | _ => false end.

Definition so_tick (d : Z) (s : sd_offers) : sd_offers :=
  Offers (so_now s + d) (so_infos s) (so_offered s) (collected_offers_ s) (repetition_phase_timers_ s)
    (so_waits s) (so_next_timer s) (so_next_option s) (offer_debounce_timer_ s) (main_phase_timer_ s)
    (is_suspended_ s) (is_diagnosis_ s) (so_net s).
Definition so_set_offered (x : services_t) (s : sd_offers) : sd_offers :=
  Offers (so_now s) (so_infos s) x (collected_offers_ s) (repetition_phase_timers_ s)
    (so_waits s) (so_next_timer s) (so_next_option s) (offer_debounce_timer_ s) (main_phase_timer_ s)
    (is_suspended_ s) (is_diagnosis_ s) (so_net s).

(** The object [p] is among the services. *)
Definition contains (p : Z) (x : services_t) : Prop :=
  ∃ service instance, x !! service ≫= (.!! instance) = Some p.

Section life.
  Context (cfg : sd_config) (host : list (sd_output * bool) → sd_output → bool).
  Context (is_someip : Z → Z → bool) (get_local_port : Z → Z) (alloc : nat → Z).

Inductive offer_step : offer_event → sd_offers → sd_offers → Prop :=
| step_offer p s s' : offer_service p s = Ret ((), s') → offer_step (EvOffer p) s s'
| step_stop p s s' : stop_offer_service cfg host get_local_port alloc p s = Ret ((), s') →
    offer_step (EvStop p) s s'
| step_debounce s s' : offer_debounce_timer_ s ≤ so_now s →
    on_offer_debounce_timer_expired cfg host is_someip get_local_port alloc s = Ret ((), s') →
    offer_step EvDebounce s s'
| step_repetition t w s s' : so_waits s !! t = Some w → rw_expiry w ≤ so_now s →
    on_repetition_phase_timer_expired cfg host is_someip get_local_port alloc t (rw_repetition w)
      (rw_last_delay w) (upd_waits (delete t) s) = Ret ((), s') →
    offer_step (EvRepetition t) s s'
| step_main s s' : main_phase_timer_ s ≤ so_now s →
    on_main_phase_timer_expired cfg host is_someip get_local_port alloc s = Ret ((), s') →
    offer_step EvMain s s'
| step_tick d s : 0 ≤ d → offer_step (EvTick d) s (so_tick d s)
| step_diagnosis b s : offer_step (EvDiagnosis b) s (set_diagnosis_mode b s)
| step_offered x s : offer_step (EvOffered x) s (so_set_offered x s)
| step_info p i s :
    (∀ j, so_infos s !! p = Some j → si_service_ i = si_service_ j ∧ si_instance_ i = si_instance_ j ∧
       si_is_in_mainphase_ i = si_is_in_mainphase_ j) →
    offer_step (EvInfo p i) s (upd_infos <[p := i]> s).

Fixpoint offer_run (es : list offer_event) (s s' : sd_offers) : Prop :=
  match es with
  | [] => s' = s
  | e :: es => ∃ s1, offer_step e s s1 ∧ offer_run es s1 s'
  end.

(** Every timer of the repetition phase is waited for, and the addresses of timers are
    new ones. *)
Definition timers_ok (s : sd_offers) : Prop :=
  (∀ t x, repetition_phase_timers_ s !! t = Some x → ∃ w, so_waits s !! t = Some w ∧
     0 ≤ rw_repetition w ≤ repetitions_max_ cfg + 1) ∧
  (∀ t, is_Some (repetition_phase_timers_ s !! t) → t < so_next_timer s).

(** How many times a timer still expires before its offers enter the main phase. *)
Definition rounds_left (repetition : Z) : Z :=
  if bool_decide (repetition = 0) then 1 else repetitions_max_ cfg + 3 - repetition.

Definition in_main (p : Z) (s : sd_offers) : Prop :=
  ∃ i, so_infos s !! p = Some i ∧ si_is_in_mainphase_ i = true.

(** [p] is repeated by the timer [t], for at most [n] rounds, or already in the main
    phase. *)
Definition repeated (p t n : Z) (s : sd_offers) : Prop :=
  in_main p s ∨
  ∃ x w, repetition_phase_timers_ s !! t = Some x ∧ contains p x ∧ is_Some (so_infos s !! p) ∧
    so_waits s !! t = Some w ∧ rounds_left (rw_repetition w) ≤ n.

Lemma same_offers_eqs s s' : same_offers s s' →
  so_now s' = so_now s ∧ so_infos s' = so_infos s ∧ so_offered s' = so_offered s ∧
  collected_offers_ s' = collected_offers_ s ∧ repetition_phase_timers_ s' = repetition_phase_timers_ s ∧
  so_waits s' = so_waits s ∧ so_next_timer s' = so_next_timer s ∧ is_suspended_ s' = is_suspended_ s ∧
  is_diagnosis_ s' = is_diagnosis_ s.
Proof. intros H. destruct s, s'. unfold same_offers in H. cbn in H. by injection H as -> -> -> -> -> -> -> -> -> -> ->. Qed.

Lemma elem_of_ordered {A} (m : gmap Z A) k a : (k, a) ∈ ordered m ↔ m !! k = Some a.
Proof. unfold ordered. rewrite merge_sort_Permutation. apply elem_of_map_to_list. Qed.

Lemma NoDup_ordered {A} (m : gmap Z A) : NoDup (ordered m).*1.
Proof. unfold ordered. rewrite merge_sort_Permutation. apply NoDup_fst_map_to_list. Qed.
Lemma NoDup_items x : NoDup (items x).
Proof.
  unfold items. pose proof (NoDup_ordered x) as Hnd. induction (ordered x) as [|[k m] l IH]; cbn; [constructor|].
  rewrite fmap_cons in Hnd. apply NoDup_cons in Hnd as [Hk Hnd]. apply NoDup_app. split_and!; [|intros y Hy Hy'|by apply IH].
  - apply NoDup_fmap_2; [by intros [a b] [a' b'] [= -> ->]|]. eapply NoDup_fmap_1, NoDup_ordered.
  - apply list_elem_of_fmap in Hy as (z&->&_). apply list_elem_of_join in Hy' as (b&Hb&([k' m']&->&Hm)%list_elem_of_fmap).
    apply list_elem_of_fmap in Hb as (z'&[= -> _ _]&_). apply Hk, list_elem_of_fmap. by exists (k', m').
Qed.

Lemma elem_of_items x service instance p :
  (service, instance, p) ∈ items x ↔ x !! service ≫= (.!! instance) = Some p.
Proof.
  unfold items. rewrite list_elem_of_join. split.
  - intros (l&Hin&([k m]&->&Hm)%list_elem_of_fmap). apply list_elem_of_fmap in Hin as ([j q]&[= -> -> ->]&Hq).
    apply elem_of_ordered in Hm, Hq. cbn in Hq. by rewrite Hm.
  - intros (m&Hm&Hp)%bind_Some. eexists. split; [|by apply list_elem_of_fmap_2, elem_of_ordered].
    apply list_elem_of_fmap. exists (instance, p). split; [done|]. by apply elem_of_ordered.
Qed.

Lemma contains_nonempty p x : contains p x → x ≠ ∅.
Proof. intros (sv&inst&H) ->. by rewrite lookup_empty in H. Qed.

Lemma contains_remove service instance q x p : p ≠ q → contains p x → contains p (remove_offer service instance q x).
Proof.
  intros Hne (sv&inst&(m&Hm&Hp)%bind_Some). unfold remove_offer.
  destruct (x !! service) as [insts|] eqn:Es; [|by exists sv, inst; rewrite Hm].
  case_bool_decide as Hq; [|by exists sv, inst; rewrite Hm].
  destruct (decide (sv = service)) as [->|Hsv].
  - rewrite Es in Hm. injection Hm as ->. assert (Hd : delete instance m !! inst = Some p).
    { rewrite lookup_delete_ne; [done|]. intros ->. congruence. }
    destruct (decide (delete instance m = ∅)) as [He|He]; [by rewrite He, lookup_empty in Hd|].
    exists service, inst. by rewrite lookup_insert_eq.
  - exists sv, inst. destruct (decide _); [rewrite lookup_delete_ne by done|rewrite lookup_insert_ne by done];
      by rewrite Hm.
Qed.

(** The loop that moves offers into the main phase. *)
Lemma move_main (l : list (Z * Z * Z)) (m : gmap Z serviceinfo) p :
  let m' := foldl (λ m x, alter (set_is_in_mainphase true) x.2 m) m l in
  (is_Some (m !! p) → is_Some (m' !! p)) ∧
  ((∃ i, m !! p = Some i ∧ si_is_in_mainphase_ i = true) → ∃ i, m' !! p = Some i ∧ si_is_in_mainphase_ i = true) ∧
  ((∃ x, x ∈ l ∧ x.2 = p) → is_Some (m !! p) → ∃ i, m' !! p = Some i ∧ si_is_in_mainphase_ i = true).
Proof.
  cbv zeta. revert m. induction l as [|x l IH]; intros m; cbn [foldl].
  { split_and!; [done|done|]. intros (x&Hx&_). by apply elem_of_nil in Hx. }
  destruct (IH (alter (set_is_in_mainphase true) x.2 m)) as (H1&H2&H3).
  assert (Halt : ∀ i, m !! p = Some i → ∃ j, alter (set_is_in_mainphase true) x.2 m !! p = Some j ∧
    (si_is_in_mainphase_ i = true → si_is_in_mainphase_ j = true) ∧ (x.2 = p → si_is_in_mainphase_ j = true)).
  { intros i Hi. destruct (decide (x.2 = p)) as [->|Hne].
    - rewrite lookup_alter_eq, Hi. by exists (set_is_in_mainphase true i).
    - rewrite lookup_alter_ne by done. by exists i. }
  split_and!.
  - intros [i Hi]. destruct (Halt i Hi) as (j&Hj&_). apply H1. by exists j.
  - intros (i&Hi&Hm). destruct (Halt i Hi) as (j&Hj&Hk&_). apply H2. exists j. auto.
  - intros (y&[->|Hy]%elem_of_cons&Hp) [i Hi]; destruct (Halt i Hi) as (j&Hj&Hk&Hl).
    + apply H2. exists j. auto.
    + apply H3; [by exists y|by exists j].
Qed.

(** What each handler does to the members that matter here. *)
Lemma offer_service_view p s s' : offer_service p s = Ret ((), s') →
  ∃ x i, so_infos s !! p = Some i ∧ s' = upd_collected (λ _, x) s ∧
    (∀ q, contains q (collected_offers_ s) → contains q x) ∧
    (∀ sv inst q, x !! sv ≫= (.!! inst) = Some q → collected_offers_ s !! sv ≫= (.!! inst) = Some q ∨
       q = p ∧ sv = si_service_ i ∧ inst = si_instance_ i).
Proof.
  unfold offer_service. intros (i&s1&Hi&H)%st_bind_inv.
  assert (s1 = s ∧ so_infos s !! p = Some i) as [-> Hpi].
  { revert Hi. unfold info. st_run. destruct (so_infos s !! p); [|done]. by intros [= -> <-]. }
  revert H. st_run. case_bool_decide as Hc.
  - intros [= <-]. exists (collected_offers_ s), i. split; [done|]. split; [by destruct s|]. by split; [|left].
  - intros [= <-]. eexists _, i. split; [done|]. split; [by destruct s|]. split.
    + intros q (sv&inst&Hq). destruct (decide (sv = si_service_ i)) as [->|Hne].
      * destruct (collected_offers_ s !! si_service_ i) as [m|] eqn:Em; [|done]. cbn in Hc, Hq.
        exists (si_service_ i), inst. rewrite lookup_insert_eq. cbn. rewrite lookup_insert_ne; [done|].
        intros <-. apply Hc. by exists q.
      * exists sv, inst. by rewrite lookup_insert_ne.
    + intros sv inst q. destruct (decide (si_service_ i = sv)) as [<-|Hne]; [|rewrite lookup_insert_ne by done; by left].
      rewrite lookup_insert_eq. cbn. intros [[<- <-]|[Hne Hq]]%lookup_insert_Some; [by right|].
      left. by destruct (collected_offers_ s !! si_service_ i).
Qed.

Lemma stop_offer_view q s s' : stop_offer_service cfg host get_local_port alloc q s = Ret ((), s') →
  ∃ service instance, (∀ i, so_infos s !! q = Some i → si_service_ i = service ∧ si_instance_ i = instance) ∧
    so_infos s' = alter (si_set_ttl 0) q (so_infos s) ∧
    collected_offers_ s' = remove_offer service instance q (collected_offers_ s) ∧
    repetition_phase_timers_ s' =
      filter (λ x, x.2 ≠ ∅) (remove_offer service instance q <$> repetition_phase_timers_ s) ∧
    so_waits s' = so_waits s ∧ so_next_timer s' = so_next_timer s ∧ is_diagnosis_ s' = is_diagnosis_ s.
Proof.
  unfold stop_offer_service. intros ([]&s1&[= <-]&H)%st_bind_inv.
  apply st_bind_inv in H as (i&s2&Hi&H).
  assert (s2 = upd_infos (alter (si_set_ttl 0) q) s ∧
    ∀ j, so_infos s !! q = Some j → si_service_ j = si_service_ i ∧ si_instance_ j = si_instance_ i) as [-> Hj].
  { revert Hi. unfold info. st_run. cbn [upd_infos so_infos]. rewrite lookup_alter_eq.
    destruct (so_infos s !! q) as [k|]; [|done]. intros [= <- <-]. split; [done|]. by intros j [= <-]. }
  cbv zeta in H. apply st_bind_inv in H as ([]&s3&[= <-]&H).
  apply st_bind_inv in H as (s4&s5&[= <- <-]&H). apply st_bind_inv in H as ([]&s6&[= <-]&H).
  exists (si_service_ i), (si_instance_ i).
  match type of H with _ ?s0 = _ => assert (Hs : same_offers s0 s') end.
  { destruct (si_is_in_mainphase_ i || _).
    - apply st_bind_inv in H as (b&s7&Hb&[= <-]). by eapply sends_only_stop.
    - injection H as <-. apply same_offers_refl. }
  apply same_offers_eqs in Hs as (_&->&_&->&->&->&->&_&->). split; [done|]. by destruct s.
Qed.

Lemma debounce_view s s' :
  on_offer_debounce_timer_expired cfg host is_someip get_local_port alloc s = Ret ((), s') →
  so_infos s' = so_infos s ∧ is_diagnosis_ s' = is_diagnosis_ s ∧ collected_offers_ s' ⊆ collected_offers_ s ∧
  (collected_offers_ s = ∅ ∧ repetition_phase_timers_ s' = repetition_phase_timers_ s ∧
     so_waits s' = so_waits s ∧ so_next_timer s' = so_next_timer s ∨
   ∃ x expiry repetition delay, let t := so_next_timer s in
     repetition_phase_timers_ s' = <[t := x]> (repetition_phase_timers_ s) ∧
     so_waits s' = <[t := RepWait expiry repetition delay]> (so_waits s) ∧
     so_next_timer s' = t + 1 ∧ repetition = (if bool_decide (repetitions_max_ cfg ≠ 0) then 1 else 0) ∧
     x ⊆ collected_offers_ s ∧ (is_diagnosis_ s = false → x = collected_offers_ s)).
Proof.
  unfold on_offer_debounce_timer_expired. rewrite (st_bind_Ret _ _ _ _ _ (eq_refl : st_get s = Ret (s, s))).
  destruct (decide (collected_offers_ s = ∅)) as [He|He].
  { intros [= <-]. split; [by destruct s|]. split; [by destruct s|]. split; [by destruct s|]. left. by destruct s. }
  intros ([x rest]&s0&Hx&H)%st_bind_inv.
  assert (s0 = s ∧ rest ⊆ collected_offers_ s ∧ x ⊆ collected_offers_ s ∧
    (is_diagnosis_ s = false → x = collected_offers_ s)) as (->&Hrest&Hxs&Hdx).
  { destruct (is_diagnosis_ s); [|injection Hx as <- <- <-; split_and!; [done|apply map_empty_subseteq|done|done]].
    revert Hx. unfold take_non_someip, st_lift. destruct (decide (NoDup _)); [|done]. intros [= <- <- <-].
    split_and!; [done|apply map_filter_subseteq|apply map_filter_subseteq|done]. }
  apply st_bind_inv in H as ([]&s1&[= <-]&H). apply st_bind_inv in H as ([]&s2&Hs%sends_only_offers&H).
  apply same_offers_eqs in Hs as (_&Hi&_&Hcol&Ht&Hw&Hn&_&Hdg).
  destruct (if bool_decide (repetitions_max_ cfg ≠ 0) then _ else _) as [delay repetition] eqn:Er.
  apply st_bind_inv in H as (s3&s4&[= <- <-]&H). cbv zeta in H.
  apply st_bind_inv in H as ([]&s5&[= <-]&H). apply st_bind_inv in H as ([]&s6&[= <-]&H).
  apply st_bind_inv in H as ([]&s7&[= <-]&[= <-]).
  destruct s, s2. cbn in *. subst. split; [done|]. split; [done|]. split; [done|]. right.
  do 4 eexists. split_and!; [done..| |done|done].
  by case_bool_decide; injection Er as _ <-.
Qed.

Definition moved (x : services_t) (m : gmap Z serviceinfo) : gmap Z serviceinfo :=
  foldl (λ m x, alter (set_is_in_mainphase true) x.2 m) m (items x).

Lemma move_view t s s' : move_offers_into_main_phase t s = Ret ((), s') →
  so_waits s' = so_waits s ∧ collected_offers_ s' = collected_offers_ s ∧ so_next_timer s' = so_next_timer s ∧
  is_diagnosis_ s' = is_diagnosis_ s ∧ repetition_phase_timers_ s' = delete t (repetition_phase_timers_ s) ∧
  so_infos s' = match repetition_phase_timers_ s !! t with Some x => moved x (so_infos s) | None => so_infos s end.
Proof.
  unfold move_offers_into_main_phase. st_run. destruct (repetition_phase_timers_ s !! t) as [x|] eqn:E.
  - intros [= <-]. by destruct s.
  - intros [= <-]. rewrite delete_id by done. by destruct s.
Qed.

Lemma repetition_view t r d s s' :
  on_repetition_phase_timer_expired cfg host is_someip get_local_port alloc t r d s = Ret ((), s') →
  collected_offers_ s' = collected_offers_ s ∧ so_next_timer s' = so_next_timer s ∧
  is_diagnosis_ s' = is_diagnosis_ s ∧
  (so_waits s' = so_waits s ∧ repetition_phase_timers_ s' = delete t (repetition_phase_timers_ s) ∧
     so_infos s' = match repetition_phase_timers_ s !! t with Some x => moved x (so_infos s) | None => so_infos s end ∨
   ∃ e d', r ≠ 0 ∧ so_infos s' = so_infos s ∧ repetition_phase_timers_ s' = repetition_phase_timers_ s ∧
     so_waits s' = <[t := RepWait e (if bool_decide (r ≤ repetitions_max_ cfg) then u8 (r + 1) else 0) d']> (so_waits s)).
Proof.
  unfold on_repetition_phase_timer_expired. case_bool_decide as Hr.
  { intros (?&?&?&?&?&?)%move_view. by split_and!; [..|left]. }
  rewrite (st_bind_Ret _ _ _ _ _ (eq_refl : st_get s = Ret (s, s))).
  destruct (repetition_phase_timers_ s !! t) as [x|] eqn:E.
  2:{ intros [= <-]. split_and!; [done..|]. left. by rewrite delete_id. }
  destruct (if bool_decide (r ≤ _) then _ else _) as [[nd r'] mv] eqn:Er.
  intros ([]&s1&Hs%sends_only_offers&H)%st_bind_inv.
  apply same_offers_eqs in Hs as (_&Hi&_&Hc&Ht&Hw&Hn&_&Hd). rewrite <- Hi, <- Hc, <- Ht, <- Hw, <- Hn, <- Hd.
  rewrite <- Ht in E. destruct mv.
  - apply move_view in H as (?&?&?&?&?&Hi'). rewrite E in Hi'. by split_and!; [..|left].
  - injection H as <-. split; [by destruct s1|]. split; [by destruct s1|]. split; [by destruct s1|]. right.
    do 2 eexists. split; [done|]. split; [by destruct s1|]. split; [by destruct s1|].
    destruct s1. cbn in *. do 2 f_equal. destruct (bool_decide (r ≤ repetitions_max_ cfg)); [by injection Er as _ <-|].
    destruct (last_offer_shorter_half_offer_delay_ago cfg s); [done|]. by injection Er as _ <-.
Qed.

Lemma main_view s s' : on_main_phase_timer_expired cfg host is_someip get_local_port alloc s = Ret ((), s') →
  so_infos s' = so_infos s ∧ collected_offers_ s' = collected_offers_ s ∧
  repetition_phase_timers_ s' = repetition_phase_timers_ s ∧ so_waits s' = so_waits s ∧
  so_next_timer s' = so_next_timer s ∧ is_diagnosis_ s' = is_diagnosis_ s.
Proof.
  unfold on_main_phase_timer_expired. rewrite (st_bind_Ret _ _ _ _ _ (eq_refl : st_get s = Ret (s, s))).
  intros ([]&s1&Hs%sends_only_offers&[= <-])%st_bind_inv.
  apply same_offers_eqs in Hs as (_&<-&_&<-&<-&<-&<-&_&<-). by destruct s1.
Qed.

(** ** Offers enter the main phase *)

Context (Hmax : is_u8 (repetitions_max_ cfg)).

Lemma timers_ok_delete t s s' : repetition_phase_timers_ s' = delete t (repetition_phase_timers_ s) →
  so_waits s' = delete t (so_waits s) → so_next_timer s' = so_next_timer s → timers_ok s → timers_ok s'.
Proof.
  intros Ht Hw Hn [H1 H2]. unfold timers_ok. rewrite Ht, Hw, Hn. split.
  - intros u x [Hne Hu]%lookup_delete_Some. rewrite lookup_delete_ne by done. by eapply H1.
  - intros u [x [_ Hu]%lookup_delete_Some]. apply H2. by exists x.
Qed.

Lemma step_timers_ok e s s' : offer_step e s s' →
  timers_ok s → timers_ok s'.
Proof.
  intros Hstep [H1 H2]. pose proof Hmax as [? ?].
  destruct Hstep as [p s s' (x&j&_&->&_)%offer_service_view|p s s' (sv&inst&_&_&_&Ht&Hw&Hn&_)%stop_offer_view
    |s s' _ (_&_&_&[(_&Ht&Hw&Hn)|(x&ex&r&d&Ht&Hw&Hn&Hr&_)])%debounce_view|t w s s' Hwt _ Hs
    |s s' _ (_&_&Ht&Hw&Hn&_)%main_view|d s Hd|b s|x s|p i s Hi]; try by (split; destruct s).
  - unfold timers_ok. rewrite Ht, Hw, Hn. split.
    + intros t x [Hx _]%map_lookup_filter_Some. apply lookup_fmap_Some in Hx as (y&_&Hy). by eapply H1.
    + intros t [x [Hx _]%map_lookup_filter_Some]. apply lookup_fmap_Some in Hx as (y&_&Hy). apply H2. by exists y.
  - unfold timers_ok. rewrite Ht, Hw, Hn. by split.
  - unfold timers_ok. rewrite Ht, Hw, Hn. split.
    + intros t y [[<- <-]|[Hne Hy]]%lookup_insert_Some.
      * rewrite lookup_insert_eq. eexists. split; [done|]. cbn. subst r. case_bool_decide; lia.
      * rewrite lookup_insert_ne by done. by eapply H1.
    + intros t [y [[<- _]|[_ Hy]]%lookup_insert_Some]; [lia|].
      specialize (H2 t ltac:(by exists y)). lia.
  - destruct (repetition_view _ _ _ _ _ Hs) as (_&Hn&_&[(Hw&Ht&_)|(ex&d'&Hr&_&Ht&Hw)]).
    { by apply (timers_ok_delete t s s' Ht Hw Hn). }
    unfold timers_ok. rewrite Ht, Hw, Hn. cbn [upd_waits repetition_phase_timers_ so_waits so_next_timer].
    split; [|exact H2]. intros u y Hy. destruct (decide (t = u)) as [<-|Hne].
    + rewrite lookup_insert_eq. eexists. split; [done|]. cbn [rw_repetition].
      destruct (H1 t y Hy) as (w'&Hw'&Hb). rewrite Hwt in Hw'. injection Hw' as <-.
      case_bool_decide; unfold u8; [|lia].
      destruct (decide (rw_repetition w + 1 < 2 ^ 8)); [rewrite Z.mod_small by lia; lia|].
      replace (rw_repetition w + 1) with (2 ^ 8) by lia. rewrite Z.mod_same by lia. lia.
    + rewrite lookup_insert_ne, lookup_delete_ne by done. by eapply H1.
  - unfold timers_ok. rewrite Ht, Hw, Hn. by split.
Qed.

(** Objects stay, and stay in the main phase. *)
Lemma step_infos e s s' p : offer_step e s s' →
  (is_Some (so_infos s !! p) → is_Some (so_infos s' !! p)) ∧ (in_main p s → in_main p s').
Proof.
  unfold in_main. intros Hstep.
  destruct Hstep as [q s s' (x&j&_&->&_)%offer_service_view|q s s' (sv&inst&_&Hi&_)%stop_offer_view
    |s s' _ (Hi&_)%debounce_view|t w s s' Hwt _ Hs
    |s s' _ (Hi&_)%main_view|d s Hd|b s|x s|q i s Hi]; try (by destruct s); try (by rewrite Hi).
  - rewrite Hi. destruct (decide (q = p)) as [->|Hne]; [|by rewrite lookup_alter_ne].
    rewrite lookup_alter_eq. split; [by intros [i ->]|]. intros (i&->&Hm). by eexists.
  - destruct (repetition_view _ _ _ _ _ Hs) as (_&_&_&[(_&_&Hi)|(ex&d'&_&Hi&_)]); rewrite Hi; [|done].
    cbn [upd_waits repetition_phase_timers_ so_infos]. destruct (repetition_phase_timers_ s !! t) as [x|]; [|done].
    unfold moved. by destruct (move_main (items x) (so_infos s) p) as (H1&H2&_).
  - cbn [upd_infos so_infos]. destruct (decide (q = p)) as [->|Hne]; [|by rewrite lookup_insert_ne].
    rewrite lookup_insert_eq. split; [by eexists|]. intros (j&Hj&Hm). exists i. split; [done|].
    destruct (Hi j Hj) as (_&_&->). done.
Qed.

Lemma repeated_same s s' p t n : repetition_phase_timers_ s' = repetition_phase_timers_ s →
  so_waits s' = so_waits s → (is_Some (so_infos s !! p) → is_Some (so_infos s' !! p)) →
  (in_main p s → in_main p s') → repeated p t n s → repeated p t n s'.
Proof.
  intros Ht Hw Hi Hm [?|(x&w&Hx&Hp&Hpi&Hwt&Hn)]; [by left; auto|]. right. exists x, w.
  rewrite Ht, Hw. split_and!; auto.
Qed.

Lemma step_repeated e s s' p t n : offer_step e s s' → timers_ok s → is_stop p e = false →
  repeated p t n s → repeated p t (if is_repetition t e then n - 1 else n) s'.
Proof.
  intros Hstep [H1 H2] Hstop Hrep. pose proof (step_infos e s s' p Hstep) as [Hsome Hmain].
  destruct Hstep as [q s s' (x&j&_&->&_)%offer_service_view|q s s' (sv&inst&_&_&_&Ht&Hw&_)%stop_offer_view
    |s s' _ (_&_&_&[(_&Ht&Hw&_)|(x&ex&r&d&Ht&Hw&_)])%debounce_view|u w s s' Hwu _ Hs
    |s s' _ (_&_&Ht&Hw&_)%main_view|d s Hd|b s|x s|q i s Hi];
    cbn [is_repetition]; try (by eapply repeated_same; [..|exact Hrep]; auto).
  - destruct Hrep as [?|(x&w&Hx&Hp&Hpi&Hwt&Hn)]; [by left; auto|]. right. cbn in Hstop.
    apply bool_decide_eq_false in Hstop. pose proof (contains_remove sv inst q x p Hstop Hp) as Hc.
    exists (remove_offer sv inst q x), w. rewrite Ht, Hw. split_and!; auto.
    apply map_lookup_filter_Some. split; [by rewrite lookup_fmap, Hx|]. by eapply contains_nonempty.
  - destruct Hrep as [?|(y&w&Hy&Hp&Hpi&Hwt&Hn)]; [by left; auto|]. right. exists y, w. rewrite Ht, Hw.
    assert (so_next_timer s ≠ t). { intros <-. specialize (H2 (so_next_timer s) ltac:(by exists y)). lia. }
    rewrite !lookup_insert_ne by done. split_and!; auto.
  - destruct Hrep as [?|(y&w'&Hy&Hp&Hpi&Hwt&Hn)]; [by left; auto|].
    destruct (repetition_view _ _ _ _ _ Hs) as (_&_&_&[(Hw&Ht&Hi)|(ex&d'&Hr&_&Ht&Hw)]);
      cbn [upd_waits repetition_phase_timers_ so_infos so_waits] in *;
      (destruct (decide (t = u)) as [Htu|Htu];
        [rewrite (bool_decide_true (t = u)) by done|rewrite (bool_decide_false (t = u)) by done]).
    + subst u. left. unfold in_main. rewrite Hi, Hy. destruct Hp as (sv&inst&Hp).
      destruct (move_main (items y) (so_infos s) p) as (_&_&H3). apply H3; [|done].
      exists (sv, inst, p). split; [by apply elem_of_items|done].
    + right. exists y, w'. rewrite Ht, Hw, !lookup_delete_ne by done. split_and!; auto.
    + subst u. rewrite Hwt in Hwu. injection Hwu as ->. right. eexists y, _. rewrite Ht, Hw, lookup_insert_eq.
      split_and!; [done|done|auto|done|]. cbn [rw_repetition]. unfold rounds_left in *.
      destruct (H1 t y Hy) as (w2&Hw2&Hb). rewrite Hwt in Hw2. injection Hw2 as <-. destruct Hmax as [? ?].
      rewrite (bool_decide_false (rw_repetition w = 0)) in Hn by done.
      destruct (decide (rw_repetition w ≤ repetitions_max_ cfg)) as [Hle|Hle].
      * rewrite (bool_decide_true (_ ≤ _)) by done. destruct (decide (u8 (rw_repetition w + 1) = 0)) as [Hz|Hz];
          [rewrite (bool_decide_true (_ = _)) by done; lia|rewrite (bool_decide_false (_ = _)) by done].
        unfold u8 in *. assert (rw_repetition w + 1 ≠ 2 ^ 8) by (intros E; rewrite E in Hz; by rewrite Z.mod_same in Hz by lia).
        rewrite Z.mod_small by lia. lia.
      * rewrite (bool_decide_false (_ ≤ _)) by done. rewrite (bool_decide_true (0 = 0)) by done. lia.
    + right. exists y, w'. rewrite Ht, Hw, lookup_insert_ne, lookup_delete_ne by done. split_and!; auto.
Qed.

Lemma step_collected e s s' p : offer_step e s s' → is_stop p e = false → is_debounce e = false →
  is_diagnosis e = false → is_diagnosis_ s = false → contains p (collected_offers_ s) →
  is_diagnosis_ s' = false ∧ contains p (collected_offers_ s').
Proof.
  intros Hstep Hstop Hdb Hdg Hd Hp.
  destruct Hstep as [q s s' (x&j&_&->&Hx&_)%offer_service_view|q s s' (sv&inst&_&_&Hc&_&_&_&Hd')%stop_offer_view
    |s s'|t w s s' _ _ (Hc&_&Hd'&_)%repetition_view|s s' _ (_&Hc&_&_&_&Hd')%main_view|d s _|b s|x s|q i s _];
    try done.
  - split; [by destruct s|by apply Hx].
  - rewrite Hd', Hc. split; [done|]. apply contains_remove; [|done]. cbn in Hstop. by apply bool_decide_eq_false in Hstop.
  - rewrite Hd', Hc. by split.
  - rewrite Hd', Hc. by split.
Qed.

Lemma debounce_repeated s s' p : offer_step EvDebounce s s' → timers_ok s → is_diagnosis_ s = false →
  contains p (collected_offers_ s) → is_Some (so_infos s !! p) →
  let t := so_next_timer s in
  repetition_phase_timers_ s !! t = None ∧ repetition_phase_timers_ s' !! t = Some (collected_offers_ s) ∧
  repeated p t (repetitions_max_ cfg + 2) s'.
Proof.
  intros Hstep [_ H2] Hd Hp Hi. inversion Hstep as [| |? ? _ Hs| | | | | |]; subst.
  destruct (debounce_view _ _ Hs) as (Hii&_&_&[(He&_)|(x&ex&r&d&Ht&Hw&_&Hr&_&Hx)]).
  { by apply contains_nonempty in Hp. }
  rewrite (Hx Hd) in *. split_and!.
  - destruct (repetition_phase_timers_ s !! so_next_timer s) as [y|] eqn:E; [|done].
    specialize (H2 (so_next_timer s) ltac:(by exists y)). lia.
  - by rewrite Ht, lookup_insert_eq.
  - right. eexists _, _. rewrite Ht, Hw, Hii, !lookup_insert_eq. split_and!; [done..|]. cbn [rw_repetition].
    destruct Hmax as [? ?]. subst r. unfold rounds_left.
    destruct (decide (repetitions_max_ cfg = 0)) as [E|E].
    + rewrite (bool_decide_false (_ ≠ _)), (bool_decide_true (0 = 0)) by lia. lia.
    + rewrite (bool_decide_true (_ ≠ _)), (bool_decide_false (1 = 0)) by lia. lia.
Qed.

Definition expiries (t : Z) (es : list offer_event) : Z :=
  Z.of_nat (length (filter (λ e, is_repetition t e = true) es)).

Lemma run_repeated es s s' p t n : offer_run es s s' → timers_ok s → Forall (λ e, is_stop p e = false) es →
  repeated p t n s → repeated p t (n - expiries t es) s' ∧ timers_ok s'.
Proof.
  intros Hrun Hok Hes. revert n s Hrun Hok. induction Hes as [|e es He Hes IH]; intros n s Hrun Hok Hrep; cbn in Hrun.
  { subst s'. unfold expiries. cbn. by rewrite Z.sub_0_r. }
  destruct Hrun as (s1&Hstep&Hrun).
  destruct (IH _ s1 Hrun (step_timers_ok _ _ _ Hstep Hok) (step_repeated _ _ _ _ _ _ Hstep Hok He Hrep)) as [H1 H2].
  split; [|done]. unfold expiries in *. rewrite filter_cons. destruct (is_repetition t e) eqn:E.
  - rewrite decide_True by done. cbn [length]. by replace (n - Z.of_nat (S _)) with (n - 1 - Z.of_nat (length (filter (λ e, is_repetition t e = true) es))) by lia.
  - by rewrite decide_False by done.
Qed.

Lemma run_collected es s s' p : offer_run es s s' → timers_ok s →
  Forall (λ e, is_stop p e = false ∧ is_debounce e = false ∧ is_diagnosis e = false) es →
  is_diagnosis_ s = false → contains p (collected_offers_ s) → is_Some (so_infos s !! p) →
  timers_ok s' ∧ is_diagnosis_ s' = false ∧ contains p (collected_offers_ s') ∧ is_Some (so_infos s' !! p).
Proof.
  intros Hrun Hok Hes. revert s Hrun Hok. induction Hes as [|e es (H1&H2&H3) Hes IH]; intros s Hrun Hok Hd Hp Hi; cbn in Hrun.
  { by subst s'. }
  destruct Hrun as (s1&Hstep&Hrun). destruct (step_collected _ _ _ _ Hstep H1 H2 H3 Hd Hp) as [Hd1 Hp1].
  apply (IH s1); [done|by eapply step_timers_ok|done|done|]. by eapply step_infos.
Qed.

Lemma offer_run_app es1 es2 s s' : offer_run (es1 ++ es2) s s' ↔ ∃ s1, offer_run es1 s s1 ∧ offer_run es2 s1 s'.
Proof.
  revert s. induction es1 as [|e es1 IH]; intros s; cbn [app offer_run]; [naive_solver|]. setoid_rewrite IH. naive_solver.
Qed.

(** C10: An offer enters the main phase.  Whatever else happens (other offers, offers that
    are stopped, timers of other offers, messages that the host refuses), an offer that
    was collected and is not stopped gets a new timer when the debounce timer next
    expires outside diagnosis mode; from there on it is in the main phase once its timer
    has expired [repetitions_max + 2] times, and until then the timer is waited for. *)
Theorem offer_enters_main_phase es1 es2 s s' p :
  timers_ok s → is_diagnosis_ s = false → contains p (collected_offers_ s) → is_Some (so_infos s !! p) →
  Forall (λ e, is_stop p e = false ∧ is_debounce e = false ∧ is_diagnosis e = false) es1 →
  Forall (λ e, is_stop p e = false) es2 → offer_run (es1 ++ EvDebounce :: es2) s s' →
  ∃ s1 t x, offer_run (es1 ++ [EvDebounce]) s s1 ∧ offer_run es2 s1 s' ∧
    repetition_phase_timers_ s1 !! t = Some x ∧ contains p x ∧
    (in_main p s' ∨
     expiries t es2 < repetitions_max_ cfg + 2 ∧
     ∃ y w, repetition_phase_timers_ s' !! t = Some y ∧ contains p y ∧ so_waits s' !! t = Some w).
Proof.
  intros Hok Hd Hp Hi H1 H2 (s1&Hr1&s2&Hstep&Hr2)%offer_run_app.
  destruct (run_collected _ _ _ p Hr1 Hok H1 Hd Hp Hi) as (Hok1&Hd1&Hp1&Hi1).
  destruct (debounce_repeated _ _ p Hstep Hok1 Hd1 Hp1 Hi1) as (_&Ht&Hrep).
  exists s2, (so_next_timer s1), (collected_offers_ s1).
  split; [apply offer_run_app; exists s1; split; [done|by exists s2]|]. split_and!; [done..|].
  destruct (run_repeated _ _ _ _ _ _ Hr2 (step_timers_ok _ _ _ Hstep Hok1) H2 Hrep) as [Hend [Hok' _]].
  destruct Hend as [?|(y&w&Hy&Hc&_&Hw&Hn)]; [by left|]. right.
  destruct (Hok' _ _ Hy) as (w'&Hw'&Hb). rewrite Hw in Hw'. injection Hw' as <-.
  split; [|by exists y, w]. unfold rounds_left in Hn. destruct (decide (rw_repetition w = 0)) as [E|E].
  - rewrite bool_decide_true in Hn by done. lia.
  - rewrite bool_decide_false in Hn by done. lia.
Qed.

(** ** Offers that are stopped *)

(** The maps that hold offers. *)
Definition holds (s : sd_offers) (x : services_t) : Prop :=
  x = collected_offers_ s ∨ ∃ t, repetition_phase_timers_ s !! t = Some x.

(** An object is kept under its service and instance. *)
Definition well_placed (s : sd_offers) : Prop :=
  ∀ x sv inst p, holds s x → x !! sv ≫= (.!! inst) = Some p →
    ∃ i, so_infos s !! p = Some i ∧ si_service_ i = sv ∧ si_instance_ i = inst.

Lemma remove_offer_lookup service instance q x sv inst p :
  remove_offer service instance q x !! sv ≫= (.!! inst) = Some p →
  x !! sv ≫= (.!! inst) = Some p ∧ (p = q → (sv, inst) ≠ (service, instance)).
Proof.
  unfold remove_offer. destruct (x !! service) as [m|] eqn:Em.
  2:{ intros H. split; [done|]. intros -> [= -> ->]. by rewrite Em in H. }
  case_bool_decide as Hq.
  2:{ intros H. split; [done|]. intros -> [= -> ->]. by rewrite Em in H. }
  destruct (decide (service = sv)) as [<-|Hne].
  - destruct (decide (delete instance m = ∅)) as [He|He]; [by rewrite lookup_delete_eq|].
    rewrite lookup_insert_eq. cbn. intros [Hi H]%lookup_delete_Some. rewrite Em. split; [done|].
    intros -> [= ->]. done.
  - destruct (decide _); [rewrite lookup_delete_ne by done|rewrite lookup_insert_ne by done];
      (intros H; split; [done|]); by intros _ [= -> _].
Qed.

(** Where an object of the new state was before. *)
Lemma step_holds e s s' x sv inst p : offer_step e s s' → holds s' x → x !! sv ≫= (.!! inst) = Some p →
  (∃ y, holds s y ∧ y !! sv ≫= (.!! inst) = Some p ∧
     (e = EvStop p → ∀ i, so_infos s !! p = Some i → (sv, inst) ≠ (si_service_ i, si_instance_ i))) ∨
  e = EvOffer p ∧ ∃ i, so_infos s !! p = Some i ∧ si_service_ i = sv ∧ si_instance_ i = inst.
Proof.
  intros Hstep Hx Hp.
  assert (Hsame : collected_offers_ s' = collected_offers_ s → repetition_phase_timers_ s' = repetition_phase_timers_ s →
    (∀ q, e ≠ EvStop q) → ∃ y, holds s y ∧ y !! sv ≫= (.!! inst) = Some p ∧
     (e = EvStop p → ∀ i, so_infos s !! p = Some i → (sv, inst) ≠ (si_service_ i, si_instance_ i))).
  { intros Hc Ht Hne. exists x. split; [unfold holds in *; by rewrite <- Hc, <- Ht|]. split; [done|]. by intros He%Hne. }
  destruct Hstep as [q s s' (z&j&Hj&->&_&Hz)%offer_service_view|q s s' (sv'&inst'&Hq&_&Hc&Ht&_)%stop_offer_view
    |s s' _ (_&_&Hc&[(_&Ht&_)|(z&ex&r&d&Ht&_&_&_&Hz&_)])%debounce_view|t w s s' _ _ (Hc&_&_&Hs)%repetition_view
    |s s' _ (_&Hc&Ht&_)%main_view|d s Hd|b s|z s|q i s Hi]; try (left; by apply Hsame).
  - destruct Hx as [->|Hx].
    + destruct (Hz _ _ _ Hp) as [H|(->&->&->)]; [left|right; split; [done|by exists j]].
      eexists. split; [by left|]. by split.
    + left. exists x. split; [by right|]. by split.
  - left. assert (∃ y, holds s y ∧ x = remove_offer sv' inst' q y) as (y&Hy&->).
    { destruct Hx as [->|[t Hx]]; [eexists; split; [by left|done]|]. rewrite Ht in Hx.
      apply map_lookup_filter_Some in Hx as [Hx _]. apply lookup_fmap_Some in Hx as (y&<-&Hy).
      exists y. split; [right; by exists t|done]. }
    apply remove_offer_lookup in Hp as [Hp Hne]. exists y. split_and!; [done|done|].
    intros [= ->] i Hi. destruct (Hq i Hi) as [-> ->]. by apply Hne.
  - left. destruct Hx as [->|[t Hx]].
    + exists (collected_offers_ s). split; [by left|]. split; [|done]. apply bind_Some in Hp as (m&Hm&Hp).
      by rewrite (lookup_weaken _ _ _ _ Hm Hc).
    + exists x. split; [right; exists t; by rewrite <- Ht|done].
  - left. assert (Hsub : ∀ z, z ⊆ collected_offers_ s → z !! sv ≫= (.!! inst) = Some p →
      collected_offers_ s !! sv ≫= (.!! inst) = Some p).
    { intros z' Hz' (m&Hm&Hp')%bind_Some. by rewrite (lookup_weaken _ _ _ _ Hm Hz'). }
    destruct Hx as [->|[t Hx]]; [exists (collected_offers_ s); split_and!; [by left|by apply (Hsub (collected_offers_ s'))|done]|].
    rewrite Ht in Hx. apply lookup_insert_Some in Hx as [[_ <-]|[_ Hx]].
    + exists (collected_offers_ s); split_and!; [by left|by apply (Hsub z)|done].
    + exists x. split; [right; by exists t|done].
  - left. assert (holds s x) as Hx'; [|by exists x].
    destruct Hx as [->|[u Hx]]; [left; by rewrite Hc|]. right. exists u.
    destruct Hs as [(_&Ht&_)|(ex&d'&_&_&Ht&_)]; rewrite Ht in Hx; [|done]. by apply lookup_delete_Some in Hx as [_ Hx].
Qed.

Lemma moved_keys x m p i : m !! p = Some i → ∃ j, moved x m !! p = Some j ∧
  si_service_ j = si_service_ i ∧ si_instance_ j = si_instance_ i.
Proof.
  unfold moved. generalize (items x). intros l. revert m i. induction l as [|y l IH]; intros m i Hi; cbn [foldl]; [by exists i|].
  destruct (decide (y.2 = p)) as [->|Hne].
  - destruct (IH (alter (set_is_in_mainphase true) p m) (set_is_in_mainphase true i)) as (j&?&?&?);
      [by rewrite lookup_alter_eq, Hi|by exists j].
  - apply IH. by rewrite lookup_alter_ne.
Qed.

Lemma step_keys e s s' p i : offer_step e s s' → so_infos s !! p = Some i →
  ∃ j, so_infos s' !! p = Some j ∧ si_service_ j = si_service_ i ∧ si_instance_ j = si_instance_ i.
Proof.
  intros Hstep Hp.
  destruct Hstep as [q s s' (z&j&_&->&_)%offer_service_view|q s s' (sv'&inst'&_&Hi&_)%stop_offer_view
    |s s' _ (Hi&_)%debounce_view|t w s s' _ _ (_&_&_&Hs)%repetition_view
    |s s' _ (Hi&_)%main_view|d s Hd|b s|z s|q k s Hk]; try (by exists i); try (rewrite Hi; by exists i).
  - rewrite Hi. destruct (decide (q = p)) as [->|Hne]; [|rewrite lookup_alter_ne by done; by exists i].
    rewrite lookup_alter_eq, Hp. by eexists.
  - destruct Hs as [(_&_&Hi)|(ex&d'&_&Hi&_)]; rewrite Hi; cbn [upd_waits so_infos repetition_phase_timers_]; [|by exists i].
    destruct (repetition_phase_timers_ s !! t); [by apply moved_keys|by exists i].
  - cbn [upd_infos so_infos]. destruct (decide (q = p)) as [->|Hne]; [|rewrite lookup_insert_ne by done; by exists i].
    rewrite lookup_insert_eq. destruct (Hk i Hp) as (?&?&_). by exists k.
Qed.

Lemma step_well_placed e s s' : offer_step e s s' → well_placed s → well_placed s'.
Proof.
  intros Hstep Hw x sv inst p Hx Hp.
  assert (∃ i, so_infos s !! p = Some i ∧ si_service_ i = sv ∧ si_instance_ i = inst) as (i&Hi&<-&<-).
  { destruct (step_holds _ _ _ _ _ _ _ Hstep Hx Hp) as [(y&Hy&Hyp&_)|[_ H]]; [by eapply Hw|done]. }
  by eapply step_keys.
Qed.

Definition is_offer (p : Z) (e : offer_event) : bool :=
  match e with EvOffer q => bool_decide (p = q) | _ => false end.

Lemma step_absent e s s' p : offer_step e s s' → well_placed s → is_offer p e = false →
  (∀ x, holds s x → ¬ contains p x) ∨ e = EvStop p → ∀ x, holds s' x → ¬ contains p x.
Proof.
  intros Hstep Hw Hoff Habs x Hx (sv&inst&Hp).
  destruct (step_holds _ _ _ _ _ _ _ Hstep Hx Hp) as [(y&Hy&Hyp&Hne)|[-> _]].
  - destruct Habs as [Habs| ->]; [apply (Habs y Hy); by exists sv, inst|].
    destruct (Hw y sv inst p Hy Hyp) as (i&Hi&<-&<-). by apply (Hne eq_refl i Hi).
  - cbn in Hoff. by apply bool_decide_eq_false in Hoff.
Qed.

(** An offer that is stopped is gone.  After [stop_offer_service] the object is neither
    among the collected offers nor with any timer of the repetition phase, and it stays
    away from them whatever happens until it is offered again. *)
Theorem stopped_offer_stays_out es s s' p x : well_placed s → offer_run (EvStop p :: es) s s' →
  Forall (λ e, is_offer p e = false) es → holds s' x → ¬ contains p x.
Proof.
  intros Hw (s1&Hstep&Hrun) Hes. revert x.
  assert (∀ x, holds s1 x → ¬ contains p x) as Habs by (eapply step_absent; eauto).
  apply step_well_placed in Hstep as Hw1; [|done]. clear s Hw Hstep. rename s1 into s.
  revert s Hw1 Habs Hrun. induction Hes as [|e es He Hes IH]; intros s Hw Habs Hrun; cbn in Hrun; [by subst s'|].
  destruct Hrun as (s1&Hstep&Hrun). apply (IH s1); [by eapply step_well_placed| |done].
  eapply step_absent; eauto.
Qed.
End life.

(** ** What the messages contain *)

Section contents.
  Context (cfg : sd_config) (host : list (sd_output * bool) → sd_output → bool).
  Context (is_someip : Z → Z → bool) (get_local_port : Z → Z) (alloc : nat → Z).

(** The address of this device is one of four or sixteen bytes. *)
Definition config_ok : Prop :=
  bytes (cfg_unicast_bytes cfg) ∧
  length (cfg_unicast_bytes cfg) = (if cfg_unicast_is_v4 cfg then 4 else 16)%nat.

Context (Hcfg : config_ok) (Hport : ∀ e, is_u16 (get_local_port e)) (Halloc : Inj (=) (=) alloc).

Lemma create_ip_option_good p port r : is_u16 port → opt_good (p, create_ip_option cfg port r).
Proof. destruct Hcfg. by apply ip_option_good. Qed.

Lemma offer_entry_new i : new_entry (offer_entry cfg i).
Proof.
  split; [split_and!; [by exists 0|by exists 0|done|done]|]. intros k Hk. by apply elem_of_nil in Hk.
Qed.

(** The options of the endpoints of a service. *)
Lemma endpoint_options_fresh i s : ∃ opts s', (its_reliable ← endpoint_options cfg get_local_port alloc i true;
    its_unreliable ← endpoint_options cfg get_local_port alloc i false;
    mret (its_reliable ++ its_unreliable)) s = Ret (opts, s') ∧ same_offers s s' ∧ so_net s' = so_net s ∧
  fresh_options alloc (so_next_option s) (so_next_option s') opts.
Proof.
  set (opt e r := create_ip_option cfg (get_local_port e) r).
  set (l := (match si_reliable_ i with Some e => [opt e true] | None => [] end) ++
            (match si_unreliable_ i with Some e => [opt e false] | None => [] end)).
  assert (fresh_options alloc (so_next_option s) (length l + so_next_option s) (allocated alloc (so_next_option s) l)) as Hf.
  { assert (∀ p e r, option_size (p, opt e r) ≤ 24) as Hs by (intros; apply ip_option_size).
    assert (∀ p e r, opt_good (p, opt e r)) as Hg by (intros; by apply create_ip_option_good).
    apply allocated_fresh; [done| | |]; unfold l.
    - destruct (si_reliable_ i), (si_unreliable_ i); cbn; lia.
    - intros p. destruct (si_reliable_ i), (si_unreliable_ i); cbn; repeat constructor; apply Hg.
    - destruct (si_reliable_ i) as [e1|], (si_unreliable_ i) as [e2|]; cbn [app allocated options_size foldr];
        repeat match goal with |- context [option_size (?p, opt ?e ?r)] => pose proof (Hs p e r); generalize dependent (option_size (p, opt e r)); intros end; lia. }
  unfold endpoint_options, new_option. cbn [si_get_endpoint]. st_run. unfold l in Hf.
  destruct (si_reliable_ i) as [e1|], (si_unreliable_ i) as [e2|]; do 2 eexists; (split; [done|]);
    (split; [by destruct s|]); (split; [done|]); exact Hf.
Qed.

Lemma insert_offer_service_spec i ms s : ms ≠ [] → Forall (msg_ok alloc (so_next_option s)) ms →
  ∃ ms' s', insert_offer_service cfg get_local_port alloc ms i s = Ret (ms', s') ∧ same_offers s s' ∧ so_net s' = so_net s ∧
    (so_next_option s ≤ so_next_option s')%nat ∧ ms' ≠ [] ∧ Forall (msg_ok alloc (so_next_option s')) ms' ∧
    bodies ms' = bodies ms ++ [entry_body (offer_entry cfg i)].
Proof.
  intros Hne Hms. destruct (endpoint_options_fresh i s) as (opts&s'&E&Hs&Hnet&Hf).
  apply st_bind_inv in E as (o1&s1&E1&E). apply st_bind_inv in E as (o2&s2&E2&[= <- <-]).
  unfold insert_offer_service. rewrite (st_bind_Ret _ _ _ _ _ E1), (st_bind_Ret _ _ _ _ _ E2).
  destruct (sd_add_new_entry alloc Halloc _ _ (offer_entry cfg i) _ None ms Hne Hms Hf (offer_entry_new i) ltac:(done)) as (ms'&Ea&?&?&?&_). unfold st_lift. rewrite Ea.
  exists ms', s2. split_and!; try done. by destruct Hf.
Qed.

(** The services that are offered by a message: those of a device that is not suspended,
    in diagnosis mode only those that are no SOME/IP services, with an endpoint. *)
Definition announced (s : sd_offers) (x : Z * Z * Z) : option serviceinfo :=
  i ← so_infos s !! x.2;
  if negb (is_suspended_ s) && (negb (is_diagnosis_ s) || negb (is_someip x.1.1 x.1.2)) &&
     (bool_decide (is_Some (si_unreliable_ i)) || bool_decide (is_Some (si_reliable_ i)))
  then Some i else None.

Lemma announced_same s s' x : same_offers s s' → announced s' x = announced s x.
Proof. intros (_&Hi&_&_&_&_&_&Hs&Hd)%same_offers_eqs. unfold announced. by rewrite Hi, Hs, Hd. Qed.

Lemma insert_offer_entry_spec x ms s : ms ≠ [] → Forall (msg_ok alloc (so_next_option s)) ms →
  is_Some (so_infos s !! x.2) →
  ∃ ms' s', insert_offer_entry cfg is_someip get_local_port alloc true ms x s = Ret (ms', s') ∧ same_offers s s' ∧ so_net s' = so_net s ∧
    ms' ≠ [] ∧ Forall (msg_ok alloc (so_next_option s')) ms' ∧
    bodies ms' = bodies ms ++ (entry_body ∘ offer_entry cfg <$> option_list (announced s x)).
Proof.
  intros Hne Hms [i Hi]. destruct x as [[service instance] p]. cbn [fst snd] in Hi.
  unfold insert_offer_entry, announced. cbn [fst snd]. rewrite Hi. cbn [mbind option_bind].
  rewrite (st_bind_Ret _ _ _ _ _ (eq_refl : st_get s = Ret (s, s))).
  assert (Hskip : ∃ ms' s', (mret ms : ST sd_offers _) s = Ret (ms', s') ∧ same_offers s s' ∧ so_net s' = so_net s ∧ ms' ≠ [] ∧
    Forall (msg_ok alloc (so_next_option s')) ms' ∧ bodies ms' = bodies ms ++ []).
  { exists ms, s. rewrite app_nil_r. split_and!; [done|apply same_offers_refl|done..]. }
  assert (Hd : negb (is_diagnosis_ s) || (is_diagnosis_ s && negb (is_someip service instance)) =
    negb (is_diagnosis_ s) || negb (is_someip service instance)) by (by destruct (is_diagnosis_ s)).
  rewrite Hd. destruct (negb (is_suspended_ s) && _); cbn [andb]; [|exact Hskip].
  assert (Ei : info p s = Ret (i, s)) by (unfold info; st_run; by rewrite Hi).
  rewrite (st_bind_Ret _ _ _ _ _ Ei). cbn [orb andb si_get_endpoint].
  destruct (bool_decide (is_Some (si_unreliable_ i)) || _); [|exact Hskip].
  destruct (insert_offer_service_spec i ms s Hne Hms) as (ms'&s'&E&?&?&_&?&?&?). by exists ms', s'.
Qed.

Lemma insert_offer_items_spec l ms s : ms ≠ [] → Forall (msg_ok alloc (so_next_option s)) ms →
  (∀ x, x ∈ l → is_Some (so_infos s !! x.2)) →
  ∃ ms' s', insert_offer_items cfg is_someip get_local_port alloc true ms l s = Ret (ms', s') ∧ same_offers s s' ∧ so_net s' = so_net s ∧
    Forall (msg_ok alloc (so_next_option s')) ms' ∧
    bodies ms' = bodies ms ++ (entry_body ∘ offer_entry cfg <$> omap (announced s) l).
Proof.
  revert ms s. induction l as [|x l IH]; intros ms s Hne Hms Hl; cbn [insert_offer_items].
  { exists ms, s. rewrite app_nil_r. split_and!; [done|apply same_offers_refl|done..]. }
  destruct (insert_offer_entry_spec x ms s Hne Hms (Hl x ltac:(by left))) as (ms1&s1&E1&Hs1&Hn1&Hne1&Hms1&Hb1).
  rewrite (st_bind_Ret _ _ _ _ _ E1). destruct (IH ms1 s1 Hne1 Hms1) as (ms2&s2&E2&Hs2&Hn2&Hms2&Hb2).
  { intros y Hy. pose proof (same_offers_eqs _ _ Hs1) as (_&->&_). apply Hl. by right. }
  exists ms2, s2. split; [done|]. split; [by eapply same_offers_trans|]. split; [by rewrite Hn2|]. split; [done|].
  rewrite Hb2, Hb1, <- app_assoc. f_equal. cbn [omap list_omap].
  rewrite (list_omap_ext (announced s1) (announced s) l l).
  - by destruct (announced s x).
  - apply Forall2_same_length_lookup_2; [done|]. intros j y z Hy Hz. rewrite Hy in Hz. injection Hz as <-.
    by apply announced_same.
Qed.

Lemma sd_inv_stamp x m : sd_inv m → sd_inv (stamp x m).
Proof. unfold sd_inv, stamp, set_reboot_flag. by destruct (x.2). Qed.

(** The entries of the outputs. *)
Definition output_bodies (out : list (sd_output * bool)) : list (Z * Z * Z * Z * Z * Z) :=
  mjoin ((λ o, match o.1 with HostSend m => entry_body <$> entries_ m | SendViaSd _ _ => [] end) <$> out).

Lemma output_bodies_sent ms out :
  Forall2 (λ m o, ∃ x, o.1 = HostSend (stamp x m)) (filter (λ m, has_entry m = true) ms) out →
  output_bodies out = bodies ms ∧
  (Forall sd_inv ms → Forall (λ o, ∃ m, o.1 = HostSend m ∧ sd_inv m) out).
Proof.
  revert out. induction ms as [|m ms IH]; intros out; rewrite ?filter_nil, ?filter_cons.
  { by intros ->%Forall2_nil_inv_l. }
  destruct (decide (has_entry m = true)) as [Hm|Hm].
  - intros (o&out'&(x&Hx)&Hout&->)%Forall2_cons_inv_l. destruct (IH _ Hout) as [H1 H2].
    split.
    + unfold output_bodies, bodies in *. rewrite !fmap_cons, !join_cons, Hx, H1.
      by destruct (entries_stamp x m) as [-> _].
    + intros [? ?]%Forall_cons_1. constructor; [|auto]. exists (stamp x m). split; [done|]. by apply sd_inv_stamp.
  - intros Hout. destruct (IH _ Hout) as [H1 H2]. split.
    + rewrite H1. unfold bodies. rewrite fmap_cons, join_cons. unfold has_entry in Hm.
      destruct (entries_ m) eqn:E; [done|]. exfalso. apply Hm. by apply bool_decide_eq_true; cbn; lia.
    + intros [_ ?]%Forall_cons_1. auto.
Qed.

(** C31: What is announced.  Sending the offers of a collection of services always returns
    and gives the routing host messages that contain exactly one offer entry for each
    service that is to be announced, in the order of services and instances and with the
    configured time to live, whatever the host answers; each message is consistent and
    within the size of a datagram. *)
Theorem send_offers_announces x s : (∀ y, y ∈ items x → is_Some (so_infos s !! y.2)) →
  ∃ s' out, send_offers cfg host is_someip get_local_port alloc x s = Ret ((), s') ∧ same_offers s s' ∧
    net_out (so_net s') = net_out (so_net s) ++ out ∧
    output_bodies out = entry_body ∘ offer_entry cfg <$> omap (announced s) (items x) ∧
    Forall (λ o, ∃ m, o.1 = HostSend m ∧ sd_inv m) out.
Proof.
  intros Hx. unfold send_offers, insert_offer_entries.
  destruct (insert_offer_items_spec (items x) [sd_message_new] s) as (ms&s1&E1&Hs1&Hn1&Hms&Hb); [done| |done|].
  { apply Forall_singleton, msg_ok_new. }
  rewrite (st_bind_Ret _ _ _ _ _ E1).
  destruct (send_outputs (cfg_unicast_ cfg) host ms (so_net s1)) as (b&w&out&E2&Hw&Hout).
  assert (E3 : offers_send cfg host ms s1 = Ret (b, set_net w s1)).
  { unfold offers_send. st_run. by rewrite E2. }
  rewrite (st_bind_Ret _ _ _ _ _ E3). destruct (output_bodies_sent ms out Hout) as [H1 H2].
  exists (set_net w s1), out. split; [done|]. split_and!.
  - eapply same_offers_trans; [done|]. by eapply sends_only_send.
  - cbn [set_net so_net]. by rewrite Hw, Hn1.
  - by rewrite H1, Hb.
  - apply H2. eapply Forall_impl; [exact Hms|]. by intros m [].
Qed.
End contents.

(** ** Instances *)

(** Two instances of a service, of which the second has no endpoint, and a host that
    accepts everything. *)
Definition sample_config : sd_config := Config 5 true false [192; 168; 0; 1] 3 10 500 30 1 1000.
Definition sample_infos : gmap Z serviceinfo :=
  {[1 := si_set_endpoint (Some 7) false (serviceinfo_new 0x1111 1 1 0 3 true);
    2 := serviceinfo_new 0x1111 2 1 0 3 true]}.
Definition sample_offers : sd_offers :=
  Offers 0 sample_infos ∅ {[0x1111 := {[1 := 1; 2 := 2]}]} ∅ ∅ 0 0 0 (1200 * 1000000) false false
    (Net (Sessions ∅ ∅) (serializer_new 0) []).
Definition accept_all (out : list (sd_output * bool)) (o : sd_output) : bool := true.
Definition no_someip (service instance : Z) : bool := false.
Definition sample_port (endpoint : Z) : Z := 30509.

Abbreviation sample_run := (offer_run sample_config accept_all no_someip sample_port Z.of_nat).

#[local] Ltac run_sample :=
  cbn [offer_run];
  repeat (eexists; split;
    [first [apply step_tick; lia
           |eapply step_repetition; [vm_compute; reflexivity|vm_compute; discriminate|vm_compute; reflexivity]
           |apply step_debounce; [vm_compute; discriminate|vm_compute; reflexivity]
           |apply step_stop; vm_compute; reflexivity]|]);
  reflexivity.

Definition sample_events : list offer_event :=
  [EvTick (100 * 1000000); EvRepetition 0; EvTick (1000 * 1000000); EvRepetition 0;
   EvTick (1000 * 1000000); EvRepetition 0].

Lemma sample_offers_ok : timers_ok sample_config sample_offers ∧ well_placed sample_offers.
Proof.
  split.
  - split; [intros t x Hx|intros t [x Hx]]; cbn in Hx; by rewrite lookup_empty in Hx.
  - intros x sv inst p [->|[t Hx]] Hp; [|cbn in Hx; by rewrite lookup_empty in Hx].
    cbn [collected_offers_ sample_offers] in Hp.
    apply bind_Some in Hp as (m&[<- <-]%lookup_singleton_Some&Hp).
    apply lookup_insert_Some in Hp as [[<- <-]|[_ [<- <-]%lookup_singleton_Some]];
      eexists; (split; [by vm_compute|done]).
Qed.

Lemma offer_enters_main_phase_witness : ∃ s', sample_run (EvDebounce :: sample_events) sample_offers s' ∧
  ∃ s1 t x, sample_run [EvDebounce] sample_offers s1 ∧ sample_run sample_events s1 s' ∧
    repetition_phase_timers_ s1 !! t = Some x ∧ contains 1 x ∧
    (in_main 1 s' ∨
     expiries t sample_events < 1 + 2 ∧
     ∃ y w, repetition_phase_timers_ s' !! t = Some y ∧ contains 1 y ∧ so_waits s' !! t = Some w).
Proof.
  assert (∃ s', sample_run (EvDebounce :: sample_events) sample_offers s') as [s' Hrun]
    by (eexists; unfold sample_events; run_sample).
  exists s'. split; [done|].
  apply (offer_enters_main_phase sample_config accept_all no_someip sample_port Z.of_nat ltac:(by vm_compute)
    [] sample_events sample_offers s' 1).
  - apply sample_offers_ok.
  - done.
  - exists 0x1111, 1. by vm_compute.
  - eexists. by vm_compute.
  - constructor.
  - repeat constructor.
  - exact Hrun.
Defined.

Lemma stopped_offer_stays_out_witness : ∃ s', sample_run [EvStop 1; EvDebounce] sample_offers s' ∧
  ∃ x, holds s' x ∧ contains 2 x ∧ ¬ contains 1 x.
Proof.
  assert (∃ s', sample_run [EvStop 1; EvDebounce] sample_offers s' ∧
    repetition_phase_timers_ s' !! 0 = Some {[0x1111 := {[2 := 2]}]}) as (s'&Hrun&Hx).
  { eexists. split.
    - run_sample.
    - by vm_compute. }
  assert (Hh : holds s' {[0x1111 := {[2 := 2]}]}) by (right; by exists 0).
  exists s'. split; [done|]. exists {[0x1111 := {[2 := 2]}]}. split; [done|].
  split; [exists 0x1111, 2; by vm_compute|].
  apply (stopped_offer_stays_out sample_config accept_all no_someip sample_port Z.of_nat
    [EvDebounce] sample_offers s' 1).
  - apply sample_offers_ok.
  - exact Hrun.
  - repeat constructor.
  - exact Hh.
Defined.

Lemma send_offers_announces_witness :
  ∃ s' out, send_offers sample_config accept_all no_someip sample_port Z.of_nat
      (collected_offers_ sample_offers) sample_offers = Ret ((), s') ∧ same_offers sample_offers s' ∧
    net_out (so_net s') = net_out (so_net sample_offers) ++ out ∧
    output_bodies out = [(OFFER_SERVICE, 0x1111, 1, 1, 3, 0)] ∧
    Forall (λ o, ∃ m, o.1 = HostSend m ∧ sd_inv m) out.
Proof.
  apply (send_offers_announces sample_config accept_all no_someip sample_port Z.of_nat).
  - split; [repeat constructor; by vm_compute|done].
  - intros e. by vm_compute.
  - intros a b. lia.
  - intros y Hy. vm_compute in Hy. set_unfold in Hy. destruct Hy as [->|[->|[]]]; eexists; by vm_compute.
Defined.

(** With [repetitions_max] 1 an offer is sent three times before the main phase: once when
    it was collected, and by two repetitions. *)
Example repetitions_of_an_offer : ∃ s', sample_run (EvDebounce :: sample_events) sample_offers s' ∧
  output_bodies (net_out (so_net s')) = replicate 3 (OFFER_SERVICE, 0x1111, 1, 1, 3, 0).
Proof. eexists. split; [unfold sample_events; run_sample|by vm_compute]. Qed.

(** In diagnosis mode two instances of a service that are no SOME/IP services are taken
    over through an iterator that is no longer valid. *)
Example diagnosis_takes_twice :
  on_offer_debounce_timer_expired sample_config accept_all no_someip sample_port Z.of_nat
    (set_diagnosis_mode true sample_offers) = Undef.
Proof. by vm_compute. Qed.
