(* ===== verification/SdRemoteOffers.v ===== *)
(** The services that other devices offer: how they are offered, and an index by the
    addresses and ports of their endpoints
    ([service_discovery/src/service_discovery_impl.cpp]).

    An address of [boost::asio::ip] is an opaque value, an integer. *)
From S2P Require Import Prelude Eventgroups.

Definition ANY_PORT : Z := 0.

Inductive remote_offer_type_e : Type :=
| RELIABLE_UNRELIABLE
| RELIABLE
| UNRELIABLE
| UNKNOWN.
#[export] Instance remote_offer_type_e_eq_dec : EqDecision remote_offer_type_e.
Proof. solve_decision. Defined.

(** A service and an instance; a kind of transport and a port. *)
Abbreviation si_pair := (Z * Z)%type.
Abbreviation ports_t := (gmap (bool * Z) (gset (Z * Z))).

Record remote_offers : Type := RemoteOffers {
  remote_offer_types_ : gmap (Z * Z) remote_offer_type_e;
  remote_offers_by_ip_ : gmap Z ports_t
}.

Definition get_remote_offer_type (service instance : Z) (s : remote_offers) : remote_offer_type_e :=
  default UNKNOWN (remote_offer_types_ s !! (service, instance)).

(** [remote_offers_by_ip_[_address][port].insert(si)] *)
Definition insert_offer (address : Z) (port : bool * Z) (si : si_pair) (m : gmap Z ports_t) : gmap Z ports_t :=
  let ports := default ∅ (m !! address) in
  <[address := <[port := {[si]} ∪ default ∅ (ports !! port)]> ports]> m.

Definition index_offer (its_si_pair : si_pair) (_offer_type : remote_offer_type_e)
    (_reliable_address _reliable_port _unreliable_address _unreliable_port : Z) (m : gmap Z ports_t) : gmap Z ports_t :=
  match _offer_type with
  | UNRELIABLE => insert_offer _unreliable_address (false, _unreliable_port) its_si_pair m
  | RELIABLE => insert_offer _reliable_address (true, _reliable_port) its_si_pair m
  | RELIABLE_UNRELIABLE =>
      insert_offer _unreliable_address (true, _reliable_port) its_si_pair
        (insert_offer _unreliable_address (false, _unreliable_port) its_si_pair m)
  | UNKNOWN => m
  end.

(** The result tells that a known offer has another type now. *)
Definition update_remote_offer_type (_service _instance : Z) (_offer_type : remote_offer_type_e)
    (_reliable_address _reliable_port _unreliable_address _unreliable_port : Z) (s : remote_offers) :
    bool * remote_offers :=
  let its_si_pair := (_service, _instance) in
  let '(ret, types) :=
    match remote_offer_types_ s !! its_si_pair with
    | Some t =>
        if bool_decide (t ≠ _offer_type) then (true, <[its_si_pair := _offer_type]> (remote_offer_types_ s))
        else (false, remote_offer_types_ s)
    | None => (false, <[its_si_pair := _offer_type]> (remote_offer_types_ s))
    end in
  (ret, RemoteOffers types
    (index_offer its_si_pair _offer_type _reliable_address _reliable_port _unreliable_address _unreliable_port
      (remote_offers_by_ip_ s))).

(** [delete_from_remote_offers_by_ip] *)
Definition delete_offer (_address _port : Z) (_reliable : bool) (si : si_pair) (m : gmap Z ports_t) : gmap Z ports_t :=
  match m !! _address with
  | Some ports =>
      match ports !! (_reliable, _port) with
      | Some sis =>
          if bool_decide (si ∈ sis) then
            let sis := sis ∖ {[si]} in
            if bool_decide (sis = ∅) then
              let ports := delete (_reliable, _port) ports in
              if bool_decide (ports = ∅) then delete _address m else <[_address := ports]> m
            else <[_address := <[(_reliable, _port) := sis]> ports]> m
          else m
      | None => m
      end
  | None => m
  end.

Definition remove_remote_offer_type (_service _instance : Z)
    (_reliable_address _reliable_port _unreliable_address _unreliable_port : Z) (s : remote_offers) : remote_offers :=
  let its_si_pair := (_service, _instance) in
  let m := remote_offers_by_ip_ s in
  let m := if bool_decide (_reliable_port ≠ ILLEGAL_PORT)
           then delete_offer _reliable_address _reliable_port true its_si_pair m else m in
  let m := if bool_decide (_unreliable_port ≠ ILLEGAL_PORT)
           then delete_offer _unreliable_address _unreliable_port false its_si_pair m else m in
  RemoteOffers (delete its_si_pair (remote_offer_types_ s)) m.

(** The loops that erase the types of the services of one port, and of all ports. *)
Definition erase_types (sis : gset si_pair) (types : gmap si_pair remote_offer_type_e) :
    gmap si_pair remote_offer_type_e :=
  foldr delete types (elements sis).
Definition erase_all_types (ports : ports_t) (types : gmap si_pair remote_offer_type_e) :
    gmap si_pair remote_offer_type_e :=
  foldr (λ x, erase_types x.2) types (map_to_list ports).

Definition remove_remote_offer_type_by_port (_address _port : Z) (_reliable : bool) (s : remote_offers) :
    remote_offers :=
  match remote_offers_by_ip_ s !! _address with
  | Some ports =>
      if bool_decide (_port = ANY_PORT) then
        RemoteOffers (erase_all_types ports (remote_offer_types_ s)) (delete _address (remote_offers_by_ip_ s))
      else
        match ports !! (_reliable, _port) with
        | Some sis =>
            let ports := delete (_reliable, _port) ports in
            RemoteOffers (erase_types sis (remote_offer_types_ s))
              (if bool_decide (ports = ∅) then delete _address (remote_offers_by_ip_ s)
               else <[_address := ports]> (remote_offers_by_ip_ s))
        | None => s
        end
  | None => s
  end.
Definition remove_remote_offer_type_by_ip (_address : Z) (s : remote_offers) : remote_offers :=
  remove_remote_offer_type_by_port _address ANY_PORT false s.

(** ** The index as a relation *)

(** A service that is indexed under an address and a port. *)
Definition indexed (m : gmap Z ports_t) (a : Z) (p : bool * Z) (si : si_pair) : Prop :=
  ∃ ports sis, m !! a = Some ports ∧ ports !! p = Some sis ∧ si ∈ sis.

(** No address and no port is kept without a service. *)
Definition tidy (m : gmap Z ports_t) : Prop :=
  ∀ a ports, m !! a = Some ports → ports ≠ ∅ ∧ ∀ p sis, ports !! p = Some sis → sis ≠ ∅.

Lemma indexed_insert m a p si b q sj :
  indexed (insert_offer a p si m) b q sj ↔ (b = a ∧ q = p ∧ sj = si) ∨ indexed m b q sj.
Proof.
  unfold indexed, insert_offer. destruct (decide (b = a)) as [->|Hb].
  - setoid_rewrite lookup_insert_eq. destruct (decide (q = p)) as [->|Hq].
    + split.
      * intros (?&sis&[= <-]&Hs&Hj). rewrite lookup_insert_eq in Hs. injection Hs as <-.
        apply elem_of_union in Hj as [->%elem_of_singleton|Hj]; [by left|right].
        destruct (m !! a) as [ports|] eqn:Ea; [|set_solver]. cbn in Hj.
        destruct (ports !! p) as [s0|] eqn:Ep; [|set_solver]. by exists ports, s0.
      * intros [(_&_&->)|(ports&sis&Ea&Ep&Hj)]; do 2 eexists; rewrite lookup_insert_eq; (split; [done|]); (split; [done|]).
        -- set_solver.
        -- rewrite Ea. cbn. rewrite Ep. set_solver.
    + split.
      * intros (?&sis&[= <-]&Hs&Hj). rewrite lookup_insert_ne in Hs by done. right.
        destruct (m !! a) as [ports|] eqn:Ea; [|done]. by exists ports, sis.
      * intros [(_&?&_)|(ports&sis&Ea&Ep&Hj)]; [done|]. do 2 eexists. split; [done|].
        rewrite lookup_insert_ne, Ea by done. done.
  - rewrite lookup_insert_ne by done. naive_solver.
Qed.

Lemma tidy_insert m a p si : tidy m → tidy (insert_offer a p si m).
Proof.
  intros Hm b ports. unfold insert_offer. destruct (decide (b = a)) as [->|Hb]; [|rewrite lookup_insert_ne by done; apply Hm].
  rewrite lookup_insert_eq. intros [= <-]. split; [apply insert_non_empty|]. intros q sis.
  destruct (decide (q = p)) as [->|Hq]; [rewrite lookup_insert_eq; intros [= <-]; set_solver|].
  rewrite lookup_insert_ne by done. destruct (m !! a) as [ports|] eqn:Ea; [|done]. by apply (Hm a ports Ea).
Qed.

(** Putting back the ports of an address, or dropping the address with the last of them. *)
Definition put_ports (a : Z) (ports : ports_t) (m : gmap Z ports_t) : gmap Z ports_t :=
  if bool_decide (ports = ∅) then delete a m else <[a := ports]> m.

Lemma indexed_put m a ports b q sj : indexed (put_ports a ports m) b q sj ↔
  (b = a ∧ ∃ sis, ports !! q = Some sis ∧ sj ∈ sis) ∨ (b ≠ a ∧ indexed m b q sj).
Proof.
  unfold indexed, put_ports. destruct (decide (b = a)) as [->|Hb].
  - case_bool_decide as Hp; [rewrite lookup_delete_eq; subst ports|rewrite lookup_insert_eq]; naive_solver.
  - case_bool_decide; rewrite ?lookup_delete_ne, ?lookup_insert_ne by done; naive_solver.
Qed.

Lemma tidy_put m a ports : tidy m → (∀ p sis, ports !! p = Some sis → sis ≠ ∅) → tidy (put_ports a ports m).
Proof.
  intros Hm Hp b ports'. unfold put_ports. destruct (decide (b = a)) as [->|Hb].
  - case_bool_decide; [by rewrite lookup_delete_eq|]. rewrite lookup_insert_eq. by intros [= <-].
  - case_bool_decide; rewrite ?lookup_delete_ne, ?lookup_insert_ne by done; apply Hm.
Qed.

Lemma delete_offer_put m a port r si : delete_offer a port r si m = m ∨
  ∃ ports sis, m !! a = Some ports ∧ ports !! (r, port) = Some sis ∧ si ∈ sis ∧
    delete_offer a port r si m =
      put_ports a (if bool_decide (sis ∖ {[si]} = ∅) then delete (r, port) ports
                   else <[(r, port) := sis ∖ {[si]}]> ports) m.
Proof.
  unfold delete_offer. destruct (m !! a) as [ports|] eqn:Ea; [|by left].
  destruct (ports !! (r, port)) as [sis|] eqn:Ep; [|by left].
  case_bool_decide as Hi; [|by left]. right. exists ports, sis. split_and!; [done..|].
  unfold put_ports. case_bool_decide as Hs; [done|]. by rewrite (bool_decide_false (<[_ := _]> _ = ∅)) by apply insert_non_empty.
Qed.

Lemma indexed_delete m a port r si b q sj : indexed (delete_offer a port r si m) b q sj ↔
  indexed m b q sj ∧ ¬ (b = a ∧ q = (r, port) ∧ sj = si).
Proof.
  assert (delete_offer a port r si m = m → ¬ indexed m a (r, port) si) as Hno.
  { intros E (ports&sis&Ea&Ep&Hi). unfold delete_offer in E. rewrite Ea, Ep, bool_decide_true in E by done.
    case_bool_decide as Hs; [case_bool_decide as Hp|].
    - by rewrite <- E, lookup_delete_eq in Ea.
    - rewrite <- E, lookup_insert_eq in Ea. injection Ea as Ea. by rewrite <- Ea, lookup_delete_eq in Ep.
    - rewrite <- E, lookup_insert_eq in Ea. injection Ea as Ea. rewrite <- Ea, lookup_insert_eq in Ep.
      injection Ep as Ep. set_solver. }
  destruct (delete_offer_put m a port r si) as [E|(ports&sis&Ea&Ep&Hi&E)].
  - rewrite E. specialize (Hno E). split; [|tauto]. intros H. split; [done|]. by intros (->&->&->).
  - rewrite E, indexed_put. destruct (decide (b = a)) as [->|Hb]; [|naive_solver].
    destruct (decide (q = (r, port))) as [->|Hq].
    + assert (indexed m a (r, port) sj ↔ sj ∈ sis) as ->.
      { split; [intros (?&?&?&?&?); simplify_eq; done|]. intros. by exists ports, sis. }
      clear E Hno. case_bool_decide as Hs; [rewrite lookup_delete_eq|rewrite lookup_insert_eq].
      * split; [naive_solver|]. intros [Hj Hn]. exfalso. apply Hn. split_and!; [done..|]. apply dec_stable. intros Hne. apply (not_elem_of_empty (C := gset si_pair) sj). rewrite <- Hs. apply elem_of_difference. by rewrite elem_of_singleton.
      * split.
        -- intros [(_&?&[= <-]&Hj)|[]]; [|done]. apply elem_of_difference in Hj as [Hj Hn]. rewrite elem_of_singleton in Hn. split; [done|naive_solver].
        -- intros [Hj Hn]. left. split; [done|]. eexists. split; [done|]. apply elem_of_difference. split; [done|].
           rewrite elem_of_singleton. naive_solver.
    + assert (indexed m a q sj ↔ ∃ sis, ports !! q = Some sis ∧ sj ∈ sis) as ->.
      { split; [intros (?&?&?&?&?); simplify_eq; by eauto|]. intros (s0&?&?). by exists ports, s0. }
      clear E Hno. case_bool_decide; rewrite ?lookup_delete_ne, ?lookup_insert_ne by done; naive_solver.
Qed.

Lemma tidy_delete m a port r si : tidy m → tidy (delete_offer a port r si m).
Proof.
  intros Hm. destruct (delete_offer_put m a port r si) as [->|(ports&sis&Ea&Ep&Hi&->)]; [done|].
  apply tidy_put; [done|]. intros q s0. destruct (Hm a ports Ea) as [_ Hp].
  destruct (decide (q = (r, port))) as [->|Hq].
  - case_bool_decide; [by rewrite lookup_delete_eq|]. rewrite lookup_insert_eq. by intros [= <-].
  - case_bool_decide; rewrite ?lookup_delete_ne, ?lookup_insert_ne by done; apply Hp.
Qed.

Lemma lookup_erase (sis : gset si_pair) types si :
  erase_types sis types !! si = if bool_decide (si ∈ sis) then None else types !! si.
Proof.
  unfold erase_types. case_bool_decide.
  - apply lookup_foldr_delete. by apply elem_of_elements.
  - apply lookup_foldr_delete_not_elem_of. by rewrite elem_of_elements.
Qed.

Lemma lookup_erase_all (ports : ports_t) types si : erase_all_types ports types !! si =
  if bool_decide (map_Exists (λ _ sis, si ∈ sis) ports) then None else types !! si.
Proof.
  unfold erase_all_types.
  assert (∀ l : list ((bool * Z) * gset si_pair),
    foldr (λ x, erase_types x.2) types l !! si =
    if bool_decide (Exists (λ x, si ∈ x.2) l) then None else types !! si) as Hl.
  { induction l as [|x l IH]; cbn [foldr]; [done|]. rewrite lookup_erase, IH.
    destruct (decide (si ∈ x.2)) as [Hx|Hx].
    - rewrite !bool_decide_true; [done|by left|done].
    - rewrite (bool_decide_false (si ∈ x.2)) by done. do 2 case_bool_decide; try done; exfalso.
      + apply H0. by right.
      + apply Exists_cons in H0. tauto. }
  rewrite Hl. do 2 case_bool_decide; try done; exfalso.
  - apply Exists_exists in H as ([p sis]&Hx%elem_of_map_to_list&Hi). by apply H0; exists p, sis.
  - destruct H0 as (p&sis&Hp&Hi). apply H, Exists_exists. exists (p, sis). by rewrite elem_of_map_to_list.
Qed.

(** ** Refinement of a relation

    The abstract state: the types, and the set of all places (address, port) of services. *)
Record offers_spec : Type := OffersSpec {
  spec_types : gmap si_pair remote_offer_type_e;
  spec_places : gset (Z * (bool * Z) * si_pair)
}.

Inductive offer_op : Type :=
| OpUpdate (service instance : Z) (t : remote_offer_type_e) (ra rp ua up : Z)
| OpRemove (service instance ra rp ua up : Z)
| OpForget (a : Z)
| OpForgetPort (a port : Z) (reliable : bool).

Definition offer_op_run (o : offer_op) (s : remote_offers) : remote_offers :=
  match o with
  | OpUpdate sv i t ra rp ua up => (update_remote_offer_type sv i t ra rp ua up s).2
  | OpRemove sv i ra rp ua up => remove_remote_offer_type sv i ra rp ua up s
  | OpForget a => remove_remote_offer_type_by_ip a s
  | OpForgetPort a port r => remove_remote_offer_type_by_port a port r s
  end.

(** The places of an offer: the endpoints of both kinds are expected at one address. *)
Definition places (si : si_pair) (t : remote_offer_type_e) (ra rp ua up : Z) : gset (Z * (bool * Z) * si_pair) :=
  match t with
  | UNRELIABLE => {[(ua, (false, up), si)]}
  | RELIABLE => {[(ra, (true, rp), si)]}
  | RELIABLE_UNRELIABLE => {[(ua, (false, up), si); (ua, (true, rp), si)]}
  | UNKNOWN => ∅
  end.
Definition at_place (a port : Z) (reliable : bool) (x : Z * (bool * Z) * si_pair) : bool :=
  bool_decide (x.1.1 = a) && (bool_decide (port = ANY_PORT) || bool_decide (x.1.2 = (reliable, port))).

Definition spec_forget (a port : Z) (reliable : bool) (s : offers_spec) : offers_spec :=
  let gone := filter (λ x, at_place a port reliable x = true) (spec_places s) in
  OffersSpec (filter (λ x, x.1 ∉ (set_map snd gone : gset si_pair)) (spec_types s)) (spec_places s ∖ gone).
Definition offer_op_spec (o : offer_op) (s : offers_spec) : offers_spec :=
  match o with
  | OpUpdate sv i t ra rp ua up =>
      OffersSpec (<[(sv, i) := t]> (spec_types s)) (places (sv, i) t ra rp ua up ∪ spec_places s)
  | OpRemove sv i ra rp ua up =>
      OffersSpec (delete (sv, i) (spec_types s))
        (spec_places s ∖ ((if bool_decide (rp ≠ ILLEGAL_PORT) then {[(ra, (true, rp), (sv, i))]} else ∅)
                          ∪ (if bool_decide (up ≠ ILLEGAL_PORT) then {[(ua, (false, up), (sv, i))]} else ∅)))
  | OpForget a => spec_forget a ANY_PORT false s
  | OpForgetPort a port r => spec_forget a port r s
  end.

Definition offers_refine (s : remote_offers) (x : offers_spec) : Prop :=
  remote_offer_types_ s = spec_types x ∧ tidy (remote_offers_by_ip_ s) ∧
  ∀ a p si, indexed (remote_offers_by_ip_ s) a p si ↔ (a, p, si) ∈ spec_places x.

Lemma refine_update s x sv i t ra rp ua up : offers_refine s x →
  offers_refine (update_remote_offer_type sv i t ra rp ua up s).2 (offer_op_spec (OpUpdate sv i t ra rp ua up) x).
Proof.
  intros (Ht&Hm&Hi). unfold update_remote_offer_type. cbn [offer_op_spec]. split; [|split].
  - rewrite <- Ht. cbn. destruct (remote_offer_types_ s !! (sv, i)) as [t'|] eqn:E; [|done].
    case_bool_decide as Hne; [done|]. subst t. cbn. by rewrite insert_id.
  - case_match. cbn. destruct t; cbn; auto using tidy_insert.
  - case_match. intros a p si. cbn. destruct t; cbn [index_offer places];
      rewrite ?indexed_insert, Hi, ?elem_of_union, ?elem_of_singleton, ?elem_of_empty; naive_solver.
Qed.

Lemma refine_remove s x sv i ra rp ua up : offers_refine s x →
  offers_refine (remove_remote_offer_type sv i ra rp ua up s) (offer_op_spec (OpRemove sv i ra rp ua up) x).
Proof.
  intros (Ht&Hm&Hi). unfold remove_remote_offer_type. cbn [offer_op_spec]. split; [|split]; cbn.
  - by rewrite Ht.
  - do 2 case_bool_decide; auto using tidy_delete.
  - intros a p si. do 2 case_bool_decide; rewrite ?indexed_delete, Hi, elem_of_difference, elem_of_union,
      ?elem_of_singleton, ?elem_of_empty; naive_solver.
Qed.

Lemma refine_forget s x a port r : offers_refine s x →
  offers_refine (remove_remote_offer_type_by_port a port r s) (spec_forget a port r x).
Proof.
  intros (Ht&Hm&Hi). unfold remove_remote_offer_type_by_port, spec_forget.
  set (gone := filter _ (spec_places x)).
  assert (∀ b p si, (b, p, si) ∈ gone ↔ b = a ∧ (port = ANY_PORT ∨ p = (r, port)) ∧
    indexed (remote_offers_by_ip_ s) b p si) as Hgone.
  { intros b p si. unfold gone. rewrite elem_of_filter, Hi. unfold at_place. cbn.
    rewrite andb_true_iff, orb_true_iff, !bool_decide_eq_true. tauto. }
  assert (∀ si, si ∈ (set_map snd gone : gset si_pair) ↔ ∃ p, (a, p, si) ∈ gone) as Hset.
  { intros si. rewrite elem_of_map. split; [|naive_solver]. intros ([[b p] sj]&->&H). cbn.
    apply Hgone in H as H'. destruct H' as (->&_). by exists p. }
  assert (∀ types, (∀ si, types !! si = if bool_decide (si ∈ (set_map snd gone : gset si_pair)) then None
      else remote_offer_types_ s !! si) → types = filter (λ x, x.1 ∉ (set_map snd gone : gset si_pair)) (spec_types x)) as Htypes.
  { intros types H. apply map_eq. intros si. rewrite H, Ht, map_lookup_filter. cbn.
    case_bool_decide as E; destruct (spec_types x !! si); cbn; try done; by case_guard. }
  destruct (remote_offers_by_ip_ s !! a) as [ports|] eqn:Ea.
  2:{ split; [|split; [done|]].
      - apply Htypes. intros si. rewrite bool_decide_false; [done|]. rewrite Hset. intros (p&H). apply Hgone in H as (_&_&ports&?&E&_).
        by rewrite Ea in E.
      - intros b p si. cbn. rewrite Hi, elem_of_difference, Hgone, Hi. split; [|tauto]. intros H. split; [done|].
        intros (->&_&_). apply Hi in H as (?&?&E&_). by rewrite Ea in E. }
  case_bool_decide as Hp.
  - split; [|split]; cbn.
    + apply Htypes. intros si. rewrite lookup_erase_all. do 2 case_bool_decide; try done; exfalso.
      * destruct H as (p&sis&?&?). apply H0, Hset. exists p. apply Hgone. split_and!; [done|by left|]. by exists ports, sis.
      * apply Hset in H0 as (p&(_&_&ports'&sis&E&?&?)%Hgone). rewrite Ea in E. injection E as <-. apply H. by exists p, sis.
    + intros b ports'. rewrite lookup_delete_Some. intros [_ H]. by apply (Hm b).
    + intros b p si. rewrite elem_of_difference, Hgone, Hi. unfold indexed. setoid_rewrite lookup_delete_Some.
      fold (indexed (remote_offers_by_ip_ s) b p si). rewrite <- Hi. unfold indexed. naive_solver.
  - destruct (ports !! (r, port)) as [sis|] eqn:Er.
    + split; [|split]; cbn.
      * apply Htypes. intros si. rewrite lookup_erase. do 2 case_bool_decide; try done; exfalso.
        -- apply H0, Hset. exists (r, port). apply Hgone. split_and!; [done|by right|]. by exists ports, sis.
        -- apply Hset in H0 as (p&(_&[?| ->]&ports'&sis'&E&?&?)%Hgone); [done|]. rewrite Ea in E. injection E as <-. by simplify_eq.
      * apply (tidy_put _ _ (delete (r, port) ports)); [done|]. intros p s0. rewrite lookup_delete_Some. intros [_ ?].
        destruct (Hm a ports Ea) as [_ H']. by apply (H' p).
      * intros b p si. fold (put_ports a (delete (r, port) ports) (remote_offers_by_ip_ s)).
        rewrite indexed_put, elem_of_difference, Hgone, <- !Hi. setoid_rewrite lookup_delete_Some. unfold indexed.
        destruct (decide (b = a)) as [->|]; naive_solver.
    + split; [|split; [done|]]; cbn.
      * apply Htypes. intros si. rewrite bool_decide_false; [done|].
        rewrite Hset.
        intros (p&(_&[?| ->]&ports'&sis'&E&?&?)%Hgone); [done|]. by simplify_eq.
      * intros b p si. rewrite Hi, elem_of_difference, Hgone, Hi. split; [|tauto]. intros H. split; [done|].
        intros (->&[?| ->]&_); [done|]. apply Hi in H as (?&?&E&?&_). by simplify_eq.
Qed.

Lemma refine_step o s x : offers_refine s x → offers_refine (offer_op_run o s) (offer_op_spec o x).
Proof. destruct o; [apply refine_update|apply refine_remove|apply refine_forget|apply refine_forget]. Qed.

Lemma refine_run ops s x : offers_refine s x →
  offers_refine (foldl (λ s o, offer_op_run o s) s ops) (foldl (λ x o, offer_op_spec o x) x ops).
Proof. revert s x. induction ops as [|o ops IH]; intros s x H; [done|]. by apply IH, refine_step. Qed.

Lemma refine_empty : offers_refine (RemoteOffers ∅ ∅) (OffersSpec ∅ ∅).
Proof.
  split; [done|]. split; [done|]. intros a p si. split; [intros (?&?&?&_); done|]. intros H. by apply elem_of_empty in H.
Qed.

(** The places of a service grow with its offers until it stops or its device is forgotten. *)
Definition places_of (si : si_pair) (x : offers_spec) : gset (Z * (bool * Z)) :=
  set_map fst (filter (λ y, y.2 = si) (spec_places x)).

Lemma forget_type a port r x si : spec_types (spec_forget a port r x) !! si =
  if bool_decide (Exists (λ y, y.1 = a ∧ (port = ANY_PORT ∨ y.2 = (r, port))) (elements (places_of si x)))
  then None else spec_types x !! si.
Proof.
  unfold spec_forget. cbn. rewrite map_lookup_filter.
  assert (si ∈ (set_map snd (filter (λ y, at_place a port r y = true) (spec_places x)) : gset si_pair) ↔
    Exists (λ y : Z * (bool * Z), y.1 = a ∧ (port = ANY_PORT ∨ y.2 = (r, port))) (elements (places_of si x))) as Heq.
  { rewrite elem_of_map, Exists_exists. unfold places_of. setoid_rewrite elem_of_elements. setoid_rewrite elem_of_map.
    setoid_rewrite elem_of_filter. unfold at_place. setoid_rewrite andb_true_iff. setoid_rewrite orb_true_iff.
    setoid_rewrite bool_decide_eq_true. split.
    - intros ([y sj]&->&[Ha Hp]&Hy). exists y. split; [|done]. by exists (y, sj).
    - intros (y&([y' sj]&E1&E2&Hy)&Ha&Hp). cbn in *. subst. by exists (y', si). }
  case_bool_decide as H; destruct (spec_types x !! si); cbn; try done; case_guard as G; try done; exfalso.
  - by apply Heq in H.
  - by apply Heq in G.
Qed.

(** C13: the records on the services of other devices refine a map of types and a set of places
    (address, transport, port): starting without a service, after any sequence of offers,
    stopped offers, reboots and refused ports the types are the abstract ones, exactly the
    abstract places are indexed, no address or port is kept without a service, and what is
    told of a service as its type is the abstract type. *)
Theorem remote_offers_refine ops :
  let s := foldl (λ s o, offer_op_run o s) (RemoteOffers ∅ ∅) ops in
  let x := foldl (λ x o, offer_op_spec o x) (OffersSpec ∅ ∅) ops in
  offers_refine s x ∧
  (∀ service instance, get_remote_offer_type service instance s = default UNKNOWN (spec_types x !! (service, instance))) ∧
  (∀ a service instance, get_remote_offer_type service instance (remove_remote_offer_type_by_ip a s) =
    if bool_decide (Exists (λ y, y.1 = a) (elements (places_of (service, instance) x))) then UNKNOWN
    else get_remote_offer_type service instance s).
Proof.
  intros s x. assert (offers_refine s x) as Hr by apply refine_run, refine_empty. split; [done|].
  assert (remote_offer_types_ s = spec_types x) as Ht by apply Hr. split; [intros sv i; unfold get_remote_offer_type; by rewrite Ht|].
  intros a sv i. unfold get_remote_offer_type.
  assert (offers_refine (remove_remote_offer_type_by_ip a s) (spec_forget a ANY_PORT false x)) as (->&_) by by apply refine_forget.
  rewrite forget_type, Ht. do 2 case_bool_decide; try done; exfalso.
  - apply H0. eapply Exists_impl; [exact H|]. by intros y [].
  - apply H. eapply Exists_impl; [exact H0|]. intros y Hy. split; [done|by left].
Qed.

(** Both kinds of endpoints of one offer are indexed under the address of the unreliable
    one: when the reliable one has another address, nothing is found there, and stopping
    the offer leaves a place behind. *)
Example reliable_address_not_indexed :
  let s := (update_remote_offer_type 0x1111 1 RELIABLE_UNRELIABLE 7 30501 8 30502 (RemoteOffers ∅ ∅)).2 in
  remote_offers_by_ip_ s !! 7 = None ∧
  get_remote_offer_type 0x1111 1 (remove_remote_offer_type_by_port 7 30501 true s) = RELIABLE_UNRELIABLE ∧
  remote_offers_by_ip_ (remove_remote_offer_type 0x1111 1 7 30501 8 30502 s) =
    {[8 := {[(true, 30501) := {[(0x1111, 1)]}]}]}.
Proof. by vm_compute. Qed.

(** A service that moved to another device keeps its old place: a reboot of the old device
    makes the type of the service unknown. *)
Example moved_service_forgotten :
  let s := (update_remote_offer_type 0x1111 1 UNRELIABLE 0 0 7 30502 (RemoteOffers ∅ ∅)).2 in
  let s := (update_remote_offer_type 0x1111 1 UNRELIABLE 0 0 8 30502 s).2 in
  get_remote_offer_type 0x1111 1 (remove_remote_offer_type_by_ip 7 s) = UNKNOWN.
Proof. by vm_compute. Qed.
