(* ===== verification/SdSubscriptions.v ===== *)
(** The subscriptions of this device to eventgroups of other devices:
    [service_discovery/src/subscription.cpp] and the parts of
    [service_discovery/src/service_discovery_impl.cpp] that subscribe, unsubscribe, renew
    subscriptions and take the answers.

    The routing manager is the state of [Eventgroups], whose handlers are called directly.
    An endpoint is known by its identity; what the endpoints tell (whether they are
    connected, their ports and addresses), and which ones the routing manager finds or
    creates, is an argument, [sd_env], that may differ from call to call.  A subscription
    object belongs to one place of [subscribed_]; the temporary one of [unsubscribe] is a
    value.  Of the environment only [VSOMEIP_ENABLE_COMPAT] being off is modelled in
    [subscribe].  The runtime object is taken to exist. *)
From S2P Require Import Prelude ByteOrder Streams Message SdOptions SdEntries SdMessage.
From S2P Require Import ServiceInfo SdSessions SdAssembly SdOffers Event RemoteSubscription Eventgroups SdRemoteOffers.

(** ** The subscription *)

Inductive client_state_e : Type :=
| ST_ACKNOWLEDGED
| ST_NOT_ACKNOWLEDGED
| ST_RESUBSCRIBING
| ST_RESUBSCRIBING_NOT_ACKNOWLEDGED
| ST_UNKNOWN.
#[export] Instance client_state_e_eq_dec : EqDecision client_state_e.
Proof. solve_decision. Defined.

(** Endpoints and eventgroup are identities; [std::make_shared] initialises all members
    with zero. *)
Record subscription : Type := ClientSubscription {
  cs_major_ : Z;
  cs_ttl_ : Z;
  cs_reliable_ : option Z;
  cs_unreliable_ : option Z;
  cs_is_selective_ : bool;
  cs_tcp_connection_established_ : bool;
  cs_udp_connection_established_ : bool;
  cs_clients_ : gmap Z client_state_e;
  cs_eg_info_ : option Z
}.
Definition subscription_new : subscription :=
  ClientSubscription 0 0 None None false false false ∅ None.

Definition cs_set_major (v : Z) (x : subscription) : subscription :=
  ClientSubscription v (cs_ttl_ x) (cs_reliable_ x) (cs_unreliable_ x) (cs_is_selective_ x)
    (cs_tcp_connection_established_ x) (cs_udp_connection_established_ x) (cs_clients_ x) (cs_eg_info_ x).
Definition cs_set_ttl (v : Z) (x : subscription) : subscription :=
  ClientSubscription (cs_major_ x) v (cs_reliable_ x) (cs_unreliable_ x) (cs_is_selective_ x)
    (cs_tcp_connection_established_ x) (cs_udp_connection_established_ x) (cs_clients_ x) (cs_eg_info_ x).
Definition cs_get_endpoint (_reliable : bool) (x : subscription) : option Z :=
  if _reliable then cs_reliable_ x else cs_unreliable_ x.
Definition cs_set_endpoint (v : option Z) (_reliable : bool) (x : subscription) : subscription :=
  ClientSubscription (cs_major_ x) (cs_ttl_ x) (if _reliable then v else cs_reliable_ x)
    (if _reliable then cs_unreliable_ x else v) (cs_is_selective_ x)
    (cs_tcp_connection_established_ x) (cs_udp_connection_established_ x) (cs_clients_ x) (cs_eg_info_ x).
Definition cs_set_selective (v : bool) (x : subscription) : subscription :=
  ClientSubscription (cs_major_ x) (cs_ttl_ x) (cs_reliable_ x) (cs_unreliable_ x) v
    (cs_tcp_connection_established_ x) (cs_udp_connection_established_ x) (cs_clients_ x) (cs_eg_info_ x).
Definition set_tcp_connection_established (v : bool) (x : subscription) : subscription :=
  ClientSubscription (cs_major_ x) (cs_ttl_ x) (cs_reliable_ x) (cs_unreliable_ x) (cs_is_selective_ x)
    v (cs_udp_connection_established_ x) (cs_clients_ x) (cs_eg_info_ x).
Definition set_udp_connection_established (v : bool) (x : subscription) : subscription :=
  ClientSubscription (cs_major_ x) (cs_ttl_ x) (cs_reliable_ x) (cs_unreliable_ x) (cs_is_selective_ x)
    (cs_tcp_connection_established_ x) v (cs_clients_ x) (cs_eg_info_ x).
Definition cs_set_clients (v : gmap Z client_state_e) (x : subscription) : subscription :=
  ClientSubscription (cs_major_ x) (cs_ttl_ x) (cs_reliable_ x) (cs_unreliable_ x) (cs_is_selective_ x)
    (cs_tcp_connection_established_ x) (cs_udp_connection_established_ x) v (cs_eg_info_ x).
Definition set_eventgroupinfo (v : option Z) (x : subscription) : subscription :=
  ClientSubscription (cs_major_ x) (cs_ttl_ x) (cs_reliable_ x) (cs_unreliable_ x) (cs_is_selective_ x)
    (cs_tcp_connection_established_ x) (cs_udp_connection_established_ x) (cs_clients_ x) v.

Definition get_state (_client : Z) (x : subscription) : client_state_e :=
  default ST_UNKNOWN (cs_clients_ x !! _client).
Definition set_state (_client : Z) (_state : client_state_e) (x : subscription) : subscription :=
  match cs_clients_ x !! _client with
  | Some _ => cs_set_clients (<[_client := _state]> (cs_clients_ x)) x
  | None => x
  end.
Definition cs_add_client (_client : Z) (x : subscription) : bool * subscription :=
  match cs_clients_ x !! _client with
  | Some _ => (false, x)
  | None => (true, cs_set_clients (<[_client := ST_UNKNOWN]> (cs_clients_ x)) x)
  end.
Definition cs_remove_client (_client : Z) (x : subscription) : bool * subscription :=
  (bool_decide (is_Some (cs_clients_ x !! _client)), cs_set_clients (delete _client (cs_clients_ x)) x).
Definition cs_get_clients (x : subscription) : gset Z := dom (cs_clients_ x).
Definition cs_has_client (x : subscription) : bool := bool_decide (cs_clients_ x ≠ ∅).

(** The loops over [get_clients()] that set the state of every client. *)
Definition set_states (f : client_state_e → client_state_e) (x : subscription) : subscription :=
  foldl (λ x its_client, set_state its_client (f (get_state its_client x)) x) x (client_list (cs_get_clients x)).

(** ** The state *)

Abbreviation subscribed_t := (gmap Z (gmap Z (gmap Z subscription))).

(** What is asked of endpoints: a restart, and to join a multicast group. *)
Inductive endpoint_call : Type :=
| Restart (endpoint : Z)
| OnSubscribeAckWithMulticast (service instance sender address port : Z).

Record sd_client : Type := SdClient {
  sc_routing : routing;
  sc_offers : remote_offers;
  subscribed_ : subscribed_t;
  sc_net : sd_net;
  sc_next_option : nat;
  sc_calls : list endpoint_call
}.
Definition sc_set_routing (v : routing) (s : sd_client) : sd_client :=
  SdClient v (sc_offers s) (subscribed_ s) (sc_net s) (sc_next_option s) (sc_calls s).
Definition sc_set_offers (v : remote_offers) (s : sd_client) : sd_client :=
  SdClient (sc_routing s) v (subscribed_ s) (sc_net s) (sc_next_option s) (sc_calls s).
Definition sc_set_subscribed (v : subscribed_t) (s : sd_client) : sd_client :=
  SdClient (sc_routing s) (sc_offers s) v (sc_net s) (sc_next_option s) (sc_calls s).
Definition sc_set_net (v : sd_net) (s : sd_client) : sd_client :=
  SdClient (sc_routing s) (sc_offers s) (subscribed_ s) v (sc_next_option s) (sc_calls s).
Definition sc_take_option (s : sd_client) : sd_client :=
  SdClient (sc_routing s) (sc_offers s) (subscribed_ s) (sc_net s) (S (sc_next_option s)) (sc_calls s).
Definition sc_add_call (c : endpoint_call) (s : sd_client) : sd_client :=
  SdClient (sc_routing s) (sc_offers s) (subscribed_ s) (sc_net s) (sc_next_option s) (sc_calls s ++ [c]).

(** What the outside answers.  A remote address is [None] for an endpoint that is no
    client endpoint, and [Some None] when it is not specified. *)
Record sd_env : Type := SdEnv {
  host_env : environment;
  unicast_ : Z;
  no_address : Z;
  is_unspecified : Z → bool;
  is_v4 : Z → bool;
  address_bytes : Z → list Z;
  find_or_create_remote_client : Z → Z → bool → option Z;
  is_established : Z → bool;
  get_local_port : Z → Z;
  get_remote_address : Z → option (option Z);
  is_reliable : Z → bool;
  accepts : list (sd_output * bool) → sd_output → bool;
  buffer_capacity : Z;
  alloc : nat → Z
}.

(** Look-up and update in the nested maps. *)
Definition find_eventgroups (service instance : Z) (m : subscribed_t) : option (gmap Z subscription) :=
  match m !! service with Some its_instances => its_instances !! instance | None => None end.
Definition find_subscription (service instance eventgroup : Z) (m : subscribed_t) : option subscription :=
  match find_eventgroups service instance m with
  | Some its_eventgroups => its_eventgroups !! eventgroup
  | None => None
  end.
Definition put_eventgroups (service instance : Z) (v : gmap Z subscription) (m : subscribed_t) : subscribed_t :=
  <[service := <[instance := v]> (default ∅ (m !! service))]> m.
Definition put_subscription (service instance eventgroup : Z) (x : subscription) (m : subscribed_t) : subscribed_t :=
  put_eventgroups service instance (<[eventgroup := x]> (default ∅ (find_eventgroups service instance m))) m.
(** [found_instance->second.erase(found_eventgroup)], and the instance with the last one. *)
Definition erase_subscription (service instance eventgroup : Z) (m : subscribed_t) : subscribed_t :=
  match m !! service with
  | Some its_instances =>
      match its_instances !! instance with
      | Some its_eventgroups =>
          let its_eventgroups := delete eventgroup its_eventgroups in
          <[service := if bool_decide (its_eventgroups = ∅) then delete instance its_instances
                       else <[instance := its_eventgroups]> its_instances]> m
      | None => m
      end
  | None => m
  end.

(** A loop over the eventgroups of an instance, with what it collects. *)
Fixpoint for_subscriptions {A} (f : Z → subscription → A → ST sd_client A) (l : list (Z * subscription)) (acc : A) :
    ST sd_client A :=
  match l with
  | [] => mret acc
  | (eventgroup, x) :: l => acc ← f eventgroup x acc; for_subscriptions f l acc
  end.

(** [entry_data_t] *)
Record entry_data_t : Type := EntryData {
  data_entry_ : option entry_impl;
  data_other_ : option entry_impl;
  data_options_ : list option_ptr
}.

Section subscriptions.
  Context (env : sd_env).

Definition sc_put (service instance eventgroup : Z) (x : subscription) : ST sd_client () :=
  st_modify (λ s, sc_set_subscribed (put_subscription service instance eventgroup x (subscribed_ s)) s).

(** A call of the routing manager. *)
Definition in_host {A} (m : ST routing A) : ST sd_client A :=
  s ← st_get;
  '(a, r) ← st_lift (m (sc_routing s));
  st_modify (sc_set_routing r);;
  mret a.

Definition sc_new_option (o : option_impl) : ST sd_client option_ptr :=
  s ← st_get; st_modify sc_take_option;; mret (alloc env (sc_next_option s), o).

Definition create_ip_option_at (_address _port : Z) (_is_reliable : bool) : option_impl :=
  if is_v4 env _address
  then ipv4_option_of (address_bytes env _address) (is_multicast (host_env env) _address) _port _is_reliable
  else ipv6_option_of (address_bytes env _address) (is_multicast (host_env env) _address) _port _is_reliable.

Definition sc_send (messages : list sd_message) (address : Z) : ST sd_client () :=
  s ← st_get;
  '(_, net) ← st_lift (serialize_and_send (is_unspecified env) (accepts env) (buffer_capacity env)
                         messages address (sc_net s));
  st_modify (sc_set_net net).

(** ** Endpoints and reliability *)

Definition get_subscription_endpoints (service instance : Z) : option Z * option Z :=
  let unreliable := find_or_create_remote_client env service instance false in
  let reliable := find_or_create_remote_client env service instance true in
  (reliable, unreliable).

(** The address [_address] is kept when no endpoint tells another one. *)
Definition get_subscription_address (_reliable _unreliable : option Z) (_address : Z) : Z :=
  match _reliable ≫= get_remote_address env with
  | Some a => default _address a
  | None =>
      match _unreliable ≫= get_remote_address env with
      | Some a => default _address a
      | None => _address
      end
  end.

Definition lock_info (x : subscription) (r : routing) : option Z :=
  g ← cs_eg_info_ x; if bool_decide (is_Some (r_groups r !! g)) then Some g else None.

Definition offer_reliability (t : remote_offer_type_e) : reliability_type_e :=
  match t with
  | RELIABLE => RT_RELIABLE
  | UNRELIABLE => RT_UNRELIABLE
  | RELIABLE_UNRELIABLE => RT_BOTH
  | UNKNOWN => RT_UNKNOWN
  end.

Definition get_eventgroup_reliability (service instance eventgroup : Z) (x : subscription) :
    ST sd_client (reliability_type_e * subscription) :=
  s ← st_get;
  match lock_info x (sc_routing s) with
  | Some g =>
      its_info ← in_host (the_group g);
      if bool_decide (eg_reliability_ its_info = RT_UNKNOWN) && eg_reliability_auto_mode_ its_info then
        let its_reliability := offer_reliability (get_remote_offer_type service instance (sc_offers s)) in
        in_host (upd_group g (eg_with_reliability its_reliability));;
        mret (its_reliability, x)
      else mret (eg_reliability_ its_info, x)
  | None =>
      its_eg_info ← in_host (find_eventgroup (host_env env) service instance eventgroup);
      match its_eg_info with
      | Some g =>
          its_info ← in_host (the_group g);
          mret (eg_reliability_ its_info, set_eventgroupinfo (Some g) x)
      | None => mret (RT_UNKNOWN, x)
      end
  end.

(** ** Entries *)

Definition subscribe_entry (service instance eventgroup major ttl : Z) : entry_impl :=
  EventgroupEntry (entry_set_ttl ttl (entry_set_major_version major
    (entry_set_instance instance (entry_set_service service
      (entry_set_type SUBSCRIBE_EVENTGROUP entry_base_new))))) eventgroup 0 0 None None.

(** The option of one endpoint that is to be inserted: [None] when its port is zero. *)
Definition endpoint_option (insert : bool) (endpoint : option Z) (reliable : bool) :
    ST sd_client (option (list option_ptr)) :=
  match (if insert then endpoint else None) with
  | Some e =>
      let its_port := get_local_port env e in
      if bool_decide (its_port ≠ 0) then
        o ← sc_new_option (create_ip_option_at (unicast_ env) its_port reliable); mret (Some [o])
      else mret None
  | None => mret (Some [])
  end.

(** Some client waits for the acknowledgment of a subscription that is renewed. *)
Definition is_resubscribing (x : subscription) : bool :=
  existsb (λ its_client, bool_decide (get_state its_client x = ST_RESUBSCRIBING_NOT_ACKNOWLEDGED))
    (client_list (cs_get_clients x)).

(** [insert_reliable] and [insert_unreliable] *)
Definition inserted (_reliability_type : reliability_type_e) (x : subscription) : bool * bool :=
  let has_reliable := bool_decide (is_Some (cs_get_endpoint true x)) in
  let has_unreliable := bool_decide (is_Some (cs_get_endpoint false x)) in
  match _reliability_type with
  | RT_RELIABLE => (has_reliable, false)
  | RT_UNRELIABLE => (false, has_unreliable)
  | RT_BOTH => if has_reliable && has_unreliable then (true, true) else (false, false)
  | RT_UNKNOWN => (false, false)
  end.

Definition create_eventgroup_entry (service instance eventgroup : Z) (x : subscription)
    (_reliability_type : reliability_type_e) : ST sd_client entry_data_t :=
  let its_reliable_endpoint := cs_get_endpoint true x in
  let its_unreliable_endpoint := cs_get_endpoint false x in
  let '(insert_reliable, insert_unreliable) := inserted _reliability_type x in
  if negb insert_reliable && negb insert_unreliable then mret (EntryData None None [])
  else
    its_reliable ← endpoint_option insert_reliable its_reliable_endpoint true;
    match its_reliable with
    | None => mret (EntryData None None [])
    | Some its_reliable =>
        its_unreliable ← endpoint_option insert_unreliable its_unreliable_endpoint false;
        match its_unreliable with
        | None => mret (EntryData None None its_reliable)
        | Some its_unreliable =>
            let its_entry := subscribe_entry service instance eventgroup (cs_major_ x) (cs_ttl_ x) in
            its_selective ← (if cs_is_selective_ x then
                let '(b, c) := set_clients (cs_get_clients x) (OptionBase 1 SELECTIVE) in
                o ← sc_new_option (SelectiveOption b c); mret [o]
              else mret []);
            let options := its_reliable ++ its_unreliable ++ its_selective in
            mret (if is_resubscribing x
                  then EntryData (Some (subscribe_entry service instance eventgroup (cs_major_ x) 0))
                         (Some its_entry) options
                  else EntryData (Some its_entry) None options)
        end
    end.

(** [add_entry_data(its_messages, its_data)], if there is an entry. *)
Definition add_data (messages : list sd_message) (d : entry_data_t) : outcome (list sd_message) :=
  match data_entry_ d with
  | Some e => sd_add_entry_data messages e (data_options_ d) (data_other_ d)
  | None => Ret messages
  end.

(** ** Subscribing *)

Definition established (e : option Z) : bool := match e with Some e => is_established env e | None => false end.

(** The entry of a subscription, if its endpoints are connected; otherwise the missing
    connections are marked. *)
Definition connected_entry (service instance eventgroup : Z) (t : reliability_type_e) (x : subscription) :
    ST sd_client (entry_data_t * subscription) :=
  let its_reliable := cs_get_endpoint true x in
  let its_unreliable := cs_get_endpoint false x in
  let entry := d ← create_eventgroup_entry service instance eventgroup x t; mret (d, x) in
  let no_entry x := mret (EntryData None None [], x) in
  match t, its_reliable, its_unreliable with
  | RT_UNRELIABLE, _, Some u =>
      if is_established env u then entry else no_entry (set_udp_connection_established false x)
  | RT_RELIABLE, Some r, _ =>
      if is_established env r then entry else no_entry (set_tcp_connection_established false x)
  | RT_BOTH, Some r, Some u =>
      if is_established env r && is_established env u then entry
      else
        let x := if negb (is_established env r) then set_tcp_connection_established false x else x in
        no_entry (if negb (is_established env u) then set_udp_connection_established false x else x)
  | _, _, _ => no_entry x
  end.

(** [send_subscription] of the subscription at a place. *)
Definition send_subscription (service instance eventgroup : Z) : ST sd_client () :=
  s ← st_get;
  match find_subscription service instance eventgroup (subscribed_ s) with
  | None => mret ()
  | Some x =>
      let its_address := get_subscription_address (cs_get_endpoint true x) (cs_get_endpoint false x) (no_address env) in
      if is_unspecified env its_address then mret ()
      else
        '(t, x) ← get_eventgroup_reliability service instance eventgroup x;
        '(its_data, x) ← connected_entry service instance eventgroup t x;
        sc_put service instance eventgroup x;;
        match data_entry_ its_data with
        | Some _ =>
            its_messages ← st_lift (add_data [sd_message_new] its_data);
            sc_send its_messages its_address
        | None => mret ()
        end
  end.

Definition create_subscription (_major _ttl : Z) (_reliable _unreliable : option Z) (_info : Z) :
    ST sd_client subscription :=
  let x := cs_set_ttl _ttl (cs_set_major _major subscription_new) in
  let x := match _reliable with
           | Some e => set_tcp_connection_established (is_established env e) (cs_set_endpoint (Some e) true x)
           | None => x
           end in
  let x := match _unreliable with
           | Some e => set_udp_connection_established (is_established env e) (cs_set_endpoint (Some e) false x)
           | None => x
           end in
  selective ← in_host (is_selective _info);
  mret (set_eventgroupinfo (Some _info) (cs_set_selective selective x)).

Definition subscribe (service instance eventgroup _major _ttl _client _info : Z) : ST sd_client () :=
  s ← st_get;
  match find_subscription service instance eventgroup (subscribed_ s) with
  | Some x =>
      if bool_decide (cs_major_ x ≠ _major) then mret ()
      else if cs_is_selective_ x then
        let '(added, x) := cs_add_client _client x in
        if (added : bool) then
          sc_put service instance eventgroup (set_state _client ST_NOT_ACKNOWLEDGED x);;
          send_subscription service instance eventgroup
        else mret ()
      else mret ()
  | None =>
      let '(its_reliable, its_unreliable) := get_subscription_endpoints service instance in
      x ← create_subscription _major _ttl its_reliable its_unreliable _info;
      let '(_, x) := cs_add_client _client x in
      sc_put service instance eventgroup (set_state _client ST_NOT_ACKNOWLEDGED x);;
      send_subscription service instance eventgroup
  end.

(** ** Unsubscribing *)

(** The object that makes the entry of an unsubscribe: the subscription itself, or a
    temporary one for a single client of a selective one. *)
Definition unsubscribe_object (x : subscription) : bool * subscription :=
  if negb (cs_has_client x) then (true, cs_set_ttl 0 x)
  else if cs_is_selective_ x then
    (false, cs_set_endpoint (cs_unreliable_ x) false (cs_set_endpoint (cs_reliable_ x) true
              (cs_set_selective true (cs_set_ttl 0 (cs_set_major (cs_major_ x) subscription_new)))))
  else (true, x).

Definition unsubscribe_at (service instance eventgroup _client : Z) (x : subscription) (m : sd_message) :
    ST sd_client (sd_message * Z) :=
  let '(removed, x) := cs_remove_client _client x in
  let '(is_real, y) := if (removed : bool) then unsubscribe_object x else (true, x) in
  let x := if (is_real : bool) then y else x in
  let its_address :=
    if (removed : bool)
    then get_subscription_address (cs_get_endpoint true x) (cs_get_endpoint false x) (no_address env)
    else no_address env in
  let y := if cs_is_selective_ y then (cs_add_client _client y).2 else y in
  '(t, y) ← get_eventgroup_reliability service instance eventgroup y;
  its_data ← create_eventgroup_entry service instance eventgroup y t;
  m ← (match data_entry_ its_data with
       | Some e => '(_, m) ← st_lift (add_entry_data e (data_options_ its_data) None m); mret m
       | None => mret m
       end);
  let y := if cs_is_selective_ y then (cs_remove_client _client y).2 else y in
  let x := if (is_real : bool) then y else x in
  (if negb (cs_has_client x)
   then st_modify (λ s, sc_set_subscribed (erase_subscription service instance eventgroup (subscribed_ s)) s)
   else sc_put service instance eventgroup x);;
  mret (m, its_address).

Definition unsubscribe (service instance eventgroup _client : Z) : ST sd_client () :=
  s ← st_get;
  '(its_current_message, its_address) ←
    (match find_subscription service instance eventgroup (subscribed_ s) with
     | Some x => unsubscribe_at service instance eventgroup _client x sd_message_new
     | None => mret (sd_message_new, no_address env)
     end);
  sc_send [its_current_message] its_address.

(** The entry of one eventgroup in [unsubscribe_all]; an entry that does not fit is lost. *)
Definition unsubscribe_entry (service instance eventgroup : Z) (x : subscription) (acc : sd_message * Z) :
    ST sd_client (sd_message * Z) :=
  let '(m, its_address) := acc in
  let x := cs_set_ttl 0 x in
  '(t, x) ← get_eventgroup_reliability service instance eventgroup x;
  its_data ← create_eventgroup_entry service instance eventgroup x t;
  let its_address := get_subscription_address (cs_get_endpoint true x) (cs_get_endpoint false x) its_address in
  m ← (match data_entry_ its_data with
       | Some e => '(_, m) ← st_lift (add_entry_data e (data_options_ its_data) None m); mret m
       | None => mret m
       end);
  mret (m, its_address).

Definition unsubscribe_all (service instance : Z) : ST sd_client () :=
  s ← st_get;
  '(its_current_message, its_address) ←
    (match find_eventgroups service instance (subscribed_ s) with
     | Some its_eventgroups =>
         r ← for_subscriptions (unsubscribe_entry service instance) (ordered its_eventgroups)
                (sd_message_new, no_address env);
         st_modify (λ s, sc_set_subscribed (put_eventgroups service instance ∅ (subscribed_ s)) s);;
         mret r
     | None => mret (sd_message_new, no_address env)
     end);
  sc_send [its_current_message] its_address.

(** ** Changes of the remote service *)

Definition reset_subscription (x : subscription) : subscription :=
  cs_set_endpoint None false (cs_set_endpoint None true (set_states (λ _, ST_UNKNOWN) x)).
Definition reset_subscriptions (service instance : Z) : ST sd_client () :=
  st_modify (λ s,
    match find_eventgroups service instance (subscribed_ s) with
    | Some its_eventgroups =>
        sc_set_subscribed (put_eventgroups service instance (reset_subscription <$> its_eventgroups) (subscribed_ s)) s
    | None => s
    end).

(** The states before and after the entry of a renewed subscription is created. *)
Definition resubscribing (st : client_state_e) : client_state_e :=
  match st with ST_ACKNOWLEDGED => ST_RESUBSCRIBING | _ => ST_RESUBSCRIBING_NOT_ACKNOWLEDGED end.

Definition resubscribe_one (service instance eventgroup : Z) (x : subscription) (messages : list sd_message) :
    ST sd_client (list sd_message) :=
  let '(its_reliable, its_unreliable) := get_subscription_endpoints service instance in
  let x := cs_set_endpoint its_unreliable false (cs_set_endpoint its_reliable true x) in
  let x := set_states resubscribing x in
  '(t, x) ← get_eventgroup_reliability service instance eventgroup x;
  its_data ← create_eventgroup_entry service instance eventgroup x t;
  messages ← st_lift (add_data messages its_data);
  sc_put service instance eventgroup (set_states (λ _, ST_NOT_ACKNOWLEDGED) x);;
  mret messages.
(** The renewal of the subscriptions to a service whose offer was received by multicast. *)
Definition resubscribe (service instance : Z) (_resubscribes : list sd_message) : ST sd_client (list sd_message) :=
  s ← st_get;
  match find_eventgroups service instance (subscribed_ s) with
  | Some its_eventgroups => for_subscriptions (resubscribe_one service instance) (ordered its_eventgroups) _resubscribes
  | None => mret _resubscribes
  end.

(** The end of [on_message]: messages without entries or options are dropped. *)
Definition send_resubscribes (its_resubscribes : list sd_message) (_sender : Z) : ST sd_client () :=
  let its_resubscribes := filter (λ m, has_entry m && has_option m = true) its_resubscribes in
  match its_resubscribes with
  | [] => mret ()
  | _ => sc_send its_resubscribes _sender
  end.

(** ** Connections *)

Definition mark_established (_endpoint : Z) (x : subscription) : subscription :=
  let x := match cs_get_endpoint true x with
           | Some e => if is_established env e && bool_decide (e = _endpoint)
                       then set_tcp_connection_established true x else x
           | None => x
           end in
  match cs_get_endpoint false x with
  | Some e => if is_established env e && bool_decide (e = _endpoint)
              then set_udp_connection_established true x else x
  | None => x
  end.
Definition all_established (x : subscription) : bool :=
  match cs_get_endpoint true x, cs_get_endpoint false x with
  | Some _, Some _ => cs_tcp_connection_established_ x && cs_udp_connection_established_ x
  | Some _, None => cs_tcp_connection_established_ x
  | None, Some _ => cs_udp_connection_established_ x
  | None, None => false
  end.

Definition connected_one (service instance _endpoint eventgroup : Z) (x : subscription)
    (acc : list sd_message * Z) : ST sd_client (list sd_message * Z) :=
  let '(messages, its_address) := acc in
  if negb (cs_tcp_connection_established_ x) || negb (cs_udp_connection_established_ x) then
    let x := mark_established _endpoint x in
    if all_established x then
      let '(its_reliable, its_unreliable) := get_subscription_endpoints service instance in
      let its_address := get_subscription_address its_reliable its_unreliable its_address in
      let x := cs_set_endpoint its_unreliable false (cs_set_endpoint its_reliable true x) in
      let x := set_states (λ _, ST_NOT_ACKNOWLEDGED) x in
      '(t, x) ← get_eventgroup_reliability service instance eventgroup x;
      its_data ← create_eventgroup_entry service instance eventgroup x t;
      messages ← st_lift (add_data messages its_data);
      sc_put service instance eventgroup x;;
      mret (messages, its_address)
    else sc_put service instance eventgroup x;; mret (messages, its_address)
  else mret (messages, its_address).

Definition on_endpoint_connected (service instance _endpoint : Z) : ST sd_client () :=
  let its_address :=
    if is_reliable env _endpoint then get_subscription_address (Some _endpoint) None (no_address env)
    else get_subscription_address None (Some _endpoint) (no_address env) in
  s ← st_get;
  '(its_messages, its_address) ←
    (match find_eventgroups service instance (subscribed_ s) with
     | Some its_eventgroups =>
         for_subscriptions (connected_one service instance _endpoint) (ordered its_eventgroups)
           ([sd_message_new], its_address)
     | None => mret ([sd_message_new], its_address)
     end);
  sc_send its_messages its_address.

(** ** Answers *)

Definition handle_eventgroup_subscription_nack (service instance eventgroup : Z) (_clients : gset Z) :
    ST sd_client () :=
  s ← st_get;
  match find_subscription service instance eventgroup (subscribed_ s) with
  | Some x =>
      for_each (λ its_client,
        in_host (on_subscribe_nack (host_env env) its_client service instance eventgroup ANY_EVENT
                   PENDING_SUBSCRIPTION_ID)) (client_list _clients);;
      if negb (cs_is_selective_ x) then
        match cs_get_endpoint true x with
        | Some e => st_modify (sc_add_call (Restart e))
        | None => mret ()
        end
      else mret ()
  | None => mret ()
  end.

Definition ack_client (service instance eventgroup its_client : Z) : ST sd_client () :=
  s ← st_get;
  match find_subscription service instance eventgroup (subscribed_ s) with
  | Some x =>
      if bool_decide (get_state its_client x = ST_NOT_ACKNOWLEDGED) then
        sc_put service instance eventgroup (set_state its_client ST_ACKNOWLEDGED x);;
        in_host (on_subscribe_ack (host_env env) its_client service instance eventgroup ANY_EVENT
                   PENDING_SUBSCRIPTION_ID)
      else mret ()
  | None => mret ()
  end.
Definition handle_eventgroup_subscription_ack (service instance eventgroup : Z) (_clients : gset Z)
    (_sender _address _port : Z) : ST sd_client () :=
  s ← st_get;
  match find_subscription service instance eventgroup (subscribed_ s) with
  | Some _ =>
      for_each (ack_client service instance eventgroup) (client_list _clients);;
      if is_multicast (host_env env) _address
      then st_modify (sc_add_call (OnSubscribeAckWithMulticast service instance _sender _address _port))
      else mret ()
  | None => mret ()
  end.
End subscriptions.

(** ** Look-ups after updates *)

Lemma find_put_eventgroups sv i v m sv' i' : find_eventgroups sv' i' (put_eventgroups sv i v m) =
  if bool_decide (sv' = sv ∧ i' = i) then Some v else find_eventgroups sv' i' m.
Proof.
  unfold find_eventgroups, put_eventgroups. destruct (decide (sv' = sv)) as [->|Hsv].
  - rewrite lookup_insert_eq. destruct (decide (i' = i)) as [->|Hi].
    + by rewrite lookup_insert_eq, bool_decide_true.
    + rewrite lookup_insert_ne, bool_decide_false by naive_solver. by destruct (m !! sv).
  - by rewrite lookup_insert_ne, bool_decide_false by naive_solver.
Qed.

Lemma find_put sv i e x m sv' i' e' : find_subscription sv' i' e' (put_subscription sv i e x m) =
  if bool_decide (sv' = sv ∧ i' = i ∧ e' = e) then Some x else find_subscription sv' i' e' m.
Proof.
  unfold find_subscription, put_subscription. rewrite find_put_eventgroups.
  destruct (decide (sv' = sv ∧ i' = i)) as [[-> ->]|Hn].
  - rewrite bool_decide_true by done. destruct (decide (e' = e)) as [->|He].
    + by rewrite lookup_insert_eq, bool_decide_true.
    + rewrite lookup_insert_ne, bool_decide_false by naive_solver. by destruct (find_eventgroups sv i m).
  - rewrite !bool_decide_false by naive_solver. done.
Qed.

Lemma find_erase sv i e m sv' i' e' : find_subscription sv' i' e' (erase_subscription sv i e m) =
  if bool_decide (sv' = sv ∧ i' = i ∧ e' = e) then None else find_subscription sv' i' e' m.
Proof.
  unfold erase_subscription. destruct (m !! sv) as [insts|] eqn:Es.
  2:{ case_bool_decide as H; [|done]. destruct H as (->&->&->). unfold find_subscription, find_eventgroups. by rewrite Es. }
  destruct (insts !! i) as [gs|] eqn:Ei.
  2:{ case_bool_decide as H; [|done]. destruct H as (->&->&->). unfold find_subscription, find_eventgroups. by rewrite Es, Ei. }
  unfold find_subscription, find_eventgroups. destruct (decide (sv' = sv)) as [->|Hsv].
  2:{ by rewrite lookup_insert_ne, bool_decide_false by naive_solver. }
  rewrite lookup_insert_eq, Es. destruct (decide (i' = i)) as [->|Hi].
  - rewrite Ei. destruct (decide (e' = e)) as [->|He].
    + rewrite (bool_decide_true (sv = sv ∧ _)) by done. case_bool_decide; [by rewrite lookup_delete_eq|].
      by rewrite lookup_insert_eq, lookup_delete_eq.
    + rewrite (bool_decide_false (sv = sv ∧ _)) by naive_solver. case_bool_decide as H.
      * rewrite lookup_delete_eq. by rewrite <- (lookup_delete_ne gs e e'), H by done.
      * by rewrite lookup_insert_eq, lookup_delete_ne.
  - rewrite (bool_decide_false (sv = sv ∧ _)) by naive_solver.
    case_bool_decide; [by rewrite lookup_delete_ne|by rewrite lookup_insert_ne].
Qed.

(** The loops over the clients map their states. *)
Lemma set_state_clients c st x : set_state c st x =
  cs_set_clients (alter (λ _, st) c (cs_clients_ x)) x.
Proof.
  unfold set_state. destruct (cs_clients_ x !! c) eqn:E.
  - f_equal. apply map_eq. intros k. destruct (decide (k = c)) as [->|Hk].
    + by rewrite lookup_insert_eq, lookup_alter_eq, E.
    + by rewrite lookup_insert_ne, lookup_alter_ne.
  - rewrite alter_id by (intros ? ?; congruence). by destruct x.
Qed.

Lemma set_states_eq f x : set_states f x = cs_set_clients (f <$> cs_clients_ x) x.
Proof.
  unfold set_states. assert (∀ l (x : subscription), NoDup l →
    foldl (λ x c, set_state c (f (get_state c x)) x) x l =
    cs_set_clients (map_imap (λ c st, Some (if bool_decide (c ∈ l) then f st else st)) (cs_clients_ x)) x) as H.
  { clear x. intros l. induction l as [|c l IH]; intros x Hl; cbn [foldl].
    - destruct x. unfold cs_set_clients. cbn. f_equal. symmetry. apply map_eq. intros k.
      rewrite map_lookup_imap. by destruct (_ !! k).
    - apply NoDup_cons in Hl as [Hc Hl]. rewrite IH by done. rewrite set_state_clients.
      destruct x. unfold cs_set_clients, get_state. cbn. f_equal. apply map_eq. intros k.
      rewrite !map_lookup_imap. destruct (decide (k = c)) as [->|Hk].
      + rewrite lookup_alter_eq. destruct (_ !! c); cbn; [|done].
        rewrite bool_decide_false, bool_decide_true by set_solver. done.
      + rewrite lookup_alter_ne by done. destruct (_ !! k); cbn; [|done]. do 2 f_equal.
        by rewrite (bool_decide_ext (k ∈ c :: l) (k ∈ l)) by set_solver. }
  rewrite H.
  - f_equal. apply map_eq. intros k. rewrite map_lookup_imap, lookup_fmap.
    destruct (cs_clients_ x !! k) eqn:E; cbn; [|done]. rewrite bool_decide_true; [done|].
    unfold client_list. rewrite merge_sort_Permutation, elem_of_elements. unfold cs_get_clients. by eapply elem_of_dom_2.
  - unfold client_list. rewrite merge_sort_Permutation. apply NoDup_elements.
Qed.

(** ** What leaves the subscriptions alone *)

Definition leaves {A} (m : ST sd_client A) : Prop := ∀ s a s', m s = Ret (a, s') → subscribed_ s' = subscribed_ s.

Lemma leaves_bind {A B} (m : ST sd_client A) (k : A → ST sd_client B) :
  leaves m → (∀ a, leaves (k a)) → leaves (m ≫= k).
Proof.
  intros Hm Hk s b s' H. apply st_bind_inv in H as (a&s1&E1&E2). rewrite (Hk a s1 b s' E2). by apply (Hm s a).
Qed.
Lemma leaves_ret {A} (a : A) : leaves (mret a).
Proof. by intros s b s' [= _ <-]. Qed.
Lemma leaves_get : leaves st_get.
Proof. by intros s b s' [= _ <-]. Qed.
Lemma leaves_lift {A} (o : outcome A) : leaves (st_lift o).
Proof. intros s b s' H. unfold st_lift in H. apply outcome_bind_inv in H as (a&_&[= _ <-]). done. Qed.
Lemma leaves_modify f : (∀ s, subscribed_ (f s) = subscribed_ s) → leaves (st_modify f).
Proof. by intros Hf s b s' [= _ <-]. Qed.

Create HintDb leaves.
#[export] Hint Resolve leaves_ret leaves_get leaves_lift leaves_modify : leaves.
Ltac leaves_tac :=
  repeat match goal with
  | |- leaves (_ ≫= _) => apply leaves_bind; [|intros ?]
  | |- leaves (match ?x with _ => _ end) => destruct x
  | |- leaves _ => solve [eauto with leaves]
  end.

Lemma leaves_in_host {A} (m : ST routing A) : leaves (in_host m).
Proof. unfold in_host. leaves_tac. Qed.
#[export] Hint Resolve leaves_in_host : leaves.

Section frame.
  Context (env : sd_env).

Lemma leaves_new_option o : leaves (sc_new_option env o).
Proof. unfold sc_new_option. leaves_tac. Qed.
Lemma leaves_send ms a : leaves (sc_send env ms a).
Proof. unfold sc_send. leaves_tac. Qed.
#[local] Hint Resolve leaves_new_option leaves_send : leaves.
Lemma leaves_reliability sv i e x : leaves (get_eventgroup_reliability env sv i e x).
Proof. unfold get_eventgroup_reliability. leaves_tac. Qed.
Lemma leaves_endpoint_option b e r : leaves (endpoint_option env b e r).
Proof. unfold endpoint_option. leaves_tac. Qed.
#[local] Hint Resolve leaves_reliability leaves_endpoint_option : leaves.
Lemma leaves_entry sv i e x t : leaves (create_eventgroup_entry env sv i e x t).
Proof. unfold create_eventgroup_entry. leaves_tac. Qed.
#[local] Hint Resolve leaves_entry : leaves.
Lemma leaves_connected_entry sv i e t x : leaves (connected_entry env sv i e t x).
Proof. unfold connected_entry. leaves_tac. Qed.
Lemma leaves_send_resubscribes ms a : leaves (send_resubscribes env ms a).
Proof. unfold send_resubscribes. leaves_tac. Qed.
Lemma leaves_unsubscribe_entry sv i e x acc : leaves (unsubscribe_entry env sv i e x acc).
Proof. destruct acc as [m a]. unfold unsubscribe_entry. leaves_tac. Qed.
Lemma leaves_for {A} (f : Z → subscription → A → ST sd_client A) l acc :
  (∀ e x acc, leaves (f e x acc)) → leaves (for_subscriptions f l acc).
Proof.
  intros Hf. revert acc. induction l as [|[e x] l IH]; intros acc; cbn [for_subscriptions]; [apply leaves_ret|].
  apply leaves_bind; [apply Hf|apply IH].
Qed.

(** Looking for the reliability changes at most the eventgroup that a subscription knows,
    and preparing an entry at most its connections. *)
Definition same_members (x y : subscription) : Prop :=
  cs_major_ y = cs_major_ x ∧ cs_ttl_ y = cs_ttl_ x ∧ cs_is_selective_ y = cs_is_selective_ x ∧
  cs_clients_ y = cs_clients_ x ∧ cs_reliable_ y = cs_reliable_ x ∧ cs_unreliable_ y = cs_unreliable_ x.

Lemma same_members_refl x : same_members x x.
Proof. done. Qed.
Lemma same_members_trans x y z : same_members x y → same_members y z → same_members x z.
Proof. unfold same_members. intuition congruence. Qed.

Lemma reliability_same sv i e x s t y s' :
  get_eventgroup_reliability env sv i e x s = Ret ((t, y), s') → same_members x y.
Proof.
  unfold get_eventgroup_reliability. intros H. apply st_bind_inv in H as (s0&s1&_&H).
  destruct (lock_info _ _) as [g|].
  - apply st_bind_inv in H as (info&s2&_&H). destruct (_ && _).
    + apply st_bind_inv in H as ([]&s3&_&H). by injection H as _ <- _.
    + by injection H as _ <- _.
  - apply st_bind_inv in H as ([g|]&s2&_&H); [|by injection H as _ <- _].
    apply st_bind_inv in H as (info&s3&_&H). by injection H as _ <- _.
Qed.

Lemma connected_entry_same sv i e t x s d y s' :
  connected_entry env sv i e t x s = Ret ((d, y), s') → same_members x y.
Proof.
  unfold connected_entry. cbv zeta.
  assert (∀ s, (d ← create_eventgroup_entry env sv i e x t; mret (d, x)) s = Ret ((d, y), s') → same_members x y) as He.
  { intros s1 H. apply st_bind_inv in H as (d'&s2&_&[= _ <- _]). done. }
  repeat case_match; try (by apply He); intros [= _ <- _]; done.
Qed.
End frame.
#[export] Hint Resolve leaves_new_option leaves_send leaves_reliability leaves_endpoint_option leaves_entry
  leaves_connected_entry leaves_send_resubscribes leaves_unsubscribe_entry : leaves.

(** ** The state of a client

    What the subscription of a client to an eventgroup has become. *)
Definition status (service instance eventgroup client : Z) (s : sd_client) : option client_state_e :=
  match find_subscription service instance eventgroup (subscribed_ s) with
  | Some x => cs_clients_ x !! client
  | None => None
  end.

Inductive sub_event : Type :=
| EvSubscribe (service instance eventgroup major ttl client info : Z)
| EvUnsubscribe (service instance eventgroup client : Z)
| EvUnsubscribeAll (service instance : Z)
| EvReset (service instance : Z)
| EvOffered (service instance sender : Z)
| EvConnected (service instance endpoint : Z)
| EvAck (service instance eventgroup : Z) (clients : gset Z) (sender address port : Z)
| EvNack (service instance eventgroup : Z) (clients : gset Z).

Definition sub_run (env : sd_env) (ev : sub_event) : ST sd_client () :=
  match ev with
  | EvSubscribe sv i e major ttl c info => subscribe env sv i e major ttl c info
  | EvUnsubscribe sv i e c => unsubscribe env sv i e c
  | EvUnsubscribeAll sv i => unsubscribe_all env sv i
  | EvReset sv i => reset_subscriptions sv i
  | EvOffered sv i sender => ms ← resubscribe env sv i [sd_message_new]; send_resubscribes env ms sender
  | EvConnected sv i ep => on_endpoint_connected env sv i ep
  | EvAck sv i e cs sender a p => handle_eventgroup_subscription_ack env sv i e cs sender a p
  | EvNack sv i e cs => handle_eventgroup_subscription_nack env sv i e cs
  end.

(** A connection makes the subscription be sent again. *)
Definition reconnects (env : sd_env) (ep : Z) (x : subscription) : bool :=
  (negb (cs_tcp_connection_established_ x) || negb (cs_udp_connection_established_ x))
  && all_established (mark_established env ep x).

(** The next state of a client, given its subscription. *)
Definition next_state (env : sd_env) (ev : sub_event) (sv i e c : Z) (ox : option subscription) : option client_state_e :=
  let st := match ox with Some x => cs_clients_ x !! c | None => None end in
  match ev with
  | EvSubscribe sv' i' e' major _ c' _ =>
      if bool_decide ((sv, i, e, c) = (sv', i', e', c')) then
        match st with
        | Some st => Some st
        | None =>
            match ox with
            | Some x => if bool_decide (cs_major_ x = major) && cs_is_selective_ x
                        then Some ST_NOT_ACKNOWLEDGED else None
            | None => Some ST_NOT_ACKNOWLEDGED
            end
        end
      else st
  | EvUnsubscribe sv' i' e' c' => if bool_decide ((sv, i, e, c) = (sv', i', e', c')) then None else st
  | EvUnsubscribeAll sv' i' => if bool_decide ((sv, i) = (sv', i')) then None else st
  | EvReset sv' i' => if bool_decide ((sv, i) = (sv', i')) then (λ _, ST_UNKNOWN) <$> st else st
  | EvOffered sv' i' _ => if bool_decide ((sv, i) = (sv', i')) then (λ _, ST_NOT_ACKNOWLEDGED) <$> st else st
  | EvConnected sv' i' ep =>
      if bool_decide ((sv, i) = (sv', i')) && match ox with Some x => reconnects env ep x | None => false end
      then (λ _, ST_NOT_ACKNOWLEDGED) <$> st else st
  | EvAck sv' i' e' cs _ _ _ =>
      if bool_decide ((sv, i, e) = (sv', i', e') ∧ c ∈ cs ∧ st = Some ST_NOT_ACKNOWLEDGED)
      then Some ST_ACKNOWLEDGED else st
  | EvNack _ _ _ _ => st
  end.

Lemma status_put sv i e x s sv' i' e' c : status sv' i' e' c (sc_set_subscribed (put_subscription sv i e x (subscribed_ s)) s) =
  if bool_decide (sv' = sv ∧ i' = i ∧ e' = e) then cs_clients_ x !! c else status sv' i' e' c s.
Proof. unfold status. cbn [subscribed_ sc_set_subscribed]. rewrite find_put. by case_bool_decide. Qed.

Lemma status_leaves {A} (m : ST sd_client A) s a s' sv i e c : leaves m → m s = Ret (a, s') →
  status sv i e c s' = status sv i e c s.
Proof. intros Hm E. unfold status. by rewrite (Hm _ _ _ E). Qed.

Section steps.
  Context (env : sd_env).

Lemma send_subscription_status sv i e s s' : send_subscription env sv i e s = Ret ((), s') →
  ∀ sv' i' e' c, status sv' i' e' c s' = status sv' i' e' c s.
Proof.
  unfold send_subscription. intros H. apply st_bind_inv in H as (s0&s1&[= <- <-]&H).
  destruct (find_subscription sv i e (subscribed_ s)) as [x|] eqn:Ex; [|by injection H as <-].
  destruct (is_unspecified _ _); [by injection H as <-|].
  apply st_bind_inv in H as ([t y]&s2&E2&H). apply st_bind_inv in H as ([d z]&s3&E3&H).
  apply st_bind_inv in H as ([]&s4&E4&H). injection E4 as <-.
  apply reliability_same in E2 as Hy. apply connected_entry_same in E3 as Hz.
  apply leaves_reliability in E2. apply leaves_connected_entry in E3.
  intros sv' i' e' c. transitivity (status sv' i' e' c (sc_set_subscribed (put_subscription sv i e z (subscribed_ s3)) s3)).
  - eapply status_leaves; [|exact H]. leaves_tac.
  - rewrite status_put. unfold status. rewrite E3, E2. case_bool_decide as Hk; [|done]. destruct Hk as (->&->&->).
    rewrite Ex. destruct Hy as (_&_&_&Hy&_), Hz as (_&_&_&Hz&_). by rewrite Hz, Hy.
Qed.

Lemma subscribe_step sv i e major ttl cl info s s' sv' i' e' c :
  subscribe env sv i e major ttl cl info s = Ret ((), s') →
  status sv' i' e' c s' = next_state env (EvSubscribe sv i e major ttl cl info) sv' i' e' c
                            (find_subscription sv' i' e' (subscribed_ s)).
Proof.
  intros H. unfold subscribe in H. apply st_bind_inv in H as (s0&s1&[= <- <-]&H). cbn [next_state].
  fold (status sv' i' e' c s).
  destruct (find_subscription sv i e (subscribed_ s)) as [x|] eqn:Ex.
  - assert (bool_decide (cs_major_ x = major) && cs_is_selective_ x = false ∨ is_Some (cs_clients_ x !! cl) →
      status sv' i' e' c s = (if bool_decide ((sv', i', e', c) = (sv, i, e, cl)) then
        match status sv' i' e' c s with
        | Some st => Some st
        | None =>
            match find_subscription sv' i' e' (subscribed_ s) with
            | Some x => if bool_decide (cs_major_ x = major) && cs_is_selective_ x
                        then Some ST_NOT_ACKNOWLEDGED else None
            | None => Some ST_NOT_ACKNOWLEDGED
            end
        end else status sv' i' e' c s)) as Hno.
    { intros Hb. destruct (decide ((sv', i', e', c) = (sv, i, e, cl))) as [Hk|Hk]; [|by rewrite bool_decide_false].
      rewrite (bool_decide_true (_ = (sv, i, e, cl))) by done. injection Hk as -> -> -> ->. unfold status. rewrite Ex.
      destruct (cs_clients_ x !! cl) as [st|] eqn:Es; [done|]. by destruct Hb as [->|[? ?]]. }
    destruct (decide (cs_major_ x = major)) as [Hmaj|Hmaj].
    2:{ rewrite bool_decide_true in H by done. injection H as <-. apply Hno. left. by rewrite bool_decide_false. }
    rewrite bool_decide_false in H by naive_solver. destruct (cs_is_selective_ x) eqn:Esel.
    2:{ injection H as <-. apply Hno. left. apply andb_false_r. }
    unfold cs_add_client in H. destruct (cs_clients_ x !! cl) as [st|] eqn:Es.
    { injection H as <-. apply Hno. by right. }
    apply st_bind_inv in H as ([]&s1&[= <-]&H). rewrite (send_subscription_status _ _ _ _ _ H), status_put.
    clear Hno H. case_bool_decide as Hk.
    + destruct Hk as (->&->&->). unfold status. rewrite Ex. unfold set_state. cbn [cs_set_clients cs_clients_].
      rewrite lookup_insert_eq. cbn [cs_set_clients cs_clients_]. case_bool_decide as Hc.
      * injection Hc as ->. rewrite Es, lookup_insert_eq, bool_decide_true, Esel by done. done.
      * rewrite !lookup_insert_ne by congruence. done.
    + rewrite bool_decide_false; [done|]. intros [= -> -> -> ->]. by apply Hk.
  - destruct (get_subscription_endpoints env sv i) as [r u] eqn:Eep.
    apply st_bind_inv in H as (x&s1&Ec&H).
    assert (cs_clients_ x = ∅ ∧ subscribed_ s1 = subscribed_ s) as [Hx Hs1].
    { unfold create_subscription in Ec. apply st_bind_inv in Ec as (sel&s2&E2&[= <- <-]). split.
      - by destruct r, u.
      - by apply leaves_in_host in E2. }
    unfold cs_add_client in H. rewrite Hx, lookup_empty in H.
    apply st_bind_inv in H as ([]&s2&[= <-]&H). rewrite (send_subscription_status _ _ _ _ _ H), status_put.
    clear H. case_bool_decide as Hk.
    + destruct Hk as (->&->&->). unfold status. rewrite Ex. unfold set_state. cbn [cs_set_clients cs_clients_].
      rewrite lookup_insert_eq. cbn [cs_set_clients cs_clients_]. case_bool_decide as Hc.
      * injection Hc as ->. by rewrite lookup_insert_eq.
      * rewrite !lookup_insert_ne by congruence. done.
    + rewrite bool_decide_false; [unfold status; by rewrite Hs1|]. intros [= -> -> -> ->]. by apply Hk.
Qed.

Lemma set_clients_self x : cs_set_clients (cs_clients_ x) x = x.
Proof. by destruct x. Qed.

(** A client that is added for the entry of a selective subscription is taken out again. *)
Lemma unsubscribe_at_put sv i e cl x m s a s' :
  unsubscribe_at env sv i e cl x m s = Ret (a, s') →
  ∃ y, cs_clients_ y = delete cl (cs_clients_ x) ∧
    subscribed_ s' = if bool_decide (cs_clients_ y = ∅) then erase_subscription sv i e (subscribed_ s)
                     else put_subscription sv i e y (subscribed_ s).
Proof.
  unfold unsubscribe_at, cs_remove_client. set (x1 := cs_set_clients (delete cl (cs_clients_ x)) x).
  destruct (if bool_decide _ then unsubscribe_object x1 else (true, x1)) as [is_real y] eqn:Ey.
  assert (cs_clients_ y = if is_real then delete cl (cs_clients_ x) else ∅) as Hy.
  { unfold unsubscribe_object in Ey. repeat case_match; simplify_eq; try done. }
  set (y1 := if cs_is_selective_ y then (cs_add_client cl y).2 else y). intros H.
  apply st_bind_inv in H as ([t y2]&s1&E1&H). apply st_bind_inv in H as (d&s2&E2&H).
  apply st_bind_inv in H as (m'&s3&E3&H).
  apply reliability_same in E1 as Hy2. apply leaves_reliability in E1. apply leaves_entry in E2.
  assert (subscribed_ s3 = subscribed_ s) as Hs3.
  { rewrite <- E1, <- E2. destruct (data_entry_ d); [|by injection E3 as _ <-].
    eapply leaves_bind in E3; [done|apply leaves_lift|]. intros [? ?]. apply leaves_ret. }
  set (y3 := if cs_is_selective_ y2 then _ else _) in H.
  assert (is_real = true → cs_clients_ y3 = delete cl (cs_clients_ x)) as Hy3.
  { intros ->. destruct Hy2 as (_&_&Hsel&Hcl&_). unfold y3. rewrite Hsel. unfold y1 in *.
    assert (cs_is_selective_ (if cs_is_selective_ y then (cs_add_client cl y).2 else y) = cs_is_selective_ y) as ->.
    { unfold cs_add_client. by repeat case_match. }
    destruct (cs_is_selective_ y); cbn.
    - rewrite Hcl. unfold cs_add_client. rewrite Hy, lookup_delete_eq. cbn.
      by rewrite delete_insert_eq, delete_delete_eq.
    - by rewrite Hcl. }
  exists (if is_real then y3 else x1).
  assert (cs_clients_ (if is_real then y3 else x1) = delete cl (cs_clients_ x)) as Hz by (destruct is_real; auto).
  split; [done|]. rewrite <- Hs3.
  apply st_bind_inv in H as ([]&s4&E4&[= _ <-]). unfold cs_has_client in E4.
  replace (if is_real then y3 else if is_real then y else x1) with (if is_real then y3 else x1) in E4 by by destruct is_real.
  set (z := if is_real then y3 else x1) in *. destruct (decide (cs_clients_ z = ∅)) as [He|He].
  - rewrite bool_decide_true by done. rewrite bool_decide_false in E4 by naive_solver. by injection E4 as <-.
  - rewrite bool_decide_false by done. rewrite bool_decide_true in E4 by done. by injection E4 as <-.
Qed.

Lemma unsubscribe_step sv i e cl s s' sv' i' e' c : unsubscribe env sv i e cl s = Ret ((), s') →
  status sv' i' e' c s' = next_state env (EvUnsubscribe sv i e cl) sv' i' e' c
                            (find_subscription sv' i' e' (subscribed_ s)).
Proof.
  intros H. unfold unsubscribe in H. apply st_bind_inv in H as (s0&s1&[= <- <-]&H).
  apply st_bind_inv in H as ([m a]&s1&E1&H). rewrite (status_leaves _ _ _ _ _ _ _ _ (leaves_send env [m] a) H). clear H.
  cbn [next_state]. fold (status sv' i' e' c s). destruct (find_subscription sv i e (subscribed_ s)) as [x|] eqn:Ex.
  - apply unsubscribe_at_put in E1 as (y&Hy&Hs1). unfold status. rewrite Hs1.
    destruct (decide ((sv', i', e') = (sv, i, e))) as [Hk|Hk].
    + injection Hk as -> -> ->. rewrite Ex. destruct (decide (c = cl)) as [->|Hc].
      * rewrite (bool_decide_true (_ = (sv, i, e, cl))) by done.
        destruct (decide (cs_clients_ y = ∅)) as [He|He]; [rewrite bool_decide_true, find_erase by done|rewrite bool_decide_false, find_put by done];
          rewrite bool_decide_true by done; [done|]. by rewrite Hy, lookup_delete_eq.
      * rewrite (bool_decide_false (_ = (sv, i, e, cl))) by congruence.
        destruct (decide (cs_clients_ y = ∅)) as [He|He]; [rewrite bool_decide_true, find_erase by done|rewrite bool_decide_false, find_put by done];
          rewrite bool_decide_true by done.
        -- rewrite <- (lookup_delete_ne (cs_clients_ x) cl c) by done. by rewrite <- Hy, He, lookup_empty.
        -- by rewrite Hy, lookup_delete_ne.
    + rewrite (bool_decide_false (_ = (sv, i, e, cl))) by congruence.
      case_bool_decide; [rewrite find_erase|rewrite find_put]; by rewrite bool_decide_false by naive_solver.
  - injection E1 as _ _ <-. case_bool_decide as Hk; [|done]. injection Hk as -> -> -> ->. unfold status. by rewrite Ex.
Qed.

Lemma unsubscribe_all_step sv i s s' sv' i' e' c : unsubscribe_all env sv i s = Ret ((), s') →
  status sv' i' e' c s' = next_state env (EvUnsubscribeAll sv i) sv' i' e' c
                            (find_subscription sv' i' e' (subscribed_ s)).
Proof.
  intros H. unfold unsubscribe_all in H. apply st_bind_inv in H as (s0&s1&[= <- <-]&H).
  apply st_bind_inv in H as ([m a]&s1&E1&H). rewrite (status_leaves _ _ _ _ _ _ _ _ (leaves_send env [m] a) H). clear H.
  cbn [next_state]. fold (status sv' i' e' c s). unfold status, find_subscription.
  destruct (find_eventgroups sv i (subscribed_ s)) as [gs|] eqn:Eg.
  - apply st_bind_inv in E1 as (r&s2&E2&E1). apply st_bind_inv in E1 as ([]&s3&[= <-]&[= _ <-]).
    apply leaves_for in E2; [|apply leaves_unsubscribe_entry]. cbn [subscribed_ sc_set_subscribed]. rewrite E2, find_put_eventgroups.
    do 2 case_bool_decide; naive_solver.
  - injection E1 as _ _ <-. case_bool_decide as Hk; [|done]. injection Hk as -> ->. by rewrite Eg.
Qed.

Lemma reset_step sv i s s' sv' i' e' c : reset_subscriptions sv i s = Ret ((), s') →
  status sv' i' e' c s' = next_state env (EvReset sv i) sv' i' e' c (find_subscription sv' i' e' (subscribed_ s)).
Proof.
  intros [= <-]. cbn [next_state]. unfold status, find_subscription.
  destruct (find_eventgroups sv i (subscribed_ s)) as [gs|] eqn:Eg; cbn [subscribed_ sc_set_subscribed].
  - rewrite find_put_eventgroups. destruct (decide (sv' = sv ∧ i' = i)) as [[-> ->]|Hk].
    2:{ by rewrite !bool_decide_false by naive_solver. }
    rewrite !bool_decide_true by done. rewrite Eg, lookup_fmap. destruct (gs !! e') as [x|]; [|done]. cbn [fmap option_fmap option_map].
    unfold reset_subscription. cbn [cs_set_endpoint cs_clients_]. by rewrite set_states_eq, <- lookup_fmap.
  - case_bool_decide as Hk; [|done]. injection Hk as -> ->. by rewrite Eg.
Qed.

(** A step of a loop over the eventgroups of an instance replaces one subscription. *)
Definition replaces (sv i : Z) (g : subscription → gmap Z client_state_e) (e : Z) (x : subscription) (s s' : sd_client) : Prop :=
  find_subscription sv i e (subscribed_ s) = Some x →
  ∃ y, cs_clients_ y = g x ∧ ∀ sv' i' e', find_subscription sv' i' e' (subscribed_ s') =
    if bool_decide (sv' = sv ∧ i' = i ∧ e' = e) then Some y else find_subscription sv' i' e' (subscribed_ s).

Lemma for_replaces {A} sv i g (f : Z → subscription → A → ST sd_client A) l acc s acc' s' :
  (∀ e x acc s acc' s', f e x acc s = Ret (acc', s') → replaces sv i g e x s s') →
  NoDup l.*1 → (∀ e x, (e, x) ∈ l → find_subscription sv i e (subscribed_ s) = Some x) →
  for_subscriptions f l acc s = Ret (acc', s') →
  ∀ sv' i' e' c, status sv' i' e' c s' =
    if bool_decide (sv' = sv ∧ i' = i ∧ e' ∈ l.*1)
    then match find_subscription sv' i' e' (subscribed_ s) with Some x => g x !! c | None => None end
    else status sv' i' e' c s.
Proof.
  intros Hf. revert acc s. induction l as [|[e x] l IH]; intros acc s Hl Hin H sv' i' e' c; cbn [for_subscriptions] in H.
  - injection H as _ <-. rewrite bool_decide_false; [done|]. intros (_&_&[]%elem_of_nil).
  - apply NoDup_cons in Hl as [He Hl]. apply st_bind_inv in H as (acc1&s1&E1&H).
    destruct (Hf _ _ _ _ _ _ E1) as (y&Hy&Hs1); [apply Hin; by left|]. cbn [fmap list_fmap].
    rewrite (IH acc1 s1 Hl); [|clear H|exact H].
    + unfold status. rewrite Hs1. destruct (decide (sv' = sv ∧ i' = i ∧ e' = e)) as [(->&->&->)|Hk].
      * rewrite (bool_decide_true (sv = sv ∧ i = i ∧ e = e)), (bool_decide_false (_ ∧ _ ∧ e ∈ l.*1)) by naive_solver.
        rewrite bool_decide_true by (split_and!; [done..|by left]). rewrite Hy, (Hin e x) by by left. done.
      * rewrite (bool_decide_false (sv' = sv ∧ i' = i ∧ e' = e)) by done.
        rewrite (bool_decide_ext _ (sv' = sv ∧ i' = i ∧ e' ∈ e :: l.*1)); [done|]. rewrite elem_of_cons. tauto.
    + intros e1 x1 H1. rewrite Hs1. rewrite bool_decide_false; [apply Hin; by right|]. intros (_&_&->).
      apply He. apply list_elem_of_fmap. by exists (e, x1).
Qed.

Lemma for_ordered {A} sv i g (f : Z → subscription → A → ST sd_client A) gs acc s acc' s' :
  (∀ e x acc s acc' s', f e x acc s = Ret (acc', s') → replaces sv i g e x s s') →
  find_eventgroups sv i (subscribed_ s) = Some gs → for_subscriptions f (ordered gs) acc s = Ret (acc', s') →
  ∀ sv' i' e' c, status sv' i' e' c s' =
    if bool_decide (sv' = sv ∧ i' = i)
    then match find_subscription sv' i' e' (subscribed_ s) with Some x => g x !! c | None => None end
    else status sv' i' e' c s.
Proof.
  intros Hf Hg H sv' i' e' c. rewrite (λ Hin, for_replaces sv i g f _ _ _ _ _ Hf (NoDup_ordered gs) Hin H).
  - destruct (decide (sv' = sv ∧ i' = i)) as [[-> ->]|Hk]; [|by rewrite !bool_decide_false by naive_solver].
    rewrite (bool_decide_true (sv = sv ∧ i = i)) by done. unfold status, find_subscription. rewrite Hg.
    case_bool_decide as Hin; [done|]. destruct (gs !! e') as [x|] eqn:E; [|done].
    exfalso. apply Hin. split_and!; [done..|]. apply list_elem_of_fmap. exists (e', x). by rewrite elem_of_ordered.
  - intros e x Hx%elem_of_ordered. unfold find_subscription. by rewrite Hg.
Qed.

Lemma resubscribe_one_replaces sv i e x ms s ms' s' : resubscribe_one env sv i e x ms s = Ret (ms', s') →
  replaces sv i (λ x, (λ _, ST_NOT_ACKNOWLEDGED) <$> cs_clients_ x) e x s s'.
Proof.
  intros H _. unfold resubscribe_one in H. destruct (get_subscription_endpoints env sv i) as [r u].
  apply st_bind_inv in H as ([t y]&s1&E1&H). apply st_bind_inv in H as (d&s2&E2&H).
  apply st_bind_inv in H as (ms1&s3&E3&H). apply st_bind_inv in H as ([]&s4&[= <-]&[= _ <-]).
  apply reliability_same in E1 as Hy. destruct Hy as (_&_&_&Hy&_). apply leaves_reliability in E1. apply leaves_entry in E2. apply leaves_lift in E3.
  eexists. split; [|intros sv' i' e'; cbn [subscribed_ sc_set_subscribed]; rewrite find_put; by rewrite E3, E2, E1].
  rewrite set_states_eq. cbn [cs_clients_ cs_set_clients]. rewrite Hy, set_states_eq. cbn [cs_clients_ cs_set_clients cs_set_endpoint].
  by rewrite <- map_fmap_compose.
Qed.

Lemma offered_step sv i sender s s' sv' i' e' c : sub_run env (EvOffered sv i sender) s = Ret ((), s') →
  status sv' i' e' c s' = next_state env (EvOffered sv i sender) sv' i' e' c
                            (find_subscription sv' i' e' (subscribed_ s)).
Proof.
  intros H. apply st_bind_inv in H as (ms&s1&E1&H).
  rewrite (status_leaves _ _ _ _ _ _ _ _ (leaves_send_resubscribes env ms sender) H). clear H.
  apply st_bind_inv in E1 as (s0&s2&[= <- <-]&E1). cbn [next_state]. fold (status sv' i' e' c s).
  destruct (find_eventgroups sv i (subscribed_ s)) as [gs|] eqn:Eg.
  - rewrite (for_ordered _ _ _ _ _ _ _ _ _ (resubscribe_one_replaces sv i) Eg E1).
    rewrite (bool_decide_ext ((sv', i') = (sv, i)) (sv' = sv ∧ i' = i)) by naive_solver. case_bool_decide; [|done].
    unfold status. destruct (find_subscription _ _ _ _); [|done]. by rewrite lookup_fmap.
  - injection E1 as _ <-. case_bool_decide as Hk; [|done]. injection Hk as -> ->.
    unfold status, find_subscription. by rewrite Eg.
Qed.

Lemma connected_one_replaces sv i ep e x acc s acc' s' : connected_one env sv i ep e x acc s = Ret (acc', s') →
  replaces sv i (λ x, if reconnects env ep x then (λ _, ST_NOT_ACKNOWLEDGED) <$> cs_clients_ x else cs_clients_ x) e x s s'.
Proof.
  destruct acc as [ms a]. intros H Hx. unfold connected_one in H. unfold reconnects.
  destruct (negb _ || negb _); cbn [andb].
  2:{ injection H as _ <-. exists x. split; [done|]. intros sv' i' e'. case_bool_decide as Hk; [|done]. by destruct Hk as (->&->&->). }
  assert (Hcl : cs_clients_ (mark_established env ep x) = cs_clients_ x).
  { unfold mark_established. by repeat case_match. }
  destruct (all_established (mark_established env ep x)).
  - destruct (get_subscription_endpoints env sv i) as [r u]. apply st_bind_inv in H as ([t y]&s1&E1&H).
    apply st_bind_inv in H as (d&s2&E2&H). apply st_bind_inv in H as (ms1&s3&E3&H).
    apply st_bind_inv in H as ([]&s4&[= <-]&[= _ <-]).
    apply reliability_same in E1 as Hy. destruct Hy as (_&_&_&Hy&_). apply leaves_reliability in E1. apply leaves_entry in E2. apply leaves_lift in E3.
    eexists. split; [|intros sv' i' e'; cbn [subscribed_ sc_set_subscribed]; rewrite find_put; by rewrite E3, E2, E1].
    rewrite Hy, set_states_eq. cbn [cs_clients_ cs_set_clients cs_set_endpoint]. by rewrite Hcl.
  - apply st_bind_inv in H as ([]&s1&[= <-]&[= _ <-]). eexists. split; [exact Hcl|].
    intros sv' i' e'. cbn [subscribed_ sc_set_subscribed]. by rewrite find_put.
Qed.

Lemma connected_step sv i ep s s' sv' i' e' c : on_endpoint_connected env sv i ep s = Ret ((), s') →
  status sv' i' e' c s' = next_state env (EvConnected sv i ep) sv' i' e' c
                            (find_subscription sv' i' e' (subscribed_ s)).
Proof.
  intros H. unfold on_endpoint_connected in H. apply st_bind_inv in H as (s0&s1&[= <- <-]&H).
  apply st_bind_inv in H as ([ms a]&s1&E1&H). rewrite (status_leaves _ _ _ _ _ _ _ _ (leaves_send env ms a) H). clear H.
  cbn [next_state]. fold (status sv' i' e' c s). destruct (find_eventgroups sv i (subscribed_ s)) as [gs|] eqn:Eg.
  - rewrite (for_ordered _ _ _ _ _ _ _ _ _ (connected_one_replaces sv i ep) Eg E1).
    rewrite (bool_decide_ext ((sv', i') = (sv, i)) (sv' = sv ∧ i' = i)) by naive_solver. case_bool_decide; [|done].
    unfold status. destruct (find_subscription _ _ _ _); [|done]. cbn [andb]. destruct (reconnects _ _ _); [|done].
    by rewrite lookup_fmap.
  - injection E1 as _ _ <-. case_bool_decide as Hk; [|done]. injection Hk as -> ->.
    unfold status, find_subscription. by rewrite Eg.
Qed.

Lemma put_id sv i e x m : find_subscription sv i e m = Some x → put_subscription sv i e x m = m.
Proof.
  unfold find_subscription, put_subscription, put_eventgroups. destruct (find_eventgroups sv i m) as [gs|] eqn:E; [|done].
  intros Hx. cbn [default]. rewrite (insert_id gs e x Hx). unfold find_eventgroups in E.
  destruct (m !! sv) as [insts|] eqn:Em; [|done]. cbn. by rewrite (insert_id insts i gs E), (insert_id m sv insts Em).
Qed.

Lemma put_put sv i e x y m : put_subscription sv i e y (put_subscription sv i e x m) = put_subscription sv i e y m.
Proof.
  unfold put_subscription. rewrite find_put_eventgroups, bool_decide_true by done. cbn [default].
  unfold put_eventgroups. rewrite lookup_insert_eq. cbn [default from_option id]. by rewrite !insert_insert_eq.
Qed.

(** The clients in [l] that wait for an acknowledgment get it. *)
Definition acknowledged (l : list Z) (x : subscription) : subscription :=
  cs_set_clients (map_imap (λ c st, Some (if bool_decide (c ∈ l ∧ st = ST_NOT_ACKNOWLEDGED) then ST_ACKNOWLEDGED else st))
                    (cs_clients_ x)) x.
Definition waiting (x : subscription) (c : Z) : Prop := get_state c x = ST_NOT_ACKNOWLEDGED.
#[local] Instance waiting_dec x c : Decision (waiting x c).
Proof. unfold waiting. apply _. Defined.

Lemma filter_waiting x y (l : list Z) : (∀ c, c ∈ l → waiting x c ↔ waiting y c) → filter (waiting x) l = filter (waiting y) l.
Proof.
  intros H. induction l as [|c l IH]; [done|]. rewrite !filter_cons. rewrite IH by (intros k Hk; apply H; by right).
  specialize (H c ltac:(by left)). destruct (decide (waiting x c)), (decide (waiting y c)); tauto.
Qed.

Lemma acknowledged_none l x : (∀ c, c ∈ l → ¬ waiting x c) → acknowledged l x = x.
Proof.
  intros Hl. unfold acknowledged. transitivity (cs_set_clients (cs_clients_ x) x); [|apply set_clients_self].
  f_equal. apply map_eq. intros k.
  rewrite map_lookup_imap. destruct (cs_clients_ x !! k) as [st|] eqn:E; cbn; [|done].
  rewrite bool_decide_false; [done|]. intros [Hk ->]. apply (Hl k Hk). unfold waiting, get_state. by rewrite E.
Qed.

Lemma ack_client_eq sv i e c x s : find_subscription sv i e (subscribed_ s) = Some x →
  ack_client env sv i e c s =
    if decide (waiting x c) then
      '(u, r) ← on_subscribe_ack (host_env env) c sv i e ANY_EVENT PENDING_SUBSCRIPTION_ID (sc_routing s);
      Ret (u, sc_set_routing r (sc_set_subscribed
        (put_subscription sv i e (set_state c ST_ACKNOWLEDGED x) (subscribed_ s)) s))
    else Ret ((), s).
Proof.
  intros Hx. unfold ack_client. st_run. rewrite Hx. unfold waiting. destruct (decide _) as [H|H].
  - rewrite bool_decide_true by done. unfold sc_put, in_host. st_run. cbn [sc_routing sc_set_subscribed].
    by destruct (on_subscribe_ack _ _ _ _ _ _ _ _) as [[? ?]| | |].
  - by rewrite bool_decide_false.
Qed.

Lemma ack_each sv i e l : ∀ x s, NoDup l → find_subscription sv i e (subscribed_ s) = Some x →
  for_each (ack_client env sv i e) l s =
    ('(u, r) ← for_each (λ c, on_subscribe_ack (host_env env) c sv i e ANY_EVENT PENDING_SUBSCRIPTION_ID)
                 (filter (waiting x) l) (sc_routing s);
     Ret (u, sc_set_routing r (sc_set_subscribed (put_subscription sv i e (acknowledged l x) (subscribed_ s)) s))).
Proof.
  induction l as [|c l IH]; intros x s Hl Hx; cbn [for_each].
  - rewrite filter_nil. cbn [for_each]. rewrite acknowledged_none by (intros c []%elem_of_nil). rewrite put_id by done. by destruct s.
  - apply NoDup_cons in Hl as [Hc Hl]. rewrite filter_cons.
    unfold mbind at 1, st_mbind. rewrite (ack_client_eq _ _ _ _ _ _ Hx).
    destruct (decide (waiting x c)) as [Hw|Hw].
    + unfold waiting in Hw. cbn [for_each].
      set (x1 := set_state c ST_ACKNOWLEDGED x).
      assert (filter (waiting x) l = filter (waiting x1) l) as ->.
      { apply filter_waiting. intros c' Hc'. unfold waiting, x1. rewrite set_state_clients. unfold get_state. cbn [cs_clients_ cs_set_clients].
        rewrite lookup_alter_ne by (intros ->; done). done. }
      assert (acknowledged (c :: l) x = acknowledged l x1) as ->.
      { unfold acknowledged, x1. rewrite set_state_clients. cbn [cs_set_clients cs_clients_]. unfold cs_set_clients. cbn. f_equal.
        apply map_eq. intros k. rewrite !map_lookup_imap. destruct (decide (k = c)) as [->|Hk].
        - rewrite lookup_alter_eq. unfold get_state in Hw. destruct (cs_clients_ x !! c) as [st|]; [|done]. cbn in *. subst st.
          rewrite bool_decide_true by (split; [by left|done]). by rewrite bool_decide_false by naive_solver.
        - rewrite lookup_alter_ne by done. destruct (cs_clients_ x !! k) as [c0|]; [|done]. cbn. f_equal.
          rewrite (bool_decide_ext (k ∈ c :: l ∧ _) (k ∈ l ∧ c0 = ST_NOT_ACKNOWLEDGED)); [done|]. rewrite elem_of_cons. naive_solver. }
      unfold mbind at 3, st_mbind. fold x1.
      destruct (on_subscribe_ack _ _ _ _ _ _ _ (sc_routing s)) as [[u r]| | |] eqn:Eh; try done.
      cbn [mbind outcome_mbind outcome_bind].
      rewrite (IH x1) by (done || (cbn [sc_set_routing sc_set_subscribed subscribed_]; rewrite find_put; by rewrite bool_decide_true)).
      cbn [sc_set_routing sc_routing sc_set_subscribed subscribed_]. rewrite put_put.
      destruct (for_each _ _ r) as [[? ?]| | |]; done.
    + assert (acknowledged (c :: l) x = acknowledged l x) as ->.
      { unfold acknowledged. f_equal. apply map_eq. intros k. rewrite !map_lookup_imap.
        destruct (cs_clients_ x !! k) as [st|] eqn:Ek; [|done]. cbn. f_equal.
        rewrite (bool_decide_ext (k ∈ c :: l ∧ _) (k ∈ l ∧ st = ST_NOT_ACKNOWLEDGED)); [done|].
        rewrite elem_of_cons. split; [|tauto]. intros [[->|] ->]; [|done]. destruct Hw. unfold waiting, get_state. by rewrite Ek. }
      by apply IH.
Qed.

Lemma NoDup_client_list (cs : gset Z) : NoDup (client_list cs).
Proof. unfold client_list. rewrite merge_sort_Permutation. apply NoDup_elements. Qed.
Lemma elem_of_client_list (cs : gset Z) c : c ∈ client_list cs ↔ c ∈ cs.
Proof. unfold client_list. by rewrite merge_sort_Permutation, elem_of_elements. Qed.

(** An acknowledgment of [_clients] for a known subscription: the routing manager is told of
    every client that waits for it, in order, and of no other one, and these clients are
    acknowledged then. *)
Lemma handle_ack_eq sv i e cs sender a p x s : find_subscription sv i e (subscribed_ s) = Some x →
  handle_eventgroup_subscription_ack env sv i e cs sender a p s =
    ('(u, r) ← for_each (λ c, on_subscribe_ack (host_env env) c sv i e ANY_EVENT PENDING_SUBSCRIPTION_ID)
                 (filter (waiting x) (client_list cs)) (sc_routing s);
     let s' := sc_set_routing r (sc_set_subscribed
       (put_subscription sv i e (acknowledged (client_list cs) x) (subscribed_ s)) s) in
     Ret (u, if is_multicast (host_env env) a then sc_add_call (OnSubscribeAckWithMulticast sv i sender a p) s' else s')).
Proof.
  intros Hx. unfold handle_eventgroup_subscription_ack.
  rewrite (st_bind_Ret _ _ _ _ _ (eq_refl : st_get s = Ret (s, s))), Hx.
  unfold mbind at 1, st_mbind. rewrite (ack_each _ _ _ _ _ _ (NoDup_client_list cs) Hx).
  destruct (for_each _ _ (sc_routing s)) as [[[] r]| | |]; try done. cbn [mbind outcome_mbind outcome_bind].
  by destruct (is_multicast (host_env env) a).
Qed.

Lemma ack_step sv i e cs sender a p s s' sv' i' e' c :
  handle_eventgroup_subscription_ack env sv i e cs sender a p s = Ret ((), s') →
  status sv' i' e' c s' = next_state env (EvAck sv i e cs sender a p) sv' i' e' c
                            (find_subscription sv' i' e' (subscribed_ s)).
Proof.
  intros H. cbn [next_state]. fold (status sv' i' e' c s).
  destruct (find_subscription sv i e (subscribed_ s)) as [x|] eqn:Ex.
  - rewrite (handle_ack_eq _ _ _ _ _ _ _ _ _ Ex) in H. apply outcome_bind_inv in H as ([u r]&_&H).
    assert (subscribed_ s' = put_subscription sv i e (acknowledged (client_list cs) x) (subscribed_ s)) as Hs'.
    { destruct (is_multicast _ _); by injection H as _ <-. }
    unfold status. rewrite Hs', find_put. destruct (decide (sv' = sv ∧ i' = i ∧ e' = e)) as [(->&->&->)|Hk].
    + rewrite (bool_decide_true (sv = sv ∧ _)) by done. rewrite Ex. unfold acknowledged. cbn [cs_clients_ cs_set_clients].
      rewrite map_lookup_imap. destruct (cs_clients_ x !! c) as [st|]; cbn.
      * rewrite (bool_decide_ext ((sv, i, e) = (sv, i, e) ∧ c ∈ cs ∧ Some st = Some ST_NOT_ACKNOWLEDGED)
          (c ∈ client_list cs ∧ st = ST_NOT_ACKNOWLEDGED)); [by case_bool_decide|].
        rewrite elem_of_client_list. naive_solver.
      * by rewrite bool_decide_false by naive_solver.
    + rewrite (bool_decide_false (sv' = sv ∧ _)) by done. by rewrite bool_decide_false by naive_solver.
  - unfold handle_eventgroup_subscription_ack in H. apply st_bind_inv in H as (s0&s1&[= <- <-]&H). rewrite Ex in H.
    injection H as <-. case_bool_decide as Hk; [|done]. destruct Hk as ([= -> -> ->]&_&Hs). unfold status in Hs. by rewrite Ex in Hs.
Qed.

Lemma leaves_for_each {A} (f : A → ST sd_client ()) l : (∀ x, leaves (f x)) → leaves (for_each f l).
Proof. intros Hf. induction l as [|x l IH]; cbn [for_each]; [apply leaves_ret|]. by apply leaves_bind. Qed.

Lemma leaves_nack sv i e cs : leaves (handle_eventgroup_subscription_nack env sv i e cs).
Proof.
  unfold handle_eventgroup_subscription_nack. apply leaves_bind; [apply leaves_get|intros s].
  destruct (find_subscription _ _ _ _); [|apply leaves_ret]. apply leaves_bind; [|intros []; leaves_tac].
  apply leaves_for_each. intros c. apply leaves_in_host.
Qed.

(** Between the calls no client is in the middle of a renewal. *)
Definition settled (s : sd_client) : Prop := ∀ sv i e c st, status sv i e c s = Some st →
  st ∈ [ST_ACKNOWLEDGED; ST_NOT_ACKNOWLEDGED; ST_UNKNOWN].

Lemma next_state_settled ev sv i e c ox st : next_state env ev sv i e c ox = Some st →
  (∀ st, match ox with Some x => cs_clients_ x !! c | None => None end = Some st →
     st ∈ [ST_ACKNOWLEDGED; ST_NOT_ACKNOWLEDGED; ST_UNKNOWN]) →
  st ∈ [ST_ACKNOWLEDGED; ST_NOT_ACKNOWLEDGED; ST_UNKNOWN].
Proof.
  intros H Hs. unfold next_state in H. set (o := match ox with Some x => _ | None => _ end) in *. clearbody o.
  destruct ev; repeat case_match; simplify_eq; auto; try (by apply Hs);
    try (destruct o; simplify_eq/=); rewrite !elem_of_cons; auto.
Qed.

(** C18: the states of all clients of all subscriptions follow [next_state].  A client that
    subscribes waits for an acknowledgment, unless the eventgroup is already subscribed with
    another major version or without selection of clients; an acknowledgment reaches it only
    while it waits; an offer of the service, and a connection that completes the endpoints,
    make all clients of the instance wait again; a stopped offer makes their states unknown,
    so that acknowledgments are ignored; unsubscribing forgets them.  No other client
    changes, and between the calls no client is in the middle of a renewal. *)
Theorem subscription_states ev s s' : sub_run env ev s = Ret ((), s') →
  (∀ sv i e c, status sv i e c s' = next_state env ev sv i e c (find_subscription sv i e (subscribed_ s))) ∧
  (settled s → settled s').
Proof.
  intros H. assert (∀ sv i e c, status sv i e c s' =
    next_state env ev sv i e c (find_subscription sv i e (subscribed_ s))) as Hn.
  { intros sv i e c. destruct ev.
    - by apply subscribe_step.
    - by apply unsubscribe_step.
    - by apply unsubscribe_all_step.
    - by apply reset_step.
    - by apply offered_step.
    - by apply connected_step.
    - by apply ack_step.
    - cbn [next_state]. fold (status sv i e c s). by eapply status_leaves; [apply leaves_nack|]. }
  split; [done|]. intros Hs sv i e c st Hst. rewrite Hn in Hst. eapply next_state_settled; [exact Hst|].
  intros st' Hst'. apply (Hs sv i e c st'). exact Hst'.
Qed.

(** An acknowledgment is passed on once: for a subscription that is known, the routing
    manager is told of exactly the clients among the acknowledged ones that wait, in
    ascending order, they are acknowledged afterwards, and nothing else changes but for a
    multicast group that is joined; the same acknowledgment received again tells the
    routing manager nothing.  For an unknown subscription nothing happens. *)
Theorem acknowledgment_passed_on_once sv i e cs sender a p s :
  (∀ x, find_subscription sv i e (subscribed_ s) = Some x →
    handle_eventgroup_subscription_ack env sv i e cs sender a p s =
      ('(u, r) ← for_each (λ c, on_subscribe_ack (host_env env) c sv i e ANY_EVENT PENDING_SUBSCRIPTION_ID)
                   (filter (waiting x) (client_list cs)) (sc_routing s);
       let s' := sc_set_routing r (sc_set_subscribed
         (put_subscription sv i e (acknowledged (client_list cs) x) (subscribed_ s)) s) in
       Ret (u, if is_multicast (host_env env) a then sc_add_call (OnSubscribeAckWithMulticast sv i sender a p) s' else s')) ∧
    ∀ s', handle_eventgroup_subscription_ack env sv i e cs sender a p s = Ret ((), s') →
      handle_eventgroup_subscription_ack env sv i e cs sender a p s' =
        Ret ((), if is_multicast (host_env env) a then sc_add_call (OnSubscribeAckWithMulticast sv i sender a p) s' else s')) ∧
  (find_subscription sv i e (subscribed_ s) = None →
    handle_eventgroup_subscription_ack env sv i e cs sender a p s = Ret ((), s)).
Proof.
  split.
  - intros x Hx. split; [by apply handle_ack_eq|]. intros s' H. rewrite (handle_ack_eq _ _ _ _ _ _ _ _ _ Hx) in H.
    apply outcome_bind_inv in H as ([u r]&_&H). cbv zeta in H.
    set (y := acknowledged (client_list cs) x) in *.
    assert (subscribed_ s' = put_subscription sv i e y (subscribed_ s)) as Hs'.
    { destruct (is_multicast _ _); by injection H as _ <-. }
    assert (find_subscription sv i e (subscribed_ s') = Some y) as Hy by (rewrite Hs', find_put; by rewrite bool_decide_true).
    assert (∀ c, c ∈ client_list cs → ¬ waiting y c) as Hw.
    { intros c Hc. unfold waiting, get_state, y, acknowledged. cbn [cs_clients_ cs_set_clients]. rewrite map_lookup_imap.
      destruct (cs_clients_ x !! c) as [st|]; cbn; [|done]. case_bool_decide as Hk; [done|]. naive_solver. }
    rewrite (handle_ack_eq _ _ _ _ _ _ _ _ _ Hy).
    assert (filter (waiting y) (client_list cs) = []) as ->.
    { clearbody y. clear -Hw. induction (client_list cs) as [|c l IH]; [done|]. rewrite filter_cons, decide_False by (apply Hw; by left).
      apply IH. intros k Hk. apply Hw. by right. }
    cbn [for_each]. rewrite acknowledged_none, put_id by done.
    cbv beta iota zeta delta [mret st_mret mbind outcome_mbind outcome_bind]. by destruct s', (is_multicast _ a).
  - intros Hx. unfold handle_eventgroup_subscription_ack. st_run. by rewrite Hx.
Qed.
End steps.

(** ** Instances

    The clients 7 and 8 are subscribed to the eventgroup 0x10 through the endpoint 41; the
    answer for client 7 is missing. *)
Definition sample_sd_env : sd_env :=
  SdEnv sample_env 5 0 (λ a, bool_decide (a = 0)) (λ _, true) (λ a, [192; 168; 0; a])
    (λ _ _ reliable, if reliable then None else Some 41) (λ _, true) (λ _, 30501)
    (λ _, Some (Some 9)) (λ _, false) (λ _ _, true) 2000 Z.of_nat.
Definition sample_subscription : subscription :=
  ClientSubscription 1 3 None (Some 41) false true true
    {[7 := ST_NOT_ACKNOWLEDGED; 8 := ST_ACKNOWLEDGED]} (Some 100).
Definition sample_client : sd_client :=
  SdClient (sample_routing {[1 := 1]} 1) (RemoteOffers ∅ ∅) {[0x1111 := {[1 := {[0x10 := sample_subscription]}]}]}
    sample_net 0 [].

Lemma subscription_states_witness :
  ∃ s', sub_run sample_sd_env (EvAck 0x1111 1 0x10 {[7; 9]} 9 0 0) sample_client = Ret ((), s') ∧
    status 0x1111 1 0x10 7 s' = Some ST_ACKNOWLEDGED ∧ status 0x1111 1 0x10 9 s' = None.
Proof.
  destruct (sub_run sample_sd_env (EvAck 0x1111 1 0x10 {[7; 9]} 9 0 0) sample_client) as [[[] s']|e| |] eqn:E;
    [|by vm_compute in E..].
  exists s'. split; [done|].
  destruct (subscription_states sample_sd_env (EvAck 0x1111 1 0x10 {[7; 9]} 9 0 0) sample_client s' E) as [H _].
  rewrite !H. split; vm_compute; reflexivity.
Defined.

Lemma acknowledgment_passed_on_once_witness :
  ∃ s', handle_eventgroup_subscription_ack sample_sd_env 0x1111 1 0x10 {[7; 8]} 9 0 0 sample_client = Ret ((), s') ∧
    handle_eventgroup_subscription_ack sample_sd_env 0x1111 1 0x10 {[7; 8]} 9 0 0 s' =
      Ret ((), sc_add_call (OnSubscribeAckWithMulticast 0x1111 1 9 0 0) s').
Proof.
  destruct (acknowledgment_passed_on_once sample_sd_env 0x1111 1 0x10 {[7; 8]} 9 0 0 sample_client) as [H _].
  destruct (H sample_subscription ltac:(vm_compute; reflexivity)) as [_ H2].
  destruct (handle_eventgroup_subscription_ack sample_sd_env 0x1111 1 0x10 {[7; 8]} 9 0 0 sample_client) as [[[] s']|e| |] eqn:E;
    [|by vm_compute in E..].
  exists s'. split; [done|]. exact (H2 s' eq_refl).
Defined.
