(* ===== verification/SdRenewals.v ===== *)
(** What the subscriptions of this device send: the messages that an offer of a service makes
    the service discovery send to renew the subscriptions to it, and the entries of a new
    subscription. *)
From S2P Require Import Prelude ByteOrder Streams Message SdOptions SdEntries SdMessage.
From S2P Require Import ServiceInfo SdSessions SdAssembly SdOffers Event RemoteSubscription Eventgroups SdRemoteOffers.
From S2P Require Import SdSubscriptions.

(** ** What is sent *)

Section sending.
  Context (env : sd_env).

(** The addresses of options differ, ports have sixteen bits, and the address of this device
    has four or sixteen bytes. *)
Definition env_ok : Prop :=
  Inj (=) (=) (alloc env) ∧ (∀ e, is_u16 (get_local_port env e)) ∧
  bytes (address_bytes env (unicast_ env)) ∧
  length (address_bytes env (unicast_ env)) = (if is_v4 env (unicast_ env) then 4 else 16)%nat.

Definition sc_set_next_option (n : nat) (s : sd_client) : sd_client :=
  SdClient (sc_routing s) (sc_offers s) (subscribed_ s) (sc_net s) n (sc_calls s).

(** The endpoint options of a subscription with the reliability [t], if its endpoints exist
    and have ports. *)
Definition endpoint_opt (insert : bool) (ep : option Z) (r : bool) : option (list option_impl) :=
  match (if insert then ep else None) with
  | Some e => if bool_decide (get_local_port env e ≠ 0)
              then Some [create_ip_option_at env (unicast_ env) (get_local_port env e) r] else None
  | None => Some []
  end.
Definition endpoint_opts (t : reliability_type_e) (x : subscription) : option (list option_impl) :=
  let '(ir, iu) := inserted t x in
  if negb ir && negb iu then None
  else l ← endpoint_opt ir (cs_get_endpoint true x) true; l' ← endpoint_opt iu (cs_get_endpoint false x) false; Some (l ++ l').
Definition selective_opts (x : subscription) : list option_impl :=
  if cs_is_selective_ x
  then [SelectiveOption (set_clients (cs_get_clients x) (OptionBase 1 SELECTIVE)).1 (cs_get_clients x)] else [].

(** The entries of a subscription: a stop entry comes first while a renewal is not
    acknowledged. *)
Definition subscription_entries (sv i e : Z) (x : subscription) : list entry_impl :=
  (if is_resubscribing x then [subscribe_entry sv i e (cs_major_ x) 0] else [])
  ++ [subscribe_entry sv i e (cs_major_ x) (cs_ttl_ x)].

Lemma allocated_app n l l' : allocated (alloc env) n (l ++ l') =
  allocated (alloc env) n l ++ allocated (alloc env) (length l + n) l'.
Proof. revert n. induction l as [|o l IH]; intros n; cbn; [done|]. by rewrite IH, Nat.add_succ_r. Qed.

Lemma endpoint_option_eq insert ep r s : ∃ n, (sc_next_option s ≤ n)%nat ∧
  endpoint_option env insert ep r s =
    Ret (allocated (alloc env) (sc_next_option s) <$> endpoint_opt insert ep r, sc_set_next_option n s) ∧
  (∀ l, endpoint_opt insert ep r = Some l → n = (length l + sc_next_option s)%nat).
Proof.
  unfold endpoint_option, endpoint_opt. destruct (if insert then ep else None) as [e|].
  - case_bool_decide.
    + exists (S (sc_next_option s)). split; [lia|]. split; [by destruct s|]. by intros l [= <-].
    + exists (sc_next_option s). split; [lia|]. split; [by destruct s|done].
  - exists (sc_next_option s). split; [lia|]. split; [by destruct s|]. by intros l [= <-].
Qed.

(** What [create_eventgroup_entry] makes: the entries of the subscription and their options
    at new addresses, if the endpoints have ports. *)
Lemma create_entry_spec sv i e x t s : ∃ d n,
  create_eventgroup_entry env sv i e x t s = Ret (d, sc_set_next_option n s) ∧ (sc_next_option s ≤ n)%nat ∧
  match endpoint_opts t x with
  | Some l =>
      n = (length (l ++ selective_opts x) + sc_next_option s)%nat ∧
      data_options_ d = allocated (alloc env) (sc_next_option s) (l ++ selective_opts x) ∧
      ∃ first, data_entry_ d = Some first ∧ first :: option_list (data_other_ d) = subscription_entries sv i e x
  | None => data_entry_ d = None
  end.
Proof.
  unfold create_eventgroup_entry, endpoint_opts. destruct (inserted t x) as [ir iu].
  destruct (negb ir && negb iu).
  { exists (EntryData None None []), (sc_next_option s). by destruct s. }
  destruct (endpoint_option_eq ir (cs_get_endpoint true x) true s) as (n1&Hn1&E1&H1).
  rewrite (st_bind_Ret _ _ _ _ _ E1). destruct (endpoint_opt ir _ true) as [l1|]; cbn [fmap option_fmap option_map mbind option_bind].
  2:{ by exists (EntryData None None []), n1. }
  specialize (H1 l1 eq_refl). set (s1 := sc_set_next_option n1 s).
  destruct (endpoint_option_eq iu (cs_get_endpoint false x) false s1) as (n2&Hn2&E2&H2).
  rewrite (st_bind_Ret _ _ _ _ _ E2). destruct (endpoint_opt iu _ false) as [l2|]; cbn [fmap option_fmap option_map].
  2:{ exists (EntryData None None (allocated (alloc env) (sc_next_option s) l1)), n2. split; [done|]. cbn in Hn2. split; [lia|done]. }
  specialize (H2 l2 eq_refl). cbn [s1 sc_set_next_option sc_next_option] in H2.
  unfold selective_opts. set (s2 := sc_set_next_option n2 s1).
  assert (∃ n3, (if cs_is_selective_ x then
       let '(b, c) := set_clients (cs_get_clients x) (OptionBase 1 SELECTIVE) in
       o ← sc_new_option env (SelectiveOption b c); mret [o] else mret []) s2 =
       Ret (allocated (alloc env) n2 (selective_opts x), sc_set_next_option n3 s) ∧ n3 = (length (selective_opts x) + n2)%nat)
    as (n3&E3&H3).
  { unfold selective_opts. destruct (cs_is_selective_ x); by eexists. }
  rewrite (st_bind_Ret _ _ _ _ _ E3). fold (selective_opts x).
  exists (if is_resubscribing x
    then EntryData (Some (subscribe_entry sv i e (cs_major_ x) 0)) (Some (subscribe_entry sv i e (cs_major_ x) (cs_ttl_ x)))
           (allocated (alloc env) (sc_next_option s) ((l1 ++ l2) ++ selective_opts x))
    else EntryData (Some (subscribe_entry sv i e (cs_major_ x) (cs_ttl_ x))) None
           (allocated (alloc env) (sc_next_option s) ((l1 ++ l2) ++ selective_opts x))), n3.
  split; [|split; [lia|]].
  - cbn [s1 sc_set_next_option sc_next_option]. rewrite <- app_assoc, !allocated_app, H2, H1. by destruct (is_resubscribing x).
  - cbn [mbind option_bind]. rewrite !length_app. split; [lia|]. unfold subscription_entries.
    destruct (is_resubscribing x); cbn [data_options_ data_entry_ data_other_]; (split; [done|]); by eexists.
Qed.

(** The clients of a selective subscription have sixteen bits, and their option fits a
    message. *)
Definition clients_ok (x : subscription) : Prop :=
  cs_is_selective_ x = true → set_Forall is_u16 (cs_get_clients x) ∧ (size (cs_get_clients x) ≤ 600)%nat.

Lemma endpoint_opt_good insert ep r l p : env_ok → endpoint_opt insert ep r = Some l →
  (length l ≤ 1)%nat ∧ Forall (λ o, opt_good (p, o) ∧ option_size (p, o) ≤ 24) l.
Proof.
  intros (_&Hport&Hb&Hl). unfold endpoint_opt. destruct (if insert then ep else None) as [e|].
  - case_bool_decide; [|done]. intros [= <-]. split; [done|]. constructor; [|constructor]. unfold create_ip_option_at.
    split; [by apply ip_option_good|apply ip_option_size].
  - intros [= <-]. split; [cbn; lia|constructor].
Qed.

Lemma subscription_options_fresh n t x l : env_ok → clients_ok x → endpoint_opts t x = Some l →
  fresh_options (alloc env) n (length (l ++ selective_opts x) + n)
    (allocated (alloc env) n (l ++ selective_opts x)).
Proof.
  intros He Hx Hl. pose proof He as [Hinj _]. unfold endpoint_opts in Hl. destruct (inserted t x) as [ir iu].
  destruct (negb ir && negb iu); [done|].
  apply bind_Some in Hl as (l1&H1&Hl). apply bind_Some in Hl as (l2&H2&[= <-]).
  assert (∀ n l, (∀ p, Forall (λ o, opt_good (p, o) ∧ option_size (p, o) ≤ 24) l) →
    options_size (allocated (alloc env) n l) ≤ 24 * Z.of_nat (length l)) as Hsz.
  { clear. intros n l H. revert n. induction l as [|o l IH]; intros n; [done|]. cbn [allocated options_size foldr length].
    fold (options_size (allocated (alloc env) (S n) l)).
    specialize (IH ltac:(intros p; specialize (H p); by apply Forall_cons_1 in H as [_ H]) (S n)).
    specialize (H (alloc env n)). apply Forall_cons_1 in H as [[_ H] _]. lia. }
  assert (∀ p, Forall (λ o, opt_good (p, o) ∧ option_size (p, o) ≤ 24) (l1 ++ l2)) as Hg.
  { intros p. apply Forall_app. split; eapply endpoint_opt_good; eauto. }
  destruct (endpoint_opt_good _ _ _ _ 0 He H1) as [Hl1 _], (endpoint_opt_good _ _ _ _ 0 He H2) as [Hl2 _].
  assert ((length (selective_opts x) ≤ 1)%nat ∧ ∀ p, Forall (λ o, opt_good (p, o) ∧ option_size (p, o) ≤ 1204) (selective_opts x)) as [Hsl Hs].
  { unfold selective_opts. destruct (cs_is_selective_ x) eqn:Es; [|split; [cbn; lia|constructor]].
    destruct (Hx Es) as [Hc Hn]. split; [done|]. intros p. constructor; [|constructor].
    by apply selective_option_good. }
  apply allocated_fresh; [done| | |].
  - rewrite !length_app. lia.
  - intros p. apply Forall_app. split; (eapply Forall_impl; [first [apply Hg|apply Hs]|]); by intros o [].
  - rewrite allocated_app, options_size_app. specialize (Hsz n (l1 ++ l2) Hg). rewrite length_app in Hsz.
    unfold selective_opts in *. destruct (cs_is_selective_ x); cbn [allocated options_size foldr].
    + specialize (Hs (alloc env (length (l1 ++ l2) + n))). apply Forall_cons_1 in Hs as [[_ Hs] _]. lia.
    + lia.
Qed.

Lemma subscribe_entry_new sv i e major ttl : new_entry (subscribe_entry sv i e major ttl).
Proof.
  split; [split_and!; [by exists 0|by exists 0|done|done]|]. intros k Hk. by apply elem_of_nil in Hk.
Qed.

(** The entries of a subscription into the messages. *)
Lemma add_subscription_spec sv i e x t l ms s : env_ok → clients_ok x → endpoint_opts t x = Some l →
  ms ≠ [] → Forall (msg_ok (alloc env) (sc_next_option s)) ms →
  ∃ d n ms', create_eventgroup_entry env sv i e x t s = Ret (d, sc_set_next_option n s) ∧ (sc_next_option s ≤ n)%nat ∧
    is_Some (data_entry_ d) ∧ add_data ms d = Ret ms' ∧ ms' ≠ [] ∧ Forall (msg_ok (alloc env) n) ms' ∧
    bodies ms' = bodies ms ++ (entry_body <$> subscription_entries sv i e x) ∧ (Forall equipped ms → Forall equipped ms').
Proof.
  intros He Hx Hl Hne Hms. destruct (create_entry_spec sv i e x t s) as (d&n&E&Hn&Hd). rewrite Hl in Hd.
  destruct Hd as (Hn'&Ho&first&Hf&Hes). pose proof (subscription_options_fresh (sc_next_option s) t x l He Hx Hl) as Hfr.
  rewrite <- Hn', <- Ho in Hfr. pose proof He as [Hinj _].
  destruct (sd_add_new_entry (alloc env) Hinj _ _ first (data_options_ d) (data_other_ d) ms Hne Hms Hfr) as (ms'&Ea&?&?&Hb&Heq).
  - unfold subscription_entries in Hes. destruct (is_resubscribing x); injection Hes as -> _; apply subscribe_entry_new.
  - intros y Hy. rewrite Hy in Hes. unfold subscription_entries in Hes.
    destruct (is_resubscribing x); cbn in Hes; [|done]. injection Hes as _ ->. apply subscribe_entry_new.
  - exists d, n, ms'. rewrite Hf. split_and!; try done; [by unfold add_data; rewrite Hf|by rewrite Hb, Hes|].
    apply Heq. rewrite Ho. intros E0. apply (f_equal length) in E0. rewrite length_allocated, length_app in E0.
    assert (l ≠ []) as Hl0; [|destruct l; [done|cbn in E0; lia]].
    unfold endpoint_opts, inserted, endpoint_opt, cs_get_endpoint in Hl.
    destruct t, (cs_reliable_ x), (cs_unreliable_ x); cbn in Hl; repeat case_bool_decide; cbn in Hl; try done; by injection Hl as <-.
Qed.

(** ** Reliability *)

(** The reliability that is found for a subscription whose eventgroup exists. *)
Definition known_reliability (sv i : Z) (x : subscription) (s : sd_client) : option reliability_type_e :=
  match lock_info x (sc_routing s) with
  | Some g => info ← r_groups (sc_routing s) !! g;
      Some (if bool_decide (eg_reliability_ info = RT_UNKNOWN) && eg_reliability_auto_mode_ info
            then offer_reliability (get_remote_offer_type sv i (sc_offers s)) else eg_reliability_ info)
  | None => None
  end.

(** The states differ at most in the routing manager. *)
Definition same_but_host (s s' : sd_client) : Prop := s' = sc_set_routing (sc_routing s') s.

Lemma reliability_spec sv i e x s t : known_reliability sv i x s = Some t →
  ∃ s', get_eventgroup_reliability env sv i e x s = Ret ((t, x), s') ∧ same_but_host s s' ∧
    ∀ y, known_reliability sv i y s' = known_reliability sv i y s.
Proof.
  unfold known_reliability, get_eventgroup_reliability. intros H.
  rewrite (st_bind_Ret _ _ _ _ _ (eq_refl : st_get s = Ret (s, s))).
  destruct (lock_info x (sc_routing s)) as [g|] eqn:El; [|done].
  apply bind_Some in H as (info&Hg&[= <-]).
  assert (E : in_host (the_group g) s = Ret (info, s)).
  { unfold in_host, the_group. st_run. rewrite Hg. by destruct s. }
  rewrite (st_bind_Ret _ _ _ _ _ E). destruct (bool_decide _ && _) eqn:Eb.
  - eexists. split; [done|]. split; [done|]. intros y. cbn [sc_set_routing sc_routing sc_offers].
    set (rt := offer_reliability _). apply andb_prop in Eb as [Eu Ea]. apply bool_decide_eq_true in Eu.
    assert (lock_info y (r_with_groups (alter (eg_with_reliability rt) g (r_groups (sc_routing s))) (sc_routing s)) =
      lock_info y (sc_routing s)) as ->.
    { unfold lock_info. destruct (cs_eg_info_ y) as [h|]; [|done]. cbn [mbind option_bind r_with_groups r_groups].
      rewrite (bool_decide_ext _ (is_Some (r_groups (sc_routing s) !! h))); [done|].
      destruct (decide (h = g)) as [->|Hh]; [|by rewrite lookup_alter_ne]. by rewrite lookup_alter_eq, Hg. }
    destruct (lock_info y (sc_routing s)) as [h|]; [|done]. cbn [r_with_groups r_groups].
    destruct (decide (h = g)) as [->|Hh]; [|by rewrite lookup_alter_ne].
    rewrite lookup_alter_eq, Hg. cbn [fmap option_fmap option_map mbind option_bind eg_with_reliability eg_reliability_ eg_reliability_auto_mode_].
    rewrite Eu, Ea, (bool_decide_true (RT_UNKNOWN = RT_UNKNOWN)) by done. cbn [andb]. case_bool_decide as Hrt; [by rewrite Hrt|done].
  - exists s. by destruct s.
Qed.

(** ** Renewal *)

(** A subscription as its renewal is sent. *)
Definition renewed (sv i : Z) (x : subscription) : subscription :=
  let '(r, u) := get_subscription_endpoints env sv i in
  set_states resubscribing (cs_set_endpoint u false (cs_set_endpoint r true x)).

(** What a renewal sends for one subscription: one entry that subscribes and, before it, one
    that stops the subscription if the answer for some client is missing. *)
Definition renewal_entries (sv i e : Z) (x : subscription) : list entry_impl :=
  (if bool_decide (map_Forall (λ _ st, st = ST_ACKNOWLEDGED) (cs_clients_ x)) then []
   else [subscribe_entry sv i e (cs_major_ x) 0])
  ++ [subscribe_entry sv i e (cs_major_ x) (cs_ttl_ x)].

(** The eventgroup of the subscription is known, and the endpoints that its reliability asks
    for exist and have ports. *)
Definition renewable (sv i : Z) (s : sd_client) (x : subscription) : Prop :=
  clients_ok x ∧ ∃ t l, known_reliability sv i x s = Some t ∧ endpoint_opts t (renewed sv i x) = Some l.

Lemma renewed_entries sv i e x : subscription_entries sv i e (renewed sv i x) = renewal_entries sv i e x.
Proof.
  unfold renewed. destruct (get_subscription_endpoints env sv i) as [r u]. rewrite set_states_eq.
  unfold subscription_entries, renewal_entries. cbn [cs_set_clients cs_set_endpoint cs_major_ cs_ttl_].
  f_equal. set (y := cs_set_clients _ _).
  assert (is_resubscribing y = negb (bool_decide (map_Forall (λ _ st, st = ST_ACKNOWLEDGED) (cs_clients_ x)))) as ->;
    [|by destruct (bool_decide _)].
  apply eq_true_iff_eq. rewrite negb_true_iff, bool_decide_eq_false. unfold is_resubscribing. rewrite existsb_exists.
  assert (∀ c, c ∈ client_list (cs_get_clients y) ↔ is_Some (cs_clients_ x !! c)) as Hd.
  { intros c. rewrite elem_of_client_list. unfold cs_get_clients, y. cbn [cs_clients_ cs_set_clients].
    by rewrite dom_fmap, elem_of_dom. }
  setoid_rewrite bool_decide_eq_true. setoid_rewrite <- list_elem_of_In. setoid_rewrite Hd.
  assert (∀ c, get_state c y = default ST_UNKNOWN (resubscribing <$> cs_clients_ x !! c)) as Hy.
  { intros c. unfold get_state, y. cbn [cs_clients_ cs_set_clients]. by rewrite lookup_fmap. }
  setoid_rewrite Hy. split.
  - intros (c&[st Hst]&Hc) H. specialize (H c st Hst). rewrite Hst, H in Hc. done.
  - intros (c&st&Hst&Hs)%map_not_Forall; [|intros ? ?; apply _]. exists c. rewrite Hst. split; [by eexists|]. by destruct st.
Qed.

Lemma renewed_frame sv i x : cs_eg_info_ (renewed sv i x) = cs_eg_info_ x ∧
  cs_is_selective_ (renewed sv i x) = cs_is_selective_ x ∧ cs_get_clients (renewed sv i x) = cs_get_clients x.
Proof.
  unfold renewed. destruct (get_subscription_endpoints env sv i) as [r u]. rewrite set_states_eq.
  unfold cs_get_clients. cbn. by rewrite dom_fmap_L.
Qed.

Lemma known_reliability_info sv i x y s : cs_eg_info_ x = cs_eg_info_ y →
  known_reliability sv i x s = known_reliability sv i y s.
Proof. intros H. unfold known_reliability, lock_info. by rewrite H. Qed.

(** What the loop over the subscriptions leaves alone. *)
Definition renewing (s s' : sd_client) : Prop :=
  sc_net s' = sc_net s ∧ sc_calls s' = sc_calls s ∧ (sc_next_option s ≤ sc_next_option s')%nat.

(** One subscription: its entries are added to the messages. *)
Lemma resubscribe_one_spec sv i e x ms s : env_ok → renewable sv i s x → ms ≠ [] →
  Forall (msg_ok (alloc env) (sc_next_option s)) ms → Forall equipped ms →
  ∃ ms' s', resubscribe_one env sv i e x ms s = Ret (ms', s') ∧ renewing s s' ∧ ms' ≠ [] ∧
    Forall (msg_ok (alloc env) (sc_next_option s')) ms' ∧ Forall equipped ms' ∧
    bodies ms' = bodies ms ++ (entry_body <$> renewal_entries sv i e x) ∧
    (∀ y, renewable sv i s y → renewable sv i s' y).
Proof.
  intros He (Hc&t&l&Ht&Hl) Hne Hms Heq. destruct (renewed_frame sv i x) as (Hi&Hsel&Hcl).
  assert (clients_ok (renewed sv i x)) as Hc' by (unfold clients_ok; by rewrite Hsel, Hcl).
  rewrite <- (known_reliability_info sv i (renewed sv i x)) in Ht by done.
  destruct (reliability_spec sv i e _ s t Ht) as (s1&E1&Hs1&Hk). unfold same_but_host in Hs1.
  assert (sc_next_option s1 = sc_next_option s) as Hn1 by (rewrite Hs1; reflexivity).
  rewrite <- Hn1 in Hms.
  destruct (add_subscription_spec sv i e (renewed sv i x) t l ms s1 He Hc' Hl Hne Hms) as (d&n&ms'&E2&Hn&_&E3&Hne'&Hms'&Hb&Heq').
  unfold resubscribe_one. unfold renewed in E1, E2. destruct (get_subscription_endpoints env sv i) as [r u] eqn:Eg.
  set (y := set_states _ _) in *. eexists ms', _. split.
  { rewrite (st_bind_Ret _ _ _ _ _ E1), (st_bind_Ret _ _ _ _ _ E2).
    rewrite (st_bind_Ret (st_lift (add_data ms d)) _ _ ms' (sc_set_next_option n s1)) by (unfold st_lift; by rewrite E3). done. }
  assert (sc_net s1 = sc_net s ∧ sc_calls s1 = sc_calls s) as [Hnet Hcalls] by by rewrite Hs1.
  rewrite <- (renewed_entries sv i e x). unfold renewing.
  cbn [sc_set_subscribed sc_set_next_option sc_net sc_calls sc_next_option].
  split_and!; try done; [lia|by apply Heq'|].
  intros z (Hz&tz&lz&Hkz&Hlz). split; [done|]. exists tz, lz. split; [|done]. exact (eq_trans (Hk z) Hkz).
Qed.

Lemma resubscribe_loop sv i l : ∀ ms s, env_ok → Forall (λ p, renewable sv i s p.2) l → ms ≠ [] →
  Forall (msg_ok (alloc env) (sc_next_option s)) ms → Forall equipped ms →
  ∃ ms' s', for_subscriptions (resubscribe_one env sv i) l ms s = Ret (ms', s') ∧ renewing s s' ∧
    Forall (msg_ok (alloc env) (sc_next_option s')) ms' ∧ Forall equipped ms' ∧
    bodies ms' = bodies ms ++ (entry_body <$> (l ≫= λ p, renewal_entries sv i p.1 p.2)).
Proof.
  induction l as [|[e x] l IH]; intros ms s He Hl Hne Hms Heq; cbn [for_subscriptions].
  { exists ms, s. rewrite app_nil_r. by split_and!. }
  apply Forall_cons_1 in Hl as [Hx Hl].
  destruct (resubscribe_one_spec sv i e x ms s He Hx Hne Hms Heq) as (ms1&s1&E1&Hr1&Hne1&Hms1&Heq1&Hb1&Hk).
  destruct (IH ms1 s1 He) as (ms2&s2&E2&Hr2&Hms2&Heq2&Hb2); [|done..|].
  { eapply Forall_impl; [exact Hl|]. intros p. apply Hk. }
  exists ms2, s2. rewrite (st_bind_Ret _ _ _ _ _ E1). split_and!; try done.
  - destruct Hr1 as (?&?&?), Hr2 as (?&?&?). split_and!; [congruence..|lia].
  - rewrite Hb2, Hb1, bind_cons, fmap_app, app_assoc. done.
Qed.

(** ** What is sent to the device that offers *)

Lemma has_entry_true m : entries_ m ≠ [] → has_entry m = true.
Proof. intros H. unfold has_entry. apply bool_decide_eq_true. destruct (entries_ m); [done|cbn; lia]. Qed.
Lemma has_option_true m : options_ m ≠ [] → has_option m = true.
Proof. intros H. unfold has_option. apply bool_decide_eq_true. destruct (options_ m); [done|cbn; lia]. Qed.

Lemma bodies_filter (P : sd_message → Prop) `{∀ m, Decision (P m)} ms :
  (∀ m, m ∈ ms → ¬ P m → entries_ m = []) → bodies (filter P ms) = bodies ms.
Proof.
  induction ms as [|m ms IH]; intros Hm; [done|]. rewrite filter_cons.
  assert (bodies (filter P ms) = bodies ms) as E by (apply IH; intros x Hx; apply Hm; by right).
  unfold bodies in *. destruct (decide (P m)) as [Hp|Hp].
  - by rewrite !fmap_cons, !join_cons, E.
  - rewrite E, fmap_cons, join_cons, (Hm m) by (by left || done). done.
Qed.

Lemma bodies_sent ms : bodies (filter (λ m, has_entry m = true) ms) = bodies ms.
Proof. apply bodies_filter. intros m _ Hn. apply dec_stable. intros He. apply Hn. by apply has_entry_true. Qed.

(** C11: an offer renews the subscriptions: when the offer of a service is received by
    multicast from a device with an address, and every subscription to the instance can be
    renewed (its eventgroup is known, the endpoints that its reliability asks for exist and
    have ports, and it selects at most 600 clients), then all of them are sent to the
    device that offers, in the order of their eventgroups, spread over as many messages as
    they need and none left out. Each is one entry that subscribes, preceded by one that
    stops the subscription, if the last answer for some client is missing. A subscription
    whose eventgroup is not known or whose endpoint has no port is left out by the code;
    such states are not covered. *)
Theorem offer_renews_subscriptions sv i sender s gs : env_ok → is_unspecified env sender = false →
  ser_data_ (serializer_ (sc_net s)) = [] → find_eventgroups sv i (subscribed_ s) = Some gs →
  map_Forall (λ _ x, renewable sv i s x) gs →
  ∃ s' ms out, sub_run env (EvOffered sv i sender) s = Ret ((), s') ∧
    net_out (sc_net s') = net_out (sc_net s) ++ out ∧
    Forall2 (λ m o, ∃ x, o.1 = SendViaSd sender (sd_wire (stamp x m))) ms out ∧
    bodies ms = entry_body <$> (ordered gs ≫= λ p, renewal_entries sv i p.1 p.2).
Proof.
  intros He Ha Hs Hg Hx.
  destruct (resubscribe_loop sv i (ordered gs) [sd_message_new] s He) as (ms&s1&E1&(Hnet&_)&Hms&Heq&Hb).
  { apply Forall_forall. intros [e x] Hin%elem_of_ordered. by apply (Hx e). }
  { done. }
  { constructor; [apply msg_ok_new|constructor]. }
  { constructor; [by left|constructor]. }
  change (bodies [sd_message_new]) with (@nil (Z * Z * Z * Z * Z * Z)) in Hb. rewrite app_nil_l in Hb.
  set (ms1 := filter (λ m, has_entry m && has_option m = true) ms).
  assert (bodies (filter (λ m, has_entry m = true) ms1) = bodies ms) as Hf.
  { rewrite bodies_sent. apply bodies_filter. intros m Hm Hn. rewrite Forall_forall in Heq.
    destruct (Heq m Hm) as [|Ho]; [done|]. apply dec_stable. intros He0. apply Hn. by rewrite (has_entry_true m), (has_option_true m). }
  assert (∃ s' out, sc_send env ms1 sender s1 = Ret ((), s') ∧ net_out (sc_net s') = net_out (sc_net s1) ++ out ∧
    Forall2 (λ m o, ∃ x, o.1 = SendViaSd sender (sd_wire (stamp x m))) (filter (λ m, has_entry m = true) ms1) out)
    as (s'&out&Es&Hout&Hf2).
  { destruct (send_to_outputs (is_unspecified env) (accepts env) (buffer_capacity env) ms1 sender (sc_net s1)) as (b&w&out&Es&_&Ho&Hf2).
    - done.
    - by rewrite Hnet.
    - unfold ms1. apply Forall_forall. intros m [_ Hm]%list_elem_of_filter. rewrite Forall_forall in Hms. by eapply msg_ok_sendable, Hms.
    - exists (sc_set_net w s1), out. split; [|done]. unfold sc_send. st_run. by rewrite Es. }
  cbn [sub_run]. assert (resubscribe env sv i [sd_message_new] s = Ret (ms, s1)) as E2.
  { unfold resubscribe. st_run. by rewrite Hg. }
  rewrite (st_bind_Ret _ _ _ _ _ E2). unfold send_resubscribes. fold ms1.
  destruct ms1 as [|m1 ms1].
  - exists s1, [], []. rewrite Hnet, app_nil_r. split_and!; try done. by rewrite <- Hb, <- Hf.
  - exists s', (filter (λ m, has_entry m = true) (m1 :: ms1)), out. rewrite <- Hnet, <- Hb, <- Hf. by split_and!.
Qed.
End sending.

(** ** Instances *)

Lemma sample_sd_env_ok : env_ok sample_sd_env.
Proof.
  split_and!; [exact Nat2Z.inj|intros e; change (is_u16 30501); width_lia| |done].
  apply (bool_decide_unpack _). vm_compute. exact I.
Qed.

Lemma offer_renews_subscriptions_witness :
  ∃ s' ms out, sub_run sample_sd_env (EvOffered 0x1111 1 9) sample_client = Ret ((), s') ∧
    net_out (sc_net s') = out ∧
    Forall2 (λ m o, ∃ x, o.1 = SendViaSd 9 (sd_wire (stamp x m))) ms out ∧
    bodies ms = [(6, 0x1111, 1, 1, 0, 0x10); (6, 0x1111, 1, 1, 3, 0x10)].
Proof.
  destruct (offer_renews_subscriptions sample_sd_env 0x1111 1 9 sample_client {[0x10 := sample_subscription]})
    as (s'&ms&out&H1&H2&H3&H4).
  - exact sample_sd_env_ok.
  - reflexivity.
  - reflexivity.
  - reflexivity.
  - intros e x [_ <-]%lookup_singleton_Some. split; [done|].
    eexists RT_UNRELIABLE, _. split; vm_compute; reflexivity.
  - exists s', ms, out. split; [exact H1|]. split; [exact H2|]. split; [exact H3|]. rewrite H4. vm_compute. reflexivity.
Defined.
