(* ===== verification/SdFinds.v ===== *)
(** How service discovery looks for services of other devices: the requests of the
    applications ([service_discovery/src/request.cpp]) and the finds that
    [service_discovery/src/service_discovery_impl.cpp] sends for them.

    A service that is requested is looked for when the debounce timer expires; the finds of
    one such moment get a timer of their own, which repeats them with a doubled delay.  A
    counter of the request tells how often it was sent; an offer sets it to its end.

    Requests and timers are objects with an identity, because maps share them; times and the
    network are as for the offers. *)
From S2P Require Import Prelude ByteOrder Streams Message SdOptions SdEntries SdMessage.
From S2P Require Import ServiceInfo SdSessions SdAssembly SdOffers.

(** The time between two looks for new requests, which no configuration changes. *)
Definition VSOMEIP_SD_DEFAULT_FIND_DEBOUNCE_TIME : Z := 500.

Record request : Type := Request {
  rq_major_ : Z;
  rq_minor_ : Z;
  rq_ttl_ : Z;
  rq_sent_counter_ : Z
}.
Definition request_new (_major _minor _ttl : Z) : request := Request _major _minor _ttl 0.
Definition set_sent_counter (v : Z) (x : request) : request := Request (rq_major_ x) (rq_minor_ x) (rq_ttl_ x) v.

Record sd_finds : Type := Finds {
  sf_now : Z;
  sf_requests : gmap Z request;
  requested_ : services_t;
  find_repetition_phase_timers_ : gmap Z services_t;
  sf_waits : gmap Z rep_wait;
  sf_next_timer : Z;
  find_debounce_timer_ : Z;
  sf_net : sd_net
}.
Definition sf_upd_requests (f : gmap Z request → gmap Z request) (s : sd_finds) : sd_finds :=
  Finds (sf_now s) (f (sf_requests s)) (requested_ s) (find_repetition_phase_timers_ s) (sf_waits s)
    (sf_next_timer s) (find_debounce_timer_ s) (sf_net s).
Definition sf_upd_requested (f : services_t → services_t) (s : sd_finds) : sd_finds :=
  Finds (sf_now s) (sf_requests s) (f (requested_ s)) (find_repetition_phase_timers_ s) (sf_waits s)
    (sf_next_timer s) (find_debounce_timer_ s) (sf_net s).
Definition sf_upd_timers (f : gmap Z services_t → gmap Z services_t) (s : sd_finds) : sd_finds :=
  Finds (sf_now s) (sf_requests s) (requested_ s) (f (find_repetition_phase_timers_ s)) (sf_waits s)
    (sf_next_timer s) (find_debounce_timer_ s) (sf_net s).
Definition sf_upd_waits (f : gmap Z rep_wait → gmap Z rep_wait) (s : sd_finds) : sd_finds :=
  Finds (sf_now s) (sf_requests s) (requested_ s) (find_repetition_phase_timers_ s) (f (sf_waits s))
    (sf_next_timer s) (find_debounce_timer_ s) (sf_net s).
Definition sf_take_timer (s : sd_finds) : sd_finds :=
  Finds (sf_now s) (sf_requests s) (requested_ s) (find_repetition_phase_timers_ s) (sf_waits s)
    (sf_next_timer s + 1) (find_debounce_timer_ s) (sf_net s).
Definition sf_set_debounce (v : Z) (s : sd_finds) : sd_finds :=
  Finds (sf_now s) (sf_requests s) (requested_ s) (find_repetition_phase_timers_ s) (sf_waits s)
    (sf_next_timer s) v (sf_net s).
Definition sf_set_net (v : sd_net) (s : sd_finds) : sd_finds :=
  Finds (sf_now s) (sf_requests s) (requested_ s) (find_repetition_phase_timers_ s) (sf_waits s)
    (sf_next_timer s) (find_debounce_timer_ s) v.
Definition sf_expires_in (s : sd_finds) (delay : Z) : Z := sf_now s + delay * 1000000.

Section finds.
  Context (cfg : sd_config) (host : list (sd_output * bool) → sd_output → bool).

(** ** Requests *)

(** The object of a request, if the instance is requested. *)
Definition find_requested (_service _instance : Z) (m : services_t) : option Z :=
  match m !! _service with Some its_instances => its_instances !! _instance | None => None end.

(** [std::make_shared<request>] yields an object that does not exist yet. *)
Definition request_service (_service _instance _major _minor _ttl : Z) : ST sd_finds () :=
  s ← st_get;
  match find_requested _service _instance (requested_ s) with
  | Some _ => mret ()
  | None =>
      let p := fresh (dom (sf_requests s)) in
      st_modify (sf_upd_requests <[p := request_new _major _minor _ttl]>);;
      st_modify (sf_upd_requested (λ m, <[_service := <[_instance := p]> (default ∅ (m !! _service))]> m))
  end.

Definition release_service (_service _instance : Z) : ST sd_finds () :=
  st_modify (sf_upd_requested (alter (delete _instance) _service)).

Definition find_request (_service _instance : Z) : ST sd_finds (option Z) :=
  s ← st_get; mret (find_requested _service _instance (requested_ s)).

(** What an offer, or its end, does to the request. *)
Definition request_answered (_service _instance : Z) : ST sd_finds () :=
  its_request ← find_request _service _instance;
  match its_request with
  | Some p => st_modify (sf_upd_requests (alter (set_sent_counter (u8 (repetitions_max_ cfg + 1))) p))
  | None => mret ()
  end.

(** A start after a stop looks for everything anew. *)
Definition restart_requests : ST sd_finds () :=
  st_modify (λ s, sf_upd_requests (λ m, foldl (λ m x, alter (set_sent_counter 0) x.2 m) m (items (requested_ s))) s).

(** ** Entries of finds *)

Definition find_entry (_service _instance : Z) (x : request) : entry_impl :=
  ServiceEntry (entry_set_ttl (rq_ttl_ x) (entry_set_major_version (rq_major_ x)
    (entry_set_instance _instance (entry_set_service _service
      (entry_set_type FIND_SERVICE entry_base_new))))) (rq_minor_ x).

(** The counter is compared as an [int], so that it never equals 256. *)
Definition insert_find_entry (_messages : list sd_message) (x : Z * Z * Z) : ST sd_finds (list sd_message) :=
  let '(its_service, its_instance, p) := x in
  s ← st_get;
  match find_requested its_service its_instance (requested_ s) with
  | None => mret _messages
  | Some _ =>
      match sf_requests s !! p with
      | None => st_lift Undef
      | Some its_request =>
          if bool_decide (rq_sent_counter_ its_request ≠ repetitions_max_ cfg + 1) then
            st_modify (sf_upd_requests (alter (set_sent_counter (u8 (rq_sent_counter_ its_request + 1))) p));;
            st_lift (sd_add_entry_data _messages (find_entry its_service its_instance its_request) [] None)
          else mret _messages
      end
  end.
Fixpoint insert_find_items (_messages : list sd_message) (l : list (Z * Z * Z)) : ST sd_finds (list sd_message) :=
  match l with
  | [] => mret _messages
  | x :: l => _messages ← insert_find_entry _messages x; insert_find_items _messages l
  end.
Definition insert_find_entries (_messages : list sd_message) (_requests : services_t) : ST sd_finds (list sd_message) :=
  insert_find_items _messages (items _requests).

Definition finds_send (messages : list sd_message) : ST sd_finds () :=
  s ← st_get;
  '(_, net) ← st_lift (send (cfg_unicast_ cfg) host messages (sf_net s));
  st_modify (sf_set_net net).

Definition send_finds (_requests : services_t) : ST sd_finds () :=
  its_messages ← insert_find_entries [sd_message_new] _requests;
  finds_send its_messages.

(** ** Timers *)

Definition start_find_debounce_timer (_first_start : bool) : ST sd_finds () :=
  s ← st_get;
  st_modify (sf_set_debounce (sf_expires_in s (if _first_start then initial_delay_ cfg else VSOMEIP_SD_DEFAULT_FIND_DEBOUNCE_TIME))).

(** The requests that were never sent. *)
Definition is_unsent (s : sd_finds) (p : Z) : bool :=
  match sf_requests s !! p with Some x => bool_decide (rq_sent_counter_ x = 0) | None => false end.
Definition unsent (s : sd_finds) : services_t :=
  filter (λ x, x.2 ≠ ∅) (filter (λ y, is_unsent s y.2 = true) <$> requested_ s).

Definition find_arm (t delay repetition : Z) : ST sd_finds () :=
  s ← st_get;
  st_modify (sf_upd_waits <[t := RepWait (sf_expires_in s delay) repetition (u32 delay)]>).

Definition on_find_debounce_timer_expired : ST sd_finds () :=
  s ← st_get;
  let repetition_phase_finds := unsent s in
  if decide (repetition_phase_finds = ∅) then start_find_debounce_timer false
  else
    send_finds repetition_phase_finds;;
    let its_timer := sf_next_timer s in
    st_modify sf_take_timer;;
    st_modify (sf_upd_timers <[its_timer := repetition_phase_finds]>);;
    find_arm its_timer (repetitions_base_delay_ cfg) 1;;
    start_find_debounce_timer false.

Definition on_find_repetition_phase_timer_expired (t _repetition _last_delay : Z) : ST sd_finds () :=
  s ← st_get;
  match find_repetition_phase_timers_ s !! t with
  | None => mret ()
  | Some requests =>
      if bool_decide (_repetition ≤ repetitions_max_ cfg) then
        send_finds requests;;
        find_arm t (u32 (_last_delay * 2)) (u8 (_repetition + 1))
      else st_modify (sf_upd_timers (delete t))
  end.
End finds.

(** ** What is looked for *)

(** What happens: calls of the routing manager, offers of other devices, a restart of the
    service discovery, and timers. *)
Inductive find_event : Type :=
| EvRequest (service instance major minor ttl : Z)
| EvRelease (service instance : Z)
| EvAnswered (service instance : Z)
| EvRestart
| EvFindDebounce
| EvFindRepetition (t : Z)
| EvFindTick (d : Z).

(** The events that ask for the instance. *)
Definition asks (k : Z * Z) (e : find_event) : bool :=
  match e with EvRequest sv i _ _ _ => bool_decide ((sv, i) = k) | EvRestart => true | _ => false end.
Definition times_asked (k : Z * Z) (es : list find_event) : Z := Z.of_nat (length (filter (λ e, asks k e = true) es)).

(** The number of finds for the instance. *)
Definition finds_for (k : Z * Z) (b : Z * Z * Z * Z * Z * Z) : bool :=
  let '(t, sv, i, _, _, _) := b in bool_decide (t = FIND_SERVICE) && bool_decide ((sv, i) = k).
Definition times_found (k : Z * Z) (bs : list (Z * Z * Z * Z * Z * Z)) : Z :=
  Z.of_nat (length (filter (λ b, finds_for k b = true) bs)).

Lemma times_found_app k bs bs' : times_found k (bs ++ bs') = times_found k bs + times_found k bs'.
Proof. unfold times_found. rewrite filter_app, length_app. lia. Qed.

Definition sf_tick (d : Z) (s : sd_finds) : sd_finds :=
  Finds (sf_now s + d) (sf_requests s) (requested_ s) (find_repetition_phase_timers_ s) (sf_waits s)
    (sf_next_timer s) (find_debounce_timer_ s) (sf_net s).

Section looking.
  Context (cfg : sd_config) (host : list (sd_output * bool) → sd_output → bool).

Inductive find_step : find_event → sd_finds → sd_finds → Prop :=
| step_request sv i major minor ttl s s' : request_service sv i major minor ttl s = Ret ((), s') →
    find_step (EvRequest sv i major minor ttl) s s'
| step_release sv i s s' : release_service sv i s = Ret ((), s') → find_step (EvRelease sv i) s s'
| step_answered sv i s s' : request_answered cfg sv i s = Ret ((), s') → find_step (EvAnswered sv i) s s'
| step_restart s s' : restart_requests s = Ret ((), s') → find_step EvRestart s s'
| step_find_debounce s s' : find_debounce_timer_ s ≤ sf_now s →
    on_find_debounce_timer_expired cfg host s = Ret ((), s') → find_step EvFindDebounce s s'
| step_find_repetition t w s s' : sf_waits s !! t = Some w → rw_expiry w ≤ sf_now s →
    on_find_repetition_phase_timer_expired cfg host t (rw_repetition w) (rw_last_delay w)
      (sf_upd_waits (delete t) s) = Ret ((), s') →
    find_step (EvFindRepetition t) s s'
| step_find_tick d s : 0 ≤ d → find_step (EvFindTick d) s (sf_tick d s).
Fixpoint find_run (es : list find_event) (s s' : sd_finds) : Prop :=
  match es with
  | [] => s' = s
  | e :: es => ∃ s1, find_step e s s1 ∧ find_run es s1 s'
  end.

(** One round of finds as a function: what is looked for and how the counters end. *)
Fixpoint round (requested : services_t) (m : gmap Z request) (l : list (Z * Z * Z)) : list (Z * Z * Z * Z * Z * Z) * gmap Z request :=
  match l with
  | [] => ([], m)
  | (sv, i, p) :: l =>
      match find_requested sv i requested, m !! p with
      | Some _, Some x =>
          if bool_decide (rq_sent_counter_ x ≠ repetitions_max_ cfg + 1) then
            let r := round requested (<[p := set_sent_counter (u8 (rq_sent_counter_ x + 1)) x]> m) l in
            (entry_body (find_entry sv i x) :: r.1, r.2)
          else round requested m l
      | _, _ => round requested m l
      end
  end.

Lemma round_cons requested x l : ∀ m, round requested m (x :: l) =
  ((round requested m [x]).1 ++ (round requested (round requested m [x]).2 l).1,
   (round requested (round requested m [x]).2 l).2).
Proof.
  destruct x as [[sv i] p]. intros m. cbn [round].
  destruct (find_requested sv i requested), (m !! p); try case_bool_decide; cbn; by destruct (round requested _ l).
Qed.
Lemma round_keeps requested l : ∀ m p, is_Some (m !! p) → is_Some ((round requested m l).2 !! p).
Proof.
  induction l as [|[[sv i] q] l IH]; intros m p Hp; cbn [round]; [done|].
  destruct (find_requested sv i requested), (m !! q) as [x|] eqn:Eq; try by apply IH.
  case_bool_decide; [|by apply IH]. cbn. apply IH. rewrite lookup_insert. case_decide; [by eexists|done].
Qed.

(** An entry without options. *)
Lemma find_entry_new sv i x : new_entry (find_entry sv i x).
Proof. split; [split_and!; [by exists 0|by exists 0|done|done]|]. intros k Hk. by apply elem_of_nil in Hk. Qed.
Lemma no_options : fresh_options Z.of_nat 0 0 [].
Proof.
  split; [done|]. split; [cbn; lia|]. split; [done|]. split; [intros p q Hp; by apply elem_of_nil in Hp|].
  split; [constructor|]. intros p Hp. by apply elem_of_nil in Hp.
Qed.

Lemma insert_find_entry_spec x ms s : ms ≠ [] → Forall (msg_ok Z.of_nat 0) ms → is_Some (sf_requests s !! x.2) →
  ∃ ms', insert_find_entry cfg ms x s =
      Ret (ms', sf_upd_requests (λ _, (round (requested_ s) (sf_requests s) [x]).2) s) ∧
    ms' ≠ [] ∧ Forall (msg_ok Z.of_nat 0) ms' ∧ bodies ms' = bodies ms ++ (round (requested_ s) (sf_requests s) [x]).1.
Proof.
  destruct x as [[sv i] p]. cbn [snd]. intros Hne Hms [x Hx]. unfold insert_find_entry. st_run. cbn [round]. rewrite Hx.
  assert (∃ ms', Ret (ms, s) = Ret (ms', sf_upd_requests (λ _, sf_requests s) s) ∧ ms' ≠ [] ∧ Forall (msg_ok Z.of_nat 0) ms' ∧ bodies ms' = bodies ms ++ []) as Hsame.
  { exists ms. rewrite app_nil_r. split_and!; [by destruct s|done..]. }
  destruct (find_requested sv i (requested_ s)) as [q|]; [|exact Hsame].
  case_bool_decide as Hc; [|exact Hsame].
  destruct (sd_add_new_entry Z.of_nat Nat2Z.inj 0 0 (find_entry sv i x) [] None ms Hne Hms no_options (find_entry_new sv i x) ltac:(done))
    as (ms1&E1&Hne1&Hms1&Hb1&_).
  rewrite E1. exists ms1. split_and!; [|done..]. unfold sf_upd_requests. by rewrite (alter_insert_lookup _ _ _ _ Hx).
Qed.

Lemma insert_find_items_spec l : ∀ ms s, ms ≠ [] → Forall (msg_ok Z.of_nat 0) ms →
  (∀ x, x ∈ l → is_Some (sf_requests s !! x.2)) →
  ∃ ms', insert_find_items cfg ms l s = Ret (ms', sf_upd_requests (λ _, (round (requested_ s) (sf_requests s) l).2) s) ∧
    Forall (msg_ok Z.of_nat 0) ms' ∧ bodies ms' = bodies ms ++ (round (requested_ s) (sf_requests s) l).1.
Proof.
  induction l as [|x l IH]; intros ms s Hne Hms Hl; cbn [insert_find_items].
  { exists ms. rewrite app_nil_r. split_and!; [by destruct s|done..]. }
  destruct (insert_find_entry_spec x ms s Hne Hms) as (ms1&E1&Hne1&Hms1&Hb1); [apply Hl; by left|].
  rewrite (st_bind_Ret _ _ _ _ _ E1).
  destruct (IH ms1 (sf_upd_requests (λ _, (round (requested_ s) (sf_requests s) [x]).2) s) Hne1 Hms1) as (ms'&E&Hms'&Hb).
  { intros y Hy. apply round_keeps, Hl. by right. }
  rewrite E. exists ms'. unfold sf_upd_requests. cbn [sf_requests requested_ sf_now find_repetition_phase_timers_ sf_waits sf_next_timer find_debounce_timer_ sf_net] in *.
  rewrite (round_cons _ x l). split_and!; [done|done|]. cbn [fst]. by rewrite Hb, Hb1, app_assoc.
Qed.

(** A round always returns; the host is given one find for each outstanding request. *)
Lemma send_finds_spec x s : (∀ y, y ∈ items x → is_Some (sf_requests s !! y.2)) →
  ∃ w out, send_finds cfg host x s =
      Ret ((), sf_set_net w (sf_upd_requests (λ _, (round (requested_ s) (sf_requests s) (items x)).2) s)) ∧
    net_out w = net_out (sf_net s) ++ out ∧ output_bodies out = (round (requested_ s) (sf_requests s) (items x)).1.
Proof.
  intros Hx. unfold send_finds, insert_find_entries.
  destruct (insert_find_items_spec (items x) [sd_message_new] s) as (ms&E1&Hms&Hb); [done| |done|].
  { apply Forall_singleton, msg_ok_new. }
  rewrite (st_bind_Ret _ _ _ _ _ E1). set (s1 := sf_upd_requests _ s).
  destruct (send_outputs (cfg_unicast_ cfg) host ms (sf_net s1)) as (b&w&out&E2&Hw&Hout).
  exists w, out. split; [unfold finds_send; st_run; by rewrite E2|]. split; [done|].
  destruct (output_bodies_sent ms out Hout) as [-> _]. by rewrite Hb.
Qed.

(** ** The number of finds *)

Context (Hmax : 0 ≤ repetitions_max_ cfg < 255).

(** The finds an object is still good for. *)
Definition finds_left (m : gmap Z request) (p : Z) : Z :=
  match m !! p with Some x => repetitions_max_ cfg + 1 - rq_sent_counter_ x | None => 0 end.
Fixpoint total (f : Z → Z) (ps : list Z) : Z := match ps with [] => 0 | p :: ps => f p + total f ps end.

Lemma total_le f g ps : (∀ p, p ∈ ps → g p ≤ f p) → total g ps ≤ total f ps.
Proof.
  induction ps as [|p ps IH]; intros H; cbn; [lia|]. pose proof (H p ltac:(by left)).
  specialize (IH ltac:(intros q Hq; apply H; by right)). lia.
Qed.
(** Only [q] may grow, by [c]. *)
Lemma total_shift f g q c ps : NoDup ps → (0 ≤ c ∨ q ∈ ps) → (∀ p, p ∈ ps → p ≠ q → g p ≤ f p) → g q ≤ f q + c →
  total g ps ≤ total f ps + c.
Proof.
  intros Hnd Hc Hp Hq. induction Hnd as [|p ps Hnp _ IH]; cbn; [destruct Hc as [|[]%elem_of_nil]; lia|].
  destruct (decide (p = q)) as [->|Hne].
  - enough (total g ps ≤ total f ps) by lia. apply total_le. intros r Hr. apply Hp; [by right|]. by intros ->.
  - pose proof (Hp p ltac:(by left) Hne). enough (total g ps ≤ total f ps + c) by lia. apply IH.
    + destruct Hc as [?|[->|?]%elem_of_cons]; [by left|done|by right].
    + intros r Hr. apply Hp. by right.
Qed.

(** The objects that were made for requests of the instance, of all the objects [l]. *)
Definition made_for (k : Z * Z) (l : list (Z * Z * Z)) : list Z := snd <$> filter (λ x, x.1 = k) l.
Definition held_items (s : sd_finds) (x : Z * Z * Z) : Prop :=
  x ∈ items (requested_ s) ∨ ∃ t y, find_repetition_phase_timers_ s !! t = Some y ∧ x ∈ items y.
Definition finds_inv (l : list (Z * Z * Z)) (s : sd_finds) : Prop :=
  NoDup (snd <$> l) ∧ (∀ p, p ∈ (snd <$> l) ↔ is_Some (sf_requests s !! p)) ∧
  (∀ x, held_items s x → x ∈ l) ∧
  ∀ p x, sf_requests s !! p = Some x → 0 ≤ rq_sent_counter_ x ≤ repetitions_max_ cfg + 1.

Lemma NoDup_made_for k l : NoDup (snd <$> l) → NoDup (made_for k l).
Proof.
  unfold made_for. induction l as [|[j p] l IH]; [constructor|]. rewrite fmap_cons, filter_cons. intros [Hp Hnd]%NoDup_cons.
  case_decide; [|by apply IH]. rewrite fmap_cons. constructor; [|by apply IH]. intros (x&Ex&[_ Hx]%list_elem_of_filter)%list_elem_of_fmap.
  apply Hp, list_elem_of_fmap. by exists x.
Qed.
Lemma elem_of_made_for k l p : p ∈ made_for k l ↔ (k, p) ∈ l.
Proof.
  unfold made_for. rewrite list_elem_of_fmap. split.
  - intros ([k' q]&->&[Hk Hq]%list_elem_of_filter). cbn in *. by subst.
  - intros H. exists (k, p). split; [done|]. by apply list_elem_of_filter.
Qed.
(** An object was made for one instance. *)
Lemma made_once (l : list (Z * Z * Z)) k k' p : NoDup (snd <$> l) → (k, p) ∈ l → (k', p) ∈ l → k = k'.
Proof.
  induction l as [|[j q] l IH]; cbn; intros Hnd H H'; [by apply elem_of_nil in H|].
  apply NoDup_cons in Hnd as [Hq Hnd].
  apply elem_of_cons in H as [H|H], H' as [H'|H']; simplify_eq; [done| | |by apply IH].
  - destruct Hq. apply list_elem_of_fmap. by exists (k', q).
  - destruct Hq. apply list_elem_of_fmap. by exists (k, q).
Qed.

(** A round: each find is one less to come. *)
Lemma round_counts k l requested its : NoDup (snd <$> l) → (∀ x, x ∈ its → x ∈ l) → ∀ m,
  (∀ p x, m !! p = Some x → 0 ≤ rq_sent_counter_ x ≤ repetitions_max_ cfg + 1) →
  (∀ p x, (round requested m its).2 !! p = Some x → 0 ≤ rq_sent_counter_ x ≤ repetitions_max_ cfg + 1) ∧
  (∀ p, is_Some ((round requested m its).2 !! p) ↔ is_Some (m !! p)) ∧
  times_found k (round requested m its).1 + total (finds_left (round requested m its).2) (made_for k l) ≤
    total (finds_left m) (made_for k l).
Proof.
  intros Hnd. induction its as [|[[sv i] q] its IH]; intros Hits m Hm; cbn [round]; [done|].
  specialize (IH ltac:(intros x Hx; apply Hits; by right)).
  destruct (find_requested sv i requested), (m !! q) as [x|] eqn:Eq; try by apply IH.
  case_bool_decide as Hc; [|by apply IH]. cbn [fst snd].
  pose proof (Hm q x Eq) as Hx.
  set (m1 := <[q := set_sent_counter (u8 (rq_sent_counter_ x + 1)) x]> m).
  assert (u8 (rq_sent_counter_ x + 1) = rq_sent_counter_ x + 1) as Hu by (apply u8_id; unfold is_u8; lia).
  destruct (IH m1) as (H1&H2&H3).
  { intros p y. unfold m1. rewrite lookup_insert. case_decide; [|by apply Hm]. intros [= <-]. cbn. lia. }
  split; [done|]. split.
  { intros p. rewrite H2. unfold m1. rewrite lookup_insert. case_decide; [|done]. subst. rewrite Eq. split; by eexists. }
  assert (∀ p, p ≠ q → finds_left m1 p = finds_left m p) as Hne.
  { intros p Hp. unfold finds_left, m1. by rewrite lookup_insert_ne. }
  assert (finds_left m1 q = finds_left m q - 1) as Hq.
  { unfold finds_left, m1. rewrite lookup_insert_eq, Eq. cbn. lia. }
  change (entry_body _ :: ?r) with ([entry_body (find_entry sv i x)] ++ r). rewrite times_found_app.
  assert (total (finds_left m1) (made_for k l) + times_found k [entry_body (find_entry sv i x)] ≤ total (finds_left m) (made_for k l)); [|lia].
  unfold times_found, finds_for. rewrite filter_cons. cbn [entry_body find_entry entry_common]. 
  destruct (decide ((sv, i) = k)) as [<-|Hk].
  - rewrite decide_True by (by rewrite !bool_decide_true). rewrite filter_nil. cbn [length].
    enough (total (finds_left m1) (made_for (sv, i) l) ≤ total (finds_left m) (made_for (sv, i) l) + -1) by lia.
    apply (total_shift _ _ q); [by apply NoDup_made_for| |intros p _ Hp; rewrite Hne by done; lia|lia].
    right. apply elem_of_made_for, Hits. by left.
  - rewrite decide_False by (rewrite (bool_decide_false (_ = k)) by done; by rewrite andb_false_r).
    rewrite filter_nil. cbn [length]. enough (total (finds_left m1) (made_for k l) ≤ total (finds_left m) (made_for k l)) by lia.
    apply total_le. intros p Hp%elem_of_made_for. rewrite Hne; [lia|]. intros ->. apply Hk.
    eapply made_once; [done| |done]. apply Hits. by left.
Qed.

(** The finds sent and the finds to come. *)
Definition budget (k : Z * Z) (l : list (Z * Z * Z)) (s : sd_finds) : Z :=
  times_found k (output_bodies (net_out (sf_net s))) + total (finds_left (sf_requests s)) (made_for k l).

Lemma output_bodies_app out out' : output_bodies (out ++ out') = output_bodies out ++ output_bodies out'.
Proof. unfold output_bodies. by rewrite fmap_app, join_app. Qed.

Lemma send_finds_counts l x s s' : finds_inv l s → (∀ y, y ∈ items x → y ∈ l) → send_finds cfg host x s = Ret ((), s') →
  (∃ m w, s' = sf_set_net w (sf_upd_requests (λ _, m) s)) ∧ finds_inv l s' ∧ ∀ k, budget k l s' ≤ budget k l s.
Proof.
  intros (Hnd&Hdom&Hheld&Hm) Hx E.
  destruct (send_finds_spec x s) as (w&out&E'&Hw&Ho).
  { intros y Hy. apply Hdom, list_elem_of_fmap. exists y. split; [done|by apply Hx]. }
  rewrite E in E'. injection E' as ->. split; [by do 2 eexists|].
  pose proof (λ k, round_counts k l (requested_ s) (items x) Hnd Hx (sf_requests s) Hm) as Hr. split.
  - destruct (Hr (0, 0)) as (H1&H2&_). split_and!; [done| |exact Hheld|exact H1]. intros p. rewrite Hdom. cbn. by rewrite H2.
  - intros k. destruct (Hr k) as (_&_&H3). unfold budget. cbn [sf_net sf_set_net sf_requests sf_upd_requests].
    rewrite Hw, output_bodies_app, times_found_app, Ho. lia.
Qed.

(** What is kept when the held items shrink and the counters do not. *)
Lemma finds_inv_weaken l s s' : finds_inv l s → sf_requests s' = sf_requests s →
  (∀ x, held_items s' x → held_items s x) → finds_inv l s'.
Proof. intros (Hnd&Hd&Hh&Hm) E Hs. unfold finds_inv. rewrite E. split_and!; auto. Qed.

Lemma unsent_items s x : x ∈ items (unsent s) → x ∈ items (requested_ s).
Proof.
  destruct x as [[sv i] p]. rewrite !elem_of_items. intros (m&Hm&Hp)%bind_Some. unfold unsent in Hm.
  apply map_lookup_filter_Some in Hm as [Hm _]. rewrite lookup_fmap in Hm. destruct (requested_ s !! sv) as [m'|]; [|done].
  injection Hm as <-. by apply map_lookup_filter_Some in Hp as [Hp _].
Qed.

Lemma found_item sv i m p : find_requested sv i m = Some p ↔ (sv, i, p) ∈ items m.
Proof. rewrite elem_of_items. unfold find_requested. by destruct (m !! sv). Qed.

(** One counter is set. *)
Lemma set_counter_counts l s p v : finds_inv l s → 0 ≤ v ≤ repetitions_max_ cfg + 1 →
  let s' := sf_upd_requests (alter (set_sent_counter v) p) s in
  finds_inv l s' ∧ ∀ q, q ≠ p → finds_left (sf_requests s') q = finds_left (sf_requests s) q.
Proof.
  intros (Hnd&Hdom&Hh&Hm) Hv. cbn. split; [|intros q Hq; unfold finds_left; by rewrite lookup_alter_ne].
  split_and!; [done| |exact Hh|]; cbn.
  - intros q. rewrite Hdom, lookup_alter. case_decide; [subst|done]. by destruct (sf_requests s !! q).
  - intros q x. rewrite lookup_alter. case_decide; [subst|by apply Hm]. destruct (sf_requests s !! q); [|done]. by intros [= <-].
Qed.

(** What a round looks for: the entry of an item whose request is outstanding. *)
Definition missing (requested : services_t) (m : gmap Z request) (x : Z * Z * Z) : option (Z * Z * Z * Z * Z * Z) :=
  let '(sv, i, p) := x in
  match find_requested sv i requested, m !! p with
  | Some _, Some y =>
      if bool_decide (rq_sent_counter_ y ≠ repetitions_max_ cfg + 1) then Some (entry_body (find_entry sv i y)) else None
  | _, _ => None
  end.

Lemma round_distinct requested its : NoDup (snd <$> its) → ∀ m, (round requested m its).1 = omap (missing requested m) its.
Proof.
  induction its as [|[[sv i] p] its IH]; [done|]. rewrite fmap_cons. intros [Hp Hnd]%NoDup_cons m. cbn [round omap list_omap missing].
  destruct (find_requested sv i requested), (m !! p) as [x|] eqn:Ex; try by apply IH.
  case_bool_decide; [|by apply IH]. cbn [fst]. f_equal. rewrite IH by done. apply list_omap_ext, Forall2_same_length_lookup_2; [done|].
  intros j y y' Hy Hy'. rewrite Hy in Hy'. injection Hy' as <-. destruct y as [[sv' i'] q]. unfold missing. rewrite lookup_insert_ne; [done|].
  intros ->. apply Hp, list_elem_of_fmap. exists (sv', i', q). split; [done|]. by eapply list_elem_of_lookup_2.
Qed.
Lemma distinct_objects (l its : list (Z * Z * Z)) : NoDup (snd <$> l) → (∀ x, x ∈ its → x ∈ l) → NoDup its → NoDup (snd <$> its).
Proof.
  intros Hl Hits. induction 1 as [|x its Hx Hnd IH]; [constructor|]. rewrite fmap_cons. constructor; [|by apply IH; intros y Hy; apply Hits; right].
  intros (y&E&Hy)%list_elem_of_fmap. destruct x as [k p], y as [k' p']. cbn in E. subst p'.
  assert (k = k') as ->; [|done]. eapply made_once; [exact Hl| |]; apply Hits; [by left|by right].
Qed.

(** What an event may add to the finds for an instance. *)
Definition allowance (k : Z * Z) (e : find_event) : Z := if asks k e then repetitions_max_ cfg + 1 else 0.
Definition counts (e : find_event) (l l' : list (Z * Z * Z)) (s s' : sd_finds) : Prop :=
  finds_inv l' s' ∧ ∀ k, budget k l' s' ≤ budget k l s + allowance k e.

Lemma allowance_nonneg k e : 0 ≤ allowance k e.
Proof. unfold allowance. destruct (asks k e); lia. Qed.

Lemma request_counts sv i major minor ttl l s s' : finds_inv l s → request_service sv i major minor ttl s = Ret ((), s') →
  ∃ l', counts (EvRequest sv i major minor ttl) l l' s s'.
Proof.
  intros Hinv. unfold request_service. st_run. destruct (find_requested sv i (requested_ s)) as [q|] eqn:Eq.
  { intros [= <-]. exists l. split; [done|]. intros k. pose proof (allowance_nonneg k (EvRequest sv i major minor ttl)). lia. }
  intros [= <-]. destruct Hinv as (Hnd&Hdom&Hh&Hm). set (p := fresh (dom (sf_requests s))).
  assert (sf_requests s !! p = None) as Hp by (apply not_elem_of_dom, is_fresh).
  assert (p ∉ (snd <$> l)) as Hpl by (rewrite Hdom, Hp; by intros []).
  exists ((sv, i, p) :: l). split.
  - split_and!; cbn.
    + by constructor.
    + intros q. rewrite elem_of_cons, Hdom, lookup_insert. case_decide; subst; [split; [by eexists|by left]|].
      split; [intros [->|?]; done|by right].
    + intros [[sv' i'] q] Hq. apply elem_of_cons. destruct Hq as [Hq|Hq]; [|right; apply Hh; by right].
      cbn in Hq. apply elem_of_items in Hq. rewrite lookup_insert in Hq. case_decide as Hsv.
      * subst sv'. cbn in Hq. rewrite lookup_insert in Hq. case_decide; [left; by simplify_eq|].
        right. apply Hh. left. apply elem_of_items. by destruct (requested_ s !! sv).
      * right. apply Hh. left. by apply elem_of_items.
    + intros q x. rewrite lookup_insert. case_decide; [|by apply Hm]. intros [= <-]. cbn. lia.
  - intros k. unfold budget. cbn [sf_net sf_upd_requested sf_upd_requests sf_requests].
    assert (∀ ps, (∀ q, q ∈ ps → q ∈ (snd <$> l)) →
      total (finds_left (<[p := request_new major minor ttl]> (sf_requests s))) ps ≤ total (finds_left (sf_requests s)) ps) as Ht.
    { intros ps Hps. apply total_le. intros q Hq%Hps. unfold finds_left. rewrite lookup_insert_ne; [lia|]. by intros ->. }
    assert (∀ q, q ∈ made_for k l → q ∈ (snd <$> l)) as Hsub.
    { intros q Hq%elem_of_made_for. apply list_elem_of_fmap. by exists (k, q). }
    specialize (Ht _ Hsub). unfold allowance, made_for, asks. rewrite filter_cons. cbn [fst].
    destruct (decide ((sv, i) = k)) as [->|Hk].
    + rewrite bool_decide_true by done. rewrite fmap_cons. cbn [total snd]. fold (made_for k l).
      assert (finds_left (<[p := request_new major minor ttl]> (sf_requests s)) p = repetitions_max_ cfg + 1) as ->
        by (unfold finds_left; rewrite lookup_insert_eq; cbn; lia). lia.
    + rewrite bool_decide_false by done. fold (made_for k l). lia.
Qed.

Lemma release_counts sv i l s s' : finds_inv l s → release_service sv i s = Ret ((), s') → counts (EvRelease sv i) l l s s'.
Proof.
  intros Hinv [= <-]. split; [|intros k; unfold budget, allowance; cbn; lia].
  eapply finds_inv_weaken; [done..|]. intros [[sv' i'] p] [Hp|?]; [|by right]. left. apply elem_of_items. apply elem_of_items in Hp.
  cbn in Hp. rewrite lookup_alter in Hp. case_decide; [subst|done]. destruct (requested_ s !! sv') as [m|]; [|done]. cbn in *.
  rewrite lookup_delete in Hp. by case_decide.
Qed.

Lemma answered_counts sv i l s s' : finds_inv l s → request_answered cfg sv i s = Ret ((), s') →
  counts (EvAnswered sv i) l l s s'.
Proof.
  intros Hinv. unfold request_answered, find_request. st_run.
  destruct (find_requested sv i (requested_ s)) as [p|]; intros [= <-].
  2:{ split; [done|]. intros k. unfold allowance. cbn. lia. }
  rewrite u8_id by (unfold is_u8; lia).
  destruct (set_counter_counts l s p (repetitions_max_ cfg + 1) Hinv) as [H1 H2]; [lia|]. split; [done|].
  intros k. unfold budget, allowance. cbn [asks sf_net sf_upd_requests]. enough (total (finds_left (sf_requests (sf_upd_requests (alter (set_sent_counter (repetitions_max_ cfg + 1)) p) s))) (made_for k l) ≤ total (finds_left (sf_requests s)) (made_for k l)) by lia.
  apply total_le. intros q _. destruct (decide (q = p)) as [->|Hq]; [|rewrite H2 by done; lia].
  destruct Hinv as (_&_&_&Hm). unfold finds_left. cbn. rewrite lookup_alter_eq.
  destruct (sf_requests s !! p) as [x|] eqn:Ep; cbn; [|lia]. specialize (Hm p x Ep). lia.
Qed.

Lemma reset_lookup (its : list (Z * Z * Z)) : ∀ (m : gmap Z request) p,
  foldl (λ m x, alter (set_sent_counter 0) x.2 m) m its !! p =
  if decide (p ∈ snd <$> its) then set_sent_counter 0 <$> m !! p else m !! p.
Proof.
  induction its as [|x its IH]; intros m p; cbn [foldl].
  { rewrite decide_False; [done|]. by intros ?%elem_of_nil. }
  rewrite IH, fmap_cons. destruct (decide (p = x.2)) as [->|Hne].
  - rewrite lookup_alter_eq, (@decide_True _ (x.2 ∈ x.2 :: (snd <$> its))) by by left. case_decide; [|done]. by destruct (m !! x.2).
  - rewrite lookup_alter_ne by done. destruct (decide (p ∈ snd <$> its)) as [Hp|Hp].
    + by rewrite decide_True by by right.
    + rewrite decide_False; [done|]. by intros [->|?]%elem_of_cons.
Qed.

Lemma restart_counts l s s' : finds_inv l s → restart_requests s = Ret ((), s') → counts EvRestart l l s s'.
Proof.
  intros (Hnd&Hdom&Hh&Hm) [= <-]. split.
  - split_and!; [done| |exact Hh|]; cbn.
    + intros p. rewrite Hdom, reset_lookup. case_decide; [|done]. by destruct (sf_requests s !! p).
    + intros p x. rewrite reset_lookup. case_decide; [|by apply Hm]. destruct (sf_requests s !! p); [|done]. intros [= <-]. cbn. lia.
  - intros k. unfold budget, allowance. cbn [asks sf_net sf_upd_requests sf_requests]. rewrite <- Z.add_assoc. apply Z.add_le_mono_l.
    set (m := foldl _ _ _).
    assert (∀ p, p ∈ made_for k l → find_requested k.1 k.2 (requested_ s) ≠ Some p → finds_left m p = finds_left (sf_requests s) p) as Hsame.
    { intros p Hp%elem_of_made_for Hk. unfold finds_left, m. rewrite reset_lookup, decide_False; [done|].
      intros ([k' q]&->&Hq)%list_elem_of_fmap. cbn in *. pose proof (made_once l k k' q Hnd Hp (Hh _ (or_introl Hq))) as ->.
      apply Hk, found_item. by destruct k'. }
    destruct (find_requested k.1 k.2 (requested_ s)) as [q|] eqn:Eq.
    + apply (total_shift _ _ q); [by apply NoDup_made_for|left; lia|intros p Hp Hne; rewrite Hsame by congruence; lia|].
      unfold finds_left, m. rewrite reset_lookup.
      case_decide; destruct (sf_requests s !! q) as [x|] eqn:Ex; cbn; try lia; specialize (Hm q x Ex); lia.
    + enough (total (finds_left m) (made_for k l) ≤ total (finds_left (sf_requests s)) (made_for k l)) by lia.
      apply total_le. intros p Hp. rewrite Hsame by done. lia.
Qed.

Lemma find_debounce_counts l s s' : finds_inv l s → on_find_debounce_timer_expired cfg host s = Ret ((), s') →
  counts EvFindDebounce l l s s'.
Proof.
  intros Hinv E. unfold on_find_debounce_timer_expired in E. rewrite (st_bind_Ret _ _ _ _ _ (eq_refl : st_get s = Ret (s, s))) in E.
  case_decide.
  { injection E as <-. split; [by eapply finds_inv_weaken|]. intros k. unfold budget, allowance. cbn. lia. }
  apply st_bind_inv in E as ([]&s1&E1&E).
  assert (∀ y, y ∈ items (unsent s) → y ∈ l) as Hu by (intros y Hy%unsent_items; apply Hinv; by left).
  destruct (send_finds_counts l _ s s1 Hinv Hu E1) as ((m&w&->)&H1&H2). injection E as <-. split; [|intros k; specialize (H2 k); unfold budget, allowance in *; cbn in *; lia].
  destruct H1 as (?&?&Hh&?). split_and!; [done..| |done].
  intros x [Hx|(t&y&Ht&Hx)]; [apply Hh; by left|]. cbn in Ht. rewrite lookup_insert in Ht. case_decide.
  - injection Ht as <-. by apply Hu.
  - apply Hh. right. by exists t, y.
Qed.

Lemma find_repetition_counts t r d l s s' : finds_inv l s →
  on_find_repetition_phase_timer_expired cfg host t r d s = Ret ((), s') → counts (EvFindRepetition t) l l s s'.
Proof.
  intros Hinv E. unfold on_find_repetition_phase_timer_expired in E. rewrite (st_bind_Ret _ _ _ _ _ (eq_refl : st_get s = Ret (s, s))) in E.
  destruct (find_repetition_phase_timers_ s !! t) as [x|] eqn:Et.
  2:{ injection E as <-. split; [done|]. intros k. unfold allowance. cbn. lia. }
  case_bool_decide.
  - apply st_bind_inv in E as ([]&s1&E1&E).
    destruct (send_finds_counts l x s s1 Hinv) as (_&H1&H2); [|done|].
    { intros y Hy. apply Hinv. right. by exists t, x. }
    injection E as <-. split; [by eapply finds_inv_weaken|]. intros k. specialize (H2 k). unfold budget, allowance in *. cbn in *. lia.
  - injection E as <-. split; [|intros k; unfold budget, allowance; cbn; lia]. eapply finds_inv_weaken; [done..|].
    intros y [Hy|(t'&z&Ht&Hy)]; [by left|]. right. exists t', z. split; [|done]. cbn in Ht. by apply lookup_delete_Some in Ht as [_ Ht].
Qed.

Lemma find_step_counts e l s s' : finds_inv l s → find_step e s s' → ∃ l', counts e l l' s s'.
Proof.
  intros Hinv Hs. revert Hinv.
  destruct Hs as [sv i major minor ttl s1 s2 E|sv i s1 s2 E|sv i s1 s2 E|s1 s2 E|s1 s2 _ E|t w s1 s2 _ _ E|d s1 _];
    intros Hinv; [|exists l..].
  - by eapply request_counts.
  - by eapply release_counts.
  - by eapply answered_counts.
  - by eapply restart_counts.
  - by eapply find_debounce_counts.
  - eapply find_repetition_counts in E; [|by eapply finds_inv_weaken]. destruct E as [H1 H2]. split; [done|exact H2].
  - split; [by eapply finds_inv_weaken|]. intros k. unfold budget, allowance. cbn. lia.
Qed.

Lemma find_run_counts k es : ∀ l s s', finds_inv l s → find_run es s s' →
  ∃ l', finds_inv l' s' ∧ budget k l' s' ≤ budget k l s + (repetitions_max_ cfg + 1) * times_asked k es.
Proof.
  induction es as [|e es IH]; intros l s s' Hinv Hr; cbn in Hr.
  { subst. exists l. split; [done|]. unfold times_asked. rewrite filter_nil. cbn. lia. }
  destruct Hr as (s1&He&Hr). destruct (find_step_counts e l s s1 Hinv He) as (l1&Hinv1&Hb1).
  destruct (IH l1 s1 s' Hinv1 Hr) as (l2&Hinv2&Hb2). exists l2. split; [done|]. specialize (Hb1 k).
  unfold times_asked in *. rewrite filter_cons. unfold allowance in Hb1. destruct (asks k e).
  - rewrite decide_True by done. cbn [length]. lia.
  - rewrite decide_False by done. lia.
Qed.

(** The state of a start. *)
Definition no_requests (s : sd_finds) : Prop :=
  sf_requests s = ∅ ∧ requested_ s = ∅ ∧ find_repetition_phase_timers_ s = ∅.
Lemma no_requests_inv s : no_requests s → finds_inv [] s.
Proof.
  intros (H1&H2&H3). split_and!; [constructor| | |].
  - intros p. rewrite H1, lookup_empty. split; [by intros ?%elem_of_nil|by intros []].
  - intros [[sv i] p] [Hx|(t&y&Ht&_)]; [|by rewrite H3, lookup_empty in Ht].
    apply elem_of_items in Hx. by rewrite H2, lookup_empty in Hx.
  - intros p x. by rewrite H1, lookup_empty.
Qed.

(** C7: Finds are limited.  Whatever applications request and release, whatever other devices
    offer and however often the timers expire: since a start without requests, an instance
    is looked for at most [repetitions_max + 1] times for each time it was requested or the
    service discovery was restarted, if less than 255 repetitions are configured. *)
Theorem finds_are_limited k es s s' : no_requests s → find_run es s s' →
  times_found k (output_bodies (net_out (sf_net s'))) ≤
    times_found k (output_bodies (net_out (sf_net s))) + (repetitions_max_ cfg + 1) * times_asked k es.
Proof.
  intros Hn Hr. destruct (find_run_counts k es [] s s') as (l&(Hnd&Hd&_&Hm)&Hb); [by apply no_requests_inv|done|].
  unfold budget in Hb. enough (0 ≤ total (finds_left (sf_requests s')) (made_for k l)) by (cbn in Hb; lia).
  assert (∀ p, 0 ≤ finds_left (sf_requests s') p) as Hp.
  { intros p. unfold finds_left. destruct (sf_requests s' !! p) as [x|] eqn:Ex; [specialize (Hm p x Ex)|]; lia. }
  clear Hb. induction (made_for k l) as [|p ps IH]; cbn; [lia|]. specialize (Hp p). lia.
Qed.

(** C19: Every round looks for what is missing. Let less than 255 repetitions be configured
    (with 255 the counter of eight bits wraps) and the state be reached by a run from one
    without requests. When the timer of the finds expires and the repetitions are not used
    up, the handler always returns, gives the host exactly one find for each instance of
    the timer that is still requested and was neither answered nor sent often enough, in
    the order of services and instances, and starts the timer again with twice the delay;
    afterwards it only removes the timer. *)
Theorem missing_services_are_looked_for es s0 t r d x s : no_requests s0 → find_run es s0 s →
  find_repetition_phase_timers_ s !! t = Some x → is_u8 r →
  ∃ s' out, on_find_repetition_phase_timer_expired cfg host t r d s = Ret ((), s') ∧
    net_out (sf_net s') = net_out (sf_net s) ++ out ∧
    output_bodies out = (if bool_decide (r ≤ repetitions_max_ cfg) then omap (missing (requested_ s) (sf_requests s)) (items x) else []) ∧
    if bool_decide (r ≤ repetitions_max_ cfg)
    then sf_waits s' !! t = Some (RepWait (sf_expires_in s (u32 (d * 2))) (r + 1) (u32 (d * 2))) ∧
      find_repetition_phase_timers_ s' = find_repetition_phase_timers_ s
    else find_repetition_phase_timers_ s' = delete t (find_repetition_phase_timers_ s).
Proof.
  intros Hn Hes Ht Hr. destruct (find_run_counts (0, 0) es [] s0 s (no_requests_inv _ Hn) Hes) as (l&Hinv&_). unfold on_find_repetition_phase_timer_expired. rewrite (st_bind_Ret _ _ _ _ _ (eq_refl : st_get s = Ret (s, s))), Ht.
  case_bool_decide as Hc.
  2:{ exists (sf_upd_timers (delete t) s), []. by rewrite app_nil_r. }
  pose proof Hinv as (Hnd&Hdom&Hh&_). assert (∀ y, y ∈ items x → y ∈ l) as Hx by (intros y Hy; apply Hh; right; by exists t, x).
  destruct (send_finds_spec x s) as (w&out&E&Hw&Ho).
  { intros y Hy. apply Hdom, list_elem_of_fmap. exists y. split; [done|by apply Hx]. }
  rewrite (st_bind_Ret _ _ _ _ _ E). eexists _, out. split; [done|]. split; [done|]. split; [|split; [|done]].
  - rewrite Ho. apply round_distinct. by eapply distinct_objects, NoDup_items.
  - cbn. rewrite lookup_insert_eq. do 2 f_equal; [apply u8_id; unfold is_u8 in *; lia|].
    apply u32_id, is_u32_u32.
Qed.
End looking.

(** ** Instances *)

Definition sample_finds : sd_finds := Finds 0 ∅ ∅ ∅ ∅ 0 0 (Net (Sessions ∅ ∅) (serializer_new 0) []).
Abbreviation sample_find_run := (find_run sample_config accept_all).

#[local] Ltac run_finds :=
  cbn [find_run];
  repeat (eexists; split;
    [first [apply step_find_tick; lia
           |eapply step_find_repetition; [vm_compute; reflexivity|vm_compute; discriminate|vm_compute; reflexivity]
           |apply step_find_debounce; [vm_compute; discriminate|vm_compute; reflexivity]
           |apply step_request; vm_compute; reflexivity
           |apply step_answered; vm_compute; reflexivity]|]);
  reflexivity.

(** Two instances are requested; one is offered after the first find. *)
Definition sample_requests : list find_event :=
  [EvRequest 0x1111 1 1 0 3; EvRequest 0x1111 2 1 0 3; EvFindDebounce; EvAnswered 0x1111 2].
Definition sample_repetitions : list find_event :=
  [EvFindTick (100 * 1000000); EvFindRepetition 0; EvFindTick (100 * 1000000); EvFindRepetition 0].

Lemma finds_are_limited_witness : ∃ s', sample_find_run (sample_requests ++ sample_repetitions) sample_finds s' ∧
  times_found (0x1111, 1) (output_bodies (net_out (sf_net s'))) ≤ 0 + (1 + 1) * 1.
Proof.
  assert (∃ s', sample_find_run (sample_requests ++ sample_repetitions) sample_finds s') as [s' Hrun]
    by (eexists; unfold sample_requests, sample_repetitions; run_finds).
  exists s'. split; [exact Hrun|].
  apply (finds_are_limited sample_config accept_all ltac:(by vm_compute) (0x1111, 1) (sample_requests ++ sample_repetitions) sample_finds s').
  - done.
  - exact Hrun.
Defined.

Lemma missing_services_are_looked_for_witness : ∃ s s' out, sample_find_run sample_requests sample_finds s ∧
  on_find_repetition_phase_timer_expired sample_config accept_all 0 1 30 s = Ret ((), s') ∧
  net_out (sf_net s') = net_out (sf_net s) ++ out ∧ output_bodies out = [(FIND_SERVICE, 0x1111, 1, 1, 3, 0)].
Proof.
  assert (∃ s, sample_find_run sample_requests sample_finds s ∧
    find_repetition_phase_timers_ s !! 0 = Some {[0x1111 := {[1 := 0; 2 := 1]}]} ∧
    omap (missing sample_config (requested_ s) (sf_requests s)) (items {[0x1111 := {[1 := 0; 2 := 1]}]}) =
      [(FIND_SERVICE, 0x1111, 1, 1, 3, 0)]) as (s&Hrun&Ht&Hm).
  { eexists. split; [unfold sample_requests; run_finds|]. split; vm_compute; reflexivity. }
  destruct (missing_services_are_looked_for sample_config accept_all ltac:(by vm_compute) sample_requests sample_finds 0 1 30
    {[0x1111 := {[1 := 0; 2 := 1]}]} s) as (s'&out&H1&H2&H3&_).
  - done.
  - exact Hrun.
  - exact Ht.
  - unfold is_u8. lia.
  - exists s, s', out. rewrite <- Hm. split_and!; [exact Hrun|exact H1|exact H2|exact H3].
Defined.

(** The bound is reached: one find and one repetition. *)
Example finds_of_a_request : ∃ s', sample_find_run (sample_requests ++ sample_repetitions) sample_finds s' ∧
  times_found (0x1111, 1) (output_bodies (net_out (sf_net s'))) = 2 ∧
  times_found (0x1111, 2) (output_bodies (net_out (sf_net s'))) = 1.
Proof. eexists. split; [unfold sample_requests, sample_repetitions; run_finds|]. split; vm_compute; reflexivity. Qed.

(** With 255 repetitions the counter of an answered request is 0, not 256: the instance is
    looked for although it is offered. *)
Definition wrap_config : sd_config := Config 5 true false [192; 168; 0; 1] 3 10 500 30 255 1000.
Example answered_request_is_looked_for : ∃ s',
  find_run wrap_config accept_all [EvRequest 0x1111 1 1 0 3; EvAnswered 0x1111 1; EvFindDebounce] sample_finds s' ∧
  times_found (0x1111, 1) (output_bodies (net_out (sf_net s'))) = 1.
Proof. eexists. split; [run_finds|vm_compute; reflexivity]. Qed.
