(* ===== verification/SdAcks.v ===== *)
(** The answers to the subscriptions of other devices:
    [service_discovery/src/remote_subscription_ack.cpp] and the parts of
    [service_discovery/src/service_discovery_impl.cpp] that collect, send and account for
    acknowledgments.

    An acknowledgment object belongs to one received message; it is kept with the identity
    of the object, and [pending_remote_subscriptions_] leads from the subscriptions, which
    are objects of the routing manager of [Eventgroups], to it.  Sets and maps of pointers
    are ordered by the identities.  The timer of expirations is the time it is set to; the
    clock is the one of the routing manager.  Objects without an owner are released when the
    calls of the program end, [release]. *)
From S2P Require Import Prelude ByteOrder Streams Message SdOptions SdEntries SdMessage.
From S2P Require Import ServiceInfo SdSessions SdAssembly SdOffers Event RemoteSubscription Eventgroups SdRemoteOffers.
From S2P Require Import SdSubscriptions.

(** ** The acknowledgment *)

Record remote_subscription_ack : Type := SubscriptionAck {
  ack_messages_ : list sd_message;
  ack_is_complete_ : bool;
  ack_is_done_ : bool;
  ack_target_address_ : Z;
  ack_subscriptions_ : gset Z
}.
Definition remote_subscription_ack_new (_address : Z) : remote_subscription_ack :=
  SubscriptionAck [sd_message_new] false false _address ∅.
Definition complete (a : remote_subscription_ack) : remote_subscription_ack :=
  SubscriptionAck (ack_messages_ a) true (ack_is_done_ a) (ack_target_address_ a) (ack_subscriptions_ a).
Definition ack_done (a : remote_subscription_ack) : remote_subscription_ack :=
  SubscriptionAck (ack_messages_ a) (ack_is_complete_ a) true (ack_target_address_ a) (ack_subscriptions_ a).
Definition ack_add_subscription (p : Z) (a : remote_subscription_ack) : remote_subscription_ack :=
  SubscriptionAck (ack_messages_ a) (ack_is_complete_ a) (ack_is_done_ a) (ack_target_address_ a)
    ({[p]} ∪ ack_subscriptions_ a).
Definition ack_set_messages (v : list sd_message) (a : remote_subscription_ack) : remote_subscription_ack :=
  SubscriptionAck v (ack_is_complete_ a) (ack_is_done_ a) (ack_target_address_ a) (ack_subscriptions_ a).
Definition has_subscription (a : remote_subscription_ack) : bool := bool_decide (ack_subscriptions_ a ≠ ∅).

(** [is_pending]: some subscription waits for the application and is to be answered. *)
Definition waits (r : routing) (p : Z) : bool :=
  match r_subs r !! p with
  | Some s => is_pending s && bool_decide (rs_answers_ s ≠ 0)
  | None => false
  end.
Definition ack_is_pending (r : routing) (a : remote_subscription_ack) : bool :=
  existsb (waits r) (client_list (ack_subscriptions_ a)).

(** ** The state *)

Record sd_server : Type := SdServer {
  ss_sd : sd_client;
  ss_acks : gmap Z remote_subscription_ack;
  pending_remote_subscriptions_ : gmap Z (option Z);
  ss_definitions : gmap (Z * Z * Z * Z * bool) Z;
  next_subscription_expiration_ : Z;
  subscription_expiration_timer_ : option Z
}.
Definition ss_routing (s : sd_server) : routing := sc_routing (ss_sd s).
Definition ss_set_sd (v : sd_client) (s : sd_server) : sd_server :=
  SdServer v (ss_acks s) (pending_remote_subscriptions_ s) (ss_definitions s)
    (next_subscription_expiration_ s) (subscription_expiration_timer_ s).
Definition ss_set_acks (v : gmap Z remote_subscription_ack) (s : sd_server) : sd_server :=
  SdServer (ss_sd s) v (pending_remote_subscriptions_ s) (ss_definitions s)
    (next_subscription_expiration_ s) (subscription_expiration_timer_ s).
Definition ss_set_pending (v : gmap Z (option Z)) (s : sd_server) : sd_server :=
  SdServer (ss_sd s) (ss_acks s) v (ss_definitions s)
    (next_subscription_expiration_ s) (subscription_expiration_timer_ s).
Definition ss_set_definitions (v : gmap (Z * Z * Z * Z * bool) Z) (s : sd_server) : sd_server :=
  SdServer (ss_sd s) (ss_acks s) (pending_remote_subscriptions_ s) v
    (next_subscription_expiration_ s) (subscription_expiration_timer_ s).
Definition ss_set_expiration (next : Z) (timer : option Z) (s : sd_server) : sd_server :=
  SdServer (ss_sd s) (ss_acks s) (pending_remote_subscriptions_ s) (ss_definitions s) next timer.

(** What the outside answers, beyond [sd_env]: the configured factors and netmask, the
    address made of bytes, whether the reliable server endpoint of an offered instance has
    a connection from an endpoint, and which ports are protected. *)
Record server_env : Type := ServerEnv {
  se_env : sd_env;
  ttl_factor_subscriptions_ : gmap Z (gmap Z Z);
  netmask : list Z;
  make_address : list Z → Z;
  tcp_established : Z → Z → Z → bool;
  is_protected_port : Z → Z → bool → bool
}.

Definition get_ttl_factor (_service _instance : Z) (_ttl_map : gmap Z (gmap Z Z)) : Z :=
  match _ttl_map !! _service with
  | Some its_instances => default 1 (its_instances !! _instance)
  | None => 1
  end.

Section acks.
  Context (env : server_env).

Definition in_sd {A} (m : ST sd_client A) : ST sd_server A :=
  s ← st_get;
  '(a, sd) ← st_lift (m (ss_sd s));
  st_modify (ss_set_sd sd);;
  mret a.

Definition the_ack (a : Z) : ST sd_server remote_subscription_ack :=
  s ← st_get; st_lift (match ss_acks s !! a with Some x => Ret x | None => Undef end).
Definition upd_ack (a : Z) (f : remote_subscription_ack → remote_subscription_ack) : ST sd_server () :=
  st_modify (λ s, ss_set_acks (alter f a (ss_acks s)) s).

(** ** Entries of answers *)

(** [_clients.size() > 1 || *(_clients.begin()) != 0]: undefined without clients. *)
Definition names_clients (_clients : gset Z) : outcome bool :=
  if bool_decide (1 < size _clients)%nat then Ret true
  else match client_list _clients with
       | [] => Undef
       | c :: _ => Ret (bool_decide (c ≠ 0))
       end.

Definition target_of (d : RemoteSubscription.endpoint_definition) : SdEntries.endpoint_definition :=
  SdEntries.EndpointDefinition (address_bytes (se_env env) (ed_address_ d)) (ed_port_ d) (ed_is_reliable_ d)
    (ed_remote_port_ d).

Definition answers_to (info : eventgroupinfo) (_ttl : Z) (x : entry_impl) : bool :=
  match x with
  | EventgroupEntry e g _ _ _ _ =>
      bool_decide (e_type_ e = SUBSCRIBE_EVENTGROUP_ACK) && bool_decide (e_service_ e = eg_service_ info)
      && bool_decide (e_instance_ e = eg_instance_ info) && bool_decide (g = eg_eventgroup_ info)
      && bool_decide (e_major_version_ e = eg_major_ info) && bool_decide (e_ttl_ e = _ttl)
  | ServiceEntry _ _ => false
  end.

(** The entry of an earlier answer takes the target, if it has none of the kind. *)
Definition merge_target (_ttl : Z) (_target : option SdEntries.endpoint_definition) (x : entry_impl) : entry_impl :=
  if bool_decide (_ttl > 0) then
    match _target with
    | Some t => match get_target (ep_is_reliable_ t) x with Some _ => x | None => add_target t x end
    | None => x
    end
  else x.

(** The selective option, an object the message may refer to in several places, takes the
    clients. *)
Definition set_option_clients (p : Z) (_clients : gset Z) (o : option_ptr) : option_ptr :=
  if bool_decide (o.1 = p) then
    match o.2 with
    | SelectiveOption b _ => let '(b, c) := set_clients _clients b in (o.1, SelectiveOption b c)
    | _ => o
    end
  else o.
Definition merge_answer (i : nat) (x : entry_impl) (_ttl : Z) (_target : option SdEntries.endpoint_definition)
    (_clients : gset Z) (m : sd_message) : outcome sd_message :=
  let m := SdMessage (sd_header_ m) (flags_ m) (options_length_ m)
             (<[i := merge_target _ttl _target x]> (entries_ m)) (options_ m) (current_message_size_ m) in
  named ← names_clients _clients;
  Ret (match (if named : bool then get_selective_option (entry_common x) m else None) with
       | Some o => SdMessage (sd_header_ m) (flags_ m) (options_length_ m) (entries_ m)
                     (set_option_clients o.1 _clients <$> options_ m) (current_message_size_ m)
       | None => m
       end).

Definition answer_entry (info : eventgroupinfo) (_ttl : Z) (_target : option SdEntries.endpoint_definition) : entry_impl :=
  let x := EventgroupEntry (entry_set_ttl _ttl (entry_set_major_version (eg_major_ info)
    (entry_set_instance (eg_instance_ info) (entry_set_service (eg_service_ info)
      (entry_set_type SUBSCRIBE_EVENTGROUP_ACK entry_base_new))))) (eg_eventgroup_ info) 0 0 None None in
  match (if bool_decide (_ttl > 0) then _target else None) with Some t => add_target t x | None => x end.

Definition answer_options (info : eventgroupinfo) (_ttl : Z) (_clients : gset Z) : ST sd_client (list option_ptr) :=
  multicast ← (if bool_decide (_ttl > 0) && is_multicast (host_env (se_env env)) (eg_address_ info)
                  && bool_decide (eg_threshold_ info > 0)
    then o ← sc_new_option (se_env env) (create_ip_option_at (se_env env) (eg_address_ info) (eg_port_ info) false);
         mret [o]
    else mret []);
  named ← st_lift (names_clients _clients);
  selective ← (if (named : bool) then
      let '(b, c) := set_clients _clients (OptionBase 1 SELECTIVE) in
      o ← sc_new_option (se_env env) (SelectiveOption b c); mret [o]
    else mret []);
  mret (multicast ++ selective).

Definition insert_subscription_ack (_acknowledgement : Z) (info : eventgroupinfo) (_ttl : Z)
    (_target : option SdEntries.endpoint_definition) (_clients : gset Z) : ST sd_server () :=
  a ← the_ack _acknowledgement;
  match last (ack_messages_ a) with
  | None => st_lift Undef
  | Some its_message =>
      match list_find (λ x, answers_to info _ttl x = true) (entries_ its_message) with
      | Some (i, x) =>
          m ← st_lift (merge_answer i x _ttl _target _clients its_message);
          upd_ack _acknowledgement (ack_set_messages (removelast (ack_messages_ a) ++ [m]))
      | None =>
          options ← in_sd (answer_options info _ttl _clients);
          messages ← st_lift (sd_add_entry_data (ack_messages_ a) (answer_entry info _ttl _target) options None);
          upd_ack _acknowledgement (ack_set_messages messages)
      end
  end.

(** ** Sending *)

(** The loop over the messages that finds the next expiration. *)
Definition entry_expiration (now : Z) (x : entry_impl) (next : Z) : Z :=
  let e := entry_common x in
  if bool_decide (e_type_ e = SUBSCRIBE_EVENTGROUP_ACK) && bool_decide (e_ttl_ e ≠ 0) then
    let its_expiration := now + u32 (e_ttl_ e *
      get_ttl_factor (e_service_ e) (e_instance_ e) (ttl_factor_subscriptions_ env)) * 1000 in
    if bool_decide (its_expiration < next) then its_expiration else next
  else next.
Definition update_subscription_expiration_timer (_messages : list sd_message) : ST sd_server () :=
  st_modify (λ s,
    let next := foldl (λ n x, entry_expiration (r_clock (ss_routing s)) x n) (next_subscription_expiration_ s)
                  (mjoin (entries_ <$> _messages)) in
    ss_set_expiration next (Some next) s).

(** The number of answers, and the parent of a subscription that is not to be answered. *)
Fixpoint count_answers (ps : list Z) (its_max_answers : Z) (do_not_answer : bool) (its_parent : option Z) :
    ST sd_client (Z * bool * option Z) :=
  match ps with
  | [] => mret (its_max_answers, do_not_answer, its_parent)
  | p :: ps =>
      s ← in_host (the_sub p);
      r ← in_host st_get;
      if bool_decide (rs_answers_ s > its_max_answers) then count_answers ps (rs_answers_ s) do_not_answer its_parent
      else if bool_decide (rs_answers_ s = 0) then count_answers ps its_max_answers true (lock_parent r s)
      else count_answers ps its_max_answers do_not_answer its_parent
  end.

(** A renewal of a subscription that is still to be answered: the answer to the subscription
    is given once more.  [operator[]] inserts an empty pointer, if there is none. *)
Definition answer_with_parent (its_parent : Z) : ST sd_server () :=
  s ← st_get;
  let its_parent_ack := mjoin (pending_remote_subscriptions_ s !! its_parent) in
  st_modify (ss_set_pending (<[its_parent := its_parent_ack]> (pending_remote_subscriptions_ s)));;
  match its_parent_ack with
  | Some a =>
      a ← the_ack a;
      for_each (λ p, if bool_decide (p ≠ its_parent)
        then in_sd (in_host (upd_sub p (λ x, rs_with_answers (u32 (rs_answers_ x + 1)) x))) else mret ())
        (client_list (ack_subscriptions_ a))
  | None => mret ()
  end.

Definition has_state (st : remote_subscription_state_e) (s : remote_subscription) (c : Z) : bool :=
  bool_decide (get_client_state c s = st).
(** The answers of one subscription: acknowledged clients, then the others. *)
Definition insert_answers (_acknowledgement p : Z) : ST sd_server () :=
  s ← in_sd (in_host (the_sub p));
  if bool_decide (rs_ttl_ s > 0) then
    r ← in_sd (in_host st_get);
    match lock_group r s with
    | Some g =>
        info ← in_sd (in_host (the_group g));
        let its_acked := filter (λ c, has_state SUBSCRIPTION_ACKED s c = true) (get_clients s) in
        let its_nacked := filter (λ c, has_state SUBSCRIPTION_ACKED s c = false) (get_clients s) in
        let target := rs_subscriber_ s ≫= λ t, target_of <$> r_endpoints r !! t in
        (if bool_decide (0 < size its_acked)%nat
         then insert_subscription_ack _acknowledgement info (rs_ttl_ s) target its_acked else mret ());;
        if bool_decide (0 < size its_nacked)%nat
        then insert_subscription_ack _acknowledgement info 0 target its_nacked else mret ()
    | None => mret ()
    end
  else mret ().

(** One round of answers. *)
Definition send_answers (_acknowledgement i : Z) : ST sd_server () :=
  a ← the_ack _acknowledgement;
  for_each (λ p,
    s ← in_sd (in_host (the_sub p));
    if bool_decide (i < rs_answers_ s) then insert_answers _acknowledgement p else mret ())
    (client_list (ack_subscriptions_ a));;
  a ← the_ack _acknowledgement;
  in_sd (sc_send (se_env env) (ack_messages_ a) (ack_target_address_ a));;
  update_subscription_expiration_timer (ack_messages_ a).

Definition initial_events_of (p : Z) : ST sd_client () :=
  s ← in_host (the_sub p);
  if bool_decide (rs_ttl_ s > 0) && rs_is_initial_ s then
    in_host (upd_sub p (rs_with_is_initial false));;
    r ← in_host st_get;
    match lock_group r s with
    | Some g => in_host (send_initial_events (host_env (se_env env)) g (rs_reliable_ s) (rs_unreliable_ s))
    | None => mret ()
    end
  else mret ().

Definition send_subscription_ack (_acknowledgement : Z) : ST sd_server () :=
  a ← the_ack _acknowledgement;
  if ack_is_done_ a then mret ()
  else
    upd_ack _acknowledgement ack_done;;
    '(its_max_answers, do_not_answer, its_parent) ←
      in_sd (count_answers (client_list (ack_subscriptions_ a)) 1 false None);
    if (do_not_answer : bool) then
      match its_parent with
      | Some q => answer_with_parent q
      | None => mret ()
      end
    else
      for_each (send_answers _acknowledgement) (seqZ 0 its_max_answers);;
      for_each (λ p, in_sd (initial_events_of p)) (client_list (ack_subscriptions_ a)).

(** ** Progress of the subscriptions *)

Definition update_acknowledgement (_acknowledgement : Z) : ST sd_server () :=
  a ← the_ack _acknowledgement;
  s ← st_get;
  if ack_is_complete_ a && negb (ack_is_pending (ss_routing s) a) && negb (ack_is_done_ a) then
    send_subscription_ack _acknowledgement;;
    for_each (λ p, st_modify (λ s, ss_set_pending (delete p (pending_remote_subscriptions_ s)) s))
      (client_list (ack_subscriptions_ a))
  else mret ().

(** [update_remote_subscription] of the service discovery. *)
Definition discovery_update (p : Z) : ST sd_server () :=
  x ← in_sd (in_host (the_sub p));
  if negb (is_pending x) || bool_decide (rs_answers_ x = 0) then
    s ← st_get;
    match mjoin (pending_remote_subscriptions_ s !! p) with
    | Some a => update_acknowledgement a
    | None => mret ()
    end
  else mret ().

(** A call of the routing manager that calls back at its end. *)
Definition called_back (x : action) : option Z :=
  match x with Callback p => Some p | DiscoveryUpdate p => Some p | _ => None end.
Definition with_callbacks (m : ST routing ()) : ST sd_server () :=
  s ← st_get;
  in_sd (in_host m);;
  s' ← st_get;
  for_each discovery_update (omap called_back (drop (length (r_actions (ss_routing s))) (r_actions (ss_routing s')))).

(** The objects that nothing refers to any more. *)
Definition live_acks (s : sd_server) : gset Z :=
  list_to_set (omap snd (map_to_list (pending_remote_subscriptions_ s))).
Definition held_subscriptions (s : sd_server) : gset Z :=
  dom (pending_remote_subscriptions_ s) ∪
  ⋃ (omap (λ a, ack_subscriptions_ <$> ss_acks s !! a) (elements (live_acks s))).
Definition release : ST sd_server () :=
  st_modify (λ s,
    let sd := sc_set_routing (r_with_held (held_subscriptions s) (ss_routing s)) (ss_sd s) in
    ss_set_sd sd (ss_set_acks (filter (λ x, x.1 ∈ live_acks s) (ss_acks s)) s)).
End acks.
