(* ===== verification/SdSubscribers.v ===== *)
(** The subscriptions of other devices: how the eventgroup entries of a received message are
    selected, read and handled ([check_stop_subscribe_subscribe], [has_same],
    [has_opposite], [process_eventgroupentry], [handle_eventgroup_subscription] of
    [service_discovery/src/service_discovery_impl.cpp]).

    What an entry asks for is read into a [verdict]: the conditions are tested in the order
    of the code, which answers with a negative acknowledgment, leaves the entry or goes on.
    [std::make_shared] yields an object that does not exist yet. *)
From S2P Require Import Prelude ByteOrder Streams Message SdOptions SdEntries SdMessage.
From S2P Require Import ServiceInfo SdSessions SdAssembly SdOffers Event RemoteSubscription Eventgroups SdRemoteOffers.
From S2P Require Import SdSubscriptions SdAcks.

(** ** Entries of one message *)

Section entries.
  Context (_options : list option_impl).

(** [STOP_SUBSCRIBE_EVENTGROUP] and [SUBSCRIBE_EVENTGROUP] are the same number. *)
Definition check_stop_subscribe_subscribe (_iter : entry_impl) (rest : list entry_impl) : outcome bool :=
  match rest with
  | [] => Ret false
  | its_next :: _ =>
      if bool_decide (e_ttl_ (entry_common _iter) > 0)
         || bool_decide (e_type_ (entry_common _iter) ≠ SUBSCRIBE_EVENTGROUP)
         || bool_decide (e_type_ (entry_common its_next) ≠ SUBSCRIBE_EVENTGROUP)
      then Ret false
      else eventgroupentry_matches _options _iter its_next
  end.

Fixpoint has_same (_iter : entry_impl) (rest : list entry_impl) : outcome bool :=
  match rest with
  | [] => Ret false
  | its_other :: rest =>
      if bool_decide (e_type_ (entry_common _iter) = e_type_ (entry_common its_other))
         && bool_decide (e_ttl_ (entry_common _iter) = e_ttl_ (entry_common its_other)) then
        b ← eventgroupentry_matches _options _iter its_other;
        if (b : bool) then Ret true else has_same _iter rest
      else has_same _iter rest
  end.

Fixpoint has_opposite (_iter : entry_impl) (rest : list entry_impl) : outcome bool :=
  match rest with
  | [] => Ret false
  | its_other :: rest =>
      let ttl := e_ttl_ (entry_common _iter) in
      let other_ttl := e_ttl_ (entry_common its_other) in
      if bool_decide (e_type_ (entry_common its_other) = SUBSCRIBE_EVENTGROUP)
         && (bool_decide (ttl = 0) && bool_decide (other_ttl > 0)
             || bool_decide (ttl > 0) && bool_decide (other_ttl = 0)) then
        b ← eventgroupentry_matches _options _iter its_other;
        if (b : bool) then Ret true else has_opposite _iter rest
      else has_opposite _iter rest
  end.
End entries.

(** ** What an entry asks for *)

(** An address and a port, and whether it is reliable. *)
Record endpoint_read : Type := EndpointRead { er_address : Z; er_port : Z; er_reliable : bool }.
Record entry_reading : Type := EntryReading { first_ : endpoint_read; second_ : endpoint_read; its_clients : gset Z }.

(** [Refuse]: a negative acknowledgment, if the entry is no stop; [Leave]: nothing. *)
Inductive verdict : Type :=
| Refuse (clients : gset Z)
| Leave
| Go (x : entry_reading).

Section reading.
  Context (env : server_env).

Definition check_ipv4_address (its_address : list Z) : outcome bool :=
  if negb (is_v4 (se_env env) (unicast_ (se_env env))) then Throw bad_cast
  else
    let its_unicast_address := address_bytes (se_env env) (unicast_ (se_env env)) in
    let word l := VSOMEIP_BYTES_TO_LONG (nth 0 l 0) (nth 1 l 0) (nth 2 l 0) (nth 3 l 0) in
    if bool_decide (its_unicast_address = its_address) then Ret false
    else Ret (bool_decide (Z.land (word its_unicast_address) (word (netmask env)) =
                           Z.land (word its_address) (word (netmask env)))).

Definition check_layer_four_protocol (ip : ip_option) : bool := bool_decide (ip_protocol_ ip ≠ L4_UNKNOWN).

(** An endpoint option of a subscription; of an IPv6 option neither address nor port is
    tested. *)
Definition valid_endpoint (v4 : bool) (bytes : list Z) (port : Z) : outcome bool :=
  if v4 then ok ← check_ipv4_address bytes; Ret (ok && bool_decide (port ≠ 0)) else Ret true.
Definition read_endpoint (v4 : bool) (bytes : list Z) (ip : ip_option) (x : entry_reading) : outcome verdict :=
  let e := EndpointRead (make_address env bytes) (ip_port_ ip) (bool_decide (ip_protocol_ ip = L4_TCP)) in
  if negb (check_layer_four_protocol ip) then Ret (Refuse (its_clients x))
  else if bool_decide (er_port (first_ x) = ILLEGAL_PORT) then
    if eqb (er_reliable e) (er_reliable (second_ x)) && bool_decide (er_port (second_ x) ≠ ILLEGAL_PORT)
    then Ret (Refuse (its_clients x))
    else
      ok ← valid_endpoint v4 bytes (er_port e);
      Ret (if (ok : bool) then Go (EntryReading e (second_ x) (its_clients x)) else Refuse (its_clients x))
  else if bool_decide (er_port (second_ x) = ILLEGAL_PORT) then
    if eqb (er_reliable e) (er_reliable (first_ x))
    then Ret (Refuse (its_clients x))
    else
      ok ← valid_endpoint v4 bytes (er_port e);
      Ret (if (ok : bool) then Go (EntryReading (first_ x) e (its_clients x)) else Refuse (its_clients x))
  else Ret (Go x).

(** A multicast option of an acknowledgment. *)
Definition read_multicast (bytes : list Z) (ip : ip_option) (x : entry_reading) : verdict :=
  let at_place e := EndpointRead (make_address env bytes) (ip_port_ ip) (er_reliable e) in
  let x := if bool_decide (er_port (first_ x) = ILLEGAL_PORT) then EntryReading (at_place (first_ x)) (second_ x) (its_clients x)
           else if bool_decide (er_port (second_ x) = ILLEGAL_PORT) then EntryReading (first_ x) (at_place (second_ x)) (its_clients x)
           else x in
  if bool_decide (er_port (first_ x) ≠ ILLEGAL_PORT) && bool_decide (er_port (second_ x) ≠ ILLEGAL_PORT)
  then Leave else Go x.

Definition read_option (its_type its_ttl : Z) (its_option : option_impl) (x : entry_reading) : outcome verdict :=
  let t := option_get_type its_option in
  if bool_decide (t = IP4_ENDPOINT) then
    if bool_decide (its_type = SUBSCRIBE_EVENTGROUP) then
      match its_option with Ipv4Option _ ip a => read_endpoint true a ip x | _ => Undef end
    else Ret (Go x)
  else if bool_decide (t = IP6_ENDPOINT) then
    if bool_decide (its_type = SUBSCRIBE_EVENTGROUP) then
      match its_option with Ipv6Option _ ip a => read_endpoint false a ip x | _ => Undef end
    else Ret (Go x)
  else if bool_decide (t = IP4_MULTICAST) then
    if bool_decide (its_type = SUBSCRIBE_EVENTGROUP_ACK) then
      match its_option with Ipv4Option _ ip a => Ret (read_multicast a ip x) | _ => Undef end
    else Ret (Go x)
  else if bool_decide (t = IP6_MULTICAST) then
    if bool_decide (its_type = SUBSCRIBE_EVENTGROUP_ACK) then
      match its_option with Ipv6Option _ ip a => Ret (read_multicast a ip x) | _ => Undef end
    else Ret (Go x)
  else if bool_decide (t = CONFIGURATION) then Ret (Go x)
  else if bool_decide (t = SELECTIVE) then
    Ret (Go (match its_option with
             | SelectiveOption _ c => EntryReading (first_ x) (second_ x) c
             | _ => x
             end))
  else Ret (if bool_decide (its_ttl > 0) then Refuse (its_clients x) else Go x).

Fixpoint read_options (_options : list option_impl) (its_type its_ttl : Z) (indexes : list Z) (x : entry_reading) :
    outcome verdict :=
  match indexes with
  | [] => Ret (Go x)
  | its_index :: indexes =>
      match _options !! Z.to_nat its_index with
      | None => Ret (if bool_decide (its_type = SUBSCRIBE_EVENTGROUP) then Refuse (its_clients x) else Leave)
      | Some its_option =>
          v ← read_option its_type its_ttl its_option x;
          match v with
          | Go x => read_options _options its_type its_ttl indexes x
          | v => Ret v
          end
      end
  end.

(** The tests of message and entry before the options are read. *)
Definition check_subscribe (e : entry_base) (m : sd_message) (_destination : Z) : option verdict :=
  if bool_decide (code_ (sd_header_ m) ≠ E_OK) then Some (Refuse {[0]})
  else if bool_decide (e_type_ e = SUBSCRIBE_EVENTGROUP) then
    if is_multicast (host_env (se_env env)) _destination then Some (Refuse {[0]})
    else if bool_decide (get_num_options 1 e = 0) && bool_decide (get_num_options 2 e = 0) then Some (Refuse {[0]})
    else if bool_decide (options_length_ m < 12) then Some (Refuse {[0]})
    else if bool_decide (Z.of_nat (length (options_ m)) < get_num_options 1 e + get_num_options 2 e) then Some (Refuse {[0]})
    else if bool_decide (length_ (sd_header_ m) < sd_get_length m) && bool_decide (e_ttl_ e > 0) then Some Leave
    else None
  else None.

Definition read_entry (e : entry_base) (m : sd_message) (_destination : Z) : outcome verdict :=
  match check_subscribe e m _destination with
  | Some v => Ret v
  | None =>
      let nothing := EndpointRead (no_address (se_env env)) ILLEGAL_PORT false in
      read_options (snd <$> options_ m) (e_type_ e) (e_ttl_ e) (entry_get_options 1 e ++ entry_get_options 2 e)
        (EntryReading nothing nothing {[0]})
  end.
End reading.

(** ** Handling a subscription *)

Record sd_acceptance_state_t : Type := AcceptanceState { sd_acceptance_required_ : bool; accept_entries_ : bool }.

(** The endpoints do not fit the reliability of the eventgroup. *)
Definition reliability_nack (t : reliability_type_e) (x : entry_reading) : bool :=
  let first_port_set := bool_decide (er_port (first_ x) ≠ ILLEGAL_PORT) in
  let second_port_set := bool_decide (er_port (second_ x) ≠ ILLEGAL_PORT) in
  match t with
  | RT_UNRELIABLE =>
      negb (first_port_set && negb (er_reliable (first_ x))) && negb (second_port_set && negb (er_reliable (second_ x)))
  | RT_RELIABLE =>
      negb (first_port_set && er_reliable (first_ x)) && negb (second_port_set && er_reliable (second_ x))
  | RT_BOTH => negb first_port_set || negb second_port_set || eqb (er_reliable (first_ x)) (er_reliable (second_ x))
  | RT_UNKNOWN => false
  end.

(** Subscriber, reliable and unreliable endpoint. *)
Record subscriber_endpoints : Type := SubscriberEndpoints {
  its_subscriber : option Z;
  its_reliable : option Z;
  its_unreliable : option Z
}.

Section handling.
  Context (env : server_env).

(** [endpoint_definition::get] *)
Definition get_definition (address port : Z) (reliable : bool) (service instance : Z) : ST sd_server Z :=
  s ← st_get;
  let '(p, d) := endpoint_definition_get address port reliable service instance
                   (Definitions (r_endpoints (ss_routing s)) (ss_definitions s)) in
  st_modify (λ s, ss_set_definitions (definitions_ d)
    (ss_set_sd (sc_set_routing (r_with_endpoints (objects d) (ss_routing s)) (ss_sd s)) s));;
  mret p.

(** One endpoint of the entry; [None] when the TCP connection is missing. *)
Definition take_endpoint (service instance g _ttl : Z) (x : endpoint_read) (t : subscriber_endpoints) :
    ST sd_server (option subscriber_endpoints) :=
  if bool_decide (er_port x = ILLEGAL_PORT) then mret (Some t)
  else
    p ← get_definition (er_address x) (er_port x) (er_reliable x) service instance;
    info ← in_sd (in_host (the_group g));
    r ← in_sd (in_host st_get);
    if negb (er_reliable x) && is_multicast (host_env (se_env env)) (eg_address_ info)
       && is_sending_multicast (host_env (se_env env)) r info then
      q ← get_definition (eg_address_ info) (eg_port_ info) false service instance;
      mret (Some (SubscriberEndpoints (Some p) (its_reliable t) (Some q)))
    else if er_reliable x then
      if bool_decide (_ttl > 0) && negb (tcp_established env service instance p) then mret None
      else mret (Some (SubscriberEndpoints (Some p) (Some p) (its_unreliable t)))
    else mret (Some (SubscriberEndpoints (Some p) (its_reliable t) (Some p))).

(** The device is protected and its endpoint too. *)
Definition not_accepted (_sd_ac_state : sd_acceptance_state_t) (x : endpoint_read) : bool :=
  bool_decide (er_port x ≠ ILLEGAL_PORT) && negb (accept_entries_ _sd_ac_state)
  && is_protected_port env (er_address x) (er_port x) (er_reliable x).

Definition new_subscription (g : Z) (t : subscriber_endpoints) (_clients : gset Z) : remote_subscription :=
  reset _clients (rs_with_unreliable (its_unreliable t) (rs_with_reliable (its_reliable t)
    (rs_with_subscriber (its_subscriber t) (rs_with_eventgroupinfo (Some g) remote_subscription_new)))).

(** [std::make_shared<remote_subscription>()] with its members set. *)
Definition make_subscription (s : remote_subscription) : ST sd_server Z :=
  r ← in_sd (in_host st_get);
  let p := fresh (dom (r_subs r)) in
  in_sd (in_host (st_modify (λ r, r_with_held ({[p]} ∪ r_held r) (r_with_subs (<[p := s]> (r_subs r)) r))));;
  mret p.

Definition add_pending (p _acknowledgement : Z) : ST sd_server () :=
  st_modify (λ s, ss_set_pending (<[p := Some _acknowledgement]> (pending_remote_subscriptions_ s)) s);;
  upd_ack _acknowledgement (ack_add_subscription p).

Definition handle_eventgroup_subscription (service instance eventgroup _major _ttl : Z) (x : entry_reading)
    (_acknowledgement : Z) (_is_stop_subscribe_subscribe _force_initial_events : bool)
    (_sd_ac_state : sd_acceptance_state_t) (g : Z) : ST sd_server () :=
  info ← in_sd (in_host (the_group g));
  let nack info := insert_subscription_ack env _acknowledgement info 0 None (its_clients x) in
  if negb (enable_compat (host_env (se_env env))) && reliability_nack (eg_reliability_ info) x && bool_decide (_ttl > 0)
  then nack info
  else if bool_decide (_major ≠ eg_major_ info) then
    if bool_decide (_ttl > 0)
    then nack (eventgroupinfo_new service instance eventgroup _major 0 (no_address (se_env env)))
    else mret ()
  else
    t ← take_endpoint service instance g _ttl (first_ x) (SubscriberEndpoints None None None);
    t ← (match t with Some t => take_endpoint service instance g _ttl (second_ x) t | None => mret None end);
    match t with
    | None => nack info
    | Some t =>
        if bool_decide (_ttl > 0) && sd_acceptance_required_ _sd_ac_state
           && (not_accepted _sd_ac_state (first_ x) || not_accepted _sd_ac_state (second_ x))
        then nack info
        else if bool_decide (_ttl = 0) then
          p ← make_subscription (rs_with_ttl 0 (new_subscription g t (its_clients x)));
          if _is_stop_subscribe_subscribe then mret ()
          else add_pending p _acknowledgement;;
               with_callbacks env (on_remote_unsubscribe (host_env (se_env env)) p)
        else
          let s := new_subscription g t (its_clients x) in
          let s := if _force_initial_events then rs_with_force_initial_events true s else s in
          p ← make_subscription (rs_with_ttl (u32 (_ttl * get_ttl_factor service instance (ttl_factor_subscriptions_ env))) s);
          add_pending p _acknowledgement;;
          with_callbacks env (on_remote_subscribe (host_env (se_env env)) p)
    end.

(** [process_eventgroupentry] of an entry of the message [m]. *)
Definition process_eventgroupentry (_entry : entry_impl) (m : sd_message) (_acknowledgement _sender _destination : Z)
    (_is_stop_subscribe_subscribe _force_initial_events : bool) (_sd_ac_state : sd_acceptance_state_t) :
    ST sd_server () :=
  match _entry with
  | ServiceEntry _ _ => st_lift Undef
  | EventgroupEntry e its_eventgroup _ _ _ _ =>
      let '(its_service, its_instance, its_major, its_ttl) := (e_service_ e, e_instance_ e, e_major_version_ e, e_ttl_ e) in
      found ← in_sd (in_host (find_eventgroup (host_env (se_env env)) its_service its_instance its_eventgroup));
      match found with
      | None =>
          if bool_decide (e_type_ e = SUBSCRIBE_EVENTGROUP) then
            if bool_decide (its_ttl > 0) then
              insert_subscription_ack env _acknowledgement
                (eventgroupinfo_new its_service its_instance its_eventgroup its_major its_ttl (no_address (se_env env))) 0 None {[0]}
            else mret ()
          else in_sd (unsubscribe (se_env env) its_service its_instance its_eventgroup VSOMEIP_ROUTING_CLIENT)
      | Some g =>
          v ← st_lift (read_entry env e m _destination);
          match v with
          | Refuse clients =>
              if bool_decide (its_ttl > 0) then
                info ← in_sd (in_host (the_group g));
                insert_subscription_ack env _acknowledgement info 0 None clients
              else mret ()
          | Leave => mret ()
          | Go x =>
              if bool_decide (e_type_ e = SUBSCRIBE_EVENTGROUP) then
                handle_eventgroup_subscription its_service its_instance its_eventgroup its_major its_ttl x
                  _acknowledgement _is_stop_subscribe_subscribe _force_initial_events _sd_ac_state g
              else if bool_decide (e_type_ e = SUBSCRIBE_EVENTGROUP_ACK) then
                in_sd (if bool_decide (its_ttl > 0)
                       then handle_eventgroup_subscription_ack (se_env env) its_service its_instance its_eventgroup
                              (its_clients x) _sender (er_address (first_ x)) (er_port (first_ x))
                       else handle_eventgroup_subscription_nack (se_env env) its_service its_instance its_eventgroup
                              (its_clients x))
              else mret ()
          end
      end
  end.
End handling.
