(* ===== verification/SdAnswers.v ===== *)
(** The answers that subscriptions of other devices get: what an acknowledgment sends, and
    what happens to it. *)
From S2P Require Import Prelude ByteOrder Streams Message SdOptions SdEntries SdMessage.
From S2P Require Import ServiceInfo SdSessions SdAssembly SdOffers Event RemoteSubscription Eventgroups SdRemoteOffers.
From S2P Require Import SdSubscriptions SdRenewals SdAcks SdSubscribers.

Section answers.
  Context (env : server_env).

(** The addresses of options differ, and an address has four or sixteen bytes. *)
Definition server_ok : Prop :=
  Inj (=) (=) (alloc (se_env env)) ∧
  ∀ a, bytes (address_bytes (se_env env) a) ∧
       length (address_bytes (se_env env) a) = (if is_v4 (se_env env) a then 4 else 16)%nat.

Abbreviation answer_ok n := (Forall (msg_ok (alloc (se_env env)) n)).

(** What an answer says. *)
Definition answer_body (info : eventgroupinfo) (ttl : Z) : Z * Z * Z * Z * Z * Z :=
  (SUBSCRIBE_EVENTGROUP_ACK, eg_service_ info, eg_instance_ info, eg_major_ info, ttl, eg_eventgroup_ info).

Lemma answer_entry_body info ttl t : entry_body (answer_entry info ttl t) = answer_body info ttl.
Proof.
  unfold answer_entry. destruct (if bool_decide (ttl > 0) then t else None) as [d|]; [|done].
  unfold add_target. by destruct (ep_is_reliable_ d).
Qed.
Lemma answers_to_body info ttl x : answers_to info ttl x = true → entry_body x = answer_body info ttl.
Proof.
  destruct x as [|e g r c t u]; [done|]. cbn. rewrite !andb_true_iff, !bool_decide_eq_true.
  intros [[[[[H1 H2] H3] H4] H5] H6]. unfold entry_body, answer_body. cbn. congruence.
Qed.

(** ** Merging with an earlier answer *)

Lemma merge_target_same ttl t x : entry_common (merge_target ttl t x) = entry_common x ∧
  entry_body (merge_target ttl t x) = entry_body x.
Proof.
  unfold merge_target, get_target, add_target. destruct (bool_decide _); [|done]. destruct t as [t|]; [|done].
  destruct x as [|e g r c tr tu]; [by destruct (ep_is_reliable_ t)|]. destruct (ep_is_reliable_ t), tr, tu; done.
Qed.

Lemma merge_answer_spec n i x ttl t m : msg_ok (alloc (se_env env)) n m → entries_ m !! i = Some x →
  ∃ m', merge_answer i x ttl t {[0]} m = Ret m' ∧ msg_ok (alloc (se_env env)) n m' ∧
    entry_body <$> entries_ m' = entry_body <$> entries_ m.
Proof.
  intros (Hinv&Hopt&Hone&Hk) Hi. destruct (merge_target_same ttl t x) as [Hc Hb].
  exists (SdMessage (sd_header_ m) (flags_ m) (options_length_ m) (<[i := merge_target ttl t x]> (entries_ m))
            (options_ m) (current_message_size_ m)). split; [done|]. split.
  - split; [|done]. destruct Hinv as [H1 H2]. split; cbn [entries_ options_ current_message_size_].
    + by rewrite length_insert.
    + apply Forall_insert; [done|]. rewrite Hc. by apply (Forall_lookup_1 _ _ _ _ H2 Hi).
  - cbn [entries_]. rewrite list_fmap_insert, Hb. apply list_insert_id. by rewrite list_lookup_fmap, Hi.
Qed.

(** ** Entries of answers *)

(** The clients of an answer have sixteen bits and their option fits a message. *)
Definition answered_ok (cs : gset Z) : Prop := cs ≠ ∅ ∧ set_Forall is_u16 cs ∧ (size cs ≤ 600)%nat.

(** The state with other messages of the acknowledgment [x] at [a], and with the options
    that were allocated for them. *)
Definition answering (a : Z) (x : remote_subscription_ack) (ms : list sd_message) (n : nat) (s : sd_server) : sd_server :=
  ss_set_acks (<[a := ack_set_messages ms x]> (ss_acks s)) (ss_set_sd (sc_set_next_option n (ss_sd s)) s).

Lemma answering_answering a x ms n ms' n' s :
  answering a (ack_set_messages ms x) ms' n' (answering a x ms n s) = answering a x ms' n' s.
Proof. unfold answering. destruct s as [sd ? ? ? ? ?]; destruct sd. cbn. by rewrite insert_insert_eq. Qed.
Lemma answering_same a x s : ss_acks s !! a = Some x → answering a x (ack_messages_ x) (sc_next_option (ss_sd s)) s = s.
Proof.
  intros H. unfold answering. destruct s as [sd ? ? ? ? ?]; destruct sd. cbn in *. rewrite insert_id; [done|].
  rewrite H. by destruct x.
Qed.

Lemma names_clients_spec cs : cs ≠ ∅ → ∃ b, names_clients cs = Ret b ∧ (cs = {[0]} → b = false).
Proof.
  intros Hne. unfold names_clients. destruct (decide (1 < size cs)%nat) as [H|H].
  - rewrite bool_decide_true by done. exists true. split; [done|]. intros ->. rewrite size_singleton in H. lia.
  - rewrite bool_decide_false by done. destruct (client_list cs) as [|c l] eqn:E.
    + exfalso. apply Hne. apply set_eq. intros c. rewrite <- elem_of_client_list, E. set_solver.
    + eexists. split; [done|]. intros ->. apply bool_decide_eq_false. intros Hc. apply Hc.
      assert (c ∈ client_list {[0]}) as Hin by (rewrite E; by left). rewrite elem_of_client_list in Hin. set_solver.
Qed.

Lemma answer_options_spec info ttl cs sd : server_ok → is_u16 (eg_port_ info) → answered_ok cs →
  ∃ n opts, answer_options env info ttl cs sd = Ret (opts, sc_set_next_option n sd) ∧
    fresh_options (alloc (se_env env)) (sc_next_option sd) n opts.
Proof.
  intros [Hinj Haddr] Hport (Hne&Hu&Hsz). unfold answer_options.
  set (mc := bool_decide (ttl > 0) && _ && _).
  set (l1 := if mc then [create_ip_option_at (se_env env) (eg_address_ info) (eg_port_ info) false] else []).
  destruct (names_clients_spec cs Hne) as (b&Hb&_).
  set (l2 := if b then [SelectiveOption (set_clients cs (OptionBase 1 SELECTIVE)).1 cs] else []).
  exists (length (l1 ++ l2) + sc_next_option sd)%nat, (allocated (alloc (se_env env)) (sc_next_option sd) (l1 ++ l2)).
  split.
  - subst l1 l2. destruct mc; st_run; rewrite Hb; destruct b; by destruct sd.
  - apply allocated_fresh; [done| | |].
    + subst l1 l2. destruct mc, b; cbn; lia.
    + intros p. apply Forall_app. subst l1 l2. destruct (Haddr (eg_address_ info)) as [Hbs Hl].
      split; [destruct mc|destruct b]; try apply Forall_nil_2; apply Forall_singleton;
        [by apply ip_option_good|by apply selective_option_good].
    + rewrite (allocated_app (se_env env)), options_size_app.
      assert (∀ n, options_size (allocated (alloc (se_env env)) n l1) ≤ 24) as H1.
      { intros n. subst l1. destruct mc; [|done]. cbn [allocated options_size foldr]. unfold create_ip_option_at.
        rewrite Z.add_0_r. apply ip_option_size. }
      assert (∀ n, options_size (allocated (alloc (se_env env)) n l2) ≤ 1204) as H2.
      { intros n. subst l2. destruct b; [|done]. cbn [allocated options_size foldr]. rewrite Z.add_0_r. by apply selective_option_good. }
      specialize (H1 (sc_next_option sd)). specialize (H2 (length l1 + sc_next_option sd)%nat). lia.
Qed.

Lemma answer_entry_new info ttl t : new_entry (answer_entry info ttl t).
Proof.
  assert (entry_common (answer_entry info ttl t) = entry_set_ttl ttl (entry_set_major_version (eg_major_ info)
    (entry_set_instance (eg_instance_ info) (entry_set_service (eg_service_ info)
      (entry_set_type SUBSCRIBE_EVENTGROUP_ACK entry_base_new))))) as E.
  { unfold answer_entry, add_target. destruct (if bool_decide (ttl > 0) then t else None) as [d|]; [|done].
    by destruct (ep_is_reliable_ d). }
  unfold new_entry. rewrite E. split; [split_and!; [by exists 0|by exists 0|done|done]|]. intros k Hk. by apply elem_of_nil in Hk.
Qed.

(** An answer in the messages of its acknowledgment: what they say is what they said and
    the answer. *)
Lemma insert_answer_spec a x info ttl t cs s : server_ok → is_u16 (eg_port_ info) → answered_ok cs →
  (cs = {[0]} ∨ ∀ m y, last (ack_messages_ x) = Some m → y ∈ entries_ m → answers_to info ttl y = false) →
  ss_acks s !! a = Some x → ack_messages_ x ≠ [] → answer_ok (sc_next_option (ss_sd s)) (ack_messages_ x) →
  ∃ n ms, insert_subscription_ack env a info ttl t cs s = Ret ((), answering a x ms n s) ∧
    (sc_next_option (ss_sd s) ≤ n)%nat ∧ ms ≠ [] ∧ answer_ok n ms ∧
    ∀ b, b ∈ bodies ms ↔ b ∈ bodies (ack_messages_ x) ∨ b = answer_body info ttl.
Proof.
  intros Hok Hport Hcs Hmerge Ha Hne Hms. pose proof Hok as [Hinj _].
  unfold insert_subscription_ack. rewrite (st_bind_Ret (the_ack a) _ s x s) by (unfold the_ack; st_run; by rewrite Ha).
  destruct (ack_messages_ x) as [|m ms _] eqn:Ex using rev_ind; [done|]. rewrite last_snoc.
  destruct (list_find _ (entries_ m)) as [[i y]|] eqn:Ef.
  - apply list_find_Some in Ef as (Hi&Hy&_). destruct Hmerge as [->|Hno].
    2:{ rewrite (Hno m y) in Hy; [done|by rewrite last_snoc|by eapply list_elem_of_lookup_2]. }
    apply Forall_app in Hms as [Hms Hm]. apply Forall_cons_1 in Hm as [Hm _].
    destruct (merge_answer_spec _ i y ttl t m Hm Hi) as (m'&Em&Hm'&Hb).
    exists (sc_next_option (ss_sd s)), (ms ++ [m']). split.
    + rewrite removelast_last. st_run. rewrite Em. unfold upd_ack, answering. st_run. do 2 f_equal.
      rewrite (alter_insert_lookup _ _ _ _ Ha). destruct s as [sd ? ? ? ? ?]. by destruct sd.
    + split; [done|]. split; [by destruct ms|]. split; [by apply Forall_app; split; [|apply Forall_singleton]|].
      intros b. rewrite !bodies_snoc, Hb. split; [by left|]. intros [?| ->]; [done|].
      rewrite elem_of_app. right. rewrite <- (answers_to_body _ _ _ Hy). apply list_elem_of_fmap_2. by eapply list_elem_of_lookup_2.
  - clear Hmerge Ef. destruct (answer_options_spec info ttl cs (ss_sd s) Hok Hport Hcs) as (n&opts&Eo&Hf).
    destruct (sd_add_new_entry (alloc (se_env env)) Hinj _ n (answer_entry info ttl t) opts None (ms ++ [m]) Hne Hms Hf)
      as (ms'&Ea&Hne'&Hms'&Hb&_); [by apply answer_entry_new|done|].
    exists n, ms'. split.
    + unfold in_sd. st_run. rewrite Eo, Ea. unfold upd_ack, answering. st_run. do 2 f_equal.
      cbn [ss_set_sd ss_acks]. by rewrite (alter_insert_lookup _ _ _ _ Ha).
    + destruct Hf as [Hn _]. split_and!; [done..|]. intros b. rewrite Hb, elem_of_app. cbn [option_list fmap list_fmap].
      rewrite answer_entry_body. set_solver.
Qed.

(** ** The answers of one subscription *)

(** A subscription of a device, without selection of clients, that the application has
    decided about; it is answered once. *)
Definition decided (r : routing) (p : Z) (x : remote_subscription) (info : eventgroupinfo) : Prop :=
  r_subs r !! p = Some x ∧ get_clients x = {[0]} ∧ is_pending x = false ∧ rs_answers_ x = 1 ∧ rs_ttl_ x > 0 ∧
  ∃ g, lock_group r x = Some g ∧ r_groups r !! g = Some info ∧ is_u16 (eg_port_ info).

(** The time to live of the answer: zero says that the subscription is refused. *)
Definition answer_ttl (x : remote_subscription) : Z :=
  if has_state SUBSCRIPTION_ACKED x 0 then rs_ttl_ x else 0.

Lemma in_host_get s : in_sd (in_host st_get) s = Ret (ss_routing s, s).
Proof. by destruct s as [sd ? ? ? ? ?]; destruct sd. Qed.
Lemma in_host_sub p x s : r_subs (ss_routing s) !! p = Some x → in_sd (in_host (the_sub p)) s = Ret (x, s).
Proof.
  intros H. unfold in_sd, in_host, the_sub. st_run. unfold ss_routing in H. rewrite H. by destruct s as [sd ? ? ? ? ?]; destruct sd.
Qed.
Lemma in_host_group g x s : r_groups (ss_routing s) !! g = Some x → in_sd (in_host (the_group g)) s = Ret (x, s).
Proof.
  intros H. unfold in_sd, in_host, the_group. st_run. unfold ss_routing in H. rewrite H. by destruct s as [sd ? ? ? ? ?]; destruct sd.
Qed.

Lemma plain_answered : answered_ok {[0]}.
Proof. split_and!; [set_solver| |rewrite size_singleton; lia]. intros c ->%elem_of_singleton. unfold is_u16. lia. Qed.

Lemma filter_plain (f : Z → bool) b : filter (λ c, f c = b) ({[0]} : gset Z) = if decide (f 0 = b) then {[0]} else ∅.
Proof. rewrite filter_singleton_L; [done|apply _]. Qed.

Lemma insert_answers_spec a x p y info s : server_ok → decided (ss_routing s) p y info →
  ss_acks s !! a = Some x → ack_messages_ x ≠ [] → answer_ok (sc_next_option (ss_sd s)) (ack_messages_ x) →
  ∃ n ms, insert_answers env a p s = Ret ((), answering a x ms n s) ∧
    (sc_next_option (ss_sd s) ≤ n)%nat ∧ ms ≠ [] ∧ answer_ok n ms ∧
    ∀ b, b ∈ bodies ms ↔ b ∈ bodies (ack_messages_ x) ∨ b = answer_body info (answer_ttl y).
Proof.
  intros Hok (Hp&Hc&_&_&Httl&g&Hg&Hi&Hport) Ha Hne Hms. unfold insert_answers.
  rewrite (st_bind_Ret _ _ _ _ _ (in_host_sub p y s Hp)). rewrite bool_decide_true by done.
  rewrite (st_bind_Ret _ _ _ _ _ (in_host_get s)), Hg, (st_bind_Ret _ _ _ _ _ (in_host_group g info s Hi)), Hc.
  set (t := rs_subscriber_ y ≫= _). unfold answer_ttl. destruct (has_state SUBSCRIPTION_ACKED y 0) eqn:Es.
  - assert (filter (λ c, has_state SUBSCRIPTION_ACKED y c = true) ({[0]} : gset Z) = {[0]}) as -> by (rewrite filter_plain; by rewrite decide_True).
    assert (filter (λ c, has_state SUBSCRIPTION_ACKED y c = false) ({[0]} : gset Z) = ∅) as -> by (rewrite filter_plain; by rewrite decide_False by by rewrite Es).
    rewrite size_singleton, size_empty. cbn [bool_decide decide_rel].
    destruct (insert_answer_spec a x info (rs_ttl_ y) t {[0]} s Hok Hport plain_answered (or_introl eq_refl) Ha Hne Hms)
      as (n&ms&E&H). exists n, ms. split; [|done].
    rewrite (bool_decide_true (0 < 1)%nat) by lia. by rewrite (st_bind_Ret _ _ _ _ _ E).
  - assert (filter (λ c, has_state SUBSCRIPTION_ACKED y c = true) ({[0]} : gset Z) = ∅) as -> by (rewrite filter_plain; by rewrite decide_False by by rewrite Es).
    assert (filter (λ c, has_state SUBSCRIPTION_ACKED y c = false) ({[0]} : gset Z) = {[0]}) as -> by (rewrite filter_plain; by rewrite decide_True).
    rewrite size_singleton, size_empty.
    destruct (insert_answer_spec a x info 0 t {[0]} s Hok Hport plain_answered (or_introl eq_refl) Ha Hne Hms)
      as (n&ms&E&H). exists n, ms. split; [|done].
    rewrite (bool_decide_true (0 < 1)%nat) by lia. rewrite (bool_decide_false (0 < 0)%nat) by lia. by st_run.
Qed.

(** ** The answers of all subscriptions *)

(** What the messages say after the answers of [ps]. *)
Definition says (r : routing) (ps : list Z) (old : list sd_message) (b : Z * Z * Z * Z * Z * Z) : Prop :=
  b ∈ bodies old ∨ ∃ p y info, p ∈ ps ∧ decided r p y info ∧ b = answer_body info (answer_ttl y).

Lemma decided_unique r p y info y' info' : decided r p y info → decided r p y' info' → y = y' ∧ info = info'.
Proof.
  intros (H1&_&_&_&_&g&Hg&Hi&_) (H1'&_&_&_&_&g'&Hg'&Hi'&_). rewrite H1 in H1'. injection H1' as <-.
  rewrite Hg in Hg'. injection Hg' as <-. split; congruence.
Qed.

Lemma answers_loop a ps : ∀ x s, server_ok → Forall (λ p, ∃ y info, decided (ss_routing s) p y info) ps →
  ss_acks s !! a = Some x → ack_messages_ x ≠ [] → answer_ok (sc_next_option (ss_sd s)) (ack_messages_ x) →
  ∃ n ms, for_each (λ p, y ← in_sd (in_host (the_sub p));
      if bool_decide (0 < rs_answers_ y) then insert_answers env a p else mret ()) ps s = Ret ((), answering a x ms n s) ∧
    ms ≠ [] ∧ answer_ok n ms ∧ ∀ b, b ∈ bodies ms ↔ says (ss_routing s) ps (ack_messages_ x) b.
Proof.
  induction ps as [|p ps IH]; intros x s Hok Hps Ha Hne Hms; cbn [for_each].
  { exists (sc_next_option (ss_sd s)), (ack_messages_ x). rewrite answering_same by done. split_and!; try done.
    intros b. unfold says. split; [by left|]. intros [?|(?&?&?&[]%elem_of_nil&_)]; done. }
  apply Forall_cons_1 in Hps as [(y&info&Hd) Hps].
  destruct (insert_answers_spec a x p y info s Hok Hd Ha Hne Hms) as (n&ms&E&Hn&Hne1&Hms1&Hb1).
  pose proof Hd as (Hp&_&_&Hans&_).
  assert (E0 : (z ← in_sd (in_host (the_sub p)); if bool_decide (0 < rs_answers_ z) then insert_answers env a p else mret ()) s
    = Ret ((), answering a x ms n s)).
  { rewrite (st_bind_Ret _ _ _ _ _ (in_host_sub p y s Hp)), Hans. by rewrite bool_decide_true by lia. }
  rewrite (st_bind_Ret _ _ _ _ _ E0). clear E0.
  destruct (IH (ack_set_messages ms x) (answering a x ms n s)) as (n2&ms2&E2&Hne2&Hms2&Hb2); [done|done| |done|done|].
  { unfold answering. cbn. by rewrite lookup_insert_eq. }
  rewrite E2, answering_answering. exists n2, ms2. split_and!; try done.
  intros b. rewrite Hb2. unfold says. change (ss_routing (answering a x ms n s)) with (ss_routing s).
  cbn [ack_set_messages ack_messages_]. rewrite Hb1. split.
  - intros [[?| ->]|(q&z&i&Hq&H)]; [by left| |].
    + right. exists p, y, info. split; [by left|done].
    + right. exists q, z, i. split; [by right|done].
  - intros [?|(q&z&i&[->|Hq]%elem_of_cons&Hd'&->)]; [by do 2 left| |].
    + destruct (decided_unique _ _ _ _ _ _ Hd Hd') as [<- <-]. left. by right.
    + right. by exists q, z, i.
Qed.

Lemma count_answers_spec ps : ∀ s, Forall (λ p, ∃ y info, decided (sc_routing s) p y info) ps →
  count_answers ps 1 false None s = Ret ((1, false, None), s).
Proof.
  induction ps as [|p ps IH]; intros s Hps; cbn [count_answers]; [done|].
  apply Forall_cons_1 in Hps as [(y&info&Hp&_&_&Hans&_) Hps].
  assert (E : in_host (the_sub p) s = Ret (y, s)).
  { unfold in_host, the_sub. st_run. rewrite Hp. by destruct s. }
  assert (E' : in_host st_get s = Ret (sc_routing s, s)) by by destruct s.
  rewrite (st_bind_Ret _ _ _ _ _ E), (st_bind_Ret _ _ _ _ _ E'), Hans.
  rewrite (bool_decide_false (1 > 1)), (bool_decide_false (1 = 0)) by lia. by apply IH.
Qed.

(** ** Initial events *)

(** The states differ at most in events and in what was sent. *)
Definition only_events (r r' : routing) : Prop :=
  r_subs r' = r_subs r ∧ r_groups r' = r_groups r ∧ (∀ e, is_Some (r_events r !! e) → is_Some (r_events r' !! e)).

Lemma notify_at_returns e c t r : is_Some (r_events r !! e) →
  ∃ r', on_event_at e (notify_one_to c t) r = Ret ((), r') ∧ only_events r r'.
Proof.
  intros [x Hx]. unfold on_event_at.
  rewrite (st_bind_Ret (the_event e) _ r x r) by (unfold the_event; st_run; by rewrite Hx).
  set (w := World x (r_clock r) (r_has_sessions r) (r_session_ r) (r_sent r)). assert (∃ w', notify_one_to c t w = Ret ((), w')) as [w' Ew].
  { destruct t as [t|]; [|by eexists]. rewrite notify_one_to_eq. by eexists. }
  eexists. split; [st_run; fold w; by rewrite Ew|]. split_and!; try done.
  intros k Hk. cbn. destruct (decide (k = e)) as [->|Hne]; [by rewrite lookup_insert_eq; eexists|by rewrite lookup_insert_ne].
Qed.

Lemma notify_all_returns es c t : ∀ r, Forall (λ e, is_Some (r_events r !! e)) es →
  ∃ r', for_each (λ e, on_event_at e (notify_one_to c t)) es r = Ret ((), r') ∧ only_events r r'.
Proof.
  induction es as [|e es IH]; intros r Hes; cbn [for_each]; [by exists r|].
  apply Forall_cons_1 in Hes as [He Hes]. destruct (notify_at_returns e c t r He) as (r1&E1&H1&H2&H3).
  destruct (IH r1) as (r2&E2&H1'&H2'&H3'); [by eapply Forall_impl; [exact Hes|]; auto|].
  exists r2. rewrite (st_bind_Ret _ _ _ _ _ E1). split; [done|]. split_and!; [congruence..|auto].
Qed.

Lemma send_initial_events_returns e g rel unrel r : is_Some (r_groups r !! g) →
  ∃ r', send_initial_events e g rel unrel r = Ret ((), r') ∧ only_events r r'.
Proof.
  intros [info Hg]. unfold send_initial_events.
  rewrite (st_bind_Ret (the_group g) _ r info r) by (unfold the_group; st_run; by rewrite Hg).
  rewrite (st_bind_Ret st_get _ r r r) by done.
  destruct (initial_events e r rel unrel (eg_events_ info)) as [es1 es2] eqn:Ee.
  assert (∀ k, k ∈ es1 ∨ k ∈ es2 → is_Some (r_events r !! k)) as Hes.
  { unfold initial_events in Ee. injection Ee as <- <-. intros k Hk.
    rewrite !elem_of_list_to_set, !list_elem_of_filter in Hk. destruct (r_events r !! k); [by eexists|]. by destruct Hk as [[? _]|[? _]]. }
  destruct (notify_all_returns (elements es1) VSOMEIP_ROUTING_CLIENT rel r) as (r1&E1&H1&H2&H3).
  { apply Forall_forall. intros k Hk%elem_of_elements. apply Hes. by left. }
  destruct (notify_all_returns (elements es2) VSOMEIP_ROUTING_CLIENT unrel r1) as (r2&E2&H1'&H2'&H3').
  { apply Forall_forall. intros k Hk%elem_of_elements. apply H3, Hes. by right. }
  exists r2. rewrite (st_bind_Ret _ _ _ _ _ E1). split; [done|]. split_and!; [congruence..|auto].
Qed.

Lemma initial_events_of_returns p sd : is_Some (r_subs (sc_routing sd) !! p) →
  ∃ r, initial_events_of env p sd = Ret ((), sc_set_routing r sd) ∧
    (∀ q, is_Some (r_subs (sc_routing sd) !! q) → is_Some (r_subs r !! q)).
Proof.
  intros [y Hy]. unfold initial_events_of.
  assert (in_host (the_sub p) sd = Ret (y, sd)) as E by (unfold in_host, the_sub; st_run; rewrite Hy; by destruct sd).
  rewrite (st_bind_Ret _ _ _ _ _ E). destruct (_ && _).
  2:{ exists (sc_routing sd). split; [by destruct sd|done]. }
  set (r1 := r_with_subs (alter (rs_with_is_initial false) p (r_subs (sc_routing sd))) (sc_routing sd)).
  assert (∀ q, is_Some (r_subs (sc_routing sd) !! q) → is_Some (r_subs r1 !! q)) as H1.
  { intros q Hq. cbn. destruct (decide (q = p)) as [->|Hne]; [|by rewrite lookup_alter_ne].
    rewrite lookup_alter_eq, Hy. by eexists. }
  rewrite (st_bind_Ret (in_host (upd_sub p (rs_with_is_initial false))) _ sd () (sc_set_routing r1 sd)) by by destruct sd.
  rewrite (st_bind_Ret (in_host st_get) _ (sc_set_routing r1 sd) r1 (sc_set_routing r1 sd)) by by destruct sd.
  destruct (lock_group r1 y) as [g|] eqn:Eg; [|by exists r1].
  assert (is_Some (r_groups r1 !! g)) as Hg.
  { unfold lock_group in Eg. apply bind_Some in Eg as (g'&_&Eg). case_bool_decide; [|done]. by injection Eg as <-. }
  destruct (send_initial_events_returns (host_env (se_env env)) g (rs_reliable_ y) (rs_unreliable_ y) r1 Hg) as (r2&E2&H2&_).
  exists r2. split; [|by rewrite H2]. unfold in_host. st_run. cbn [sc_routing sc_set_routing]. by rewrite E2.
Qed.

Lemma initial_events_loop ps : ∀ s, Forall (λ p, is_Some (r_subs (ss_routing s) !! p)) ps →
  ∃ r, for_each (λ p, in_sd (initial_events_of env p)) ps s = Ret ((), ss_set_sd (sc_set_routing r (ss_sd s)) s).
Proof.
  induction ps as [|p ps IH]; intros s Hps; cbn [for_each].
  { exists (ss_routing s). by destruct s as [sd ? ? ? ? ?]; destruct sd. }
  apply Forall_cons_1 in Hps as [Hp Hps]. destruct (initial_events_of_returns p (ss_sd s) Hp) as (r&E&Hr).
  assert (in_sd (initial_events_of env p) s = Ret ((), ss_set_sd (sc_set_routing r (ss_sd s)) s)) as E1.
  { unfold in_sd. st_run. by rewrite E. }
  rewrite (st_bind_Ret _ _ _ _ _ E1). destruct (IH (ss_set_sd (sc_set_routing r (ss_sd s)) s)) as [r2 ->].
  { eapply Forall_impl; [exact Hps|]. intros q. apply Hr. }
  by exists r2.
Qed.

(** ** Sending *)

(** The messages [ms] were given to the host for the address. *)
Definition given (address : Z) (ms : list sd_message) (w w' : sd_net) : Prop :=
  ∃ out, net_out w' = net_out w ++ out ∧
    Forall2 (λ m o, ∃ z, o.1 = SendViaSd address (sd_wire (stamp z m))) ms out.

Lemma sc_send_gives ms address n sd : is_unspecified (se_env env) address = false →
  ser_data_ (serializer_ (sc_net sd)) = [] → answer_ok n ms →
  ∃ w, sc_send (se_env env) ms address sd = Ret ((), sc_set_net w sd) ∧
    given address (filter (λ m, has_entry m = true) ms) (sc_net sd) w.
Proof.
  intros Ha Hs Hms.
  destruct (send_to_outputs (is_unspecified (se_env env)) (accepts (se_env env)) (buffer_capacity (se_env env)) ms address (sc_net sd))
    as (b&w&out&E&_&Ho&Hf); [done..| |].
  - eapply Forall_impl; [exact Hms|]. intros m. by apply msg_ok_sendable.
  - exists w. split; [|by exists out]. unfold sc_send. st_run. by rewrite E.
Qed.

Lemma erase_pending_eq ps : ∀ s : sd_server,
  for_each (λ p, st_modify (λ s, ss_set_pending (delete p (pending_remote_subscriptions_ s)) s)) ps s =
  Ret ((), ss_set_pending (foldl (λ m p, delete p m) (pending_remote_subscriptions_ s) ps) s).
Proof.
  induction ps as [|p ps IH]; intros s; cbn [for_each foldl]; [by destruct s|].
  rewrite (st_bind_Ret _ _ _ _ _ (eq_refl : st_modify _ s = Ret ((), _))). rewrite IH. by destruct s.
Qed.
Lemma lookup_foldl_delete {A} ps : ∀ (m : gmap Z A) p, foldl (λ m p, delete p m) m ps !! p = if decide (p ∈ ps) then None else m !! p.
Proof.
  induction ps as [|q ps IH]; intros m p; cbn [foldl].
  - rewrite decide_False; [done|]. by intros ?%elem_of_nil.
  - rewrite IH. destruct (decide (p ∈ ps)) as [H|H].
    + rewrite decide_True; [done|by right].
    + destruct (decide (p = q)) as [->|Hne].
      * rewrite lookup_delete_eq, decide_True by by left. done.
      * rewrite lookup_delete_ne, decide_False by (by rewrite ?elem_of_cons; naive_solver || done). done.
Qed.

(** What an acknowledgment sends: one round of answers, then the initial events. *)
Lemma send_subscription_ack_spec a x s : server_ok → ser_data_ (serializer_ (sc_net (ss_sd s))) = [] →
  ss_acks s !! a = Some x → ack_is_done_ x = false → ack_messages_ x ≠ [] →
  answer_ok (sc_next_option (ss_sd s)) (ack_messages_ x) → is_unspecified (se_env env) (ack_target_address_ x) = false →
  Forall (λ p, ∃ y info, decided (ss_routing s) p y info) (client_list (ack_subscriptions_ x)) →
  ∃ s' ms, send_subscription_ack env a s = Ret ((), s') ∧
    given (ack_target_address_ x) ms (sc_net (ss_sd s)) (sc_net (ss_sd s')) ∧
    (∀ b, b ∈ bodies ms ↔ says (ss_routing s) (client_list (ack_subscriptions_ x)) (ack_messages_ x) b) ∧
    pending_remote_subscriptions_ s' = pending_remote_subscriptions_ s ∧
    ∃ x', ss_acks s' !! a = Some x' ∧ ack_is_done_ x' = true.
Proof.
  intros Hok Hser Ha Hdone Hne Hms Haddr Hps. unfold send_subscription_ack.
  rewrite (st_bind_Ret (the_ack a) _ s x s) by (unfold the_ack; st_run; by rewrite Ha). rewrite Hdone.
  set (s1 := ss_set_acks (<[a := ack_done x]> (ss_acks s)) s).
  assert (upd_ack a ack_done s = Ret ((), s1)) as E1.
  { unfold upd_ack. st_run. by rewrite (alter_insert_lookup _ _ _ _ Ha). }
  rewrite (st_bind_Ret _ _ _ _ _ E1).
  assert (in_sd (count_answers (client_list (ack_subscriptions_ x)) 1 false None) s1 = Ret ((1, false, None), s1)) as E2.
  { unfold in_sd. st_run. rewrite count_answers_spec by done. by destruct s as [sd ? ? ? ? ?]; destruct sd. }
  rewrite (st_bind_Ret _ _ _ _ _ E2). change (seqZ 0 1) with [0]. cbn [for_each].
  assert (ss_acks s1 !! a = Some (ack_done x)) as Ha1 by (cbn; by rewrite lookup_insert_eq).
  destruct (answers_loop a (client_list (ack_subscriptions_ x)) (ack_done x) s1 Hok Hps Ha1 Hne Hms) as (n&ms&E3&Hne3&Hms3&Hb3).
  set (s2 := answering a (ack_done x) ms n s1) in *.
  destruct (sc_send_gives ms (ack_target_address_ x) n (ss_sd s2) Haddr Hser Hms3) as (w&E4&Hw).
  set (s3 := ss_set_sd (sc_set_net w (ss_sd s2)) s2).
  assert (∃ s4, send_answers env a 0 s1 = Ret ((), s4) ∧ ss_sd s4 = ss_sd s3 ∧ ss_acks s4 = ss_acks s3 ∧
    pending_remote_subscriptions_ s4 = pending_remote_subscriptions_ s) as (s4&E5&H4&H4'&H4'').
  { unfold send_answers. rewrite (st_bind_Ret (the_ack a) _ s1 (ack_done x) s1) by (unfold the_ack; st_run; by rewrite Ha1).
    change (ack_subscriptions_ (ack_done x)) with (ack_subscriptions_ x).
    rewrite (st_bind_Ret _ _ _ _ _ E3).
    rewrite (st_bind_Ret (the_ack a) _ s2 (ack_set_messages ms (ack_done x)) s2)
      by (unfold the_ack; st_run; unfold s2, answering; cbn; by rewrite lookup_insert_eq).
    assert (in_sd (sc_send (se_env env) ms (ack_target_address_ x)) s2 = Ret ((), s3)) as E6 by (unfold in_sd; st_run; by rewrite E4).
    cbn [ack_messages_ ack_set_messages ack_target_address_ ack_done]. rewrite (st_bind_Ret _ _ _ _ _ E6).
    unfold update_subscription_expiration_timer. eexists. split; [reflexivity|]. done. }
  rewrite (st_bind_Ret (send_answers env a 0;; mret ()) _ s1 () s4) by by rewrite (st_bind_Ret _ _ _ _ _ E5).
  destruct (initial_events_loop (client_list (ack_subscriptions_ x)) s4) as [r ->].
  { unfold ss_routing. rewrite H4. eapply Forall_impl; [exact Hps|]. intros p (y&info&Hp&_). exists y. exact Hp. }
  eexists _, _. split; [reflexivity|]. split; [|split; [|split]].
  - cbn [ss_sd ss_set_sd sc_net sc_set_routing]. rewrite H4. exact Hw.
  - intros b. rewrite bodies_sent. apply Hb3.
  - done.
  - cbn [ss_acks ss_set_sd]. rewrite H4'. unfold s3, s2, answering. cbn. rewrite lookup_insert_eq. by eexists.
Qed.

(** ** Progress *)

(** An acknowledgment that can be sent. *)
Definition sendable_ack (a : Z) (x : remote_subscription_ack) (s : sd_server) : Prop :=
  ss_acks s !! a = Some x ∧ ack_is_complete_ x = true ∧ ack_is_done_ x = false ∧ ack_messages_ x ≠ [] ∧
  answer_ok (sc_next_option (ss_sd s)) (ack_messages_ x) ∧ is_unspecified (se_env env) (ack_target_address_ x) = false ∧
  ser_data_ (serializer_ (sc_net (ss_sd s))) = [].
(** What has become of it. *)
Definition ack_sent (a : Z) (x : remote_subscription_ack) (s s' : sd_server) : Prop :=
  (∃ ms, given (ack_target_address_ x) ms (sc_net (ss_sd s)) (sc_net (ss_sd s')) ∧
     ∀ b, b ∈ bodies ms ↔ says (ss_routing s) (client_list (ack_subscriptions_ x)) (ack_messages_ x) b) ∧
  (∀ p, pending_remote_subscriptions_ s' !! p =
     if decide (p ∈ ack_subscriptions_ x) then None else pending_remote_subscriptions_ s !! p) ∧
  ∃ x', ss_acks s' !! a = Some x' ∧ ack_is_done_ x' = true.

Lemma update_acknowledgement_spec a x s : server_ok → sendable_ack a x s →
  Forall (λ p, ∃ y info, decided (ss_routing s) p y info) (client_list (ack_subscriptions_ x)) →
  ∃ s', update_acknowledgement env a s = Ret ((), s') ∧ ack_sent a x s s'.
Proof.
  intros Hok (Ha&Hcomplete&Hdone&Hne&Hms&Haddr&Hser) Hps. unfold update_acknowledgement.
  rewrite (st_bind_Ret (the_ack a) _ s x s) by (unfold the_ack; st_run; by rewrite Ha).
  rewrite (st_bind_Ret st_get _ s s s) by done.
  assert (ack_is_pending (ss_routing s) x = false) as Hp.
  { unfold ack_is_pending. rewrite <- not_true_iff_false, existsb_exists. intros (p&Hp%list_elem_of_In&Hw).
    rewrite Forall_forall in Hps. destruct (Hps p Hp) as (y&info&Hy&_&Hpend&_). unfold waits in Hw. by rewrite Hy, Hpend in Hw. }
  rewrite Hcomplete, Hp, Hdone. cbn [andb negb].
  destruct (send_subscription_ack_spec a x s Hok Hser Ha Hdone Hne Hms Haddr Hps) as (s1&ms&E1&Hg&Hb&Hpend&x'&Hx').
  rewrite (st_bind_Ret _ _ _ _ _ E1), erase_pending_eq. eexists. split; [done|]. split_and!.
  - exists ms. split; [exact Hg|exact Hb].
  - intros p. cbn. rewrite lookup_foldl_delete, Hpend. by rewrite (decide_ext _ _ _ _ (elem_of_client_list _ p)).
  - by exists x'.
Qed.

(** An acknowledgment that was sent is not sent again. *)
Lemma update_acknowledgement_done a x s : ss_acks s !! a = Some x → ack_is_done_ x = true →
  update_acknowledgement env a s = Ret ((), s).
Proof.
  intros Ha Hd. unfold update_acknowledgement.
  rewrite (st_bind_Ret (the_ack a) _ s x s) by (unfold the_ack; st_run; by rewrite Ha).
  rewrite (st_bind_Ret st_get _ s s s) by done. by rewrite Hd, andb_false_r.
Qed.

(** An acknowledgment answers all that was asked: once the applications have decided about
    all subscriptions of a received message, none of them selective, the answers are given
    to the host for the sender.  They say, beside the refusals found at once, for every
    subscription that it is acknowledged, with its time to live, or refused, and nothing
    else; the subscriptions are not waited for any longer, the others as before, and the
    answers are not given a second time. *)
Theorem acknowledgment_answers_all a x s : server_ok → sendable_ack a x s →
  Forall (λ p, ∃ y info, decided (ss_routing s) p y info) (client_list (ack_subscriptions_ x)) →
  ∃ s', update_acknowledgement env a s = Ret ((), s') ∧ ack_sent a x s s' ∧
    update_acknowledgement env a s' = Ret ((), s').
Proof.
  intros Hok Ha Hps. destruct (update_acknowledgement_spec a x s Hok Ha Hps) as (s'&E&Hs).
  exists s'. split; [done|]. split; [done|]. destruct Hs as (_&_&x'&Hx'&Hd). by eapply update_acknowledgement_done.
Qed.

(** ** The decision of an application *)

(** What looking for an eventgroup refreshes. *)
Lemma find_eventgroup_refreshes e sv i eg g r : r_eventgroups_ r !! (sv, i, eg) = Some g →
  (∀ a p, get_multicast e sv i eg = Some (a, p) → is_u16 p) →
  ∃ f, find_eventgroup e sv i eg r = Ret (Some g, r_with_groups (alter f g (r_groups r)) r) ∧
    ∀ x, eg_service_ (f x) = eg_service_ x ∧ eg_instance_ (f x) = eg_instance_ x ∧ eg_eventgroup_ (f x) = eg_eventgroup_ x ∧
      eg_subscriptions_ (f x) = eg_subscriptions_ x ∧ (is_u16 (eg_port_ x) → is_u16 (eg_port_ (f x))).
Proof.
  intros Hg Hp. unfold find_eventgroup. rewrite (st_bind_Ret st_get _ r r r) by done. rewrite Hg.
  destruct (find_service e sv i) as [[major ttl]|].
  - destruct (get_multicast e sv i eg) as [[[a|] p]|] eqn:Em.
    + eexists (λ x, eg_with_threshold _ (eg_with_ttl _ (eg_with_major _ (set_multicast a p x)))). split.
      * st_run. unfold upd_group. st_run. do 2 f_equal. destruct r. unfold r_with_groups. cbn. f_equal.
        apply map_eq. intros k. destruct (decide (k = g)) as [->|Hk]; [|by rewrite !lookup_alter_ne].
        rewrite !lookup_alter_eq. by destruct (_ !! g).
      * intros x. split_and!; try done. intros _. by apply (Hp (Some a)).
    + eexists (λ x, eg_with_threshold _ (eg_with_ttl _ (eg_with_major _ x))). by split.
    + eexists (λ x, eg_with_threshold _ (eg_with_ttl _ (eg_with_major _ x))). by split.
  - exists id. split; [|done]. rewrite alter_id by done. by destruct r.
Qed.

(** A plain subscription after the answer of the application. *)
Lemma plain_state now st y : get_clients y = {[0]} → st ≠ SUBSCRIPTION_PENDING →
  get_clients (set_client_state now 0 st y) = {[0]} ∧ is_pending (set_client_state now 0 st y) = false ∧
  has_state st (set_client_state now 0 st y) 0 = true.
Proof.
  unfold get_clients. intros Hc Hst. unfold set_client_state.
  assert (is_Some (rs_clients_ y !! 0)) as [[st0 t] H0] by (apply elem_of_dom; rewrite Hc; set_solver).
  rewrite H0. set (t' := if bool_decide (t = 0) && _ then _ else _). split_and!.
  - cbn. rewrite dom_insert_L, Hc. set_solver.
  - rewrite <- not_true_iff_false, is_pending_spec. unfold get_client_state. cbn. intros (c&Hp).
    destruct (decide (c = 0)) as [->|Hne]; [by rewrite lookup_insert_eq in Hp|]. rewrite lookup_insert_ne in Hp by done.
    destruct (rs_clients_ y !! c) as [x|] eqn:E; [|done].
    assert (c ∈ dom (rs_clients_ y)) as Hin by (apply elem_of_dom; by eexists). rewrite Hc in Hin. set_solver.
  - unfold has_state, get_client_state. cbn. rewrite lookup_insert_eq. by apply bool_decide_eq_true.
Qed.

(** The answer of an application about a subscription of a device. *)
Definition application_answers (accept : bool) (sv i eg event id : Z) : ST routing () :=
  if accept then on_subscribe_ack (host_env (se_env env)) 0 sv i eg event id
  else on_subscribe_nack (host_env (se_env env)) 0 sv i eg event id.
Definition answer_state (accept : bool) : remote_subscription_state_e :=
  if accept then SUBSCRIPTION_ACKED else SUBSCRIPTION_NACKED.

(** The subscription [y] at [p], known to its eventgroup as [id]. *)
Definition asked (r : routing) (sv i eg g id p : Z) (info : eventgroupinfo) (y : remote_subscription) : Prop :=
  r_eventgroups_ r !! (sv, i, eg) = Some g ∧ r_groups r !! g = Some info ∧ eg_subscriptions_ info !! id = Some p ∧
  is_u16 (eg_port_ info) ∧ r_subs r !! p = Some y ∧ get_clients y = {[0]} ∧ rs_parent_ y = None ∧
  rs_eventgroupinfo_ y = Some g ∧ is_Some (rs_subscriber_ y) ∧ rs_answers_ y = 1 ∧ rs_ttl_ y > 0.

(** The routing manager keeps the answer and tells the service discovery. *)
Lemma application_answers_spec accept sv i eg event g id p info y r : asked r sv i eg g id p info y →
  has_discovery (host_env (se_env env)) = true →
  (∀ a p, get_multicast (host_env (se_env env)) sv i eg = Some (a, p) → is_u16 p) →
  ∃ f r', application_answers accept sv i eg event id r = Ret ((), r') ∧
    r_actions r' = r_actions r ++ [DiscoveryUpdate p] ∧
    r_subs r' = <[p := set_client_state (r_clock r) 0 (answer_state accept) y]> (r_subs r) ∧
    r_groups r' = alter f g (r_groups r) ∧
    ∀ x, eg_service_ (f x) = eg_service_ x ∧ eg_instance_ (f x) = eg_instance_ x ∧ eg_eventgroup_ (f x) = eg_eventgroup_ x ∧
      (is_u16 (eg_port_ x) → is_u16 (eg_port_ (f x))).
Proof.
  intros (Hg&Hi&Hid&_&Hp&_&Hpar&_&[t Ht]&_) Hd Hport.
  destruct (find_eventgroup_refreshes (host_env (se_env env)) sv i eg g r Hg Hport) as (f&Ef&Hf).
  set (r1 := r_with_groups (alter f g (r_groups r)) r) in *.
  assert (the_group g r1 = Ret (f info, r1)) as E1.
  { unfold the_group. st_run. cbn. by rewrite lookup_alter_eq, Hi. }
  assert (get_remote_subscription g id r1 = Ret (Some p, r1)) as E2.
  { unfold get_remote_subscription. rewrite (st_bind_Ret _ _ _ _ _ E1). destruct (Hf info) as (_&_&_&->&_). by rewrite Hid. }
  set (y' := set_client_state (r_clock r) 0 (answer_state accept) y).
  set (r2 := r_with_subs (<[p := y']> (r_subs r)) r1).
  assert (rs_parent_ y' = None ∧ rs_subscriber_ y' = Some t) as [Hpar' Ht'].
  { unfold y'. rewrite set_client_state_frame. done. }
  assert (r_subs r2 !! p = Some y') as Hp2 by (cbn; by rewrite lookup_insert_eq).
  assert (answer_subscription g id p 0 (answer_state accept) r1 = Ret ((), r2)) as E3.
  { unfold answer_subscription. rewrite (st_bind_Ret st_get _ r1 r1 r1) by done.
    rewrite (st_bind_Ret (upd_sub p _) _ r1 () r2).
    2:{ unfold upd_sub. st_run. unfold r2. cbn. by rewrite (alter_insert_lookup _ _ _ _ Hp). }
    rewrite (st_bind_Ret (the_sub p) _ r2 y' r2) by (unfold the_sub; st_run; by rewrite Hp2).
    rewrite (st_bind_Ret st_get _ r2 r2 r2) by done. unfold lock_parent. by rewrite Hpar'. }
  assert (the_sub p r2 = Ret (y', r2)) as E4 by (unfold the_sub; st_run; by rewrite Hp2).
  exists f. unfold application_answers. destruct accept.
  - unfold on_subscribe_ack. rewrite (st_bind_Ret _ _ _ _ _ Ef), (st_bind_Ret _ _ _ _ _ E1), (st_bind_Ret _ _ _ _ _ E2).
    rewrite (st_bind_Ret _ _ _ _ _ E3), Hd, (st_bind_Ret _ _ _ _ _ E4), Ht'. eexists. split; [reflexivity|].
    split_and!; try done. intros x. destruct (Hf x) as (?&?&?&?&?). done.
  - unfold on_subscribe_nack. rewrite (st_bind_Ret _ _ _ _ _ Ef), (st_bind_Ret _ _ _ _ _ E2).
    rewrite (st_bind_Ret _ _ _ _ _ E3), Hd, (st_bind_Ret _ _ _ _ _ E4), Ht'. eexists. split; [reflexivity|].
    split_and!; try done. intros x. destruct (Hf x) as (?&?&?&?&?). done.
Qed.

(** A subscription the applications have decided about stays so. *)
Lemma decided_after r r' f g p y' q z j : r_subs r' = <[p := y']> (r_subs r) → r_groups r' = alter f g (r_groups r) →
  (∀ x, eg_service_ (f x) = eg_service_ x ∧ eg_instance_ (f x) = eg_instance_ x ∧ eg_eventgroup_ (f x) = eg_eventgroup_ x ∧
    (is_u16 (eg_port_ x) → is_u16 (eg_port_ (f x)))) → q ≠ p → decided r q z j →
  ∃ j', decided r' q z j' ∧ eg_service_ j' = eg_service_ j ∧ eg_instance_ j' = eg_instance_ j ∧ eg_eventgroup_ j' = eg_eventgroup_ j.
Proof.
  intros Hs Hg Hf Hne (Hq&Hc&Hp&Ha&Ht&h&Hh&Hj&Hport).
  assert (lock_group r' z = Some h) as Hh'.
  { unfold lock_group in *. destruct (rs_eventgroupinfo_ z) as [k|]; [|done]. cbn [mbind option_bind] in *.
    case_bool_decide as Hk; [|done]. injection Hh as ->. rewrite bool_decide_true; [done|]. rewrite Hg.
    destruct (decide (h = g)) as [->|?]; [rewrite lookup_alter_eq; destruct Hk as [? ->]; by eexists|by rewrite lookup_alter_ne]. }
  assert (r_subs r' !! q = Some z) as Hq' by (rewrite Hs; by rewrite lookup_insert_ne).
  destruct (decide (h = g)) as [->|Hhg].
  - exists (f j). destruct (Hf j) as (?&?&?&?). split; [|done]. split_and!; try done.
    exists g. rewrite Hg, lookup_alter_eq, Hj. split_and!; auto.
  - exists j. split; [|done]. split_and!; try done. exists h. rewrite Hg, lookup_alter_ne by done. done.
Qed.

(** C3: the device is told what its applications say. Let a message received from an
    address have been read completely, with subscriptions without selection of clients
    only, each with one answer owed and a positive time to live (a stop of a subscription
    in the message is not covered), and let the applications have answered for all but one,
    which has no parent. When the application answers for that one, the messages of the
    acknowledgment are given to the host for the sender. They say that the subscription is
    acknowledged with its time to live, or that it is refused, the same for each other
    subscription, as its application has answered, and what was refused at once; no
    subscription of the message is waited for any longer. *)
Theorem application_answer_sent accept sv i eg event g id p info y a x s : server_ok →
  has_discovery (host_env (se_env env)) = true →
  (∀ k q, get_multicast (host_env (se_env env)) sv i eg = Some (k, q) → is_u16 q) →
  asked (ss_routing s) sv i eg g id p info y → sendable_ack a x s →
  pending_remote_subscriptions_ s !! p = Some (Some a) → p ∈ ack_subscriptions_ x →
  (∀ q, q ∈ ack_subscriptions_ x → q ≠ p → ∃ z j, decided (ss_routing s) q z j) →
  ∃ s' ms major, with_callbacks env (application_answers accept sv i eg event id) s = Ret ((), s') ∧
    given (ack_target_address_ x) ms (sc_net (ss_sd s)) (sc_net (ss_sd s')) ∧
    (SUBSCRIBE_EVENTGROUP_ACK, eg_service_ info, eg_instance_ info, major, (if accept then rs_ttl_ y else 0), eg_eventgroup_ info)
      ∈ bodies ms ∧
    (∀ q z j, q ∈ ack_subscriptions_ x → q ≠ p → decided (ss_routing s) q z j → ∃ major',
       (SUBSCRIBE_EVENTGROUP_ACK, eg_service_ j, eg_instance_ j, major', answer_ttl z, eg_eventgroup_ j) ∈ bodies ms) ∧
    (∀ b, b ∈ bodies (ack_messages_ x) → b ∈ bodies ms) ∧
    ∀ q, q ∈ ack_subscriptions_ x → pending_remote_subscriptions_ s' !! q = None.
Proof.
  intros Hok Hd Hport Hask Hack Hpend Hin Hothers.
  destruct (application_answers_spec accept sv i eg event g id p info y _ Hask Hd Hport) as (f&r&Er&Hact&Hsubs&Hgroups&Hf).
  set (y' := set_client_state _ _ _ _) in *. set (s1 := ss_set_sd (sc_set_routing r (ss_sd s)) s).
  assert (in_sd (in_host (application_answers accept sv i eg event id)) s = Ret ((), s1)) as E1.
  { unfold in_sd, in_host. st_run. unfold ss_routing in Er. by rewrite Er. }
  assert (decided (ss_routing s1) p y' (f info)) as Hdec.
  { pose proof Hask as (_&Hi&_&Hu&_&Hc&_&Hegi&_&Hans&Httl). change (ss_routing s1) with r.
    destruct (plain_state (r_clock (ss_routing s)) (answer_state accept) y Hc) as (Hc'&Hnp&_); [by destruct accept|].
    fold y' in Hc', Hnp. assert (rs_answers_ y' = 1 ∧ rs_ttl_ y' > 0 ∧ rs_eventgroupinfo_ y' = Some g) as (?&?&Hegi').
    { unfold y'. by rewrite set_client_state_frame. }
    split; [by rewrite Hsubs, lookup_insert_eq|]. split_and!; try done. exists g.
    assert (r_groups r !! g = Some (f info)) as Hg' by (by rewrite Hgroups, lookup_alter_eq, Hi).
    split_and!; [|done|by apply Hf]. unfold lock_group. rewrite Hegi'. cbn [mbind option_bind]. by rewrite Hg', bool_decide_true by by eexists. }
  assert (sendable_ack a x s1) as Hack1 by exact Hack.
  assert (Forall (λ q, ∃ z j, decided (ss_routing s1) q z j) (client_list (ack_subscriptions_ x))) as Hall.
  { apply Forall_forall. intros q Hq. rewrite elem_of_client_list in Hq. destruct (decide (q = p)) as [->|Hne]; [by do 2 eexists|].
    destruct (Hothers q Hq Hne) as (z&j&Hz). destruct (decided_after _ r f g p y' q z j Hsubs Hgroups) as (j'&Hj'&_); [done..|by exists z, j']. }
  destruct (update_acknowledgement_spec a x s1 Hok Hack1 Hall) as (s'&E2&(ms&Hgiven&Hms)&Hgone&_).
  exists s', ms, (eg_major_ (f info)). split; [|split; [exact Hgiven|split_and!]].
  - unfold with_callbacks. rewrite (st_bind_Ret st_get _ s s s) by done. rewrite (st_bind_Ret _ _ _ _ _ E1).
    rewrite (st_bind_Ret st_get _ s1 s1 s1) by done. change (r_actions (ss_routing s1)) with (r_actions r).
    rewrite Hact, drop_app_length. cbn [omap list_omap called_back for_each].
    assert (discovery_update env p s1 = Ret ((), s')) as E3.
    { unfold discovery_update. destruct Hdec as (Hp'&_&Hnp&_). rewrite (st_bind_Ret _ _ _ _ _ (in_host_sub p y' s1 Hp')), Hnp.
      cbn [negb orb]. rewrite (st_bind_Ret st_get _ s1 s1 s1) by done.
      change (pending_remote_subscriptions_ s1) with (pending_remote_subscriptions_ s). by rewrite Hpend. }
    by rewrite (st_bind_Ret _ _ _ _ _ E3).
  - apply Hms. right. exists p, y', (f info). rewrite elem_of_client_list. split; [done|]. split; [done|].
    destruct (Hf info) as (Hsv&Hin'&Heg&_). unfold answer_body. rewrite Hsv, Hin', Heg. f_equal. f_equal.
    pose proof Hask as (_&_&_&_&_&Hc&_). unfold answer_ttl.
    destruct (plain_state (r_clock (ss_routing s)) (answer_state accept) y Hc) as (_&_&Hst); [by destruct accept|]. fold y' in Hst.
    destruct accept; cbn [answer_state] in Hst.
    + rewrite Hst. unfold y'. by rewrite set_client_state_ttl.
    + unfold has_state in *. apply bool_decide_eq_true in Hst. rewrite Hst. done.
  - intros q z j Hq Hne Hz. destruct (decided_after _ r f g p y' q z j Hsubs Hgroups Hf Hne Hz) as (j'&Hj'&<-&<-&<-).
    exists (eg_major_ j'). apply Hms. right. exists q, z, j'. by rewrite elem_of_client_list.
  - intros b Hb. apply Hms. by left.
  - intros q Hq. rewrite Hgone. by rewrite decide_True.
Qed.

(** ** Refusals *)




(** ** What an accepted subscription looks like *)

(** The four bytes are an address of the subnet of this device. *)
Definition in_subnet (bs : list Z) : Prop :=
  ∀ a b c d a' b' c' d' m1 m2 m3 m4, bs = [a; b; c; d] → address_bytes (se_env env) (unicast_ (se_env env)) = [a'; b'; c'; d'] →
    netmask env = [m1; m2; m3; m4] →
    Z.land (VSOMEIP_BYTES_TO_LONG a b c d) (VSOMEIP_BYTES_TO_LONG m1 m2 m3 m4) =
    Z.land (VSOMEIP_BYTES_TO_LONG a' b' c' d') (VSOMEIP_BYTES_TO_LONG m1 m2 m3 m4).
(** The endpoint was read from an endpoint option among [opts]: its protocol is known, and
    an IPv4 address is another one of the subnet, with a port. *)
Definition read_from (opts : list option_impl) (x : endpoint_read) : Prop :=
  ∃ (o : option_impl) (p : ip_option) (bs : list Z), o ∈ opts ∧ ip_protocol_ p ≠ L4_UNKNOWN ∧
    x = EndpointRead (make_address env bs) (ip_port_ p) (bool_decide (ip_protocol_ p = L4_TCP)) ∧
    ((∃ b : option_base, o = Ipv4Option b p bs ∧ ip_port_ p ≠ 0 ∧
        bs ≠ address_bytes (se_env env) (unicast_ (se_env env)) ∧ in_subnet bs) ∨
     ∃ b : option_base, o = Ipv6Option b p bs).
Definition reading_ok (opts : list option_impl) (x : entry_reading) : Prop :=
  (er_port (first_ x) ≠ ILLEGAL_PORT → read_from opts (first_ x)) ∧
  (er_port (second_ x) ≠ ILLEGAL_PORT → read_from opts (second_ x) ∧ er_port (first_ x) ≠ ILLEGAL_PORT ∧
     er_reliable (first_ x) ≠ er_reliable (second_ x)).

Lemma check_ipv4_address_spec bs : check_ipv4_address env bs = Ret true →
  bs ≠ address_bytes (se_env env) (unicast_ (se_env env)) ∧ in_subnet bs.
Proof.
  unfold check_ipv4_address. destruct (negb _); [done|]. case_bool_decide as Hs; [done|]. intros [= H%bool_decide_eq_true].
  split; [by intros ->|]. intros a b c d a' b' c' d' m1 m2 m3 m4 -> Ha Hm. rewrite Ha, Hm in H. by cbn [nth] in H.
Qed.

Lemma read_endpoint_ok opts o (v4 : bool) bs ip b x y : o ∈ opts → reading_ok opts x →
  o = (if v4 then Ipv4Option b ip bs else Ipv6Option b ip bs) →
  read_endpoint env v4 bs ip x = Ret (Go y) → reading_ok opts y.
Proof.
  intros Ho [H1 H2] -> H. unfold read_endpoint in H.
  destruct (check_layer_four_protocol ip) eqn:El; [|done]. cbn [negb] in H.
  unfold check_layer_four_protocol in El. apply bool_decide_eq_true in El.
  assert (∀ ok, valid_endpoint env v4 bs (ip_port_ ip) = Ret ok → ok = true →
    read_from opts (EndpointRead (make_address env bs) (ip_port_ ip) (bool_decide (ip_protocol_ ip = L4_TCP)))) as Hv.
  { intros ok Hok ->. exists (if v4 then Ipv4Option b ip bs else Ipv6Option b ip bs), ip, bs. split_and!; [done..|].
    unfold valid_endpoint in Hok. destruct v4; [left|right; by exists b]. exists b. split; [done|].
    destruct (check_ipv4_address env bs) as [ok| | |] eqn:Ec; try done. cbn in Hok. injection Hok as Hok.
    apply andb_true_iff in Hok as [E1 Hp%bool_decide_eq_true]. subst ok. split; [done|]. by apply check_ipv4_address_spec. }
  clear El. generalize dependent (bool_decide (ip_protocol_ ip = L4_TCP)). intros tcp H Hv.
  case_bool_decide as Hf.
  - destruct (_ && _); [done|]. apply outcome_bind_inv in H as (ok&Hok&H). destruct ok; [|done]. injection H as <-.
    split; [intros _; by apply (Hv true)|]. intros Hs. cbn in Hs. by destruct (H2 Hs) as (_&?&_).
  - case_bool_decide as Hs.
    + destruct (eqb _ _) eqn:Er; [done|]. apply outcome_bind_inv in H as (ok&Hok&H). destruct ok; [|done]. injection H as <-.
      split; [done|]. intros _. split; [by apply (Hv true)|]. split; [done|]. apply eqb_false_iff in Er. cbn in Er |- *. intros Hc. by apply Er.
    + injection H as <-. done.
Qed.

Lemma read_option_ok opts o ttl x y : o ∈ opts → reading_ok opts x →
  read_option env SUBSCRIBE_EVENTGROUP ttl o x = Ret (Go y) → reading_ok opts y.
Proof.
  intros Ho Hx H. unfold read_option in H.
  rewrite (bool_decide_true (SUBSCRIBE_EVENTGROUP = SUBSCRIBE_EVENTGROUP)) in H by done.
  rewrite (bool_decide_false (SUBSCRIBE_EVENTGROUP = SUBSCRIBE_EVENTGROUP_ACK)) in H by done.
  destruct (bool_decide (option_get_type o = IP4_ENDPOINT)).
  { destruct o; try done. by eapply (read_endpoint_ok opts _ true). }
  destruct (bool_decide (option_get_type o = IP6_ENDPOINT)).
  { destruct o; try done. by eapply (read_endpoint_ok opts _ false). }
  destruct (bool_decide (option_get_type o = IP4_MULTICAST)); [by injection H as <-|].
  destruct (bool_decide (option_get_type o = IP6_MULTICAST)); [by injection H as <-|].
  destruct (bool_decide (option_get_type o = CONFIGURATION)); [by injection H as <-|].
  destruct (bool_decide (option_get_type o = SELECTIVE)).
  { injection H as <-. by destruct o. }
  destruct (bool_decide (ttl > 0)); [done|]. by injection H as <-.
Qed.

(** The options that an entry names, in the order of reading. *)
Definition named_options (e : entry_base) (m : sd_message) : list (option option_impl) :=
  (λ k, (snd <$> options_ m) !! Z.to_nat k) <$> entry_get_options 1 e ++ entry_get_options 2 e.

(** An endpoint option says which protocol it is about. *)
Definition known_protocol (o : option_impl) : Prop :=
  match o with
  | Ipv4Option _ p _ => option_get_type o = IP4_ENDPOINT → ip_protocol_ p ≠ L4_UNKNOWN
  | Ipv6Option _ p _ => option_get_type o = IP6_ENDPOINT → ip_protocol_ p ≠ L4_UNKNOWN
  | _ => True
  end.

Lemma read_endpoint_protocol v4 bs ip x y : read_endpoint env v4 bs ip x = Ret (Go y) → ip_protocol_ ip ≠ L4_UNKNOWN.
Proof.
  unfold read_endpoint, check_layer_four_protocol. case_bool_decide as H; [by intros _|]. done.
Qed.

Lemma read_option_protocol o ttl x y :
  read_option env SUBSCRIBE_EVENTGROUP ttl o x = Ret (Go y) → known_protocol o.
Proof.
  intros H. unfold read_option in H. rewrite (bool_decide_true (SUBSCRIBE_EVENTGROUP = SUBSCRIBE_EVENTGROUP)) in H by done.
  destruct o; try done; cbn [known_protocol]; intros Ht; rewrite Ht in H.
  - rewrite bool_decide_true in H by done. by eapply read_endpoint_protocol.
  - rewrite bool_decide_false, bool_decide_true in H by done. by eapply read_endpoint_protocol.
Qed.

Lemma read_options_ok all opts ttl idx : ∀ x y, reading_ok opts x →
  (∀ k o, k ∈ idx → all !! Z.to_nat k = Some o → o ∈ opts) →
  read_options env all SUBSCRIBE_EVENTGROUP ttl idx x = Ret (Go y) →
  reading_ok opts y ∧ Forall (λ k, ∃ o, all !! Z.to_nat k = Some o ∧ known_protocol o) idx.
Proof.
  induction idx as [|k idx IH]; intros x y Hx Hin H; cbn [read_options] in H; [by injection H as <-|].
  destruct (all !! Z.to_nat k) as [o|] eqn:Eo; [|by rewrite bool_decide_true in H].
  apply outcome_bind_inv in H as (v&Hv&H). destruct v as [| |z]; [done..|].
  destruct (IH z y) as [H1 H2]; [| |exact H|].
  - eapply read_option_ok; [|exact Hx|exact Hv]. by apply (Hin k); [left|].
  - intros k' o' Hk'. apply Hin. by right.
  - split; [done|]. constructor; [|done]. exists o. split; [done|]. by eapply read_option_protocol.
Qed.

(** C20: only valid subscriptions are handled: when a subscription is not refused while it is
    read, its message was received by unicast with a return code of success; every option
    that the entry names exists, and all endpoint options have a known protocol.  What is
    kept for the subscription are at most two endpoints, one reliable and one unreliable if
    there are two, each from an endpoint option that the entry names, and an IPv4 address is
    one of the subnet other than the address of this device, with a port.  Endpoint options
    after the first two are accepted and ignored, even if they conflict. *)
Theorem accepted_subscription_valid e m destination x : e_type_ e = SUBSCRIBE_EVENTGROUP →
  read_entry env e m destination = Ret (Go x) →
  code_ (sd_header_ m) = E_OK ∧ is_multicast (host_env (se_env env)) destination = false ∧
  Forall (λ o, ∃ y, o = Some y ∧ known_protocol y) (named_options e m) ∧
  reading_ok (omap id (named_options e m)) x.
Proof.
  intros Ht H. unfold read_entry in H. destruct (check_subscribe env e m destination) as [v|] eqn:Ec.
  { unfold check_subscribe in Ec. rewrite Ht in Ec. repeat case_match; simplify_eq. }
  assert (code_ (sd_header_ m) = E_OK ∧ is_multicast (host_env (se_env env)) destination = false) as [H1 H2].
  { unfold check_subscribe in Ec. rewrite Ht, (bool_decide_true (SUBSCRIBE_EVENTGROUP = SUBSCRIBE_EVENTGROUP)) in Ec by done.
    case_bool_decide as Hc; [done|]. by destruct (is_multicast _ destination). }
  rewrite Ht in H. apply (read_options_ok _ (omap id (named_options e m))) in H as [H3 H4]; [|by split|].
  - split_and!; [done..| |done]. unfold named_options. by apply Forall_fmap.
  - intros k o Hk Ho. apply list_elem_of_omap. exists (Some o). split; [|done]. rewrite <- Ho.
    unfold named_options. apply (list_elem_of_fmap_2 (λ k, (snd <$> options_ m) !! Z.to_nat k)), Hk.
Qed.
End answers.

(** ** Instances

    The subscription 1 of the device 9 to the eventgroup 0x10 waits for the application; its
    acknowledgment is 7. *)
Definition sample_host_env : environment :=
  Environment (λ _ _, 0x33) (λ _ _, 30509) (λ _ _, 30510) (λ _ _ _, None) (λ _ _ _, 1)
    (λ _ _, None) (λ a, bool_decide (a = 224)) 0x99 true false.
Definition sample_server_env : server_env :=
  ServerEnv (SdEnv sample_host_env 5 0 (λ a, bool_decide (a = 0)) (λ _, true) (λ a, [192; 168; 0; u8 a])
      (λ _ _ reliable, if reliable then None else Some 41) (λ _, true) (λ _, 30501)
      (λ _, Some (Some 9)) (λ _, false) (λ _ _, true) 2000 Z.of_nat)
    {[0x1111 := {[1 := 2]}]} [255; 255; 255; 0] (λ bs, nth 3 bs 0) (λ _ _ _, true) (λ _ _ _, false).
Definition sample_open (state : remote_subscription_state_e) : remote_subscription :=
  Subscription 1 true false None (Some 100) 0 3 0 0 {[0 := (state, 0)]} (Some 50) None (Some 50) 1.
Definition sample_ack : remote_subscription_ack := SubscriptionAck [sd_message_new] true false 9 {[1]}.
Definition sample_server (state : remote_subscription_state_e) : sd_server :=
  SdServer (SdClient (Routing {[100 := sample_group {[1 := 1]} 1]} {[(0x1111, 0x1, 0x10) := 100]}
        {[1 := sample_open state]} {[1]} ∅ {[50 := RemoteSubscription.EndpointDefinition 9 30000 30000 false]} ∅ ∅ 1000 true 0 [] [])
      (RemoteOffers ∅ ∅) ∅ sample_net 0 [])
    {[7 := sample_ack]} {[1 := Some 7]} ∅ 100000 None.

Lemma sample_server_ok : server_ok sample_server_env.
Proof.
  split; [exact Nat2Z.inj|]. intros a. split; [|done]. cbn.
  repeat (apply Forall_cons; split; [try (unfold is_u8; lia); apply is_u8_u8|]). apply Forall_nil_2.
Qed.
Lemma sample_sendable state : sendable_ack sample_server_env 7 sample_ack (sample_server state).
Proof. split_and!; try done. constructor; [apply msg_ok_new|constructor]. Qed.

Lemma acknowledgment_answers_all_witness :
  ∃ s', update_acknowledgement sample_server_env 7 (sample_server SUBSCRIPTION_NACKED) = Ret ((), s') ∧
    update_acknowledgement sample_server_env 7 s' = Ret ((), s').
Proof.
  destruct (acknowledgment_answers_all sample_server_env 7 sample_ack (sample_server SUBSCRIPTION_NACKED)) as (s'&H1&_&H2).
  - exact sample_server_ok.
  - apply sample_sendable.
  - change (client_list _) with [1]. apply Forall_singleton. exists (sample_open SUBSCRIPTION_NACKED), (sample_group {[1 := 1]} 1).
    split_and!; try done. exists 100. split_and!; try done.
  - exists s'. split; [exact H1|exact H2].
Defined.

Lemma application_answer_sent_witness :
  ∃ s' ms major, with_callbacks sample_server_env
      (application_answers sample_server_env true 0x1111 1 0x10 ANY_EVENT 1) (sample_server SUBSCRIPTION_PENDING) = Ret ((), s') ∧
    given 9 ms sample_net (sc_net (ss_sd s')) ∧
    (SUBSCRIBE_EVENTGROUP_ACK, 0x1111, 0x1, major, 3, 0x10) ∈ bodies ms.
Proof.
  destruct (application_answer_sent sample_server_env true 0x1111 1 0x10 ANY_EVENT 100 1 1 (sample_group {[1 := 1]} 1)
    (sample_open SUBSCRIPTION_PENDING) 7 sample_ack (sample_server SUBSCRIPTION_PENDING)) as (s'&ms&major&H1&H2&H3&_).
  - exact sample_server_ok.
  - reflexivity.
  - discriminate.
  - split_and!; try done.
  - apply sample_sendable.
  - reflexivity.
  - set_solver.
  - intros q Hq Hne. exfalso. apply Hne. change (q ∈ ({[1]} : gset Z)) in Hq. set_solver.
  - exists s', ms, major. split; [exact H1|]. split; [exact H2|exact H3].
Defined.

Definition sample_subscribe (service : Z) : entry_base :=
  assign_option 0 (entry_set_ttl 3 (entry_set_instance 1 (entry_set_service service
    (entry_set_type SUBSCRIBE_EVENTGROUP entry_base_new)))).
Definition sample_received : sd_message :=
  SdMessage (Header VSOMEIP_SD_SERVICE VSOMEIP_SD_METHOD 100 0 1 1 1 MT_NOTIFICATION E_OK 0) 0xC0 12
    [EventgroupEntry (sample_subscribe 0x1111) 0x10 0 0 None None]
    [(0, ipv4_option_of [192; 168; 0; 9] false 30000 false)] 0.


Lemma accepted_subscription_valid_witness :
  ∃ x, read_entry sample_server_env (sample_subscribe 0x1111) sample_received 5 = Ret (Go x) ∧
    reading_ok sample_server_env (omap id (named_options (sample_subscribe 0x1111) sample_received)) x.
Proof.
  eexists. split; [vm_compute; reflexivity|].
  apply (accepted_subscription_valid sample_server_env (sample_subscribe 0x1111) sample_received 5); vm_compute; reflexivity.
Defined.

(** A third endpoint option, of the same kind as the first one, is ignored. *)
Definition three_endpoints : sd_message :=
  SdMessage (sd_header_ sample_received) 0xC0 36 []
    [(0, ipv4_option_of [192; 168; 0; 9] false 30000 false); (1, ipv4_option_of [192; 168; 0; 9] false 30001 true);
     (2, ipv4_option_of [192; 168; 0; 8] false 30002 false)] 0.
Example third_endpoint_ignored :
  read_entry sample_server_env (assign_option 2 (assign_option 1 (sample_subscribe 0x1111))) three_endpoints 5 =
  Ret (Go (EntryReading (EndpointRead 9 30000 false) (EndpointRead 9 30001 true) {[0]})).
Proof. vm_compute. reflexivity. Qed.
