(* ===== verification/SdReceive.v ===== *)
(** What service discovery does with a received message: [on_message] of
    [service_discovery/src/service_discovery_impl.cpp] with the processing of service
    entries (offers, stopped offers and finds of other devices) and of eventgroup entries,
    and the reaction to a reboot of the sender.

    The state puts the parts together: the subscriptions of and to this device, its offers
    and its finds.  The parts share one network and one allocator, the ones of the
    subscriptions, [in_offers].  Of the routing manager, the subscriptions of other devices
    are the state of [Eventgroups]; the calls that change its tables of remote services are
    recorded, [host_call_t].  The clock of the last message is the one of the routing
    manager. *)
From S2P Require Import Prelude ByteOrder Streams Message SdOptions SdEntries SdMessage.
From S2P Require Import ServiceInfo SdSessions SdAssembly SdOffers SdFinds Event RemoteSubscription Eventgroups SdRemoteOffers.
From S2P Require Import SdSubscriptions SdRenewals SdAcks SdSubscribers SdAnswers.

Definition ANY_INSTANCE : Z := 0xFFFF.
Definition ANY_MAJOR : Z := 0xFF.
Definition ANY_MINOR : Z := 0xFFFFFFFF.

Inductive host_call_t : Type :=
| AddRoutingInfo (service instance major minor ttl reliable_address reliable_port unreliable_address unreliable_port : Z)
| DelRoutingInfo (service instance : Z) (has_reliable has_unreliable : bool)
| ExpireServices (address port : Z) (reliable : bool)
| RebootNotification (address : Z)
| UpdateRoutingInfo (elapsed : Z)
| JoinMulticast.

Record sd_engine : Type := Engine {
  en_server : sd_server;
  en_offers : sd_offers;
  en_finds : sd_finds;
  last_msg_received_timer_ : option Z;
  current_remote_address_ : Z;
  en_calls : list host_call_t;
  has_endpoint : bool;
  ttl_timer_ : option Z
}.
Definition en_set_server (v : sd_server) (s : sd_engine) : sd_engine :=
  Engine v (en_offers s) (en_finds s) (last_msg_received_timer_ s) (current_remote_address_ s)
    (en_calls s) (has_endpoint s) (ttl_timer_ s).
Definition en_set_offers (v : sd_offers) (s : sd_engine) : sd_engine :=
  Engine (en_server s) v (en_finds s) (last_msg_received_timer_ s) (current_remote_address_ s)
    (en_calls s) (has_endpoint s) (ttl_timer_ s).
Definition en_set_finds (v : sd_finds) (s : sd_engine) : sd_engine :=
  Engine (en_server s) (en_offers s) v (last_msg_received_timer_ s) (current_remote_address_ s)
    (en_calls s) (has_endpoint s) (ttl_timer_ s).
Definition en_set_last (v : option Z) (s : sd_engine) : sd_engine :=
  Engine (en_server s) (en_offers s) (en_finds s) v (current_remote_address_ s)
    (en_calls s) (has_endpoint s) (ttl_timer_ s).
Definition en_set_remote (v : Z) (s : sd_engine) : sd_engine :=
  Engine (en_server s) (en_offers s) (en_finds s) (last_msg_received_timer_ s) v
    (en_calls s) (has_endpoint s) (ttl_timer_ s).
Definition en_add_call (c : host_call_t) (s : sd_engine) : sd_engine :=
  Engine (en_server s) (en_offers s) (en_finds s) (last_msg_received_timer_ s) (current_remote_address_ s)
    (en_calls s ++ [c]) (has_endpoint s) (ttl_timer_ s).
Definition en_set_endpoint (v : bool) (s : sd_engine) : sd_engine :=
  Engine (en_server s) (en_offers s) (en_finds s) (last_msg_received_timer_ s) (current_remote_address_ s)
    (en_calls s) v (ttl_timer_ s).
Definition en_set_ttl_timer (v : option Z) (s : sd_engine) : sd_engine :=
  Engine (en_server s) (en_offers s) (en_finds s) (last_msg_received_timer_ s) (current_remote_address_ s)
    (en_calls s) (has_endpoint s) v.

(** The configuration and the outside, beyond the parts. *)
Record engine_env : Type := EngineEnv {
  ee_server : server_env;
  ee_config : sd_config;
  sd_multicast_address_ : Z;
  last_msg_received_timer_timeout_ : Z;
  ttl_factor_offers_ : gmap Z (gmap Z Z);
  is_secure_service : Z → Z → bool;
  is_secure_port : Z → Z → bool → bool;
  is_protected_device : Z → bool;
  sd_acceptance_handler_ : option (Z → bool);
  has_reboot_handler : bool;
  uninit_client : Z;
  create_service_discovery_endpoint : bool;
  reliable_ : bool
}.

Section engine.
  Context (env : engine_env).
  #[local] Abbreviation sdenv := (se_env (ee_server env)).

Definition in_server {A} (m : ST sd_server A) : ST sd_engine A :=
  s ← st_get;
  '(a, v) ← st_lift (m (en_server s));
  st_modify (en_set_server v);;
  mret a.
Definition in_client {A} (m : ST sd_client A) : ST sd_engine A := in_server (in_sd m).

(** The offers work on the network and with the allocator of the others. *)
Definition so_set_next_option (n : nat) (s : sd_offers) : sd_offers :=
  Offers (so_now s) (so_infos s) (so_offered s) (collected_offers_ s) (repetition_phase_timers_ s)
    (so_waits s) (so_next_timer s) n (offer_debounce_timer_ s) (main_phase_timer_ s)
    (is_suspended_ s) (is_diagnosis_ s) (so_net s).
Definition in_offers {A} (m : ST sd_offers A) : ST sd_engine A :=
  s ← st_get;
  let sd := ss_sd (en_server s) in
  '(a, o) ← st_lift (m (so_set_next_option (sc_next_option sd) (set_net (sc_net sd) (en_offers s))));
  st_modify (en_set_offers o);;
  in_client (st_modify (λ sd, sc_set_next_option (so_next_option o) (sc_set_net (so_net o) sd)));;
  mret a.
Definition in_finds {A} (m : ST sd_finds A) : ST sd_engine A :=
  s ← st_get;
  let sd := ss_sd (en_server s) in
  '(a, f) ← st_lift (m (sf_set_net (sc_net sd) (en_finds s)));
  st_modify (en_set_finds f);;
  in_client (st_modify (sc_set_net (sf_net f)));;
  mret a.
Definition call (c : host_call_t) : ST sd_engine () := st_modify (en_add_call c).

(** ** Finds of other devices *)

(** An offer for the sender of the message; both ways to answer send it to the sender. *)
Definition send_unicast_offer_service (p : Z) : ST sd_engine () :=
  its_messages ← in_offers (i ← info p;
    insert_offer_service (ee_config env) (get_local_port sdenv) (alloc sdenv) [sd_message_new] i);
  s ← st_get;
  in_client (sc_send sdenv its_messages (current_remote_address_ s)).
Definition send_multicast_offer_service (p : Z) : ST sd_engine () :=
  its_messages ← in_offers (i ← info p;
    insert_offer_service (ee_config env) (get_local_port sdenv) (alloc sdenv) [sd_message_new] i);
  s ← st_get;
  in_client (sc_send sdenv its_messages (current_remote_address_ s)).
Definition send_uni_or_multicast_offerservice (p : Z) (_unicast_flag : bool) : ST sd_engine () :=
  if _unicast_flag then
    s ← st_get;
    if last_offer_shorter_half_offer_delay_ago (ee_config env) (en_offers s)
    then send_unicast_offer_service p else send_multicast_offer_service p
  else send_unicast_offer_service p.

(** An offered instance fits what is looked for. *)
Definition fits (_major _minor : Z) (i : serviceinfo) : bool :=
  (bool_decide (_major = ANY_MAJOR) || bool_decide (_major = si_major_ i))
  && (bool_decide (_minor = ANY_MINOR) || bool_decide (_minor ≤ si_minor_ i))
  && (bool_decide (is_Some (si_get_endpoint false i)) || bool_decide (is_Some (si_get_endpoint true i))).
Definition answer_find (_major _minor : Z) (_unicast_flag : bool) (p : Z) : ST sd_engine () :=
  i ← in_offers (info p);
  if fits _major _minor i then send_uni_or_multicast_offerservice p _unicast_flag else mret ().
Definition process_findservice_serviceentry (_service _instance _major _minor : Z) (_unicast_flag : bool) :
    ST sd_engine () :=
  s ← st_get;
  if bool_decide (_instance ≠ ANY_INSTANCE) then
    match find_requested _service _instance (so_offered (en_offers s)) with
    | Some p => answer_find _major _minor _unicast_flag p
    | None => mret ()
    end
  else for_each (λ x : Z * Z, answer_find _major _minor _unicast_flag x.2)
         (ordered (default ∅ (so_offered (en_offers s) !! _service))).

(** ** Offers of other devices *)

Definition offer_type (_reliable_address _reliable_port _unreliable_address _unreliable_port : Z) : remote_offer_type_e :=
  let reliable := bool_decide (_reliable_port ≠ ILLEGAL_PORT) && negb (is_unspecified sdenv _reliable_address) in
  let unreliable := bool_decide (_unreliable_port ≠ ILLEGAL_PORT) && negb (is_unspecified sdenv _unreliable_address) in
  if reliable && unreliable then RELIABLE_UNRELIABLE
  else if unreliable then UNRELIABLE
  else if reliable then RELIABLE
  else UNKNOWN.

(** [routing_manager_impl::expire_subscriptions] for an address, and for all its ports if
    the port is [ANY_PORT]. *)
Definition is_expired (address port : Z) (reliable : bool) (r : routing) (s : remote_subscription) : bool :=
  let expire_all := bool_decide (port = ANY_PORT) in
  let of_kind b := if (b : bool) then rs_reliable_ s else rs_unreliable_ s in
  let its_ep_definition :=
    match of_kind reliable with
    | Some e => Some e
    | None => if expire_all then of_kind (negb reliable) else None
    end in
  match its_ep_definition ≫= (r_endpoints r !!.) with
  | Some d => bool_decide (ed_address_ d = address) && (expire_all || bool_decide (ed_remote_port_ d = port))
  | None => false
  end.
(** The eventgroups in the order of service, instance and eventgroup. *)
Definition group_le (x y : Z * Z * Z * Z) : Prop :=
  let '(sv, i, eg, _) := x in let '(sv', i', eg', _) := y in
  sv < sv' ∨ sv = sv' ∧ (i < i' ∨ i = i' ∧ eg ≤ eg').
#[local] Instance group_le_dec : RelDecision group_le.
Proof. intros [[[a b] c] d] [[[a' b'] c'] d']. cbn. apply _. Defined.
Definition groups_in_order (r : routing) : list Z := snd <$> merge_sort group_le (map_to_list (r_eventgroups_ r)).

Definition expire_subscriptions_of (address port : Z) (reliable : bool) : ST routing () :=
  r ← st_get;
  for_each (λ g,
    ps ← get_remote_subscriptions g;
    for_each (λ p,
      s ← the_sub p;
      r ← st_get;
      if is_expired address port reliable r s then on_remote_unsubscribe (host_env sdenv) p else mret ())
      (client_list ps)) (groups_in_order r).

(** The ports of a device that is not accepted, each once per message. *)
Definition expire_subscriptions_and_services (_address _port : Z) (_reliable : bool) (expired_ports : gset (bool * Z)) :
    ST sd_engine (gset (bool * Z)) :=
  if bool_decide ((_reliable, _port) ∈ expired_ports) then mret expired_ports
  else
    in_client (st_modify (λ s, sc_set_offers (remove_remote_offer_type_by_port _address _port _reliable (sc_offers s)) s));;
    in_server (with_callbacks (ee_server env) (expire_subscriptions_of _address _port _reliable));;
    call (ExpireServices _address _port _reliable);;
    mret ({[(_reliable, _port)]} ∪ expired_ports).

(** [None] if the offer is accepted, otherwise the ports that have expired. *)
Definition refuse_offer (t : remote_offer_type_e)
    (_reliable_address _reliable_port _unreliable_address _unreliable_port : Z)
    (_sd_ac_state : sd_acceptance_state_t) (expired_ports : gset (bool * Z)) : ST sd_engine (option (gset (bool * Z))) :=
  let protected_unreliable := is_protected_port (ee_server env) _unreliable_address _unreliable_port false in
  let protected_reliable := is_protected_port (ee_server env) _reliable_address _reliable_port true in
  if negb (sd_acceptance_required_ _sd_ac_state) || accept_entries_ _sd_ac_state then mret None
  else
    match t with
    | UNRELIABLE =>
        if protected_unreliable then
          x ← expire_subscriptions_and_services _unreliable_address _unreliable_port false expired_ports; mret (Some x)
        else mret None
    | RELIABLE =>
        if protected_reliable then
          x ← expire_subscriptions_and_services _reliable_address _reliable_port true expired_ports; mret (Some x)
        else mret None
    | RELIABLE_UNRELIABLE =>
        if protected_unreliable || protected_reliable then
          x ← expire_subscriptions_and_services _unreliable_address _unreliable_port false expired_ports;
          x ← expire_subscriptions_and_services _reliable_address _reliable_port true x;
          mret (Some x)
        else mret None
    | UNKNOWN => mret None
    end.

(** [routing_manager_impl::get_subscribed_eventgroups] *)
Definition is_subscribed_group (r : routing) (eg g : Z) : bool :=
  match r_groups r !! g with
  | Some x => existsb (λ e, match r_events r !! e with Some y => has_subscriber eg ANY_CLIENT y | None => false end)
                (elements (eg_events_ x))
  | None => false
  end.
Definition get_subscribed_eventgroups (_service _instance : Z) (r : routing) : gset Z :=
  list_to_set (omap (λ x : Z * Z * Z * Z,
    let '(sv, i, eg, g) := x in
    if bool_decide (sv = _service) && bool_decide (i = _instance) && is_subscribed_group r eg g then Some eg else None)
    (map_to_list (r_eventgroups_ r))).

(** The eventgroups whose reliability follows the offer. *)
Definition follow_offer (_service _instance : Z) (t : remote_offer_type_e) (eg : Z) : ST routing () :=
  its_info ← find_eventgroup (host_env sdenv) _service _instance eg;
  match its_info with
  | Some g =>
      x ← the_group g;
      if eg_reliability_auto_mode_ x && bool_decide (offer_reliability t ≠ RT_UNKNOWN)
         && bool_decide (offer_reliability t ≠ eg_reliability_ x)
      then upd_group g (eg_with_reliability (offer_reliability t)) else mret ()
  | None => mret ()
  end.

(** What an entry changes beside the state: the messages that renew subscriptions, and the
    ports that have expired. *)
Definition process_offerservice_serviceentry (_service _instance _major _minor _ttl
    _reliable_address _reliable_port _unreliable_address _unreliable_port : Z)
    (_received_via_mcast : bool) (_sd_ac_state : sd_acceptance_state_t)
    (acc : list sd_message * gset (bool * Z)) : ST sd_engine (list sd_message * gset (bool * Z)) :=
  let '(_resubscribes, expired_ports) := acc in
  if is_secure_service env _service _instance
     && (bool_decide (_reliable_port ≠ ILLEGAL_PORT) && negb (is_secure_port env _reliable_address _reliable_port true)
         || bool_decide (_unreliable_port ≠ ILLEGAL_PORT)
            && negb (is_secure_port env _unreliable_address _unreliable_port false))
  then mret acc
  else
    in_finds (request_answered (ee_config env) _service _instance);;
    let t := offer_type _reliable_address _reliable_port _unreliable_address _unreliable_port in
    if bool_decide (t = UNKNOWN) then mret acc
    else
      refused ← refuse_offer t _reliable_address _reliable_port _unreliable_address _unreliable_port _sd_ac_state expired_ports;
      match refused with
      | Some expired_ports => mret (_resubscribes, expired_ports)
      | None =>
          s ← st_get;
          let '(changed, offers) := update_remote_offer_type _service _instance t _reliable_address _reliable_port
                                      _unreliable_address _unreliable_port (sc_offers (ss_sd (en_server s))) in
          in_client (st_modify (sc_set_offers offers));;
          (if (changed : bool) then
             in_client (in_host (
               r ← st_get;
               for_each (follow_offer _service _instance t)
                 (client_list (get_subscribed_eventgroups _service _instance r))))
           else mret ());;
          call (AddRoutingInfo _service _instance _major _minor
                  (u32 (_ttl * get_ttl_factor _service _instance (ttl_factor_offers_ env)))
                  _reliable_address _reliable_port _unreliable_address _unreliable_port);;
          if _received_via_mcast then
            _resubscribes ← in_client (resubscribe sdenv _service _instance _resubscribes);
            mret (_resubscribes, expired_ports)
          else mret (_resubscribes, expired_ports)
      end.

(** ** Service entries *)

(** Address and port of the two endpoints. *)
Record service_reading : Type := ServiceReading {
  its_reliable_address : Z; its_reliable_port : Z;
  its_unreliable_address : Z; its_unreliable_port : Z
}.
Definition read_service_endpoint (bytes : list Z) (ip : ip_option) (x : service_reading) : service_reading :=
  let a := make_address (ee_server env) bytes in
  if bool_decide (ip_protocol_ ip = L4_UDP)
  then ServiceReading (its_reliable_address x) (its_reliable_port x) a (ip_port_ ip)
  else ServiceReading a (ip_port_ ip) (its_unreliable_address x) (its_unreliable_port x).
Definition read_service_option (o : option_impl) (x : service_reading) : outcome service_reading :=
  let t := option_get_type o in
  if bool_decide (t = IP4_ENDPOINT) then
    match o with Ipv4Option _ ip a => Ret (read_service_endpoint a ip x) | _ => Undef end
  else if bool_decide (t = IP6_ENDPOINT) then
    match o with Ipv6Option _ ip a => Ret (read_service_endpoint a ip x) | _ => Undef end
  else Ret x.
Fixpoint read_service_options (_options : list option_impl) (indexes : list Z) (x : service_reading) :
    outcome service_reading :=
  match indexes with
  | [] => Ret x
  | its_index :: indexes =>
      match _options !! Z.to_nat its_index with
      | Some o => x ← read_service_option o x; read_service_options _options indexes x
      | None => read_service_options _options indexes x
      end
  end.

Definition process_serviceentry (e : entry_base) (its_minor : Z) (_options : list option_impl) (_unicast_flag : bool)
    (_received_via_mcast : bool) (_sd_ac_state : sd_acceptance_state_t) (acc : list sd_message * gset (bool * Z)) :
    ST sd_engine (list sd_message * gset (bool * Z)) :=
  let '(its_service, its_instance, its_major, its_ttl) := (e_service_ e, e_instance_ e, e_major_version_ e, e_ttl_ e) in
  x ← st_lift (read_service_options _options (entry_get_options 1 e ++ entry_get_options 2 e)
                 (ServiceReading (no_address sdenv) ILLEGAL_PORT (no_address sdenv) ILLEGAL_PORT));
  if bool_decide (0 < its_ttl) then
    if bool_decide (e_type_ e = FIND_SERVICE) then
      process_findservice_serviceentry its_service its_instance its_major its_minor _unicast_flag;; mret acc
    else if bool_decide (e_type_ e = OFFER_SERVICE) then
      process_offerservice_serviceentry its_service its_instance its_major its_minor its_ttl
        (its_reliable_address x) (its_reliable_port x) (its_unreliable_address x) (its_unreliable_port x)
        _received_via_mcast _sd_ac_state acc
    else mret acc
  else if negb (sd_acceptance_required_ _sd_ac_state) || accept_entries_ _sd_ac_state then
    in_finds (request_answered (ee_config env) its_service its_instance);;
    in_client (st_modify (λ s, sc_set_offers (remove_remote_offer_type its_service its_instance
      (its_reliable_address x) (its_reliable_port x) (its_unreliable_address x) (its_unreliable_port x) (sc_offers s)) s));;
    in_client (reset_subscriptions its_service its_instance);;
    s ← st_get;
    (if negb (is_diagnosis_ (en_offers s)) && negb (is_suspended_ (en_offers s)) then
       call (DelRoutingInfo its_service its_instance (bool_decide (its_reliable_port x ≠ ILLEGAL_PORT))
               (bool_decide (its_unreliable_port x ≠ ILLEGAL_PORT)))
     else mret ());;
    mret acc
  else mret acc.

(** ** Messages *)

Definition check_source_address (its_source_address : Z) : bool := bool_decide (unicast_ sdenv ≠ its_source_address).

Definition check_static_header_fields (m : sd_message) : bool :=
  let h := sd_header_ m in
  bool_decide (protocol_version_ h = 0x01) && bool_decide (interface_version_ h = 0x01)
  && bool_decide (type_ h = MT_NOTIFICATION) && negb (bool_decide (code_ h > E_OK) && bool_decide (code_ h < E_UNKNOWN)).

(** A reboot of the sender: its offers and subscriptions expire. *)
Definition on_reboot (_sender : Z) : ST sd_engine () :=
  in_client (st_modify (λ s, sc_set_offers (remove_remote_offer_type_by_ip _sender (sc_offers s)) s));;
  in_server (with_callbacks (ee_server env) (expire_subscriptions_of _sender ANY_PORT false));;
  call (ExpireServices _sender ANY_PORT false);;
  if has_reboot_handler env then call (RebootNotification _sender) else mret ().

(** What the loop over the entries carries along. *)
Record entry_loop : Type := EntryLoop {
  is_stop_subscribe_subscribe : bool;
  force_initial_events : bool;
  el_resubscribes : list sd_message;
  el_expired_ports : gset (bool * Z)
}.

Definition acceptance (_sender : Z) : sd_acceptance_state_t :=
  match sd_acceptance_handler_ env with
  | Some f => AcceptanceState (is_protected_device env _sender) (f _sender)
  | None => AcceptanceState false true
  end.

Definition process_entry (m : sd_message) (its_acknowledgement _sender _destination : Z) (received_via_mcast : bool)
    (x : entry_impl) (rest : list entry_impl) (l : entry_loop) : ST sd_engine entry_loop :=
  let its_options := snd <$> options_ m in
  let accept_state := acceptance _sender in
  if is_service_entry (entry_common x) then
    match x with
    | ServiceEntry e minor =>
        '(ms, ports) ← process_serviceentry e minor its_options (get_unicast_flag m) received_via_mcast accept_state
                         (el_resubscribes l, el_expired_ports l);
        mret (EntryLoop (is_stop_subscribe_subscribe l) (force_initial_events l) ms ports)
    | EventgroupEntry _ _ _ _ _ _ => st_lift Undef
    end
  else
    same ← st_lift (if bool_decide (e_type_ (entry_common x) = SUBSCRIBE_EVENTGROUP) then has_same its_options x rest
                    else Ret false);
    if (same : bool) then mret l
    else
      let force := is_stop_subscribe_subscribe l || force_initial_events l in
      stop ← st_lift (check_stop_subscribe_subscribe its_options x rest);
      in_server (process_eventgroupentry (ee_server env) x m its_acknowledgement _sender _destination stop force accept_state);;
      mret (EntryLoop stop force (el_resubscribes l) (el_expired_ports l)).

Fixpoint process_entries (m : sd_message) (its_acknowledgement _sender _destination : Z) (received_via_mcast : bool)
    (entries : list entry_impl) (l : entry_loop) : ST sd_engine entry_loop :=
  match entries with
  | [] => mret l
  | x :: rest =>
      l ← process_entry m its_acknowledgement _sender _destination received_via_mcast x rest l;
      process_entries m its_acknowledgement _sender _destination received_via_mcast rest l
  end.

(** After the last entry the acknowledgment is complete, and sent unless an application is
    to decide. *)
Definition finish_acknowledgement (its_acknowledgement : Z) : ST sd_server () :=
  upd_ack its_acknowledgement complete;;
  a ← the_ack its_acknowledgement;
  s ← st_get;
  if has_subscription a then update_acknowledgement (ee_server env) its_acknowledgement
  else if negb (ack_is_pending (ss_routing s) a) && negb (ack_is_done_ a)
  then send_subscription_ack (ee_server env) its_acknowledgement
  else mret ().

(** The message [m] was read. *)
Definition process_message (m : sd_message) (_sender _destination : Z) : ST sd_engine () :=
  let received_via_mcast := bool_decide (_destination = sd_multicast_address_ env) in
  if negb (check_static_header_fields m) then mret ()
  else
    rebooted ← in_client (
      s ← st_get;
      '(b, net) ← st_lift (in_sessions (is_reboot (is_multicast (host_env sdenv)) _sender _destination
                             (get_reboot_flag m) (session_ (sd_header_ m))) (sc_net s));
      st_modify (sc_set_net net);; mret b);
    (if (rebooted : bool) then on_reboot _sender else mret ());;
    s ← st_get;
    let its_acknowledgement := fresh (dom (ss_acks (en_server s))) in
    in_server (st_modify (λ s, ss_set_acks (<[its_acknowledgement := remote_subscription_ack_new _sender]> (ss_acks s)) s));;
    l ← process_entries m its_acknowledgement _sender _destination received_via_mcast (entries_ m)
          (EntryLoop false false [sd_message_new] ∅);
    in_server (finish_acknowledgement its_acknowledgement);;
    in_client (send_resubscribes sdenv (el_resubscribes l) _sender);;
    in_server release.

Definition on_message (_data : list Z) (_sender _destination : Z) : ST sd_engine () :=
  s ← st_get;
  if is_suspended_ (en_offers s) then mret ()
  else if negb (check_source_address _sender) then mret ()
  else
    (if bool_decide (_destination = sd_multicast_address_ env)
     then st_modify (en_set_last (Some (r_clock (ss_routing (en_server s)) + last_msg_received_timer_timeout_ env)))
     else mret ());;
    st_modify (en_set_remote _sender);;
    '(its_message, _) ← st_lift (deserialize_sd_message (uninit_client env) Z.of_nat
                                   (deserializer_set_data (Some _data) (deserializer_new 0)));
    match its_message with
    | Some m => process_message m _sender _destination
    | None => mret ()
    end.

(** ** Answers of the applications *)

(** An application has decided about a client of a subscription: the routing manager passes
    the answer on, and the service discovery with it. *)
Definition on_application_ack (client service instance eventgroup event id : Z) : ST sd_server () :=
  with_callbacks (ee_server env) (on_subscribe_ack (host_env sdenv) client service instance eventgroup event id);;
  release.
Definition on_application_nack (client service instance eventgroup event id : Z) : ST sd_server () :=
  with_callbacks (ee_server env) (on_subscribe_nack (host_env sdenv) client service instance eventgroup event id);;
  release.

(** The timer of expirations. *)
Definition on_subscription_expiration : ST sd_server () :=
  next ← in_sd (in_host (expire_subscriptions (host_env sdenv) false));
  st_modify (ss_set_expiration next (Some next));;
  release.

(** ** Start and stop *)

Definition ttl_timer_runtime_ : Z := cyclic_offer_delay_ (ee_config env) `quot` 2.
Definition start_ttl_timer : ST sd_engine () :=
  st_modify (λ s, en_set_ttl_timer (Some (r_clock (ss_routing (en_server s)) + ttl_timer_runtime_)) s).
Definition stop_ttl_timer : ST sd_engine () := st_modify (en_set_ttl_timer None).
Definition check_ttl : ST sd_engine () := call (UpdateRoutingInfo ttl_timer_runtime_);; start_ttl_timer.

Definition so_set_suspended (v : bool) (s : sd_offers) : sd_offers :=
  Offers (so_now s) (so_infos s) (so_offered s) (collected_offers_ s) (repetition_phase_timers_ s)
    (so_waits s) (so_next_timer s) (so_next_option s) (offer_debounce_timer_ s) (main_phase_timer_ s)
    v (is_diagnosis_ s) (so_net s).

Definition rejoin : ST sd_engine () :=
  s ← st_get;
  if has_endpoint s && negb (reliable_ env) then call JoinMulticast else mret ().
Definition on_last_msg_received_timer_expired : ST sd_engine () :=
  rejoin;;
  st_modify (λ s, en_set_last (Some (r_clock (ss_routing (en_server s)) + last_msg_received_timer_timeout_ env)) s).

Definition start : ST sd_engine () :=
  s ← st_get;
  if negb (has_endpoint s) && negb (create_service_discovery_endpoint env) then mret ()
  else
    st_modify (en_set_endpoint true);;
    in_client (s ← st_get;
      '(_, net) ← st_lift (in_sessions start_sessions (sc_net s));
      st_modify (sc_set_net net));;
    (if is_suspended_ (en_offers s) then in_finds restart_requests;; rejoin else mret ());;
    in_offers (st_modify (so_set_suspended false);; start_main_phase_timer (ee_config env);;
               start_offer_debounce_timer (ee_config env) true);;
    in_finds (start_find_debounce_timer (ee_config env) true);;
    start_ttl_timer.

Definition stop : ST sd_engine () :=
  in_offers (st_modify (so_set_suspended true));;
  stop_ttl_timer;;
  st_modify (en_set_last None).
End engine.

(** ** Answers to finds *)

Section finding.
  Context (env : engine_env).
  #[local] Abbreviation sdenv := (se_env (ee_server env)).


Definition net_of (s : sd_engine) : sd_net := sc_net (ss_sd (en_server s)).













(** Bytes that are no message, or a message with a wrong header. *)
Definition unusable (data : list Z) : Prop :=
  ∃ x d, deserialize_sd_message (uninit_client env) Z.of_nat (deserializer_set_data (Some data) (deserializer_new 0)) = Ret (x, d) ∧
    match x with Some m => check_static_header_fields m = false | None => True end.

(** What is not for this device is ignored.  While the service discovery is suspended and
    for the datagrams of this device itself, nothing changes; bytes that cannot be read as a
    message, and messages with a wrong header, change at most the address of the last sender
    and the supervision of multicast messages. *)
Theorem unusable_datagram_ignored data sender destination s :
  is_suspended_ (en_offers s) = true ∨ sender = unicast_ sdenv ∨ unusable data →
  ∃ s', on_message env data sender destination s = Ret ((), s') ∧
    en_server s' = en_server s ∧ en_offers s' = en_offers s ∧ en_finds s' = en_finds s ∧ en_calls s' = en_calls s ∧
    (is_suspended_ (en_offers s) = true ∨ sender = unicast_ sdenv → s' = s).
Proof.
  intros H. unfold on_message. rewrite (st_bind_Ret _ _ _ _ _ (eq_refl : st_get s = Ret (s, s))).
  destruct (is_suspended_ (en_offers s)) eqn:Es; [by exists s|]. destruct H as [|H]; [done|].
  unfold check_source_address. destruct (decide (sender = unicast_ sdenv)) as [->|Hne].
  { rewrite bool_decide_false by auto. by exists s. }
  rewrite bool_decide_true by done. cbn [negb]. destruct H as [|(x&d&E&Hx)]; [done|].
  set (s1 := if bool_decide (destination = sd_multicast_address_ env)
             then en_set_last (Some (r_clock (ss_routing (en_server s)) + last_msg_received_timer_timeout_ env)) s else s).
  exists (en_set_remote sender s1).
  split; [|split_and!; [by unfold s1; case_bool_decide..|by intros [?|?]]].
  rewrite (st_bind_Ret _ _ s () s1) by by (unfold s1; case_bool_decide).
  rewrite (st_bind_Ret _ _ s1 () (en_set_remote sender s1)) by done.
  rewrite (st_bind_Ret _ _ _ (x, d) (en_set_remote sender s1)) by (unfold st_lift; by rewrite E).
  destruct x as [m|]; [|done]. unfold process_message. by rewrite Hx.
Qed.
End finding.

(** ** Runs of the whole

    A device offers the service 0x1111 with the eventgroups 0x10 and 0x20; the device at the
    address 9 sends messages. *)
Definition run_env : engine_env :=
  EngineEnv sample_server_env sample_config 224 1100 ∅ (λ _ _, false) (λ _ _ _, true) (λ _, false) None false 0 true false.
Definition run_group (eg : Z) : eventgroupinfo := Eventgroupinfo 0x1111 0x1 eg 0 3 0 0 ∅ 0 ∅ 0 RT_UNRELIABLE false.
Definition run_offers : sd_offers :=
  Offers 0 sample_infos {[0x1111 := {[1 := 1; 2 := 2]}]} ∅ ∅ ∅ 0 0 0 0 false false sample_net.
Definition run_engine : sd_engine :=
  Engine (SdServer (SdClient (Routing {[100 := run_group 0x10; 200 := run_group 0x20]}
        {[(0x1111, 0x1, 0x10) := 100; (0x1111, 0x1, 0x20) := 200]} ∅ ∅ ∅ ∅ ∅ ∅ 1000 true 0 [] [])
      (RemoteOffers ∅ ∅) ∅ sample_net 0 []) ∅ ∅ ∅ 100000 None)
    run_offers sample_finds None 9 [] true None.


Lemma unusable_datagram_ignored_witness :
  ∃ s', on_message run_env [0xFF; 0xFF; 0x81] 9 224 run_engine = Ret ((), s') ∧ en_server s' = en_server run_engine ∧
    en_calls s' = [].
Proof.
  destruct (unusable_datagram_ignored run_env [0xFF; 0xFF; 0x81] 9 224 run_engine) as (s'&H1&H2&_&_&H3&_).
  - right. right. do 2 eexists. split; [vm_compute; reflexivity|exact I].
  - exists s'. split; [exact H1|]. split; [exact H2|exact H3].
Defined.

(** A message with entries that subscribe, or stop, from one endpoint. *)
Definition run_subscribe (eg ttl : Z) : entry_impl :=
  EventgroupEntry (assign_option 0 (entry_set_ttl ttl (entry_set_instance 1 (entry_set_service 0x1111
    (entry_set_type SUBSCRIBE_EVENTGROUP entry_base_new))))) eg 0 0 None None.
Definition run_message (l : list entry_impl) (opts : list option_impl) : sd_message :=
  SdMessage (Header VSOMEIP_SD_SERVICE VSOMEIP_SD_METHOD 0 0 1 1 1 MT_NOTIFICATION E_OK 0) 0xC0 0 l ((λ o, (0, o)) <$> opts) 0.
Definition run_endpoint : option_impl := ipv4_option_of [192; 168; 0; 9] false 30000 false.

(** What the engine does with a datagram, and with the answers of applications. *)
Definition run_received (l : list entry_impl) (opts : list option_impl) : outcome sd_engine :=
  '(_, s) ← on_message run_env (sd_wire (run_message l opts)) 9 5 run_engine; Ret s.
Definition run_acked (eg id : Z) (o : outcome sd_engine) : outcome sd_engine :=
  s ← o; '(_, v) ← on_application_ack run_env 0 0x1111 1 eg ANY_EVENT id (en_server s); Ret (en_set_server v s).
(** The subscriptions that applications are asked about, and the entries sent to the device. *)
Definition run_asked (o : outcome sd_engine) : outcome (list (Z * Z)) :=
  s ← o; Ret (omap (λ x, match x with SendSubscription _ _ _ eg _ _ id => Some (eg, id) | _ => None end) (r_actions (ss_routing (en_server s)))).
Definition wire_bodies (bs : list Z) : list (Z * Z * Z * Z * Z * Z) :=
  match deserialize_sd_message 0 Z.of_nat (deserializer_set_data (Some bs) (deserializer_new 0)) with
  | Ret (Some m, _) => bodies [m]
  | _ => []
  end.
Definition run_sent (o : outcome sd_engine) : outcome (list (Z * list (Z * Z * Z * Z * Z * Z))) :=
  s ← o; Ret (omap (λ x, match x.1 with SendViaSd a bs => Some (a, wire_bodies bs) | HostSend _ => None end) (net_out (net_of s))).

(** Two subscriptions in one message: the applications are asked about both, the device is
    answered once, when the second has decided. *)
Example subscriptions_end_to_end :
  let o := run_received [run_subscribe 0x10 3; run_subscribe 0x20 3] [run_endpoint] in
  run_asked o = Ret [(0x10, 1); (0x20, 1)] ∧ run_sent o = Ret [] ∧ run_sent (run_acked 0x10 1 o) = Ret [] ∧
  run_sent (run_acked 0x20 1 (run_acked 0x10 1 o)) =
    Ret [(9, [(SUBSCRIBE_EVENTGROUP_ACK, 0x1111, 1, 0, 6, 0x10); (SUBSCRIBE_EVENTGROUP_ACK, 0x1111, 1, 0, 6, 0x20)])].
Proof. vm_compute. split_and!; reflexivity. Qed.

(** A stop of a subscription that does not exist stays pending: the subscription beside it
    is never answered. *)
Example stop_of_unknown_subscription_blocks_answers :
  let o := run_received [run_subscribe 0x20 0; run_subscribe 0x10 3] [run_endpoint] in
  run_asked o = Ret [(0x10, 1)] ∧ run_sent (run_acked 0x10 1 o) = Ret [].
Proof. vm_compute. split; reflexivity. Qed.

(** A selective option without clients, in a subscription that is refused, is undefined
    behaviour. *)
Definition run_selective (eg major ttl : Z) : entry_impl :=
  EventgroupEntry (assign_option 1 (assign_option 0 (entry_set_ttl ttl (entry_set_major_version major (entry_set_instance 1
    (entry_set_service 0x1111 (entry_set_type SUBSCRIBE_EVENTGROUP entry_base_new))))))) eg 0 0 None None.
Example empty_selective_option_undefined :
  run_received [run_selective 0x10 5 3] [run_endpoint; SelectiveOption (OptionBase 1 SELECTIVE) ∅] = Undef.
Proof. vm_compute. reflexivity. Qed.

(** After a stop and a start a service that was offered before is looked for again. *)
Example resumed_device_looks_anew :
  let m := in_finds (request_service 0x2222 1 1 0 3;; request_answered sample_config 0x2222 1);;
           stop;; start run_env;; in_finds (on_find_debounce_timer_expired sample_config accept_all) in
  match m run_engine with
  | Ret (_, s) => output_bodies (net_out (net_of s)) = [(FIND_SERVICE, 0x2222, 1, 1, 3, 0)] ∧ en_calls s = [JoinMulticast]
  | _ => False
  end.
Proof. vm_compute. split; reflexivity. Qed.
