(* ===== verification/ClientPorts.v ===== *)
(** The local ports of client endpoints: the [clients] of the configuration
    ([configuration/src/configuration_impl.cpp]), from their text to the choice of a port.

    An entry gives the ports for one service instance, or maps a range of remote ports to a
    range of local ports.  The configuration file is a tree as in [SecurityConfig].  A number
    that is blank leaves the variable as it is.  Port counters have 16 bits; the search has
    enough fuel to visit every port once, and one more step. *)
From Stdlib Require Import Ascii.
From stdpp Require Import strings pretty.
From S2P Require Import Prelude ByteOrder ConfigValues SecurityConfig Eventgroups.
#[local] Open Scope Z_scope.

(** ** Configured clients *)

Record client : Type := CfgClient {
  cl_service_ : Z;
  cl_instance_ : Z;
  cl_ports_ : gmap bool (gset Z);
  remote_ports_ : gmap bool (Z * Z);
  client_ports_ : gmap bool (Z * Z)
}.
Definition client_new : client := CfgClient 0xFFFF 0xFFFF ∅ ∅ ∅.
Definition set_cl_service (v : Z) (c : client) : client :=
  CfgClient v (cl_instance_ c) (cl_ports_ c) (remote_ports_ c) (client_ports_ c).
Definition set_cl_instance (v : Z) (c : client) : client :=
  CfgClient (cl_service_ c) v (cl_ports_ c) (remote_ports_ c) (client_ports_ c).
Definition set_cl_ports (reliable : bool) (v : gset Z) (c : client) : client :=
  CfgClient (cl_service_ c) (cl_instance_ c) (<[reliable := v]> (cl_ports_ c)) (remote_ports_ c) (client_ports_ c).
Definition set_remote_ports (reliable : bool) (v : Z * Z) (c : client) : client :=
  CfgClient (cl_service_ c) (cl_instance_ c) (cl_ports_ c) (<[reliable := v]> (remote_ports_ c)) (client_ports_ c).
Definition set_client_ports (reliable : bool) (v : Z * Z) (c : client) : client :=
  CfgClient (cl_service_ c) (cl_instance_ c) (cl_ports_ c) (remote_ports_ c) (<[reliable := v]> (client_ports_ c)).
(** [operator[]] of the maps. *)
Definition ports_of (reliable : bool) (c : client) : gset Z := default ∅ (cl_ports_ c !! reliable).
Definition remote_range (reliable : bool) (c : client) : Z * Z :=
  default (ILLEGAL_PORT, ILLEGAL_PORT) (remote_ports_ c !! reliable).
Definition client_range (reliable : bool) (c : client) : Z * Z :=
  default (ILLEGAL_PORT, ILLEGAL_PORT) (client_ports_ c !! reliable).

(** ** Reading them *)

(** The prefix that selects base sixteen. *)
Definition has_hex_prefix (its_value : string) : bool :=
  match its_value with String "0"%char (String "x"%char _) => true | _ => false end.
Definition convert_u16 (its_value : string) (variable : outcome Z) : outcome Z :=
  match skip_space its_value with
  | EmptyString => variable
  | _ => extract_unsigned 16 (has_hex_prefix its_value) its_value
  end.

Section load.
  Context `{PTree}.

Definition load_client_ports (_tree : ptree) : outcome (gset Z) :=
  for_children (λ _ i (its_ports : gset Z),
    its_port_value ← convert_u16 (pt_data i) Undef;
    Ret ({[its_port_value]} ∪ its_ports)) (pt_children _tree) ∅.

Definition load_client_port_range (_tree : ptree) : outcome (Z * Z) :=
  '(its_first_port, its_last_port) ← for_children (λ its_key i '(its_first_port, its_last_port),
      if is_text its_key "first" then
        v ← convert_u16 (pt_data i) (Ret its_first_port); Ret (v, its_last_port)
      else if is_text its_key "last" then
        v ← convert_u16 (pt_data i) (Ret its_last_port); Ret (its_first_port, v)
      else Ret (its_first_port, its_last_port)) (pt_children _tree) (ILLEGAL_PORT, ILLEGAL_PORT);
  Ret (if bool_decide (its_last_port < its_first_port) then (ILLEGAL_PORT, ILLEGAL_PORT)
       else (its_first_port, its_last_port)).

Definition load_client_key (its_key : string) (i : ptree) (its_client : client) : outcome client :=
  if is_text its_key "reliable_remote_ports" then
    r ← load_client_port_range i; Ret (set_remote_ports true r its_client)
  else if is_text its_key "unreliable_remote_ports" then
    r ← load_client_port_range i; Ret (set_remote_ports false r its_client)
  else if is_text its_key "reliable_client_ports" then
    r ← load_client_port_range i; Ret (set_client_ports true r its_client)
  else if is_text its_key "unreliable_client_ports" then
    r ← load_client_port_range i; Ret (set_client_ports false r its_client)
  else if is_text its_key "reliable" then
    p ← load_client_ports i; Ret (set_cl_ports true p its_client)
  else if is_text its_key "unreliable" then
    p ← load_client_ports i; Ret (set_cl_ports false p its_client)
  else if is_text its_key "service" then
    v ← convert_u16 (pt_data i) (Ret (cl_service_ its_client)); Ret (set_cl_service v its_client)
  else if is_text its_key "instance" then
    v ← convert_u16 (pt_data i) (Ret (cl_instance_ its_client)); Ret (set_cl_instance v its_client)
  else Ret its_client.
Definition load_client (_tree : ptree) (clients_ : list client) : outcome (list client) :=
  let none := (ILLEGAL_PORT, ILLEGAL_PORT) in
  its_client ← for_children load_client_key (pt_children _tree)
    (set_client_ports false none (set_client_ports true none
      (set_remote_ports false none (set_remote_ports true none client_new))));
  Ret (clients_ ++ [its_client]).
Definition load_clients (_element : ptree) (clients_ : list client) : outcome (list client) :=
  match get_child "clients" _element with
  | Some its_clients => for_children (λ _ i clients_, load_client i clients_) (pt_children its_clients) clients_
  | None => Ret clients_
  end.
End load.

(** ** Choosing a port *)

Abbreviation port_sets := (gmap bool (gset Z)).
Definition used_ports (reliable : bool) (m : port_sets) : gset Z := default ∅ (m !! reliable).

Definition is_in_port_range (_port : Z) (_port_range : Z * Z) : bool :=
  bool_decide (_port >= _port_range.1) && bool_decide (_port ≤ _port_range.2).
Definition find_client (_service _instance : Z) (clients_ : list client) : option client :=
  head (filter (λ c, cl_service_ c = _service ∧ cl_instance_ c = _instance) clients_).

(** [for (uint16_t its_port = first; its_port <= last; its_port++)], up to a free port. *)
Fixpoint free_in_range (fuel : nat) (used : gset Z) (its_port last : Z) : outcome (option Z) :=
  match fuel with
  | O => NoFuel
  | S fuel =>
      if bool_decide (its_port ≤ last) then
        if bool_decide (its_port ∉ used) then Ret (Some its_port)
        else free_in_range fuel used (u16 (its_port + 1)) last
      else Ret None
  end.
Definition port_fuel : nat := Z.to_nat (2 ^ 16 + 1).
(** Whether a range is configured, and the free port. *)
Fixpoint find_port (clients_ : list client) (_remote : Z) (_reliable : bool) (used : gset Z) (is_configured : bool) :
    outcome (bool * option Z) :=
  match clients_ with
  | [] => Ret (is_configured, None)
  | c :: clients_ =>
      if is_in_port_range _remote (remote_range _reliable c) then
        p ← free_in_range port_fuel used (client_range _reliable c).1 (client_range _reliable c).2;
        match p with
        | Some _port => Ret (true, Some _port)
        | None => find_port clients_ _remote _reliable used true
        end
      else find_port clients_ _remote _reliable used is_configured
  end.

(** The ports of a set, in order. *)
Definition port_list (s : gset Z) : list Z := merge_sort Z.le (elements s).
Definition get_client_port (clients_ : list client) (_service _instance _remote_port : Z) (_reliable : bool)
    (_used_client_ports : port_sets) : outcome (option Z) :=
  let used := used_ports _reliable _used_client_ports in
  let specific := match find_client _service _instance clients_ with
                  | Some c => ports_of _reliable c
                  | None => ∅
                  end in
  match head (filter (λ p, p ∉ used) (port_list specific)) with
  | Some its_port => Ret (Some its_port)
  | None =>
      '(found, its_port) ← find_port clients_ _remote_port _reliable used false;
      if (found : bool) && bool_decide (default ILLEGAL_PORT its_port ≠ ILLEGAL_PORT) then Ret its_port
      else if negb (found || bool_decide (specific ≠ ∅)) then Ret (Some 0)
      else Ret None
  end.

(** The ports in use. *)
Definition use_port (_port : Z) (_reliable : bool) (m : port_sets) : port_sets :=
  <[_reliable := {[_port]} ∪ used_ports _reliable m]> m.
Definition release_port (_port : Z) (_reliable : bool) (m : port_sets) : port_sets :=
  <[_reliable := used_ports _reliable m ∖ {[_port]}]> m.

(** ** The search in a range *)

Definition first_free (used : gset Z) (l : list Z) : option Z := head (filter (λ p, p ∉ used) l).

Lemma free_in_range_free fuel used p last q : free_in_range fuel used p last = Ret (Some q) → q ∉ used.
Proof.
  revert p. induction fuel as [|fuel IH]; intros p; [done|]. cbn.
  case_bool_decide; [|done]. case_bool_decide; [by intros [= <-]|apply IH].
Qed.

(** A range that ends below the greatest port is searched from its first port to its last. *)
Lemma free_in_range_spec fuel used p last : 0 ≤ p → last < 2 ^ 16 - 1 → Z.of_nat fuel > last - p + 1 → p ≤ last + 1 →
  free_in_range fuel used p last = Ret (first_free used (seqZ p (last - p + 1))).
Proof.
  unfold first_free.
  revert p. induction fuel as [|fuel IH]; intros p Hp Hl Hf Hle; [lia|]. cbn.
  case_bool_decide as Hpl; [|by rewrite seqZ_nil by lia].
  rewrite seqZ_cons by lia. case_bool_decide as Hu.
  - by rewrite filter_cons_True.
  - rewrite filter_cons_False by tauto. rewrite u16_id by (unfold is_u16; lia).
    rewrite IH by lia. by replace (Z.pred (last - p + 1)) with (last - (p + 1) + 1) by lia.
Qed.

(** The search comes to an end if some port is free. *)
Lemma free_in_range_total fuel used p last f : is_u16 p → is_u16 f → f ∉ used →
  Z.of_nat fuel > (f - p) mod 2 ^ 16 → ∃ r, free_in_range fuel used p last = Ret r.
Proof.
  intros Hp Hf Hu. revert p Hp. induction fuel as [|fuel IH]; intros p Hp Hfuel; cbn [free_in_range].
  { pose proof (Z.mod_pos_bound (f - p) (2 ^ 16)). lia. }
  case_bool_decide; [|by eexists]. case_bool_decide as Hpu; [by eexists|].
  apply IH; [apply is_u16_u16|]. assert (p ≠ f) by (intros ->; tauto).
  unfold is_u16, u16 in *. rewrite Zminus_mod_idemp_r.
  destruct (decide (p < f)).
  - rewrite Z.mod_small in Hfuel by lia. rewrite Z.mod_small by lia. lia.
  - replace (f - p) with (f - p + 2 ^ 16 + -1 * 2 ^ 16) in Hfuel by lia. rewrite Z.mod_add, Z.mod_small in Hfuel by lia.
    replace (f - (p + 1)) with (f - p - 1 + 2 ^ 16 + -1 * 2 ^ 16) by lia. rewrite Z.mod_add, Z.mod_small by lia. lia.
Qed.

(** Ports in use are skipped. *)
Lemma free_in_range_skip k fuel used p last : is_u16 p → p + Z.of_nat k ≤ last + 1 → last < 2 ^ 16 →
  (∀ q, p ≤ q < p + Z.of_nat k → q ∈ used) →
  free_in_range (k + fuel) used p last = free_in_range fuel used (u16 (p + Z.of_nat k)) last.
Proof.
  revert p. induction k as [|k IH]; intros p Hp Hk Hl Hu.
  { by rewrite Z.add_0_r, u16_id by done. }
  cbn [Nat.add free_in_range]. unfold is_u16 in *. rewrite bool_decide_true by lia.
  rewrite bool_decide_false by (intros Hn; apply Hn, Hu; lia).
  destruct (decide (p + 1 = 2 ^ 16)) as [E|Hne].
  - assert (k = 0%nat) as -> by lia. by rewrite Nat.add_0_l.
  - rewrite (u16_id (p + 1)) by (unfold is_u16; lia). rewrite IH by (try apply Hu; lia || (intros; apply Hu; lia)).
    do 2 f_equal. lia.
Qed.

(** ** What is chosen *)

Lemma find_port_free clients remote reliable used b0 b p :
  find_port clients remote reliable used b0 = Ret (b, Some p) → p ∉ used.
Proof.
  revert b0. induction clients as [|c clients IH]; intros b0; [done|]. cbn. destruct (is_in_port_range _ _); [|apply IH].
  destruct (free_in_range _ _ _ _) as [[q|]| | |] eqn:E; try done; cbn; [|apply IH].
  intros [= _ <-]. by eapply free_in_range_free.
Qed.

(** The ports of an entry for a remote port, and whether the entry applies. *)
Definition applies (remote : Z) (reliable : bool) (c : client) : bool :=
  let r := remote_range reliable c in bool_decide (r.1 ≤ remote ≤ r.2).
Lemma applies_range remote reliable c : is_in_port_range remote (remote_range reliable c) = applies remote reliable c.
Proof.
  unfold is_in_port_range, applies. rewrite <-bool_decide_and. apply bool_decide_ext. lia.
Qed.
Definition range_candidates (remote : Z) (reliable : bool) (c : client) : list Z :=
  if applies remote reliable c
  then let r := client_range reliable c in seqZ r.1 (r.2 - r.1 + 1) else [].
Definition has_range (clients : list client) (remote : Z) (reliable : bool) : bool :=
  existsb (applies remote reliable) clients.
Definition below_end (reliable : bool) (c : client) : Prop :=
  let r := client_range reliable c in 0 ≤ r.1 ≤ r.2 ∧ r.2 < 2 ^ 16 - 1.

Lemma first_free_app used l1 l2 :
  first_free used (l1 ++ l2) = match first_free used l1 with Some p => Some p | None => first_free used l2 end.
Proof. unfold first_free. rewrite filter_app. by destruct (filter _ l1). Qed.

Lemma find_port_spec clients remote reliable used b0 : Forall (below_end reliable) clients →
  ∃ b, find_port clients remote reliable used b0 =
       Ret (b, first_free used (mjoin (range_candidates remote reliable <$> clients))) ∧
       b = b0 || has_range clients remote reliable.
Proof.
  intros Hall. revert b0. induction Hall as [|c clients [H1 H2] _ IH]; intros b0; cbn.
  { exists b0. by rewrite orb_false_r. }
  rewrite applies_range. unfold range_candidates at 1. destruct (applies _ _ _) eqn:Er; [|apply IH].
  rewrite free_in_range_spec by (try (unfold port_fuel; rewrite Z2Nat.id); lia).
  rewrite first_free_app. destruct (first_free used (seqZ _ _)) as [q|]; cbn.
  - exists true. by rewrite orb_true_r.
  - destruct (IH true) as (b&->&->). eexists. split; [done|]. by rewrite orb_true_r.
Qed.

Definition specific_ports (clients : list client) (service instance : Z) (reliable : bool) : gset Z :=
  match find_client service instance clients with Some c => ports_of reliable c | None => ∅ end.

(** What the choice means: the first free port of the service instance, else the first free
    port of the ranges that apply, which must not be zero; any port, zero, if nothing is
    configured. *)
Definition chosen_port (clients : list client) (service instance remote : Z) (reliable : bool) (used : gset Z) : option Z :=
  match first_free used (port_list (specific_ports clients service instance reliable)) with
  | Some p => Some p
  | None =>
      match first_free used (mjoin (range_candidates remote reliable <$> clients)) with
      | Some p => if bool_decide (p = ILLEGAL_PORT) then None else Some p
      | None => if has_range clients remote reliable
                   || bool_decide (specific_ports clients service instance reliable ≠ ∅) then None else Some 0
      end
  end.

Lemma candidates_has_range clients remote reliable used p :
  first_free used (mjoin (range_candidates remote reliable <$> clients)) = Some p → has_range clients remote reliable = true.
Proof.
  induction clients as [|c clients IH]; [done|]. rewrite fmap_cons, join_cons, first_free_app. cbn [has_range existsb].
  unfold range_candidates at 1. destruct (applies _ _ _); [done|]. apply IH.
Qed.

(** C34: the choice of a local port equals its reference: for every configuration whose
    ranges end below port 65535, [get_client_port] returns the first free port configured
    for the service instance; if there is none (also if ports are configured and all are in
    use, where the user guide says that the connection fails and ranges are ignored), the
    first free port of the ranges for the remote port, in the order of the configuration.
    It fails if ports or ranges are configured for the connection and none of their ports
    is free, and also if the first free port of the ranges is port 0. Without configuration
    it leaves the choice to the system, port zero. *)
Theorem get_client_port_reference clients service instance remote reliable used :
  Forall (below_end reliable) clients →
  get_client_port clients service instance remote reliable used =
  Ret (chosen_port clients service instance remote reliable (used_ports reliable used)).
Proof.
  intros Hall. unfold get_client_port, chosen_port. fold (specific_ports clients service instance reliable).
  change (head (filter (λ p, p ∉ ?u) ?l)) with (first_free u l).
  destruct (first_free _ (port_list _)) as [q|]; [done|].
  destruct (find_port_spec clients remote reliable (used_ports reliable used) false Hall) as (b&->&->). cbn.
  destruct (first_free _ (mjoin _)) as [q|] eqn:Ef; cbn.
  - rewrite (candidates_has_range _ _ _ _ _ Ef). cbn. case_bool_decide; [by rewrite bool_decide_false by tauto|by rewrite bool_decide_true].
  - rewrite andb_false_r. by destruct (_ || _).
Qed.

(** A port that is chosen is not in use, whatever the configuration. *)
Theorem client_port_free clients service instance remote reliable used p :
  get_client_port clients service instance remote reliable used = Ret (Some p) →
  p = 0 ∨ p ∉ used_ports reliable used.
Proof.
  unfold get_client_port. destruct (head (filter _ (port_list _))) as [q|] eqn:Eq.
  - intros [= <-]. right. apply head_Some_elem_of in Eq. by apply list_elem_of_filter in Eq as [? _].
  - destruct (find_port _ _ _ _ _) as [[b [q|]]| | |] eqn:Ef; try done; cbn.
    + apply find_port_free in Ef. destruct b, (bool_decide (q ≠ _)), (bool_decide (_ ≠ ∅)); cbn; intros [= <-]; auto.
    + destruct b, (bool_decide (_ ≠ ∅)); cbn; intros [= <-]; auto.
Qed.

(** The search ends if some port is free. *)
Theorem client_port_total clients service instance remote reliable used :
  Forall (λ c, is_u16 (client_range reliable c).1) clients →
  (∃ f, is_u16 f ∧ f ∉ used_ports reliable used) →
  ∃ r, get_client_port clients service instance remote reliable used = Ret r.
Proof.
  intros Hall (f&Hf&Hu). unfold get_client_port. destruct (head _); [by eexists|].
  assert (∃ x, find_port clients remote reliable (used_ports reliable used) false = Ret x) as [[b r] ->].
  { generalize false. induction Hall as [|c clients Hc _ IH]; intros b0; cbn; [by eexists|].
    destruct (is_in_port_range _ _); [|apply IH].
    destruct (free_in_range_total port_fuel (used_ports reliable used) (client_range reliable c).1
      (client_range reliable c).2 f) as [[q|] ->]; cbn; try by eauto.
    unfold port_fuel. pose proof (Z.mod_pos_bound (f - (client_range reliable c).1) (2 ^ 16)). lia. }
  cbn. destruct (_ && _); [by eexists|]. destruct (negb _); by eexists.
Qed.

(** The counter of a range that ends at port 65535 wraps: if the range is in use and a port was
    left to the system before, the search goes on with port 1. *)
Theorem full_range_leaves_range c service instance remote reliable used :
  find_client service instance [c] = None →
  is_in_port_range remote (remote_range reliable c) = true →
  1 < (client_range reliable c).1 → (client_range reliable c).1 ≤ (client_range reliable c).2 → (client_range reliable c).2 = 2 ^ 16 - 1 →
  (∀ q, (client_range reliable c).1 ≤ q < 2 ^ 16 → q ∈ used_ports reliable used) → 0 ∈ used_ports reliable used →
  1 ∉ used_ports reliable used →
  get_client_port [c] service instance remote reliable used = Ret (Some 1).
Proof.
  intros Hfind Hr H1 Hle H2 Hall H0 Hf. unfold get_client_port. rewrite Hfind. cbn -[port_fuel free_in_range].
  rewrite Hr. destruct (client_range reliable c) as [first last]; cbn [fst snd] in *. subst last.
  assert (∃ n : nat, Z.of_nat n = 2 ^ 16 - first) as [n Hn] by (exists (Z.to_nat (2 ^ 16 - first)); lia).
  replace port_fuel with (n + S (S (Z.to_nat (2 ^ 16 + 1) - n - 2)))%nat by (unfold port_fuel; lia).
  rewrite free_in_range_skip by (unfold is_u16; try lia; intros q Hq; apply Hall; lia). rewrite Hn.
  replace (u16 _) with 0 by (unfold u16; replace (first + _) with (2 ^ 16) by lia; done).
  cbn [free_in_range]. rewrite (bool_decide_true (0 ≤ _)) by lia. rewrite (bool_decide_false (0 ∉ _)) by tauto.
  change (u16 (0 + 1)) with 1. rewrite (bool_decide_true (1 ≤ _)) by lia. by rewrite (bool_decide_true (1 ∉ _)) by done.
Qed.

Lemma get_client_port_reference_witness :
  let c := CfgClient 1 2 {[true := {[40001; 40002]}]} {[true := (30000, 30010)]} {[true := (41000, 41001)]} in
  Forall (below_end true) [c] ∧
  get_client_port [c] 1 2 30005 true {[true := {[40001; 40002; 41000]}]} = Ret (Some 41001).
Proof.
  intros c. assert (Forall (below_end true) [c]) as Hc by (apply Forall_singleton; unfold below_end; change (client_range true c) with (41000, 41001); cbn; lia).
  split; [done|]. rewrite (get_client_port_reference [c] 1 2 30005 true _ Hc). vm_compute. reflexivity.
Defined.
Lemma full_range_leaves_range_witness :
  let c := CfgClient 0xFFFF 0xFFFF ∅ {[true := (30000, 30010)]} {[true := (65535, 65535)]} in
  get_client_port [c] 1 2 30005 true {[true := {[0; 65535]}]} = Ret (Some 1).
Proof.
  intros c. apply (full_range_leaves_range c 1 2 30005 true); [reflexivity|reflexivity| | | | | |];
    change (client_range true c) with (65535, 65535); cbn [fst snd]; try lia.
  - intros q Hq. assert (q = 65535) as -> by lia. apply (bool_decide_unpack _). vm_compute. exact I.
  - apply (bool_decide_unpack _). vm_compute. exact I.
  - apply (bool_decide_unpack _). vm_compute. exact I.
Defined.

(** ** From the text *)

Lemma convert_pretty (n : N) v : is_u16 (Z.of_N n) → convert_u16 (pretty n) v = Ret (Z.of_N n).
Proof.
  intros Hn. unfold is_u16 in Hn. pose proof (extract_pretty 16 n ltac:(lia) ltac:(lia)) as He.
  destruct (pretty_shape n) as (c&s&Es&Hc&Hz). rewrite Es in *. unfold convert_u16. cbn [skip_space]. rewrite Hc.
  assert (has_hex_prefix (String c s) = false) as Hh; [|by rewrite Hh].
  clear -Hz. unfold has_hex_prefix. destruct c as [[] [] [] [] [] [] [] []]; try done. by rewrite Hz.
Qed.

(** A range that is written in decimal is read as written, unless it ends before it begins. *)
Lemma load_range_pretty `{PTree} t t1 t2 (a b : N) : is_u16 (Z.of_N a) → is_u16 (Z.of_N b) →
  pt_children t = [("first", t1); ("last", t2)] → pt_data t1 = pretty a → pt_data t2 = pretty b →
  load_client_port_range t = Ret (if bool_decide (Z.of_N b < Z.of_N a) then (0, 0) else (Z.of_N a, Z.of_N b)).
Proof.
  intros Ha Hb Ht H1 H2. unfold load_client_port_range. rewrite Ht. cbn. rewrite H1, H2, convert_pretty by done.
  change (is_text "first" "first") with true. cbn iota. cbn [outcome_bind mbind outcome_mbind].
  change (is_text "last" "first") with false. change (is_text "last" "last") with true. cbn iota.
  by rewrite convert_pretty by done.
Qed.

(** Two entries, and the ports that are taken one after the other. *)
Definition clients_tree : tree :=
  node [("clients", array [
    node [("reliable_remote_ports", range_tree "30500" "30599"); ("reliable_client_ports", range_tree "30491" "30492")];
    node [("service", leaf "0x8888"); ("instance", leaf "0x1"); ("unreliable", array [leaf "40000"; leaf "40002"])]])].
Fixpoint take_ports (clients : list client) (l : list (Z * Z * Z * bool)) (used : port_sets) : list (outcome (option Z)) :=
  match l with
  | [] => []
  | (service, instance, remote, reliable) :: l =>
      let r := get_client_port clients service instance remote reliable used in
      r :: take_ports clients l (match r with Ret (Some p) => use_port p reliable used | _ => used end)
  end.
Example ports_of_clients_tree :
  (clients ← load_clients (H := tree_ptree) clients_tree [];
   Ret (take_ports clients [(1, 1, 30500, true); (1, 2, 30501, true); (1, 3, 30502, true); (1, 4, 20000, true);
                            (0x8888, 1, 20000, false); (0x8888, 1, 20001, false); (0x8888, 1, 20002, false)] ∅))
  = Ret [Ret (Some 30491); Ret (Some 30492); Ret None; Ret (Some 0); Ret (Some 40000); Ret (Some 40002); Ret None].
Proof. vm_compute. reflexivity. Qed.
