(* ===== verification/RemoteEndpoints.v ===== *)
(** Endpoints and infos of the services of other devices.

    The file models the remote services, client endpoints, server endpoints and multicast
    endpoints of [endpoints/src/endpoint_manager_impl.cpp], the service infos of
    [routing/src/routing_manager_base.cpp] and [init_service_info] of
    [routing/src/routing_manager_impl.cpp], the requests of applications (same file), and the
    part of the routing info of [routing/src/routing_manager_stub.cpp] that these change.
    [RemoteServices] has the handlers of the routing manager on top of it.

    Service infos, endpoint definitions and endpoints are objects with an identity;
    [std::make_shared] yields one that does not exist yet.  A nested map whose empty parts are
    always erased is one map with the keys together.  Addresses are integers in the order of
    the code's comparison.  The eventgroups and events are the ones of [Eventgroups].  What is
    called of applications, sockets and service discovery is recorded; whether a socket can be
    created is a parameter. *)
From S2P Require Import Prelude Message ServiceInfo SdOffers Event RemoteSubscription Eventgroups ClientPorts.

Definition DEFAULT_MINOR : Z := 0.

(** ** The state *)

Inductive cei_state_e : Type := CLOSED | CONNECTING | CONNECTED | ESTABLISHED.
#[export] Instance cei_state_e_eq_dec : EqDecision cei_state_e.
Proof. solve_decision. Defined.
(** The classes of endpoints. *)
Inductive endpoint_kind : Type := TcpClient | UdpClient | TcpServer | UdpServer | VirtualServer.
#[export] Instance endpoint_kind_eq_dec : EqDecision endpoint_kind.
Proof. solve_decision. Defined.
(** [ep_address_] and [ep_port_] are the remote ones of a client and the local ones of a server. *)
Record endpoint : Type := Endpoint {
  ep_kind : endpoint_kind;
  ep_address_ : Z;
  ep_port_ : Z;
  ep_state_ : cei_state_e;
  ep_use_count_ : Z
}.
Definition ep_set_state (v : cei_state_e) (e : endpoint) : endpoint :=
  Endpoint (ep_kind e) (ep_address_ e) (ep_port_ e) v (ep_use_count_ e).
Definition ep_set_use_count (v : Z) (e : endpoint) : endpoint :=
  Endpoint (ep_kind e) (ep_address_ e) (ep_port_ e) (ep_state_ e) v.
Definition is_client (e : endpoint) : bool := match ep_kind e with TcpClient | UdpClient => true | _ => false end.
Definition is_established (e : endpoint) : bool :=
  match ep_kind e with
  | TcpClient | UdpClient => bool_decide (ep_state_ e = ESTABLISHED)
  | TcpServer | UdpServer => true
  | VirtualServer => false
  end.
Definition is_established_or_connected (e : endpoint) : bool :=
  match ep_kind e with
  | TcpClient | UdpClient => bool_decide (ep_state_ e = ESTABLISHED) || bool_decide (ep_state_ e = CONNECTED)
  | TcpServer | UdpServer => true
  | VirtualServer => false
  end.
(** A client endpoint; servers ignore the calls.  [is_open] is what the socket answers. *)
Definition set_established (is_open : bool) (e : endpoint) : endpoint :=
  if is_client e && bool_decide (ep_state_ e ≠ CONNECTING)
  then ep_set_state (if is_open then ESTABLISHED else CLOSED) e else e.
Definition set_connected (is_open : bool) (e : endpoint) : endpoint :=
  if is_client e then ep_set_state (if is_open then CONNECTED else CLOSED) e else e.

(** What is called of other parts. *)
Inductive rm_call : Type :=
| OnAvailability (service instance : Z) (is_available : bool) (major minor : Z)
| CreateLocalReceiver
| DistributeCredentials (client service instance : Z)
| InformRequesters (client service instance major minor : Z) (is_added : bool)
| EnableMagicCookies (e : Z)
| EndpointStart (e : Z)
| EndpointStop (e : Z)
| EndpointJoin (e address : Z)
| EndpointLeave (e address : Z)
| OnEndpointConnected (service instance e : Z)
| EndpointConnectedSoon (service instance e : Z)
| UnsubscribeAll (service instance : Z)
| RemovePendingSubscription (service instance eventgroup event : Z).

(** The endpoint, or its definition, of a service instance or of an address and a port, for
    reliable and unreliable communication. *)
Abbreviation endpoint_map := (gmap (Z * Z * bool) Z).
(** By client, service and instance: the versions. *)
Abbreviation requests_t := (gmap Z (gmap Z (gmap Z (gset (Z * Z))))).
Record remote_services : Type := RemoteServices {
  rv_routing : routing;
  rv_infos : gmap Z serviceinfo;
  services_ : services_t;
  services_remote_ : services_t;
  requested_services_ : requests_t;
  remote_service_info_ : endpoint_map;
  rv_definitions : gmap (Z * Z * Z * Z * bool) Z;
  rv_endpoints : gmap Z endpoint;
  remote_services_ : endpoint_map;
  client_endpoints_by_ip_ : endpoint_map;
  server_endpoints_ : gmap (Z * bool) Z;
  multicast_info_ : gmap (Z * Z) Z;
  service_instances_ : gmap (Z * Z) Z;
  service_instances_multicast_ : gmap Z (gmap Z Z);
  used_client_ports_ : port_sets;
  routing_info_ : gmap (Z * Z * Z) (Z * Z);
  rv_calls : list rm_call
}.
Definition rv_set_routing (v : routing) (s : remote_services) : remote_services :=
  RemoteServices
    v (rv_infos s) (services_ s) (services_remote_ s) (requested_services_ s) (remote_service_info_ s)
    (rv_definitions s) (rv_endpoints s) (remote_services_ s) (client_endpoints_by_ip_ s)
    (server_endpoints_ s) (multicast_info_ s) (service_instances_ s) (service_instances_multicast_ s)
    (used_client_ports_ s) (routing_info_ s) (rv_calls s).
Definition rv_set_infos (v : gmap Z serviceinfo) (s : remote_services) : remote_services :=
  RemoteServices
    (rv_routing s) v (services_ s) (services_remote_ s) (requested_services_ s) (remote_service_info_ s)
    (rv_definitions s) (rv_endpoints s) (remote_services_ s) (client_endpoints_by_ip_ s)
    (server_endpoints_ s) (multicast_info_ s) (service_instances_ s) (service_instances_multicast_ s)
    (used_client_ports_ s) (routing_info_ s) (rv_calls s).
Definition rv_set_services (v : services_t) (s : remote_services) : remote_services :=
  RemoteServices
    (rv_routing s) (rv_infos s) v (services_remote_ s) (requested_services_ s) (remote_service_info_ s)
    (rv_definitions s) (rv_endpoints s) (remote_services_ s) (client_endpoints_by_ip_ s)
    (server_endpoints_ s) (multicast_info_ s) (service_instances_ s) (service_instances_multicast_ s)
    (used_client_ports_ s) (routing_info_ s) (rv_calls s).
Definition rv_set_services_remote (v : services_t) (s : remote_services) : remote_services :=
  RemoteServices
    (rv_routing s) (rv_infos s) (services_ s) v (requested_services_ s) (remote_service_info_ s)
    (rv_definitions s) (rv_endpoints s) (remote_services_ s) (client_endpoints_by_ip_ s)
    (server_endpoints_ s) (multicast_info_ s) (service_instances_ s) (service_instances_multicast_ s)
    (used_client_ports_ s) (routing_info_ s) (rv_calls s).
Definition rv_set_requested (v : requests_t) (s : remote_services) : remote_services :=
  RemoteServices
    (rv_routing s) (rv_infos s) (services_ s) (services_remote_ s) v (remote_service_info_ s)
    (rv_definitions s) (rv_endpoints s) (remote_services_ s) (client_endpoints_by_ip_ s)
    (server_endpoints_ s) (multicast_info_ s) (service_instances_ s) (service_instances_multicast_ s)
    (used_client_ports_ s) (routing_info_ s) (rv_calls s).
Definition rv_set_service_info (v : endpoint_map) (s : remote_services) : remote_services :=
  RemoteServices
    (rv_routing s) (rv_infos s) (services_ s) (services_remote_ s) (requested_services_ s) v
    (rv_definitions s) (rv_endpoints s) (remote_services_ s) (client_endpoints_by_ip_ s)
    (server_endpoints_ s) (multicast_info_ s) (service_instances_ s) (service_instances_multicast_ s)
    (used_client_ports_ s) (routing_info_ s) (rv_calls s).
Definition rv_set_definitions (v : gmap (Z * Z * Z * Z * bool) Z) (s : remote_services) : remote_services :=
  RemoteServices
    (rv_routing s) (rv_infos s) (services_ s) (services_remote_ s) (requested_services_ s)
    (remote_service_info_ s) v (rv_endpoints s) (remote_services_ s) (client_endpoints_by_ip_ s)
    (server_endpoints_ s) (multicast_info_ s) (service_instances_ s) (service_instances_multicast_ s)
    (used_client_ports_ s) (routing_info_ s) (rv_calls s).
Definition rv_set_endpoints (v : gmap Z endpoint) (s : remote_services) : remote_services :=
  RemoteServices
    (rv_routing s) (rv_infos s) (services_ s) (services_remote_ s) (requested_services_ s)
    (remote_service_info_ s) (rv_definitions s) v (remote_services_ s) (client_endpoints_by_ip_ s)
    (server_endpoints_ s) (multicast_info_ s) (service_instances_ s) (service_instances_multicast_ s)
    (used_client_ports_ s) (routing_info_ s) (rv_calls s).
Definition rv_set_remote_services (v : endpoint_map) (s : remote_services) : remote_services :=
  RemoteServices
    (rv_routing s) (rv_infos s) (services_ s) (services_remote_ s) (requested_services_ s)
    (remote_service_info_ s) (rv_definitions s) (rv_endpoints s) v (client_endpoints_by_ip_ s)
    (server_endpoints_ s) (multicast_info_ s) (service_instances_ s) (service_instances_multicast_ s)
    (used_client_ports_ s) (routing_info_ s) (rv_calls s).
Definition rv_set_by_ip (v : endpoint_map) (s : remote_services) : remote_services :=
  RemoteServices
    (rv_routing s) (rv_infos s) (services_ s) (services_remote_ s) (requested_services_ s)
    (remote_service_info_ s) (rv_definitions s) (rv_endpoints s) (remote_services_ s) v
    (server_endpoints_ s) (multicast_info_ s) (service_instances_ s) (service_instances_multicast_ s)
    (used_client_ports_ s) (routing_info_ s) (rv_calls s).
Definition rv_set_servers (v : gmap (Z * bool) Z) (s : remote_services) : remote_services :=
  RemoteServices
    (rv_routing s) (rv_infos s) (services_ s) (services_remote_ s) (requested_services_ s)
    (remote_service_info_ s) (rv_definitions s) (rv_endpoints s) (remote_services_ s)
    (client_endpoints_by_ip_ s) v (multicast_info_ s) (service_instances_ s)
    (service_instances_multicast_ s) (used_client_ports_ s) (routing_info_ s) (rv_calls s).
Definition rv_set_multicast (v : gmap (Z * Z) Z) (s : remote_services) : remote_services :=
  RemoteServices
    (rv_routing s) (rv_infos s) (services_ s) (services_remote_ s) (requested_services_ s)
    (remote_service_info_ s) (rv_definitions s) (rv_endpoints s) (remote_services_ s)
    (client_endpoints_by_ip_ s) (server_endpoints_ s) v (service_instances_ s)
    (service_instances_multicast_ s) (used_client_ports_ s) (routing_info_ s) (rv_calls s).
Definition rv_set_instances (v : gmap (Z * Z) Z) (s : remote_services) : remote_services :=
  RemoteServices
    (rv_routing s) (rv_infos s) (services_ s) (services_remote_ s) (requested_services_ s)
    (remote_service_info_ s) (rv_definitions s) (rv_endpoints s) (remote_services_ s)
    (client_endpoints_by_ip_ s) (server_endpoints_ s) (multicast_info_ s) v (service_instances_multicast_ s)
    (used_client_ports_ s) (routing_info_ s) (rv_calls s).
Definition rv_set_instances_multicast (v : gmap Z (gmap Z Z)) (s : remote_services) : remote_services :=
  RemoteServices
    (rv_routing s) (rv_infos s) (services_ s) (services_remote_ s) (requested_services_ s)
    (remote_service_info_ s) (rv_definitions s) (rv_endpoints s) (remote_services_ s)
    (client_endpoints_by_ip_ s) (server_endpoints_ s) (multicast_info_ s) (service_instances_ s) v
    (used_client_ports_ s) (routing_info_ s) (rv_calls s).
Definition rv_set_used (v : port_sets) (s : remote_services) : remote_services :=
  RemoteServices
    (rv_routing s) (rv_infos s) (services_ s) (services_remote_ s) (requested_services_ s)
    (remote_service_info_ s) (rv_definitions s) (rv_endpoints s) (remote_services_ s)
    (client_endpoints_by_ip_ s) (server_endpoints_ s) (multicast_info_ s) (service_instances_ s)
    (service_instances_multicast_ s) v (routing_info_ s) (rv_calls s).
Definition rv_set_routing_info (v : gmap (Z * Z * Z) (Z * Z)) (s : remote_services) : remote_services :=
  RemoteServices
    (rv_routing s) (rv_infos s) (services_ s) (services_remote_ s) (requested_services_ s)
    (remote_service_info_ s) (rv_definitions s) (rv_endpoints s) (remote_services_ s)
    (client_endpoints_by_ip_ s) (server_endpoints_ s) (multicast_info_ s) (service_instances_ s)
    (service_instances_multicast_ s) (used_client_ports_ s) v (rv_calls s).
Definition rv_set_calls (v : list rm_call) (s : remote_services) : remote_services :=
  RemoteServices
    (rv_routing s) (rv_infos s) (services_ s) (services_remote_ s) (requested_services_ s)
    (remote_service_info_ s) (rv_definitions s) (rv_endpoints s) (remote_services_ s)
    (client_endpoints_by_ip_ s) (server_endpoints_ s) (multicast_info_ s) (service_instances_ s)
    (service_instances_multicast_ s) (used_client_ports_ s) (routing_info_ s) v.

(** The configuration and the outside; an address is the one of this device, or [None] for
    the text ["local"]. *)
Record rm_env : Type := RmEnv {
  rm_host : environment;
  rm_unicast : Z;
  is_someip : Z → Z → bool;
  rm_clients : list client;
  has_enabled_magic_cookies : option Z → Z → bool;
  can_create_client : Z → Z → Z → bool → bool;
  can_create_server : Z → bool → bool;
  is_unspecified : Z → bool;
  no_ip_address : Z;
  security_is_enabled : bool
}.

Section endpoints.
  Context (env : rm_env).

Definition rcall (c : rm_call) : ST remote_services () := st_modify (λ s, rv_set_calls (rv_calls s ++ [c]) s).

(** ** Service infos *)

Definition at_instance (_service _instance : Z) (m : services_t) : option Z :=
  match m !! _service with Some found_service => found_service !! _instance | None => None end.
Definition find_service_info (_service _instance : Z) (s : remote_services) : option Z :=
  at_instance _service _instance (services_ s).
Definition the_info (p : Z) : ST remote_services serviceinfo :=
  s ← st_get; st_lift (match rv_infos s !! p with Some i => Ret i | None => Undef end).
Definition upd_info (p : Z) (f : serviceinfo → serviceinfo) : ST remote_services () :=
  st_modify (λ s, rv_set_infos (alter f p (rv_infos s)) s).
Definition put_service (_service _instance p : Z) (m : services_t) : services_t :=
  <[_service := <[_instance := p]> (default ∅ (m !! _service))]> m.

Definition create_service_info (_service _instance _major _minor _ttl : Z) (_is_local_service : bool) :
    ST remote_services Z :=
  s ← st_get;
  let p := fresh (dom (rv_infos s)) in
  st_modify (λ s, rv_set_infos
    (<[p := serviceinfo_new _service _instance _major _minor _ttl _is_local_service]> (rv_infos s)) s);;
  st_modify (λ s, rv_set_services (put_service _service _instance p (services_ s)) s);;
  (if _is_local_service then mret ()
   else st_modify (λ s, rv_set_services_remote (put_service _service _instance p (services_remote_ s)) s));;
  mret p.

(** An operation on the endpoint at [e]. *)
Definition the_endpoint (e : Z) : ST remote_services endpoint :=
  s ← st_get; st_lift (match rv_endpoints s !! e with Some x => Ret x | None => Undef end).
Definition upd_endpoint (e : Z) (f : endpoint → endpoint) : ST remote_services () :=
  st_modify (λ s, rv_set_endpoints (alter f e (rv_endpoints s)) s).
Definition new_endpoint (x : endpoint) : ST remote_services Z :=
  s ← st_get;
  let e := fresh (dom (rv_endpoints s)) in
  st_modify (λ s, rv_set_endpoints (<[e := x]> (rv_endpoints s)) s);;
  mret e.

(** ** Server endpoints *)

Definition server_kind (_reliable _start : bool) : endpoint_kind :=
  if _start then if _reliable then TcpServer else UdpServer else VirtualServer.
Definition create_server_endpoint (_port : Z) (_reliable _start : bool) : ST remote_services (option Z) :=
  if negb _start || can_create_server env _port _reliable then
    its_endpoint ← new_endpoint (Endpoint (server_kind _reliable _start) (rm_unicast env) _port CLOSED 0);
    (if _start && _reliable
        && (has_enabled_magic_cookies env (Some (rm_unicast env)) _port || has_enabled_magic_cookies env None _port)
     then rcall (EnableMagicCookies its_endpoint) else mret ());;
    st_modify (λ s, rv_set_servers (<[(_port, _reliable) := its_endpoint]> (server_endpoints_ s)) s);;
    rcall (EndpointStart its_endpoint);;
    mret (Some its_endpoint)
  else mret None.

(** The endpoint, and [_is_found]. *)
Definition find_or_create_server_endpoint (_port : Z) (_reliable _start : bool) (_service _instance : Z)
    (_is_multicast : bool) : ST remote_services (option Z * bool) :=
  s ← st_get;
  '(its_endpoint, _is_found) ←
    match server_endpoints_ s !! (_port, _reliable) with
    | Some e => mret (Some e, true)
    | None => e ← create_server_endpoint _port _reliable _start; mret (e, false)
    end;
  match its_endpoint with
  | None => mret ()
  | Some e =>
      (if _is_multicast then mret ()
       else st_modify (λ s, rv_set_instances (<[(_service, e) := _instance]> (service_instances_ s)) s));;
      upd_endpoint e (λ x, ep_set_use_count (u32 (ep_use_count_ x + 1)) x)
  end;;
  mret (its_endpoint, _is_found).

Definition init_service_info (_service _instance : Z) (_is_local_service : bool) : ST remote_services () :=
  s ← st_get;
  match find_service_info _service _instance s with
  | None => mret ()
  | Some its_info =>
      if _is_local_service then
        let take (port : Z) (reliable : bool) : ST remote_services () :=
          if bool_decide (ILLEGAL_PORT ≠ port) then
            '(e, _) ← find_or_create_server_endpoint port reliable (is_someip env _service _instance) _service _instance false;
            match e with
            | Some _ => upd_info its_info (si_set_endpoint e reliable)
            | None => mret ()
            end
          else mret () in
        take (get_reliable_port (rm_host env) _service _instance) true;;
        take (get_unreliable_port (rm_host env) _service _instance) false
      else mret ()
  end.

Definition erase_service (deleted_service : bool) (_service _instance : Z) (m : services_t) : services_t :=
  if deleted_service then delete _service m else alter (delete _instance) _service m.
Definition clear_service_info (_service _instance : Z) (_reliable : bool) : ST remote_services () :=
  s ← st_get;
  match find_service_info _service _instance s with
  | None => mret ()
  | Some its_info =>
      i ← the_info its_info;
      match si_get_endpoint (negb _reliable) i with
      | Some _ => upd_info its_info (si_set_endpoint None _reliable)
      | None =>
          let deleted_service := bool_decide (1 >= Z.of_nat (size (default ∅ (services_ s !! _service)))) in
          st_modify (λ s, rv_set_services (erase_service deleted_service _service _instance (services_ s)) s);;
          if si_is_local_ i then mret ()
          else st_modify (λ s, rv_set_services_remote (erase_service deleted_service _service _instance (services_remote_ s)) s)
      end
  end.

(** ** Routing info of the stub *)

Definition on_offer_service (_client _service _instance _major _minor : Z) : ST remote_services () :=
  (if bool_decide (_client = get_client (rm_host env)) then rcall CreateLocalReceiver else mret ());;
  st_modify (λ s, rv_set_routing_info (<[(_client, _service, _instance) := (_major, _minor)]> (routing_info_ s)) s);;
  (if security_is_enabled env then rcall (DistributeCredentials _client _service _instance) else mret ());;
  rcall (InformRequesters _client _service _instance _major _minor true).

Definition on_stop_offer_service (_client _service _instance _major _minor : Z) : ST remote_services () :=
  s ← st_get;
  match routing_info_ s !! (_client, _service, _instance) with
  | None => mret ()
  | Some found_version =>
      if bool_decide (_major = found_version.1) && bool_decide (_minor = found_version.2)
         || bool_decide (_major = DEFAULT_MAJOR) && bool_decide (_minor = DEFAULT_MINOR) then
        st_modify (λ s, rv_set_routing_info (delete (_client, _service, _instance) (routing_info_ s)) s);;
        rcall (InformRequesters _client _service _instance _major _minor false)
      else mret ()
  end.

Definition contained_in_routing_info (_client _service _instance _major _minor : Z) (s : remote_services) : bool :=
  match routing_info_ s !! (_client, _service, _instance) with
  | Some v => bool_decide (v.1 = _major) && bool_decide (v.2 = _minor)
  | None => false
  end.

(** ** Known remote services *)

Definition definition_of (d : Z) : ST remote_services endpoint_definition :=
  s ← st_get; st_lift (match r_endpoints (rv_routing s) !! d with Some x => Ret x | None => Undef end).
Definition get_definition (address port : Z) (reliable : bool) (service instance : Z) : ST remote_services Z :=
  s ← st_get;
  let '(p, d) := endpoint_definition_get address port reliable service instance
                   (Definitions (r_endpoints (rv_routing s)) (rv_definitions s)) in
  st_modify (λ s, rv_set_definitions (definitions_ d) (rv_set_routing (r_with_endpoints (objects d) (rv_routing s)) s));;
  mret p.

Definition known_at (_service _instance : Z) (reliable : bool) (_address _port : Z) : ST remote_services bool :=
  s ← st_get;
  if bool_decide (_port ≠ ILLEGAL_PORT) then
    match remote_service_info_ s !! (_service, _instance, reliable) with
    | Some d =>
        its_definition ← definition_of d;
        mret (bool_decide (ed_address_ its_definition = _address) && bool_decide (ed_port_ its_definition = _port))
    | None => mret false
    end
  else mret false.
(** Whether the reliable and the unreliable endpoint are unchanged. *)
Definition is_remote_service_known (_service _instance _reliable_address _reliable_port
    _unreliable_address _unreliable_port : Z) : ST remote_services (bool * bool) :=
  _reliable_known ← known_at _service _instance true _reliable_address _reliable_port;
  _unreliable_known ← known_at _service _instance false _unreliable_address _unreliable_port;
  mret (_reliable_known, _unreliable_known).

Definition clear_remote_service_info (_service _instance : Z) (_reliable : bool) : ST remote_services () :=
  st_modify (λ s, rv_set_service_info (delete (_service, _instance, _reliable) (remote_service_info_ s)) s).

(** ** Client endpoints *)

(** The endpoint becomes the one of the service instance. *)
Definition register_endpoint (_service _instance e : Z) (_reliable : bool) : ST remote_services () :=
  st_modify (λ s, rv_set_remote_services (<[(_service, _instance, _reliable) := e]> (remote_services_ s)) s);;
  st_modify (λ s, rv_set_instances (<[(_service, e) := _instance]> (service_instances_ s)) s);;
  s ← st_get;
  match find_service_info _service _instance s with
  | Some its_info => upd_info its_info (si_set_endpoint (Some e) _reliable)
  | None => mret ()
  end.

Definition find_remote_client (_service _instance : Z) (_reliable : bool) : ST remote_services (option Z) :=
  s ← st_get;
  match remote_services_ s !! (_service, _instance, _reliable) with
  | Some e => mret (Some e)
  | None =>
      match remote_service_info_ s !! (_service, _instance, _reliable) with
      | None => mret None
      | Some d =>
          its_ep_def ← definition_of d;
          match client_endpoints_by_ip_ s !! (ed_address_ its_ep_def, ed_remote_port_ its_ep_def, _reliable) with
          | None => mret None
          | Some e => register_endpoint _service _instance e _reliable;; mret (Some e)
          end
      end
  end.

Definition client_kind (_reliable : bool) : endpoint_kind := if _reliable then TcpClient else UdpClient.
Definition create_client_endpoint (_address _local_port _remote_port : Z) (_reliable : bool) :
    ST remote_services (option Z) :=
  if can_create_client env _address _local_port _remote_port _reliable then
    e ← new_endpoint (Endpoint (client_kind _reliable) _address _remote_port CLOSED 0);
    (if _reliable && has_enabled_magic_cookies env (Some _address) _remote_port
     then rcall (EnableMagicCookies e) else mret ());;
    mret (Some e)
  else mret None.

Definition create_remote_client (_service _instance : Z) (_reliable : bool) : ST remote_services (option Z) :=
  s ← st_get;
  match remote_service_info_ s !! (_service, _instance, _reliable) with
  | None => mret None
  | Some d =>
      its_endpoint_def ← definition_of d;
      if bool_decide (ed_port_ its_endpoint_def ≠ ILLEGAL_PORT) then
        its_local_port ← st_lift (get_client_port (rm_clients env) _service _instance (ed_port_ its_endpoint_def)
                                    _reliable (used_client_ports_ s));
        match its_local_port with
        | None => mret None
        | Some its_local_port =>
            its_endpoint ← create_client_endpoint (ed_address_ its_endpoint_def) its_local_port
                             (ed_port_ its_endpoint_def) _reliable;
            match its_endpoint with
            | None => mret None
            | Some e =>
                st_modify (λ s, rv_set_used (use_port its_local_port _reliable (used_client_ports_ s)) s);;
                st_modify (λ s, rv_set_by_ip
                  (<[(ed_address_ its_endpoint_def, ed_port_ its_endpoint_def, _reliable) := e]> (client_endpoints_by_ip_ s)) s);;
                register_endpoint _service _instance e _reliable;;
                mret (Some e)
            end
        end
      else mret None
  end.

(** [find_or_create_remote_client]: the endpoint, if it is new. *)
Definition find_or_create_client (_service _instance : Z) (_reliable : bool) : ST remote_services (option Z) :=
  found ← find_remote_client _service _instance _reliable;
  match found with
  | Some _ => mret None
  | None => create_remote_client _service _instance _reliable
  end.
Definition start_endpoint (_service _instance : Z) (e : option Z) : ST remote_services () :=
  match e with
  | Some e => if is_someip env _service _instance then rcall (EndpointStart e) else mret ()
  | None => mret ()
  end.
Definition find_or_create_remote_client (_service _instance : Z) (_reliable : bool) : ST remote_services () :=
  e ← find_or_create_client _service _instance _reliable;
  start_endpoint _service _instance e.
Definition find_or_create_remote_clients (_service _instance : Z) : ST remote_services () :=
  its_reliable_endpoint ← find_or_create_client _service _instance true;
  its_unreliable_endpoint ← find_or_create_client _service _instance false;
  start_endpoint _service _instance its_reliable_endpoint;;
  start_endpoint _service _instance its_unreliable_endpoint.

(** Whether a service instance is reached through the endpoint. *)
Definition reached_through (e : Z) (_reliable : bool) (m : endpoint_map) : bool :=
  existsb (λ x : Z * Z * bool * Z, bool_decide (x.1.2 = _reliable ∧ x.2 = e)) (map_to_list m).
(** Address and port, if the endpoint has the class; the default address if it has no address. *)
Definition remote_of (x : endpoint) (_reliable : bool) : Z * Z :=
  if bool_decide (ep_kind x = client_kind _reliable)
  then (if is_unspecified env (ep_address_ x) then no_ip_address env else ep_address_ x, ep_port_ x)
  else (no_ip_address env, 0).
Definition clear_client_endpoints (_service _instance : Z) (_reliable : bool) : ST remote_services () :=
  s ← st_get;
  match remote_services_ s !! (_service, _instance, _reliable) with
  | None => mret ()
  | Some e =>
      st_modify (λ s, rv_set_instances (delete (_service, e) (service_instances_ s)) s);;
      st_modify (λ s, rv_set_remote_services (delete (_service, _instance, _reliable) (remote_services_ s)) s);;
      s ← st_get;
      if reached_through e _reliable (remote_services_ s) then mret ()
      else
        x ← the_endpoint e;
        let k := (remote_of x _reliable, _reliable) in
        (if bool_decide (client_endpoints_by_ip_ s !! k = Some e)
         then st_modify (λ s, rv_set_by_ip (delete k (client_endpoints_by_ip_ s)) s) else mret ());;
        rcall (EndpointStop e)
  end.

(** ** Multicast *)

Definition find_or_create_multicast_endpoint (_service _instance _sender _address _port : Z) : ST remote_services () :=
  s ← st_get;
  multicast_known ←
    match multicast_info_ s !! (_service, _instance) with
    | Some d =>
        endpoint_def ← definition_of d;
        mret (bool_decide (ed_address_ endpoint_def = _address) && bool_decide (ed_port_ endpoint_def = _port))
    | None => mret false
    end;
  '(its_endpoint, _is_found) ← find_or_create_server_endpoint _port false (is_someip env _service _instance) _service _instance true;
  (if (_is_found : bool) then mret ()
   else d ← get_definition _address _port false _service _instance;
        st_modify (λ s, rv_set_multicast (<[(_service, _instance) := d]> (multicast_info_ s)) s));;
  match its_endpoint with
  | None => mret ()
  | Some e =>
      (if (multicast_known : bool) then mret ()
       else st_modify (λ s, rv_set_instances_multicast
              (<[_service := <[_sender := _instance]> (default ∅ (service_instances_multicast_ s !! _service))]>
                 (service_instances_multicast_ s)) s));;
      x ← the_endpoint e;
      if bool_decide (ep_kind x = UdpServer) then rcall (EndpointJoin e _address) else st_lift Undef
  end.

(** The first sender of the instance is removed. *)
Definition remove_instance_multicast (_service _instance : Z) : ST remote_services () :=
  s ← st_get;
  match service_instances_multicast_ s !! _service with
  | None => mret ()
  | Some m =>
      match head (filter (λ x : Z * Z, x.2 = _instance) (ordered m)) with
      | None => mret ()
      | Some its_sender =>
          let m := delete its_sender.1 m in
          st_modify (λ s, rv_set_instances_multicast
            (if bool_decide (m = ∅) then delete _service (service_instances_multicast_ s)
             else <[_service := m]> (service_instances_multicast_ s)) s)
      end
  end.

Definition clear_multicast_endpoints (_service _instance : Z) : ST remote_services () :=
  s ← st_get;
  match multicast_info_ s !! (_service, _instance) with
  | None => mret ()
  | Some d =>
      info ← definition_of d;
      st_modify (λ s, rv_set_servers (delete (ed_port_ info, false) (server_endpoints_ s)) s);;
      st_modify (λ s, rv_set_multicast (delete (_service, _instance) (multicast_info_ s)) s);;
      remove_instance_multicast _service _instance;;
      match server_endpoints_ s !! (ed_port_ info, false) with
      | None => mret ()
      | Some multicast_endpoint =>
          x ← the_endpoint multicast_endpoint;
          if bool_decide (ep_kind x = UdpServer) then
            rcall (EndpointLeave multicast_endpoint (ed_address_ info));;
            rcall (EndpointStop multicast_endpoint)
          else st_lift Undef
      end
  end.

(** ** Reports to the routing manager *)

(** The timer of three milliseconds calls [call_sd_endpoint_connected]. *)
Definition service_endpoint_connected (_service _instance _major _minor _endpoint : Z) (_unreliable_only : bool) :
    ST remote_services () :=
  (if _unreliable_only then mret ()
   else rcall (OnAvailability _service _instance true _major _minor);;
        on_offer_service VSOMEIP_ROUTING_CLIENT _service _instance _major _minor);;
  rcall (EndpointConnectedSoon _service _instance _endpoint).
Definition call_sd_endpoint_connected (_service _instance _endpoint : Z) (is_open : bool) : ST remote_services () :=
  upd_endpoint _endpoint (set_established is_open);;
  if has_discovery (rm_host env) then rcall (OnEndpointConnected _service _instance _endpoint) else mret ().
Definition service_endpoint_disconnected (_service _instance _major _minor : Z) : ST remote_services () :=
  rcall (OnAvailability _service _instance false _major _minor);;
  on_stop_offer_service VSOMEIP_ROUTING_CLIENT _service _instance _major _minor.

(** The report of an endpoint that is connected before the service is offered. *)
Definition report_connected (_service _instance : Z) (es : list Z) : ST remote_services () :=
  s ← st_get;
  its_info ← st_lift (match find_service_info _service _instance s with Some p => Ret p | None => Undef end);
  i ← the_info its_info;
  for_each (λ e, service_endpoint_connected _service _instance (si_major_ i) (si_minor_ i) e false) es.
Definition usable (e : option Z) : ST remote_services bool :=
  match e with
  | Some e => x ← the_endpoint e; mret (is_established_or_connected x)
  | None => mret false
  end.
Definition add_remote_service_info (_service _instance _ep_definition : Z) : ST remote_services () :=
  its_definition ← definition_of _ep_definition;
  st_modify (λ s, rv_set_service_info
    (<[(_service, _instance, ed_is_reliable_ its_definition) := _ep_definition]> (remote_service_info_ s)) s);;
  if ed_is_reliable_ its_definition then
    its_endpoint ← find_remote_client _service _instance true;
    must_report ← usable its_endpoint;
    if (must_report : bool) then report_connected _service _instance (option_list its_endpoint) else mret ()
  else mret ().
Definition add_remote_service_infos (_service _instance _ep_definition_reliable _ep_definition_unreliable : Z) :
    ST remote_services () :=
  st_modify (λ s, rv_set_service_info
    (<[(_service, _instance, true) := _ep_definition_reliable]>
      (<[(_service, _instance, false) := _ep_definition_unreliable]> (remote_service_info_ s))) s);;
  its_unreliable ← find_remote_client _service _instance false;
  its_reliable ← find_remote_client _service _instance true;
  must_report ← (usable its_unreliable <&&> usable its_reliable);
  if (must_report : bool)
  then report_connected _service _instance (option_list its_unreliable ++ option_list its_reliable) else mret ().

(** ** Connections *)

Definition pair_le (x y : Z * Z) : Prop := x.1 < y.1 ∨ x.1 = y.1 ∧ x.2 ≤ y.2.
#[local] Instance pair_le_dec : RelDecision pair_le.
Proof. intros x y. unfold pair_le. apply _. Defined.
(** The service instances of an endpoint, in order. *)
Definition instances_of (e : Z) (_reliable : bool) (m : endpoint_map) : list (Z * Z) :=
  merge_sort pair_le (omap (λ x : Z * Z * bool * Z,
    if bool_decide (x.1.2 = _reliable ∧ x.2 = e) then Some x.1.1 else None) (map_to_list m)).
(** Only the endpoints of clients are connected. *)
Definition ep_is_reliable (x : endpoint) : bool := match ep_kind x with TcpClient | TcpServer => true | _ => false end.

(** [services_to_report_], or [None] for the early return. *)
Fixpoint services_to_report (_endpoint : Z) (endpoint_is_reliable : bool) (l : list (Z * Z))
    (acc : list (Z * Z * Z * Z * bool)) : ST remote_services (option (list (Z * Z * Z * Z * bool))) :=
  match l with
  | [] => mret (Some acc)
  | (service, instance) :: l =>
      s ← st_get;
      match find_service_info service instance s with
      | None => mret None
      | Some p =>
          its_info ← the_info p;
          let its_other_endpoint := si_get_endpoint (negb endpoint_is_reliable) its_info in
          other ← usable its_other_endpoint;
          services_to_report _endpoint endpoint_is_reliable l
            (if bool_decide (its_other_endpoint = None) || other
             then (service, instance, si_major_ its_info, si_minor_ its_info,
                   negb endpoint_is_reliable && bool_decide (its_other_endpoint = None)) :: acc
             else acc)
      end
  end.
Definition on_connect (_endpoint : Z) (is_open : bool) : ST remote_services () :=
  upd_endpoint _endpoint (set_connected is_open);;
  x ← the_endpoint _endpoint;
  s ← st_get;
  found ← services_to_report _endpoint (ep_is_reliable x) (instances_of _endpoint (ep_is_reliable x) (remote_services_ s)) [];
  match found with
  | None => upd_endpoint _endpoint (set_established is_open)
  | Some services_to_report_ =>
      for_each (λ '(service_id_, instance_id_, major_, minor_, service_is_unreliable_only_),
        service_endpoint_connected service_id_ instance_id_ major_ minor_ _endpoint service_is_unreliable_only_)
        services_to_report_;;
      match services_to_report_ with
      | [] => upd_endpoint _endpoint (set_established is_open)
      | _ => mret ()
      end
  end.

Fixpoint report_disconnected (is_reliable : bool) (l : list (Z * Z)) : ST remote_services () :=
  match l with
  | [] => mret ()
  | (service, instance) :: l =>
      s ← st_get;
      match find_service_info service instance s with
      | None => mret ()
      | Some p =>
          its_info ← the_info p;
          (if is_reliable then mret ()
           else rcall (OnAvailability service instance false (si_major_ its_info) (si_minor_ its_info)));;
          service_endpoint_disconnected service instance (si_major_ its_info) (si_minor_ its_info);;
          report_disconnected is_reliable l
      end
  end.
Definition on_disconnect (_endpoint : Z) : ST remote_services () :=
  x ← the_endpoint _endpoint;
  s ← st_get;
  report_disconnected (ep_is_reliable x) (instances_of _endpoint (ep_is_reliable x) (remote_services_ s)).

(** ** Requests *)

Definition requested_service_add (_client _service _instance _major _minor : Z) : ST remote_services () :=
  st_modify (λ s, rv_set_requested (
    let m := requested_services_ s in
    let services := default ∅ (m !! _client) in
    let instances := default ∅ (services !! _service) in
    <[_client := <[_service := <[_instance := {[(_major, _minor)]} ∪ default ∅ (instances !! _instance)]> instances]> services]> m) s).

(** The entry that is erased at the end is the one of the client of the routing manager. *)
Definition requested_service_remove (_client _service _instance : Z) : ST remote_services () :=
  st_modify (λ s, rv_set_requested (
    let m := requested_services_ s in
    match m !! _client with
    | None => m
    | Some found_client =>
        match found_client !! _service with
        | None => m
        | Some found_service =>
            match found_service !! _instance with
            | None => m
            | Some _ =>
                let instances := delete _instance found_service in
                if bool_decide (instances = ∅) then
                  let services := delete _service found_client in
                  let m := <[_client := services]> m in
                  if bool_decide (services = ∅) then delete (get_client (rm_host env)) m else m
                else <[_client := <[_service := instances]> found_client]> m
            end
        end
    end) s).
End endpoints.
