(* ===== verification/RemoteServices.v ===== *)
(** The services of other devices in the routing manager: which are known, for how long, and
    what happens when they come, go or expire.

    The file models [add_routing_info], [del_routing_info], [update_routing_info] and
    [expire_services] of [routing/src/routing_manager_impl.cpp] on top of [RemoteEndpoints].
    These are the calls by which service discovery, [SdReceive], tells the routing manager
    what it has received; [run_host_call] connects the two. *)
From S2P Require Import Prelude Message SdOptions ServiceInfo SdOffers Event RemoteSubscription Eventgroups SdRemoteOffers.
From S2P Require Import ClientPorts RemoteEndpoints SdReceive.

Section services.
  Context (env : rm_env).

(** ** Offers *)

(** A requested version that an offer satisfies. *)
Definition version_matches (_major _minor : Z) (v : Z * Z) : bool :=
  (bool_decide (v.1 = _major) || bool_decide (_major = DEFAULT_MAJOR) || bool_decide (v.1 = ANY_MAJOR))
  && (bool_decide (v.2 ≤ _minor) || bool_decide (_minor = DEFAULT_MINOR) || bool_decide (v.2 = ANY_MINOR)).
(** The clients that have requested the service instance in such a version, in order. *)
Definition requesters (_service _instance _major _minor : Z) (m : requests_t) : list Z :=
  omap (λ client_id : Z * gmap Z (gmap Z (gset (Z * Z))),
    match client_id.2 !! _service with
    | Some found_service =>
        match found_service !! _instance with
        | Some versions => if existsb (version_matches _major _minor) (elements versions) then Some client_id.1 else None
        | None => None
        end
    | None => None
    end) (ordered m).

(** The endpoints are created for the first requester. *)
Fixpoint connect_requesters (its_info : Z) (connect : ST remote_services ()) (connected : bool) (l : list Z) :
    ST remote_services () :=
  match l with
  | [] => mret ()
  | client_id :: l =>
      (if connected then mret () else connect);;
      upd_info its_info (si_add_client client_id);;
      connect_requesters its_info connect true l
  end.

Definition established (e : option Z) : ST remote_services bool :=
  match e with
  | Some e => x ← the_endpoint e; mret (is_established x)
  | None => mret false
  end.
Definition tell_discovery (_service _instance : Z) (e : option Z) : ST remote_services () :=
  if has_discovery (rm_host env) then
    b ← established e;
    match e with
    | Some e => if (b : bool) then rcall (OnEndpointConnected _service _instance e) else mret ()
    | None => mret ()
    end
  else mret ().
Definition announce (_service _instance _major _minor : Z) : ST remote_services () :=
  rcall (OnAvailability _service _instance true _major _minor);;
  on_offer_service env VSOMEIP_ROUTING_CLIENT _service _instance _major _minor.
(** A requester of an endpoint that is unchanged: the service is announced if it is not. *)
Definition announce_again (_service _instance its_info : Z) (reliable : bool) (_ : Z) : ST remote_services () :=
  i ← the_info its_info;
  let ep := si_get_endpoint reliable i in
  ready ← (if reliable then established ep else mret true);
  s ← st_get;
  if (ready : bool)
     && negb (contained_in_routing_info VSOMEIP_ROUTING_CLIENT _service _instance (si_major_ i) (si_minor_ i) s) then
    announce _service _instance (si_major_ i) (si_minor_ i);;
    tell_discovery _service _instance ep
  else mret ().

(** The service info of an offer: the existing one with its new time to live, or a new one;
    none if the service is local. *)
Definition info_of_offer (_service _instance _major _minor _ttl _reliable_address _reliable_port
    _unreliable_address _unreliable_port : Z) : ST remote_services (option Z) :=
  s ← st_get;
  match find_service_info _service _instance s with
  | None =>
      let is_local := bool_decide (_reliable_port ≠ ILLEGAL_PORT) && bool_decide (rm_unicast env = _reliable_address)
                   || bool_decide (_unreliable_port ≠ ILLEGAL_PORT) && bool_decide (rm_unicast env = _unreliable_address) in
      its_info ← create_service_info _service _instance _major _minor _ttl is_local;
      init_service_info env _service _instance is_local;;
      mret (Some its_info)
  | Some its_info =>
      i ← the_info its_info;
      if si_is_local_ i then mret None
      else upd_info its_info (si_set_ttl _ttl);; mret (Some its_info)
  end.

(** The reliable endpoint of an offer: [udp_inserted] and [tcp_inserted]. *)
Definition add_reliable (_service _instance _major _minor _reliable_address _reliable_port
    _unreliable_address _unreliable_port its_info : Z) (is_reliable_known is_unreliable_known : bool) :
    ST remote_services (bool * bool) :=
  if bool_decide (_reliable_port ≠ ILLEGAL_PORT) && negb is_reliable_known then
    endpoint_def_tcp ← get_definition _reliable_address _reliable_port true _service _instance;
    let udp_inserted := bool_decide (_unreliable_port ≠ ILLEGAL_PORT) && negb is_unreliable_known in
    (if udp_inserted then
       endpoint_def_udp ← get_definition _unreliable_address _unreliable_port false _service _instance;
       add_remote_service_infos env _service _instance endpoint_def_tcp endpoint_def_udp
     else add_remote_service_info env _service _instance endpoint_def_tcp);;
    s ← st_get;
    connect_requesters its_info
      (if udp_inserted then find_or_create_remote_clients env _service _instance
       else find_or_create_remote_client env _service _instance true)
      false (requesters _service _instance _major _minor (requested_services_ s));;
    mret (udp_inserted, true)
  else if bool_decide (_reliable_port ≠ ILLEGAL_PORT) && is_reliable_known then
    s ← st_get;
    for_each (announce_again _service _instance its_info true)
      (requesters _service _instance _major _minor (requested_services_ s));;
    mret (false, false)
  else mret (false, false).

Definition add_unreliable (_service _instance _major _minor _unreliable_address _unreliable_port its_info : Z)
    (is_reliable_known is_unreliable_known udp_inserted tcp_inserted : bool) : ST remote_services () :=
  if bool_decide (_unreliable_port ≠ ILLEGAL_PORT) && negb is_unreliable_known then
    (if udp_inserted then mret ()
     else
       endpoint_def ← get_definition _unreliable_address _unreliable_port false _service _instance;
       add_remote_service_info env _service _instance endpoint_def;;
       s ← st_get;
       connect_requesters its_info (find_or_create_remote_client env _service _instance false) false
         (requesters _service _instance _major _minor (requested_services_ s)));;
    (if negb is_reliable_known && negb tcp_inserted then announce _service _instance _major _minor else mret ());;
    i ← the_info its_info;
    tell_discovery _service _instance (si_get_endpoint false i)
  else if bool_decide (_unreliable_port ≠ ILLEGAL_PORT) && is_unreliable_known then
    s ← st_get;
    for_each (announce_again _service _instance its_info false)
      (requesters _service _instance _major _minor (requested_services_ s))
  else mret ().

Definition add_routing_info (_service _instance _major _minor _ttl _reliable_address _reliable_port
    _unreliable_address _unreliable_port : Z) : ST remote_services () :=
  info ← info_of_offer _service _instance _major _minor _ttl _reliable_address _reliable_port
           _unreliable_address _unreliable_port;
  match info with
  | None => mret ()
  | Some its_info =>
      '(is_reliable_known, is_unreliable_known) ← is_remote_service_known _service _instance
         _reliable_address _reliable_port _unreliable_address _unreliable_port;
      '(udp_inserted, tcp_inserted) ← add_reliable _service _instance _major _minor _reliable_address _reliable_port
         _unreliable_address _unreliable_port its_info is_reliable_known is_unreliable_known;
      add_unreliable _service _instance _major _minor _unreliable_address _unreliable_port its_info
        is_reliable_known is_unreliable_known udp_inserted tcp_inserted
  end.

(** ** The end of a service *)

Definition in_routing {A} (m : ST routing A) : ST remote_services A :=
  s ← st_get;
  '(a, r) ← st_lift (m (rv_routing s));
  st_modify (rv_set_routing r);;
  mret a.

(** The eventgroups of a service instance: number and object, in order. *)
Definition eventgroups_of (_service _instance : Z) (r : routing) : list (Z * Z) :=
  ordered (list_to_map (omap (λ x : Z * Z * Z * Z,
    if bool_decide (x.1.1 = (_service, _instance)) then Some (x.1.2, x.2) else None)
    (map_to_list (r_eventgroups_ r))) : gmap Z Z).
(** All subscribers of an event but the routing manager lose it. *)
Definition drop_subscribers (eventgroup its_event : Z) : ST routing () :=
  x ← the_event its_event;
  for_each (λ its_subscriber,
    if bool_decide (its_subscriber ≠ get_client (rm_host env))
    then upd_event its_event (remove_subscriber eventgroup its_subscriber) else mret ())
    (client_list (get_subscribers x)).
Definition drop_event (_service _instance eventgroup its_event : Z) : ST remote_services () :=
  in_routing (drop_subscribers eventgroup its_event);;
  x ← in_routing (the_event its_event);
  rcall (RemovePendingSubscription _service _instance eventgroup (get_event x)).
Definition drop_eventgroup (_service _instance : Z) (g : Z * Z) : ST remote_services () :=
  info ← in_routing (the_group g.2);
  for_each (drop_event _service _instance g.1) (elements (eg_events_ info)).
Definition events_of (_service _instance : Z) (r : routing) : list Z :=
  mjoin ((λ g : Z * Z, match r_groups r !! g.2 with Some info => elements (eg_events_ info) | None => [] end)
    <$> eventgroups_of _service _instance r).
Definition implicit_unsubscribe (_service _instance : Z) : ST remote_services () :=
  s ← st_get;
  let its_events := events_of _service _instance (rv_routing s) in
  for_each (drop_eventgroup _service _instance) (eventgroups_of _service _instance (rv_routing s));;
  for_each (λ e, in_routing (on_event_at e (unset_payload true))) its_events;;
  st_modify (λ s, rv_set_routing (r_with_remote_subscription_state
    (filter (λ x : Z * Z * Z * Z * subscription_state_e, x.1.1.1 ≠ (_service, _instance)) (r_remote_subscription_state_ (rv_routing s)))
    (rv_routing s)) s);;
  st_modify (λ s, rv_set_routing (r_with_remote_subscribers
    (delete (_service, _instance) (r_remote_subscribers_ (rv_routing s))) (rv_routing s)) s).

Definition clear_endpoint (_service _instance : Z) (reliable : bool) : ST remote_services () :=
  clear_client_endpoints env _service _instance reliable;;
  clear_remote_service_info _service _instance reliable.
Definition del_routing_info (_service _instance : Z) (_has_reliable _has_unreliable : bool) : ST remote_services () :=
  s ← st_get;
  match find_service_info _service _instance s with
  | None => mret ()
  | Some its_info =>
      i ← the_info its_info;
      rcall (OnAvailability _service _instance false (si_major_ i) (si_minor_ i));;
      on_stop_offer_service VSOMEIP_ROUTING_CLIENT _service _instance (si_major_ i) (si_minor_ i);;
      implicit_unsubscribe _service _instance;;
      (if _has_reliable then clear_endpoint _service _instance true else mret ());;
      (if _has_unreliable then clear_endpoint _service _instance false else mret ());;
      clear_multicast_endpoints _service _instance;;
      (if _has_reliable then clear_service_info _service _instance true else mret ());;
      (if _has_unreliable then clear_service_info _service _instance false else mret ());;
      if negb _has_reliable && negb _has_unreliable then
        clear_remote_service_info _service _instance true;;
        clear_remote_service_info _service _instance false;;
        clear_service_info _service _instance true;;
        clear_service_info _service _instance false
      else mret ()
  end.

(** ** Expiry *)

Definition is_expired (_elapsed : Z) (i : serviceinfo) : bool :=
  bool_decide (si_ttl_ i < _elapsed) || bool_decide (si_ttl_ i = 0).
Definition age (_elapsed : Z) (i : serviceinfo) : serviceinfo :=
  if bool_decide (si_get_ttl i < DEFAULT_TTL) then
    if is_expired _elapsed i then si_set_ttl 0 i else si_set_precise_ttl (si_ttl_ i - _elapsed) i
  else i.
(** Each service is aged; the expired ones are returned. *)
Fixpoint age_services (_elapsed : Z) (l : list (Z * Z * Z)) : ST remote_services (list (Z * Z)) :=
  match l with
  | [] => mret []
  | x :: l =>
      i ← the_info x.2;
      upd_info x.2 (age _elapsed);;
      rest ← age_services _elapsed l;
      mret (if bool_decide (si_get_ttl i < DEFAULT_TTL) && is_expired _elapsed i then x.1 :: rest else rest)
  end.
Definition update_routing_info (_elapsed : Z) : ST remote_services () :=
  s ← st_get;
  its_expired_offers ← age_services _elapsed (items (services_remote_ s));
  for_each (λ '(service, instance),
    (if has_discovery (rm_host env) then rcall (UnsubscribeAll service instance) else mret ());;
    del_routing_info service instance true true) its_expired_offers.

(** The endpoint by which a service is found at an address. *)
Definition client_endpoint_at (s : remote_services) (e : option Z) : option endpoint :=
  match e with
  | Some e => match rv_endpoints s !! e with Some x => if is_client x then Some x else None | None => None end
  | None => None
  end.
Definition expires_at (_address : Z) (_range : Z * Z) (_reliable : bool) (s : remote_services) (i : serviceinfo) : bool :=
  let expire_all := bool_decide (_range.1 = ANY_PORT) && bool_decide (_range.2 = ANY_PORT) in
  let first := client_endpoint_at s (si_get_endpoint _reliable i) in
  let its_client_endpoint :=
    match first with
    | Some x => Some x
    | None => if expire_all then client_endpoint_at s (si_get_endpoint (negb _reliable) i) else None
    end in
  match its_client_endpoint with
  | Some x =>
      (expire_all || bool_decide (ep_port_ x >= _range.1) && bool_decide (ep_port_ x ≤ _range.2))
      && negb (is_unspecified env (ep_address_ x)) && bool_decide (ep_address_ x = _address)
  | None => false
  end.
Fixpoint collect_expired (_address : Z) (_range : Z * Z) (_reliable : bool) (l : list (Z * Z * Z)) :
    ST remote_services (list (Z * Z)) :=
  match l with
  | [] => mret []
  | x :: l =>
      i ← the_info x.2;
      s ← st_get;
      if expires_at _address _range _reliable s i then
        (if has_discovery (rm_host env) then rcall (UnsubscribeAll x.1.1 x.1.2) else mret ());;
        rest ← collect_expired _address _range _reliable l;
        mret (x.1 :: rest)
      else collect_expired _address _range _reliable l
  end.
Definition expire_services (_address : Z) (_range : Z * Z) (_reliable : bool) : ST remote_services () :=
  s ← st_get;
  its_expired_offers ← collect_expired _address _range _reliable (items (services_remote_ s));
  for_each (λ '(service, instance), del_routing_info service instance true true) its_expired_offers.

(** ** The calls of service discovery *)

(** A reboot notification is for the application, joining is for the socket of service
    discovery. *)
Definition run_host_call (c : host_call_t) : ST remote_services () :=
  match c with
  | AddRoutingInfo service instance major minor ttl ra rp ua up => add_routing_info service instance major minor ttl ra rp ua up
  | DelRoutingInfo service instance has_reliable has_unreliable => del_routing_info service instance has_reliable has_unreliable
  | ExpireServices address port reliable => expire_services address (port, port) reliable
  | UpdateRoutingInfo elapsed => update_routing_info elapsed
  | RebootNotification _ | JoinMulticast => mret ()
  end.
End services.
