(* ===== verification/RemoteSafety.v ===== *)
(** The services of other devices: the invariant of the state of [RemoteEndpoints] and
    [RemoteServices].  Every call keeps it, and no call meets a dangling reference. *)
From S2P Require Import Prelude Message SdOptions ServiceInfo SdOffers Event RemoteSubscription Eventgroups SdRemoteOffers.
From S2P Require Import ClientPorts RemoteEndpoints SdReceive RemoteServices.

(** ** What a call leaves as it is *)

Definition keeps {X A} (f : remote_services → X) (m : ST remote_services A) : Prop :=
  ∀ s a s', m s = Ret (a, s') → f s' = f s.
(** Which services are known, also with the version and time to live of each, and also with
    all of their infos. *)
Definition service_maps (s : remote_services) : services_t * services_t := (services_ s, services_remote_ s).
Definition life (x : serviceinfo) : Z * Z * Z * bool := (si_major_ x, si_minor_ x, si_ttl_ x, si_is_local_ x).
Definition service_lives (s : remote_services) : services_t * services_t * gmap Z (Z * Z * Z * bool) :=
  (services_ s, services_remote_ s, life <$> rv_infos s).
Definition service_state (s : remote_services) : services_t * services_t * gmap Z serviceinfo :=
  (services_ s, services_remote_ s, rv_infos s).

Section keeps.
  Context {X : Type} (f : remote_services → X).
Lemma keeps_ret {A} (a : A) : keeps f (mret a).
Proof. by intros s b s' [= _ <-]. Qed.
Lemma keeps_get : keeps f st_get.
Proof. by intros s b s' [= _ <-]. Qed.
Lemma keeps_lift {A} (m : outcome A) : keeps f (st_lift m).
Proof. intros s b s' Hm. unfold st_lift in Hm. apply outcome_bind_inv in Hm as (a&_&[= _ <-]). done. Qed.
Lemma keeps_modify g : (∀ s, f (g s) = f s) → keeps f (st_modify g).
Proof. intros Hg s b s' [= _ <-]. apply Hg. Qed.
Lemma keeps_bind {A B} (m : ST remote_services A) (k : A → ST remote_services B) :
  keeps f m → (∀ a, keeps f (k a)) → keeps f (m ≫= k).
Proof. intros Hm Hk s b s' (a&s1&E1&E2)%st_bind_inv. rewrite (Hk a _ _ _ E2). by eapply Hm. Qed.
Lemma keeps_for_each {A} (g : A → ST remote_services ()) l : (∀ a, keeps f (g a)) → keeps f (for_each g l).
Proof. intros Hg. induction l; cbn; [apply keeps_ret|]. apply keeps_bind; auto. Qed.
End keeps.
Create HintDb keeps.
#[export] Hint Resolve keeps_ret keeps_get keeps_lift : keeps.
(** Follow the structure of a call; what it calls is known to the hints. *)
Ltac keeps_solve :=
  repeat first
    [ progress intros
    | solve [eauto with keeps]
    | apply keeps_bind
    | apply keeps_for_each
    | apply keeps_modify; by intros ?
    | match goal with
      | |- keeps _ (match ?x with _ => _ end) => destruct x
      | |- keeps _ (let '_ := ?x in _) => destruct x
      end ].

Lemma fmap_alter_same {A B} (h : A → B) (g : A → A) k (m : gmap Z A) : (∀ x, h (g x) = h x) → h <$> alter g k m = h <$> m.
Proof.
  intros Hg. apply map_eq. intros j. rewrite !lookup_fmap. destruct (decide (k = j)) as [->|Hne].
  - rewrite lookup_alter_eq. destruct (m !! j); cbn; [by rewrite Hg|done].
  - by rewrite lookup_alter_ne.
Qed.
Lemma state_lives {A} (m : ST remote_services A) : keeps service_state m → keeps service_lives m.
Proof. intros Hm s a s' E. specialize (Hm s a s' E). unfold service_state, service_lives in *. congruence. Qed.
Lemma lives_maps {A} (m : ST remote_services A) : keeps service_lives m → keeps service_maps m.
Proof. intros Hm s a s' E. specialize (Hm s a s' E). unfold service_lives, service_maps in *. congruence. Qed.

Lemma keeps_rcall c : keeps service_state (rcall c).
Proof. by apply keeps_modify. Qed.
#[export] Hint Resolve keeps_rcall : keeps.
#[export] Hint Resolve state_lives lives_maps | 5 : keeps.
Lemma keeps_upd_info p g : keeps service_maps (upd_info p g).
Proof. by apply keeps_modify. Qed.
Lemma keeps_set_endpoint p e r : keeps service_lives (upd_info p (si_set_endpoint e r)).
Proof. apply keeps_modify. intros s. unfold service_lives. cbn. rewrite fmap_alter_same; [done|]. by intros x. Qed.
Lemma keeps_add_client p c : keeps service_lives (upd_info p (si_add_client c)).
Proof. apply keeps_modify. intros s. unfold service_lives. cbn. rewrite fmap_alter_same; [done|]. by intros x. Qed.
Lemma keeps_upd_endpoint e g : keeps service_state (upd_endpoint e g).
Proof. by apply keeps_modify. Qed.
Lemma keeps_the_info p : keeps service_state (the_info p).
Proof. unfold the_info. keeps_solve. Qed.
Lemma keeps_the_endpoint p : keeps service_state (the_endpoint p).
Proof. unfold the_endpoint. keeps_solve. Qed.
Lemma keeps_definition_of p : keeps service_state (definition_of p).
Proof. unfold definition_of. keeps_solve. Qed.
#[export] Hint Resolve keeps_upd_info keeps_set_endpoint keeps_add_client keeps_upd_endpoint keeps_the_info keeps_the_endpoint keeps_definition_of : keeps.
Lemma keeps_get_definition a p r sv i : keeps service_state (get_definition a p r sv i).
Proof. unfold get_definition. keeps_solve. Qed.
Lemma keeps_on_offer env c sv i major minor : keeps service_state (on_offer_service env c sv i major minor).
Proof. unfold on_offer_service. keeps_solve. Qed.
Lemma keeps_on_stop_offer c sv i major minor : keeps service_state (on_stop_offer_service c sv i major minor).
Proof. unfold on_stop_offer_service. keeps_solve. Qed.
Lemma keeps_clear_client_endpoints env sv i r : keeps service_state (clear_client_endpoints env sv i r).
Proof. unfold clear_client_endpoints. keeps_solve. Qed.
Lemma keeps_clear_remote_service_info sv i r : keeps service_state (clear_remote_service_info sv i r).
Proof. unfold clear_remote_service_info. keeps_solve. Qed.
Lemma keeps_remove_instance_multicast sv i : keeps service_state (remove_instance_multicast sv i).
Proof. unfold remove_instance_multicast. keeps_solve. Qed.
#[export] Hint Resolve keeps_get_definition keeps_on_offer keeps_on_stop_offer keeps_clear_client_endpoints
  keeps_clear_remote_service_info keeps_remove_instance_multicast : keeps.
Lemma keeps_clear_multicast sv i : keeps service_state (clear_multicast_endpoints sv i).
Proof. unfold clear_multicast_endpoints. keeps_solve. Qed.
Lemma keeps_register sv i e r : keeps service_lives (register_endpoint sv i e r).
Proof. unfold register_endpoint. keeps_solve. Qed.
#[export] Hint Resolve keeps_clear_multicast keeps_register : keeps.
Lemma keeps_find_remote_client sv i r : keeps service_lives (find_remote_client sv i r).
Proof. unfold find_remote_client. keeps_solve. Qed.
Lemma keeps_create_client env a lp rp r : keeps service_state (create_client_endpoint env a lp rp r).
Proof. unfold create_client_endpoint, new_endpoint. keeps_solve. Qed.
#[export] Hint Resolve keeps_find_remote_client keeps_create_client : keeps.
Lemma keeps_create_remote_client env sv i r : keeps service_lives (create_remote_client env sv i r).
Proof. unfold create_remote_client. keeps_solve. Qed.
#[export] Hint Resolve keeps_create_remote_client : keeps.

Lemma keeps_connected env sv i major minor e b : keeps service_state (service_endpoint_connected env sv i major minor e b).
Proof. unfold service_endpoint_connected. keeps_solve. Qed.
#[export] Hint Resolve keeps_connected : keeps.
Lemma keeps_add_info env sv i d : keeps service_lives (add_remote_service_info env sv i d).
Proof. unfold add_remote_service_info, report_connected, usable. keeps_solve. Qed.
Lemma keeps_add_infos env sv i d1 d2 : keeps service_lives (add_remote_service_infos env sv i d1 d2).
Proof. unfold add_remote_service_infos, report_connected, usable, st_andb. keeps_solve. Qed.
Lemma keeps_remote_client env sv i r : keeps service_lives (find_or_create_remote_client env sv i r).
Proof. unfold find_or_create_remote_client, find_or_create_client, start_endpoint. keeps_solve. Qed.
Lemma keeps_remote_clients env sv i : keeps service_lives (find_or_create_remote_clients env sv i).
Proof. unfold find_or_create_remote_clients, find_or_create_client, start_endpoint. keeps_solve. Qed.
Lemma keeps_connect_requesters p m b l : keeps service_lives m → keeps service_lives (connect_requesters p m b l).
Proof. intros Hm. revert b. induction l; intros b; cbn [connect_requesters]; keeps_solve. Qed.
#[export] Hint Resolve keeps_add_info keeps_add_infos keeps_remote_client keeps_remote_clients keeps_connect_requesters : keeps.
Lemma keeps_announce_again env sv i p r c : keeps service_state (announce_again env sv i p r c).
Proof. unfold announce_again, established, announce, tell_discovery, established. keeps_solve. Qed.
#[export] Hint Resolve keeps_announce_again : keeps.
Lemma keeps_add_reliable env sv i major minor ra rp ua up p k1 k2 :
  keeps service_lives (add_reliable env sv i major minor ra rp ua up p k1 k2).
Proof. unfold add_reliable. keeps_solve; apply keeps_connect_requesters; keeps_solve. Qed.
Lemma keeps_add_unreliable env sv i major minor ua up p k1 k2 u t :
  keeps service_lives (add_unreliable env sv i major minor ua up p k1 k2 u t).
Proof. unfold add_unreliable, announce, tell_discovery, established. keeps_solve. Qed.
#[export] Hint Resolve keeps_add_reliable keeps_add_unreliable : keeps.
Lemma keeps_known_at sv i r a p : keeps service_state (known_at sv i r a p).
Proof. unfold known_at. keeps_solve. Qed.
#[export] Hint Resolve keeps_known_at : keeps.

(** An operation on eventgroups and events. *)
Lemma keeps_in_routing {A} (m : ST routing A) : keeps service_state (in_routing m).
Proof. unfold in_routing. keeps_solve. Qed.
#[export] Hint Resolve keeps_in_routing : keeps.
Lemma keeps_implicit_unsubscribe env sv i : keeps service_state (implicit_unsubscribe env sv i).
Proof. unfold implicit_unsubscribe, drop_eventgroup, drop_event. keeps_solve. Qed.
#[export] Hint Resolve keeps_implicit_unsubscribe : keeps.

(** ** The invariant *)

Definition remote_info (service instance : Z) (s : remote_services) : option Z :=
  at_instance service instance (services_remote_ s).

(** Every known service has its info; the remote ones are exactly the services that are not
    local; what is referred to exists; a definition is stored under its own values, and a
    server endpoint has the class of its protocol. *)
Record inv (s : remote_services) : Prop := Inv {
  inv_services : ∀ sv i p, find_service_info sv i s = Some p → ∃ x, rv_infos s !! p = Some x ∧
    si_service_ x = sv ∧ si_instance_ x = i ∧ remote_info sv i s = (if si_is_local_ x then None else Some p);
  inv_remote : ∀ sv i p, remote_info sv i s = Some p → find_service_info sv i s = Some p;
  inv_info_endpoints : ∀ p x r e, rv_infos s !! p = Some x → si_get_endpoint r x = Some e → is_Some (rv_endpoints s !! e);
  inv_service_info : ∀ k d, remote_service_info_ s !! k = Some d → is_Some (r_endpoints (rv_routing s) !! d);
  inv_definitions : ∀ sv i a p r d, rv_definitions s !! (sv, i, a, p, r) = Some d →
    ∃ x, r_endpoints (rv_routing s) !! d = Some x ∧ ed_address_ x = a ∧ ed_port_ x = p ∧ ed_is_reliable_ x = r;
  inv_remote_services : ∀ k e, remote_services_ s !! k = Some e → is_Some (rv_endpoints s !! e);
  inv_by_ip : ∀ k e, client_endpoints_by_ip_ s !! k = Some e → is_Some (rv_endpoints s !! e);
  inv_servers : ∀ k e, server_endpoints_ s !! k = Some e →
    ∃ x, rv_endpoints s !! e = Some x ∧ ep_kind x = server_kind k.2 true;
  inv_multicast : ∀ k d, multicast_info_ s !! k = Some d → is_Some (r_endpoints (rv_routing s) !! d);
  inv_groups : ∀ k g, r_eventgroups_ (rv_routing s) !! k = Some g → is_Some (r_groups (rv_routing s) !! g);
  inv_events : ∀ g x e, r_groups (rv_routing s) !! g = Some x → e ∈ eg_events_ x → is_Some (r_events (rv_routing s) !! e)
}.

(** What exists stays. *)
Record grows (s s' : remote_services) : Prop := Grows {
  grows_infos : ∀ p, is_Some (rv_infos s !! p) → is_Some (rv_infos s' !! p);
  grows_endpoints : ∀ e x, rv_endpoints s !! e = Some x → ∃ x', rv_endpoints s' !! e = Some x' ∧ ep_kind x' = ep_kind x;
  grows_definitions : ∀ d, is_Some (r_endpoints (rv_routing s) !! d) → is_Some (r_endpoints (rv_routing s') !! d);
  grows_events : ∀ e, is_Some (r_events (rv_routing s) !! e) → is_Some (r_events (rv_routing s') !! e);
  grows_groups : r_groups (rv_routing s') = r_groups (rv_routing s);
  grows_eventgroups : r_eventgroups_ (rv_routing s') = r_eventgroups_ (rv_routing s)
}.
#[export] Instance grows_preorder : PreOrder grows.
Proof.
  split.
  - intros s; constructor; eauto.
  - intros s1 s2 s3 [] []. constructor; eauto; try congruence.
    intros e x Hx. destruct (grows_endpoints0 e x Hx) as (y&Hy&<-). eauto.
Qed.
Lemma grows_endpoint s s' e : grows s s' → is_Some (rv_endpoints s !! e) → is_Some (rv_endpoints s' !! e).
Proof. intros Hg [x Hx]. destruct (grows_endpoints s s' Hg e x Hx) as (y&Hy&_). by eexists. Qed.

(** The call returns, keeps the invariant and what exists, and has the postcondition. *)
Definition safe {A} (m : ST remote_services A) (Q : A → remote_services → Prop) (s : remote_services) : Prop :=
  ∃ a s', m s = Ret (a, s') ∧ inv s' ∧ grows s s' ∧ Q a s'.
Definition done_ {A} (_ : A) (_ : remote_services) : Prop := True.

Lemma safe_mret {A} (a : A) (Q : A → remote_services → Prop) s : inv s → Q a s → safe (mret a) Q s.
Proof. intros Hi Hq. by exists a, s. Qed.
Lemma safe_then {A B} (m : ST remote_services A) (k : A → ST remote_services B) Q R s : safe m Q s →
  (∀ a s', inv s' → grows s s' → Q a s' → safe (k a) R s') → safe (m ≫= k) R s.
Proof.
  intros (a&s1&E&Hi&Hg&Hq) Hk. destruct (Hk a s1 Hi Hg Hq) as (b&s2&E2&Hi2&Hg2&Hr).
  exists b, s2. rewrite (st_bind_Ret _ _ _ _ _ E). split_and!; try done. by trans s1.
Qed.
Lemma safe_read {B} (k : remote_services → ST remote_services B) R s : safe (k s) R s → safe (st_get ≫= k) R s.
Proof. done. Qed.
Lemma safe_weaken {A} (m : ST remote_services A) (Q R : A → remote_services → Prop) s :
  safe m Q s → (∀ a s', Q a s' → R a s') → safe m R s.
Proof. intros (a&s1&?&?&?&?) Hqr. exists a, s1. eauto. Qed.
Lemma safe_modify (f : remote_services → remote_services) Q s :
  inv (f s) → grows s (f s) → Q () (f s) → safe (st_modify f) Q s.
Proof. intros. by exists (), (f s). Qed.
Lemma safe_for_each {A} (f : A → ST remote_services ()) l s : inv s →
  (∀ a s', a ∈ l → inv s' → grows s s' → safe (f a) done_ s') → safe (for_each f l) done_ s.
Proof.
  intros Hi Hf. revert s Hi Hf. induction l as [|a l IH]; intros s Hi Hf; cbn; [by apply safe_mret|].
  eapply safe_then; [apply Hf; [left|done|done]|]. intros [] s1 Hi1 Hg1 _. apply IH; [done|].
  intros b s2 Hb Hi2 Hg2. apply Hf; [by right|done|]. by trans s1.
Qed.

(** A change that leaves the parts alone that the invariant is about. *)
Ltac inv_same :=
  match goal with Hi : inv ?s |- inv _ => destruct Hi; constructor; cbn; eauto end.
Ltac grows_same := constructor; cbn; eauto.

Lemma safe_rcall c s : inv s → safe (rcall c) done_ s.
Proof. intros Hi. apply safe_modify; [inv_same|grows_same|done]. Qed.

(** Reading an object that exists. *)
Lemma safe_info {B} p x (k : serviceinfo → ST remote_services B) R s :
  rv_infos s !! p = Some x → safe (k x) R s → safe (the_info p ≫= k) R s.
Proof. intros Hx (b&s'&E&H). exists b, s'. split; [|done]. unfold the_info. st_run. by rewrite Hx. Qed.
Lemma safe_endpoint {B} e x (k : endpoint → ST remote_services B) R s :
  rv_endpoints s !! e = Some x → safe (k x) R s → safe (the_endpoint e ≫= k) R s.
Proof. intros Hx (b&s'&E&H). exists b, s'. split; [|done]. unfold the_endpoint. st_run. by rewrite Hx. Qed.
Lemma safe_definition {B} d x (k : endpoint_definition → ST remote_services B) R s :
  r_endpoints (rv_routing s) !! d = Some x → safe (k x) R s → safe (definition_of d ≫= k) R s.
Proof. intros Hx (b&s'&E&H). exists b, s'. split; [|done]. unfold definition_of. st_run. by rewrite Hx. Qed.

(** ** Changes of objects *)

Lemma is_Some_alter {A} (f : A → A) k (m : gmap Z A) j : is_Some (m !! j) → is_Some (alter f k m !! j).
Proof. intros Hj. apply elem_of_dom. rewrite dom_alter. by apply elem_of_dom. Qed.
Lemma is_Some_insert {A} k x (m : gmap Z A) j : is_Some (m !! j) → is_Some (<[k := x]> m !! j).
Proof. intros Hj. destruct (decide (k = j)) as [->|Hne]; [rewrite lookup_insert_eq|rewrite lookup_insert_ne by done]; eauto. Qed.
#[local] Hint Resolve is_Some_alter is_Some_insert : core.

Definition same_identity (f : serviceinfo → serviceinfo) : Prop :=
  ∀ x, si_service_ (f x) = si_service_ x ∧ si_instance_ (f x) = si_instance_ x ∧ si_is_local_ (f x) = si_is_local_ x.
Lemma safe_upd_info p f s : inv s → same_identity f →
  (∀ x r e, rv_infos s !! p = Some x → si_get_endpoint r (f x) = Some e → is_Some (rv_endpoints s !! e)) →
  safe (upd_info p f) done_ s.
Proof.
  intros Hi Hf He. apply safe_modify; [|grows_same; eauto|done]. destruct Hi. constructor; cbn; eauto.
  - intros sv i q Hq. destruct (inv_services0 sv i q Hq) as (x&Hx&H1&H2&H3).
    destruct (decide (p = q)) as [->|Hne].
    + exists (f x). rewrite lookup_alter_eq, Hx. destruct (Hf x) as (->&->&->). by split_and!.
    + exists x. rewrite lookup_alter_ne by done. by split_and!.
  - intros q x r e Hq Hr. destruct (decide (p = q)) as [->|Hne].
    + rewrite lookup_alter_eq in Hq. destruct (rv_infos s !! q) as [y|] eqn:Ey; [|done]. injection Hq as <-. eauto.
    + rewrite lookup_alter_ne in Hq by done. eauto.
Qed.
Lemma safe_set_endpoint p e r s : inv s → (∀ e', e = Some e' → is_Some (rv_endpoints s !! e')) →
  safe (upd_info p (si_set_endpoint e r)) done_ s.
Proof.
  intros Hi He. apply safe_upd_info; [done|done|]. intros x r' e' Hx Hr.
  destruct r, r'; cbn in Hr; [by apply He| | |by apply He].
  - by apply (inv_info_endpoints s Hi p x false).
  - by apply (inv_info_endpoints s Hi p x true).
Qed.

Lemma safe_upd_endpoint e f s : inv s → (∀ x, ep_kind (f x) = ep_kind x) → safe (upd_endpoint e f) done_ s.
Proof.
  intros Hi Hf. assert (∀ e' x, rv_endpoints s !! e' = Some x →
    ∃ x', alter f e (rv_endpoints s) !! e' = Some x' ∧ ep_kind x' = ep_kind x) as Hkeep.
  { intros e' x Hx. destruct (decide (e = e')) as [->|Hne].
    - exists (f x). by rewrite lookup_alter_eq, Hx, Hf.
    - exists x. by rewrite lookup_alter_ne. }
  apply safe_modify; [|grows_same|done]. destruct Hi. constructor; cbn; eauto.
  intros k e' He'. destruct (inv_servers0 k e' He') as (x&Hx&Hk). destruct (decide (e = e')) as [->|Hne].
  - exists (f x). rewrite lookup_alter_eq, Hx. by rewrite Hf.
  - exists x. by rewrite lookup_alter_ne.
Qed.
Lemma safe_new_endpoint x s : inv s → safe (new_endpoint x) (λ e s', rv_endpoints s' !! e = Some x) s.
Proof.
  intros Hi. unfold new_endpoint. apply safe_read.
  assert (rv_endpoints s !! fresh (dom (rv_endpoints s)) = None) as Hn by (apply not_elem_of_dom, is_fresh).
  eapply safe_then with (Q := λ _ s', rv_endpoints s' !! fresh (dom (rv_endpoints s)) = Some x).
  - assert (∀ e y, rv_endpoints s !! e = Some y → <[fresh (dom (rv_endpoints s)) := x]> (rv_endpoints s) !! e = Some y)
      as Hkeep by (intros; rewrite lookup_insert_ne by congruence; done).
    apply safe_modify; [|grows_same|cbn; by rewrite lookup_insert_eq]. destruct Hi. constructor; cbn; eauto.
    intros k e He. destruct (inv_servers0 k e He) as (y&Hy&Hk). exists y. rewrite lookup_insert_ne by congruence. done.
  - intros [] s1 Hi1 _ He. by apply safe_mret.
Qed.

Lemma safe_create_server env port reliable s : inv s →
  safe (create_server_endpoint env port reliable true) (λ e s', ∀ e', e = Some e' →
    server_endpoints_ s' !! (port, reliable) = Some e') s.
Proof.
  intros Hi. unfold create_server_endpoint. destruct (_ || _); [|by apply safe_mret].
  eapply safe_then; [by apply safe_new_endpoint|]. intros e s1 Hi1 _ He.
  eapply safe_then with (Q := λ _ s', rv_endpoints s' !! e = Some (Endpoint (server_kind reliable true) (rm_unicast env) port CLOSED 0)).
  { destruct (_ && _); [|by apply safe_mret]. destruct (safe_rcall (EnableMagicCookies e) s1 Hi1) as ([]&s2&E&?&?&_).
    exists (), s2. split_and!; try done. injection E as <-. done. }
  intros [] s2 Hi2 _ He2. eapply safe_then with (Q := λ _ s', server_endpoints_ s' !! (port, reliable) = Some e).
  { apply safe_modify; [|grows_same; eauto|cbn; by rewrite lookup_insert_eq]. destruct Hi2. constructor; cbn; eauto.
    intros k e'. destruct (decide ((port, reliable) = k)) as [<-|Hne].
    - rewrite lookup_insert_eq. intros [= <-]. eauto.
    - rewrite lookup_insert_ne by done. eauto. }
  intros [] s3 Hi3 _ He3. exists (Some e), (rv_set_calls (rv_calls s3 ++ [EndpointStart e]) s3).
  split_and!; [done|inv_same|grows_same|]. by intros e' [= <-].
Qed.

(** ** Service infos *)

Lemma at_put sv i p m sv' i' :
  at_instance sv' i' (put_service sv i p m) = if bool_decide (sv' = sv ∧ i' = i) then Some p else at_instance sv' i' m.
Proof.
  unfold at_instance, put_service. destruct (decide (sv = sv')) as [->|Hs].
  - rewrite lookup_insert_eq. destruct (decide (i = i')) as [->|Hne].
    + by rewrite lookup_insert_eq, bool_decide_true.
    + rewrite lookup_insert_ne, bool_decide_false by naive_solver. by destruct (m !! sv').
  - by rewrite lookup_insert_ne, bool_decide_false by naive_solver.
Qed.

(** Erasing the service instead of the instance makes no difference if it is the only one. *)
Lemma at_erase (b : bool) sv i m sv' i' :
  (b = true → ∀ j p, at_instance sv j m = Some p → j = i) →
  at_instance sv' i' (erase_service b sv i m) = if bool_decide (sv' = sv ∧ i' = i) then None else at_instance sv' i' m.
Proof.
  intros Honly. unfold erase_service. destruct (decide (sv = sv')) as [->|Hs].
  - destruct b.
    + assert (at_instance sv' i' (delete sv' m) = None) as -> by (unfold at_instance; by rewrite lookup_delete_eq).
      case_bool_decide; [done|]. destruct (at_instance sv' i' m) eqn:E; [|done]. naive_solver.
    + unfold at_instance. rewrite lookup_alter_eq. destruct (m !! sv') as [mm|]; cbn; [|by case_bool_decide].
      destruct (decide (i = i')) as [->|Hne]; [by rewrite lookup_delete_eq, bool_decide_true|].
      by rewrite lookup_delete_ne, bool_decide_false by naive_solver.
  - rewrite bool_decide_false by naive_solver. unfold at_instance.
    by destruct b; [rewrite lookup_delete_ne|rewrite lookup_alter_ne].
Qed.
Lemma only_instance sv i p (m : services_t) : at_instance sv i m = Some p →
  bool_decide (1 >= Z.of_nat (size (default ∅ (m !! sv)))) = true → ∀ j q, at_instance sv j m = Some q → j = i.
Proof.
  unfold at_instance. intros Hp Hs%bool_decide_eq_true j q Hq. destruct (m !! sv) as [mm|]; [|done]. cbn in Hs.
  destruct (decide (j = i)) as [|Hne]; [done|]. exfalso.
  assert (size ({[i; j]} : gset Z) ≤ size (dom mm))%nat as Hle.
  { apply subseteq_size. intros x [->%elem_of_singleton| ->%elem_of_singleton]%elem_of_union; by apply elem_of_dom. }
  rewrite size_dom, size_union, !size_singleton in Hle by set_solver. lia.
Qed.

Lemma safe_create_service_info sv i major minor ttl b s : inv s → find_service_info sv i s = None →
  safe (create_service_info sv i major minor ttl b) (λ p s', is_Some (rv_infos s' !! p)) s.
Proof.
  intros Hi Hnone. set (p := fresh (dom (rv_infos s))).
  set (x := serviceinfo_new sv i major minor ttl b).
  assert (rv_infos s !! p = None) as Hp by (apply not_elem_of_dom, is_fresh).
  assert (remote_info sv i s = None) as Hrem.
  { destruct (remote_info sv i s) as [q|] eqn:E; [|done]. apply (inv_remote s Hi) in E. congruence. }
  set (s' := rv_set_services_remote (if b then services_remote_ s else put_service sv i p (services_remote_ s))
    (rv_set_services (put_service sv i p (services_ s)) (rv_set_infos (<[p := x]> (rv_infos s)) s))).
  exists p, s'. split_and!.
  - unfold create_service_info. st_run. fold p. by destruct b.
  - destruct Hi. unfold find_service_info, remote_info in *. constructor; cbn -[at_instance]; eauto.
    + intros sv' i' q. unfold find_service_info, remote_info. cbn -[at_instance]. rewrite at_put. case_bool_decide as Heq.
      * destruct Heq as [-> ->]. intros [= <-]. exists x. rewrite lookup_insert_eq. split_and!; try done.
        destruct b; cbn -[at_instance]; [done|]. rewrite at_put. by rewrite bool_decide_true.
      * intros Hq. destruct (inv_services0 _ _ _ Hq) as (y&Hy&H1&H2&H3). exists y.
        rewrite lookup_insert_ne by congruence. split_and!; try done.
        destruct b; [done|]. by rewrite at_put, bool_decide_false.
    + intros sv' i' q. unfold find_service_info, remote_info. cbn -[at_instance]. rewrite at_put. destruct b.
      * case_bool_decide as Heq; [destruct Heq as [-> ->]; congruence|]. eauto.
      * rewrite at_put. case_bool_decide; eauto.
    + intros q y r e. destruct (decide (p = q)) as [<-|Hne].
      * rewrite lookup_insert_eq. intros [= <-]. by destruct r.
      * rewrite lookup_insert_ne by done. eauto.
  - constructor; cbn; eauto.
  - cbn. rewrite lookup_insert_eq. eauto.
Qed.

Lemma safe_clear_service_info sv i r s : inv s → safe (clear_service_info sv i r) done_ s.
Proof.
  intros Hi. unfold clear_service_info. apply safe_read. destruct (find_service_info sv i s) as [p|] eqn:Ep; [|by apply safe_mret].
  destruct (inv_services s Hi sv i p Ep) as (x&Hx&H1&H2&H3).
  apply (safe_info p x); [done|]. destruct (si_get_endpoint _ x) as [e|]; [by apply safe_set_endpoint|].
  set (b := bool_decide _).
  assert (∀ m : services_t, m = services_ s ∨ m = services_remote_ s → ∀ sv' i', at_instance sv' i' (erase_service b sv i m)
    = if bool_decide (sv' = sv ∧ i' = i) then None else at_instance sv' i' m) as Her.
  { intros m Hm sv' i'. apply at_erase. intros Hb j q Hq. destruct Hm as [->| ->].
    - by apply (only_instance sv i p (services_ s) Ep Hb j q).
    - apply (inv_remote s Hi) in Hq. by apply (only_instance sv i p (services_ s) Ep Hb j q). }
  set (s' := rv_set_services_remote (if si_is_local_ x then services_remote_ s else erase_service b sv i (services_remote_ s))
    (rv_set_services (erase_service b sv i (services_ s)) s)).
  exists (), s'. split_and!; [by destruct (si_is_local_ x), s| |grows_same|done].
  destruct Hi. unfold find_service_info, remote_info in *. constructor; cbn -[at_instance]; eauto.
  - intros sv' i' q. unfold find_service_info, remote_info. cbn -[at_instance]. rewrite Her by auto. case_bool_decide as Heq; [done|].
    intros Hq. destruct (inv_services0 _ _ _ Hq) as (y&Hy&Hy1&Hy2&Hy3). exists y. split_and!; try done.
    destruct (si_is_local_ x); [done|]. rewrite Her by auto. by rewrite bool_decide_false.
  - intros sv' i' q. unfold find_service_info, remote_info. cbn -[at_instance]. rewrite (Her (services_ s)) by auto.
    destruct (si_is_local_ x).
    + case_bool_decide as Heq; [destruct Heq as [-> ->]; congruence|]. eauto.
    + rewrite Her by auto. case_bool_decide; eauto.
Qed.

(** All services speak SOME/IP, and the configured ranges of local ports end below the last
    port. *)
Class well_configured (env : rm_env) : Prop := {
  all_someip : ∀ sv i, is_someip env sv i = true;
  ranges_below : ∀ r, Forall (below_end r) (rm_clients env)
}.

Section safety.
  Context (env : rm_env) `{!well_configured env}.

Lemma safe_if (b : bool) m s : inv s → (b = true → safe m done_ s) → safe (if b then m else mret ()) done_ s.
Proof. intros Hi Hm. destruct b; [by apply Hm|by apply safe_mret]. Qed.
Lemma safe_ifn (b : bool) m s : inv s → (b = false → safe m done_ s) → safe (if b then mret () else m) done_ s.
Proof. intros Hi Hm. destruct b; [by apply safe_mret|by apply Hm]. Qed.

Lemma safe_server port reliable sv i b s : inv s →
  safe (find_or_create_server_endpoint env port reliable true sv i b)
    (λ x s', ∀ e, x.1 = Some e → ∃ y, rv_endpoints s' !! e = Some y ∧ ep_kind y = server_kind reliable true) s.
Proof.
  intros Hi. unfold find_or_create_server_endpoint. apply safe_read.
  eapply safe_then with (Q := λ x s', ∀ e, x.1 = Some e → server_endpoints_ s' !! (port, reliable) = Some e).
  { destruct (server_endpoints_ s !! _) as [e|] eqn:E.
    - apply safe_mret; [done|]. by intros e' [= <-].
    - eapply safe_then; [by apply safe_create_server|]. intros e s1 Hi1 _ He. by apply safe_mret. }
  intros [[e|] found] s1 Hi1 _ He; cbn in He.
  - specialize (He e eq_refl).
    eapply safe_then with (Q := λ _ s', server_endpoints_ s' !! (port, reliable) = Some e).
    + eapply safe_then with (Q := λ _ s', server_endpoints_ s' !! (port, reliable) = Some e).
      { destruct b; [by apply safe_mret|]. apply safe_modify; [inv_same|grows_same|done]. }
      intros [] s2 Hi2 _ He2.
      destruct (safe_upd_endpoint e (λ x, ep_set_use_count (u32 (ep_use_count_ x + 1)) x) s2 Hi2) as ([]&s3&E3&Hi3&Hg3&_); [done|].
      exists (), s3. split_and!; try done. injection E3 as <-. done.
    + intros [] s2 Hi2 _ He2. apply safe_mret; [done|]. intros e' [= <-]. by apply (inv_servers s2 Hi2 (port, reliable)).
  - eapply safe_then; [by apply (safe_mret () done_)|]. intros [] s2 Hi2 _ _. by apply safe_mret.
Qed.

Lemma safe_init sv i b s : inv s → safe (init_service_info env sv i b) done_ s.
Proof.
  intros Hi. unfold init_service_info. apply safe_read. destruct (find_service_info sv i s) as [p|]; [|by apply safe_mret].
  destruct b; [|by apply safe_mret]. rewrite all_someip. cbv zeta.
  assert (∀ port r s, inv s → safe
    (if bool_decide (ILLEGAL_PORT ≠ port) then
       '(e, _) ← find_or_create_server_endpoint env port r true sv i false;
       match e with Some _ => upd_info p (si_set_endpoint e r) | None => mret () end
     else mret ()) done_ s) as Htake.
  { intros port r s0 Hi0. apply safe_if; [done|]. intros _. eapply safe_then; [by apply safe_server|].
    intros [[e|] found] s1 Hi1 _ He; [|by apply safe_mret].
    destruct (He e eq_refl) as (y&Hy&_). apply safe_set_endpoint; [done|]. intros e' [= <-]. eauto. }
  eapply safe_then; [by apply Htake|]. intros [] s1 Hi1 _ _. by apply Htake.
Qed.

Lemma safe_get_definition a p r sv i s : inv s → safe (get_definition a p r sv i)
  (λ d s', ∃ x, r_endpoints (rv_routing s') !! d = Some x ∧ ed_address_ x = a ∧ ed_port_ x = p ∧ ed_is_reliable_ x = r) s.
Proof.
  intros Hi. unfold get_definition. apply safe_read. unfold endpoint_definition_get. cbn.
  destruct (rv_definitions s !! (sv, i, a, p, r)) as [d|] eqn:E.
  - eapply safe_then with (Q := λ _ s', ∃ x, r_endpoints (rv_routing s') !! d = Some x ∧ ed_address_ x = a ∧ ed_port_ x = p ∧ ed_is_reliable_ x = r).
    { apply safe_modify; cbn; [inv_same|grows_same|]. by eapply inv_definitions. }
    intros [] s1 Hi1 _ Hd. by apply safe_mret.
  - set (d := fresh _). set (x := endpoint_definition_new a p r).
    assert (r_endpoints (rv_routing s) !! d = None) as Hd by (apply not_elem_of_dom, is_fresh).
    eapply safe_then with (Q := λ _ s', ∃ x, r_endpoints (rv_routing s') !! d = Some x ∧ ed_address_ x = a ∧ ed_port_ x = p ∧ ed_is_reliable_ x = r).
    { apply safe_modify; [|grows_same; eauto|exists x; cbn; by rewrite lookup_insert_eq].
      destruct Hi. constructor; cbn; eauto. intros sv' i' a' p' r' d'.
      destruct (decide ((sv, i, a, p, r) = (sv', i', a', p', r'))) as [[= <- <- <- <- <-]|Hne].
      - rewrite lookup_insert_eq. intros [= <-]. exists x. by rewrite lookup_insert_eq.
      - rewrite lookup_insert_ne by done. intros Hk. destruct (inv_definitions0 _ _ _ _ _ _ Hk) as (y&Hy&?).
        exists y. by rewrite lookup_insert_ne by congruence. }
    intros [] s1 Hi1 _ Hd1. by apply safe_mret.
Qed.

Lemma safe_known_at sv i r a p s : inv s → safe (known_at sv i r a p) done_ s.
Proof.
  intros Hi. unfold known_at. apply safe_read. case_bool_decide; [|by apply safe_mret].
  destruct (remote_service_info_ s !! _) as [d|] eqn:E; [|by apply safe_mret].
  destruct (inv_service_info s Hi _ _ E) as [x Hx]. apply (safe_definition d x); [done|]. by apply safe_mret.
Qed.

Lemma safe_on_offer c sv i major minor s : inv s → safe (on_offer_service env c sv i major minor) done_ s.
Proof.
  intros Hi. unfold on_offer_service. eapply safe_then; [apply safe_if; [done|]; intros; by apply safe_rcall|]. intros [] s1 Hi1 _ _.
  eapply safe_then; [apply (safe_modify _ done_); [inv_same|grows_same|done]|]. intros [] s2 Hi2 _ _.
  eapply safe_then; [apply safe_if; [done|]; intros; by apply safe_rcall|]. intros [] s3 Hi3 _ _. by apply safe_rcall.
Qed.
Lemma safe_on_stop_offer c sv i major minor s : inv s → safe (on_stop_offer_service c sv i major minor) done_ s.
Proof.
  intros Hi. unfold on_stop_offer_service. apply safe_read. destruct (routing_info_ s !! _); [|by apply safe_mret].
  apply safe_if; [done|]. intros _.
  eapply safe_then; [apply (safe_modify _ done_); [inv_same|grows_same|done]|]. intros [] s2 Hi2 _ _. by apply safe_rcall.
Qed.

Lemma safe_register sv i e r s : inv s → is_Some (rv_endpoints s !! e) → safe (register_endpoint sv i e r) done_ s.
Proof.
  intros Hi He. unfold register_endpoint.
  eapply safe_then with (Q := λ _ s', is_Some (rv_endpoints s' !! e)).
  { apply safe_modify; [|grows_same|done]. destruct Hi. constructor; cbn; eauto. intros k e'.
    destruct (decide ((sv, i, r) = k)) as [<-|Hne]; [rewrite lookup_insert_eq; by intros [= <-]|].
    rewrite lookup_insert_ne by done. eauto. }
  intros [] s1 Hi1 _ He1. eapply safe_then with (Q := λ _ s', is_Some (rv_endpoints s' !! e)).
  { apply safe_modify; [inv_same|grows_same|done]. }
  intros [] s2 Hi2 _ He2. apply safe_read. destruct (find_service_info sv i s2) as [p|]; [|by apply safe_mret].
  apply safe_set_endpoint; [done|]. by intros e' [= <-].
Qed.

(** The endpoint that is found, if any, exists. *)
Definition exists_ep (e : option Z) (s : remote_services) : Prop := ∀ e', e = Some e' → is_Some (rv_endpoints s !! e').

Lemma exists_ep_grows e s s' : exists_ep e s → grows s s' → exists_ep e s'.
Proof. intros He Hg e' ->. apply (grows_endpoint s s' _ Hg). by apply He. Qed.

Lemma safe_find_remote_client sv i r s : inv s → safe (find_remote_client sv i r) exists_ep s.
Proof.
  intros Hi. unfold find_remote_client. apply safe_read. destruct (remote_services_ s !! _) as [e|] eqn:E.
  { apply safe_mret; [done|]. intros e' [= <-]. by eapply inv_remote_services. }
  destruct (remote_service_info_ s !! _) as [d|] eqn:Ed; [|by apply safe_mret].
  destruct (inv_service_info s Hi _ _ Ed) as [x Hx]. apply (safe_definition d x); [done|].
  destruct (client_endpoints_by_ip_ s !! _) as [e|] eqn:Ee; [|by apply safe_mret].
  assert (is_Some (rv_endpoints s !! e)) as He by (by eapply inv_by_ip).
  eapply safe_then; [by apply safe_register|]. intros [] s1 Hi1 Hg _. apply safe_mret; [done|].
  intros e' [= <-]. by apply (grows_endpoint s s1 _ Hg).
Qed.

Lemma safe_create_client a lp rp r s : inv s → safe (create_client_endpoint env a lp rp r) exists_ep s.
Proof.
  intros Hi. unfold create_client_endpoint. destruct (can_create_client _ _ _ _ _); [|by apply safe_mret].
  eapply safe_then; [by apply safe_new_endpoint|]. intros e s1 Hi1 _ He.
  eapply safe_then; [apply safe_if; [done|]; intros; by apply safe_rcall|]. intros [] s2 Hi2 Hg _.
  apply safe_mret; [done|]. intros e' [= <-]. apply (grows_endpoint s1 s2 _ Hg). eexists. exact He.
Qed.

Lemma safe_create_remote_client sv i r s : inv s → safe (create_remote_client env sv i r) exists_ep s.
Proof.
  intros Hi. unfold create_remote_client. apply safe_read. destruct (remote_service_info_ s !! _) as [d|] eqn:Ed; [|by apply safe_mret].
  destruct (inv_service_info s Hi _ _ Ed) as [x Hx]. apply (safe_definition d x); [done|].
  case_bool_decide; [|by apply safe_mret]. rewrite get_client_port_reference by apply ranges_below.
  apply (safe_then _ _ (λ _ _, True)); [by eexists _, s; split_and!|]. intros [lp|] s1 Hi1 _ _; [|by apply safe_mret].
  eapply safe_then; [by apply safe_create_client|]. intros [e|] s2 Hi2 _ He; [|by apply safe_mret].
  specialize (He e eq_refl). eapply safe_then with (Q := λ _ s', is_Some (rv_endpoints s' !! e)).
  { apply safe_modify; [inv_same|grows_same|done]. }
  intros [] s3 Hi3 _ He3. eapply safe_then with (Q := λ _ s', is_Some (rv_endpoints s' !! e)).
  { apply safe_modify; [|grows_same|done]. destruct Hi3. constructor; cbn; eauto. intros k e'.
    destruct (decide ((ed_address_ x, ed_port_ x, r) = k)) as [<-|Hne]; [rewrite lookup_insert_eq; by intros [= <-]|].
    rewrite lookup_insert_ne by done. eauto. }
  intros [] s4 Hi4 _ He4. eapply safe_then; [by apply safe_register|]. intros [] s5 Hi5 Hg _. apply safe_mret; [done|].
  intros e' [= <-]. by apply (grows_endpoint s4 s5 _ Hg).
Qed.

Lemma safe_find_or_create sv i r s : inv s → safe (find_or_create_client env sv i r) exists_ep s.
Proof.
  intros Hi. unfold find_or_create_client. eapply safe_then; [by apply safe_find_remote_client|].
  intros [e|] s1 Hi1 _ _; [by apply safe_mret|]. by apply safe_create_remote_client.
Qed.
Lemma safe_start sv i e s : inv s → safe (start_endpoint env sv i e) done_ s.
Proof. intros Hi. unfold start_endpoint. destruct e; [|by apply safe_mret]. apply safe_if; [done|]. intros. by apply safe_rcall. Qed.
Lemma safe_remote_client sv i r s : inv s → safe (find_or_create_remote_client env sv i r) done_ s.
Proof.
  intros Hi. unfold find_or_create_remote_client. eapply safe_then; [by apply safe_find_or_create|].
  intros e s1 Hi1 _ _. by apply safe_start.
Qed.
Lemma safe_remote_clients sv i s : inv s → safe (find_or_create_remote_clients env sv i) done_ s.
Proof.
  intros Hi. unfold find_or_create_remote_clients. eapply safe_then; [by apply safe_find_or_create|].
  intros e1 s1 Hi1 _ _. eapply safe_then; [by apply safe_find_or_create|]. intros e2 s2 Hi2 _ _.
  eapply safe_then; [by apply safe_start|]. intros [] s3 Hi3 _ _. by apply safe_start.
Qed.

Lemma safe_clear_client_endpoints sv i r s : inv s → safe (clear_client_endpoints env sv i r) done_ s.
Proof.
  intros Hi. unfold clear_client_endpoints. apply safe_read. destruct (remote_services_ s !! _) as [e|] eqn:E; [|by apply safe_mret].
  assert (is_Some (rv_endpoints s !! e)) as [x Hx] by (by eapply inv_remote_services).
  eapply safe_then with (Q := λ _ s', rv_endpoints s' !! e = Some x).
  { apply safe_modify; [inv_same|grows_same|done]. }
  intros [] s1 Hi1 _ Hx1. eapply safe_then with (Q := λ _ s', rv_endpoints s' !! e = Some x).
  { apply safe_modify; [|grows_same|done]. destruct Hi1. constructor; cbn; eauto.
    intros k e' [_ ?]%lookup_delete_Some. eauto. }
  intros [] s2 Hi2 _ Hx2. apply safe_read. apply safe_ifn; [done|]. intros _. apply (safe_endpoint e x); [done|].
  eapply safe_then; [|intros [] s3 Hi3 _ _; by apply safe_rcall]. apply safe_if; [done|]. intros _.
  apply safe_modify; [|grows_same|done]. destruct Hi2. constructor; cbn; eauto. intros k e' [_ ?]%lookup_delete_Some. eauto.
Qed.
Lemma safe_clear_remote_service_info sv i r s : inv s → safe (clear_remote_service_info sv i r) done_ s.
Proof.
  intros Hi. apply safe_modify; [|grows_same|done]. destruct Hi. constructor; cbn; eauto.
  intros k d [_ ?]%lookup_delete_Some. eauto.
Qed.

(** ** Multicast *)

Lemma safe_multicast sv i sender a port s : inv s → safe (find_or_create_multicast_endpoint env sv i sender a port) done_ s.
Proof.
  intros Hi. unfold find_or_create_multicast_endpoint. apply safe_read.
  apply (safe_then _ _ (λ _ _, True)).
  { destruct (multicast_info_ s !! _) as [d|] eqn:E; [|by apply safe_mret].
    destruct (inv_multicast s Hi _ _ E) as [x Hx]. apply (safe_definition d x); [done|]. by apply safe_mret. }
  intros known s1 Hi1 _ _. rewrite all_someip. eapply safe_then; [by apply safe_server|].
  intros [e found] s2 Hi2 _ He. cbn in He.
  eapply safe_then.
  { apply safe_ifn; [done|]. intros _. eapply safe_then; [by apply safe_get_definition|]. intros d s3 Hi3 _ (x&Hx&_).
    apply safe_modify; [|grows_same|done]. destruct Hi3. constructor; cbn; eauto. intros k d'.
    destruct (decide ((sv, i) = k)) as [<-|Hne]; [rewrite lookup_insert_eq; by intros [= <-]|].
    rewrite lookup_insert_ne by done. eauto. }
  intros [] s3 Hi3 Hg3 _. destruct e as [e|]; [|by apply safe_mret].
  destruct (He e eq_refl) as (y&Hy&Hk). destruct (grows_endpoints s2 s3 Hg3 e y Hy) as (z&Hz&Hkz).
  eapply safe_then with (Q := λ _ s', rv_endpoints s' !! e = Some z).
  { destruct known; [by apply safe_mret|]. apply safe_modify; [inv_same|grows_same|done]. }
  intros [] s4 Hi4 _ Hz4. apply (safe_endpoint e z); [done|].
  rewrite bool_decide_true by congruence. by apply safe_rcall.
Qed.

Lemma safe_remove_instance_multicast sv i s : inv s → safe (remove_instance_multicast sv i) done_ s.
Proof.
  intros Hi. unfold remove_instance_multicast. apply safe_read. destruct (service_instances_multicast_ s !! sv) as [m|]; [|by apply safe_mret].
  destruct (head _); [|by apply safe_mret]. apply safe_modify; [inv_same|grows_same|done].
Qed.
Lemma safe_clear_multicast sv i s : inv s → safe (clear_multicast_endpoints sv i) done_ s.
Proof.
  intros Hi. unfold clear_multicast_endpoints. apply safe_read. destruct (multicast_info_ s !! _) as [d|] eqn:E; [|by apply safe_mret].
  destruct (inv_multicast s Hi _ _ E) as [x Hx]. apply (safe_definition d x); [done|].
  eapply safe_then; [apply (safe_modify _ done_); [|grows_same|done]|].
  { destruct Hi. constructor; cbn; eauto. intros k e [_ ?]%lookup_delete_Some. eauto. }
  intros [] s1 Hi1 Hg1 _. eapply safe_then; [apply (safe_modify _ done_); [|grows_same|done]|].
  { destruct Hi1. constructor; cbn; eauto. intros k e [_ ?]%lookup_delete_Some. eauto. }
  intros [] s2 Hi2 Hg2 _. eapply safe_then; [by apply safe_remove_instance_multicast|]. intros [] s3 Hi3 Hg3 _.
  destruct (server_endpoints_ s !! _) as [e|] eqn:Ee; [|by apply safe_mret].
  destruct (inv_servers s Hi _ _ Ee) as (y&Hy&Hk).
  assert (grows s s3) as Hg by (trans s1; [done|by trans s2]).
  destruct (grows_endpoints s s3 Hg e y Hy) as (z&Hz&Hkz). apply (safe_endpoint e z); [done|].
  rewrite bool_decide_true by (by rewrite Hkz, Hk).
  eapply safe_then; [by apply safe_rcall|]. intros [] s4 Hi4 _ _. by apply safe_rcall.
Qed.

(** ** Reports and connections *)

Lemma safe_connected sv i major minor e b s : inv s → safe (service_endpoint_connected env sv i major minor e b) done_ s.
Proof.
  intros Hi. unfold service_endpoint_connected. eapply safe_then; [|intros [] s1 Hi1 _ _; by apply safe_rcall].
  apply safe_ifn; [done|]. intros _. eapply safe_then; [by apply safe_rcall|]. intros [] s1 Hi1 _ _. by apply safe_on_offer.
Qed.
Lemma safe_call_sd_connected sv i e b s : inv s → safe (call_sd_endpoint_connected env sv i e b) done_ s.
Proof.
  intros Hi. unfold call_sd_endpoint_connected. eapply safe_then; [apply safe_upd_endpoint; [done|]|].
  { intros x. unfold set_established. by destruct (_ && _). }
  intros [] s1 Hi1 _ _. apply safe_if; [done|]. intros. by apply safe_rcall.
Qed.

Lemma safe_report sv i es s : inv s → is_Some (find_service_info sv i s) → safe (report_connected env sv i es) done_ s.
Proof.
  intros Hi [p Hp]. destruct (inv_services s Hi sv i p Hp) as (x&Hx&_). unfold report_connected. apply safe_read. rewrite Hp.
  apply (safe_then _ _ (λ q s', q = p ∧ s' = s)); [by exists p, s|]. intros q s1 _ _ [-> ->]. apply (safe_info p x); [done|].
  apply safe_for_each; [done|]. intros e s2 _ Hi2 _. by apply safe_connected.
Qed.
Lemma safe_usable e s : inv s → exists_ep e s → safe (usable e) (λ _ s', s' = s) s.
Proof.
  intros Hi He. unfold usable. destruct e as [e|]; [|by apply safe_mret].
  destruct (He e eq_refl) as [x Hx]. apply (safe_endpoint e x); [done|]. by apply safe_mret.
Qed.

(** A call that keeps the maps leaves the service known. *)
Lemma safe_keeps {A} (m : ST remote_services A) Q s : safe m Q s → keeps service_maps m →
  safe m (λ a s', Q a s' ∧ service_maps s' = service_maps s) s.
Proof. intros (a&s1&E&?&?&?) Hk. exists a, s1. split_and!; try done. by eapply Hk. Qed.
Lemma maps_find s s' sv i : service_maps s' = service_maps s → find_service_info sv i s' = find_service_info sv i s.
Proof. unfold service_maps, find_service_info. by intros [= -> _]. Qed.

Lemma safe_put_service_info sv i r d s : inv s → is_Some (r_endpoints (rv_routing s) !! d) →
  inv (rv_set_service_info (<[(sv, i, r) := d]> (remote_service_info_ s)) s).
Proof.
  intros Hi Hd. destruct Hi. constructor; cbn; eauto. intros k d'.
  destruct (decide ((sv, i, r) = k)) as [<-|Hne]; [rewrite lookup_insert_eq; by intros [= <-]|].
  rewrite lookup_insert_ne by done. eauto.
Qed.

Lemma safe_add_remote_service_info sv i d s : inv s → is_Some (r_endpoints (rv_routing s) !! d) →
  is_Some (find_service_info sv i s) → safe (add_remote_service_info env sv i d) done_ s.
Proof.
  intros Hi [x Hx] Hf. unfold add_remote_service_info. apply (safe_definition d x); [done|].
  eapply safe_then with (Q := λ _ s', is_Some (find_service_info sv i s')).
  { apply safe_modify; [apply safe_put_service_info; [done|by eexists]|grows_same|done]. }
  intros [] s1 Hi1 _ Hf1. destruct (ed_is_reliable_ x); [|by apply safe_mret].
  eapply safe_then; [apply safe_keeps; [by apply safe_find_remote_client|eauto with keeps]|].
  intros e s2 Hi2 _ [He Hm]. eapply safe_then; [by apply safe_usable|]. intros b s3 _ _ ->. apply safe_if; [done|]. intros _.
  apply safe_report; [done|]. by rewrite (maps_find s1 s2).
Qed.
Lemma safe_add_remote_service_infos sv i d1 d2 s : inv s → is_Some (r_endpoints (rv_routing s) !! d1) →
  is_Some (r_endpoints (rv_routing s) !! d2) →
  is_Some (find_service_info sv i s) → safe (add_remote_service_infos env sv i d1 d2) done_ s.
Proof.
  intros Hi H1 H2 Hf. unfold add_remote_service_infos.
  eapply safe_then with (Q := λ _ s', is_Some (find_service_info sv i s')).
  { apply safe_modify; [|grows_same|done].
    exact (safe_put_service_info sv i true d1 _ (safe_put_service_info sv i false d2 s Hi H2) H1). }
  intros [] s1 Hi1 _ Hf1.
  eapply safe_then; [apply safe_keeps; [by apply safe_find_remote_client|eauto with keeps]|].
  intros e2 s2 Hi2 _ [He2 Hm2].
  eapply safe_then; [apply safe_keeps; [by apply safe_find_remote_client|eauto with keeps]|].
  intros e3 s3 Hi3 Hg3 [He3 Hm3]. apply (safe_then _ _ (λ _ s', s' = s3)).
  { unfold st_andb. eapply safe_then; [apply safe_usable; [done|by eapply exists_ep_grows]|]. intros [] s4 _ _ ->.
    - by apply safe_usable.
    - by apply safe_mret. }
  intros b s4 _ _ ->. apply safe_if; [done|]. intros _. apply safe_report; [done|].
  by rewrite (maps_find s2 s3), (maps_find s1 s2).
Qed.

Lemma safe_services_to_report e r l acc s : inv s → safe (services_to_report e r l acc) done_ s.
Proof.
  revert acc s. induction l as [|[sv i] l IH]; intros acc s Hi; cbn [services_to_report]; [by apply safe_mret|].
  apply safe_read. destruct (find_service_info sv i s) as [p|] eqn:Ep; [|by apply safe_mret].
  destruct (inv_services s Hi sv i p Ep) as (x&Hx&_). apply (safe_info p x); [done|].
  eapply safe_then; [apply safe_usable; [done|intros e' He'; by eapply inv_info_endpoints]|].
  intros b s1 _ _ ->. by apply IH.
Qed.
Lemma safe_on_connect e b s : inv s → is_Some (rv_endpoints s !! e) → safe (on_connect env e b) done_ s.
Proof.
  intros Hi He. unfold on_connect. eapply safe_then; [apply safe_upd_endpoint; [done|]|].
  { intros x. unfold set_connected. by destruct (is_client x). }
  intros [] s1 Hi1 Hg1 _. destruct (grows_endpoint s s1 e Hg1 He) as [x Hx]. apply (safe_endpoint e x); [done|].
  apply safe_read. eapply safe_then; [by apply safe_services_to_report|].
  assert (∀ x, ep_kind (set_established b x) = ep_kind x) as Hk by (intros y; unfold set_established; by destruct (_ && _)).
  intros [l|] s2 Hi2 _ _; [|by apply safe_upd_endpoint].
  eapply safe_then; [apply safe_for_each; [done|]; intros [[[[sv i] major] minor] u] s3 _ Hi3 _; by apply safe_connected|].
  intros [] s3 Hi3 _ _. destruct l; [by apply safe_upd_endpoint|by apply safe_mret].
Qed.
Lemma safe_report_disconnected r l s : inv s → safe (report_disconnected r l) done_ s.
Proof.
  revert s. induction l as [|[sv i] l IH]; intros s Hi; cbn [report_disconnected]; [by apply safe_mret|].
  apply safe_read. destruct (find_service_info sv i s) as [p|] eqn:Ep; [|by apply safe_mret].
  destruct (inv_services s Hi sv i p Ep) as (x&Hx&_). apply (safe_info p x); [done|].
  eapply safe_then; [apply safe_ifn; [done|]; intros; by apply safe_rcall|]. intros [] s1 Hi1 _ _.
  eapply safe_then; [|intros [] s2 Hi2 _ _; by apply IH]. unfold service_endpoint_disconnected.
  eapply safe_then; [by apply safe_rcall|]. intros [] s2 Hi2 _ _. by apply safe_on_stop_offer.
Qed.
Lemma safe_on_disconnect e s : inv s → is_Some (rv_endpoints s !! e) → safe (on_disconnect e) done_ s.
Proof.
  intros Hi [x Hx]. unfold on_disconnect. apply (safe_endpoint e x); [done|]. apply safe_read. by apply safe_report_disconnected.
Qed.

(** ** Offers *)

Lemma safe_connect_requesters p m b l s : inv s → (∀ s', inv s' → grows s s' → safe m done_ s') →
  safe (connect_requesters p m b l) done_ s.
Proof.
  revert b s. induction l as [|c l IH]; intros b s Hi Hm; cbn [connect_requesters]; [by apply safe_mret|].
  eapply safe_then; [apply safe_ifn; [done|]; intros _; by apply Hm|]. intros [] s1 Hi1 Hg1 _.
  eapply safe_then; [apply safe_upd_info; [done|by intros x|]|].
  { intros x r e Hx He. by apply (inv_info_endpoints s1 Hi1 p x r). }
  intros [] s2 Hi2 Hg2 _. apply IH; [done|]. intros s3 Hi3 Hg3. apply Hm; [done|]. trans s1; [done|]. by trans s2.
Qed.

Lemma safe_established e s : inv s → exists_ep e s → safe (established e) (λ _ s', s' = s) s.
Proof.
  intros Hi He. unfold established. destruct e as [e|]; [|by apply safe_mret].
  destruct (He e eq_refl) as [x Hx]. apply (safe_endpoint e x); [done|]. by apply safe_mret.
Qed.
Lemma safe_tell sv i e s : inv s → exists_ep e s → safe (tell_discovery env sv i e) done_ s.
Proof.
  intros Hi He. unfold tell_discovery. apply safe_if; [done|]. intros _. eapply safe_then; [by apply safe_established|].
  intros b s1 _ _ ->. destruct e as [e|]; [|by apply safe_mret]. apply safe_if; [done|]. intros. by apply safe_rcall.
Qed.
Lemma safe_announce sv i major minor s : inv s → safe (announce env sv i major minor) done_ s.
Proof. intros Hi. unfold announce. eapply safe_then; [by apply safe_rcall|]. intros [] s1 Hi1 _ _. by apply safe_on_offer. Qed.
Lemma safe_announce_again sv i p r c s : inv s → is_Some (rv_infos s !! p) → safe (announce_again env sv i p r c) done_ s.
Proof.
  intros Hi [x Hx]. unfold announce_again. apply (safe_info p x); [done|]. cbv zeta.
  assert (exists_ep (si_get_endpoint r x) s) as He by (intros e' He'; by eapply inv_info_endpoints).
  apply (safe_then _ _ (λ _ s', s' = s)); [destruct r; [by apply safe_established|by apply safe_mret]|].
  intros b s1 _ _ ->. apply safe_read. apply safe_if; [done|]. intros _.
  eapply safe_then; [by apply safe_announce|]. intros [] s1 Hi1 Hg1 _. apply safe_tell; [done|]. by eapply exists_ep_grows.
Qed.

(** The info that an offer works with exists and is the one of its service. *)
Lemma safe_info_of_offer sv i major minor ttl ra rp ua up s : inv s →
  safe (info_of_offer env sv i major minor ttl ra rp ua up)
    (λ p s', ∀ p', p = Some p' → is_Some (rv_infos s' !! p') ∧ find_service_info sv i s' = Some p') s.
Proof.
  intros Hi. unfold info_of_offer. apply safe_read. destruct (find_service_info sv i s) as [p|] eqn:Ep.
  - destruct (inv_services s Hi sv i p Ep) as (x&Hx&_). apply (safe_info p x); [done|].
    destruct (si_is_local_ x); [by apply safe_mret|].
    eapply safe_then; [apply safe_keeps; [apply safe_upd_info|apply keeps_upd_info]; [done|by intros y|]|].
    { intros y r e Hy He. by apply (inv_info_endpoints s Hi p y r). }
    intros [] s1 Hi1 Hg1 [_ Hm]. apply safe_mret; [done|]. intros p' [= <-]. split.
    + apply (grows_infos s s1 Hg1). by eexists.
    + by rewrite (maps_find s s1).
  - cbv zeta. set (b := _ || _). eapply safe_then with (Q := λ p s', is_Some (rv_infos s' !! p) ∧ find_service_info sv i s' = Some p).
    { destruct (safe_create_service_info sv i major minor ttl b s Hi Ep) as (p&s1&E&Hi1&Hg1&Hp). exists p, s1. split_and!; try done.
      revert E. unfold create_service_info. st_run. destruct b; intros [= <- <-]; unfold find_service_info; cbn;
        by rewrite at_put, bool_decide_true. }
    intros p s1 Hi1 _ [Hp Hf]. eapply safe_then; [apply safe_keeps; [by apply safe_init|]|].
    { unfold init_service_info, find_or_create_server_endpoint, create_server_endpoint, new_endpoint. keeps_solve. }
    intros [] s2 Hi2 Hg2 [_ Hm]. apply safe_mret; [done|]. intros p' [= <-]. split.
    + by apply (grows_infos s1 s2 Hg2).
    + by rewrite (maps_find s1 s2).
Qed.

Lemma safe_add_reliable sv i major minor ra rp ua up p k1 k2 s : inv s → is_Some (rv_infos s !! p) →
  is_Some (find_service_info sv i s) →
  safe (add_reliable env sv i major minor ra rp ua up p k1 k2) done_ s.
Proof.
  intros Hi Hp Hf. unfold add_reliable. destruct (_ && _).
  - eapply safe_then; [apply safe_keeps; [by apply safe_get_definition|auto with keeps]|]. intros d1 s1 Hi1 Hg1 [(x1&Hx1&_) Hm1].
    assert (is_Some (find_service_info sv i s1)) as Hf1 by (by rewrite (maps_find s s1)).
    cbv zeta. eapply safe_then with (Q := done_).
    { destruct (_ && _).
      - eapply safe_then; [apply safe_keeps; [by apply safe_get_definition|auto with keeps]|]. intros d2 s2 Hi2 Hg2 [(x2&Hx2&_) Hm2].
        apply safe_add_remote_service_infos; [done| | |by rewrite (maps_find s1 s2)]; [|by eexists].
        apply (grows_definitions s1 s2 Hg2). by eexists.
      - apply safe_add_remote_service_info; [done|by eexists|done]. }
    intros [] s2 Hi2 _ _. apply safe_read. eapply safe_then; [apply safe_connect_requesters; [done|]|].
    { intros s3 Hi3 _. destruct (_ && _); [by apply safe_remote_clients|by apply safe_remote_client]. }
    intros [] s3 Hi3 _ _. by apply safe_mret.
  - destruct (_ && _); [|by apply safe_mret]. apply safe_read. eapply safe_then; [apply safe_for_each; [done|]|].
    { intros c s1 _ Hi1 Hg1. apply safe_announce_again; [done|]. by apply (grows_infos s s1 Hg1). }
    intros [] s1 Hi1 _ _. by apply safe_mret.
Qed.

Lemma safe_add_unreliable sv i major minor ua up p k1 k2 u t s : inv s → is_Some (rv_infos s !! p) →
  is_Some (find_service_info sv i s) →
  safe (add_unreliable env sv i major minor ua up p k1 k2 u t) done_ s.
Proof.
  intros Hi Hp Hf. unfold add_unreliable. destruct (_ && _).
  - eapply safe_then with (Q := done_).
    { apply safe_ifn; [done|]. intros _.
      eapply safe_then; [apply safe_keeps; [by apply safe_get_definition|auto with keeps]|]. intros d1 s1 Hi1 Hg1 [(x1&Hx1&_) Hm1].
      eapply safe_then; [apply safe_add_remote_service_info; [done|by eexists|by rewrite (maps_find s s1)]|].
      intros [] s2 Hi2 _ _. apply safe_read. apply safe_connect_requesters; [done|]. intros s3 Hi3 _. by apply safe_remote_client. }
    intros [] s1 Hi1 Hg1 _. eapply safe_then; [apply safe_if; [done|]; intros; by apply safe_announce|]. intros [] s2 Hi2 Hg2 _.
    destruct (grows_infos s1 s2 Hg2 p) as [x Hx]; [by apply (grows_infos s s1 Hg1)|]. apply (safe_info p x); [done|].
    apply safe_tell; [done|]. intros e' He'. by eapply inv_info_endpoints.
  - destruct (_ && _); [|by apply safe_mret]. apply safe_read. apply safe_for_each; [done|].
    intros c s1 _ Hi1 Hg1. apply safe_announce_again; [done|]. by apply (grows_infos s s1 Hg1).
Qed.

Lemma safe_add_routing_info sv i major minor ttl ra rp ua up s : inv s →
  safe (add_routing_info env sv i major minor ttl ra rp ua up) done_ s.
Proof.
  intros Hi. unfold add_routing_info. eapply safe_then; [by apply safe_info_of_offer|].
  intros [p|] s1 Hi1 _ Hp; [|by apply safe_mret]. destruct (Hp p eq_refl) as [Hp1 Hf1]. clear Hp.
  apply (safe_then _ _ (λ _ s', is_Some (rv_infos s' !! p) ∧ is_Some (find_service_info sv i s'))).
  { unfold is_remote_service_known. eapply safe_then; [apply safe_keeps; [by apply safe_known_at|auto with keeps]|].
    intros k1 s2 Hi2 Hg2 [_ Hm2]. eapply safe_then; [apply safe_keeps; [by apply safe_known_at|auto with keeps]|].
    intros k2 s3 Hi3 Hg3 [_ Hm3]. apply safe_mret; [done|]. split.
    - by apply (grows_infos s2 s3 Hg3), (grows_infos s1 s2 Hg2).
    - rewrite (maps_find s2 s3), (maps_find s1 s2) by done. by eexists. }
  intros [k1 k2] s2 Hi2 Hg2 [Hp2 Hf2].
  eapply safe_then; [apply safe_keeps; [by apply safe_add_reliable|auto with keeps]|]. intros [u t] s3 Hi3 Hg3 [_ Hm3].
  apply safe_add_unreliable; [done|by apply (grows_infos s2 s3 Hg3)|by rewrite (maps_find s2 s3)].
Qed.

(** ** The end of a service *)

Definition same_objects (r r' : routing) : Prop :=
  r_groups r' = r_groups r ∧ r_eventgroups_ r' = r_eventgroups_ r ∧ r_endpoints r' = r_endpoints r ∧
  ∀ e, is_Some (r_events r !! e) → is_Some (r_events r' !! e).
Lemma safe_in_routing {A} (m : ST routing A) (Q : A → routing → Prop) s : inv s →
  (∃ a r', m (rv_routing s) = Ret (a, r') ∧ same_objects (rv_routing s) r' ∧ Q a r') →
  safe (in_routing m) (λ a s', Q a (rv_routing s')) s.
Proof.
  intros Hi (a&r'&E&(H1&H2&H3&H4)&Hq). exists a, (rv_set_routing r' s). split_and!.
  - unfold in_routing. st_run. by rewrite E.
  - destruct Hi. constructor; cbn; rewrite ?H1, ?H2, ?H3; eauto.
  - constructor; cbn; rewrite ?H1, ?H2, ?H3; eauto.
  - done.
Qed.

Lemma upd_event_same e g r : same_objects r (r_with_events (alter g e (r_events r)) r).
Proof. split_and!; try done. cbn. auto. Qed.
Lemma drop_subscribers_total g e r : is_Some (r_events r !! e) →
  ∃ r', drop_subscribers env g e r = Ret ((), r') ∧ same_objects r r'.
Proof.
  intros [x Hx]. unfold drop_subscribers. rewrite (st_bind_Ret _ _ _ x r); [|unfold the_event; st_run; by rewrite Hx].
  generalize (client_list (get_subscribers x)). intros l. clear Hx. revert r.
  induction l as [|c l IH]; intros r; cbn [for_each]; [by exists r; split_and!|].
  case_bool_decide.
  - destruct (IH (r_with_events (alter (remove_subscriber g c) e (r_events r)) r)) as (r'&E&H1&H2&H3&H4).
    exists r'. split; [done|]. split_and!; try done. intros e' He'. apply H4. cbn. auto.
  - apply IH.
Qed.
Lemma safe_drop_event sv i g e s : inv s → is_Some (r_events (rv_routing s) !! e) → safe (drop_event env sv i g e) done_ s.
Proof.
  intros Hi He. unfold drop_event. eapply safe_then.
  { apply (safe_in_routing _ (λ _ r', is_Some (r_events r' !! e))); [done|].
    destruct (drop_subscribers_total g e (rv_routing s) He) as (r'&E&Hs). exists (), r'. split_and!; try done. by apply Hs. }
  intros [] s1 Hi1 _ [x Hx]. eapply safe_then; [apply (safe_in_routing _ (λ _ _, True)); [done|]|].
  { exists x, (rv_routing s1). unfold the_event. st_run. by rewrite Hx. }
  intros y s2 Hi2 _ _. by apply safe_rcall.
Qed.
Lemma eventgroups_of_elem sv i r g : g ∈ eventgroups_of sv i r → ∃ k, r_eventgroups_ r !! k = Some g.2.
Proof.
  unfold eventgroups_of, ordered. rewrite merge_sort_Permutation. destruct g as [n g].
  rewrite elem_of_map_to_list. intros Hl%elem_of_list_to_map_2. apply list_elem_of_omap in Hl as ([k g']&Hk&E).
  apply elem_of_map_to_list in Hk. case_bool_decide; [|done]. injection E as <- <-. eauto.
Qed.
Lemma safe_drop_eventgroup sv i g s : inv s → is_Some (r_groups (rv_routing s) !! g.2) → safe (drop_eventgroup env sv i g) done_ s.
Proof.
  intros Hi [x Hx]. unfold drop_eventgroup.
  eapply safe_then; [apply (safe_in_routing _ (λ y _, y = x)); [done|]|].
  { exists x, (rv_routing s). unfold the_group. st_run. by rewrite Hx. }
  intros y s1 Hi1 Hg1 ->. apply safe_for_each; [done|]. intros e s2 He%elem_of_elements Hi2 Hg2. apply safe_drop_event; [done|].
  apply (grows_events s1 s2 Hg2), (grows_events s s1 Hg1). by apply (inv_events s Hi g.2 x).
Qed.

Lemma unset_total e r : is_Some (r_events r !! e) →
  ∃ r', on_event_at e (unset_payload true) r = Ret ((), r') ∧ same_objects r r'.
Proof.
  intros [x Hx]. eexists. unfold on_event_at. rewrite (st_bind_Ret _ _ _ x r); [|unfold the_event; st_run; by rewrite Hx].
  st_run. rewrite unset_payload_eq. split; [done|]. split_and!; try done. cbn. auto.
Qed.
Lemma events_of_elem sv i r e : e ∈ events_of sv i r → ∃ k g x, r_eventgroups_ r !! k = Some g ∧ r_groups r !! g = Some x ∧ e ∈ eg_events_ x.
Proof.
  unfold events_of. rewrite list_elem_of_join. intros (l&He&Hl). apply list_elem_of_fmap in Hl as (g&->&Hg).
  destruct (eventgroups_of_elem _ _ _ _ Hg) as [k Hk]. destruct (r_groups r !! g.2) as [x|] eqn:Ex; [|by apply not_elem_of_nil in He].
  exists k, g.2, x. split_and!; try done. by apply elem_of_elements.
Qed.
Lemma safe_implicit_unsubscribe sv i s : inv s → safe (implicit_unsubscribe env sv i) done_ s.
Proof.
  intros Hi. unfold implicit_unsubscribe. apply safe_read. cbv zeta.
  eapply safe_then; [apply safe_for_each; [done|]|].
  { intros g s1 Hg Hi1 Hg1. destruct (eventgroups_of_elem _ _ _ _ Hg) as [k Hk]. apply safe_drop_eventgroup; [done|].
    rewrite (grows_groups s s1 Hg1). by eapply inv_groups. }
  intros [] s1 Hi1 Hg1 _. eapply safe_then; [apply safe_for_each; [done|]|].
  { intros e s2 He Hi2 Hg2. destruct (events_of_elem _ _ _ _ He) as (k&g&x&Hk&Hx&Hex).
    eapply safe_weaken; [apply (safe_in_routing _ (λ _ _, True)); [done|]|done].
    destruct (unset_total e (rv_routing s2)) as (r'&E&Hs); [|by exists (), r'].
    apply (grows_events s1 s2 Hg2), (grows_events s s1 Hg1). by apply (inv_events s Hi g x). }
  intros [] s2 Hi2 _ _. eapply safe_then; [apply (safe_modify _ done_); [inv_same|grows_same|done]|].
  intros [] s3 Hi3 _ _. apply safe_modify; [inv_same|grows_same|done].
Qed.

Lemma safe_clear_endpoint sv i r s : inv s → safe (clear_endpoint env sv i r) done_ s.
Proof.
  intros Hi. unfold clear_endpoint. eapply safe_then; [by apply safe_clear_client_endpoints|].
  intros [] s1 Hi1 _ _. by apply safe_clear_remote_service_info.
Qed.
Lemma safe_del_routing_info sv i hr hu s : inv s → safe (del_routing_info env sv i hr hu) done_ s.
Proof.
  intros Hi. unfold del_routing_info. apply safe_read. destruct (find_service_info sv i s) as [p|] eqn:Ep; [|by apply safe_mret].
  destruct (inv_services s Hi sv i p Ep) as (x&Hx&_). apply (safe_info p x); [done|].
  eapply safe_then; [by apply safe_rcall|]. intros [] s1 Hi1 _ _.
  eapply safe_then; [by apply safe_on_stop_offer|]. intros [] s2 Hi2 _ _.
  eapply safe_then; [by apply safe_implicit_unsubscribe|]. intros [] s3 Hi3 _ _.
  eapply safe_then; [apply safe_if; [done|]; intros; by apply safe_clear_endpoint|]. intros [] s4 Hi4 _ _.
  eapply safe_then; [apply safe_if; [done|]; intros; by apply safe_clear_endpoint|]. intros [] s5 Hi5 _ _.
  eapply safe_then; [by apply safe_clear_multicast|]. intros [] s6 Hi6 _ _.
  eapply safe_then; [apply safe_if; [done|]; intros; by apply safe_clear_service_info|]. intros [] s7 Hi7 _ _.
  eapply safe_then; [apply safe_if; [done|]; intros; by apply safe_clear_service_info|]. intros [] s8 Hi8 _ _.
  apply safe_if; [done|]. intros _.
  eapply safe_then; [by apply safe_clear_remote_service_info|]. intros [] s9 Hi9 _ _.
  eapply safe_then; [by apply safe_clear_remote_service_info|]. intros [] s10 Hi10 _ _.
  eapply safe_then; [by apply safe_clear_service_info|]. intros [] s11 Hi11 _ _. by apply safe_clear_service_info.
Qed.

(** ** Expiry *)

Lemma items_known s x : inv s → x ∈ items (services_remote_ s) → is_Some (rv_infos s !! x.2).
Proof.
  intros Hi Hx. destruct x as [[sv i] p]. apply elem_of_items in Hx.
  assert (remote_info sv i s = Some p) as Hr by (unfold remote_info, at_instance; by destruct (services_remote_ s !! sv)).
  apply (inv_remote s Hi) in Hr. destruct (inv_services s Hi sv i p Hr) as (y&Hy&_). by eexists.
Qed.

Lemma safe_age_services t l s : inv s → (∀ x, x ∈ l → is_Some (rv_infos s !! x.2)) → safe (age_services t l) done_ s.
Proof.
  revert s. induction l as [|x l IH]; intros s Hi Hl; cbn [age_services]; [by apply safe_mret|].
  destruct (Hl x) as [y Hy]; [left|]. apply (safe_info x.2 y); [done|].
  eapply safe_then; [apply safe_upd_info; [done| |]|].
  { intros z. unfold age. by repeat case_match. }
  { intros z r e Hz He. apply (inv_info_endpoints s Hi x.2 z r e Hz). revert He. unfold age. by repeat case_match. }
  intros [] s1 Hi1 Hg1 _. eapply safe_then; [apply IH; [done|]|].
  { intros z Hz. apply (grows_infos s s1 Hg1), Hl. by right. }
  intros rest s2 Hi2 _ _. by apply safe_mret.
Qed.
Lemma safe_update_routing_info t s : inv s → safe (update_routing_info env t) done_ s.
Proof.
  intros Hi. unfold update_routing_info. apply safe_read.
  eapply safe_then; [apply safe_age_services; [done|]; intros x Hx; by apply items_known|].
  intros l s1 Hi1 _ _. apply safe_for_each; [done|]. intros [sv i] s2 _ Hi2 _.
  eapply safe_then; [apply safe_if; [done|]; intros; by apply safe_rcall|]. intros [] s3 Hi3 _ _. by apply safe_del_routing_info.
Qed.

Lemma safe_collect a range r l s : inv s → (∀ x, x ∈ l → is_Some (rv_infos s !! x.2)) → safe (collect_expired env a range r l) done_ s.
Proof.
  revert s. induction l as [|x l IH]; intros s Hi Hl; cbn [collect_expired]; [by apply safe_mret|].
  destruct (Hl x) as [y Hy]; [left|]. apply (safe_info x.2 y); [done|]. apply safe_read. destruct (expires_at _ _ _ _ _ _).
  - eapply safe_then; [apply safe_if; [done|]; intros; by apply safe_rcall|]. intros [] s1 Hi1 Hg1 _.
    eapply safe_then; [apply IH; [done|]|intros rest s2 Hi2 _ _; by apply safe_mret].
    intros z Hz. apply (grows_infos s s1 Hg1), Hl. by right.
  - apply IH; [done|]. intros z Hz. apply Hl. by right.
Qed.
Lemma safe_expire_services a range r s : inv s → safe (expire_services env a range r) done_ s.
Proof.
  intros Hi. unfold expire_services. apply safe_read.
  eapply safe_then; [apply safe_collect; [done|]; intros x Hx; by apply items_known|].
  intros l s1 Hi1 _ _. apply safe_for_each; [done|]. intros [sv i] s2 _ Hi2 _. by apply safe_del_routing_info.
Qed.

Lemma safe_run_host_call c s : inv s → safe (run_host_call env c) done_ s.
Proof.
  intros Hi. destruct c; cbn [run_host_call]; [by apply safe_add_routing_info|by apply safe_del_routing_info|
    by apply safe_expire_services|by apply safe_mret|by apply safe_update_routing_info|by apply safe_mret].
Qed.
End safety.
