(* ===== verification/RemoteLifetime.v ===== *)
(** The life of a remote service: what an offer, its end, the passing of time and a lost
    device do to the services that are known.  The theorems are about [RemoteServices], with
    the invariant of [RemoteSafety]. *)
From S2P Require Import Prelude Message SdOptions ServiceInfo SdOffers Event RemoteSubscription Eventgroups SdRemoteOffers.
From S2P Require Import ClientPorts RemoteEndpoints SdReceive RemoteServices RemoteSafety.

(** ** The services that are known *)

(** The info of a service instance. *)
Definition service_at (sv i : Z) (s : remote_services) : option serviceinfo :=
  match find_service_info sv i s with Some p => rv_infos s !! p | None => None end.

(** All is as before but that a service instance may be forgotten. *)
Definition forgets (sv i : Z) (s s' : remote_services) : Prop :=
  (∀ sv' i', find_service_info sv' i' s' = if bool_decide (sv' = sv ∧ i' = i) then None else find_service_info sv' i' s) ∧
  (∀ q, find_service_info sv i s ≠ Some q → rv_infos s' !! q = rv_infos s !! q).

(** Two service instances have different infos. *)
Lemma infos_differ s sv i sv' i' p : inv s → find_service_info sv i s = Some p → find_service_info sv' i' s = Some p →
  sv' = sv ∧ i' = i.
Proof.
  intros Hi H1 H2. destruct (inv_services s Hi _ _ _ H1) as (x&Hx&<-&<-&_).
  destruct (inv_services s Hi _ _ _ H2) as (y&Hy&<-&<-&_). by simplify_eq.
Qed.

Lemma forgets_service_at sv i s s' sv' i' : inv s → forgets sv i s s' →
  service_at sv' i' s' = if bool_decide (sv' = sv ∧ i' = i) then None else service_at sv' i' s.
Proof.
  intros Hi [H1 H2]. unfold service_at. rewrite H1. case_bool_decide as Hne; [done|].
  destruct (find_service_info sv' i' s) as [q|] eqn:Eq; [|done]. apply H2. intros Hp. apply Hne.
  by apply (infos_differ s sv i sv' i' q).
Qed.

Lemma state_view s s' : service_state s' = service_state s →
  (∀ sv i, find_service_info sv i s' = find_service_info sv i s) ∧ rv_infos s' = rv_infos s.
Proof. unfold service_state, find_service_info. by intros [= -> _ ->]. Qed.

Lemma safe_state {A} (m : ST remote_services A) Q s : safe m Q s → keeps service_state m →
  safe m (λ a s', Q a s' ∧ service_state s' = service_state s) s.
Proof. intros (a&s1&E&?&?&?) Hk. exists a, s1. split_and!; try done. by eapply Hk. Qed.

(** One of the two endpoints is cleared, or the info is erased. *)
Lemma clear_service_info_cases sv i r s p x : inv s → find_service_info sv i s = Some p → rv_infos s !! p = Some x →
  safe (clear_service_info sv i r) (λ _ s',
    match si_get_endpoint (negb r) x with
    | Some _ => s' = rv_set_infos (alter (si_set_endpoint None r) p (rv_infos s)) s
    | None => forgets sv i s s'
    end) s.
Proof.
  intros Hi Hp Hx. destruct (safe_clear_service_info sv i r s Hi) as ([]&s'&E&Hi'&Hg&_).
  exists (), s'. split_and!; try done. revert E. unfold clear_service_info. st_run. rewrite Hp. unfold the_info. st_run. rewrite Hx.
  destruct (si_get_endpoint (negb r) x); [by intros [= <-]|].
  intros E. set (b := bool_decide (1 >= _)) in E. assert (services_ s' = erase_service b sv i (services_ s) ∧ rv_infos s' = rv_infos s) as [Hs Hin].
  { destruct (si_is_local_ x); by injection E as <-. }
  split; [|by intros q _; rewrite Hin]. intros sv' i'. unfold find_service_info. rewrite Hs. apply at_erase.
  intros Hb. by apply (only_instance sv i p (services_ s) Hp).
Qed.
Lemma clear_both sv i s : inv s → is_Some (find_service_info sv i s) →
  safe (clear_service_info sv i true;; clear_service_info sv i false) (λ _ s', forgets sv i s s') s.
Proof.
  intros Hi [p Hp]. destruct (inv_services s Hi sv i p Hp) as (x&Hx&_).
  eapply safe_then; [by apply (clear_service_info_cases sv i true s p x)|]. intros [] s1 Hi1 _ H1. cbn in H1.
  destruct (si_unreliable_ x) as [e|] eqn:Eu.
  - assert (find_service_info sv i s1 = Some p) as Hp1 by (by subst s1).
    assert (rv_infos s1 !! p = Some (si_set_endpoint None true x)) as Hx1 by (subst s1; cbn; by rewrite lookup_alter_eq, Hx).
    eapply safe_weaken; [by apply (clear_service_info_cases sv i false s1 p _ Hi1 Hp1 Hx1)|]. cbn. intros _ s2 [H2 H3]. split.
    + intros sv' i'. rewrite H2. by subst s1.
    + intros q Hq. rewrite H3 by (by subst s1). subst s1. cbn. rewrite lookup_alter_ne; [done|]. intros ->. by rewrite Hp in Hq.
  - assert (find_service_info sv i s1 = None) as Hn by (destruct H1 as [-> _]; by rewrite bool_decide_true).
    exists (), s1. split_and!; try done. unfold clear_service_info. st_run. by rewrite Hn.
Qed.

Section lifetime.
  Context (env : rm_env) {Hconf : well_configured env}.

(** ** The end of a service *)

Lemma keeps_clear_endpoint sv i r : keeps service_state (clear_endpoint env sv i r).
Proof. unfold clear_endpoint. keeps_solve. Qed.
(** The part of [del_routing_info] before the infos are cleared. *)
Lemma del_before sv i (hr hu : bool) major minor s : inv s → safe (
    rcall (OnAvailability sv i false major minor);;
    on_stop_offer_service VSOMEIP_ROUTING_CLIENT sv i major minor;;
    implicit_unsubscribe env sv i;;
    (if hr then clear_endpoint env sv i true else mret ());;
    (if hu then clear_endpoint env sv i false else mret ());;
    clear_multicast_endpoints sv i) (λ _ s', service_state s' = service_state s) s.
Proof.
  intros Hi. eapply safe_weaken; [apply safe_state|by intros [] s' [_ H]].
  - eapply safe_then; [by apply safe_rcall|]. intros [] s1 Hi1 _ _.
    eapply safe_then; [by apply safe_on_stop_offer|]. intros [] s2 Hi2 _ _.
    eapply safe_then; [by apply safe_implicit_unsubscribe|]. intros [] s3 Hi3 _ _.
    eapply safe_then; [apply safe_if; [done|]; intros; by apply safe_clear_endpoint|]. intros [] s4 Hi4 _ _.
    eapply safe_then; [apply safe_if; [done|]; intros; by apply safe_clear_endpoint|]. intros [] s5 Hi5 _ _.
    by apply safe_clear_multicast.
  - pose proof keeps_clear_endpoint. keeps_solve.
Qed.

(** Ending a service with both endpoints forgets it, and nothing else. *)
Lemma del_forgets sv i s : inv s → safe (del_routing_info env sv i true true) (λ _ s', forgets sv i s s') s.
Proof.
  intros Hi. unfold del_routing_info. apply safe_read. destruct (find_service_info sv i s) as [p|] eqn:Ep.
  - destruct (inv_services s Hi sv i p Ep) as (x&Hx&_). apply (safe_info p x); [done|].
    destruct (del_before sv i true true (si_major_ x) (si_minor_ x) s Hi) as ([]&s1&E1&Hi1&Hg1&Hs1).
    destruct (state_view s s1 Hs1) as [Hf Hin].
    destruct (clear_both sv i s1 Hi1) as ([]&s2&E2&Hi2&Hg2&[H1 H2]); [rewrite Hf; by eexists|].
    exists (), s2. split_and!.
    + apply st_bind_inv in E1 as ([]&t1&F1&E1). rewrite (st_bind_Ret _ _ _ _ _ F1).
      apply st_bind_inv in E1 as ([]&t2&F2&E1). rewrite (st_bind_Ret _ _ _ _ _ F2).
      apply st_bind_inv in E1 as ([]&t3&F3&E1). rewrite (st_bind_Ret _ _ _ _ _ F3).
      apply st_bind_inv in E1 as ([]&t4&F4&E1). rewrite (st_bind_Ret _ _ _ _ _ F4).
      apply st_bind_inv in E1 as ([]&t5&F5&E1). rewrite (st_bind_Ret _ _ _ _ _ F5), (st_bind_Ret _ _ _ _ _ E1).
      apply st_bind_inv in E2 as ([]&t6&F6&E2). by rewrite (st_bind_Ret _ _ _ _ _ F6), (st_bind_Ret _ _ _ _ _ E2).
    + done.
    + by trans s1.
    + split; [intros sv' i'; by rewrite H1, Hf|]. intros q Hq. rewrite H2, Hin; [done|]. by rewrite Hf.
  - exists (), s. split_and!; try done. split; [|done]. intros sv' i'. case_bool_decide as H; [by destruct H as [-> ->]|done].
Qed.

(** A loop that ends services one after the other. *)
Lemma forget_all (g : Z * Z → ST remote_services ()) l s : inv s →
  (∀ sv i s, inv s → safe (g (sv, i)) (λ _ s', forgets sv i s s') s) →
  safe (for_each g l) (λ _ s', ∀ sv i, service_at sv i s' = if bool_decide ((sv, i) ∈ l) then None else service_at sv i s) s.
Proof.
  intros Hi Hg. revert s Hi. induction l as [|[sv i] l IH]; intros s Hi; cbn [for_each].
  { apply safe_mret; [done|]. intros sv i. by rewrite bool_decide_false by apply not_elem_of_nil. }
  eapply safe_then; [by apply Hg|]. intros [] s1 Hi1 _ Hf. eapply safe_weaken; [by apply IH|].
  intros [] s2 H2 sv' i'. rewrite H2, (forgets_service_at sv i s s1) by done.
  destruct (decide ((sv', i') ∈ l)) as [Hin|Hin].
  - by rewrite !bool_decide_true by (try right; done).
  - rewrite (bool_decide_false ((sv', i') ∈ l)) by done.
    destruct (decide (sv' = sv ∧ i' = i)) as [[-> ->]|Hne].
    + by rewrite !bool_decide_true by (done || left).
    + rewrite !bool_decide_false; [done| |done]. intros [[= -> ->]|?]%elem_of_cons; tauto.
Qed.

(** ** The passing of time *)

Definition expires (t : Z) (x : serviceinfo) : bool := bool_decide (si_get_ttl x < DEFAULT_TTL) && is_expired t x.

Lemma age_services_spec t l s : inv s → NoDup l.*2 → (∀ x, x ∈ l → is_Some (rv_infos s !! x.2)) →
  safe (age_services t l) (λ ex s', service_maps s' = service_maps s ∧
    (∀ q, rv_infos s' !! q = if bool_decide (q ∈ l.*2) then age t <$> rv_infos s !! q else rv_infos s !! q) ∧
    (∀ k, k ∈ ex ↔ ∃ p x, (k, p) ∈ l ∧ rv_infos s !! p = Some x ∧ expires t x = true)) s.
Proof.
  revert s. induction l as [|[k p] l IH]; intros s Hi Hnd Hl; cbn [age_services].
  { apply safe_mret; [done|]. split_and!; [done|done|]. intros k. split; [by intros ?%not_elem_of_nil|by intros (p&x&?%not_elem_of_nil&_)]. }
  rewrite fmap_cons, NoDup_cons in Hnd. destruct Hnd as [Hp Hnd]. cbn [fst snd] in *.
  destruct (Hl (k, p)) as [y Hy]; [left|]. cbn in Hy. apply (safe_info p y); [done|].
  eapply safe_then with (Q := λ _ s', s' = rv_set_infos (alter (age t) p (rv_infos s)) s).
  { destruct (safe_upd_info p (age t) s Hi) as ([]&s1&E&Hi1&Hg1&_).
    - intros z. unfold age. by repeat case_match.
    - intros z r e Hz He. apply (inv_info_endpoints s Hi p z r e Hz). revert He. unfold age. by repeat case_match.
    - exists (), s1. split_and!; try done. by injection E as <-. }
  intros [] s1 Hi1 Hg1 Hs1.
  eapply safe_then; [apply IH; [done|done|]|].
  { intros z Hz. apply (grows_infos s s1 Hg1), Hl. by right. }
  intros rest s2 Hi2 _ (Hm&Hin&Hex). subst s1. cbn in Hin, Hex. apply safe_mret; [done|]. split_and!.
  - by rewrite Hm.
  - intros q. rewrite Hin. destruct (decide (p = q)) as [<-|Hne].
    + rewrite (bool_decide_false (p ∈ l.*2)) by done. rewrite bool_decide_true by left. by rewrite lookup_alter_eq.
    + rewrite lookup_alter_ne by done. destruct (decide (q ∈ l.*2)).
      * by rewrite !bool_decide_true by (try right; done).
      * rewrite !bool_decide_false; [done| |done]. by intros [?|?]%elem_of_cons.
  - assert (∀ k', (∃ p0 x, (k', p0) ∈ l ∧ alter (age t) p (rv_infos s) !! p0 = Some x ∧ expires t x = true) ↔
      ∃ p0 x, (k', p0) ∈ l ∧ rv_infos s !! p0 = Some x ∧ expires t x = true) as Hsame.
    { intros k'. split; intros (p0&x&H1&H2&H3); exists p0, x; split_and!; try done; revert H2; (rewrite lookup_alter_ne; [done|]);
        intros <-; apply Hp; apply list_elem_of_fmap; by exists (k', p). }
    intros k'. setoid_rewrite elem_of_cons. fold (expires t y). destruct (expires t y) eqn:Ey.
    + rewrite elem_of_cons, Hex, Hsame. split.
      * intros [->|(p0&x&?&?)]; [exists p, y|exists p0, x]; naive_solver.
      * intros (p0&x&[[= -> ->]|?]&?&?); [by left|right; eauto].
    + rewrite Hex, Hsame. split; intros (p0&x&H1&H2&H3); exists p0, x; [naive_solver|].
      destruct H1 as [[= -> ->]|?]; [congruence|done].
Qed.

Lemma items_nodup s : inv s → NoDup (items (services_remote_ s)).*2.
Proof.
  intros Hi. apply NoDup_fmap_2_strong; [|apply NoDup_items]. intros [[sv i] p] [[sv' i'] q] H1 H2 E. cbn in E. subst q.
  apply elem_of_items in H1, H2.
  assert (∀ sv i, services_remote_ s !! sv ≫= (.!! i) = Some p → find_service_info sv i s = Some p) as Hf.
  { intros sv0 i0 H. apply (inv_remote s Hi). unfold remote_info, at_instance. by destruct (services_remote_ s !! sv0). }
  by destruct (infos_differ s sv' i' sv i p Hi (Hf _ _ H2) (Hf _ _ H1)) as [-> ->].
Qed.
Lemma items_remote s sv i p : (sv, i, p) ∈ items (services_remote_ s) ↔ remote_info sv i s = Some p.
Proof. rewrite elem_of_items. unfold remote_info, at_instance. by destruct (services_remote_ s !! sv). Qed.
(** The remote services, seen from the infos. *)
Lemma remote_service_at s sv i p x : inv s → find_service_info sv i s = Some p → rv_infos s !! p = Some x →
  ((∃ k, (k, p) ∈ items (services_remote_ s)) ↔ si_is_local_ x = false) ∧
  ∀ k, (k, p) ∈ items (services_remote_ s) → k = (sv, i).
Proof.
  intros Hi Hp Hx. destruct (inv_services s Hi sv i p Hp) as (y&Hy&_&_&Hr). simplify_eq.
  assert (∀ k, (k, p) ∈ items (services_remote_ s) → k = (sv, i)) as Hk.
  { intros [sv' i'] Hk%items_remote. apply (inv_remote s Hi) in Hk. by destruct (infos_differ s sv i sv' i' p Hi Hp Hk) as [-> ->]. }
  split; [|done]. split.
  - intros [k Hin]. pose proof (Hk k Hin) as ->. apply items_remote in Hin. destruct (si_is_local_ x); congruence.
  - intros Hl. exists (sv, i). apply items_remote. by rewrite Hr, Hl.
Qed.

(** What the time does to a service: a local one stays; a remote one ages, or goes. *)
Definition aged (t : Z) (x : serviceinfo) : option serviceinfo :=
  if si_is_local_ x then Some x else if expires t x then None else Some (age t x).

Lemma time_passes_view t s : inv s → safe (update_routing_info env t)
  (λ _ s', ∀ sv i, service_at sv i s' = service_at sv i s ≫= aged t) s.
Proof.
  intros Hi. unfold update_routing_info. apply safe_read.
  eapply safe_then; [apply age_services_spec; [done|by apply items_nodup|]; intros x Hx; by apply items_known|].
  intros ex s1 Hi1 _ (Hm&Hin&Hex). eapply safe_weaken; [apply forget_all; [done|]|].
  { intros sv i s2 Hi2. eapply safe_then; [apply safe_state; [apply (safe_if _ (rcall (UnsubscribeAll sv i)) s2 Hi2)|]|].
    - intros _. by apply safe_rcall.
    - keeps_solve.
    - intros [] s3 Hi3 _ [_ Hs]. destruct (state_view s2 s3 Hs) as [Hf Hinf].
      eapply safe_weaken; [by apply del_forgets|]. intros [] s4 [H1 H2]. split.
      + intros sv' i'. by rewrite H1, Hf.
      + intros q Hq. rewrite H2, Hinf; [done|]. by rewrite Hf. }
  intros [] s2 H2 sv i. rewrite H2. unfold service_at. rewrite (maps_find s s1) by done.
  destruct (find_service_info sv i s) as [p|] eqn:Ep; [|by case_bool_decide].
  destruct (inv_services s Hi sv i p Ep) as (x&Hx&_). rewrite Hin, Hx.
  destruct (remote_service_at s sv i p x Hi Ep Hx) as [Hloc Hk].
  assert ((sv, i) ∈ ex ↔ si_is_local_ x = false ∧ expires t x = true) as Hiff.
  { rewrite Hex. split.
    - intros (q&y&Hq&Hy&He). apply items_remote in Hq. pose proof (inv_remote s Hi _ _ _ Hq) as Hf. simplify_eq.
      split; [|done]. apply Hloc. exists (sv, i). by apply items_remote.
    - intros [Hl He]. apply Hloc in Hl as [k Hl]. pose proof (Hk k Hl) as ->. eauto. }
  unfold aged. cbn. destruct (si_is_local_ x) eqn:El.
  - rewrite (bool_decide_false (_ ∈ ex)) by (rewrite Hiff; naive_solver). rewrite bool_decide_false; [done|].
    intros ([k q]&E&Hq)%list_elem_of_fmap. cbn in E. subst q. assert (true = false) by (apply Hloc; eauto). done.
  - destruct (expires t x) eqn:Ex; [by rewrite bool_decide_true by (by apply Hiff)|].
    rewrite (bool_decide_false (_ ∈ ex)) by (rewrite Hiff; naive_solver).
    rewrite bool_decide_true; [done|]. destruct Hloc as [_ Hloc]. destruct (Hloc eq_refl) as [k Hq].
    apply list_elem_of_fmap. by exists (k, p).
Qed.

(** A time to live that is not "until the next reboot". *)
Definition finite_ttl (x : serviceinfo) : Prop := 0 ≤ si_ttl_ x < DEFAULT_TTL * 1000.
Lemma finite_get_ttl x : finite_ttl x → si_get_ttl x < DEFAULT_TTL.
Proof.
  unfold finite_ttl, si_get_ttl, DEFAULT_TTL. intros Hx. rewrite Z.quot_div_nonneg by lia.
  assert (0 ≤ si_ttl_ x / 1000 < 0xFFFFFF) as Hd by (split; [apply Z.div_pos; lia|apply Z.div_lt_upper_bound; lia]).
  rewrite u32_id by (unfold is_u32; lia). lia.
Qed.
Lemma aged_finite t x : si_is_local_ x = false → finite_ttl x →
  aged t x = if bool_decide (si_ttl_ x < t) || bool_decide (si_ttl_ x = 0) then None
             else Some (si_set_precise_ttl (si_ttl_ x - t) x).
Proof.
  intros Hl Hf. unfold aged, expires, age. rewrite Hl, bool_decide_true by (by apply finite_get_ttl). cbn [andb].
  unfold is_expired. by destruct (_ || _).
Qed.

Definition total (ts : list Z) : Z := foldr Z.add 0 ts.
Lemma lifetime_views ts x : si_is_local_ x = false → finite_ttl x → Forall (λ t, 0 ≤ t) ts →
  let y := foldl (λ o t, o ≫= aged t) (Some x) ts in
  (si_ttl_ x < total ts → y = None) ∧ (total ts < si_ttl_ x → y = Some (si_set_precise_ttl (si_ttl_ x - total ts) x)).
Proof.
  cbv zeta. intros Hl Hf Hts. revert x Hl Hf. induction Hts as [|t ts Ht Hts IH]; intros x Hl Hf; cbn [foldl total foldr].
  { unfold finite_ttl in Hf. split; [lia|]. intros _. rewrite Z.sub_0_r. by destruct x. }
  fold (total ts). assert (0 ≤ total ts) as Hpos by (clear -Hts; induction Hts; cbn [total foldr]; [done|]; fold (total l); lia).
  assert (∀ l, foldl (λ (o : option serviceinfo) t, o ≫= aged t) None l = None) as Hnone by (induction l; done).
  cbn [mbind option_bind]. rewrite aged_finite by done. destruct (decide (si_ttl_ x < t)) as [Hlt|Hge].
  - rewrite bool_decide_true by done. cbn [orb]. rewrite Hnone. split; [done|lia].
  - rewrite (bool_decide_false (_ < t)) by done. cbn [orb]. destruct (decide (si_ttl_ x = 0)) as [Hz|Hz].
    + rewrite bool_decide_true by done. rewrite Hnone. split; [done|lia].
    + rewrite bool_decide_false by done. destruct (IH (si_set_precise_ttl (si_ttl_ x - t) x)) as [H1 H2]; [done|unfold finite_ttl in *; cbn; lia|].
      cbn in H1, H2. split; [intros; apply H1; lia|]. intros Hs. rewrite H2 by lia. f_equal.
      unfold si_set_precise_ttl. cbn. f_equal. lia.
Qed.

Lemma updates_view ts s : inv s → safe (for_each (update_routing_info env) ts)
  (λ _ s', ∀ sv i, service_at sv i s' = foldl (λ o t, o ≫= aged t) (service_at sv i s) ts) s.
Proof.
  revert s. induction ts as [|t ts IH]; intros s Hi; cbn [for_each foldl]; [by apply safe_mret|].
  eapply safe_then; [by apply time_passes_view|]. intros [] s1 Hi1 _ H1. eapply safe_weaken; [by apply IH|].
  intros [] s2 H2 sv i. by rewrite H2, H1.
Qed.

(** ** A device that is lost *)

Lemma collect_spec a range r l s : inv s → (∀ x, x ∈ l → is_Some (rv_infos s !! x.2)) →
  safe (collect_expired env a range r l) (λ ex s', (service_state s', rv_endpoints s') = (service_state s, rv_endpoints s) ∧
    (∀ k, k ∈ ex ↔ ∃ p x, (k, p) ∈ l ∧ rv_infos s !! p = Some x ∧ expires_at env a range r s x = true)) s.
Proof.
  revert s. induction l as [|[k p] l IH]; intros s Hi Hl; cbn [collect_expired].
  { apply safe_mret; [done|]. split; [done|]. intros k. split; [by intros ?%not_elem_of_nil|by intros (p&x&?%not_elem_of_nil&_)]. }
  destruct (Hl (k, p)) as [y Hy]; [left|]. cbn [fst snd] in *. apply (safe_info p y); [done|]. apply safe_read.
  destruct (expires_at env a range r s y) eqn:Ey.
  - eapply safe_then with (Q := λ _ s', (service_state s', rv_endpoints s') = (service_state s, rv_endpoints s)).
    { destruct (has_discovery _); [|by apply safe_mret].
      destruct (safe_rcall (UnsubscribeAll k.1 k.2) s Hi) as ([]&s1&E&Hi1&Hg1&_). exists (), s1. split_and!; try done. by injection E as <-. }
    intros [] s1 Hi1 Hg1 Heq. pose proof Heq as [= _ _ Hinf Hep]. eapply safe_then; [apply IH; [done|]|].
    { intros z Hz. rewrite Hinf. apply Hl. by right. }
    intros rest s2 Hi2 _ [Hs2 Hex]. apply safe_mret; [done|]. split; [by rewrite Hs2|].
    intros k'. rewrite elem_of_cons, Hex. rewrite Hinf.
    assert (∀ x, expires_at env a range r s1 x = expires_at env a range r s x) as Hsame
      by (intros x; unfold expires_at, client_endpoint_at; by rewrite Hep).
    setoid_rewrite Hsame. setoid_rewrite elem_of_cons. split.
    + intros [->|(p0&x&?&?)]; [exists p, y|exists p0, x]; naive_solver.
    + intros (p0&x&[[= -> ->]|?]&?&?); [by left|right; eauto].
  - eapply safe_weaken; [apply IH; [done|]; intros z Hz; apply Hl; by right|]. intros ex s2 [Hs Hex]. split; [done|].
    intros k'. rewrite Hex. setoid_rewrite elem_of_cons. split; intros (p0&x&H1&H2&H3); exists p0, x; [naive_solver|].
    destruct H1 as [[= -> ->]|?]; [congruence|done].
Qed.

Lemma expire_view a range r s : inv s → safe (expire_services env a range r)
  (λ _ s', ∀ sv i, service_at sv i s' = service_at sv i s ≫= λ x, if negb (si_is_local_ x) && expires_at env a range r s x then None else Some x) s.
Proof.
  intros Hi. unfold expire_services. apply safe_read.
  eapply safe_then; [apply collect_spec; [done|]; intros x Hx; by apply items_known|].
  intros ex s1 Hi1 _ [[= H1 H2 H3 H4] Hex]. eapply safe_weaken; [apply forget_all; [done|]|].
  { intros sv i s2 Hi2. by apply del_forgets. }
  intros [] s2 Hv sv i. rewrite Hv. unfold service_at. assert (find_service_info sv i s1 = find_service_info sv i s) as ->
    by (unfold find_service_info; by rewrite H1). rewrite H3.
  destruct (find_service_info sv i s) as [p|] eqn:Ep; [|by case_bool_decide].
  destruct (inv_services s Hi sv i p Ep) as (x&Hx&_). rewrite Hx.
  destruct (remote_service_at s sv i p x Hi Ep Hx) as [Hloc Hk]. cbn.
  assert ((sv, i) ∈ ex ↔ si_is_local_ x = false ∧ expires_at env a range r s x = true) as Hiff.
  { rewrite Hex. split.
    - intros (q&y&Hq&Hy&He). apply items_remote in Hq. pose proof (inv_remote s Hi _ _ _ Hq) as Hf. simplify_eq.
      split; [|done]. apply Hloc. exists (sv, i). by apply items_remote.
    - intros [Hl He]. apply Hloc in Hl as [k Hl]. pose proof (Hk k Hl) as ->. eauto. }
  destruct (si_is_local_ x), (expires_at env a range r s x); cbn;
    [rewrite bool_decide_false by (rewrite Hiff; naive_solver)..|rewrite bool_decide_true by (by apply Hiff)|
     rewrite bool_decide_false by (rewrite Hiff; naive_solver)]; done.
Qed.

(** ** Subscribers of a service that has ended *)

(** Events only lose subscribers. *)
Definition shrinks (r r' : routing) : Prop :=
  (r_groups r', r_eventgroups_ r', r_remote_subscription_state_ r', r_remote_subscribers_ r') =
  (r_groups r, r_eventgroups_ r, r_remote_subscription_state_ r, r_remote_subscribers_ r) ∧
  ∀ e x', r_events r' !! e = Some x' → ∃ x, r_events r !! e = Some x ∧ ∀ g, get_subscribers_of g x' ⊆ get_subscribers_of g x.
#[local] Instance shrinks_preorder : PreOrder shrinks.
Proof.
  split.
  - intros r. split; [done|]. eauto.
  - intros r1 r2 r3 [G1 H1] [G2 H2]. split; [by rewrite G2|]. intros e x Hx. destruct (H2 e x Hx) as (y&Hy&Hs).
    destruct (H1 e y Hy) as (z&Hz&Hs2). exists z. split; [done|]. intros g. by rewrite Hs.
Qed.
Definition only_own (g e : Z) (r : routing) : Prop :=
  ∀ x, r_events r !! e = Some x → get_subscribers_of g x ⊆ {[get_client (rm_host env)]}.
Lemma only_own_shrinks g e r r' : only_own g e r → shrinks r r' → only_own g e r'.
Proof. intros Ho [_ Hs] x Hx. destruct (Hs e x Hx) as (y&Hy&Hsub). rewrite Hsub. by apply Ho. Qed.

Lemma remove_subscriber_subs g c x g' :
  get_subscribers_of g' (remove_subscriber g c x) = if bool_decide (g' = g) then get_subscribers_of g x ∖ {[c]} else get_subscribers_of g' x.
Proof.
  clear Hconf. unfold get_subscribers_of, remove_subscriber. destruct (ev_eventgroups_ x !! g) as [cs|] eqn:E; cbn.
  - case_bool_decide as H; [subst; by rewrite lookup_insert_eq|]. by rewrite lookup_insert_ne by congruence.
  - case_bool_decide as H; [subst; rewrite E; cbn; set_solver|done].
Qed.
Lemma drop_loop g e l r x : r_events r !! e = Some x →
  ∃ r' x', for_each (λ c, if bool_decide (c ≠ get_client (rm_host env)) then upd_event e (remove_subscriber g c) else mret ()) l r = Ret ((), r') ∧
  shrinks r r' ∧ r_events r' !! e = Some x' ∧
  ∀ c, c ∈ get_subscribers_of g x' → c ∈ get_subscribers_of g x ∧ (c ∈ l → c = get_client (rm_host env)).
Proof.
  clear Hconf. revert r x. induction l as [|c l IH]; intros r x Hx; cbn [for_each].
  { exists r, x. split_and!; try done. intros c Hc. split; [done|]. by intros ?%not_elem_of_nil. }
  case_bool_decide as Hc.
  - set (r1 := r_with_events (alter (remove_subscriber g c) e (r_events r)) r).
    destruct (IH r1 (remove_subscriber g c x)) as (r'&x'&E&Hs&Hx'&Hsub); [cbn; by rewrite lookup_alter_eq, Hx|].
    exists r', x'. split_and!; [done| |done|].
    + trans r1; [|done]. split; [done|]. intros e' y. cbn. destruct (decide (e = e')) as [<-|Hne].
      * rewrite lookup_alter_eq, Hx. intros [= <-]. exists x. split; [done|]. intros g'. rewrite remove_subscriber_subs.
        case_bool_decide; [subst; set_solver|done].
      * rewrite lookup_alter_ne by done. eauto.
    + intros c' Hc'. destruct (Hsub c' Hc') as [H1 H2]. rewrite remove_subscriber_subs, bool_decide_true in H1 by done.
      split; [set_solver|]. intros [->|?]%elem_of_cons; [set_solver|auto].
  - destruct (IH r x Hx) as (r'&x'&E&Hs&Hx'&Hsub). exists r', x'. split_and!; try done. intros c' Hc'.
    destruct (Hsub c' Hc') as [H1 H2]. split; [done|]. intros [->|?]%elem_of_cons; [|auto].
    destruct (decide (c = get_client (rm_host env))); [done|tauto].
Qed.
Lemma drop_subscribers_spec g e r : is_Some (r_events r !! e) →
  ∃ r', drop_subscribers env g e r = Ret ((), r') ∧ shrinks r r' ∧ only_own g e r'.
Proof.
  intros [x Hx]. unfold drop_subscribers. rewrite (st_bind_Ret _ _ _ x r); [|unfold the_event; st_run; by rewrite Hx].
  destruct (drop_loop g e (client_list (get_subscribers x)) r x Hx) as (r'&x'&E&Hs&Hx'&Hsub).
  exists r'. split_and!; try done. intros y Hy. simplify_eq. intros c Hc. destruct (Hsub c Hc) as [H1 H2].
  apply elem_of_singleton, H2. unfold client_list. rewrite merge_sort_Permutation. apply elem_of_elements.
  apply get_subscribers_elem. exists g. by apply subscribes_default.
Qed.

Lemma drop_event_own sv i g e s : inv s → is_Some (r_events (rv_routing s) !! e) →
  safe (drop_event env sv i g e) (λ _ s', shrinks (rv_routing s) (rv_routing s') ∧ only_own g e (rv_routing s')) s.
Proof.
  intros Hi He. destruct (safe_drop_event env sv i g e s Hi He) as ([]&s'&E&Hi'&Hg&_). exists (), s'. split_and!; try done.
  - revert E. unfold drop_event, in_routing. st_run. destruct (drop_subscribers_spec g e (rv_routing s) He) as (r'&->&Hs&Ho). cbn.
    unfold the_event. st_run. destruct (r_events r' !! e) eqn:Ee; [|done]. by intros [= <-].
  - revert E. unfold drop_event, in_routing. st_run. destruct (drop_subscribers_spec g e (rv_routing s) He) as (r'&->&Hs&Ho). cbn.
    unfold the_event. st_run. destruct (r_events r' !! e) eqn:Ee; [|done]. by intros [= <-].
Qed.

(** A loop that establishes a property of each element, which the rest keeps. *)
Lemma loop_each {A} (f : A → ST remote_services ()) (P : A → routing → Prop) l s : inv s →
  (∀ a s', a ∈ l → inv s' → grows s s' → safe (f a) (λ _ s2, shrinks (rv_routing s') (rv_routing s2) ∧ P a (rv_routing s2)) s') →
  (∀ a r r', P a r → shrinks r r' → P a r') →
  safe (for_each f l) (λ _ s', shrinks (rv_routing s) (rv_routing s') ∧ ∀ a, a ∈ l → P a (rv_routing s')) s.
Proof.
  intros Hi Hf HP. revert s Hi Hf. induction l as [|a l IH]; intros s Hi Hf; cbn [for_each].
  { apply safe_mret; [done|]. split; [done|]. by intros a ?%not_elem_of_nil. }
  eapply safe_then; [apply Hf; [left|done|done]|]. intros [] s1 Hi1 Hg1 [Hs1 Hp1]. eapply safe_weaken; [apply IH; [done|]|].
  { intros b s2 Hb Hi2 Hg2. apply Hf; [by right|done|by trans s1]. }
  intros [] s2 [Hs2 Hp2]. split; [by trans (rv_routing s1)|]. intros b [->|Hb]%elem_of_cons; [|by apply Hp2]. by eapply HP.
Qed.

Lemma eventgroups_of_intro sv i r g id : r_eventgroups_ r !! (sv, i, g) = Some id → (g, id) ∈ eventgroups_of sv i r.
Proof.
  intros Hg. unfold eventgroups_of, ordered. rewrite merge_sort_Permutation, elem_of_map_to_list.
  set (pick := λ x : Z * Z * Z * Z, if bool_decide (x.1.1 = (sv, i)) then Some (x.1.2, x.2) else None).
  assert (∀ g' id', (g', id') ∈ omap pick (map_to_list (r_eventgroups_ r)) → r_eventgroups_ r !! (sv, i, g') = Some id') as Hback.
  { intros g' id' ([[[sv' i'] g2] id2]&Hk&E)%list_elem_of_omap. apply elem_of_map_to_list in Hk. unfold pick in E. cbn in E.
    case_bool_decide as H; [|done]. by simplify_eq. }
  apply elem_of_list_to_map_1'.
  - intros id' Hid. apply Hback in Hid. congruence.
  - apply list_elem_of_omap. exists ((sv, i, g), id). split; [by apply elem_of_map_to_list|]. unfold pick. cbn. by rewrite bool_decide_true.
Qed.

Definition no_subscribers (sv i : Z) (s s' : remote_services) : Prop :=
  ∀ g id info e, r_eventgroups_ (rv_routing s) !! (sv, i, g) = Some id → r_groups (rv_routing s) !! id = Some info →
    e ∈ eg_events_ info → only_own g e (rv_routing s').

Lemma drop_eventgroup_own sv i g s : inv s → is_Some (r_groups (rv_routing s) !! g.2) →
  safe (drop_eventgroup env sv i g) (λ _ s', shrinks (rv_routing s) (rv_routing s') ∧
    ∀ info e, r_groups (rv_routing s') !! g.2 = Some info → e ∈ eg_events_ info → only_own g.1 e (rv_routing s')) s.
Proof.
  intros Hi [x Hx]. unfold drop_eventgroup.
  eapply safe_then with (Q := λ y s', y = x ∧ rv_routing s' = rv_routing s).
  { exists x, (rv_set_routing (rv_routing s) s). unfold in_routing, the_group. st_run. rewrite Hx. split_and!; try done; [inv_same|grows_same]. }
  intros y s1 Hi1 Hg1 [-> Hr]. eapply safe_weaken; [apply (loop_each _ (only_own g.1)); [done| |apply only_own_shrinks]|].
  - intros e s2 He%elem_of_elements Hi2 Hg2. apply drop_event_own; [done|].
    apply (grows_events s1 s2 Hg2), (grows_events s s1 Hg1). by apply (inv_events s Hi g.2 x).
  - intros [] s2 [Hs Hown]. rewrite Hr in Hs. split; [done|]. intros info e Hinfo He. destruct Hs as [[= Hgr _ _ _] _].
    rewrite Hgr, Hx in Hinfo. simplify_eq. apply Hown. by apply elem_of_elements.
Qed.

Lemma unset_shrinks e r : is_Some (r_events r !! e) →
  ∃ r', on_event_at e (unset_payload true) r = Ret ((), r') ∧ same_objects r r' ∧ shrinks r r'.
Proof.
  intros [x Hx]. eexists. unfold on_event_at. rewrite (st_bind_Ret _ _ _ x r); [|unfold the_event; st_run; by rewrite Hx].
  st_run. rewrite unset_payload_eq. split; [done|]. split; [split_and!; try done; cbn; intros; by apply is_Some_insert|].
  split; [done|]. cbn. intros e' y. destruct (decide (e = e')) as [<-|Hne].
  - rewrite lookup_insert_eq. intros [= <-]. exists x. split; [done|]. intros g. unfold stopped. by case_bool_decide.
  - rewrite lookup_insert_ne by done. eauto.
Qed.
Lemma implicit_unsubscribe_spec sv i s : inv s → safe (implicit_unsubscribe env sv i) (λ _ s',
  no_subscribers sv i s s' ∧
  r_remote_subscription_state_ (rv_routing s') =
    filter (λ x : Z * Z * Z * Z * subscription_state_e, x.1.1.1 ≠ (sv, i)) (r_remote_subscription_state_ (rv_routing s)) ∧
  r_remote_subscribers_ (rv_routing s') = delete (sv, i) (r_remote_subscribers_ (rv_routing s))) s.
Proof.
  intros Hi. unfold implicit_unsubscribe. apply safe_read. cbv zeta.
  eapply safe_then.
  { apply (loop_each _ (λ g r, ∀ info e, r_groups r !! g.2 = Some info → e ∈ eg_events_ info → only_own g.1 e r)); [done| |].
    - intros g s1 Hg Hi1 Hg1. destruct (eventgroups_of_elem _ _ _ _ Hg) as [k Hk]. apply drop_eventgroup_own; [done|].
      rewrite (grows_groups s s1 Hg1). by eapply inv_groups.
    - intros g r r' Ho Hs info e Hinfo He. pose proof Hs as [[= Hgr _ _ _] _]. rewrite Hgr in Hinfo.
      by eapply only_own_shrinks; [apply (Ho info e)|]. }
  intros [] s1 Hi1 Hg1 [Hs1 Hown]. eapply safe_then.
  { apply (loop_each _ (λ _ _, True)); [done| |done]. intros e s2 He Hi2 Hg2.
    destruct (events_of_elem _ _ _ _ He) as (k&g&x&Hk&Hx&Hex).
    destruct (unset_shrinks e (rv_routing s2)) as (r'&E&Ho&Hs).
    { apply (grows_events s1 s2 Hg2), (grows_events s s1 Hg1). by apply (inv_events s Hi g x). }
    eapply safe_weaken; [apply (safe_in_routing _ (λ _ r', shrinks (rv_routing s2) r')); [done|by exists (), r']|]. by intros []. }
  intros [] s2 Hi2 _ [Hs2 _]. assert (shrinks (rv_routing s) (rv_routing s2)) as Hs by (by trans (rv_routing s1)).
  assert (no_subscribers sv i s s2) as Hno.
  { intros g id info e Hg Hid He. eapply only_own_shrinks; [|exact Hs2]. pose proof Hs1 as [[= Hgr _ _ _] _].
    apply (Hown (g, id)) with (info := info); [by apply eventgroups_of_intro|by rewrite Hgr|done]. }
  destruct Hs as [[= _ _ Hst Hsub] _]. clear Hs1 Hs2 Hown.
  eapply safe_then with (Q := λ _ s', no_subscribers sv i s s' ∧ r_remote_subscription_state_ (rv_routing s') =
    filter (λ x : Z * Z * Z * Z * subscription_state_e, x.1.1.1 ≠ (sv, i)) (r_remote_subscription_state_ (rv_routing s)) ∧
    r_remote_subscribers_ (rv_routing s') = r_remote_subscribers_ (rv_routing s)).
  { apply safe_modify; [inv_same|grows_same|]. cbn. by rewrite Hst. }
  intros [] s3 Hi3 _ (Hno3&Hst3&Hsub3). apply safe_modify; [inv_same|grows_same|]. cbn. by rewrite Hsub3.
Qed.

(** ** What is left of a service that has ended *)

(** Through which endpoints services are reached, and what applications know of them. *)
Definition reach (s : remote_services) : endpoint_map * endpoint_map * gmap (Z * Z * Z) (Z * Z) :=
  (remote_services_ s, remote_service_info_ s, routing_info_ s).
Definition reach_and_routing (s : remote_services) := (reach s, rv_routing s).
Lemma reach_rcall c : keeps reach_and_routing (rcall c).
Proof. by apply keeps_modify. Qed.
Lemma reach_unsubscribe sv i : keeps reach (implicit_unsubscribe env sv i).
Proof. unfold implicit_unsubscribe, drop_eventgroup, drop_event, in_routing, rcall. keeps_solve. Qed.
Lemma reach_clear_multicast sv i : keeps reach_and_routing (clear_multicast_endpoints sv i).
Proof. unfold clear_multicast_endpoints, remove_instance_multicast, definition_of, the_endpoint, rcall. keeps_solve. Qed.
Lemma reach_clear_service_info sv i r : keeps reach_and_routing (clear_service_info sv i r).
Proof. unfold clear_service_info, the_info, upd_info. keeps_solve. Qed.
Lemma routing_on_stop_offer c sv i major minor : keeps rv_routing (on_stop_offer_service c sv i major minor).
Proof. unfold on_stop_offer_service, rcall. keeps_solve. Qed.
Lemma routing_clear_endpoint sv i r : keeps (λ s, (rv_routing s, routing_info_ s)) (clear_endpoint env sv i r).
Proof.
  unfold clear_endpoint, clear_client_endpoints, clear_remote_service_info, the_endpoint, rcall. keeps_solve.
Qed.

Lemma clear_endpoint_reach sv i r s s' : clear_endpoint env sv i r s = Ret ((), s') →
  remote_services_ s' = delete (sv, i, r) (remote_services_ s) ∧ remote_service_info_ s' = delete (sv, i, r) (remote_service_info_ s).
Proof.
  unfold clear_endpoint. intros ([]&s1&E1&E2)%st_bind_inv. injection E2 as <-. cbn. revert E1. unfold clear_client_endpoints. st_run.
  destruct (remote_services_ s !! (sv, i, r)) as [e|] eqn:E.
  - destruct (reached_through _ _ _); [by intros [= <-]|]. unfold the_endpoint. st_run. cbn.
    destruct (rv_endpoints s !! e); [|done]. case_bool_decide; intros [= <-]; done.
  - intros [= <-]. by rewrite (delete_id (remote_services_ s)).
Qed.
Lemma on_stop_offer_reach sv i major minor s s' : on_stop_offer_service VSOMEIP_ROUTING_CLIENT sv i major minor s = Ret ((), s') →
  remote_services_ s' = remote_services_ s ∧ remote_service_info_ s' = remote_service_info_ s ∧
  contained_in_routing_info VSOMEIP_ROUTING_CLIENT sv i major minor s' = false.
Proof.
  unfold on_stop_offer_service, contained_in_routing_info. st_run.
  destruct (routing_info_ s !! (VSOMEIP_ROUTING_CLIENT, sv, i)) as [v|] eqn:E; [|intros [= <-]; by rewrite E].
  destruct (_ || _) eqn:Eb; intros [= <-]; cbn; [by rewrite lookup_delete_eq|]. rewrite E. split_and!; try done.
  apply orb_false_iff in Eb as [Eb _]. apply not_true_iff_false. intros [H1%bool_decide_eq_true H2%bool_decide_eq_true]%andb_true_iff.
  subst. by rewrite !bool_decide_true in Eb.
Qed.

Lemma safe_det {A} (m : ST remote_services A) Q s a s' : safe m Q s → m s = Ret (a, s') → inv s' ∧ Q a s'.
Proof. intros (b&s1&E&Hi&_&Hq) E'. rewrite E' in E. by injection E as -> ->. Qed.
(** The steps of the end of a service with both endpoints. *)
Lemma del_chain sv i p x s s' : find_service_info sv i s = Some p → rv_infos s !! p = Some x →
  del_routing_info env sv i true true s = Ret ((), s') → ∃ t1 t2 t3 t4 t5 t6 t7,
    rcall (OnAvailability sv i false (si_major_ x) (si_minor_ x)) s = Ret ((), t1) ∧
    on_stop_offer_service VSOMEIP_ROUTING_CLIENT sv i (si_major_ x) (si_minor_ x) t1 = Ret ((), t2) ∧
    implicit_unsubscribe env sv i t2 = Ret ((), t3) ∧
    clear_endpoint env sv i true t3 = Ret ((), t4) ∧ clear_endpoint env sv i false t4 = Ret ((), t5) ∧
    clear_multicast_endpoints sv i t5 = Ret ((), t6) ∧
    clear_service_info sv i true t6 = Ret ((), t7) ∧ clear_service_info sv i false t7 = Ret ((), s').
Proof.
  intros Ep Hx E. unfold del_routing_info in E. apply st_bind_inv in E as (s0&?&[= <- <-]&E). rewrite Ep in E.
  apply st_bind_inv in E as (y&s0&Ey&E). unfold the_info in Ey. revert Ey. st_run. rewrite Hx. intros [= <- <-].
  apply st_bind_inv in E as ([]&t1&F1&E). apply st_bind_inv in E as ([]&t2&F2&E).
  apply st_bind_inv in E as ([]&t3&F3&E). apply st_bind_inv in E as ([]&t4&F4&E).
  apply st_bind_inv in E as ([]&t5&F5&E). apply st_bind_inv in E as ([]&t6&F6&E).
  apply st_bind_inv in E as ([]&t7&F7&E). apply st_bind_inv in E as ([]&t8&F8&E). cbn in E. injection E as <-.
  by exists t1, t2, t3, t4, t5, t6, t7.
Qed.

(** C17: when service discovery reports the end of a service with both of its endpoints, the
    service is forgotten and no other service is; both of its endpoints and their definitions
    are released and no others; applications no longer see its version; all subscriptions to
    its events but those of the routing manager itself end, and their states and the remote
    subscribers of the service are erased. *)
Theorem ended_service_is_gone sv i x s : inv s → service_at sv i s = Some x →
  ∃ s', del_routing_info env sv i true true s = Ret ((), s') ∧ inv s' ∧
    (∀ sv' i', service_at sv' i' s' = if bool_decide (sv' = sv ∧ i' = i) then None else service_at sv' i' s) ∧
    remote_services_ s' = delete (sv, i, false) (delete (sv, i, true) (remote_services_ s)) ∧
    remote_service_info_ s' = delete (sv, i, false) (delete (sv, i, true) (remote_service_info_ s)) ∧
    contained_in_routing_info VSOMEIP_ROUTING_CLIENT sv i (si_major_ x) (si_minor_ x) s' = false ∧
    no_subscribers sv i s s' ∧
    (∀ g c, r_remote_subscription_state_ (rv_routing s') !! (sv, i, g, c) = None) ∧
    r_remote_subscribers_ (rv_routing s') !! (sv, i) = None.
Proof.
  intros Hi Hx. unfold service_at in Hx. destruct (find_service_info sv i s) as [p|] eqn:Ep; [|done].
  destruct (del_forgets sv i s Hi) as ([]&s'&E&Hi'&_&Hf). exists s'. split; [done|]. split; [done|].
  split; [intros sv' i'; by apply forgets_service_at|]. clear Hf.
  destruct (del_chain sv i p x s s' Ep Hx E) as (t1&t2&t3&t4&t5&t6&t7&F1&F2&F3&F4&F5&F6&F7&F8).
  destruct (safe_det _ _ _ _ _ (safe_rcall _ s Hi) F1) as [I1 _].
  destruct (safe_det _ _ _ _ _ (safe_on_stop_offer _ _ _ _ _ t1 I1) F2) as [I2 _].
  destruct (safe_det _ _ _ _ _ (implicit_unsubscribe_spec sv i t2 I2) F3) as [I3 (S1&S2&S3)].
  apply reach_rcall in F1 as [= A1 A2 A3 A4]. pose proof (routing_on_stop_offer _ _ _ _ _ _ _ _ F2) as B4.
  apply on_stop_offer_reach in F2 as (B1&B2&B3). apply reach_unsubscribe in F3 as [= C1 C2 C3].
  pose proof (routing_clear_endpoint _ _ _ _ _ _ F4) as [= D3 D4]. apply clear_endpoint_reach in F4 as [D1 D2].
  pose proof (routing_clear_endpoint _ _ _ _ _ _ F5) as [= G3 G4]. apply clear_endpoint_reach in F5 as [G1 G2].
  apply reach_clear_multicast in F6 as [= H1 H2 H3 H4]. apply reach_clear_service_info in F7 as [= J1 J2 J3 J4].
  apply reach_clear_service_info in F8 as [= K1 K2 K3 K4].
  assert (rv_routing s' = rv_routing t3) as Hrt by congruence.
  assert (rv_routing t2 = rv_routing s) as Hrs by congruence.
  split_and!.
  - by rewrite K1, J1, H1, G1, D1, C1, B1, A1.
  - by rewrite K2, J2, H2, G2, D2, C2, B2, A2.
  - revert B3. unfold contained_in_routing_info. by rewrite K3, J3, H3, G4, D4, C3.
  - intros g id info e Hg Hid He. rewrite Hrt. apply (S1 g id info e); by rewrite ?Hrs.
  - intros g c. rewrite Hrt, S2. apply map_lookup_filter_None_2. right. intros y _. cbn. tauto.
  - by rewrite Hrt, S3, lookup_delete_eq.
Qed.

(** ** Offers *)

Lemma safe_lives {A} (m : ST remote_services A) Q s : safe m Q s → keeps service_lives m →
  safe m (λ a s', Q a s' ∧ service_lives s' = service_lives s) s.
Proof. intros (a&s1&E&?&?&?) Hk. exists a, s1. split_and!; try done. by eapply Hk. Qed.
Definition life_at (sv i : Z) (s : remote_services) : option (Z * Z * Z * bool) := life <$> service_at sv i s.
Lemma lives_life_at sv i s s' : service_lives s' = service_lives s → life_at sv i s' = life_at sv i s.
Proof.
  unfold service_lives, life_at, service_at, find_service_info. intros [= H1 H2 H3]. rewrite H1.
  destruct (at_instance sv i (services_ s)) as [p|]; [|done]. by rewrite <-!lookup_fmap, H3.
Qed.

(** Whether an offer comes from this device. *)
Definition own_offer (ra rp ua up : Z) : bool :=
  bool_decide (rp ≠ ILLEGAL_PORT) && bool_decide (rm_unicast env = ra)
  || bool_decide (up ≠ ILLEGAL_PORT) && bool_decide (rm_unicast env = ua).
(** Version, time to live and place of the service after an offer. *)
Definition offered_life (major minor ttl : Z) (own : bool) (x : option serviceinfo) : Z * Z * Z * bool :=
  match x with
  | Some y => (si_major_ y, si_minor_ y, ttl * 1000, false)
  | None => (major, minor, ttl * 1000, own)
  end.

Lemma create_service_info_life sv i major minor ttl b s : inv s → find_service_info sv i s = None →
  safe (create_service_info sv i major minor ttl b) (λ p s', find_service_info sv i s' = Some p ∧
    life_at sv i s' = Some (major, minor, ttl * 1000, b) ∧
    ∀ sv' i', (sv', i') ≠ (sv, i) → life_at sv' i' s' = life_at sv' i' s) s.
Proof.
  intros Hi Hnone. destruct (safe_create_service_info sv i major minor ttl b s Hi Hnone) as (p&s'&E&Hi'&Hg&_).
  exists p, s'. split; [done|]. split; [done|]. split; [done|]. unfold create_service_info in E. revert E. st_run.
  set (q := fresh _). assert (rv_infos s !! q = None) as Hq by (apply not_elem_of_dom, is_fresh).
  assert (∀ sr, s' = rv_set_services_remote sr (rv_set_services (put_service sv i q (services_ s))
    (rv_set_infos (<[q := serviceinfo_new sv i major minor ttl b]> (rv_infos s)) s)) → p = q →
    find_service_info sv i s' = Some p ∧ life_at sv i s' = Some (major, minor, ttl * 1000, b) ∧
    ∀ sv' i', (sv', i') ≠ (sv, i) → life_at sv' i' s' = life_at sv' i' s) as Hgoal.
  { intros sr -> ->. unfold life_at, service_at, find_service_info. cbn -[at_instance]. rewrite at_put, bool_decide_true by done.
    rewrite lookup_insert_eq. split_and!; [done|done|]. intros sv' i' Hne. rewrite at_put, bool_decide_false by naive_solver.
    destruct (at_instance sv' i' (services_ s)) as [q'|] eqn:E'; [|done].
    destruct (inv_services s Hi sv' i' q' E') as (y&Hy&_). by rewrite lookup_insert_ne by congruence. }
  destruct b; intros [= <- <-].
  - by apply (Hgoal (services_remote_ s)).
  - by eapply Hgoal.
Qed.

Lemma keeps_init sv i b : keeps service_lives (init_service_info env sv i b).
Proof. unfold init_service_info, find_or_create_server_endpoint, create_server_endpoint, new_endpoint. keeps_solve. Qed.

Lemma info_of_offer_life sv i major minor ttl ra rp ua up s : inv s →
  (∀ x, service_at sv i s = Some x → si_is_local_ x = false) →
  safe (info_of_offer env sv i major minor ttl ra rp ua up) (λ p s', is_Some p ∧
    life_at sv i s' = Some (offered_life major minor ttl (own_offer ra rp ua up) (service_at sv i s)) ∧
    ∀ sv' i', (sv', i') ≠ (sv, i) → life_at sv' i' s' = life_at sv' i' s) s.
Proof.
  intros Hi Hloc. unfold info_of_offer. apply safe_read. unfold service_at in *. destruct (find_service_info sv i s) as [p|] eqn:Ep.
  - destruct (inv_services s Hi sv i p Ep) as (x&Hx&_). apply (safe_info p x); [done|]. rewrite (Hloc x Hx).
    eapply safe_then with (Q := λ _ s', s' = rv_set_infos (alter (si_set_ttl ttl) p (rv_infos s)) s).
    { destruct (safe_upd_info p (si_set_ttl ttl) s Hi) as ([]&s1&E&Hi1&Hg1&_); [by intros y| |].
      - intros y r e Hy He. by apply (inv_info_endpoints s Hi p y r).
      - exists (), s1. split_and!; try done. by injection E as <-. }
    intros [] s1 Hi1 _ ->. apply safe_mret; [done|]. split; [by eexists|]. unfold life_at, service_at.
    change (find_service_info ?a ?b (rv_set_infos ?v s)) with (find_service_info a b s). rewrite Ep. cbn. split.
    + rewrite lookup_alter_eq, Hx. cbn. unfold life. cbn. by rewrite (Hloc x Hx).
    + intros sv' i' Hne. change (find_service_info ?a ?b (rv_set_infos ?v s)) with (find_service_info a b s).
      destruct (find_service_info sv' i' s) as [q|] eqn:Eq; [|done]. rewrite lookup_alter_ne; [done|].
      intros ->. destruct (infos_differ s sv i sv' i' q Hi Ep Eq). congruence.
  - cbv zeta. fold (own_offer ra rp ua up). eapply safe_then; [by apply create_service_info_life|]. intros p s1 Hi1 _ (H1&H2&H3).
    eapply safe_then; [apply safe_lives; [by apply safe_init|apply keeps_init]|]. intros [] s2 Hi2 _ [_ Hl].
    apply safe_mret; [done|]. split; [by eexists|]. split; [by rewrite (lives_life_at sv i s1 s2)|].
    intros sv' i' Hne. rewrite (lives_life_at sv' i' s1 s2) by done. by apply H3.
Qed.

(** C33: an offer makes a service known, or renews it, if the service is not known as local
    (such an offer is rejected and changes nothing), all services speak SOME/IP and the
    configured ranges of client ports end below port 65535: afterwards the service instance
    has the offered time to live; a service that was not known has the offered version and
    counts as local exactly if the offer names the address of this device; one that was
    known keeps its version. No other service is changed in this. *)
Theorem offer_is_known sv i major minor ttl ra rp ua up s : inv s →
  (∀ x, service_at sv i s = Some x → si_is_local_ x = false) →
  ∃ s', add_routing_info env sv i major minor ttl ra rp ua up s = Ret ((), s') ∧ inv s' ∧
    life_at sv i s' = Some (offered_life major minor ttl (own_offer ra rp ua up) (service_at sv i s)) ∧
    ∀ sv' i', (sv', i') ≠ (sv, i) → life_at sv' i' s' = life_at sv' i' s.
Proof.
  intros Hi Hloc. destruct (safe_add_routing_info env sv i major minor ttl ra rp ua up s Hi) as ([]&s'&E&Hi'&_&_).
  exists s'. split; [done|]. split; [done|]. unfold add_routing_info in E. apply st_bind_inv in E as (p&s1&E1&E).
  destruct (safe_det _ _ _ _ _ (info_of_offer_life sv i major minor ttl ra rp ua up s Hi Hloc) E1) as [_ ([q ->]&H1&H2)].
  assert (service_lives s' = service_lives s1) as Hl.
  { apply st_bind_inv in E as ([k1 k2]&s2&E2&E). apply st_bind_inv in E as ([u t]&s3&E3&E).
    trans (service_lives s3); [by eapply (keeps_add_unreliable env)|]. trans (service_lives s2); [by eapply (keeps_add_reliable env)|].
    assert (keeps service_lives (is_remote_service_known sv i ra rp ua up)) as Hk by (unfold is_remote_service_known; keeps_solve).
    by eapply Hk. }
  split; [by rewrite (lives_life_at sv i s1 s')|]. intros sv' i' Hne. rewrite (lives_life_at sv' i' s1 s') by done. by apply H2.
Qed.

(** An offer of a service that is offered locally is rejected. *)
Lemma local_offer_rejected sv i major minor ttl ra rp ua up x s : service_at sv i s = Some x → si_is_local_ x = true →
  add_routing_info env sv i major minor ttl ra rp ua up s = Ret ((), s).
Proof.
  unfold service_at, add_routing_info, info_of_offer, the_info. intros Hx Hl. st_run.
  destruct (find_service_info sv i s) as [p|]; [|done]. rewrite Hx. by rewrite Hl.
Qed.

(** ** Results *)

(** C16: a remote service lives as long as it was offered for: if its offer is not renewed, it is
    still known, with the rest of its time, as long as less time than that has passed in the
    updates of the routing info, and it is gone when more has passed, however the time is split
    into updates. *)
Theorem remote_service_lifetime ts sv i x s : inv s → service_at sv i s = Some x → si_is_local_ x = false →
  finite_ttl x → Forall (λ t, 0 ≤ t) ts →
  ∃ s', for_each (update_routing_info env) ts s = Ret ((), s') ∧ inv s' ∧
    (si_ttl_ x < total ts → service_at sv i s' = None) ∧
    (total ts < si_ttl_ x → service_at sv i s' = Some (si_set_precise_ttl (si_ttl_ x - total ts) x)).
Proof.
  intros Hi Hx Hl Hf Hts. destruct (updates_view ts s Hi) as ([]&s'&E&Hi'&_&Hv). exists s'. split; [done|]. split; [done|].
  rewrite Hv, Hx. by apply lifetime_views.
Qed.

(** One update of the routing info, for all services at once: a local service stays as it
    is, a remote one that was offered until the next reboot too; any other remote service loses
    the time that has passed, and goes if less than that was left. *)
Theorem time_passes t s : inv s → ∃ s', update_routing_info env t s = Ret ((), s') ∧ inv s' ∧
  ∀ sv i, service_at sv i s' = service_at sv i s ≫= aged t.
Proof. intros Hi. destruct (time_passes_view t s Hi) as ([]&s'&E&Hi'&_&Hv). eauto. Qed.

(** The client endpoint of a service; for a whole device, the other one if there is none. *)
Definition client_of (s : remote_services) (x : serviceinfo) (r : bool) (y : endpoint) : Prop :=
  ∃ e, si_get_endpoint r x = Some e ∧ rv_endpoints s !! e = Some y ∧ ep_kind y ∈ [TcpClient; UdpClient].
Definition endpoint_used (any r : bool) (s : remote_services) (x : serviceinfo) (y : endpoint) : Prop :=
  client_of s x r y ∨ any = true ∧ (∀ y', ¬ client_of s x r y') ∧ client_of s x (negb r) y.
(** A remote service that is reached at the address, on a port of the range or on any port. *)
Definition lost (a : Z) (range : Z * Z) (r : bool) (s : remote_services) (x : serviceinfo) : Prop :=
  let any := bool_decide (range = (ANY_PORT, ANY_PORT)) in
  si_is_local_ x = false ∧ ∃ y, endpoint_used any r s x y ∧ (any = true ∨ range.1 ≤ ep_port_ y ≤ range.2) ∧
    ep_address_ y = a ∧ is_unspecified env a = false.

Lemma client_endpoint_at_Some s r x y : client_endpoint_at s (si_get_endpoint r x) = Some y ↔ client_of s x r y.
Proof.
  unfold client_endpoint_at, client_of. split.
  - destruct (si_get_endpoint r x) as [e|]; [|done]. destruct (rv_endpoints s !! e) as [z|] eqn:E; [|done].
    destruct (is_client z) eqn:Ec; [|done]. intros [= <-]. exists e. split_and!; try done.
    unfold is_client in Ec. destruct (ep_kind z); try done; rewrite !elem_of_cons; auto.
  - intros (e&->&->&Hk). unfold is_client. rewrite !elem_of_cons in Hk. destruct Hk as [->|[->|?%not_elem_of_nil]]; done.
Qed.
Lemma lost_expires a range r s x : lost a range r s x ↔ negb (si_is_local_ x) && expires_at env a range r s x = true.
Proof.
  unfold lost, expires_at. cbv zeta. destruct range as [p1 p2]; cbn [fst snd].
  replace (bool_decide (p1 = ANY_PORT) && bool_decide (p2 = ANY_PORT)) with (bool_decide ((p1, p2) = (ANY_PORT, ANY_PORT)))
    by (rewrite <-bool_decide_and; apply bool_decide_ext; split; [by intros [= -> ->]|by intros [-> ->]]).
  set (any := bool_decide _).
  set (used := match client_endpoint_at s (si_get_endpoint r x) with Some _ => _ | None => _ end).
  assert (∀ y, used = Some y ↔ endpoint_used any r s x y) as Hused.
  { intros y. unfold used, endpoint_used. destruct (client_endpoint_at s (si_get_endpoint r x)) as [z|] eqn:Ez.
    - apply client_endpoint_at_Some in Ez. split; [intros [= <-]; by left|]. intros [Hy|(_&Hn&_)]; [|by destruct (Hn z)].
      apply client_endpoint_at_Some in Ez, Hy. congruence.
    - assert (∀ y', ¬ client_of s x r y') as Hn by (intros y' Hy'%client_endpoint_at_Some; congruence).
      destruct any; [rewrite client_endpoint_at_Some|]; naive_solver. }
  rewrite andb_true_iff, negb_true_iff. apply and_iff_compat_l. destruct used as [y|].
  - transitivity ((any = true ∨ p1 ≤ ep_port_ y ≤ p2) ∧ ep_address_ y = a ∧ is_unspecified env a = false).
    + split; [|intros H; exists y; split; [by apply Hused|done]]. intros (z&Hz%Hused&H). by injection Hz as <-.
    + rewrite !andb_true_iff, orb_true_iff, andb_true_iff, negb_true_iff, !bool_decide_eq_true.
      split; [intros (H1&<-&H2)|intros ((H1&H2)&<-)]; split_and!; try done; (destruct H1; [by left|right; lia]).
  - split; [|done]. intros (y&Hy%Hused&_). done.
Qed.

(** C32: when connections to an address are lost, exactly the remote services that are
    reached there are forgotten, and all others stay as they are. Which endpoint counts
    depends on the protocol that is given: a service is reached at the address if its
    client endpoint of this protocol has the address, with a port of the given range. If
    the range is that of any port, for a whole device, every port counts, and the endpoint
    of the other protocol is looked at, but only if there is none of the given one; the
    code asks for a whole device with the unreliable protocol. So a service with an
    unreliable endpoint elsewhere and a reliable one at the lost device stays. *)
Theorem lost_device_services a range r s : inv s → ∃ s', expire_services env a range r s = Ret ((), s') ∧ inv s' ∧
  ∀ sv i, match service_at sv i s with
          | Some x => (lost a range r s x → service_at sv i s' = None) ∧ (¬ lost a range r s x → service_at sv i s' = Some x)
          | None => service_at sv i s' = None
          end.
Proof.
  intros Hi. destruct (expire_view a range r s Hi) as ([]&s'&E&Hi'&_&Hv). exists s'. split; [done|]. split; [done|].
  intros sv i. rewrite Hv. destruct (service_at sv i s) as [x|]; [|done]. cbn. split.
  - intros Hl%lost_expires. by rewrite Hl.
  - intros Hn. destruct (negb _ && _) eqn:El; [|done]. destruct Hn. by apply lost_expires.
Qed.

Lemma reached_through_true e r m : reached_through e r m = true ↔ ∃ sv i, m !! (sv, i, r) = Some e.
Proof.
  unfold reached_through. rewrite existsb_exists. split.
  - intros ([[[sv i] r'] e']&Hx%list_elem_of_In&[Hr He]%bool_decide_eq_true). cbn in Hr, He. subst.
    exists sv, i. by apply elem_of_map_to_list.
  - intros (sv&i&Hk). exists ((sv, i, r), e). split; [by apply list_elem_of_In, elem_of_map_to_list|].
    by apply bool_decide_eq_true.
Qed.

(** C35: services at the same address and port share an endpoint, which is stopped with the last of
    them: releasing the endpoint of a service instance takes it from this instance only, and the
    endpoint is stopped exactly if no other service instance is reached through it. *)
Theorem endpoint_stopped_with_last_service sv i r e s : inv s → remote_services_ s !! (sv, i, r) = Some e →
  ∃ s', clear_client_endpoints env sv i r s = Ret ((), s') ∧ inv s' ∧
    remote_services_ s' = delete (sv, i, r) (remote_services_ s) ∧
    ((∃ sv' i', (sv', i') ≠ (sv, i) ∧ remote_services_ s !! (sv', i', r) = Some e) → rv_calls s' = rv_calls s) ∧
    ((∀ sv' i', remote_services_ s !! (sv', i', r) = Some e → (sv', i') = (sv, i)) → rv_calls s' = rv_calls s ++ [EndpointStop e]).
Proof.
  intros Hi He. destruct (safe_clear_client_endpoints env sv i r s Hi) as ([]&s'&E&Hi'&_&_). exists s'. split; [done|]. split; [done|].
  revert E. unfold clear_client_endpoints. st_run. rewrite He. cbn.
  destruct (reached_through e r (delete (sv, i, r) (remote_services_ s))) eqn:Er.
  - intros [= <-]. cbn. split; [done|]. split; [done|]. intros Hall. apply reached_through_true in Er as (sv'&i'&Hk).
    apply lookup_delete_Some in Hk as [Hne Hk]. apply Hall in Hk. congruence.
  - destruct (inv_remote_services s Hi _ _ He) as [x Hx]. unfold the_endpoint. st_run. cbn. rewrite Hx. intros E.
    assert (remote_services_ s' = delete (sv, i, r) (remote_services_ s) ∧ rv_calls s' = rv_calls s ++ [EndpointStop e]) as [-> ->].
    { revert E. case_bool_decide; by intros [= <-]. }
    split; [done|]. split; [|done]. intros (sv'&i'&Hne&Hk). apply not_true_iff_false in Er. destruct Er.
    apply reached_through_true. exists sv', i'. rewrite lookup_delete_ne by congruence. done.
Qed.

(** The end of a service that another device reports ends a service of this device too. *)
Theorem foreign_stop_ends_local_service sv i x s : inv s → service_at sv i s = Some x → si_is_local_ x = true →
  ∃ s', run_host_call env (DelRoutingInfo sv i true true) s = Ret ((), s') ∧ service_at sv i s' = None.
Proof.
  intros Hi Hx Hl. destruct (del_forgets sv i s Hi) as ([]&s'&E&_&_&Hf). exists s'. split; [done|].
  rewrite (forgets_service_at sv i s s') by done. by rewrite bool_decide_true.
Qed.

(** If the report of the end names no endpoint, the service is forgotten, but its endpoints stay
    registered for it. *)
Theorem stop_without_endpoints_leaks sv i x s : inv s → service_at sv i s = Some x →
  ∃ s', run_host_call env (DelRoutingInfo sv i false false) s = Ret ((), s') ∧ service_at sv i s' = None ∧
    remote_services_ s' = remote_services_ s.
Proof.
  intros Hi Hx. unfold service_at in Hx. destruct (find_service_info sv i s) as [p|] eqn:Ep; [|done].
  destruct (del_before sv i false false (si_major_ x) (si_minor_ x) s Hi) as ([]&t5&E&I5&_&Hst).
  destruct (safe_clear_remote_service_info sv i true t5 I5) as ([]&t6&F6&I6&_&_).
  destruct (safe_clear_remote_service_info sv i false t6 I6) as ([]&t7&F7&I7&_&_).
  pose proof (keeps_clear_remote_service_info _ _ _ _ _ _ F6) as S6. pose proof (keeps_clear_remote_service_info _ _ _ _ _ _ F7) as S7.
  destruct (state_view s t7) as [Hf _]; [by rewrite S7, S6|].
  destruct (clear_both sv i t7 I7) as ([]&s'&E'&_&_&Hfor); [rewrite Hf; by eexists|]. exists s'. split_and!.
  - cbn [run_host_call]. unfold del_routing_info. rewrite (st_bind_Ret _ _ s s s eq_refl), Ep.
    rewrite (st_bind_Ret _ _ s x s) by (unfold the_info; st_run; by rewrite Hx).
    apply st_bind_inv in E as ([]&t1&F1&E). rewrite (st_bind_Ret _ _ _ _ _ F1).
    apply st_bind_inv in E as ([]&t2&F2&E). rewrite (st_bind_Ret _ _ _ _ _ F2).
    apply st_bind_inv in E as ([]&t3&F3&E). rewrite (st_bind_Ret _ _ _ _ _ F3).
    apply st_bind_inv in E as ([]&t4&[= <-]&E). apply st_bind_inv in E as ([]&t4&[= <-]&E).
    cbn [negb andb]. do 2 rewrite (st_bind_Ret _ _ t3 () t3 eq_refl). rewrite (st_bind_Ret _ _ _ _ _ E).
    do 2 rewrite (st_bind_Ret _ _ t5 () t5 eq_refl). rewrite (st_bind_Ret _ _ _ _ _ F6), (st_bind_Ret _ _ _ _ _ F7). exact E'.
  - rewrite (forgets_service_at sv i t7 s') by done. by rewrite bool_decide_true.
  - assert (keeps remote_services_ (clear_service_info sv i true;; clear_service_info sv i false)) as K
      by (unfold clear_service_info, the_info, upd_info; keeps_solve).
    rewrite (K _ _ _ E'). injection F7 as <-. injection F6 as <-. cbn.
    apply st_bind_inv in E as ([]&t1&F1&E). apply reach_rcall in F1 as [= A1 A2 A3 A4].
    apply st_bind_inv in E as ([]&t2&F2&E). apply on_stop_offer_reach in F2 as (B1&_).
    apply st_bind_inv in E as ([]&t3&F3&E). apply reach_unsubscribe in F3 as [= C1 C2 C3].
    apply st_bind_inv in E as ([]&t4&[= <-]&E). apply st_bind_inv in E as ([]&t4&[= <-]&E).
    apply reach_clear_multicast in E as [= D1 D2 D3 D4]. congruence.
Qed.

(** When a client releases the last service that it has requested, the requests of the routing
    manager's own client are dropped instead of its own. *)
Theorem release_drops_own_requests c sv i versions s : c ≠ get_client (rm_host env) →
  requested_services_ s !! c = Some {[sv := {[i := versions]}]} →
  ∃ s', requested_service_remove env c sv i s = Ret ((), s') ∧
    requested_services_ s' !! get_client (rm_host env) = None ∧ requested_services_ s' !! c = Some ∅.
Proof.
  intros Hc Hr. eexists. unfold requested_service_remove. st_run. split; [reflexivity|]. cbn. rewrite Hr.
  rewrite lookup_singleton_eq, lookup_singleton_eq, !delete_singleton_eq. rewrite !bool_decide_true by done.
  rewrite lookup_delete_eq, lookup_delete_ne by done. by rewrite lookup_insert_eq.
Qed.

(** ** All that can happen *)

Inductive remote_op : Type :=
| HostCall (c : host_call_t)
| JoinGroup (sv i sender a port : Z)
| Connected (e : Z) (is_open : bool)
| Disconnected (e : Z)
| ConnectedSoon (sv i e : Z) (is_open : bool)
| Requested (c sv i major minor : Z)
| Released (c sv i : Z).
Definition run_op (op : remote_op) : ST remote_services () :=
  match op with
  | HostCall c => run_host_call env c
  | JoinGroup sv i sender a port => find_or_create_multicast_endpoint env sv i sender a port
  | Connected e is_open => on_connect env e is_open
  | Disconnected e => on_disconnect e
  | ConnectedSoon sv i e is_open => call_sd_endpoint_connected env sv i e is_open
  | Requested c sv i major minor => requested_service_add c sv i major minor
  | Released c sv i => requested_service_remove env c sv i
  end.
(** Only endpoints that exist are connected or disconnected. *)
Definition possible (op : remote_op) (s : remote_services) : Prop :=
  match op with Connected e _ | Disconnected e => is_Some (rv_endpoints s !! e) | _ => True end.

(** No service is known, no endpoint exists; the eventgroups and events are given. *)
Definition start_state (r : routing) : remote_services := RemoteServices r ∅ ∅ ∅ ∅ ∅ ∅ ∅ ∅ ∅ ∅ ∅ ∅ ∅ ∅ ∅ [].
Definition routing_ok (r : routing) : Prop :=
  (∀ k g, r_eventgroups_ r !! k = Some g → is_Some (r_groups r !! g)) ∧
  ∀ g x e, r_groups r !! g = Some x → e ∈ eg_events_ x → is_Some (r_events r !! e).
Lemma start_inv r : routing_ok r → inv (start_state r).
Proof.
  intros [H1 H2]. constructor; cbn; eauto; unfold find_service_info, remote_info, at_instance, start_state; cbn;
    intros *; rewrite ?lookup_empty; done.
Qed.

Inductive reachable (r : routing) : remote_services → Prop :=
| reachable_start : reachable r (start_state r)
| reachable_step op s s' : reachable r s → possible op s → run_op op s = Ret ((), s') → reachable r s'.

Lemma safe_run_op op s : inv s → possible op s → safe (run_op op) done_ s.
Proof.
  intros Hi Hp. destruct op; cbn [run_op].
  - by apply safe_run_host_call.
  - by apply safe_multicast.
  - by apply safe_on_connect.
  - by apply safe_on_disconnect.
  - by apply safe_call_sd_connected.
  - apply safe_modify; [inv_same|grows_same|done].
  - apply safe_modify; [inv_same|grows_same|done].
Qed.

(** C15: if all services speak SOME/IP and the configured ranges of client ports end below
    port 65535, then whatever other devices offer and withdraw, whatever applications
    request and release, and however connections come and go, the state of the remote
    services stays consistent: the remote services are exactly the known services that are
    not local, each with an info of its own, and every reference is to an object that
    exists. In every state that can be reached, every call returns: none meets a dangling
    reference or fails to end. Without the two conditions this is not so: a service of
    another protocol has no endpoint where one is used, and the search in a range up to the
    last port wraps around. *)
Theorem remote_services_safe r s : routing_ok r → reachable r s →
  inv s ∧ ∀ op, possible op s → ∃ s', run_op op s = Ret ((), s').
Proof.
  intros Hr Hs. assert (inv s) as Hi.
  { induction Hs as [|op s s' Hs IH Hp E]; [by apply start_inv|].
    by destruct (safe_det _ _ _ _ _ (safe_run_op op s IH Hp) E) as [? _]. }
  split; [done|]. intros op Hp. destruct (safe_run_op op s Hi Hp) as ([]&s'&E&_). by exists s'.
Qed.
End lifetime.

(** ** Examples *)

Definition example_env : rm_env := {|
  rm_host := {| find_local_client := λ _ _, 0; get_reliable_port := λ _ _, 30509; get_unreliable_port := λ _ _, 0;
                get_multicast := λ _ _ _, None; get_threshold := λ _ _ _, 0; find_service := λ _ _, None;
                is_multicast := λ _, false; Eventgroups.get_client := 0x100; has_discovery := true; enable_compat := false |};
  rm_unicast := 1;
  is_someip := λ _ _, true;
  rm_clients := [];
  has_enabled_magic_cookies := λ _ _, false;
  can_create_client := λ _ _ _ _, true;
  can_create_server := λ _ _, true;
  is_unspecified := λ a, bool_decide (a = 0);
  no_ip_address := 0;
  security_is_enabled := false
|}.
#[export] Instance example_well_configured : well_configured example_env.
Proof. split; [done|]. intros r. constructor. Qed.
Definition example_routing : routing := Routing ∅ ∅ ∅ ∅ ∅ ∅ ∅ ∅ 0 true 1 [] [].
Definition example_start : remote_services := start_state example_routing.
Lemma example_ok : routing_ok example_routing.
Proof. split; intros *; cbn; rewrite ?lookup_empty; done. Qed.
Definition run_ops (l : list remote_op) (s : remote_services) : outcome remote_services :=
  '(_, s') ← for_each (run_op example_env) l s; Ret s'.

(** An application has requested two services that another device offers over TCP on the same
    port. *)
Definition two_offers : list remote_op := [
  Requested 0x200 0x1111 1 1 0; Requested 0x200 0x2222 1 1 0;
  HostCall (AddRoutingInfo 0x1111 1 1 0 3 7 40000 7 0); HostCall (AddRoutingInfo 0x2222 1 1 0 5 7 40000 7 0)].
Lemma run_ops_inv l s s' : inv s → (∀ op t, op ∈ l → possible op t) → run_ops l s = Ret s' → inv s'.
Proof.
  unfold run_ops. revert s. induction l as [|op l IH]; intros s Hi Hp; cbn [for_each]; [by intros [= <-]|]. intros E.
  apply outcome_bind_inv in E as ([[] s1]&E&[= <-]). apply st_bind_inv in E as ([]&s2&E1&E2).
  destruct (safe_det _ _ _ _ _ (safe_run_op example_env op s Hi (Hp op s ltac:(left))) E1) as [Hi2 _].
  apply (IH s2 Hi2); [intros op' t Hop; apply Hp; by right|]. by rewrite E2.
Qed.
Lemma run_ops_reachable l s s' : reachable example_env example_routing s → (∀ op t, op ∈ l → possible op t) →
  run_ops l s = Ret s' → reachable example_env example_routing s'.
Proof.
  unfold run_ops. revert s. induction l as [|op l IH]; intros s Hr Hp; cbn [for_each]; [by intros [= <-]|]. intros E.
  apply outcome_bind_inv in E as ([[] s1]&E&[= <-]). apply st_bind_inv in E as ([]&s2&E1&E2).
  apply (IH s2); [|intros op' t Hop; apply Hp; by right|by rewrite E2].
  by eapply reachable_step; [exact Hr|apply Hp; left|].
Qed.
Definition after_offers : remote_services :=
  match run_ops two_offers example_start with Ret s => s | _ => example_start end.
Lemma after_offers_eq : run_ops two_offers example_start = Ret after_offers.
Proof. vm_compute. reflexivity. Qed.
Lemma two_offers_possible op t : op ∈ two_offers → possible op t.
Proof. unfold two_offers. rewrite !elem_of_cons. intros Hop. destruct_or! Hop; subst; done || by apply not_elem_of_nil in Hop. Qed.
Lemma after_offers_inv : inv after_offers.
Proof. apply (run_ops_inv two_offers example_start); [apply start_inv, example_ok|apply two_offers_possible|apply after_offers_eq]. Qed.

(** Both services use one endpoint. *)
Example shared_endpoint :
  (map_to_list (remote_services_ after_offers), rv_calls after_offers)
  = ([((0x1111, 1, true), 0); ((0x2222, 1, true), 0)], [EndpointStart 0]).
Proof. vm_compute. reflexivity. Qed.
(** The connection makes both available; the first service expires, then the device is lost. *)
Example life_of_offers :
  (s ← run_ops [Connected 0 true; ConnectedSoon 0x1111 1 0 true; HostCall (UpdateRoutingInfo 2000);
                HostCall (UpdateRoutingInfo 2000); HostCall (ExpireServices 7 0 false)] after_offers;
   Ret (drop 1 (rv_calls s)))
  = Ret [OnAvailability 0x2222 1 true 1 0; InformRequesters 0 0x2222 1 1 0 true; EndpointConnectedSoon 0x2222 1 0;
         OnAvailability 0x1111 1 true 1 0; InformRequesters 0 0x1111 1 1 0 true; EndpointConnectedSoon 0x1111 1 0;
         OnEndpointConnected 0x1111 1 0;
         UnsubscribeAll 0x1111 1; OnAvailability 0x1111 1 false 1 0; InformRequesters 0 0x1111 1 1 0 false;
         UnsubscribeAll 0x2222 1; OnAvailability 0x2222 1 false 1 0; InformRequesters 0 0x2222 1 1 0 false; EndpointStop 0].
Proof. vm_compute. reflexivity. Qed.
(** After an end without endpoints, the connection of the shared endpoint is reported to nobody. *)
Example leak_hides_services :
  (s ← run_ops [HostCall (DelRoutingInfo 0x1111 1 false false); Connected 0 true] after_offers; Ret (drop 1 (rv_calls s)))
  = Ret [OnAvailability 0x1111 1 false 1 0].
Proof. vm_compute. reflexivity. Qed.

Definition info_1111 : serviceinfo :=
  ServiceInfo None 0x1111 1 1 0 3000 (Some 0) None {[0x200]} false false.
Lemma service_1111 : service_at 0x1111 1 after_offers = Some info_1111.
Proof. vm_compute. reflexivity. Qed.

Lemma remote_services_safe_witness :
  inv after_offers ∧ ∃ s', run_op example_env (Connected 0 true) after_offers = Ret ((), s').
Proof.
  destruct (remote_services_safe example_env example_routing after_offers) as [H1 H2].
  - exact example_ok.
  - apply (run_ops_reachable two_offers example_start); [constructor|apply two_offers_possible|apply after_offers_eq].
  - split; [exact H1|]. apply H2. eexists. vm_compute. reflexivity.
Defined.
Lemma remote_service_lifetime_witness :
  ∃ s', for_each (update_routing_info example_env) [2000; 2000] after_offers = Ret ((), s') ∧ service_at 0x1111 1 s' = None.
Proof.
  destruct (remote_service_lifetime example_env [2000; 2000] 0x1111 1 info_1111 after_offers) as (s'&E&_&H&_).
  - exact after_offers_inv.
  - exact service_1111.
  - reflexivity.
  - unfold finite_ttl, DEFAULT_TTL. cbn. lia.
  - repeat constructor; lia.
  - exists s'. split; [exact E|]. apply H. cbn. lia.
Defined.
Lemma time_passes_witness :
  ∃ s', update_routing_info example_env 4000 after_offers = Ret ((), s') ∧
    service_at 0x1111 1 s' = None ∧ si_ttl_ <$> service_at 0x2222 1 s' = Some 1000.
Proof.
  destruct (time_passes example_env 4000 after_offers after_offers_inv) as (s'&E&_&H).
  exists s'. split; [exact E|]. rewrite !H. vm_compute. split; reflexivity.
Defined.
Lemma lost_device_services_witness :
  ∃ s', expire_services example_env 7 (40000, 40000) true after_offers = Ret ((), s') ∧ service_at 0x1111 1 s' = None.
Proof.
  destruct (lost_device_services example_env 7 (40000, 40000) true after_offers after_offers_inv) as (s'&E&_&H).
  exists s'. split; [exact E|]. specialize (H 0x1111 1). rewrite service_1111 in H. apply H.
  split; [reflexivity|]. exists (Endpoint TcpClient 7 40000 CLOSED 0). split_and!.
  - left. exists 0. split_and!; [reflexivity|vm_compute; reflexivity|left].
  - right. cbn. lia.
  - reflexivity.
  - reflexivity.
Defined.
Lemma ended_service_is_gone_witness :
  ∃ s', del_routing_info example_env 0x1111 1 true true after_offers = Ret ((), s') ∧
    service_at 0x1111 1 s' = None ∧ is_Some (service_at 0x2222 1 s').
Proof.
  destruct (ended_service_is_gone example_env 0x1111 1 info_1111 after_offers after_offers_inv service_1111) as (s'&E&_&H&_).
  exists s'. split; [exact E|]. rewrite !H. split; [reflexivity|]. eexists. vm_compute. reflexivity.
Defined.
Lemma offer_is_known_witness :
  ∃ s', add_routing_info example_env 0x1111 1 9 9 10 7 40000 7 0 after_offers = Ret ((), s') ∧
    life_at 0x1111 1 s' = Some (1, 0, 10000, false).
Proof.
  destruct (offer_is_known example_env 0x1111 1 9 9 10 7 40000 7 0 after_offers after_offers_inv) as (s'&E&_&H&_).
  - intros x. rewrite service_1111. intros [= <-]. reflexivity.
  - exists s'. split; [exact E|]. rewrite H, service_1111. reflexivity.
Defined.
Lemma endpoint_stopped_with_last_service_witness :
  ∃ s', clear_client_endpoints example_env 0x1111 1 true after_offers = Ret ((), s') ∧ rv_calls s' = rv_calls after_offers.
Proof.
  destruct (endpoint_stopped_with_last_service example_env 0x1111 1 true 0 after_offers after_offers_inv) as (s'&E&_&_&H&_).
  - vm_compute. reflexivity.
  - exists s'. split; [exact E|]. apply H. exists 0x2222, 1. split; [discriminate|]. vm_compute. reflexivity.
Defined.
